(* ===== verification/_CoqProject ===== *)
-Q . S2P
Prelude.v
Spec.v
Revm.v
LimitCheck.v
Interfaces.v
Journal.v
JournalFacts.v
FrameLimit.v
FrameLimitFacts.v
FrameTree.v
FrameBudget.v
ComputeGas.v
DataSize.v
KVUpdate.v
StateGrowth.v
StorageCallStipend.v
AdditionalLimit.v
AdditionalLimitFacts.v
Alignment.v
LimitOutcomes.v
Dedup.v
Access.v
SystemTx.v
DynamicGas.v
Context.v
Precompiles.v
TxIsolation.v
Intercept.v
Execution.v
ExecutionFacts.v
ExecutionOutcomes.v
EvmState.v
Validation.v
ValidationFacts.v
Instructions.v
InstructionsFacts.v
InstructionSafety.v
GasForwarding.v
KeylessError.v
StateMerge.v
StateMergeFacts.v
SandboxDb.v
Sandbox.v
SandboxFacts.v
BucketHasher.v
Hardfork.v
BlockLimit.v
Effects.v
SystemContracts.v
SystemContractsFacts.v
BlockEvm.v
SequencerRegistry.v
RegistryContract.v
RegistryContractFacts.v
SequencerRegistryFacts.v
BlockExecutor.v
BlockExecutorFacts.v
PreBlock.v
BlockReference.v
MegaEvm.v
MegaEvmFacts.v
EvmReference.v
MemoryEnvs.v
CliInput.v
CliTx.v
CliState.v
CliFacts.v
CliTxFacts.v
CliRpc.v
CliReplay.v
StateTest.v
StateTestFacts.v
CliFixture.v
StateTestCmd.v
CliRun.v
CliExecute.v
T8n.v
T8nFacts.v
CliExecuteFacts.v
TestUtils.v
