(* ===== verification/Prelude.v ===== *)
(** * MegaEVM: execution limits, handlers and blocks

    This library models the [mega-evm] crate ([src/crates/mega-evm/src/]), an EVM on top of [revm]
    and [op-revm] that meters a transaction in four resource dimensions besides gas, detains gas
    after reads of volatile data, prices storage by the load of its bucket, and executes blocks
    under block-wide limits; and the tools around it: [mega-evme], which runs and replays
    transactions, the transition tool [mega-t8n], and the runner of state tests with its command.
    Paths below are relative to the crate's [src/].

    ** The program and its parts

    A transaction enters an EVM ([evm/mod.rs], made by [evm/factory.rs]) through [before_run]
    ([evm/execution.rs]), which promotes system transactions ([system/tx.rs]) and resets the
    context ([evm/context.rs]); validation charges the intrinsic storage gas and scans EIP-7702
    authorizations.  The upstream loop then calls [frame_init], [frame_run] and
    [frame_return_result] for every frame; these handlers guard and intercept calls
    ([system/intercept.rs]) and call the hooks of [AdditionalLimit] ([limit/limit.rs]), which owns
    four trackers, one per dimension ([limit/compute_gas.rs], [data_size.rs], [kv_update.rs],
    [state_growth.rs]), each over a [FrameLimitTracker] ([limit/frame_limit.rs]), and the storage
    stipend ([limit/storage_call_stipend.rs]).  Trackers read accounts through [JournalInspectTr]
    ([evm/host.rs]) without warming them.  The host ([evm/host.rs]) marks volatile reads in the
    tracker of [access/] and prices storage through [external/gas.rs], which asks SALT for bucket
    capacities; the bucket of a key is a hash ([external/hasher/]).  The instruction tables
    ([evm/instructions.rs]) wrap the upstream opcodes with metering, detention, storage gas and
    the cap on forwarded gas; precompiles ([evm/precompiles.rs]) have their own.  A call to the
    keyless deployment contract runs a signed creation in a sandbox ([sandbox/]) over a copy of
    the journal and merges its state back.  [last_frame_result] and [execution_result] close the
    transaction.

    The block executor ([block/executor.rs]) first deploys the system contracts of the hardfork
    ([system/], [block/hardfork.rs]), settles the sequencer registry
    ([system/sequencer_registry.rs]) and takes the system address from it; then, per transaction,
    it asks the limiter ([block/limit.rs]), runs the EVM, commits the state and builds the
    receipt; at last it pays the increments and returns the block's result.  [mega-evme] builds a
    state over an empty or a forked database, a transaction and a context from its options
    ([src/bin/mega-evme/src/common/]); it can record the RPC responses of a replay, replay them
    offline, and dump a fixture for the runner of state tests ([crates/mega-state-test/]), which the
    command [state-test] ([crates/state-test/]) drives.  A replay executes the block up to its
    target with the block executor; [mega-t8n] applies a list of transactions to an allocation.

    ** Files

    - [Prelude]: 64-bit integers (wrapping, saturating, checked), results and panics, sums over
      lists, tactics, hint databases.  - [Effects]: steps that read, change and fail on a state.
    - [Spec]: [evm/spec.rs], [evm/limit.rs], [constants.rs].
    - [Revm]: the upstream types and operations as the classes [Revm] and [RevmState] with their
      laws, and one reference implementation.
    - [LimitCheck]: verdicts and halt reasons.  - [Interfaces]: the traits [JournalInspectTr] and
      [TxRuntimeLimit] as classes, the latter with the laws a dimension promises.
    - [Journal], [JournalFacts]: cold inspection of accounts and slots.
    - [FrameLimit] (model), [FrameLimitFacts], [FrameTree], [FrameBudget]: the frame tracker, its
      invariant, its refinement of an abstract tree of frames, the budgets of frames with the
      charges that reach a frame behind its check.
    - [ComputeGas], [DataSize], [KVUpdate], [StateGrowth], [StorageCallStipend]: the dimensions
      and the stipend, each with its instance of the interface.
    - [AdditionalLimit] (model), [AdditionalLimitFacts], [Alignment], [LimitOutcomes], [Dedup]:
      the aggregate, its verdicts, its frame stacks, what exceeding does, the account
      deduplication of Rex5 over trees of frames, with the places where comments and code part.
    - [Access]: [access/volatile.rs] and [access/tracker.rs].  - [SystemTx]: [system/tx.rs].
    - [DynamicGas], [BucketHasher]: [external/gas.rs], [external/salt.rs], [external/hasher/].
    - [Context], [TxIsolation]: [evm/context.rs], the host side of [evm/host.rs], [oracle.rs].
    - [Intercept]: [system/intercept.rs].  - [Execution], [ExecutionFacts], [ExecutionOutcomes]:
      the handlers of [evm/execution.rs], and what exempt transactions, rescued gas, results and
      interceptors come to.  - [EvmState]: [evm/state.rs].
    - [Validation], [ValidationFacts]: validation, the EIP-7702 scan, fees and the run methods.
    - [Instructions], [InstructionsFacts], [InstructionSafety], [GasForwarding]: the wrappers and
      tables of [evm/instructions.rs] over an interpreter interface, and what holds of every
      program that runs on them.  - [Precompiles]: [evm/precompiles.rs].
    - [KeylessError], [StateMerge], [StateMergeFacts], [SandboxDb], [Sandbox], [SandboxFacts]:
      [sandbox/error.rs], [state_merge.rs], [state.rs], [tx.rs], [execution.rs].
    - [MegaEvm], [MegaEvmFacts], [EvmReference]: the EVM type, its factory, the builders of the
      context and the contexts of the tools that do not use the factory; that it is an EVM the
      block executor may use, with the instruction table and the sandbox composed into it; a
      concrete instance.
    - [Hardfork], [BlockLimit]: [block/hardfork.rs], [block/limit.rs].
    - [SystemContracts], [SystemContractsFacts]: [system/deploy.rs] and the contracts it deploys.
    - [SequencerRegistry], [SequencerRegistryFacts]: [system/sequencer_registry.rs].
      [RegistryContract], [RegistryContractFacts]: the contract itself, as a state machine.
    - [BlockEvm] (the interface of an EVM to blocks), [BlockExecutor], [BlockExecutorFacts],
      [PreBlock], [BlockReference]: [block/executor.rs], [eips.rs], [helpers.rs], [factory.rs].
    - [MemoryEnvs]: [external/test_utils.rs].  - [CliInput], [CliTx], [CliState], [CliFacts],
      [CliTxFacts]: [common/] of [mega-evme].  - [CliRpc]: [common/provider/], the capture of RPC
      responses and their offline replay.
    - [CliReplay], [CliFixture]: [replay/cmd.rs] and [replay/fixture.rs] of [mega-evme].
      [CliExecute], [CliExecuteFacts]: the execution of a replay over the block executor.
      [CliRun]: [common/outcome.rs], and the commands [run] and [tx].
    - [StateTest], [StateTestFacts]: the runner of state tests, [crates/mega-state-test/src/].
      [StateTestCmd]: the command [state-test], with filling and benchmarks.
    - [T8n], [T8nFacts]: [mega-t8n], [src/bin/mega-t8n/src/].  - [TestUtils]: [test_utils/].

    ** How the code is modelled

    A struct is a record, an enum an inductive type, a method a function that returns the new
    state.  [u64] is a [Z] with the wrap-around written out: the release profile has no overflow
    checks.  [option] in the type [panics] is a Rust panic ([assert!], [expect], [unreachable!],
    slicing); debug assertions are left out.  A method that returns [Result] returns the state
    next to it, because it mutates before it fails.  [Rc<RefCell<_>>] fields are plain fields:
    every borrow ends before the next starts.  Frame stacks have their top first.  Upstream code
    is a class parameter; the behaviour relied on is a class of laws, and every property that
    uses such laws has a witness at a concrete instance.

    ** What is proved

    - The tracker: cached totals equal the recomputed ones (C1); it implements an abstract tree
      of frames (C2); budgets of frames bound the transaction, up to the charges they do not see
      (C8).
    - The aggregate: which verdict is reported and that it is final (C3, C4), exempt transactions
      end as their frames do (C5), the fast path (C6), the alignment of its five stacks (C7), detention (C13), the
      deduplication (C15), isolation of transactions (C27).
    - Inspection leaves no trace in the access list (C16); the disabling of volatile access is
      scoped (C19); storage gas is a price list (C20).
    - The handlers: the loop keeps limits and EVM frames in step (C28), what is rescued after
      an out-of-gas, and that nothing else is (C29), every halt has a reason (C30), the control contracts are confined
      (C31), system transactions are authenticated (C32), validation charges exactly the intrinsic
      gas (C26) and scans authorizations as they apply (C40).
    - Instructions keep the stacks of frames (C34), forward at most 98/100 of the gas (C35) and
      record no volatile access while it is disabled (C36); precompiles settle their gas, and
      what is recorded is compared with what the caller loses (C33).
    - The sandbox: errors survive their encoding (C37), its state merges all or nothing (C38),
      and a deployment settles its gas (C39).
    - The EVM only reads the database while it executes, whatever programs its frames run and
      whatever it deploys in the sandbox (C9), which is what the block executor relies on.
    - Blocks: the books of a block balance (C21), the work before it settles (C22), and block
      limits hold (C25).
    - The registry: the due check of the node agrees with the contract and records the slots it
      reads (C11), and a scheduled change takes effect (C24).
    - The tools: a replay reports its target as the block ran it (C10), the transition tool keeps
      its ledger (C18), a created transaction and its envelope carry the options of the command
      (C12), a dumped state can be loaded again (C14), a dumped fixture validates itself and is anchored to the chain (C23), and
      the parallel run of state tests is exact under every schedule (C17).

    ** Bounds and fuel

    Loops of the code are folds over lists, and recursion is structural, with three exceptions that
    run on fuel.  [CliTx.split] and [CliTx.trim_start_matches] run on the length of the string,
    which is enough as every step takes off at least one character ([CliTxFacts.split_spec],
    [trim_start_matches_enough]); [TestUtils.chunks] on the length of its list, for the same
    reason; and the traversals of the inspector in [TestUtils] on the number of nodes, which is enough for the
    trees it builds ([TestUtils.rep_chs_flattened]).  [FrameTree] quantifies over all finite
    trees and [ExecutionFacts] over all finite prefixes of the loop; [script_run] replays a fixed
    script in a witness.  Where a theorem needs that counters did not wrap, it says so ([in_u64],
    [u64_max]).

    ** Not modelled

    Upstream code (revm, op-revm, alloy) is a parameter, and so are the generated ABI codecs, JSON,
    hashes and signatures.  Left out: the entry points and their parsing of arguments, tracing and
    logging, the layout of what is printed, the texts of errors, debug assertions, the traced rerun
    of a failed state test, and the Solidity sources but for the sequencer registry's. *)

From stdpp Require Export base option list gmap strings.
From Stdlib Require Export ZArith Lia.

(** * Machine integers

    A Rust [u64] is a [Z] in [[0, 2^64)].  The release profile of the workspace
    does not enable overflow checks, so [+], [-] and [*] wrap; the saturating and
    checked variants are the ones of the standard library. *)

Declare Scope u64_scope.
Delimit Scope u64_scope with u64.
Open Scope Z_scope.

Definition two64 : Z := 18446744073709551616.
Definition u64_max : Z := 18446744073709551615.

Definition in_u64 (z : Z) : Prop := 0 ≤ z ≤ u64_max.
Definition in_u64b (z : Z) : bool := (0 <=? z) && (z <=? u64_max).

Definition wrap64 (z : Z) : Z := z mod two64.
Definition wadd (a b : Z) : Z := wrap64 (a + b).
Definition wsub (a b : Z) : Z := wrap64 (a - b).
Definition wmul (a b : Z) : Z := wrap64 (a * b).
Definition sat_add (a b : Z) : Z := Z.min u64_max (a + b).
Definition sat_sub (a b : Z) : Z := Z.max 0 (a - b).
Definition sat_mul (a b : Z) : Z := Z.min u64_max (a * b).
Definition checked_mul (a b : Z) : option Z :=
  if a * b <=? u64_max then Some (a * b) else None.
Definition checked_add (a b : Z) : option Z :=
  if a + b <=? u64_max then Some (a + b) else None.

Notation "a +w b" := (wadd a b) (at level 50, left associativity) : u64_scope.
Notation "a -w b" := (wsub a b) (at level 50, left associativity) : u64_scope.
Open Scope u64_scope.

(** * Panics

    [None] as the result of a whole operation is a Rust panic ([expect], [assert!],
    [unreachable!]).  The notation of stdpp's option monad sequences operations
    that may panic; [assert_] is [assert!]. *)

Abbreviation panics A := (option A) (only parsing).

Definition assert_ (b : bool) : panics unit := if b then Some tt else None.

(** A fallible operation that returns [Result<A, E>]. *)
Inductive result (A E : Type) : Type :=
  | Ok (a : A)
  | Err (e : E).
Arguments Ok {A E} a.
Arguments Err {A E} e.

Definition is_ok_result {A E} (r : result A E) : bool :=
  match r with Ok _ => true | Err _ => false end.

(** * Tactics and hints *)

Create HintDb u64.
Create HintDb wrap64.
Create HintDb depth.
Create HintDb keeps.
Create HintDb aligned.
Create HintDb call_wf.

Ltac unfold_u64 :=
  unfold in_u64, wadd, wsub, wmul, wrap64, sat_add, sat_sub, sat_mul, two64, u64_max in *.

(** [u64_lia] closes goals on saturating arithmetic and ranges. *)
Ltac u64_lia := unfold_u64; lia.

(** Case analysis on every [if] and [match] on a boolean or an option that blocks
    the goal, keeping the equations. *)
Ltac case_bools :=
  repeat match goal with
    | |- context [if ?b then _ else _] =>
        lazymatch type of b with bool => destruct b eqn:? end
    end.

Ltac case_bools_in H :=
  repeat match type of H with
    | context [if ?b then _ else _] =>
        lazymatch type of b with bool => destruct b eqn:? end
    end.

Ltac simpl_bools :=
  repeat match goal with
    | H : (_ <? _) = true |- _ => apply Z.ltb_lt in H
    | H : (_ <? _) = false |- _ => apply Z.ltb_ge in H
    | H : (_ <=? _) = true |- _ => apply Z.leb_le in H
    | H : (_ <=? _) = false |- _ => apply Z.leb_gt in H
    | H : (_ =? _) = true |- _ => apply Z.eqb_eq in H
    | H : (_ =? _) = false |- _ => apply Z.eqb_neq in H
    | H : _ && _ = true |- _ => apply andb_true_iff in H as [? ?]
    | H : _ || _ = false |- _ => apply orb_false_iff in H as [? ?]
    | H : negb _ = true |- _ => apply negb_true_iff in H
    | H : negb _ = false |- _ => apply negb_false_iff in H
    end.

(** [bind_inv H] inverts the leading bind of [H : (x ← m; k) = Some r], opening a pair. *)
Ltac bind_inv H :=
  let x := fresh "x" in
  let E := fresh "E" in
  apply bind_Some in H as (x & E & H);
  repeat lazymatch type of x with
    | prod _ _ => let y := fresh "y" in destruct x as [x y]
    end;
  simpl in H.

(** * Lemmas on machine integers *)

Lemma wrap64_small z : in_u64 z → wrap64 z = z.
Proof. intros H. unfold wrap64. apply Z.mod_small. u64_lia. Qed.

Lemma wrap64_range z : in_u64 (wrap64 z).
Proof.
  unfold in_u64, wrap64. pose proof (Z.mod_pos_bound z two64 eq_refl).
  unfold two64, u64_max in *. lia.
Qed.

Lemma wrap64_add_l a b : wrap64 (wrap64 a + b) = wrap64 (a + b).
Proof. apply Zplus_mod_idemp_l. Qed.

Lemma wrap64_add_r a b : wrap64 (a + wrap64 b) = wrap64 (a + b).
Proof. apply Zplus_mod_idemp_r. Qed.

Lemma wrap64_sub_l a b : wrap64 (wrap64 a - b) = wrap64 (a - b).
Proof. apply Zminus_mod_idemp_l. Qed.

Lemma wrap64_sub_r a b : wrap64 (a - wrap64 b) = wrap64 (a - b).
Proof. apply Zminus_mod_idemp_r. Qed.

Lemma wadd_small a b : in_u64 (a + b) → a +w b = a + b.
Proof. apply wrap64_small. Qed.

Lemma wsub_small a b : in_u64 (a - b) → a -w b = a - b.
Proof. apply wrap64_small. Qed.

Lemma wadd_range a b : in_u64 (a +w b).
Proof. apply wrap64_range. Qed.

Lemma wsub_range a b : in_u64 (a -w b).
Proof. apply wrap64_range. Qed.

Lemma sat_sub_range a b : in_u64 a → 0 ≤ b → in_u64 (sat_sub a b).
Proof. u64_lia. Qed.

Lemma sat_add_range a b : 0 ≤ a → 0 ≤ b → in_u64 (sat_add a b).
Proof. u64_lia. Qed.

Lemma sat_mul_range a b : 0 ≤ a → 0 ≤ b → in_u64 (sat_mul a b).
Proof. intros. unfold in_u64, sat_mul. assert (0 ≤ a * b) by nia. u64_lia. Qed.

Lemma in_u64_0 : in_u64 0.
Proof. u64_lia. Qed.

Lemma in_u64_max : in_u64 u64_max.
Proof. u64_lia. Qed.

Lemma in_u64b_spec z : in_u64b z = true ↔ in_u64 z.
Proof. unfold in_u64b, in_u64. rewrite andb_true_iff, !Z.leb_le. tauto. Qed.

Lemma checked_add_Some a b : a + b ≤ u64_max → checked_add a b = Some (a + b).
Proof. intros H. unfold checked_add. by rewrite (proj2 (Z.leb_le _ _) H). Qed.

#[export] Hint Resolve wrap64_range wadd_range wsub_range sat_sub_range sat_add_range
  sat_mul_range in_u64_0 in_u64_max : u64.
#[export] Hint Rewrite wrap64_add_l wrap64_add_r wrap64_sub_l wrap64_sub_r : wrap64.

(** * Sums over lists *)

Definition sumZ {A} (f : A → Z) (l : list A) : Z := foldr (λ x acc, f x + acc) 0 l.

#[global] Arguments sumZ : simpl never.

Lemma sumZ_nil {A} (f : A → Z) : sumZ f [] = 0.
Proof. done. Qed.

Lemma sumZ_cons {A} (f : A → Z) x l : sumZ f (x :: l) = f x + sumZ f l.
Proof. done. Qed.

Lemma sumZ_app {A} (f : A → Z) l k : sumZ f (l ++ k) = sumZ f l + sumZ f k.
Proof. induction l; rewrite ?sumZ_cons, ?sumZ_nil; simpl; rewrite ?sumZ_cons; lia. Qed.

Lemma sumZ_nonneg {A} (f : A → Z) l : Forall (λ x, 0 ≤ f x) l → 0 ≤ sumZ f l.
Proof. induction 1; rewrite ?sumZ_cons, ?sumZ_nil; lia. Qed.

Lemma sumZ_ext {A} (f g : A → Z) l : (∀ x, f x = g x) → sumZ f l = sumZ g l.
Proof. intros E. induction l; rewrite ?sumZ_cons; [done|]. rewrite E. lia. Qed.

(** * Congruence modulo [2^64]

    Wrapping additions may lose information, but they never lose it modulo [2^64]; the
    invariants on cached totals are stated up to this equivalence. *)

Definition cong64 (a b : Z) : Prop := wrap64 a = wrap64 b.

Infix "≡64" := cong64 (at level 70, no associativity) : u64_scope.

#[export] Instance cong64_equiv : Equivalence cong64.
Proof. split; unfold cong64; [by intros ?|by intros ???|intros ?????; congruence]. Qed.

#[export] Instance cong64_add : Proper (cong64 ==> cong64 ==> cong64) Z.add.
Proof.
  intros a a' Ha b b' Hb. unfold cong64 in *.
  by rewrite <- (wrap64_add_l a), <- (wrap64_add_r _ b), Ha, Hb, wrap64_add_l, wrap64_add_r.
Qed.

#[export] Instance cong64_sub : Proper (cong64 ==> cong64 ==> cong64) Z.sub.
Proof.
  intros a a' Ha b b' Hb. unfold cong64 in *.
  by rewrite <- (wrap64_sub_l a), <- (wrap64_sub_r _ b), Ha, Hb, wrap64_sub_l, wrap64_sub_r.
Qed.

Lemma cong64_wrap a : wrap64 a ≡64 a.
Proof. unfold cong64, wrap64. by rewrite Zmod_mod. Qed.

Lemma cong64_wadd a b : a +w b ≡64 a + b.
Proof. apply cong64_wrap. Qed.

Lemma cong64_wsub a b : a -w b ≡64 a - b.
Proof. apply cong64_wrap. Qed.

Lemma cong64_eq a b : in_u64 a → in_u64 b → a ≡64 b → a = b.
Proof. unfold cong64. intros Ha Hb. by rewrite !wrap64_small. Qed.

Lemma cong64_refl_eq a b : a = b → a ≡64 b.
Proof. by intros ->. Qed.

(** [cong64_solve] proves a congruence by dropping the wraps and comparing the sums. *)
Ltac cong64_solve :=
  repeat first [rewrite cong64_wsub | rewrite cong64_wadd | rewrite cong64_wrap];
  apply cong64_refl_eq; lia.

Lemma sumZ_rev {A} (f : A → Z) l : sumZ f (rev l) = sumZ f l.
Proof. induction l; simpl; rewrite ?sumZ_app, ?sumZ_cons, ?sumZ_nil; lia. Qed.

Lemma sumZ_elem_le {A} (f : A → Z) l x :
  Forall (λ y, 0 ≤ f y) l → x ∈ l → f x ≤ sumZ f l.
Proof.
  induction 1 as [|y l Hy Hl IH]; intros Hx; [by apply not_elem_of_nil in Hx|].
  rewrite sumZ_cons. pose proof (sumZ_nonneg f l Hl).
  apply elem_of_cons in Hx as [->|Hx]; [lia|]. specialize (IH Hx). lia.
Qed.

(** * Chains of wrapping operations *)

(** [wrap_eq] proves an equation between two 64-bit values by comparing them modulo
    [2^64]. *)
Ltac wrap_eq :=
  apply cong64_eq; [auto with u64 | auto with u64 | cong64_solve].

(** [fields_eq] compares two records field by field. *)
Ltac fields_eq := first [reflexivity | wrap_eq | progress f_equal; fields_eq].

Lemma wadd_assoc a b c : a +w b +w c = a +w (b + c).
Proof. unfold wadd. by rewrite wrap64_add_l, Z.add_assoc. Qed.

Lemma wadd_wadd_r a b c : a +w (b +w c) = a +w (b + c).
Proof. unfold wadd. by rewrite wrap64_add_r. Qed.

Lemma wadd_wsub a b c : a +w b -w (0 +w c) = a +w (b - c).
Proof.
  unfold wsub, wadd. rewrite wrap64_sub_l, Z.add_0_l, wrap64_sub_r. f_equal. lia.
Qed.

Lemma wadd_0_r a : in_u64 a → a +w 0 = a.
Proof. intros H. unfold wadd. by rewrite Z.add_0_r, wrap64_small. Qed.
