(* ===== verification/Spec.v ===== *)
(** Spec identifiers, protocol constants and per-transaction runtime limits:
    [evm/spec.rs], [constants.rs] and [evm/limit.rs].  The order of the specs is the
    one gate every other component uses ([is_enabled]). *)

From S2P Require Import Prelude.

(** * [MegaSpecId] *)

Inductive MegaSpecId : Type :=
  | EQUIVALENCE
  | MINI_REX
  | REX
  | REX1
  | REX2
  | REX3
  | REX4
  | REX5
  | REX6.

#[export] Instance MegaSpecId_eq_dec : EqDecision MegaSpecId.
Proof. solve_decision. Defined.

(** The discriminant of the [repr(u8)] enum ([self as u8]). *)
Definition spec_u8 (s : MegaSpecId) : Z :=
  match s with
  | EQUIVALENCE => 0 | MINI_REX => 1 | REX => 2 | REX1 => 3 | REX2 => 4
  | REX3 => 5 | REX4 => 6 | REX5 => 7 | REX6 => 8
  end.

Definition is_enabled (self other : MegaSpecId) : bool := spec_u8 other <=? spec_u8 self.

Definition default_spec : MegaSpecId := REX6.

Definition spec_name (s : MegaSpecId) : string :=
  match s with
  | EQUIVALENCE => "Equivalence"
  | MINI_REX => "MiniRex"
  | REX => "Rex"
  | REX1 => "Rex1"
  | REX2 => "Rex2"
  | REX3 => "Rex3"
  | REX4 => "Rex4"
  | REX5 => "Rex5"
  | REX6 => "Rex6"
  end.

Inductive UnknownHardfork : Type := UnknownHardfork_.

Definition spec_from_str (s : string) : result MegaSpecId UnknownHardfork :=
  if String.eqb s "Equivalence" then Ok EQUIVALENCE
  else if String.eqb s "MiniRex" then Ok MINI_REX
  else if String.eqb s "Rex" then Ok REX
  else if String.eqb s "Rex1" then Ok REX1
  else if String.eqb s "Rex2" then Ok REX2
  else if String.eqb s "Rex3" then Ok REX3
  else if String.eqb s "Rex4" then Ok REX4
  else if String.eqb s "Rex5" then Ok REX5
  else if String.eqb s "Rex6" then Ok REX6
  else Err UnknownHardfork_.

(** * Constants *)

Module constants.
Module mini_rex.
Definition MAX_CONTRACT_SIZE : Z := 512 * 1024.
Definition ADDITIONAL_INITCODE_SIZE : Z := 24 * 1024.
Definition MAX_INITCODE_SIZE : Z := MAX_CONTRACT_SIZE + ADDITIONAL_INITCODE_SIZE.
Definition TX_COMPUTE_GAS_LIMIT : Z := 1000000000.
Definition SSTORE_SET_STORAGE_GAS : Z := 2000000.
Definition NEW_ACCOUNT_STORAGE_GAS : Z := 2000000.
Definition CODEDEPOSIT_STORAGE_GAS : Z := 10000.
Definition BLOCK_DATA_LIMIT : Z := 12 * 1024 * 1024 + 512 * 1024.
Definition TX_DATA_LIMIT : Z := BLOCK_DATA_LIMIT * 25 / 100.
Definition BLOCK_KV_UPDATE_LIMIT : Z := 500000.
Definition TX_KV_UPDATE_LIMIT : Z := BLOCK_KV_UPDATE_LIMIT * 25 / 100.
Definition BLOCK_ENV_ACCESS_COMPUTE_GAS : Z := 20000000.
Definition ORACLE_ACCESS_COMPUTE_GAS : Z := 1000000.
End mini_rex.

Module rex3.
Definition REX3_ORACLE_ACCESS_COMPUTE_GAS : Z := 20000000.
End rex3.

Module rex4.
Definition FRAME_LIMIT_NUMERATOR : Z := 98.
Definition FRAME_LIMIT_DENOMINATOR : Z := 100.
Definition STORAGE_CALL_STIPEND : Z := 23000.
End rex4.

Module rex.
Definition TX_INTRINSIC_STORAGE_GAS : Z := 39000.
Definition SSTORE_SET_STORAGE_GAS_BASE : Z := 20000.
Definition NEW_ACCOUNT_STORAGE_GAS_BASE : Z := 25000.
Definition CONTRACT_CREATION_STORAGE_GAS_BASE : Z := 32000.
Definition REX_TX_COMPUTE_GAS_LIMIT : Z := 200000000.
Definition REX_TX_DATA_LIMIT : Z := 12 * 1024 * 1024 + 512 * 1024.
Definition REX_TX_KV_UPDATE_LIMIT : Z := 500000.
Definition TX_STATE_GROWTH_LIMIT : Z := 1000.
Definition BLOCK_STATE_GROWTH_LIMIT : Z := 1000.
End rex.
End constants.

(** * [EvmTxRuntimeLimits] *)

Record EvmTxRuntimeLimits : Type := mkTxLimits {
  tx_data_size_limit : Z;
  tx_kv_updates_limit : Z;
  tx_compute_gas_limit : Z;
  tx_state_growth_limit : Z;
  block_env_access_compute_gas_limit : Z;
  oracle_access_compute_gas_limit : Z;
}.

Definition no_limits : EvmTxRuntimeLimits := {|
  tx_data_size_limit := u64_max;
  tx_kv_updates_limit := u64_max;
  tx_compute_gas_limit := u64_max;
  tx_state_growth_limit := u64_max;
  block_env_access_compute_gas_limit := u64_max;
  oracle_access_compute_gas_limit := u64_max;
|}.

Definition equivalence : EvmTxRuntimeLimits := no_limits.

Definition mini_rex : EvmTxRuntimeLimits := {|
  tx_data_size_limit := constants.mini_rex.TX_DATA_LIMIT;
  tx_kv_updates_limit := constants.mini_rex.TX_KV_UPDATE_LIMIT;
  tx_compute_gas_limit := constants.mini_rex.TX_COMPUTE_GAS_LIMIT;
  tx_state_growth_limit := tx_state_growth_limit equivalence;
  block_env_access_compute_gas_limit := constants.mini_rex.BLOCK_ENV_ACCESS_COMPUTE_GAS;
  oracle_access_compute_gas_limit := constants.mini_rex.ORACLE_ACCESS_COMPUTE_GAS;
|}.

Definition rex : EvmTxRuntimeLimits := {|
  tx_data_size_limit := constants.rex.REX_TX_DATA_LIMIT;
  tx_kv_updates_limit := constants.rex.REX_TX_KV_UPDATE_LIMIT;
  tx_compute_gas_limit := constants.rex.REX_TX_COMPUTE_GAS_LIMIT;
  tx_state_growth_limit := constants.rex.TX_STATE_GROWTH_LIMIT;
  block_env_access_compute_gas_limit := constants.mini_rex.BLOCK_ENV_ACCESS_COMPUTE_GAS;
  oracle_access_compute_gas_limit := constants.mini_rex.ORACLE_ACCESS_COMPUTE_GAS;
|}.

Definition rex3 : EvmTxRuntimeLimits := {|
  tx_data_size_limit := tx_data_size_limit rex;
  tx_kv_updates_limit := tx_kv_updates_limit rex;
  tx_compute_gas_limit := tx_compute_gas_limit rex;
  tx_state_growth_limit := tx_state_growth_limit rex;
  block_env_access_compute_gas_limit := block_env_access_compute_gas_limit rex;
  oracle_access_compute_gas_limit := constants.rex3.REX3_ORACLE_ACCESS_COMPUTE_GAS;
|}.

Definition rex4 : EvmTxRuntimeLimits := rex3.
Definition rex5 : EvmTxRuntimeLimits := rex4.
Definition rex6 : EvmTxRuntimeLimits := rex5.

Definition from_spec (spec : MegaSpecId) : EvmTxRuntimeLimits :=
  match spec with
  | EQUIVALENCE => equivalence
  | MINI_REX => mini_rex
  | REX | REX1 | REX2 => rex
  | REX3 => rex3
  | REX4 => rex4
  | REX5 => rex5
  | REX6 => rex6
  end.

(** The builders set one limit each. *)

Definition with_tx_data_size_limit (limit : Z) (l : EvmTxRuntimeLimits) : EvmTxRuntimeLimits :=
  mkTxLimits limit (tx_kv_updates_limit l) (tx_compute_gas_limit l) (tx_state_growth_limit l)
    (block_env_access_compute_gas_limit l) (oracle_access_compute_gas_limit l).

Definition with_tx_kv_updates_limit (limit : Z) (l : EvmTxRuntimeLimits) : EvmTxRuntimeLimits :=
  mkTxLimits (tx_data_size_limit l) limit (tx_compute_gas_limit l) (tx_state_growth_limit l)
    (block_env_access_compute_gas_limit l) (oracle_access_compute_gas_limit l).

Definition with_tx_compute_gas_limit (limit : Z) (l : EvmTxRuntimeLimits) : EvmTxRuntimeLimits :=
  mkTxLimits (tx_data_size_limit l) (tx_kv_updates_limit l) limit (tx_state_growth_limit l)
    (block_env_access_compute_gas_limit l) (oracle_access_compute_gas_limit l).

Definition with_tx_state_growth_limit (limit : Z) (l : EvmTxRuntimeLimits) : EvmTxRuntimeLimits :=
  mkTxLimits (tx_data_size_limit l) (tx_kv_updates_limit l) (tx_compute_gas_limit l) limit
    (block_env_access_compute_gas_limit l) (oracle_access_compute_gas_limit l).

Definition with_block_env_access_compute_gas_limit (limit : Z) (l : EvmTxRuntimeLimits) : EvmTxRuntimeLimits :=
  mkTxLimits (tx_data_size_limit l) (tx_kv_updates_limit l) (tx_compute_gas_limit l)
    (tx_state_growth_limit l) limit (oracle_access_compute_gas_limit l).

Definition with_oracle_access_compute_gas_limit (limit : Z) (l : EvmTxRuntimeLimits) : EvmTxRuntimeLimits :=
  mkTxLimits (tx_data_size_limit l) (tx_kv_updates_limit l) (tx_compute_gas_limit l)
    (tx_state_growth_limit l) (block_env_access_compute_gas_limit l) limit.

(** * Lemmas *)

Lemma is_enabled_refl s : is_enabled s s = true.
Proof. unfold is_enabled. apply Z.leb_refl. Qed.

Lemma is_enabled_trans s1 s2 s3 :
  is_enabled s1 s2 = true → is_enabled s2 s3 = true → is_enabled s1 s3 = true.
Proof. unfold is_enabled. rewrite !Z.leb_le. lia. Qed.

Lemma is_enabled_total s1 s2 : is_enabled s1 s2 = true ∨ is_enabled s2 s1 = true.
Proof. unfold is_enabled. rewrite !Z.leb_le. lia. Qed.

(** A later gate implies every earlier one; used to discharge impossible
    combinations of cached spec flags. *)
Lemma rex6_rex5 s : is_enabled s REX6 = true → is_enabled s REX5 = true.
Proof. destruct s; done. Qed.

Lemma rex5_rex4 s : is_enabled s REX5 = true → is_enabled s REX4 = true.
Proof. destruct s; done. Qed.

Lemma spec_roundtrip s : spec_from_str (spec_name s) = Ok s.
Proof. by destruct s. Qed.

Lemma from_spec_in_u64 spec :
  in_u64 (tx_data_size_limit (from_spec spec)) ∧
  in_u64 (tx_kv_updates_limit (from_spec spec)) ∧
  in_u64 (tx_compute_gas_limit (from_spec spec)) ∧
  in_u64 (tx_state_growth_limit (from_spec spec)).
Proof. destruct spec; vm_compute; intuition discriminate. Qed.
