(* ===== verification/Revm.v ===== *)
(** The interface of the upstream crates ([revm], [alloy]) as the limit subsystem uses
    it.  None of that code is part of the repository, so its operations are fields of
    the class [Revm]; the behaviour the proofs rely on is the class [RevmLaws].  Inputs
    the code only reads ([FrameInit], [CallInputs], [SStoreResult], the transaction) are
    records of what is read from them.  [reference_revm] is one implementation, used to
    evaluate the model on concrete inputs. *)

From S2P Require Import Prelude.

Abbreviation Address := Z (only parsing).
Abbreviation U256 := Z (only parsing).
Abbreviation Bytes := (list Z) (only parsing).

(** [CallScheme] of revm's interpreter. *)
Inductive CallScheme : Type := SchemeCall | SchemeCallCode | SchemeDelegateCall | SchemeStaticCall.

#[export] Instance CallScheme_eq_dec : EqDecision CallScheme.
Proof. solve_decision. Defined.

(** [CallInput]: bytes of its own, or a range of the shared memory buffer. *)
Inductive CallInput : Type :=
  | InputBytes (bytes : Bytes)
  | InputSharedBuffer (start end_ : Z).

(** What is read of [CallInputs]; [ci_transfers_value] is the value of [transfers_value()],
    [ci_transfer_value] that of [transfer_value()], [ci_value] that of [value.get()]. *)
Record CallInputs : Type := mkCallInputs {
  ci_gas_limit : Z;
  ci_target_address : Address;
  ci_caller : Address;
  ci_scheme : CallScheme;
  ci_transfers_value : bool;
  ci_return_memory_offset : Z * Z;
  ci_transfer_value : option U256;
  ci_input : CallInput;
  ci_value : U256;
}.

(** [cr_created_address n] is the value of [created_address(n)]. *)
Record CreateInputs : Type := mkCreateInputs {
  cr_gas_limit : Z;
  cr_caller : Address;
  cr_created_address : Z → Address;
}.

Inductive FrameInput : Type :=
  | FrameInputCall (inputs : CallInputs)
  | FrameInputCreate (inputs : CreateInputs)
  | FrameInputEmpty.

Record FrameInit : Type := mkFrameInit {
  fi_depth : Z;
  fi_frame_input : FrameInput;
}.

(** The three values an [SSTORE] reports. *)
Record SStoreResult : Type := mkSStoreResult {
  original_value : U256;
  present_value : U256;
  new_value : U256;
}.

(** What is read of a transaction: the calldata length, the sizes of the access-list entries
    if there is an access list, for each EIP-7702 authorization the recovered authority if
    any, the caller, the callee ([None] for [TxKind::Create]), the type byte of the base
    transaction, the deposit source hash, the gas price, the nonce and the chain id. *)
Record MegaTransaction : Type := mkTx {
  tx_input_len : Z;
  tx_access_list : option (list Z);
  tx_authorities : list (option Address);
  tx_caller : Address;
  tx_kind : option Address;
  tx_base_type : Z;
  tx_source_hash : Z;
  tx_gas_price : Z;
  tx_nonce : Z;
  tx_chain_id : option Z;
}.

Class Revm := {
  Gas : Type;
  gas_new : Z → Gas;
  gas_limit : Gas → Z;
  gas_remaining : Gas → Z;
  gas_record_cost : Gas → Z → Gas * bool;
  gas_erase_cost : Gas → Z → Gas;
  InstructionResult : Type;
  OutOfGas : InstructionResult;
  Revert : InstructionResult;
  Return_ : InstructionResult;
  CallTooDeep : InstructionResult;
  is_ok : InstructionResult → bool;
  is_original_eq_present : SStoreResult → bool;
  is_original_eq_new : SStoreResult → bool;
  (** [MegaLimitExceeded { kind, limit }.abi_encode()] of the [sol!] macro. *)
  abi_encode_limit_exceeded : Z → Z → Bytes;
  (** [calculate_initial_tx_gas_for_tx(tx, spec).initial_gas]. *)
  calculate_initial_tx_gas_for_tx : MegaTransaction → Z;
  (** [tx_type()] of the transaction and op-revm's [DEPOSIT_TRANSACTION_TYPE]. *)
  tx_type : MegaTransaction → Z;
  DEPOSIT_TRANSACTION_TYPE : Z;
  (** [alloy_eips::eip4788::SYSTEM_ADDRESS]. *)
  EIP4788_SYSTEM_ADDRESS : Address;
}.

Section results.
Context `{R : Revm}.

Record InterpreterResult : Type := mkInterpreterResult {
  ir_result : InstructionResult;
  ir_output : Bytes;
  ir_gas : Gas;
}.

Inductive FrameResult : Type :=
  | FrameResultCall (result : InterpreterResult) (memory_offset : Z * Z)
  | FrameResultCreate (result : InterpreterResult) (address : option Address).

Definition fr_interpreter_result (r : FrameResult) : InterpreterResult :=
  match r with FrameResultCall i _ => i | FrameResultCreate i _ => i end.

Definition fr_map (f : InterpreterResult → InterpreterResult) (r : FrameResult) : FrameResult :=
  match r with
  | FrameResultCall i o => FrameResultCall (f i) o
  | FrameResultCreate i a => FrameResultCreate (f i) a
  end.

Definition fr_gas (r : FrameResult) : Gas := ir_gas (fr_interpreter_result r).

Definition fr_instruction_result (r : FrameResult) : InstructionResult :=
  ir_result (fr_interpreter_result r).

Definition fr_set_gas (g : Gas) : FrameResult → FrameResult :=
  fr_map (λ i, mkInterpreterResult (ir_result i) (ir_output i) g).

(** What the hooks read of an [EthFrame]. *)
Record EthFrame : Type := mkEthFrame {
  ef_is_create : bool;
  ef_created_address : option Address;
  ef_gas : Gas;
}.

Inductive InterpreterAction : Type :=
  | ActionReturn (result : InterpreterResult)
  | ActionNewFrame.

Inductive ItemOrResult : Type :=
  | Item (frame : EthFrame)
  | Result (result : FrameResult).
End results.

(** The documented behaviour of the gas counter and of the instruction results. *)
Class RevmLaws (R : Revm) := {
  gas_limit_new l : gas_limit (gas_new l) = l;
  gas_remaining_new l : gas_remaining (gas_new l) = l;
  gas_record_cost_ok g c :
    0 ≤ c ≤ gas_remaining g →
    gas_remaining (fst (gas_record_cost g c)) = gas_remaining g - c ∧
    gas_limit (fst (gas_record_cost g c)) = gas_limit g;
  (** [erase_cost] gives gas back. *)
  gas_erase_cost_ok g c :
    0 ≤ c → gas_remaining g + c ≤ u64_max →
    gas_remaining (gas_erase_cost g c) = gas_remaining g + c ∧
    gas_limit (gas_erase_cost g c) = gas_limit g;
  is_ok_OutOfGas : is_ok OutOfGas = false;
  is_ok_Revert : is_ok Revert = false;
  is_ok_Return : is_ok Return_ = true;
  (** A transaction with a source hash is a deposit. *)
  tx_type_deposit tx : tx_source_hash tx ≠ 0 → tx_type tx = DEPOSIT_TRANSACTION_TYPE;
  tx_type_base tx : tx_source_hash tx = 0 → tx_type tx = tx_base_type tx;
  is_original_eq_present_spec r :
    is_original_eq_present r = bool_decide (original_value r = present_value r);
  is_original_eq_new_spec r :
    is_original_eq_new r = bool_decide (original_value r = new_value r);
}.

(** * A reference implementation *)

Record RefGas : Type := mkRefGas { rg_limit : Z; rg_remaining : Z }.

Inductive RefInstructionResult : Type :=
  | RefStop | RefReturn | RefOutOfGas | RefRevert | RefCallTooDeep.

#[export] Instance reference_revm : Revm := {|
  Gas := RefGas;
  gas_new l := mkRefGas l l;
  gas_limit := rg_limit;
  gas_remaining := rg_remaining;
  gas_record_cost g c :=
    if c <=? rg_remaining g then (mkRefGas (rg_limit g) (rg_remaining g - c), true)
    else (g, false);
  gas_erase_cost g c := mkRefGas (rg_limit g) (rg_remaining g + c);
  InstructionResult := RefInstructionResult;
  OutOfGas := RefOutOfGas;
  Revert := RefRevert;
  Return_ := RefReturn;
  CallTooDeep := RefCallTooDeep;
  is_ok r := match r with RefStop | RefReturn => true | _ => false end;
  is_original_eq_present r := original_value r =? present_value r;
  is_original_eq_new r := original_value r =? new_value r;
  abi_encode_limit_exceeded k l := [k; l];
  calculate_initial_tx_gas_for_tx tx := 21000 + 16 * tx_input_len tx;
  tx_type tx := if tx_source_hash tx =? 0 then tx_base_type tx else 126;
  DEPOSIT_TRANSACTION_TYPE := 126;
  EIP4788_SYSTEM_ADDRESS := 0xfffffffffffffffffffffffffffffffffffffffe;
|}.

#[export] Instance reference_revm_laws : RevmLaws reference_revm.
Proof.
  assert (Heqb : ∀ a b : Z, (a =? b) = bool_decide (a = b)).
  { intros a b. destruct (Z.eqb_spec a b); symmetry;
      [by apply bool_decide_eq_true | by apply bool_decide_eq_false]. }
  split; try done; simpl.
  - intros g c Hc. rewrite (proj2 (Z.leb_le _ _)) by lia. done.
  - intros tx H. by rewrite (proj2 (Z.eqb_neq _ _)).
  - intros tx ->. done.
  - intros r. apply Heqb.
  - intros r. apply Heqb.
Qed.

(** * Accounts and storage slots

    The public fields of revm's [AccountInfo], [Account] and [EvmStorageSlot].  A [Bytecode]
    matters only for its EIP-7702 variant. *)

Inductive Bytecode : Type :=
  | Eip7702 (address : Address)
  | OtherBytecode (bytes : Bytes).

Record AccountInfo : Type := mkAccountInfo {
  balance : U256;
  nonce : Z;
  code_hash : Z;
  code : option Bytecode;
}.

(** The flags of revm's [AccountStatus]. *)
Record AccountStatus : Type := mkStatus {
  Created : bool;
  CreatedLocal : bool;
  SelfDestructed : bool;
  SelfDestructedLocal : bool;
  Touched : bool;
  LoadedAsNotExisting : bool;
  Cold : bool;
}.

Definition status_empty : AccountStatus := mkStatus false false false false false false false.

(** The status of [Account::new_not_existing]. *)
Definition status_not_existing : AccountStatus :=
  mkStatus false false false false false true false.

Definition status_mark_cold (s : AccountStatus) : AccountStatus :=
  mkStatus (Created s) (CreatedLocal s) (SelfDestructed s) (SelfDestructedLocal s) (Touched s)
    (LoadedAsNotExisting s) true.

Record EvmStorageSlot : Type := mkSlot {
  slot_original : U256;
  slot_present : U256;
  slot_transaction_id : Z;
  slot_is_cold : bool;
}.

Definition slot_mark_cold (s : EvmStorageSlot) : EvmStorageSlot :=
  mkSlot (slot_original s) (slot_present s) (slot_transaction_id s) true.

Record Account : Type := mkAccount {
  acc_info : AccountInfo;
  acc_storage : gmap Z EvmStorageSlot;
  acc_status : AccountStatus;
  acc_transaction_id : Z;
}.

Class RevmState := {
  KECCAK_EMPTY : Z;
  (** [AccountInfo::default()]. *)
  account_info_default : AccountInfo;
  (** [AccountInfo::is_empty]. *)
  account_info_is_empty : AccountInfo → bool;
}.

Section accounts.
Context `{RS : RevmState}.

Definition set_code (a : Account) (c : Bytecode) : Account :=
  mkAccount (mkAccountInfo (balance (acc_info a)) (nonce (acc_info a)) (code_hash (acc_info a))
               (Some c)) (acc_storage a) (acc_status a) (acc_transaction_id a).

Definition mark_cold (a : Account) : Account :=
  mkAccount (acc_info a) (acc_storage a) (status_mark_cold (acc_status a))
    (acc_transaction_id a).

Definition is_created (a : Account) : bool := Created (acc_status a).

(** [state_clear_aware_is_empty(SpecId::PRAGUE)]: the state-clearing rule is active. *)
Definition state_clear_aware_is_empty (a : Account) : bool :=
  account_info_is_empty (acc_info a).
End accounts.

Class RevmStateLaws (RS : RevmState) := {
  default_no_code : code account_info_default = None;
  default_code_hash : code_hash account_info_default = KECCAK_EMPTY;
  default_is_empty : account_info_is_empty account_info_default = true;
}.

#[export] Instance reference_revm_state : RevmState := {|
  KECCAK_EMPTY := 77;
  account_info_default := mkAccountInfo 0 0 77 None;
  account_info_is_empty i := (balance i =? 0) && (nonce i =? 0) && (code_hash i =? 77);
|}.

#[export] Instance reference_revm_state_laws : RevmStateLaws reference_revm_state.
Proof. by split. Qed.
