(* ===== verification/LimitCheck.v ===== *)
(** Verdicts of limit checks: [limit/mod.rs] and the halt reasons of [evm/result.rs]. *)

From S2P Require Import Prelude Revm.

Inductive LimitKind : Type := DataSize | KVUpdate | ComputeGas | StateGrowth.

#[export] Instance LimitKind_eq_dec : EqDecision LimitKind.
Proof. solve_decision. Defined.

Definition as_u8 (k : LimitKind) : Z :=
  match k with DataSize => 0 | KVUpdate => 1 | ComputeGas => 2 | StateGrowth => 3 end.

Definition from_u8 (kind : Z) : option LimitKind :=
  match kind with
  | 0 => Some DataSize
  | 1 => Some KVUpdate
  | 2 => Some ComputeGas
  | 3 => Some StateGrowth
  | _ => None
  end.

Inductive LimitCheck : Type :=
  | WithinLimit
  | ExceedsLimit (kind : LimitKind) (limit used : Z) (frame_local : bool)
  | Exempt.

#[export] Instance LimitCheck_eq_dec : EqDecision LimitCheck.
Proof. solve_decision. Defined.

Definition exceeded_limit (c : LimitCheck) : bool :=
  match c with ExceedsLimit _ _ _ _ => true | _ => false end.

Definition within_limit (c : LimitCheck) : bool :=
  match c with WithinLimit => true | _ => false end.

Definition is_exempt (c : LimitCheck) : bool :=
  match c with Exempt => true | _ => false end.

Definition is_frame_local (c : LimitCheck) : bool :=
  match c with ExceedsLimit _ _ _ true => true | _ => false end.

(** [MegaHaltReason]; the base reasons of op-revm are a parameter type. *)
Inductive MegaHaltReason (OpHaltReason : Type) : Type :=
  | BaseHalt (reason : OpHaltReason)
  | DataLimitExceeded (limit actual : Z)
  | KVUpdateLimitExceeded (limit actual : Z)
  | ComputeGasLimitExceeded (limit actual : Z)
  | StateGrowthLimitExceeded (limit actual : Z)
  | SystemTxInvalidCallee (callee : Address)
  | VolatileDataAccessOutOfGas (access_type limit actual : Z).
Arguments BaseHalt {_} _.
Arguments DataLimitExceeded {_} _ _.
Arguments KVUpdateLimitExceeded {_} _ _.
Arguments ComputeGasLimitExceeded {_} _ _.
Arguments StateGrowthLimitExceeded {_} _ _.
Arguments SystemTxInvalidCallee {_} _.
Arguments VolatileDataAccessOutOfGas {_} _ _ _.

Definition maybe_halt_reason {Op} (c : LimitCheck) : option (MegaHaltReason Op) :=
  match c with
  | ExceedsLimit DataSize limit used _ => Some (DataLimitExceeded limit used)
  | ExceedsLimit KVUpdate limit used _ => Some (KVUpdateLimitExceeded limit used)
  | ExceedsLimit ComputeGas limit used _ => Some (ComputeGasLimitExceeded limit used)
  | ExceedsLimit StateGrowth limit used _ => Some (StateGrowthLimitExceeded limit used)
  | WithinLimit | Exempt => None
  end.

Definition revert_data `{R : Revm} (c : LimitCheck) : Bytes :=
  match c with
  | ExceedsLimit kind limit _ _ => abi_encode_limit_exceeded (as_u8 kind) limit
  | WithinLimit | Exempt => []
  end.

Lemma from_u8_as_u8 k : from_u8 (as_u8 k) = Some k.
Proof. by destruct k. Qed.

Lemma from_u8_Some z k : from_u8 z = Some k → as_u8 k = z.
Proof.
  destruct (decide (z = 0)) as [->|]; [by intros [= <-]|].
  destruct (decide (z = 1)) as [->|]; [by intros [= <-]|].
  destruct (decide (z = 2)) as [->|]; [by intros [= <-]|].
  destruct (decide (z = 3)) as [->|]; [by intros [= <-]|].
  destruct z as [|p|p]; try done.
  destruct p as [[]|[]|]; done.
Qed.

Lemma halt_iff_exceeded {Op} c :
  is_Some (maybe_halt_reason (Op := Op) c) ↔ exceeded_limit c = true.
Proof.
  split; [intros [h Hh]; by destruct c|].
  destruct c as [|[] l u f|]; intros H; try done; eexists; reflexivity.
Qed.

Lemma exceeded_not_within c : exceeded_limit c = true → within_limit c = false.
Proof. by destruct c. Qed.
