(* ===== verification/Interfaces.v ===== *)
(** The two traits the resource trackers are written against: [JournalInspectTr] of
    [evm/host.rs] (reading accounts without warming them) and [TxRuntimeLimit] of
    [limit/frame_limit.rs] (the life-cycle hooks of one resource dimension), and the laws a
    dimension promises to the limit it is part of. *)

From S2P Require Import Prelude Spec Revm LimitCheck.

(** * [JournalInspectTr]

    The journal is mutable, also when the call fails: each method returns the journal next
    to its [Result].  The two methods that [unwrap] a lookup may panic. *)

Class JournalInspectTr `{RS : RevmState} (J : Type) := {
  DBError : Type;
  inspect_account : Address → bool → J → J * result Account DBError;
  inspect_account_delegated : MegaSpecId → Address → J → panics (J * result Account DBError);
  inspect_storage : MegaSpecId → Address → Z → J → panics (J * result EvmStorageSlot DBError);
}.

(** The provided method of the trait. *)
Definition resolve_eip7702_delegate_address `{JournalInspectTr J} (spec : MegaSpecId)
    (address : Address) (j : J) : J * result Address DBError :=
  let load_code := is_enabled spec REX5 in
  match inspect_account address load_code j with
  | (j, Err e) => (j, Err e)
  | (j, Ok account) =>
      let delegate :=
        match code (acc_info account) with Some (Eip7702 a) => Some a | _ => None end in
      (j, Ok (default address delegate))
  end.

(** * [TxRuntimeLimit] *)

Section runtime_limit.
Context `{R : Revm} `{RS : RevmState}.

Class TxRuntimeLimit (T : Type) := {
  tx_limit : T → Z;
  tx_usage : T → Z;
  reset : T → T;
  check_limit : T → panics LimitCheck;
  before_tx_start : MegaTransaction → T → T;
  push_empty_frame : T → panics T;
  before_frame_init : ∀ {J} {HJ : JournalInspectTr J},
    FrameInit → J → T → panics (T * J * result unit DBError);
  after_frame_init_on_frame : EthFrame → T → panics T;
  before_frame_run : EthFrame → T → T;
  after_frame_run : EthFrame → InterpreterAction → T → T;
  (** The first argument is the const generic [LAST_FRAME]. *)
  before_frame_return_result : bool → FrameResult → T → panics T;
  after_sstore : SStoreResult → T → T;
  after_log : Z → Z → T → T;
  after_selfdestruct : Z → T → T;
}.

(** What a dimension promises: every hook moves its frame stack the way the EVM's call
    stack moves, keeps its invariant, and the pop panics exactly on an empty stack of a
    frame that is not the last. *)
Class TxRuntimeLimitLaws (T : Type) `{!TxRuntimeLimit T} := {
  frame_depth : T → nat;
  tracker_wf : T → Prop;
  reset_law t : tracker_wf t → frame_depth (reset t) = 0%nat ∧ tracker_wf (reset t);
  before_tx_start_law tx t :
    tracker_wf t →
    frame_depth (before_tx_start tx t) = frame_depth t ∧ tracker_wf (before_tx_start tx t);
  push_empty_frame_law t t' :
    tracker_wf t → push_empty_frame t = Some t' →
    frame_depth t' = S (frame_depth t) ∧ tracker_wf t';
  before_frame_init_law {J} {HJ : JournalInspectTr J} fi (j : J) t t' j' r :
    tracker_wf t → before_frame_init fi j t = Some (t', j', r) →
    frame_depth t' = S (frame_depth t) ∧ tracker_wf t';
  after_frame_init_law f t t' :
    tracker_wf t → after_frame_init_on_frame f t = Some t' →
    frame_depth t' = frame_depth t ∧ tracker_wf t';
  before_frame_run_law f t :
    tracker_wf t →
    frame_depth (before_frame_run f t) = frame_depth t ∧ tracker_wf (before_frame_run f t);
  after_frame_run_law f a t :
    tracker_wf t →
    frame_depth (after_frame_run f a t) = frame_depth t ∧ tracker_wf (after_frame_run f a t);
  return_law last r t :
    tracker_wf t →
    match before_frame_return_result last r t with
    | Some t' =>
        (last = false → frame_depth t ≠ 0%nat) ∧
        frame_depth t' = pred (frame_depth t) ∧ tracker_wf t'
    | None => last = false ∧ frame_depth t = 0%nat
    end;
  after_sstore_law s t :
    tracker_wf t →
    frame_depth (after_sstore s t) = frame_depth t ∧ tracker_wf (after_sstore s t);
  after_log_law n d t :
    tracker_wf t →
    frame_depth (after_log n d t) = frame_depth t ∧ tracker_wf (after_log n d t);
  after_selfdestruct_law n t :
    tracker_wf t →
    frame_depth (after_selfdestruct n t) = frame_depth t ∧
    tracker_wf (after_selfdestruct n t);
}.
End runtime_limit.
