(* ===== verification/Journal.v ===== *)
(** Cold inspection of accounts and slots: the [JournalInspectTr] implementation of
    [evm/host.rs] for revm's [Journal].

    The journal is the part of revm's [Journal] the inspection reads and writes: the loaded
    accounts and the transaction id.  The database is upstream code; it is represented by the
    accounts it holds, its codes and storage, and the addresses on which it fails. *)

From S2P Require Import Prelude Spec Revm Interfaces.

Record Database (E : Type) : Type := mkDatabase {
  db_accounts : gmap Z AccountInfo;
  db_account_error : Address → option E;
  db_code_by_hash : Z → result Bytecode E;
  db_storage : Address → Z → result U256 E;
}.
Arguments mkDatabase {E} _ _ _ _.
Arguments db_accounts {E} _.
Arguments db_account_error {E} _.
Arguments db_code_by_hash {E} _.
Arguments db_storage {E} _.

Section journal.
Context `{RS : RevmState} {E : Type} (db : Database E).

(** [Database::basic]. *)
Definition basic (address : Address) : result (option AccountInfo) E :=
  match db_account_error db address with
  | Some e => Err e
  | None => Ok (db_accounts db !! address)
  end.

Record Journal : Type := mkJournal {
  jr_state : gmap Z Account;
  jr_transaction_id : Z;
}.

Definition jr_insert (a : Address) (acc : Account) (j : Journal) : Journal :=
  mkJournal (<[a := acc]> (jr_state j)) (jr_transaction_id j).

(** [info.into()] and [Account::new_not_existing]. *)
Definition account_from_info (i : AccountInfo) : Account :=
  mkAccount i ∅ status_empty 0.
Definition new_not_existing (transaction_id : Z) : Account :=
  mkAccount account_info_default ∅ status_not_existing transaction_id.

Definition needs_code (acc : Account) : bool :=
  negb (code_hash (acc_info acc) =? KECCAK_EMPTY) &&
  match code (acc_info acc) with None => true | Some _ => false end.

Definition inspect_account (address : Address) (load_code : bool) (j : Journal)
    : Journal * result Account E :=
  match jr_state j !! address with
  | Some account =>
      if needs_code account then
        match db_code_by_hash db (code_hash (acc_info account)) with
        | Err e => (j, Err e)
        | Ok c => (jr_insert address (set_code account c) j, Ok (set_code account c))
        end
      else (j, Ok account)
  | None =>
      match basic address with
      | Err e => (j, Err e)
      | Ok info =>
          let account :=
            match info with
            | Some i => account_from_info i
            | None => new_not_existing (jr_transaction_id j)
            end in
          if load_code && needs_code account then
            match db_code_by_hash db (code_hash (acc_info account)) with
            | Err e => (j, Err e)
            | Ok c =>
                let account := mark_cold (set_code account c) in
                (jr_insert address account j, Ok account)
            end
          else
            let account := mark_cold account in
            (jr_insert address account j, Ok account)
      end
  end.

Definition inspect_account_code_hash (address : Address) (j : Journal) : Journal * result Z E :=
  match jr_state j !! address with
  | Some account => (j, Ok (code_hash (acc_info account)))
  | None =>
      match basic address with
      | Err e => (j, Err e)
      | Ok info =>
          let account :=
            match info with
            | Some i => account_from_info i
            | None => new_not_existing (jr_transaction_id j)
            end in
          let account := mark_cold account in
          (jr_insert address account j, Ok (code_hash (acc_info account)))
      end
  end.

Definition delegate (acc : Account) : option Address :=
  match code (acc_info acc) with Some (Eip7702 a) => Some a | _ => None end.

(** The loop before Rex4.  Each round of the Rust [loop] costs one unit of fuel; the result
    names the account the returned reference points to. *)
Fixpoint follow_delegation (fuel : nat) (current : Address) (visited : list Address)
    (j : Journal) : panics (Journal * result Address E) :=
  match fuel with
  | O => None
  | S fuel =>
      match inspect_account current false j with
      | (j, Err e) => Some (j, Err e)
      | (j, Ok account) =>
          match delegate account with
          | None => Some (j, Ok current)
          | Some next =>
              if bool_decide (next ∈ visited) then Some (j, Ok current)
              else follow_delegation fuel next (visited ++ [current]) j
          end
      end
  end.

(** More rounds than there are accounts. *)
Definition delegation_fuel (j : Journal) : nat :=
  (size (jr_state j) + size (db_accounts db) + 2)%nat.

(** The address of the account [inspect_account_delegated] returns. *)
Definition delegated_target (spec : MegaSpecId) (address : Address) (j : Journal)
    : panics (Journal * result Address E) :=
  let is_rex5_enabled := is_enabled spec REX5 in
  match inspect_account address is_rex5_enabled j with
  | (j, Err e) => Some (j, Err e)
  | (j, Ok account) =>
      match delegate account with
      | None => Some (j, Ok address)
      | Some delegated_address =>
          if is_enabled spec REX4 then
            match inspect_account delegated_address is_rex5_enabled j with
            | (j, Err e) => Some (j, Err e)
            | (j, Ok _) => Some (j, Ok delegated_address)
            end
          else follow_delegation (delegation_fuel j) delegated_address [address] j
      end
  end.

Definition inspect_account_delegated (spec : MegaSpecId) (address : Address) (j : Journal)
    : panics (Journal * result Account E) :=
  '(j, r) ← delegated_target spec address j;
  match r with
  | Err e => Some (j, Err e)
  | Ok target => acc ← jr_state j !! target; (* get_mut(..).unwrap() *) Some (j, Ok acc)
  end.

Definition new_slot (value : U256) (transaction_id : Z) : EvmStorageSlot :=
  slot_mark_cold (mkSlot value value transaction_id false).

Definition set_slot (acc : Account) (key : Z) (slot : EvmStorageSlot) : Account :=
  mkAccount (acc_info acc) (<[key := slot]> (acc_storage acc)) (acc_status acc)
    (acc_transaction_id acc).

Definition slot_value (is_newly_created : bool) (address : Address) (key : Z) : result U256 E :=
  if is_newly_created then Ok 0 else db_storage db address key.

Definition inspect_storage_rex4 (address : Address) (key : Z) (j : Journal)
    : panics (Journal * result EvmStorageSlot E) :=
  match inspect_account address true j with
  | (j, Err e) => Some (j, Err e)
  | (j, Ok account) =>
      let is_newly_created := is_created account in
      account ← jr_state j !! address; (* unwrap *)
      match acc_storage account !! key with
      | Some slot => Some (j, Ok slot)
      | None =>
          match slot_value is_newly_created address key with
          | Err e => Some (j, Err e)
          | Ok v =>
              let slot := new_slot v (jr_transaction_id j) in
              Some (jr_insert address (set_slot account key slot) j, Ok slot)
          end
      end
  end.

(** Before Rex4 the slot is kept in the account at the end of the delegation, which is
    resolved again for the read and for the insertion. *)
Definition inspect_storage_pre_rex4 (spec : MegaSpecId) (address : Address) (key : Z)
    (j : Journal) : panics (Journal * result EvmStorageSlot E) :=
  match inspect_account address false j with
  | (j, Err e) => Some (j, Err e)
  | (j, Ok original) =>
      let is_newly_created := is_created original in
      '(j, r) ← inspect_account_delegated spec address j;
      match r with
      | Err e => Some (j, Err e)
      | Ok account =>
          match acc_storage account !! key with
          | Some _ =>
              '(j, r) ← inspect_account_delegated spec address j;
              match r with
              | Err e => Some (j, Err e)
              | Ok account => slot ← acc_storage account !! key; Some (j, Ok slot)
              end
          | None =>
              match slot_value is_newly_created address key with
              | Err e => Some (j, Err e)
              | Ok v =>
                  let slot := new_slot v (jr_transaction_id j) in
                  '(j, r) ← delegated_target spec address j;
                  match r with
                  | Err e => Some (j, Err e)
                  | Ok target =>
                      account ← jr_state j !! target;
                      Some (jr_insert target (set_slot account key slot) j, Ok slot)
                  end
              end
          end
      end
  end.

Definition inspect_storage (spec : MegaSpecId) (address : Address) (key : Z) (j : Journal)
    : panics (Journal * result EvmStorageSlot E) :=
  if is_enabled spec REX4 then inspect_storage_rex4 address key j
  else inspect_storage_pre_rex4 spec address key j.

#[export] Instance journal_inspect : JournalInspectTr Journal := {|
  DBError := E;
  Interfaces.inspect_account := inspect_account;
  Interfaces.inspect_account_delegated := inspect_account_delegated;
  Interfaces.inspect_storage := inspect_storage;
|}.
End journal.
