(* ===== verification/JournalFacts.v ===== *)
(** Properties of cold inspection: it always returns, and it is transparent. *)

From S2P Require Import Prelude Spec Revm Interfaces Journal.

Section inspection.
Context `{RS : RevmState} {RSL : RevmStateLaws RS} {E : Type} (db : Database E).
Implicit Types (j : Journal) (a : Address) (acc : Account).

(** * What an inspection may change *)

Definition info_view (i : AccountInfo) : Z * Z * Z := (balance i, nonce i, code_hash i).

(** Balance, nonce and code hash of an address as the transaction sees them. *)
Definition view j a : result (Z * Z * Z) E :=
  match jr_state j !! a with
  | Some acc => Ok (info_view (acc_info acc))
  | None =>
      match basic db a with
      | Err e => Err e
      | Ok i => Ok (info_view (default account_info_default i))
      end
  end.

(** [acc'] is [acc], possibly with its code or with more slots loaded. *)
Definition same_account acc acc' : Prop :=
  info_view (acc_info acc') = info_view (acc_info acc) ∧
  acc_status acc' = acc_status acc ∧ acc_transaction_id acc' = acc_transaction_id acc ∧
  acc_storage acc ⊆ acc_storage acc' ∧
  (∀ c, code (acc_info acc) = Some c → code (acc_info acc') = Some c).

Definition transparent j j' : Prop :=
  jr_transaction_id j' = jr_transaction_id j ∧
  (∀ a, view j' a = view j a) ∧
  (∀ a acc, jr_state j !! a = Some acc →
     ∃ acc', jr_state j' !! a = Some acc' ∧ same_account acc acc').

#[export] Instance same_account_preorder : PreOrder same_account.
Proof.
  split; [by intros acc; split_and!|].
  intros x y z (E1&E2&E3&E4&E5) (F1&F2&F3&F4&F5). split_and!; try congruence; auto.
  by transitivity (acc_storage y).
Qed.

#[export] Instance transparent_preorder : PreOrder transparent.
Proof.
  split.
  - intros j. split_and!; try done. intros a acc H. exists acc. done.
  - intros x y z (T1&V1&S1) (T2&V2&S2). split_and!; [congruence|congruence|].
    intros a acc H. destruct (S1 a acc H) as (acc1 & H1 & E1).
    destruct (S2 a acc1 H1) as (acc2 & H2 & E2). exists acc2. split; [done|by transitivity acc1].
Qed.

(** Replacing one account by an equivalent one. *)
Lemma transparent_insert j a acc acc' :
  jr_state j !! a = Some acc → same_account acc acc' → transparent j (jr_insert a acc' j).
Proof.
  intros Ha Hs. split_and!; [done| |].
  - intros b. unfold view. simpl. destruct (decide (a = b)) as [<-|].
    + rewrite lookup_insert_eq, Ha. f_equal. apply Hs.
    + by rewrite lookup_insert_ne.
  - intros b accb Hb. simpl. destruct (decide (a = b)) as [<-|].
    + rewrite lookup_insert_eq. simplify_eq. eauto.
    + rewrite lookup_insert_ne by done. exists accb. done.
Qed.

(** Loading an account that was not resident. *)
Lemma transparent_load j a acc i :
  jr_state j !! a = None → basic db a = Ok i →
  info_view (acc_info acc) = info_view (default account_info_default i) →
  transparent j (jr_insert a acc j).
Proof.
  intros Ha Hb Hi. split_and!; [done| |].
  - intros b. unfold view. simpl. destruct (decide (a = b)) as [<-|].
    + by rewrite lookup_insert_eq, Ha, Hb, Hi.
    + by rewrite lookup_insert_ne.
  - intros b accb H. simpl. rewrite lookup_insert_ne by (intros <-; congruence). exists accb. done.
Qed.

Definition loaded (i : option AccountInfo) j : Account :=
  match i with Some i => account_from_info i | None => new_not_existing (jr_transaction_id j) end.

Lemma loaded_view i j : info_view (acc_info (loaded i j)) = info_view (default account_info_default i).
Proof. by destruct i. Qed.

(** ** [inspect_account] *)

Lemma inspect_account_cases a lc j j' r :
  inspect_account db a lc j = (j', r) →
  transparent j j' ∧
  (∀ acc, r = Ok acc → jr_state j' !! a = Some acc) ∧
  (∀ b, b ≠ a → jr_state j' !! b = jr_state j !! b).
Proof.
  unfold inspect_account. destruct (jr_state j !! a) as [acc|] eqn:Ha.
  - destruct (needs_code acc) eqn:Hn.
    + destruct (db_code_by_hash db _) as [c|e]; intros [= <- <-]; [|done].
      split_and!.
      * eapply transparent_insert; [exact Ha|]. split_and!; try done.
        unfold needs_code in Hn. intros c' Hc'. rewrite Hc' in Hn. by rewrite andb_false_r in Hn.
      * intros acc' [= <-]. apply lookup_insert_eq.
      * intros b Hb. by apply lookup_insert_ne.
    + intros [= <- <-]. split_and!; [done| |done]. by intros acc' [= <-].
  - destruct (basic db a) as [i|e] eqn:Hb; [|by intros [= <- <-]].
    fold (loaded i j). pose proof (loaded_view i j) as Hl.
    destruct (lc && needs_code (loaded i j)).
    + destruct (db_code_by_hash db _) as [c|e]; intros [= <- <-]; [|done].
      split_and!; [by eapply transparent_load|by intros acc' [= <-]; apply lookup_insert_eq|].
      intros b Hbn. by apply lookup_insert_ne.
    + intros [= <- <-].
      split_and!; [by eapply transparent_load|by intros acc' [= <-]; apply lookup_insert_eq|].
      intros b Hbn. by apply lookup_insert_ne.
Qed.

(** Inspecting an account whose code is there changes nothing. *)
Lemma inspect_account_hydrated a lc j acc c :
  jr_state j !! a = Some acc → code (acc_info acc) = Some c →
  inspect_account db a lc j = (j, Ok acc).
Proof.
  intros Ha Hc. unfold inspect_account. rewrite Ha. unfold needs_code. by rewrite Hc, andb_false_r.
Qed.

(** Only accounts of the journal or of the database delegate. *)
Definition known j : gset Z := dom (jr_state j) ∪ dom (db_accounts db).

Lemma delegate_known a j j' acc n :
  inspect_account db a false j = (j', Ok acc) → delegate acc = Some n →
  a ∈ known j ∧ known j' = known j.
Proof.
  intros H Hd. assert (Ha : a ∈ known j).
  { unfold known. unfold inspect_account, basic in H.
    destruct (jr_state j !! a) eqn:Hj; [apply elem_of_union_l; by apply elem_of_dom_2 in Hj|].
    destruct (db_account_error db a); [done|]. simpl in H.
    destruct (db_accounts db !! a) eqn:Hdb; [apply elem_of_union_r; by apply elem_of_dom_2 in Hdb|].
    simplify_eq. unfold delegate in Hd. simpl in Hd. by rewrite default_no_code in Hd. }
  split; [done|]. apply inspect_account_cases in H as (Ht & Hin & Ho). specialize (Hin acc eq_refl).
  unfold known in *. apply set_eq. intros b. rewrite !elem_of_union, !elem_of_dom.
  destruct (decide (b = a)) as [->|Hb]; [|by rewrite Ho].
  apply elem_of_union in Ha as [Ha|Ha].
  - rewrite elem_of_dom in Ha. rewrite Hin. split; intros _; left; [done|by eexists].
  - rewrite elem_of_dom in Ha. by split; intros _; right.
Qed.

(** ** The delegation loop *)

Lemma follow_transparent fuel cur visited j j' r :
  follow_delegation db fuel cur visited j = Some (j', r) →
  transparent j j' ∧ (∀ t, r = Ok t → is_Some (jr_state j' !! t)).
Proof.
  revert cur visited j. induction fuel as [|fuel IH]; intros cur visited j H; [done|]. simpl in H.
  destruct (inspect_account db cur false j) as [j1 [acc|e]] eqn:Hi;
    apply inspect_account_cases in Hi as (Ht & Hin & _); [|by simplify_eq].
  destruct (delegate acc); [|simplify_eq; split; [done|intros t [= <-]; eauto]].
  destruct (bool_decide _); [simplify_eq; split; [done|intros t [= <-]; eauto]|].
  apply IH in H as [Ht' Hp]. split; [by transitivity j1|done].
Qed.

(** One round on an account that delegates to itself and has been visited. *)
Lemma follow_self fuel cur visited j acc :
  jr_state j !! cur = Some acc → delegate acc = Some cur → cur ∈ visited →
  is_Some (follow_delegation db (S fuel) cur visited j).
Proof.
  intros Hj Hd Hv. simpl. unfold delegate in Hd.
  destruct (code (acc_info acc)) as [c|] eqn:Hc; [|done].
  rewrite (inspect_account_hydrated cur false j acc c Hj Hc). unfold delegate. rewrite Hc, Hd.
  rewrite bool_decide_true by done. by eexists.
Qed.

Lemma follow_total fuel cur visited j :
  cur ∉ visited → (size (known j ∖ list_to_set visited) < fuel)%nat →
  is_Some (follow_delegation db fuel cur visited j).
Proof.
  revert cur visited j. induction fuel as [|fuel IH]; intros cur visited j Hv Hf; [lia|]. simpl.
  destruct (inspect_account db cur false j) as [j1 [acc|e]] eqn:Hi; [|by eexists].
  destruct (delegate acc) as [next|] eqn:Hd; [|by eexists].
  destruct (bool_decide_reflect (next ∈ visited)) as [|Hn]; [by eexists|].
  destruct (delegate_known cur j j1 acc next Hi Hd) as [Hc Hk].
  assert (Hlt : (size (known j1 ∖ list_to_set (visited ++ [cur])) <
                 size (known j ∖ list_to_set visited))%nat).
  { rewrite Hk. apply subset_size. rewrite list_to_set_app_L. set_solver. }
  destruct (decide (next = cur)) as [->|Hne].
  - destruct fuel as [|fuel]; [lia|].
    apply inspect_account_cases in Hi as (_ & Hin & _).
    eapply follow_self; [by apply Hin|done|set_solver].
  - apply IH; [set_solver|lia].
Qed.

Lemma known_size j : (size (known j) ≤ size (jr_state j) + size (db_accounts db))%nat.
Proof.
  unfold known. rewrite <- !size_dom.
  rewrite size_union_alt.
  assert (size (dom (db_accounts db) ∖ dom (jr_state j)) ≤ size (dom (db_accounts db)))%nat
    by (apply subseteq_size; set_solver).
  lia.
Qed.

Lemma delegated_target_total spec a j :
  ∃ j' r, delegated_target db spec a j = Some (j', r) ∧ transparent j j' ∧
          (∀ t, r = Ok t → is_Some (jr_state j' !! t)).
Proof.
  unfold delegated_target.
  destruct (inspect_account db a (is_enabled spec REX5) j) as [j1 [acc|e]] eqn:Hi;
    apply inspect_account_cases in Hi as (Ht & Hin & _); [|by eexists _, _].
  destruct (delegate acc) as [d|] eqn:Hd.
  2:{ eexists _, _. split_and!; [done|done|]. intros t [= <-]. eauto. }
  destruct (is_enabled spec REX4).
  - destruct (inspect_account db d _ j1) as [j2 [acc2|e]] eqn:Hi2;
      apply inspect_account_cases in Hi2 as (Ht2 & Hin2 & _);
      (eexists _, _; split_and!; [done|by transitivity j1|]); [|done].
    intros t [= <-]. eauto.
  - assert (Hs : is_Some (follow_delegation db (delegation_fuel db j1) d [a] j1)).
    { destruct (decide (d = a)) as [->|Hda].
      - unfold delegation_fuel. rewrite Nat.add_succ_r. eapply follow_self; [by apply Hin|done|set_solver].
      - apply follow_total; [set_solver|]. unfold delegation_fuel.
        assert (size (known j1 ∖ list_to_set [a]) ≤ size (known j1))%nat
          by (apply subseteq_size; set_solver).
        pose proof (known_size j1). lia. }
    destruct Hs as [[j2 r] Hs]. exists j2, r. rewrite Hs.
    apply follow_transparent in Hs as [Ht2 Hp]. split_and!; [done|by transitivity j1|done].
Qed.

Lemma delegated_total spec a j :
  ∃ j' r, inspect_account_delegated db spec a j = Some (j', r) ∧ transparent j j'.
Proof.
  unfold inspect_account_delegated.
  destruct (delegated_target_total spec a j) as (j1 & r & -> & Ht & Hp). simpl.
  destruct r as [t|e]; [|by eexists _, _].
  destruct (Hp t eq_refl) as [acc ->]. by eexists _, _.
Qed.

Lemma set_slot_same acc key slot :
  acc_storage acc !! key = None → same_account acc (set_slot acc key slot).
Proof. intros H. split_and!; try done. by apply insert_subseteq. Qed.
End inspection.

(** C16: cold inspection through EIP-7702 delegations always returns and is transparent.  The
    delegation loop ends on every database and journal, also on cyclic delegations; no
    [unwrap] on the journal fails; and afterwards every account has the balance, nonce and
    code hash it had, and every account that was loaded keeps its status (so nothing becomes
    warm), its transaction id, its slots and its code. *)
Theorem delegated_inspection_transparent `{RS : RevmState} {RSL : RevmStateLaws RS} {E}
    (db : Database E) spec a (j : Journal) :
  ∃ j' r, inspect_account_delegated db spec a j = Some (j', r) ∧ transparent db j j'.
Proof. apply delegated_total. Qed.

(** From Rex4 on, reading a slot cold returns the loaded slot if there is one, zero for
    an account created in the transaction, and the database's value otherwise, always for
    the address itself and never for the account it delegates to; it cannot panic and is
    transparent. *)
Lemma rex4_storage_inspection `{RS : RevmState} {RSL : RevmStateLaws RS} {E}
    (db : Database E) spec a key (j : Journal) :
  is_enabled spec REX4 = true →
  ∃ j' r, inspect_storage db spec a key j = Some (j', r) ∧ transparent db j j' ∧
    ∀ slot, r = Ok slot →
      match jr_state j !! a with
      | Some acc =>
          match acc_storage acc !! key with
          | Some old => slot = old
          | None =>
              slot_original slot = slot_present slot ∧
              (if is_created acc then slot_present slot = 0
               else db_storage db a key = Ok (slot_present slot))
          end
      | None => slot_original slot = slot_present slot ∧ db_storage db a key = Ok (slot_present slot)
      end.
Proof.
  intros H4. unfold inspect_storage, inspect_storage_rex4. rewrite H4.
  destruct (inspect_account db a true j) as [j1 [acc|e]] eqn:Hi.
  2:{ apply inspect_account_cases in Hi as (Ht & _). eexists _, _. split_and!; done. }
  pose proof (inspect_account_cases db a true j j1 (Ok acc) Hi) as (Ht & Hin & _).
  specialize (Hin acc eq_refl). rewrite Hin. simpl.
  assert (Hold : match jr_state j !! a with
    | Some acc0 => acc_storage acc = acc_storage acc0 ∧ is_created acc = is_created acc0
    | None => acc_storage acc = ∅ ∧ is_created acc = false
    end).
  { unfold inspect_account in Hi. destruct (jr_state j !! a) as [acc0|].
    - destruct (needs_code acc0); [|by simplify_eq].
      destruct (db_code_by_hash db _); by simplify_eq.
    - destruct (basic db a) as [i|]; [|done]. fold (loaded i j) in Hi.
      assert (acc_storage (loaded i j) = ∅ ∧ is_created (loaded i j) = false)
        as [Hs Hc] by (by destruct i).
      destruct (true && needs_code (loaded i j)); [destruct (db_code_by_hash db _); [|done]|];
        simplify_eq; (split; [exact Hs|exact Hc]). }
  destruct (acc_storage acc !! key) as [slot|] eqn:Hk.
  { eexists _, _. split_and!; [done|done|]. intros slot' [= <-].
    destruct (jr_state j !! a) as [acc0|]; destruct Hold as [Hs _]; rewrite <- ?Hs, ?Hk; [done|].
    by rewrite Hs in Hk. }
  unfold slot_value. destruct (is_created acc) eqn:Hc; [|destruct (db_storage db a key) as [v|e] eqn:Hv];
    (eexists _, _; split_and!; [done|..]);
    try (transitivity j1; [done|]; eapply transparent_insert; [done|by apply set_slot_same]); try done.
  all: intros slot' [= <-]; simpl;
    destruct (jr_state j !! a) as [acc0|]; destruct Hold as [Hs Hcr]; rewrite <- ?Hs, ?Hk;
    [by rewrite <- Hcr, ?Hv|split; [done|]]; congruence.
Qed.

(** * Evaluation *)

(** Two accounts that delegate to each other. *)
Definition cyclic_db : Database unit :=
  mkDatabase {[ 1 := mkAccountInfo 5 0 99 (Some (Eip7702 2)); 2 := mkAccountInfo 7 0 99 (Some (Eip7702 1)) ]}
    (λ _, None) (λ _, Err ()) (λ _ _, Ok 11).

Definition empty_journal : Journal := mkJournal ∅ 3.

Lemma delegated_inspection_transparent_witness :
  ∃ j' r, inspect_account_delegated cyclic_db REX3 1 empty_journal = Some (j', r) ∧
          transparent cyclic_db empty_journal j'.
Proof. exact (delegated_inspection_transparent cyclic_db REX3 1 empty_journal). Defined.

Lemma rex4_storage_inspection_witness :
  ∃ j' r, inspect_storage cyclic_db REX4 1 8 empty_journal = Some (j', r) ∧
          transparent cyclic_db empty_journal j'.
Proof.
  destruct (rex4_storage_inspection cyclic_db REX4 1 8 empty_journal ltac:(reflexivity))
    as (j' & r & H & Ht & _).
  exists j', r. exact (conj H Ht).
Defined.
