(* ===== verification/FrameLimit.v ===== *)
(** The frame-aware usage tracker every resource dimension is built on:
    [limit/frame_limit.rs].

    A tracker holds one entry for the transaction and a stack of entries, one per EVM
    frame.  The Rust [Vec] grows at its end; here the top of the stack is the head of the
    list.  Usage is split into a persistent lane (kept when a frame reverts), a
    discardable lane and a refund lane (both dropped on revert); two cached totals make
    [net_usage] constant time. *)

From S2P Require Import Prelude Spec Revm LimitCheck.

(** * Data *)

Record CallFrameInfo : Type := mkInfo {
  target_address : option Address;
  target_updated : bool;
  charged_parent_update : bool;
}.

Definition default_info : CallFrameInfo := mkInfo None false false.

Record FrameLimitEntry (I : Type) : Type := mkEntry {
  fle_limit : Z;
  fle_persistent : Z;
  fle_discardable : Z;
  fle_refund : Z;
  fle_info : I;
}.
Arguments mkEntry {I} _ _ _ _ _.
Arguments fle_limit {I} _.
Arguments fle_persistent {I} _.
Arguments fle_discardable {I} _.
Arguments fle_refund {I} _.
Arguments fle_info {I} _.

Record FrameLimitTracker (I : Type) : Type := mkTracker {
  tx_entry : FrameLimitEntry unit;
  frame_stack : list (FrameLimitEntry I);
  flt_rex4_enabled : bool;
  flt_rex5_enabled : bool;
  flt_rex6_enabled : bool;
  cached_total_used : Z;
  cached_total_refund : Z;
}.
Arguments mkTracker {I} _ _ _ _ _ _ _.
Arguments tx_entry {I} _.
Arguments frame_stack {I} _.
Arguments flt_rex4_enabled {I} _.
Arguments flt_rex5_enabled {I} _.
Arguments flt_rex6_enabled {I} _.
Arguments cached_total_used {I} _.
Arguments cached_total_refund {I} _.

(** * Operations on an entry *)

Section entry.
Context {I : Type}.
Implicit Types e : FrameLimitEntry I.

Definition entry_new (limit : Z) (info : I) : FrameLimitEntry I := mkEntry limit 0 0 0 info.

(** [checked_add(..).expect("overflow")]. *)
Definition used e : panics Z := checked_add (fle_persistent e) (fle_discardable e).

Definition remaining e : panics Z :=
  u ← used e; Some (sat_sub (fle_limit e) (sat_sub u (fle_refund e))).

(** In-place updates of the fields of an entry. *)
Definition set_limit e (l : Z) : FrameLimitEntry I :=
  mkEntry l (fle_persistent e) (fle_discardable e) (fle_refund e) (fle_info e).
Definition set_info e (i : I) : FrameLimitEntry I :=
  mkEntry (fle_limit e) (fle_persistent e) (fle_discardable e) (fle_refund e) i.
Definition add_persistent e (n : Z) : FrameLimitEntry I :=
  mkEntry (fle_limit e) (fle_persistent e +w n) (fle_discardable e) (fle_refund e) (fle_info e).
Definition add_discardable e (n : Z) : FrameLimitEntry I :=
  mkEntry (fle_limit e) (fle_persistent e) (fle_discardable e +w n) (fle_refund e) (fle_info e).
Definition add_refund e (n : Z) : FrameLimitEntry I :=
  mkEntry (fle_limit e) (fle_persistent e) (fle_discardable e) (fle_refund e +w n) (fle_info e).
End entry.

(** * Operations on a tracker *)

Section tracker.
Context {I : Type}.
Implicit Types t : FrameLimitTracker I.

Definition tracker_new (spec : MegaSpecId) (tx_limit : Z) : FrameLimitTracker I := {|
  tx_entry := entry_new tx_limit tt;
  frame_stack := [];
  flt_rex4_enabled := is_enabled spec REX4;
  flt_rex5_enabled := is_enabled spec REX5;
  flt_rex6_enabled := is_enabled spec REX6;
  cached_total_used := 0;
  cached_total_refund := 0;
|}.

(** Field updates. *)
Definition set_tx_entry t e : FrameLimitTracker I :=
  mkTracker e (frame_stack t) (flt_rex4_enabled t) (flt_rex5_enabled t) (flt_rex6_enabled t)
    (cached_total_used t) (cached_total_refund t).
Definition set_stack t s : FrameLimitTracker I :=
  mkTracker (tx_entry t) s (flt_rex4_enabled t) (flt_rex5_enabled t) (flt_rex6_enabled t)
    (cached_total_used t) (cached_total_refund t).
Definition set_cached t u r : FrameLimitTracker I :=
  mkTracker (tx_entry t) (frame_stack t) (flt_rex4_enabled t) (flt_rex5_enabled t)
    (flt_rex6_enabled t) u r.

Definition tx_limit t : Z := fle_limit (tx_entry t).

Definition reset t : FrameLimitTracker I :=
  let e := mkEntry (fle_limit (tx_entry t)) 0 0 0 (fle_info (tx_entry t)) in
  set_cached (set_stack (set_tx_entry t e) []) 0 0.

Definition current_frame_remaining t : panics Z :=
  match frame_stack t with
  | entry :: _ => remaining entry
  | [] => remaining (tx_entry t)
  end.

(** The product is computed in [u128], the quotient cast back to [u64]. *)
Definition max_forward_limit t : panics Z :=
  match frame_stack t with
  | entry :: _ =>
      r ← remaining entry;
      Some (wrap64 ((r * constants.rex4.FRAME_LIMIT_NUMERATOR) mod 2 ^ 128
                    / constants.rex4.FRAME_LIMIT_DENOMINATOR))
  | [] => remaining (tx_entry t)
  end.

Definition push_frame_with_limit (limit : Z) (info : I) t : FrameLimitTracker I :=
  set_stack t (entry_new limit info :: frame_stack t).

Definition push_frame (info : I) t : panics (FrameLimitTracker I) :=
  l ← max_forward_limit t; Some (push_frame_with_limit l info t).

Definition pop_frame (success : bool) t : FrameLimitTracker I * option (FrameLimitEntry I) :=
  match frame_stack t with
  | [] => (t, None)
  | child :: parent :: rest =>
      let parent := add_persistent parent (fle_persistent child) in
      let t := set_stack t (parent :: rest) in
      let t :=
        if success then
          let parent := add_discardable parent (fle_discardable child) in
          let parent := add_refund parent (fle_refund child) in
          set_stack t (parent :: rest)
        else
          set_cached t (cached_total_used t -w fle_discardable child)
            (cached_total_refund t -w fle_refund child) in
      (t, Some child)
  | [child] =>
      let tx := add_persistent (tx_entry t) (fle_persistent child) in
      let t := set_tx_entry (set_stack t []) tx in
      let t :=
        if success then
          let tx := add_discardable tx (fle_discardable child) in
          let tx := add_refund tx (fle_refund child) in
          set_tx_entry t tx
        else
          set_cached t (cached_total_used t -w fle_discardable child)
            (cached_total_refund t -w fle_refund child) in
      (t, Some child)
  end.

Definition exceeds_current_frame_limit (kind : LimitKind) t : panics LimitCheck :=
  match frame_stack t with
  | entry :: _ =>
      u ← used entry;
      Some (if fle_limit entry <? sat_sub u (fle_refund entry)
            then ExceedsLimit kind (fle_limit entry) u true
            else WithinLimit)
  | [] => Some WithinLimit
  end.

(** [frame_mut]: an in-place update of the top entry, nothing on an empty stack. *)
Definition frame_mut (f : FrameLimitEntry I → FrameLimitEntry I) t : FrameLimitTracker I :=
  match frame_stack t with
  | entry :: rest => set_stack t (f entry :: rest)
  | [] => t
  end.

Definition has_active_frame t : bool :=
  match frame_stack t with [] => false | _ => true end.

Definition net_usage t : Z := sat_sub (cached_total_used t) (cached_total_refund t).

(** The loop of [net_usage_uncached] over the frames. *)
Fixpoint sum_frames (l : list (FrameLimitEntry I)) (total_used total_refund : Z)
    : panics (Z * Z) :=
  match l with
  | [] => Some (total_used, total_refund)
  | entry :: l =>
      u ← used entry;
      sum_frames l (total_used +w u) (total_refund +w fle_refund entry)
  end.

Definition net_usage_uncached t : panics Z :=
  u ← used (tx_entry t);
  '(total_used, total_refund) ←
    sum_frames (rev (frame_stack t)) u (fle_refund (tx_entry t));
  Some (sat_sub total_used total_refund).

Definition add_tx_persistent (n : Z) t : FrameLimitTracker I :=
  set_cached (set_tx_entry t (add_persistent (tx_entry t) n))
    (cached_total_used t +w n) (cached_total_refund t).

Definition add_frame_persistent (n : Z) t : FrameLimitTracker I * bool :=
  match frame_stack t with
  | entry :: rest =>
      (set_cached (set_stack t (add_persistent entry n :: rest))
         (cached_total_used t +w n) (cached_total_refund t), true)
  | [] => (t, false)
  end.

Definition add_frame_discardable (n : Z) t : FrameLimitTracker I :=
  match frame_stack t with
  | entry :: rest =>
      set_cached (set_stack t (add_discardable entry n :: rest))
        (cached_total_used t +w n) (cached_total_refund t)
  | [] => t
  end.

Definition add_frame_refund (n : Z) t : FrameLimitTracker I :=
  match frame_stack t with
  | entry :: rest =>
      set_cached (set_stack t (add_refund entry n :: rest))
        (cached_total_used t) (cached_total_refund t +w n)
  | [] => t
  end.

Definition add_parent_discardable (n : Z) t : FrameLimitTracker I :=
  match frame_stack t with
  | current :: parent :: rest =>
      set_cached (set_stack t (current :: add_discardable parent n :: rest))
        (cached_total_used t +w n) (cached_total_refund t)
  | _ => t
  end.
End tracker.

(** * The [CallFrameInfo] specialization: account-update deduplication *)

Abbreviation CallTracker := (FrameLimitTracker CallFrameInfo) (only parsing).

Definition push_call_frame_info (info : CallFrameInfo) (t : CallTracker) : panics CallTracker :=
  if flt_rex4_enabled t then push_frame info t
  else Some (push_frame_with_limit u64_max info t).

Definition push_dummy_frame (t : CallTracker) : panics CallTracker :=
  push_call_frame_info default_info t.

Definition set_target_updated (b : bool) (e : FrameLimitEntry CallFrameInfo)
    : FrameLimitEntry CallFrameInfo :=
  set_info e (mkInfo (target_address (fle_info e)) b (charged_parent_update (fle_info e))).

(** The [match self.frame_mut()] shared by the two pushes: whether the parent still has to
    be charged, and the tracker with the parent's flag set under Rex5. *)
Definition claim_parent_update (t : CallTracker) : CallTracker * bool :=
  match frame_stack t with
  | entry :: _ =>
      if target_updated (fle_info entry) then (t, false)
      else ((if flt_rex5_enabled t then frame_mut (set_target_updated true) t else t), true)
  | [] => (t, false)
  end.

Definition push_call_frame (target : Address) (has_transfer : bool) (t : CallTracker)
    : panics (CallTracker * bool) :=
  let '(t, parent_needs_update) := if has_transfer then claim_parent_update t else (t, false) in
  let charged_parent_update := flt_rex5_enabled t && parent_needs_update in
  t ← push_call_frame_info (mkInfo (Some target) has_transfer charged_parent_update) t;
  Some (t, parent_needs_update).

Definition push_create_frame (t : CallTracker) : panics (CallTracker * bool) :=
  let '(t, parent_needs_update) := claim_parent_update t in
  let charged_parent_update :=
    flt_rex5_enabled t && parent_needs_update && negb (flt_rex6_enabled t) in
  t ← push_call_frame_info (mkInfo None true charged_parent_update) t;
  Some (t, parent_needs_update).

Definition set_created_address (addr : Address) (t : CallTracker) : panics CallTracker :=
  match frame_stack t with
  | entry :: _ =>
      match target_address (fle_info entry) with
      | Some _ => None (* assert!(target_address.is_none()) *)
      | None =>
          Some (frame_mut (λ e, set_info e (mkInfo (Some addr) (target_updated (fle_info e))
                                              (charged_parent_update (fle_info e)))) t)
      end
  | [] => Some t
  end.

Definition pop_frame_unwind_parent (success : bool) (t : CallTracker) : panics CallTracker :=
  let '(t, child) := pop_frame success t in
  if success then Some t
  else
    match child with
    | Some child_entry =>
        if charged_parent_update (fle_info child_entry) then
          match frame_stack t with
          | [] => None (* expect("parent frame must exist ...") *)
          | _ => Some (frame_mut (set_target_updated false) t)
          end
        else Some t
    | None => Some t
    end.
