(* ===== verification/FrameLimitFacts.v ===== *)
(** Properties of the frame-limit tracker: its operations as steps, the invariant of its
    entries, and the cached totals. *)

From S2P Require Import Prelude Spec Revm LimitCheck FrameLimit.

(** * Ranges and totals *)

Section totals.
Context {I : Type}.
Implicit Types (e : FrameLimitEntry I) (t : FrameLimitTracker I).

Definition entry_ok {J} (e : FrameLimitEntry J) : Prop :=
  in_u64 (fle_limit e) ∧ in_u64 (fle_persistent e) ∧ in_u64 (fle_discardable e) ∧
  in_u64 (fle_refund e).

Definition tracker_ok t : Prop :=
  entry_ok (tx_entry t) ∧ Forall entry_ok (frame_stack t) ∧
  in_u64 (cached_total_used t) ∧ in_u64 (cached_total_refund t).

Definition entry_total {J} (e : FrameLimitEntry J) : Z := fle_persistent e + fle_discardable e.

(** The totals the caches stand for, without wrap-around. *)
Definition total_used t : Z := entry_total (tx_entry t) + sumZ entry_total (frame_stack t).
Definition total_refund t : Z :=
  fle_refund (tx_entry t) + sumZ fle_refund (frame_stack t).

Definition cache_ok t : Prop :=
  cached_total_used t ≡64 total_used t ∧ cached_total_refund t ≡64 total_refund t.

Definition tracker_inv t : Prop := tracker_ok t ∧ cache_ok t.

Lemma used_Some e : entry_total e ≤ u64_max → used e = Some (entry_total e).
Proof. apply checked_add_Some. Qed.

Lemma used_inv {J} (e : FrameLimitEntry J) u :
  used e = Some u → u = entry_total e ∧ entry_total e ≤ u64_max.
Proof. unfold used, checked_add, entry_total. case_bools; intros [= <-]. simpl_bools. lia. Qed.

Lemma remaining_inv {J} (e : FrameLimitEntry J) r :
  remaining e = Some r →
  r = sat_sub (fle_limit e) (sat_sub (entry_total e) (fle_refund e)).
Proof.
  unfold remaining. destruct (used e) as [u|] eqn:Hu; [|done]. simpl.
  apply used_inv in Hu as [-> _]. by intros [= <-].
Qed.

Lemma remaining_range {J} (e : FrameLimitEntry J) r :
  entry_ok e → remaining e = Some r → in_u64 r.
Proof. intros (?&?&?&?) ->%remaining_inv. unfold entry_total. u64_lia. Qed.

Lemma max_forward_range t l : tracker_ok t → max_forward_limit t = Some l → in_u64 l.
Proof.
  intros (Htx & Hs & _). unfold max_forward_limit.
  destruct (frame_stack t) as [|e s]; [by apply remaining_range|].
  destruct (remaining e); simpl; [|done]. intros [= <-]. apply wrap64_range.
Qed.
End totals.

(** Reduce a goal on an explicit tracker to its fields. *)
Ltac tracker_simpl :=
  unfold tracker_inv, tracker_ok, cache_ok, total_used, total_refund, entry_total, entry_ok,
    push_frame_with_limit, set_stack, set_tx_entry, set_cached, frame_mut,
    add_persistent, add_discardable, add_refund, entry_new in *; simpl in *;
  rewrite ?sumZ_cons, ?sumZ_nil in *; simpl in *.

Ltac destruct_tracker t :=
  destruct t as [[tl tp td tr []] s r4 r5 r6 cu cr]; tracker_simpl.

(** * Every operation preserves the cache invariant *)

Section steps.
Context {I : Type}.
Implicit Types (e : FrameLimitEntry I) (t : FrameLimitTracker I).

(** An update through [frame_mut] that leaves the three usage lanes alone, as every
    caller of [frame_mut] does. *)
Definition usage_preserving (f : FrameLimitEntry I → FrameLimitEntry I) : Prop :=
  ∀ e, fle_persistent (f e) = fle_persistent e ∧ fle_discardable (f e) = fle_discardable e ∧
       fle_refund (f e) = fle_refund e ∧ (in_u64 (fle_limit e) → in_u64 (fle_limit (f e))).

(** One call of a tracker operation. *)
Inductive step t : FrameLimitTracker I → Prop :=
  | step_push info t' : push_frame info t = Some t' → step t t'
  | step_push_limit l info : in_u64 l → step t (push_frame_with_limit l info t)
  | step_pop b : step t (fst (pop_frame b t))
  | step_tx_persistent n : step t (add_tx_persistent n t)
  | step_persistent n : step t (fst (add_frame_persistent n t))
  | step_discardable n : step t (add_frame_discardable n t)
  | step_refund n : step t (add_frame_refund n t)
  | step_parent_discardable n : step t (add_parent_discardable n t)
  | step_frame_mut f : usage_preserving f → step t (frame_mut f t)
  | step_reset : step t (reset t).

Lemma tracker_new_inv spec l : in_u64 l → tracker_inv (tracker_new (I := I) spec l).
Proof.
  intros Hl. unfold tracker_new. tracker_simpl.
  split_and!; auto with u64; try (unfold in_u64 in *; lia); constructor.
Qed.

Ltac range_solve :=
  solve [apply wadd_range | apply wsub_range | apply in_u64_0 | auto].

Ltac inv_solve :=
  simpl;
  match goal with
  | |- in_u64 _ => range_solve
  | |- Forall _ (_ :: _) => apply Forall_cons; split; [split_and!|]; inv_solve
  | |- Forall _ [] => constructor
  | |- _ ≡64 _ => idtac
  | |- _ => done
  end.

Ltac split_ok :=
  repeat match goal with
    | H : _ ∧ _ |- _ => destruct H
    | H : Forall _ (_ :: _) |- _ => apply Forall_cons in H
    end.

(** Discharge a cache congruence from the one before the step. *)
Ltac cache_solve :=
  match goal with
  | Hc : _ ≡64 _ |- _ =>
      solve [rewrite ?cong64_wadd, ?cong64_wsub, ?Hc; rewrite ?cong64_wadd, ?cong64_wsub;
             apply cong64_refl_eq; lia]
  end.

Lemma pop_inv b t : tracker_inv t → tracker_inv (fst (pop_frame b t)).
Proof.
  unfold pop_frame. destruct_tracker t. intros H. split_ok.
  destruct s as [|c [|p s]]; tracker_simpl; split_ok; [by split_and!| |]; destruct b; simpl; rewrite ?sumZ_cons, ?sumZ_nil; simpl;
    split_and!; inv_solve; cache_solve.
Qed.

Lemma frame_mut_inv f t : usage_preserving f → tracker_inv t → tracker_inv (frame_mut f t).
Proof.
  intros Hf. destruct_tracker t. intros H. destruct s as [|e s]; [done|].
  tracker_simpl. split_ok. destruct (Hf e) as (E1 & E2 & E3 & Hl).
  rewrite E1, E2, E3. split_and!; try done.
  apply Forall_cons. rewrite E1, E2, E3. split_and!; auto.
Qed.

Lemma push_inv info t t' : push_frame info t = Some t' → tracker_inv t → tracker_inv t'.
Proof.
  unfold push_frame. destruct (max_forward_limit t) as [l|] eqn:Hm; [|done].
  intros [= <-] Hinv. pose proof (max_forward_range t l (proj1 Hinv) Hm).
  destruct_tracker t. split_ok. split_and!; try done.
  apply Forall_cons. split_and!; auto with u64.
Qed.

Lemma step_inv t t' : step t t' → tracker_inv t → tracker_inv t'.
Proof.
  intros Hstep Hinv. destruct Hstep; eauto using pop_inv, frame_mut_inv, push_inv.
  all: unfold add_tx_persistent, add_frame_persistent, add_frame_discardable,
    add_frame_refund, add_parent_discardable, reset; destruct_tracker t; split_ok;
    destruct s as [|e [|p s]]; tracker_simpl; split_ok; split_and!; inv_solve;
    auto; cache_solve.
Qed.

Lemma reachable_inv spec l t :
  in_u64 l → rtc step (tracker_new spec l) t → tracker_inv t.
Proof.
  intros Hl Hr. pose proof (tracker_new_inv spec l Hl) as Hi.
  induction Hr as [|t1 t2 t3 Hs _ IH]; eauto using step_inv.
Qed.
End steps.

(** * Stack height *)

Section depth.
Context {I : Type}.
Implicit Types t : FrameLimitTracker I.

Definition stack_depth t : nat := length (frame_stack t).

Lemma depth_tx_persistent n t : stack_depth (add_tx_persistent n t) = stack_depth t.
Proof. done. Qed.
Lemma depth_persistent n t : stack_depth (fst (add_frame_persistent n t)) = stack_depth t.
Proof. unfold stack_depth, add_frame_persistent. by destruct (frame_stack t) eqn:E; simpl; rewrite ?E. Qed.
Lemma depth_discardable n t : stack_depth (add_frame_discardable n t) = stack_depth t.
Proof. unfold stack_depth, add_frame_discardable. by destruct (frame_stack t) eqn:E; simpl; rewrite ?E. Qed.
Lemma depth_refund n t : stack_depth (add_frame_refund n t) = stack_depth t.
Proof. unfold stack_depth, add_frame_refund. by destruct (frame_stack t) eqn:E; simpl; rewrite ?E. Qed.
Lemma depth_parent_discardable n t : stack_depth (add_parent_discardable n t) = stack_depth t.
Proof.
  unfold stack_depth, add_parent_discardable.
  by destruct (frame_stack t) as [|? []] eqn:E; simpl; rewrite ?E.
Qed.
Lemma depth_frame_mut f t : stack_depth (frame_mut f t) = stack_depth t.
Proof. unfold stack_depth, frame_mut. by destruct (frame_stack t) eqn:E; simpl; rewrite ?E. Qed.
Lemma depth_reset t : stack_depth (reset t) = 0%nat.
Proof. done. Qed.
Lemma depth_push_limit l i t : stack_depth (push_frame_with_limit l i t) = S (stack_depth t).
Proof. done. Qed.
Lemma depth_pop b t : stack_depth (fst (pop_frame b t)) = pred (stack_depth t).
Proof.
  unfold stack_depth, pop_frame.
  by destruct (frame_stack t) as [|? []] eqn:E; destruct b; simpl; rewrite ?E.
Qed.
Lemma has_active_frame_depth t : has_active_frame t = true ↔ stack_depth t ≠ 0%nat.
Proof. unfold has_active_frame, stack_depth. by destruct (frame_stack t). Qed.

(** A push under the spec's budget rule. *)
Lemma push_frame_inv info t t' :
  push_frame info t = Some t' → ∃ l, max_forward_limit t = Some l ∧ t' = push_frame_with_limit l info t.
Proof. unfold push_frame. destruct (max_forward_limit t) as [l|]; [|done]. intros [= <-]. eauto. Qed.

Lemma tx_limit_step (f f' : FrameLimitTracker I) : step f f' → FrameLimit.tx_limit f' = FrameLimit.tx_limit f.
Proof.
  intros H. unfold FrameLimit.tx_limit. destruct H as [i t' Hp| | | | | | | | |]; try done.
  - apply push_frame_inv in Hp as (l & _ & ->). done.
  - unfold pop_frame. by destruct (frame_stack f) as [|? []], b.
  - unfold add_frame_persistent. by destruct (frame_stack f).
  - unfold add_frame_discardable. by destruct (frame_stack f).
  - unfold add_frame_refund. by destruct (frame_stack f).
  - unfold add_parent_discardable. by destruct (frame_stack f) as [|? []].
  - unfold frame_mut. by destruct (frame_stack f).
Qed.

(** The pop of every dimension: [assert!(LAST_FRAME || has_active_frame)], then a step that
    leaves one frame. *)
Lemma pop_assert_law t {A} (P : A → Prop) (depth : A → nat) last (m : panics A) :
  match m with Some t' => depth t' = pred (stack_depth t) ∧ P t' | None => False end →
  match (_ ← assert_ (last || has_active_frame t); m) with
  | Some t' =>
      (last = false → stack_depth t ≠ 0%nat) ∧ depth t' = pred (stack_depth t) ∧ P t'
  | None => last = false ∧ stack_depth t = 0%nat
  end.
Proof.
  intros Hm. destruct m as [t'|]; [|done]. unfold assert_.
  pose proof (has_active_frame_depth t) as Ha.
  destruct last; simpl; [destruct Hm; auto|].
  destruct (has_active_frame t); simpl; [destruct Hm; split_and!; auto; by intros _; apply Ha|].
  split; [done|]. destruct (stack_depth t) as [|n]; [done|].
  discriminate (proj2 Ha (Nat.neq_succ_0 n)).
Qed.
End depth.

#[export] Hint Rewrite @depth_tx_persistent @depth_persistent @depth_discardable @depth_refund
  @depth_parent_discardable @depth_frame_mut @depth_reset @depth_push_limit @depth_pop : depth.

(** * The account-update flags of a call tracker *)

Section call_tracker.
Implicit Types t : CallTracker.

(** The [charged_parent_update] flags, top frame first. *)
Definition claims t : list bool :=
  map (λ e, charged_parent_update (fle_info e)) (frame_stack t).

(** The bottom frame has no parent to charge. *)
Definition bottom_unclaimed t : Prop := last (claims t) ≠ Some true.

Definition call_wf t : Prop := tracker_inv t ∧ bottom_unclaimed t.

Lemma claims_discardable n t : claims (add_frame_discardable n t) = claims t.
Proof. unfold claims, add_frame_discardable. by destruct (frame_stack t) eqn:E; simpl; rewrite ?E. Qed.
Lemma claims_refund n t : claims (add_frame_refund n t) = claims t.
Proof. unfold claims, add_frame_refund. by destruct (frame_stack t) eqn:E; simpl; rewrite ?E. Qed.
Lemma claims_parent_discardable n t : claims (add_parent_discardable n t) = claims t.
Proof.
  unfold claims, add_parent_discardable.
  by destruct (frame_stack t) as [|? []] eqn:E; simpl; rewrite ?E.
Qed.
Lemma claims_tx_persistent n t : claims (add_tx_persistent n t) = claims t.
Proof. done. Qed.
Lemma claims_frame_mut f t :
  (∀ e, charged_parent_update (fle_info (f e)) = charged_parent_update (fle_info e)) →
  claims (frame_mut f t) = claims t.
Proof.
  intros Hf. unfold claims, frame_mut.
  destruct (frame_stack t) eqn:E; simpl; rewrite ?E; [done|]. by rewrite Hf.
Qed.
Lemma claims_pop b t : claims (fst (pop_frame b t)) = tail (claims t).
Proof.
  unfold claims, pop_frame.
  by destruct (frame_stack t) as [|? []] eqn:E; destruct b; simpl; rewrite ?E.
Qed.

Lemma call_wf_step t t' :
  step t t' → claims t' = claims t ∨ claims t' = tail (claims t) → call_wf t → call_wf t'.
Proof.
  intros Hs Hc [Hi Hb]. split; [by eapply step_inv|]. unfold bottom_unclaimed in *.
  destruct Hc as [->| ->]; [done|]. by destruct (claims t) as [|? []].
Qed.

Lemma call_wf_discardable n t : call_wf t → call_wf (add_frame_discardable n t).
Proof. apply call_wf_step; [constructor|left; apply claims_discardable]. Qed.
Lemma call_wf_refund n t : call_wf t → call_wf (add_frame_refund n t).
Proof. apply call_wf_step; [constructor|left; apply claims_refund]. Qed.
Lemma call_wf_parent_discardable n t : call_wf t → call_wf (add_parent_discardable n t).
Proof. apply call_wf_step; [constructor|left; apply claims_parent_discardable]. Qed.
Lemma call_wf_tx_persistent n t : call_wf t → call_wf (add_tx_persistent n t).
Proof. apply call_wf_step; [constructor|by left]. Qed.
Lemma call_wf_reset t : call_wf t → call_wf (FrameLimit.reset t).
Proof. intros [Hi _]. split; [eapply step_inv; [apply step_reset|done]|done]. Qed.

Lemma set_target_updated_step b t : step t (frame_mut (set_target_updated b) t).
Proof. apply step_frame_mut. intros e. simpl. auto. Qed.

Lemma call_wf_target_updated b t : call_wf t → call_wf (frame_mut (set_target_updated b) t).
Proof. apply call_wf_step; [apply set_target_updated_step|left; by apply claims_frame_mut]. Qed.

Lemma push_info_wf info t t' :
  call_wf t → (frame_stack t = [] → charged_parent_update info = false) →
  push_call_frame_info info t = Some t' →
  stack_depth t' = S (stack_depth t) ∧ call_wf t' ∧ claims t' = charged_parent_update info :: claims t.
Proof.
  intros [Hi Hb] Hbot. unfold push_call_frame_info.
  assert (Hcl : last (charged_parent_update info :: claims t) ≠ Some true).
  { unfold bottom_unclaimed, claims in *. destruct (frame_stack t) as [|e s]; simpl in *; [|done].
    by rewrite Hbot. }
  destruct (flt_rex4_enabled t); intros H.
  - pose proof (step_push _ _ _ H) as Hs. apply push_frame_inv in H as (l & Hl & ->).
    split_and!; auto. split; [by eapply step_inv|done].
  - simplify_eq. split_and!; auto. split; [|done].
    eapply step_inv; [apply step_push_limit, in_u64_max|done].
Qed.

Lemma claim_parent_update_wf t t' b :
  call_wf t → claim_parent_update t = (t', b) →
  call_wf t' ∧ stack_depth t' = stack_depth t ∧ claims t' = claims t ∧
  (frame_stack t' = [] → b = false).
Proof.
  intros Hwf. unfold claim_parent_update.
  destruct (frame_stack t) as [|e s] eqn:E; [intros [= <- <-]; auto|].
  destruct (target_updated (fle_info e)); [intros [= <- <-]; auto|].
  destruct (flt_rex5_enabled t); intros [= <- <-].
  - split_and!; [by apply call_wf_target_updated|apply depth_frame_mut|by apply claims_frame_mut|].
    unfold frame_mut. by rewrite E.
  - split_and!; auto. by rewrite E.
Qed.

Lemma push_call_frame_wf target tr t t' b :
  call_wf t → push_call_frame target tr t = Some (t', b) →
  stack_depth t' = S (stack_depth t) ∧ call_wf t'.
Proof.
  intros Hwf. unfold push_call_frame.
  destruct (if tr then claim_parent_update t else (t, false)) as [t1 b1] eqn:E.
  assert (call_wf t1 ∧ stack_depth t1 = stack_depth t ∧ (frame_stack t1 = [] → b1 = false))
    as (Hwf1 & <- & Hb).
  { destruct tr; [|by simplify_eq]. apply claim_parent_update_wf in E; tauto. }
  destruct (push_call_frame_info _ t1) as [t2|] eqn:Hp; [|done]. intros [= <- <-].
  apply push_info_wf in Hp; [tauto|done|]. simpl. intros Hs. rewrite Hb by done.
  apply andb_false_r.
Qed.

Lemma push_create_frame_wf t t' b :
  call_wf t → push_create_frame t = Some (t', b) →
  stack_depth t' = S (stack_depth t) ∧ call_wf t'.
Proof.
  intros Hwf. unfold push_create_frame.
  destruct (claim_parent_update t) as [t1 b1] eqn:E.
  apply claim_parent_update_wf in E as (Hwf1 & <- & _ & Hb); [|done].
  destruct (push_call_frame_info _ t1) as [t2|] eqn:Hp; [|done]. intros [= <- <-].
  apply push_info_wf in Hp; [tauto|done|]. simpl. intros Hs. rewrite Hb by done.
  by rewrite andb_false_r.
Qed.

Lemma push_dummy_frame_wf t t' :
  call_wf t → push_dummy_frame t = Some t' →
  stack_depth t' = S (stack_depth t) ∧ call_wf t'.
Proof. intros Hwf Hp. apply push_info_wf in Hp; tauto. Qed.

Lemma set_created_address_wf a t t' :
  call_wf t → set_created_address a t = Some t' →
  stack_depth t' = stack_depth t ∧ call_wf t'.
Proof.
  intros Hwf. unfold set_created_address. destruct (frame_stack t) as [|e s] eqn:E.
  { by intros [= <-]. }
  destruct (target_address (fle_info e)); [done|]. intros [= <-].
  split; [apply depth_frame_mut|].
  apply call_wf_step with t; [|left; by apply claims_frame_mut|done].
  apply step_frame_mut. intros e'. simpl. auto.
Qed.

(** The [expect] on the parent frame never fires. *)
Lemma pop_frame_unwind_parent_wf b t :
  call_wf t →
  ∃ t', pop_frame_unwind_parent b t = Some t' ∧ stack_depth t' = pred (stack_depth t) ∧ call_wf t'.
Proof.
  intros Hwf. unfold pop_frame_unwind_parent.
  assert (Hwf' : call_wf (fst (pop_frame b t))).
  { apply call_wf_step with t; [apply step_pop|right; apply claims_pop|done]. }
  pose proof (depth_pop b t) as Hd.
  destruct (pop_frame b t) as [t1 child] eqn:E. simpl in *.
  destruct b; [by eexists|].
  destruct child as [c|]; [|by eexists].
  destruct (charged_parent_update (fle_info c)) eqn:Hc; [|by eexists].
  destruct (frame_stack t1) as [|p s] eqn:Es.
  - destruct Hwf as [_ Hb]. unfold bottom_unclaimed, claims in Hb. unfold pop_frame in E.
    destruct (frame_stack t) as [|c' [|p' s']]; simplify_eq/=. by rewrite Hc in Hb.
  - eexists. split_and!; [done| |by apply call_wf_target_updated].
    by rewrite depth_frame_mut.
Qed.
End call_tracker.

#[export] Hint Resolve call_wf_discardable call_wf_refund call_wf_parent_discardable
  call_wf_tx_persistent call_wf_reset : call_wf.

(** * The cached total is the reference total *)

Section cache.
Context {I : Type}.
Implicit Types (e : FrameLimitEntry I) (t : FrameLimitTracker I).

Lemma sum_frames_spec (l : list (FrameLimitEntry I)) u r :
  in_u64 u → in_u64 r →
  match sum_frames l u r with
  | Some (u', r') =>
      u' = wrap64 (u + sumZ entry_total l) ∧ r' = wrap64 (r + sumZ fle_refund l)
  | None => ∃ e, e ∈ l ∧ u64_max < entry_total e
  end.
Proof.
  revert u r. induction l as [|e l IH]; intros u r Hu Hr; simpl.
  { rewrite !sumZ_nil, !Z.add_0_r, !wrap64_small by done. done. }
  unfold used, checked_add. fold (entry_total e).
  destruct (Z.leb_spec (entry_total e) u64_max) as [Hle|Hgt]; simpl.
  - pose proof (IH _ _ (wadd_range u (entry_total e)) (wadd_range r (fle_refund e))) as IH'.
    destruct (sum_frames l _ _) as [[u' r']|]; simpl in *.
    + destruct IH' as [-> ->]. unfold wadd. by rewrite !wrap64_add_l, !sumZ_cons, !Z.add_assoc.
    + destruct IH' as (e' & He' & ?). exists e'. split; [by right|done].
  - exists e. split; [left|done].
Qed.

Lemma entry_total_nonneg {J} (l : list (FrameLimitEntry J)) :
  Forall entry_ok l → Forall (λ e : FrameLimitEntry J, 0 ≤ entry_total e) l.
Proof.
  intros H. eapply Forall_impl; [exact H|]. intros e (?&?&?&?). unfold entry_total. u64_lia.
Qed.

Lemma net_usage_reference t :
  tracker_inv t →
  match net_usage_uncached t with
  | Some v => v = net_usage t
  | None => u64_max < total_used t
  end.
Proof.
  intros [(Htx & Hs & Hcu & Hcr) [Hu Hr]]. unfold net_usage_uncached, net_usage.
  assert (Hnn : 0 ≤ sumZ entry_total (frame_stack t)).
  { apply sumZ_nonneg, entry_total_nonneg, Hs. }
  unfold used, checked_add. fold (entry_total (tx_entry t)).
  assert (0 ≤ entry_total (tx_entry t)) by (destruct Htx as (?&?&?&?); unfold entry_total; u64_lia).
  destruct (Z.leb_spec (entry_total (tx_entry t)) u64_max) as [Hle|Hgt]; simpl;
    [|unfold total_used; lia].
  pose proof (sum_frames_spec (rev (frame_stack t)) (entry_total (tx_entry t))
    (fle_refund (tx_entry t)) ltac:(unfold in_u64; lia) ltac:(apply Htx)) as Hsum.
  destruct (sum_frames _ _ _) as [[u r]|]; simpl.
  - destruct Hsum as [-> ->]. rewrite !sumZ_rev.
    unfold cong64 in Hu, Hr. rewrite wrap64_small in Hu, Hr by done. by rewrite Hu, Hr.
  - destruct Hsum as (e & He & ?). unfold total_used.
    rewrite list_elem_of_In, <- in_rev, <- list_elem_of_In in He.
    pose proof (sumZ_elem_le entry_total _ e (entry_total_nonneg _ Hs) He). lia.
Qed.
End cache.

(** C1: in every state a tracker can reach through its operations, the O(1) cached
    [net_usage] is the value the O(depth) reference walk computes; the walk itself can
    only panic when the recorded usage does not fit in 64 bits.  Hence the debug
    assertion in [net_usage] never fires and release builds return the same value. *)
Theorem net_usage_matches_reference {I} (spec : MegaSpecId) (limit : Z)
    (t : FrameLimitTracker I) :
  in_u64 limit → rtc step (tracker_new spec limit) t →
  match net_usage_uncached t with
  | Some v => v = net_usage t
  | None => u64_max < total_used t
  end.
Proof. intros Hl Hr. apply net_usage_reference. by eapply reachable_inv. Qed.

(** Two frames deep, with a revert in between. *)
Definition sample_tracker : FrameLimitTracker unit :=
  let t := tracker_new REX4 1000 in
  let t := add_tx_persistent 100 t in
  let t := push_frame_with_limit 900 tt t in
  let t := add_frame_discardable 30 t in
  let t := push_frame_with_limit 800 tt t in
  let t := add_frame_discardable 15 t in
  let t := add_frame_refund 3 t in
  fst (pop_frame false t).

Lemma sample_tracker_reachable : rtc step (tracker_new REX4 1000) sample_tracker.
Proof.
  unfold sample_tracker.
  eapply rtc_l; [by apply (step_tx_persistent _ 100)|].
  eapply rtc_l; [by apply (step_push_limit _ 900 tt)|].
  eapply rtc_l; [by apply (step_discardable _ 30)|].
  eapply rtc_l; [by apply (step_push_limit _ 800 tt)|].
  eapply rtc_l; [by apply (step_discardable _ 15)|].
  eapply rtc_l; [by apply (step_refund _ 3)|].
  eapply rtc_l; [by apply (step_pop _ false)|].
  apply rtc_refl.
Defined.

Lemma net_usage_matches_reference_witness :
  net_usage_uncached sample_tracker = Some 130 ∧ 130 = net_usage sample_tracker.
Proof.
  split; [reflexivity|].
  exact (net_usage_matches_reference REX4 1000 sample_tracker ltac:(u64_lia)
           sample_tracker_reachable).
Defined.
