(* ===== verification/FrameTree.v ===== *)
(** An abstract account of resource usage, and the proof that the tracker implements it.

    A transaction's execution is a tree of frames.  Each frame records amounts in three
    lanes and runs child frames that succeed or revert.  The abstract usage of a tree is
    read off the tree: persistent amounts always count, discardable and refunded amounts
    count only when no frame around them (inside the tree) reverted.  The tracker computes
    the same figures incrementally, with cached totals and wrapping arithmetic. *)

From S2P Require Import Prelude Spec Revm LimitCheck FrameLimit FrameLimitFacts.

(** * The abstract specification *)

#[warnings="-register-all"]
Inductive event : Type :=
  | Persist (n : Z)
  | Discard (n : Z)
  | Refund (n : Z)
  | Frame (success : bool) (body : list event).

Record usage : Type := mkUsage { u_persistent : Z; u_discardable : Z; u_refund : Z }.

Definition usage_zero : usage := mkUsage 0 0 0.

Definition usage_add (a b : usage) : usage :=
  mkUsage (u_persistent a + u_persistent b) (u_discardable a + u_discardable b)
    (u_refund a + u_refund b).

Fixpoint event_usage (e : event) : usage :=
  match e with
  | Persist n => mkUsage n 0 0
  | Discard n => mkUsage 0 n 0
  | Refund n => mkUsage 0 0 n
  | Frame success body =>
      let u := foldr (λ e acc, usage_add (event_usage e) acc) usage_zero body in
      if success then u else mkUsage (u_persistent u) 0 0
  end.

Definition events_usage (l : list event) : usage :=
  foldr (λ e acc, usage_add (event_usage e) acc) usage_zero l.

(** Everything recorded anywhere in the tree, in each direction. *)
Fixpoint event_gross (e : event) : Z :=
  match e with
  | Persist n | Discard n => n
  | Refund _ => 0
  | Frame _ body => foldr (λ e acc, event_gross e + acc) 0 body
  end.

Fixpoint event_ok (e : event) : Prop :=
  match e with
  | Persist n | Discard n | Refund n => 0 ≤ n
  | Frame _ body => foldr (λ e acc, event_ok e ∧ acc) True body
  end.

(** * Running a tree on the tracker *)

Section run.
Context {I : Type} (info : I).
Implicit Types t : FrameLimitTracker I.

(** The push every dimension performs for a new frame: a forwarded budget under Rex4,
    an unlimited one before. *)
Definition push_spec_frame t : panics (FrameLimitTracker I) :=
  if flt_rex4_enabled t then push_frame info t
  else Some (push_frame_with_limit u64_max info t).

Fixpoint run_event (e : event) t : panics (FrameLimitTracker I) :=
  match e with
  | Persist n => Some (fst (add_frame_persistent n t))
  | Discard n => Some (add_frame_discardable n t)
  | Refund n => Some (add_frame_refund n t)
  | Frame success body =>
      t ← push_spec_frame t;
      t ← (fix go (l : list event) t : panics (FrameLimitTracker I) :=
             match l with [] => Some t | e :: l => t ← run_event e t; go l t end) body t;
      Some (fst (pop_frame success t))
  end.

Definition run_events : list event → FrameLimitTracker I → panics (FrameLimitTracker I) :=
  fix go l t := match l with [] => Some t | e :: l => t ← run_event e t; go l t end.

(** The effect the abstract usage has on the innermost scope. *)
Definition charge_entry {J} (u : usage) (e : FrameLimitEntry J) : FrameLimitEntry J :=
  mkEntry (fle_limit e) (fle_persistent e +w u_persistent u)
    (fle_discardable e +w u_discardable u) (fle_refund e +w u_refund u) (fle_info e).

Definition charge (u : usage) t : FrameLimitTracker I :=
  set_cached
    (match frame_stack t with
     | e :: rest => set_stack t (charge_entry u e :: rest)
     | [] => set_tx_entry t (charge_entry u (tx_entry t))
     end)
    (cached_total_used t +w (u_persistent u + u_discardable u))
    (cached_total_refund t +w u_refund u).
End run.

(** * Proofs *)

Lemma event_ind' (P : event → Prop) :
  (∀ n, P (Persist n)) → (∀ n, P (Discard n)) → (∀ n, P (Refund n)) →
  (∀ b body, Forall P body → P (Frame b body)) → ∀ e, P e.
Proof.
  intros Hp Hd Hr Hf. fix IH 1. intros [n|n|n|b body]; [apply Hp|apply Hd|apply Hr|].
  apply Hf. induction body; constructor; auto.
Qed.

Section refinement.
Context {I : Type} (info : I).
Implicit Types t : FrameLimitTracker I.

Lemma charge_entry_ok {J} u (e : FrameLimitEntry J) : entry_ok e → entry_ok (charge_entry u e).
Proof. intros (?&?&?&?). split_and!; simpl; auto with u64. Qed.

Lemma charge_ok u t : tracker_ok t → tracker_ok (charge u t).
Proof.
  destruct_tracker t. intros ((?&?&?&?)&Hs&?&?). unfold charge; simpl.
  destruct s as [|e s]; simpl; split_and!; auto with u64.
  apply Forall_cons in Hs as [? ?]. apply Forall_cons. split; [by apply charge_entry_ok|done].
Qed.

Lemma charge_entry_zero {J} (e : FrameLimitEntry J) :
  entry_ok e → charge_entry usage_zero e = e.
Proof.
  intros (?&?&?&?). destruct e. unfold charge_entry; simpl in *. by rewrite !wadd_0_r.
Qed.

Lemma charge_zero t : tracker_ok t → charge usage_zero t = t.
Proof.
  intros (He & Hs & ? & ?). unfold charge. simpl. rewrite !wadd_0_r by done.
  destruct t as [tx [|e s] r4 r5 r6 cu cr]; simpl in *; unfold set_cached; simpl; f_equal.
  - by apply charge_entry_zero.
  - apply Forall_cons in Hs as [? ?]. by rewrite charge_entry_zero.
Qed.

Lemma charge_add u v t : charge v (charge u t) = charge (usage_add u v) t.
Proof.
  unfold charge, charge_entry. destruct_tracker t.
  destruct s as [|e s]; simpl; rewrite !wadd_assoc; do 2 f_equal; lia.
Qed.

Lemma charge_stack_nonempty u t : frame_stack t ≠ [] → frame_stack (charge u t) ≠ [].
Proof. unfold charge. by destruct (frame_stack t). Qed.

Lemma push_spec_frame_inv t t1 :
  push_spec_frame info t = Some t1 → tracker_ok t →
  ∃ l, in_u64 l ∧ t1 = push_frame_with_limit l info t.
Proof.
  unfold push_spec_frame, push_frame. intros H Hok.
  destruct (flt_rex4_enabled t); [|simplify_eq; eauto with u64].
  destruct (max_forward_limit t) as [l|] eqn:Hl; simplify_eq/=.
  eauto using max_forward_range.
Qed.

Lemma push_ok l t : in_u64 l → tracker_ok t → tracker_ok (push_frame_with_limit l info t).
Proof.
  intros Hl. destruct_tracker t. intros (?&Hs&?&?). split_and!; auto; try tauto.
  apply Forall_cons. split_and!; auto with u64.
Qed.

(** Leaving a frame charges the scope below with the frame's usage, or with its
    persistent part when it reverts. *)
Lemma pop_charge l u success t :
  tracker_ok t →
  fst (pop_frame success (charge u (push_frame_with_limit l info t))) =
  charge (if success then u else mkUsage (u_persistent u) 0 0) t.
Proof.
  destruct_tracker t. intros ((?&?&?&?)&Hs&?&?). unfold charge, charge_entry, pop_frame; simpl.
  destruct s as [|p s]; simpl; [|apply Forall_cons in Hs as [(?&?&?&?) ?]];
    destruct success; simpl; tracker_simpl; fields_eq.
Qed.

Lemma run_events_cons e l t :
  run_events info (e :: l) t = (t ← run_event info e t; run_events info l t).
Proof. done. Qed.

Lemma run_frame success body t :
  run_event info (Frame success body) t =
  (t ← push_spec_frame info t; t ← run_events info body t; Some (fst (pop_frame success t))).
Proof. done. Qed.

(** Running an event inside a frame, or a whole frame anywhere, charges the innermost
    scope with the event's abstract usage. *)
Definition runs_as_charge (e : event) : Prop :=
  ∀ t t', tracker_ok t → frame_stack t ≠ [] ∨ (∃ b l, e = Frame b l) →
    run_event info e t = Some t' → t' = charge (event_usage e) t.

Lemma events_charge l t t' :
  Forall runs_as_charge l → tracker_ok t → frame_stack t ≠ [] →
  run_events info l t = Some t' → t' = charge (events_usage l) t.
Proof.
  intros Hl. revert t. induction Hl as [|e l He Hl IH]; intros t Hok Hne.
  { intros [= <-]. symmetry. by apply charge_zero. }
  rewrite run_events_cons. destruct (run_event info e t) as [t1|] eqn:E1; [|done]. simpl.
  apply He in E1 as ->; auto. intros E2. apply IH in E2 as ->.
  - by rewrite charge_add.
  - by apply charge_ok.
  - by apply charge_stack_nonempty.
Qed.

Lemma lane_charge e t :
  tracker_ok t → frame_stack t ≠ [] →
  match e with
  | Persist n => fst (add_frame_persistent n t) = charge (event_usage e) t
  | Discard n => add_frame_discardable n t = charge (event_usage e) t
  | Refund n => add_frame_refund n t = charge (event_usage e) t
  | Frame _ _ => True
  end.
Proof.
  destruct_tracker t. intros (?&Hs&?&?) Hne. destruct s as [|p s]; [done|].
  apply Forall_cons in Hs as [(?&?&?&?) ?].
  unfold add_frame_persistent, add_frame_discardable, add_frame_refund, charge, charge_entry.
  destruct e; [..|done]; tracker_simpl; fields_eq.
Qed.

Lemma event_charge e : runs_as_charge e.
Proof.
  induction e as [n|n|n|b body IH] using event_ind'; intros t t' Hok Hne;
    try (destruct Hne as [Hne|(?&?&?)]; [|done]; intros [= <-]).
  1: by apply (lane_charge (Persist n)).
  1: by apply (lane_charge (Discard n)).
  1: by apply (lane_charge (Refund n)).
  rewrite run_frame. destruct (push_spec_frame info t) as [t1|] eqn:E1; [|done]. simpl.
  apply push_spec_frame_inv in E1 as (l & Hl & ->); [|done].
  destruct (run_events info body _) as [t2|] eqn:E2; [|done]. simpl.
  apply events_charge in E2 as ->; auto using push_ok.
  intros [= <-]. by rewrite pop_charge by done.
Qed.
End refinement.

(** * Totality *)

Section totality.
Context {I : Type} (info : I).
Implicit Types t : FrameLimitTracker I.

Definition events_gross (l : list event) : Z := foldr (λ e acc, event_gross e + acc) 0 l.
Definition events_ok (l : list event) : Prop := foldr (λ e acc, event_ok e ∧ acc) True l.

Definition usage_bounded (u : usage) (g : Z) : Prop :=
  0 ≤ u_persistent u ∧ 0 ≤ u_discardable u ∧ 0 ≤ u_refund u ∧
  u_persistent u + u_discardable u ≤ g.

Lemma events_bounded l :
  Forall (λ e, event_ok e → usage_bounded (event_usage e) (event_gross e)) l →
  events_ok l → usage_bounded (events_usage l) (events_gross l).
Proof.
  unfold usage_bounded. induction 1 as [|e l He Hl IH]; simpl; [lia|].
  intros [He' Hl']. specialize (He He'). specialize (IH Hl'). simpl. lia.
Qed.

Lemma event_bounded e : event_ok e → usage_bounded (event_usage e) (event_gross e).
Proof.
  induction e as [n|n|n|b body IH] using event_ind'; intros Hok;
    [unfold usage_bounded; simpl in *; lia..|].
  pose proof (events_bounded body IH Hok) as Hb. unfold usage_bounded in *.
  change (event_usage (Frame b body)) with
    (if b then events_usage body else mkUsage (u_persistent (events_usage body)) 0 0).
  change (event_gross (Frame b body)) with (events_gross body).
  destruct b; simpl; lia.
Qed.

Lemma total_used_charge u t :
  tracker_ok t → 0 ≤ u_persistent u → 0 ≤ u_discardable u →
  total_used t + (u_persistent u + u_discardable u) ≤ u64_max →
  total_used (charge u t) = total_used t + (u_persistent u + u_discardable u).
Proof.
  intros (Htx & Hs & _). unfold total_used, charge.
  pose proof (sumZ_nonneg entry_total (frame_stack t) (entry_total_nonneg _ Hs)).
  destruct Htx as (?&?&?&?). intros.
  destruct (frame_stack t) as [|e s] eqn:E; simpl; rewrite ?E, ?sumZ_cons in *.
  - unfold entry_total in *; simpl. rewrite !wadd_small; u64_lia.
  - apply Forall_cons in Hs as [(?&?&?&?) Hs].
    pose proof (sumZ_nonneg entry_total s (entry_total_nonneg _ Hs)).
    unfold entry_total in *; simpl. rewrite !wadd_small; u64_lia.
Qed.

Lemma max_forward_total t :
  tracker_ok t → total_used t ≤ u64_max → is_Some (max_forward_limit t).
Proof.
  intros (Htx & Hs & _) Hle. unfold max_forward_limit, total_used in *.
  pose proof (sumZ_nonneg entry_total (frame_stack t) (entry_total_nonneg _ Hs)).
  destruct Htx as (?&?&?&?).
  destruct (frame_stack t) as [|e s]; unfold remaining; rewrite ?sumZ_cons, ?sumZ_nil in *.
  - unfold used. rewrite checked_add_Some by (unfold entry_total in *; lia). by eexists.
  - apply Forall_cons in Hs as [(?&?&?&?) Hs].
    pose proof (sumZ_nonneg entry_total s (entry_total_nonneg _ Hs)).
    rewrite used_Some by (unfold entry_total in *; u64_lia). by eexists.
Qed.

Lemma push_spec_frame_total t :
  tracker_ok t → total_used t ≤ u64_max → is_Some (push_spec_frame info t).
Proof.
  intros Hok Hle. unfold push_spec_frame, push_frame.
  destruct (flt_rex4_enabled t); [|by eexists].
  destruct (max_forward_total t Hok Hle) as [l ->]. by eexists.
Qed.

Definition runs (e : event) : Prop :=
  ∀ t, tracker_ok t → frame_stack t ≠ [] ∨ (∃ b l, e = Frame b l) → event_ok e →
    total_used t + event_gross e ≤ u64_max → is_Some (run_event info e t).

Lemma events_total l t :
  Forall runs l → tracker_ok t → frame_stack t ≠ [] → events_ok l →
  total_used t + events_gross l ≤ u64_max → is_Some (run_events info l t).
Proof.
  intros Hl. revert t. induction Hl as [|e l He Hl IH]; intros t Hok Hne Hev Hg; [by eexists|].
  destruct Hev as [Hev1 Hev2]. rewrite run_events_cons. simpl in Hg.
  assert (Hgl : 0 ≤ events_gross l).
  { destruct (events_bounded l) as (?&?&?&?); [|done|lia].
    apply Forall_forall. intros ? _. apply event_bounded. }
  destruct (event_bounded e Hev1) as (?&?&?&?).
  destruct (He t) as [t1 E1]; auto; [lia|]. rewrite E1. simpl.
  apply event_charge in E1 as ->; auto.
  apply IH; auto using charge_ok, charge_stack_nonempty.
  rewrite total_used_charge by (auto; lia). lia.
Qed.

Lemma event_total e : runs e.
Proof.
  induction e as [n|n|n|b body IH] using event_ind'; intros t Hok Hne Hev Hg;
    [by eexists..|].
  rewrite run_frame.
  assert (0 ≤ event_gross (Frame b body)) by (destruct (event_bounded _ Hev) as (?&?&?&?); lia).
  destruct (push_spec_frame_total t) as [t1 E1]; [done|lia|]. rewrite E1. simpl.
  apply push_spec_frame_inv in E1 as (l & Hl & ->); [|done].
  assert (Hb : is_Some (run_events info body (push_frame_with_limit l info t)));
    [|destruct Hb as [t2 E2]; rewrite E2; by eexists].
  apply events_total; [exact IH|by apply push_ok|done|exact Hev|].
  unfold total_used, push_frame_with_limit in *; simpl. rewrite sumZ_cons. exact Hg.
Qed.
End totality.

(** C2: the tracker implements the abstract account of usage.  A transaction records an
    intrinsic amount [i], runs its frame tree from the top frame down and pops it; when the
    recorded amounts fit in 64 bits nothing panics, the stack is empty again, and the net
    usage is the tree's surviving persistent and discardable usage less its surviving
    refunds.  In particular a reverted subtree contributes its persistent part only, at any
    depth. *)
Theorem tracker_refines_frame_tree {I} (info : I) spec limit i success body :
  in_u64 limit → 0 ≤ i → events_ok body →
  i + events_gross body ≤ u64_max →
  u_refund (event_usage (Frame success body)) ≤ u64_max →
  let u := event_usage (Frame success body) in
  ∃ t, run_event info (Frame success body) (add_tx_persistent i (tracker_new spec limit)) = Some t ∧
       frame_stack t = [] ∧
       net_usage t = sat_sub (i + u_persistent u + u_discardable u) (u_refund u).
Proof.
  intros Hl Hi Hev Hg Hr u.
  assert (Hb : usage_bounded u (events_gross body)) by apply (event_bounded (Frame success body) Hev).
  destruct Hb as (?&?&?&?).
  set (t0 := add_tx_persistent i (tracker_new spec limit)).
  assert (Hi64 : 0 +w i = i) by (apply wadd_small; u64_lia).
  assert (Hok : tracker_ok t0).
  { apply (step_inv (tracker_new spec limit)); [constructor; u64_lia|by apply tracker_new_inv]. }
  assert (Ht : total_used t0 = i).
  { unfold total_used, entry_total, t0; simpl. rewrite Hi64, sumZ_nil. lia. }
  destruct (event_total info (Frame success body) t0) as [t E]; eauto; [simpl in *; rewrite Ht; exact Hg|].
  exists t. split; [done|]. apply event_charge in E as ->; eauto. fold u. split; [done|].
  fold u in Hr. unfold net_usage, charge, t0; simpl. rewrite Hi64, !wadd_small by u64_lia.
  unfold sat_sub; lia.
Qed.

Definition sample_body : list event :=
  [Persist 7; Discard 30; Frame false [Discard 15; Persist 4; Frame true [Refund 3; Discard 9]];
   Frame true [Discard 20; Refund 5]].

Lemma tracker_refines_frame_tree_witness :
  ∃ t, run_event tt (Frame true sample_body) (add_tx_persistent 100 (tracker_new REX4 1000)) = Some t ∧
       frame_stack t = [] ∧ net_usage t = 156.
Proof.
  apply (tracker_refines_frame_tree tt REX4 1000 100 true sample_body);
    first [u64_lia | vm_compute; intuition discriminate].
Defined.
