(* ===== verification/FrameBudget.v ===== *)
(** Per-frame budgets (Rex4): the budget forwarded to a frame is cut from its caller's
    remaining budget, so frames that stay within their budgets keep the transaction within
    its limit, up to what is charged below an open frame, and a frame cannot exhaust its
    caller. *)

From S2P Require Import Prelude Spec Revm LimitCheck FrameLimit FrameLimitFacts.

(** * Scopes

    The scopes of a tracker, innermost first, as pairs of a limit and a net usage: the open
    frames and, last, the transaction. *)

Section scopes.
Context {I : Type}.
Implicit Types t : FrameLimitTracker I.

Definition net_of {J} (e : FrameLimitEntry J) : Z := sat_sub (entry_total e) (fle_refund e).

Definition scope_of {J} (e : FrameLimitEntry J) : Z * Z := (fle_limit e, net_of e).

Definition scopes t : list (Z * Z) := map scope_of (frame_stack t) ++ [scope_of (tx_entry t)].

(** By how much the limits of the frames exceed what their callers have left. *)
Fixpoint overrun (l : list (Z * Z)) : Z :=
  match l with
  | (limit, _) :: (((limit', net') :: _) as rest) =>
      Z.max 0 (limit - (limit' - net')) + overrun rest
  | _ => 0
  end.

(** By how much the current scope exceeds its limit. *)
Definition overdraft (l : list (Z * Z)) : Z :=
  match l with [] => 0 | (limit, net) :: _ => Z.max 0 (net - limit) end.

#[global] Arguments overrun : simpl never.

Lemma overrun_cons2 s s' rest :
  overrun (s :: s' :: rest) = Z.max 0 (fst s - (fst s' - snd s')) + overrun (s' :: rest).
Proof. by destruct s, s'. Qed.

Lemma overrun_head limit n m rest : overrun ((limit, n) :: rest) = overrun ((limit, m) :: rest).
Proof. by destruct rest as [|[? ?] ?]. Qed.

Lemma overrun_same s s' rest : fst s = fst s' → overrun (s :: rest) = overrun (s' :: rest).
Proof. destruct s, s'. simpl. intros <-. apply overrun_head. Qed.

Lemma overrun_tail s l : overrun l ≤ overrun (s :: l).
Proof. destruct l as [|s' l]; [by destruct s|]. rewrite overrun_cons2. lia. Qed.

(** A lower limit of the current scope, and more usage of a scope below it. *)
Lemma overrun_lower limit limit' n m rest :
  limit' ≤ limit → overrun ((limit', m) :: rest) ≤ overrun ((limit, n) :: rest).
Proof. intros H. destruct rest as [|s rest]; [done|]. rewrite !overrun_cons2. simpl. lia. Qed.

Lemma overrun_below s l limit net net' rest n :
  0 ≤ n → net' ≤ net + n →
  overrun (s :: l ++ (limit, net') :: rest) ≤ overrun (s :: l ++ (limit, net) :: rest) + n.
Proof.
  intros Hn Hnet. revert s. induction l as [|s' l IH]; intros s; simpl; rewrite !overrun_cons2.
  - rewrite (overrun_head limit net' net rest). simpl. lia.
  - specialize (IH s'). lia.
Qed.

(** The usage of all scopes fits in the outermost limit, but for the overrun and what the
    current scope exceeds. *)
Lemma overrun_sum limit net rest outer :
  fst <$> last ((limit, net) :: rest) = Some outer →
  net + sumZ snd rest ≤ outer + Z.max 0 (net - limit) + overrun ((limit, net) :: rest).
Proof.
  revert limit net. induction rest as [|[l2 n2] rest IH]; intros limit net Hlast.
  { rewrite sumZ_nil. simpl in Hlast. injection Hlast as <-. unfold overrun. lia. }
  rewrite overrun_cons2, sumZ_cons. simpl.
  assert (Hlast' : fst <$> last ((l2, net + n2) :: rest) = Some outer) by (by destruct rest).
  specialize (IH l2 (net + n2) Hlast'). rewrite (overrun_head l2 (net + n2) n2) in IH. lia.
Qed.

Lemma net_of_nonneg {J} (e : FrameLimitEntry J) : 0 ≤ net_of e.
Proof. unfold net_of. u64_lia. Qed.

Lemma net_sum (l : list (FrameLimitEntry I)) :
  sumZ entry_total l - sumZ fle_refund l ≤ sumZ snd (map scope_of l).
Proof.
  induction l as [|e l IH]; simpl; rewrite ?sumZ_cons, ?sumZ_nil; [lia|]. simpl.
  unfold net_of, sat_sub in *. lia.
Qed.

(** The net usage of a tracker whose counters did not wrap. *)
Lemma net_usage_total t :
  tracker_inv t → in_u64 (total_used t) → in_u64 (total_refund t) →
  net_usage t = sat_sub (total_used t) (total_refund t).
Proof.
  intros [(_ & _ & ? & ?) [Hu Hr]] ? ?. unfold net_usage.
  by rewrite (cong64_eq _ _ H H1 Hu), (cong64_eq _ _ H0 H2 Hr).
Qed.

Lemma net_usage_scopes t :
  tracker_inv t → in_u64 (total_used t) → in_u64 (total_refund t) →
  net_usage t ≤ sumZ snd (scopes t).
Proof.
  intros Hi Hu Hr. rewrite net_usage_total by done. unfold scopes, total_used, total_refund.
  rewrite sumZ_app, sumZ_cons, sumZ_nil. simpl.
  pose proof (net_sum (frame_stack t)).
  assert (0 ≤ sumZ snd (map scope_of (frame_stack t))).
  { apply sumZ_nonneg. apply Forall_map. apply Forall_forall. intros e _. simpl. apply net_of_nonneg. }
  unfold net_of, sat_sub in *. lia.
Qed.

Lemma current_scope t :
  match scopes t with
  | s :: rest =>
      s = match frame_stack t with e :: _ => scope_of e | [] => scope_of (tx_entry t) end
  | [] => False
  end.
Proof. unfold scopes. by destruct (frame_stack t). Qed.
End scopes.

(** * Metered execution *)

Section metered.
Context {I : Type}.
Implicit Types t : FrameLimitTracker I.

(** The calls a dimension makes from Rex4 on, each with the amount that no budget sees: what is
    charged to the transaction or to the caller while a frame above it has its budget already,
    and what a scope exceeds its limit by when it opens a frame.  All other usage goes to the
    current scope, and the limit of a frame may be lowered. *)
Inductive budget_step t : Z → FrameLimitTracker I → Prop :=
  | bs_push info t' : push_frame info t = Some t' → budget_step t (overdraft (scopes t)) t'
  | bs_pop b : budget_step t 0 (fst (pop_frame b t))
  | bs_tx_persistent n :
      0 ≤ n → budget_step t (match frame_stack t with [] => 0 | _ => n end) (add_tx_persistent n t)
  | bs_parent_discardable n :
      0 ≤ n → budget_step t (match frame_stack t with _ :: _ :: _ => n | _ => 0 end)
                (add_parent_discardable n t)
  | bs_persistent n : budget_step t 0 (fst (add_frame_persistent n t))
  | bs_discardable n : budget_step t 0 (add_frame_discardable n t)
  | bs_refund n : budget_step t 0 (add_frame_refund n t)
  | bs_frame_mut f :
      usage_preserving f → (∀ e, fle_limit (f e) ≤ fle_limit e) → budget_step t 0 (frame_mut f t).

(** A run, with the amount no budget has seen since the last reset. *)
Inductive budget_run (spec : MegaSpecId) (limit : Z) : FrameLimitTracker I → Z → Prop :=
  | br_new : budget_run spec limit (tracker_new spec limit) 0
  | br_step t unseen n t' :
      budget_run spec limit t unseen → budget_step t n t' → budget_run spec limit t' (unseen + n)
  | br_reset t unseen : budget_run spec limit t unseen → budget_run spec limit (reset t) 0.

Lemma budget_is_step t n t' : budget_step t n t' → step t t'.
Proof. destruct 1; by econstructor. Qed.

Lemma remaining_net {J} (e : FrameLimitEntry J) r :
  remaining e = Some r → r = sat_sub (fle_limit e) (net_of e).
Proof. apply remaining_inv. Qed.

(** The forwarded budget, without the [u128] detour. *)
Lemma max_forward_limit_value t l :
  tracker_ok t → max_forward_limit t = Some l →
  l = match frame_stack t with
      | e :: _ => sat_sub (fle_limit e) (net_of e) * 98 / 100
      | [] => sat_sub (fle_limit (tx_entry t)) (net_of (tx_entry t))
      end.
Proof.
  intros (_ & Hs & _). unfold max_forward_limit. destruct (frame_stack t) as [|e s].
  { apply remaining_net. }
  destruct (remaining e) as [r|] eqn:Hr; [simpl|done]. intros [= <-].
  apply Forall_cons in Hs as [He _]. pose proof (remaining_range e r He Hr) as Hrange.
  rewrite <- (remaining_net e r Hr).
  unfold constants.rex4.FRAME_LIMIT_NUMERATOR, constants.rex4.FRAME_LIMIT_DENOMINATOR.
  unfold in_u64, u64_max in Hrange.
  rewrite Z.mod_small by lia. apply wrap64_small. unfold in_u64, u64_max.
  split; [apply Z.div_pos; lia|]. apply Z.div_le_upper_bound; lia.
Qed.

Lemma push_overrun info t t' :
  tracker_ok t → push_frame info t = Some t' →
  overrun (scopes t') ≤ overrun (scopes t) + overdraft (scopes t).
Proof.
  intros Hok Hp. apply push_frame_inv in Hp as (l & Hl & ->).
  apply max_forward_limit_value in Hl; [|done].
  unfold scopes in *; simpl. destruct (frame_stack t) as [|e s]; simpl in *;
    rewrite overrun_cons2; simpl; subst l; unfold sat_sub.
  - lia.
  - assert (Z.max 0 (fle_limit e - net_of e) * 98 / 100 ≤ Z.max 0 (fle_limit e - net_of e));
      [|lia]. apply Z.div_le_upper_bound; lia.
Qed.

Lemma wadd_le a n : 0 ≤ a + n → a +w n ≤ a + n.
Proof. intros H. unfold wadd, wrap64. by apply Z.mod_le. Qed.

Lemma net_add_persistent {A} (e : FrameLimitEntry A) n :
  entry_ok e → 0 ≤ n → net_of (add_persistent e n) ≤ net_of e + n.
Proof.
  intros (?&?&?&?) Hn. pose proof (wadd_le (fle_persistent e) n ltac:(u64_lia)).
  unfold net_of, entry_total, sat_sub. simpl. lia.
Qed.

Lemma net_add_discardable {A} (e : FrameLimitEntry A) n :
  entry_ok e → 0 ≤ n → net_of (add_discardable e n) ≤ net_of e + n.
Proof.
  intros (?&?&?&?) Hn. pose proof (wadd_le (fle_discardable e) n ltac:(u64_lia)).
  unfold net_of, entry_total, sat_sub. simpl. lia.
Qed.

Lemma step_overrun t n t' :
  tracker_ok t → budget_step t n t' → overrun (scopes t') ≤ overrun (scopes t) + n.
Proof.
  intros Hok Hs. destruct Hs as [info t' Hp|b|n Hn|n Hn|n|n|n|f Hf Hl].
  { by eapply push_overrun. }
  all: destruct Hok as (Htx & Hfr & _); unfold pop_frame, add_frame_persistent,
    add_frame_discardable, add_frame_refund, add_parent_discardable, frame_mut, scopes in *.
  - destruct (frame_stack t) as [|c [|p s]] eqn:E; simpl in *; rewrite ?E; [simpl; lia|..].
    + destruct b; simpl; rewrite overrun_cons2; unfold overrun; simpl; lia.
    + pose proof (overrun_tail (scope_of c) (scope_of p :: map scope_of s ++ [scope_of (tx_entry t)])).
      destruct b; simpl; rewrite (overrun_same _ (scope_of p)) by done; lia.
  - simpl. destruct (frame_stack t) as [|e s]; simpl; [unfold overrun; simpl; lia|].
    apply (overrun_below _ _ _ _ _ []); [done|]. by apply net_add_persistent.
  - destruct (frame_stack t) as [|e [|p s]] eqn:E; simpl in *; rewrite ?E; simpl; [lia|lia|].
    apply (overrun_below _ []); [done|]. apply net_add_discardable; [|done].
    apply Forall_cons in Hfr as [_ Hfr]. by apply Forall_cons in Hfr as [? _].
  - destruct (frame_stack t) as [|e s] eqn:E; simpl in *; rewrite ?E; [simpl; lia|].
    rewrite (overrun_same _ (scope_of e)) by done. simpl. lia.
  - destruct (frame_stack t) as [|e s] eqn:E; simpl in *; rewrite ?E; [simpl; lia|].
    rewrite (overrun_same _ (scope_of e)) by done. simpl. lia.
  - destruct (frame_stack t) as [|e s] eqn:E; simpl in *; rewrite ?E; [simpl; lia|].
    rewrite (overrun_same _ (scope_of e)) by done. simpl. lia.
  - destruct (frame_stack t) as [|e s] eqn:E; simpl in *; rewrite ?E; [simpl; lia|].
    rewrite Z.add_0_r. apply overrun_lower, Hl.
Qed.

Lemma budget_inv spec limit t unseen :
  in_u64 limit → budget_run spec limit t unseen →
  tracker_inv t ∧ overrun (scopes t) ≤ unseen ∧ fle_limit (tx_entry t) = limit.
Proof.
  intros Hl Hr. induction Hr as [|t unseen n t' _ (Hi & Ho & Ht) Hs|t unseen _ (Hi & _ & Ht)].
  - split_and!; [by apply tracker_new_inv|done|done].
  - pose proof (budget_is_step _ _ _ Hs) as Hs'. pose proof (step_overrun _ _ _ (proj1 Hi) Hs).
    split_and!; [by eapply step_inv|lia|]. rewrite <- Ht. apply (tx_limit_step _ _ Hs').
  - split; [by eapply step_inv, Hi; apply step_reset|done].
Qed.
End metered.

(** C8: per-frame budgets bound the transaction.  Whatever operations a Rex4 dimension makes on
    its tracker (frames opened and closed in any state, usage and refunds, charges to the
    transaction and to the caller while frames are open), as long as the current frame is within
    its own budget the net usage of the whole transaction is within its limit, but for the usage
    no budget has seen: the charges to the transaction or to the caller that were made while a
    frame above had its budget already (a merged sandbox, the creator's update of Rex6), and
    what a scope was over its limit when it opened a frame.  Without such charges the
    transaction-level check does not fire while the current frame is within its budget; with
    them it can ([Dedup.rex6_creation_exceeds_transaction]), by no more than their sum. *)
Theorem frame_budgets_bound_transaction {I} spec limit (t : FrameLimitTracker I) unseen kind :
  in_u64 limit → budget_run spec limit t unseen →
  total_used t ≤ u64_max → total_refund t ≤ u64_max →
  frame_stack t ≠ [] → exceeds_current_frame_limit kind t = Some WithinLimit →
  net_usage t ≤ limit + unseen.
Proof.
  intros Hl Hr Hu Hrf Hne Hx. destruct (budget_inv spec limit t unseen Hl Hr) as (Hi & Hb & Htx).
  destruct Hi as [(Htxok & Hs & Hc) Hcache] eqn:Hi'. clear Hi'.
  assert (Hu' : in_u64 (total_used t)).
  { split; [|done]. unfold total_used. destruct Htxok as (?&?&?&?).
    pose proof (sumZ_nonneg entry_total _ (entry_total_nonneg _ Hs)).
    unfold entry_total at 1. u64_lia. }
  assert (Hr' : in_u64 (total_refund t)).
  { split; [|done]. unfold total_refund. destruct Htxok as (?&?&?&?).
    assert (0 ≤ sumZ fle_refund (frame_stack t)).
    { apply sumZ_nonneg. eapply Forall_impl; [exact Hs|]. intros e (?&?&?&?). u64_lia. }
    u64_lia. }
  pose proof (net_usage_scopes t Hi Hu' Hr') as Hn. unfold scopes in Hn, Hb.
  unfold exceeds_current_frame_limit in Hx. destruct (frame_stack t) as [|e s]; [done|].
  bind_inv Hx. apply used_inv in E as [-> _].
  destruct (Z.ltb_spec (fle_limit e) (sat_sub (entry_total e) (fle_refund e))); [done|].
  simpl in Hn, Hb. rewrite sumZ_cons in Hn. simpl in Hn.
  pose proof (overrun_sum (fle_limit e) (net_of e) (map scope_of s ++ [scope_of (tx_entry t)])
    limit) as Hsum. rewrite app_comm_cons, last_snoc in Hsum. simpl in Hsum.
  specialize (Hsum (f_equal Some Htx)). unfold scope_of in Hb at 1. unfold net_of in *. lia.
Qed.

(** A frame cannot exhaust its caller.  A frame that ends within its budget leaves the
    caller within its own, and with at least the fiftieth part of what the caller had left
    when it made the call, whether or not the frame reverts (for a frame that recorded no
    refunds, or recorded no persistent usage). *)
Lemma callee_leaves_caller_budget {I} (info : I) (t t1 : FrameLimitTracker I) success
    (caller callee : FrameLimitEntry I) rest :
  tracker_ok t → frame_stack t = caller :: rest →
  push_frame info t = Some t1 →
  (* the callee runs: only its own usage changes *)
  entry_ok callee → fle_limit callee = match frame_stack t1 with e :: _ => fle_limit e | [] => 0 end →
  net_of callee ≤ fle_limit callee →
  fle_refund callee = 0 ∨ fle_persistent callee = 0 →
  net_of caller ≤ fle_limit caller →
  entry_total caller + entry_total callee ≤ u64_max →
  fle_refund caller + fle_refund callee ≤ u64_max →
  let left := fle_limit caller - net_of caller in
  match frame_stack (fst (pop_frame success (set_stack t1 (callee :: frame_stack t)))) with
  | caller' :: _ => left - left * 98 / 100 ≤ fle_limit caller' - net_of caller'
  | [] => False
  end.
Proof.
  intros Hok Hst Hp Hce Hcl Hcw Hlane Hw Hu Hr left.
  apply push_frame_inv in Hp as (l & Hl & ->). apply max_forward_limit_value in Hl; [|done].
  rewrite Hst in *. simpl in Hcl. subst l.
  destruct Hok as (_ & Hs & _). rewrite Hst in Hs. apply Forall_cons in Hs as [(?&?&?&?) _].
  destruct Hce as (?&?&?&?).
  unfold sat_sub in Hcl at 1. rewrite Z.max_r in Hcl by lia. fold left in Hcl.
  unfold entry_total, left in *. clear left.
  unfold net_of, sat_sub, entry_total in *.
  destruct success; simpl; rewrite !wadd_small by u64_lia; u64_lia.
Qed.

(** * Evaluation *)

(** Usage of the transaction, a frame, a callee, and then a late charge to the caller. *)
Definition sample_outer : FrameLimitTracker unit :=
  let t := add_tx_persistent 100 (tracker_new REX6 1100) in default t (push_frame tt t).

Definition sample_inner : FrameLimitTracker unit :=
  let t := add_frame_discardable 600 sample_outer in default t (push_frame tt t).

Definition sample_run : FrameLimitTracker unit :=
  add_parent_discardable 20 (add_frame_discardable 392 sample_inner).

Lemma sample_run_budget : budget_run REX6 1100 sample_run 20.
Proof.
  apply (br_step _ _ (add_frame_discardable 392 sample_inner) 0 20);
    [|exact (bs_parent_discardable _ 20 ltac:(done))].
  apply (br_step _ _ sample_inner 0 0); [|apply (bs_discardable _ 392)].
  apply (br_step _ _ (add_frame_discardable 600 sample_outer) 0 0);
    [|exact (bs_push (add_frame_discardable 600 sample_outer) tt sample_inner eq_refl)].
  apply (br_step _ _ sample_outer 0 0); [|apply (bs_discardable _ 600)].
  apply (br_step _ _ (add_tx_persistent 100 (tracker_new REX6 1100)) 0 0);
    [|exact (bs_push (add_tx_persistent 100 (tracker_new REX6 1100)) tt sample_outer eq_refl)].
  apply (br_step _ _ (tracker_new REX6 1100) 0 0); [apply br_new|].
  exact (bs_tx_persistent _ 100 ltac:(done)).
Defined.

(** The bound is that of the limit and the late charge, and here the charge takes the transaction
    over its limit. *)
Lemma frame_budgets_bound_transaction_witness :
  net_usage sample_run ≤ 1100 + 20 ∧ net_usage sample_run = 1112.
Proof.
  split; [|vm_compute; reflexivity].
  apply (frame_budgets_bound_transaction REX6 1100 sample_run 20 DataSize);
    first [exact sample_run_budget | vm_compute; intuition discriminate | vm_compute; reflexivity].
Defined.

Definition caller_entry : FrameLimitEntry unit := mkEntry 1000 0 600 0 tt.
Definition callee_entry : FrameLimitEntry unit := mkEntry 392 0 392 0 tt.
Definition caller_tracker : FrameLimitTracker unit :=
  set_stack (tracker_new REX4 1100) [caller_entry].

Lemma callee_leaves_caller_budget_witness :
  match frame_stack (fst (pop_frame true
          (set_stack (push_frame_with_limit 392 tt caller_tracker) [callee_entry; caller_entry]))) with
  | caller' :: _ => 400 - 400 * 98 / 100 ≤ fle_limit caller' - net_of caller'
  | [] => False
  end.
Proof.
  apply (callee_leaves_caller_budget tt caller_tracker (push_frame_with_limit 392 tt caller_tracker)
           true caller_entry callee_entry []).
  - assert (entry_ok caller_entry) by (split_and!; simpl; u64_lia).
    assert (entry_ok (tx_entry caller_tracker)) by (split_and!; simpl; u64_lia).
    split_and!; [done|apply Forall_cons; split; [done|constructor]|simpl; u64_lia..].
  - reflexivity.
  - reflexivity.
  - split_and!; simpl; u64_lia.
  - reflexivity.
  - vm_compute. discriminate.
  - by left.
  - vm_compute. discriminate.
  - vm_compute. discriminate.
  - vm_compute. discriminate.
Defined.
