(* ===== verification/ComputeGas.v ===== *)
(** The compute-gas dimension: [limit/compute_gas.rs].

    Compute gas is persistent (executed work cannot be undone), is budgeted per frame from
    Rex4 on, and is capped for the whole transaction by gas detention. *)

From S2P Require Import Prelude Spec Revm LimitCheck FrameLimit FrameLimitFacts Interfaces.

Record ComputeGasTracker : Type := mkComputeGas {
  cg_rex1_enabled : bool;
  cg_rex4_enabled : bool;
  cg_detained_limit : Z;
  cg_frame_tracker : FrameLimitTracker unit;
}.

Section compute_gas.
Implicit Types t : ComputeGasTracker.

Definition new (spec : MegaSpecId) (tx_limit : Z) : ComputeGasTracker := {|
  cg_detained_limit := tx_limit;
  cg_frame_tracker := tracker_new spec tx_limit;
  cg_rex1_enabled := is_enabled spec REX1;
  cg_rex4_enabled := is_enabled spec REX4;
|}.

(** Field updates. *)
Definition with_frame_tracker t f : ComputeGasTracker :=
  mkComputeGas (cg_rex1_enabled t) (cg_rex4_enabled t) (cg_detained_limit t) f.
Definition with_detained_limit t l : ComputeGasTracker :=
  mkComputeGas (cg_rex1_enabled t) (cg_rex4_enabled t) l (cg_frame_tracker t).

Definition tx_limit t : Z :=
  Z.min (FrameLimit.tx_limit (cg_frame_tracker t)) (cg_detained_limit t).

Definition tx_usage t : Z := net_usage (cg_frame_tracker t).

Definition reset t : ComputeGasTracker :=
  let t := with_frame_tracker t (FrameLimit.reset (cg_frame_tracker t)) in
  if cg_rex1_enabled t
  then with_detained_limit t (FrameLimit.tx_limit (cg_frame_tracker t))
  else t.

Definition push_frame t : panics ComputeGasTracker :=
  if cg_rex4_enabled t then
    f ← FrameLimit.push_frame tt (cg_frame_tracker t); Some (with_frame_tracker t f)
  else Some (with_frame_tracker t (push_frame_with_limit u64_max tt (cg_frame_tracker t))).

Definition set_detained_limit (cap : Z) t : ComputeGasTracker :=
  let new_limit := if cg_rex4_enabled t then sat_add (tx_usage t) cap else cap in
  with_detained_limit t (Z.min (cg_detained_limit t) new_limit).

Definition current_call_remaining t : panics Z :=
  let tx_remaining := sat_sub (tx_limit t) (tx_usage t) in
  if cg_rex4_enabled t then
    r ← current_frame_remaining (cg_frame_tracker t); Some (Z.min r tx_remaining)
  else Some tx_remaining.

Definition detained_limit t : Z := cg_detained_limit t.

Definition is_detained_exceed t : bool :=
  (cg_detained_limit t <? tx_usage t) &&
  (cg_detained_limit t <? FrameLimit.tx_limit (cg_frame_tracker t)).

Definition cap_current_frame_limit (cap : Z) t : ComputeGasTracker :=
  with_frame_tracker t
    (frame_mut (λ e, set_limit e (Z.min (fle_limit e) cap)) (cg_frame_tracker t)).

Definition record_gas_used (gas : Z) t : ComputeGasTracker :=
  let '(f, recorded) := add_frame_persistent gas (cg_frame_tracker t) in
  with_frame_tracker t (if recorded then f else add_tx_persistent gas f).

Definition merge_persistent_usage (amount : Z) t : ComputeGasTracker :=
  with_frame_tracker t (add_tx_persistent amount (cg_frame_tracker t)).

(** The TX-level detained check, all specs. *)
Definition check_tx_limit t : LimitCheck :=
  if tx_limit t <? tx_usage t then ExceedsLimit ComputeGas (tx_limit t) (tx_usage t) false
  else WithinLimit.

Definition check_limit t : panics LimitCheck :=
  if cg_rex4_enabled t then
    frame_check ← exceeds_current_frame_limit ComputeGas (cg_frame_tracker t);
    Some (if exceeded_limit frame_check then frame_check else check_tx_limit t)
  else Some (check_tx_limit t).
End compute_gas.

Section hooks.
Context `{R : Revm} `{RS : RevmState}.
Implicit Types t : ComputeGasTracker.

Definition before_frame_init {J} `{HJ : !JournalInspectTr J} (_ : FrameInit) (j : J) t
    : panics (ComputeGasTracker * J * result unit DBError) :=
  t ← push_frame t; Some (t, j, Ok ()).

Definition before_frame_return_result (last_frame : bool) (result : FrameResult) t
    : panics ComputeGasTracker :=
  _ ← assert_ (last_frame || FrameLimit.has_active_frame (cg_frame_tracker t));
  Some (with_frame_tracker t
          (fst (pop_frame (is_ok (fr_instruction_result result)) (cg_frame_tracker t)))).

#[export] Instance compute_gas_runtime_limit : TxRuntimeLimit ComputeGasTracker := {|
  Interfaces.tx_limit := tx_limit;
  Interfaces.tx_usage := tx_usage;
  Interfaces.reset := reset;
  Interfaces.check_limit := check_limit;
  Interfaces.before_tx_start _ t := t;
  Interfaces.push_empty_frame := push_frame;
  Interfaces.before_frame_init J HJ := before_frame_init;
  Interfaces.after_frame_init_on_frame _ t := Some t;
  Interfaces.before_frame_run _ t := t;
  Interfaces.after_frame_run _ _ t := t;
  Interfaces.before_frame_return_result := before_frame_return_result;
  Interfaces.after_sstore _ t := t;
  Interfaces.after_log _ _ t := t;
  Interfaces.after_selfdestruct _ t := t;
|}.
End hooks.

(** * Invariant *)

Section laws.
Context `{R : Revm} `{RS : RevmState}.
Implicit Types t : ComputeGasTracker.

Definition compute_wf t : Prop :=
  tracker_inv (cg_frame_tracker t) ∧
  0 ≤ cg_detained_limit t ≤ FrameLimit.tx_limit (cg_frame_tracker t).

Lemma compute_wf_step f t :
  step (cg_frame_tracker t) f → compute_wf t → compute_wf (with_frame_tracker t f).
Proof.
  intros Hs [Hi Hd]. split; simpl; [by eapply step_inv|]. by rewrite (tx_limit_step _ _ Hs).
Qed.

Lemma compute_push_frame_law t t' :
  compute_wf t → push_frame t = Some t' →
  stack_depth (cg_frame_tracker t') = S (stack_depth (cg_frame_tracker t)) ∧ compute_wf t'.
Proof.
  intros Hwf. unfold push_frame. destruct (cg_rex4_enabled t).
  - destruct (FrameLimit.push_frame tt _) as [f|] eqn:E; [|done]. intros [= <-]. split.
    + apply push_frame_inv in E as (l & _ & ->). done.
    + apply compute_wf_step; [by econstructor|done].
  - intros [= <-]. split; [done|]. apply compute_wf_step; [|done].
    apply step_push_limit, in_u64_max.
Qed.

Lemma tx_usage_range t : compute_wf t → in_u64 (tx_usage t).
Proof.
  intros [[(_&_&?&?) _] _]. unfold tx_usage, net_usage. u64_lia.
Qed.

Lemma record_gas_used_wf gas t : compute_wf t → compute_wf (record_gas_used gas t).
Proof.
  intros Hwf. unfold record_gas_used.
  pose proof (step_persistent (cg_frame_tracker t) gas) as Hs.
  unfold add_frame_persistent in *. destruct (frame_stack _); simpl in *;
    apply compute_wf_step; auto. apply step_tx_persistent.
Qed.

Lemma cap_current_frame_limit_wf cap t :
  0 ≤ cap → compute_wf t → compute_wf (cap_current_frame_limit cap t).
Proof.
  intros Hc. apply compute_wf_step, step_frame_mut. intros e. simpl. split_and!; auto.
  u64_lia.
Qed.

Lemma set_detained_limit_wf cap t :
  0 ≤ cap → compute_wf t → compute_wf (set_detained_limit cap t).
Proof.
  intros Hc Hwf. pose proof (tx_usage_range t Hwf). destruct Hwf as [Hi ?].
  split; [done|]. simpl. case_bools; u64_lia.
Qed.

#[export] Program Instance compute_gas_laws : TxRuntimeLimitLaws ComputeGasTracker := {|
  frame_depth t := stack_depth (cg_frame_tracker t);
  tracker_wf := compute_wf;
|}.
Next Obligation.
  intros t [Hi Hd]. simpl. unfold reset.
  assert (tracker_inv (FrameLimit.reset (cg_frame_tracker t)))
    by (eapply step_inv; [apply step_reset|done]).
  assert (0 ≤ FrameLimit.tx_limit (cg_frame_tracker t)) by lia.
  simpl. destruct (cg_rex1_enabled t); simpl; (split; [done|]); split; simpl; auto; try lia.
  change (FrameLimit.tx_limit (FrameLimit.reset (cg_frame_tracker t))) with
    (FrameLimit.tx_limit (cg_frame_tracker t)). lia.
Qed.
Next Obligation. done. Qed.
Next Obligation. intros t t' Hwf H. by apply compute_push_frame_law. Qed.
Next Obligation.
  intros J HJ fi j t t' j' r Hwf. simpl. unfold before_frame_init.
  destruct (push_frame t) as [t1|] eqn:E; [|done]. intros [= <- <- <-]. by apply compute_push_frame_law.
Qed.
Next Obligation. intros f t t' Hwf [= <-]. done. Qed.
Next Obligation. done. Qed.
Next Obligation. done. Qed.
Next Obligation.
  intros last r t Hwf. apply (pop_assert_law (cg_frame_tracker t)).
  split; [apply depth_pop|]. apply compute_wf_step; [apply step_pop|done].
Qed.
Next Obligation. done. Qed.
Next Obligation. done. Qed.
Next Obligation. done. Qed.
End laws.
