(* ===== verification/DataSize.v ===== *)
(** The data-size dimension: [limit/data_size.rs]. *)

From S2P Require Import Prelude Spec Revm LimitCheck FrameLimit FrameLimitFacts Interfaces.

Definition BASE_TX_SIZE : Z := 110.
Definition AUTHORIZATION_SIZE : Z := 101.
Definition LOG_TOPIC_SIZE : Z := 32.
Definition SALT_KEY_SIZE : Z := 8.
Definition SALT_VALUE_DELTA_ACCOUNT_INFO_SIZE : Z := 32.
Definition SALT_VALUE_DELTA_STORAGE_SLOT_SIZE : Z := 32.
Definition ACCOUNT_INFO_WRITE_SIZE : Z := SALT_KEY_SIZE + SALT_VALUE_DELTA_ACCOUNT_INFO_SIZE.
Definition STORAGE_SLOT_WRITE_SIZE : Z := SALT_KEY_SIZE + SALT_VALUE_DELTA_STORAGE_SLOT_SIZE.
Definition LOG_BASE_SIZE : Z := 32.

Record DataSizeTracker : Type := mkDataSize {
  ds_rex4_enabled : bool;
  ds_rex5_enabled : bool;
  ds_rex6_enabled : bool;
  ds_frame_tracker : CallTracker;
}.

Section data_size.
Implicit Types t : DataSizeTracker.

Definition new (spec : MegaSpecId) (tx_limit : Z) : DataSizeTracker := {|
  ds_rex4_enabled := is_enabled spec REX4;
  ds_rex5_enabled := is_enabled spec REX5;
  ds_rex6_enabled := is_enabled spec REX6;
  ds_frame_tracker := tracker_new spec tx_limit;
|}.

Definition with_frame_tracker t f : DataSizeTracker :=
  mkDataSize (ds_rex4_enabled t) (ds_rex5_enabled t) (ds_rex6_enabled t) f.

Definition has_active_frame t : bool := FrameLimit.has_active_frame (ds_frame_tracker t).

Definition record_discardable (size : Z) t : DataSizeTracker :=
  with_frame_tracker t (add_frame_discardable size (ds_frame_tracker t)).
Definition record_parent_discardable (size : Z) t : DataSizeTracker :=
  with_frame_tracker t (add_parent_discardable size (ds_frame_tracker t)).
Definition record_refund (size : Z) t : DataSizeTracker :=
  with_frame_tracker t (add_frame_refund size (ds_frame_tracker t)).
Definition record_oracle_hint_bytes (len : Z) t : DataSizeTracker :=
  with_frame_tracker t (add_tx_persistent len (ds_frame_tracker t)).
Definition record_account_write t : DataSizeTracker :=
  record_discardable ACCOUNT_INFO_WRITE_SIZE t.
Definition record_persistent_account_write t : DataSizeTracker :=
  with_frame_tracker t (add_tx_persistent ACCOUNT_INFO_WRITE_SIZE (ds_frame_tracker t)).
Definition merge_persistent_usage (amount : Z) t : DataSizeTracker :=
  with_frame_tracker t (add_tx_persistent amount (ds_frame_tracker t)).

Definition tx_limit t : Z := FrameLimit.tx_limit (ds_frame_tracker t).

Definition tx_usage t : Z := net_usage (ds_frame_tracker t).

Definition reset t : DataSizeTracker := with_frame_tracker t (FrameLimit.reset (ds_frame_tracker t)).

Definition current_call_remaining t : panics Z :=
  let tx_remaining :=
    sat_sub (FrameLimit.tx_limit (ds_frame_tracker t)) (net_usage (ds_frame_tracker t)) in
  if ds_rex4_enabled t then
    r ← current_frame_remaining (ds_frame_tracker t); Some (Z.min r tx_remaining)
  else Some tx_remaining.

(** The TX-level check. *)
Definition check_tx_limit t : LimitCheck :=
  if FrameLimit.tx_limit (ds_frame_tracker t) <? tx_usage t then
    ExceedsLimit DataSize (FrameLimit.tx_limit (ds_frame_tracker t)) (tx_usage t) false
  else WithinLimit.

(** The debug assertion on the TX-level branch is not part of a release build. *)
Definition check_limit t : panics LimitCheck :=
  if ds_rex4_enabled t then
    frame_check ← exceeds_current_frame_limit DataSize (ds_frame_tracker t);
    Some (if exceeded_limit frame_check then frame_check else check_tx_limit t)
  else Some (check_tx_limit t).

(** One account update for each authorization with a recoverable authority. *)
Definition record_authorities (l : list (option Address)) t : DataSizeTracker :=
  foldl (λ t authority,
           match authority with
           | Some _ =>
               with_frame_tracker t (add_tx_persistent ACCOUNT_INFO_WRITE_SIZE (ds_frame_tracker t))
           | None => t
           end) t l.

Definition intrinsic_size (tx : MegaTransaction) : Z :=
  let size := BASE_TX_SIZE in
  let size := size +w tx_input_len tx in
  let size := size +w default 0 (foldl wadd 0 <$> tx_access_list tx) in
  size +w wmul (Z.of_nat (length (tx_authorities tx))) AUTHORIZATION_SIZE.

Definition before_tx_start (tx : MegaTransaction) t : DataSizeTracker :=
  let t := with_frame_tracker t (add_tx_persistent (intrinsic_size tx) (ds_frame_tracker t)) in
  let t := if negb (ds_rex6_enabled t) then record_authorities (tx_authorities tx) t else t in
  with_frame_tracker t (add_tx_persistent ACCOUNT_INFO_WRITE_SIZE (ds_frame_tracker t)).

Definition push_empty_frame t : panics DataSizeTracker :=
  f ← push_dummy_frame (ds_frame_tracker t); Some (with_frame_tracker t f).

Definition after_log (num_topics data_size : Z) t : DataSizeTracker :=
  let base := if ds_rex6_enabled t then LOG_BASE_SIZE else 0 in
  let size := base +w wmul num_topics LOG_TOPIC_SIZE +w data_size in
  record_discardable size t.
End data_size.

Section hooks.
Context `{R : Revm} `{RS : RevmState}.
Implicit Types t : DataSizeTracker.

Definition before_frame_init {J} `{HJ : !JournalInspectTr J} (frame_init : FrameInit) (j : J) t
    : panics (DataSizeTracker * J * result unit DBError) :=
  match fi_frame_input frame_init with
  | FrameInputCall call_inputs =>
      let has_transfer := ci_transfers_value call_inputs in
      '(f, parent_needs_update) ←
        push_call_frame (ci_target_address call_inputs) has_transfer (ds_frame_tracker t);
      let t := with_frame_tracker t f in
      if has_transfer then
        let t := if parent_needs_update : bool then record_discardable ACCOUNT_INFO_WRITE_SIZE t else t in
        let t :=
          if negb (ds_rex6_enabled t && (ci_target_address call_inputs =? ci_caller call_inputs))
          then record_discardable ACCOUNT_INFO_WRITE_SIZE t else t in
        Some (t, j, Ok ())
      else Some (t, j, Ok ())
  | FrameInputCreate _ =>
      '(f, parent_needs_update) ← push_create_frame (ds_frame_tracker t);
      let t := with_frame_tracker t f in
      let t :=
        if parent_needs_update : bool then
          if ds_rex6_enabled t then record_parent_discardable ACCOUNT_INFO_WRITE_SIZE t
          else record_discardable ACCOUNT_INFO_WRITE_SIZE t
        else t in
      Some (t, j, Ok ())
  | FrameInputEmpty => None (* unreachable!() *)
  end.

Definition after_frame_init_on_frame (frame : EthFrame) t : panics DataSizeTracker :=
  if ef_is_create frame then
    created_address ← ef_created_address frame; (* expect *)
    f ← set_created_address created_address (ds_frame_tracker t);
    Some (record_discardable ACCOUNT_INFO_WRITE_SIZE (with_frame_tracker t f))
  else Some t.

Definition after_frame_run (frame : EthFrame) (action : InterpreterAction) t : DataSizeTracker :=
  match action with
  | ActionReturn interpreter_result =>
      if ef_is_create frame then
        let code_size := Z.of_nat (length (ir_output interpreter_result)) in
        record_discardable code_size t
      else t
  | ActionNewFrame => t
  end.

Definition before_frame_return_result (last_frame : bool) (result : FrameResult) t
    : panics DataSizeTracker :=
  _ ← assert_ (last_frame || FrameLimit.has_active_frame (ds_frame_tracker t));
  let is_success := is_ok (fr_instruction_result result) in
  f ← pop_frame_unwind_parent is_success (ds_frame_tracker t);
  Some (with_frame_tracker t f).

Definition after_sstore (store_result : SStoreResult) t : DataSizeTracker :=
  if is_original_eq_present store_result then
    if negb (is_original_eq_new store_result) then record_discardable STORAGE_SLOT_WRITE_SIZE t else t
  else if is_original_eq_new store_result then record_refund STORAGE_SLOT_WRITE_SIZE t
  else t.

#[export] Instance data_size_runtime_limit : TxRuntimeLimit DataSizeTracker := {|
  Interfaces.tx_limit := tx_limit;
  Interfaces.tx_usage := tx_usage;
  Interfaces.reset := reset;
  Interfaces.check_limit := check_limit;
  Interfaces.before_tx_start := before_tx_start;
  Interfaces.push_empty_frame := push_empty_frame;
  Interfaces.before_frame_init J HJ := before_frame_init;
  Interfaces.after_frame_init_on_frame := after_frame_init_on_frame;
  Interfaces.before_frame_run _ t := t;
  Interfaces.after_frame_run := after_frame_run;
  Interfaces.before_frame_return_result := before_frame_return_result;
  Interfaces.after_sstore := after_sstore;
  Interfaces.after_log := after_log;
  Interfaces.after_selfdestruct := λ _ t, t;
|}.
End hooks.

(** * Invariant *)

Section laws.
Context `{R : Revm} `{RS : RevmState}.
Implicit Types t : DataSizeTracker.

Definition data_size_wf t : Prop := call_wf (ds_frame_tracker t).

Ltac wf_solve :=
  unfold data_size_wf, record_discardable, record_refund, record_parent_discardable in *; simpl in *;
  rewrite ?depth_discardable, ?depth_refund, ?depth_parent_discardable, ?depth_tx_persistent;
  eauto 8 with call_wf.

Lemma data_before_frame_init_wf {J} `{HJ : !JournalInspectTr J} fi (j : J) t t' j' r :
  data_size_wf t → before_frame_init fi j t = Some (t', j', r) →
  stack_depth (ds_frame_tracker t') = S (stack_depth (ds_frame_tracker t)) ∧ data_size_wf t'.
Proof.
  intros Hwf. unfold before_frame_init. destruct (fi_frame_input fi) as [c|c|]; [| |done].
  - destruct (push_call_frame _ _ _) as [[f b]|] eqn:E; [|done]; simpl.
    apply push_call_frame_wf in E as [<- Hf]; [|done].
    case_bools; intros [= <- <- <-]; wf_solve.
  - destruct (push_create_frame _) as [[f b]|] eqn:E; [|done]; simpl.
    apply push_create_frame_wf in E as [<- Hf]; [|done].
    case_bools; intros [= <- <- <-]; wf_solve.
Qed.

Lemma data_after_frame_init_wf f t t' :
  data_size_wf t → after_frame_init_on_frame f t = Some t' →
  stack_depth (ds_frame_tracker t') = stack_depth (ds_frame_tracker t) ∧ data_size_wf t'.
Proof.
  intros Hwf. unfold after_frame_init_on_frame. destruct (ef_is_create f); [|by intros [= <-]].
  destruct (ef_created_address f) as [a|]; [|done]. simpl.
  destruct (set_created_address a _) as [g|] eqn:E; [|done]. intros [= <-].
  apply set_created_address_wf in E as [<- ?]; [|done]. wf_solve.
Qed.

Lemma data_before_frame_return_wf last r t :
  data_size_wf t →
  match before_frame_return_result last r t with
  | Some t' =>
      (last = false → stack_depth (ds_frame_tracker t) ≠ 0%nat) ∧
      stack_depth (ds_frame_tracker t') = pred (stack_depth (ds_frame_tracker t)) ∧ data_size_wf t'
  | None => last = false ∧ stack_depth (ds_frame_tracker t) = 0%nat
  end.
Proof.
  intros Hwf. unfold before_frame_return_result.
  apply (pop_assert_law (ds_frame_tracker t)).
  destruct (pop_frame_unwind_parent_wf (is_ok (fr_instruction_result r)) _ Hwf)
    as (f & -> & Hd & Hf). done.
Qed.

Lemma data_tx_persistent_wf n t :
  data_size_wf t → data_size_wf (with_frame_tracker t (add_tx_persistent n (ds_frame_tracker t))).
Proof. apply call_wf_tx_persistent. Qed.

Lemma data_record_authorities_wf l t :
  data_size_wf t →
  stack_depth (ds_frame_tracker (record_authorities l t)) = stack_depth (ds_frame_tracker t) ∧
  data_size_wf (record_authorities l t).
Proof.
  revert t. induction l as [|[a|] l IH]; intros t Hwf; simpl; auto.
  exact (IH _ (data_tx_persistent_wf ACCOUNT_INFO_WRITE_SIZE t Hwf)).
Qed.

#[export] Program Instance data_size_laws : TxRuntimeLimitLaws DataSizeTracker := {|
  frame_depth t := stack_depth (ds_frame_tracker t);
  tracker_wf := data_size_wf;
|}.
Next Obligation. intros t Hwf. split; [done|]. wf_solve. Qed.
Next Obligation.
  intros tx t Hwf. simpl. unfold before_tx_start. simpl.
  pose proof (data_tx_persistent_wf (intrinsic_size tx) t Hwf) as Hwf1.
  destruct (data_record_authorities_wf (tx_authorities tx) _ Hwf1) as [Hd Hwf2].
  destruct (negb (ds_rex6_enabled t)); split; auto using data_tx_persistent_wf.
Qed.
Next Obligation.
  intros t t' Hwf. simpl. unfold push_empty_frame.
  destruct (push_dummy_frame _) as [f|] eqn:E; [|done]. intros [= <-]. by apply push_dummy_frame_wf.
Qed.
Next Obligation. intros J HJ fi j t t' j' r Hwf H. exact (data_before_frame_init_wf fi j t t' j' r Hwf H). Qed.
Next Obligation. intros f t t' Hwf H. exact (data_after_frame_init_wf f t t' Hwf H). Qed.
Next Obligation. done. Qed.
Next Obligation. intros f [i|] t Hwf; simpl; [|done]. case_bools; split; wf_solve. Qed.
Next Obligation. intros. by apply data_before_frame_return_wf. Qed.
Next Obligation. intros s t Hwf. simpl. unfold after_sstore. case_bools; split; wf_solve. Qed.
Next Obligation. intros n d t Hwf. simpl. unfold after_log. split; wf_solve. Qed.
Next Obligation. done. Qed.
End laws.
