(* ===== verification/KVUpdate.v ===== *)
(** The key-value-update dimension: [limit/kv_update.rs]. *)

From S2P Require Import Prelude Spec Revm LimitCheck FrameLimit FrameLimitFacts Interfaces.

Record KVUpdateTracker : Type := mkKVUpdate {
  kv_rex4_enabled : bool;
  kv_rex6_enabled : bool;
  kv_frame_tracker : CallTracker;
}.

Section kv_update.
Implicit Types t : KVUpdateTracker.

Definition new (spec : MegaSpecId) (tx_limit : Z) : KVUpdateTracker := {|
  kv_rex4_enabled := is_enabled spec REX4;
  kv_rex6_enabled := is_enabled spec REX6;
  kv_frame_tracker := tracker_new spec tx_limit;
|}.

Definition with_frame_tracker t f : KVUpdateTracker :=
  mkKVUpdate (kv_rex4_enabled t) (kv_rex6_enabled t) f.

Definition record_discardable (n : Z) t : KVUpdateTracker :=
  with_frame_tracker t (add_frame_discardable n (kv_frame_tracker t)).
Definition record_parent_discardable (n : Z) t : KVUpdateTracker :=
  with_frame_tracker t (add_parent_discardable n (kv_frame_tracker t)).
Definition record_refund (n : Z) t : KVUpdateTracker :=
  with_frame_tracker t (add_frame_refund n (kv_frame_tracker t)).
Definition record_account_update t : KVUpdateTracker := record_discardable 1 t.
Definition record_persistent_account_update t : KVUpdateTracker :=
  with_frame_tracker t (add_tx_persistent 1 (kv_frame_tracker t)).
Definition merge_persistent_usage (amount : Z) t : KVUpdateTracker :=
  with_frame_tracker t (add_tx_persistent amount (kv_frame_tracker t)).

Definition tx_limit t : Z := FrameLimit.tx_limit (kv_frame_tracker t).

Definition tx_usage t : Z := net_usage (kv_frame_tracker t).

Definition reset t : KVUpdateTracker := with_frame_tracker t (FrameLimit.reset (kv_frame_tracker t)).

Definition current_call_remaining t : panics Z :=
  let tx_remaining :=
    sat_sub (FrameLimit.tx_limit (kv_frame_tracker t)) (net_usage (kv_frame_tracker t)) in
  if kv_rex4_enabled t then
    r ← current_frame_remaining (kv_frame_tracker t); Some (Z.min r tx_remaining)
  else Some tx_remaining.

(** The TX-level check. *)
Definition check_tx_limit t : LimitCheck :=
  if FrameLimit.tx_limit (kv_frame_tracker t) <? tx_usage t then
    ExceedsLimit KVUpdate (FrameLimit.tx_limit (kv_frame_tracker t)) (tx_usage t) false
  else WithinLimit.

(** The debug assertion on the TX-level branch is not part of a release build. *)
Definition check_limit t : panics LimitCheck :=
  if kv_rex4_enabled t then
    frame_check ← exceeds_current_frame_limit KVUpdate (kv_frame_tracker t);
    Some (if exceeded_limit frame_check then frame_check else check_tx_limit t)
  else Some (check_tx_limit t).

(** One update for each authorization with a recoverable authority. *)
Definition record_authorities (l : list (option Address)) t : KVUpdateTracker :=
  foldl (λ t authority,
           match authority with
           | Some _ => with_frame_tracker t (add_tx_persistent 1 (kv_frame_tracker t))
           | None => t
           end) t l.

Definition before_tx_start (tx : MegaTransaction) t : KVUpdateTracker :=
  let t := if negb (kv_rex6_enabled t) then record_authorities (tx_authorities tx) t else t in
  with_frame_tracker t (add_tx_persistent 1 (kv_frame_tracker t)).

Definition push_empty_frame t : panics KVUpdateTracker :=
  f ← push_dummy_frame (kv_frame_tracker t); Some (with_frame_tracker t f).
End kv_update.

Section hooks.
Context `{R : Revm} `{RS : RevmState}.
Implicit Types t : KVUpdateTracker.

Definition before_frame_init {J} `{HJ : !JournalInspectTr J} (frame_init : FrameInit) (j : J) t
    : panics (KVUpdateTracker * J * result unit DBError) :=
  match fi_frame_input frame_init with
  | FrameInputCall call_inputs =>
      let has_transfer := ci_transfers_value call_inputs in
      '(f, parent_needs_update) ←
        push_call_frame (ci_target_address call_inputs) has_transfer (kv_frame_tracker t);
      let t := with_frame_tracker t f in
      if has_transfer then
        let t := if parent_needs_update : bool then record_discardable 1 t else t in
        let t :=
          if negb (kv_rex6_enabled t && (ci_target_address call_inputs =? ci_caller call_inputs))
          then record_discardable 1 t else t in
        Some (t, j, Ok ())
      else Some (t, j, Ok ())
  | FrameInputCreate _ =>
      '(f, parent_needs_update) ← push_create_frame (kv_frame_tracker t);
      let t := with_frame_tracker t f in
      let t :=
        if parent_needs_update : bool then
          if kv_rex6_enabled t then record_parent_discardable 1 t
          else record_discardable 1 t
        else t in
      Some (t, j, Ok ())
  | FrameInputEmpty => None (* unreachable!() *)
  end.

Definition after_frame_init_on_frame (frame : EthFrame) t : panics KVUpdateTracker :=
  if ef_is_create frame then
    created_address ← ef_created_address frame; (* expect *)
    f ← set_created_address created_address (kv_frame_tracker t);
    Some (record_discardable 1 (with_frame_tracker t f))
  else Some t.

Definition before_frame_return_result (last_frame : bool) (result : FrameResult) t
    : panics KVUpdateTracker :=
  _ ← assert_ (last_frame || FrameLimit.has_active_frame (kv_frame_tracker t));
  let is_success := is_ok (fr_instruction_result result) in
  f ← pop_frame_unwind_parent is_success (kv_frame_tracker t);
  Some (with_frame_tracker t f).

Definition after_sstore (store_result : SStoreResult) t : KVUpdateTracker :=
  if is_original_eq_present store_result then
    if negb (is_original_eq_new store_result) then record_discardable 1 t else t
  else if is_original_eq_new store_result then record_refund 1 t
  else t.

#[export] Instance kv_update_runtime_limit : TxRuntimeLimit KVUpdateTracker := {|
  Interfaces.tx_limit := tx_limit;
  Interfaces.tx_usage := tx_usage;
  Interfaces.reset := reset;
  Interfaces.check_limit := check_limit;
  Interfaces.before_tx_start := before_tx_start;
  Interfaces.push_empty_frame := push_empty_frame;
  Interfaces.before_frame_init J HJ := before_frame_init;
  Interfaces.after_frame_init_on_frame := after_frame_init_on_frame;
  Interfaces.before_frame_run _ t := t;
  Interfaces.after_frame_run _ _ t := t;
  Interfaces.before_frame_return_result := before_frame_return_result;
  Interfaces.after_sstore := after_sstore;
  Interfaces.after_log := λ _ _ t, t;
  Interfaces.after_selfdestruct := λ _ t, t;
|}.
End hooks.

(** * Invariant *)

Section laws.
Context `{R : Revm} `{RS : RevmState}.
Implicit Types t : KVUpdateTracker.

Definition kv_update_wf t : Prop := call_wf (kv_frame_tracker t).

Ltac wf_solve :=
  unfold kv_update_wf, record_discardable, record_refund, record_parent_discardable in *; simpl in *;
  rewrite ?depth_discardable, ?depth_refund, ?depth_parent_discardable, ?depth_tx_persistent;
  eauto 8 with call_wf.

Lemma kv_before_frame_init_wf {J} `{HJ : !JournalInspectTr J} fi (j : J) t t' j' r :
  kv_update_wf t → before_frame_init fi j t = Some (t', j', r) →
  stack_depth (kv_frame_tracker t') = S (stack_depth (kv_frame_tracker t)) ∧ kv_update_wf t'.
Proof.
  intros Hwf. unfold before_frame_init. destruct (fi_frame_input fi) as [c|c|]; [| |done].
  - destruct (push_call_frame _ _ _) as [[f b]|] eqn:E; [|done]; simpl.
    apply push_call_frame_wf in E as [<- Hf]; [|done].
    case_bools; intros [= <- <- <-]; wf_solve.
  - destruct (push_create_frame _) as [[f b]|] eqn:E; [|done]; simpl.
    apply push_create_frame_wf in E as [<- Hf]; [|done].
    case_bools; intros [= <- <- <-]; wf_solve.
Qed.

Lemma kv_after_frame_init_wf f t t' :
  kv_update_wf t → after_frame_init_on_frame f t = Some t' →
  stack_depth (kv_frame_tracker t') = stack_depth (kv_frame_tracker t) ∧ kv_update_wf t'.
Proof.
  intros Hwf. unfold after_frame_init_on_frame. destruct (ef_is_create f); [|by intros [= <-]].
  destruct (ef_created_address f) as [a|]; [|done]. simpl.
  destruct (set_created_address a _) as [g|] eqn:E; [|done]. intros [= <-].
  apply set_created_address_wf in E as [<- ?]; [|done]. wf_solve.
Qed.

Lemma kv_before_frame_return_wf last r t :
  kv_update_wf t →
  match before_frame_return_result last r t with
  | Some t' =>
      (last = false → stack_depth (kv_frame_tracker t) ≠ 0%nat) ∧
      stack_depth (kv_frame_tracker t') = pred (stack_depth (kv_frame_tracker t)) ∧ kv_update_wf t'
  | None => last = false ∧ stack_depth (kv_frame_tracker t) = 0%nat
  end.
Proof.
  intros Hwf. unfold before_frame_return_result.
  apply (pop_assert_law (kv_frame_tracker t)).
  destruct (pop_frame_unwind_parent_wf (is_ok (fr_instruction_result r)) _ Hwf)
    as (f & -> & Hd & Hf). done.
Qed.

Lemma kv_tx_persistent_wf n t :
  kv_update_wf t → kv_update_wf (with_frame_tracker t (add_tx_persistent n (kv_frame_tracker t))).
Proof. apply call_wf_tx_persistent. Qed.

Lemma kv_record_authorities_wf l t :
  kv_update_wf t →
  stack_depth (kv_frame_tracker (record_authorities l t)) = stack_depth (kv_frame_tracker t) ∧
  kv_update_wf (record_authorities l t).
Proof.
  revert t. induction l as [|[a|] l IH]; intros t Hwf; simpl; auto.
  exact (IH _ (kv_tx_persistent_wf 1 t Hwf)).
Qed.

#[export] Program Instance kv_update_laws : TxRuntimeLimitLaws KVUpdateTracker := {|
  frame_depth t := stack_depth (kv_frame_tracker t);
  tracker_wf := kv_update_wf;
|}.
Next Obligation. intros t Hwf. split; [done|]. wf_solve. Qed.
Next Obligation.
  intros tx t Hwf. simpl. unfold before_tx_start. simpl.
  destruct (kv_record_authorities_wf (tx_authorities tx) t Hwf) as [Hd Hwf2].
  destruct (negb (kv_rex6_enabled t)); split; auto using kv_tx_persistent_wf.
Qed.
Next Obligation.
  intros t t' Hwf. simpl. unfold push_empty_frame.
  destruct (push_dummy_frame _) as [f|] eqn:E; [|done]. intros [= <-]. by apply push_dummy_frame_wf.
Qed.
Next Obligation. intros J HJ fi j t t' j' r Hwf H. exact (kv_before_frame_init_wf fi j t t' j' r Hwf H). Qed.
Next Obligation. intros f t t' Hwf H. exact (kv_after_frame_init_wf f t t' Hwf H). Qed.
Next Obligation. done. Qed.
Next Obligation. done. Qed.
Next Obligation. intros. by apply kv_before_frame_return_wf. Qed.
Next Obligation. intros s t Hwf. simpl. unfold after_sstore. case_bools; split; wf_solve. Qed.
Next Obligation. done. Qed.
Next Obligation. done. Qed.
End laws.
