(* ===== verification/StateGrowth.v ===== *)
(** The state-growth dimension: [limit/state_growth.rs]. *)

From S2P Require Import Prelude Spec Revm LimitCheck FrameLimit FrameLimitFacts Interfaces.

Record StateGrowthTracker : Type := mkStateGrowth {
  sg_spec : MegaSpecId;
  sg_frame_tracker : FrameLimitTracker unit;
}.

Section state_growth.
Implicit Types t : StateGrowthTracker.

Definition new (spec : MegaSpecId) (tx_limit : Z) : StateGrowthTracker :=
  mkStateGrowth spec (tracker_new spec tx_limit).

Definition with_frame_tracker t f : StateGrowthTracker := mkStateGrowth (sg_spec t) f.

Definition push_frame t : panics StateGrowthTracker :=
  if is_enabled (sg_spec t) REX4 then
    f ← FrameLimit.push_frame tt (sg_frame_tracker t); Some (with_frame_tracker t f)
  else Some (with_frame_tracker t (push_frame_with_limit u64_max tt (sg_frame_tracker t))).

Definition record_growth (n : Z) t : StateGrowthTracker :=
  with_frame_tracker t (add_frame_discardable n (sg_frame_tracker t)).
Definition record_refund (n : Z) t : StateGrowthTracker :=
  with_frame_tracker t (add_frame_refund n (sg_frame_tracker t)).
Definition record_deposit_caller_creation t : StateGrowthTracker :=
  with_frame_tracker t (add_tx_persistent 1 (sg_frame_tracker t)).
Definition merge_persistent_usage (amount : Z) t : StateGrowthTracker :=
  with_frame_tracker t (add_tx_persistent amount (sg_frame_tracker t)).
Definition record_authority_creations (amount : Z) t : StateGrowthTracker :=
  with_frame_tracker t (add_tx_persistent amount (sg_frame_tracker t)).

Definition tx_limit t : Z := FrameLimit.tx_limit (sg_frame_tracker t).

Definition tx_usage t : Z := net_usage (sg_frame_tracker t).

Definition reset t : StateGrowthTracker := with_frame_tracker t (FrameLimit.reset (sg_frame_tracker t)).

Definition current_call_remaining t : panics Z :=
  let tx_remaining :=
    sat_sub (FrameLimit.tx_limit (sg_frame_tracker t)) (net_usage (sg_frame_tracker t)) in
  if is_enabled (sg_spec t) REX4 then
    r ← current_frame_remaining (sg_frame_tracker t); Some (Z.min r tx_remaining)
  else Some tx_remaining.

(** The TX-level check. *)
Definition check_tx_limit t : LimitCheck :=
  if FrameLimit.tx_limit (sg_frame_tracker t) <? tx_usage t then
    ExceedsLimit StateGrowth (FrameLimit.tx_limit (sg_frame_tracker t)) (tx_usage t) false
  else WithinLimit.

Definition check_limit t : panics LimitCheck :=
  if is_enabled (sg_spec t) REX4 then
    frame_check ← exceeds_current_frame_limit StateGrowth (sg_frame_tracker t);
    Some (if exceeded_limit frame_check then frame_check else check_tx_limit t)
  else Some (check_tx_limit t).

Definition is_zero (v : U256) : bool := v =? 0.

Definition after_sstore (s : SStoreResult) t : StateGrowthTracker :=
  match is_zero (original_value s), is_zero (present_value s), is_zero (new_value s) with
  | true, true, false => record_growth 1 t
  | true, false, true => record_refund 1 t
  | _, _, _ => t
  end.

Definition after_selfdestruct (refund : Z) t : StateGrowthTracker := record_refund refund t.
End state_growth.

Section hooks.
Context `{R : Revm} `{RS : RevmState}.
Implicit Types t : StateGrowthTracker.

Definition before_frame_init {J} `{HJ : !JournalInspectTr J} (frame_init : FrameInit) (j : J) t
    : panics (StateGrowthTracker * J * result unit DBError) :=
  t ← push_frame t;
  match fi_frame_input frame_init with
  | FrameInputCall call_inputs =>
      if ci_transfers_value call_inputs then
        '(j, r) ←
          (if is_enabled (sg_spec t) REX5
           then Some (inspect_account (ci_target_address call_inputs) false j)
           else inspect_account_delegated (sg_spec t) (ci_target_address call_inputs) j);
        match r with
        | Err e => Some (t, j, Err e)
        | Ok to_account =>
            let is_empty := state_clear_aware_is_empty to_account in
            Some ((if is_empty then record_growth 1 t else t), j, Ok ())
        end
      else Some (t, j, Ok ())
  | FrameInputCreate create_inputs =>
      if is_enabled (sg_spec t) REX6 then
        match inspect_account (cr_caller create_inputs) false j with
        | (j, Err e) => Some (t, j, Err e)
        | (j, Ok caller) =>
            let caller_nonce := nonce (acc_info caller) in
            let created_address := cr_created_address create_inputs caller_nonce in
            match inspect_account created_address false j with
            | (j, Err e) => Some (t, j, Err e)
            | (j, Ok to_account) =>
                Some ((if state_clear_aware_is_empty to_account then record_growth 1 t else t),
                      j, Ok ())
            end
        end
      else Some (record_growth 1 t, j, Ok ())
  | FrameInputEmpty => None (* unreachable!() *)
  end.

Definition before_frame_return_result (last_frame : bool) (result : FrameResult) t
    : panics StateGrowthTracker :=
  _ ← assert_ (last_frame || FrameLimit.has_active_frame (sg_frame_tracker t));
  Some (with_frame_tracker t
          (fst (pop_frame (is_ok (fr_instruction_result result)) (sg_frame_tracker t)))).

#[export] Instance state_growth_runtime_limit : TxRuntimeLimit StateGrowthTracker := {|
  Interfaces.tx_limit := tx_limit;
  Interfaces.tx_usage := tx_usage;
  Interfaces.reset := reset;
  Interfaces.check_limit := check_limit;
  Interfaces.before_tx_start := λ _ t, t;
  Interfaces.push_empty_frame := push_frame;
  Interfaces.before_frame_init J HJ := before_frame_init;
  Interfaces.after_frame_init_on_frame := λ _ t, Some t;
  Interfaces.before_frame_run _ t := t;
  Interfaces.after_frame_run := λ _ _ t, t;
  Interfaces.before_frame_return_result := before_frame_return_result;
  Interfaces.after_sstore := after_sstore;
  Interfaces.after_log := λ _ _ t, t;
  Interfaces.after_selfdestruct := after_selfdestruct;
|}.
End hooks.

(** * Invariant *)

Section laws.
Context `{R : Revm} `{RS : RevmState}.
Implicit Types t : StateGrowthTracker.

Definition state_growth_wf t : Prop := tracker_inv (sg_frame_tracker t).

Lemma growth_step f t :
  step (sg_frame_tracker t) f → state_growth_wf t → state_growth_wf (with_frame_tracker t f).
Proof. intros Hs Hi. by eapply step_inv. Qed.

Lemma record_growth_wf n t :
  state_growth_wf t →
  stack_depth (sg_frame_tracker (record_growth n t)) = stack_depth (sg_frame_tracker t) ∧
  state_growth_wf (record_growth n t).
Proof. intros Hwf. split; [apply depth_discardable|]. apply growth_step; [constructor|done]. Qed.

Lemma record_refund_wf n t :
  state_growth_wf t →
  stack_depth (sg_frame_tracker (record_refund n t)) = stack_depth (sg_frame_tracker t) ∧
  state_growth_wf (record_refund n t).
Proof. intros Hwf. split; [apply depth_refund|]. apply growth_step; [constructor|done]. Qed.

Lemma growth_push_frame_law t t' :
  state_growth_wf t → push_frame t = Some t' →
  stack_depth (sg_frame_tracker t') = S (stack_depth (sg_frame_tracker t)) ∧ state_growth_wf t'.
Proof.
  intros Hwf. unfold push_frame. destruct (is_enabled _ _).
  - destruct (FrameLimit.push_frame tt _) as [f|] eqn:E; [|done]. intros [= <-]. split.
    + apply push_frame_inv in E as (l & _ & ->). done.
    + apply growth_step; [by econstructor|done].
  - intros [= <-]. split; [done|]. apply growth_step; [|done]. apply step_push_limit, in_u64_max.
Qed.

Lemma growth_before_frame_init_wf {J} `{HJ : !JournalInspectTr J} fi (j : J) t t' j' r :
  state_growth_wf t → before_frame_init fi j t = Some (t', j', r) →
  stack_depth (sg_frame_tracker t') = S (stack_depth (sg_frame_tracker t)) ∧ state_growth_wf t'.
Proof.
  intros Hwf. unfold before_frame_init.
  destruct (push_frame t) as [t1|] eqn:E; [|done]. simpl.
  apply growth_push_frame_law in E as [<- Hwf1]; [|done].
  pose proof (record_growth_wf 1 t1 Hwf1) as Hg.
  assert (Hif : ∀ b : bool,
    stack_depth (sg_frame_tracker (if b then record_growth 1 t1 else t1)) =
      stack_depth (sg_frame_tracker t1) ∧ state_growth_wf (if b then record_growth 1 t1 else t1))
    by (by intros []).
  destruct (fi_frame_input fi) as [c|c|]; [| |done].
  - destruct (ci_transfers_value c); [|by intros [= <- <- <-]].
    destruct (if is_enabled _ _ then _ else _) as [[j1 [a|e]]|]; [..|done]; intros [= <- <- <-]; auto.
  - destruct (is_enabled _ _); [|intros [= <- <- <-]; auto].
    destruct (inspect_account _ _ j) as [j1 [a|e]]; [|intros [= <- <- <-]; auto].
    destruct (inspect_account _ _ j1) as [j2 [a'|e]]; intros [= <- <- <-]; auto.
Qed.

#[export] Program Instance state_growth_laws : TxRuntimeLimitLaws StateGrowthTracker := {|
  frame_depth t := stack_depth (sg_frame_tracker t);
  tracker_wf := state_growth_wf;
|}.
Next Obligation. intros t Hwf. split; [done|]. apply growth_step; [apply step_reset|done]. Qed.
Next Obligation. done. Qed.
Next Obligation. intros t t' Hwf H. by apply growth_push_frame_law. Qed.
Next Obligation. intros J HJ fi j t t' j' r Hwf H. exact (growth_before_frame_init_wf fi j t t' j' r Hwf H). Qed.
Next Obligation. intros f t t' Hwf [= <-]. done. Qed.
Next Obligation. done. Qed.
Next Obligation. done. Qed.
Next Obligation.
  intros last r t Hwf. apply (pop_assert_law (sg_frame_tracker t)).
  split; [apply depth_pop|]. apply growth_step; [apply step_pop|done].
Qed.
Next Obligation.
  intros s t Hwf. simpl. unfold after_sstore.
  case_bools; first [done | by apply record_growth_wf | by apply record_refund_wf].
Qed.
Next Obligation. done. Qed.
Next Obligation. intros n t Hwf. by apply record_refund_wf. Qed.
End laws.
