(* ===== verification/StorageCallStipend.v ===== *)
(** The storage-call stipend: [limit/storage_call_stipend.rs].

    A value-transferring internal [CALL] or [CALLCODE] is granted extra gas for storage.
    Rex4 adds the grant to the callee's gas limit and burns what is left on return; Rex5
    keeps it as an allowance beside the gas. *)

From S2P Require Import Prelude Spec Revm LimitCheck FrameLimit FrameLimitFacts Interfaces.
From S2P Require Import ComputeGas.

Record StipendFrame : Type := mkStipendFrame {
  sf_remaining : Z;
  sf_legacy_inflated : bool;
}.

Definition stipend_frame_default : StipendFrame := mkStipendFrame 0 false.

Record StorageCallStipendTracker : Type := mkStipend {
  st_stipend_amount : Z;
  st_rex5_enabled : bool;
  st_stack : list StipendFrame;
}.

Section stipend.
Implicit Types t : StorageCallStipendTracker.

Definition stipend_for_spec (spec : MegaSpecId) : Z :=
  if is_enabled spec REX4 then constants.rex4.STORAGE_CALL_STIPEND else 0.

Definition new (spec : MegaSpecId) : StorageCallStipendTracker :=
  mkStipend (stipend_for_spec spec) (is_enabled spec REX5) [].

Definition with_stack t s : StorageCallStipendTracker :=
  mkStipend (st_stipend_amount t) (st_rex5_enabled t) s.

Definition reset t : StorageCallStipendTracker := with_stack t [].

Definition push t (f : StipendFrame) : StorageCallStipendTracker :=
  with_stack t (f :: st_stack t).

Definition push_empty_frame t : StorageCallStipendTracker := push t stipend_frame_default.

Definition try_consume (amount : Z) t : StorageCallStipendTracker * Z :=
  if negb (st_rex5_enabled t) then (t, 0)
  else
    match st_stack t with
    | [] => (t, 0)
    | frame :: rest =>
        let drained := Z.min (sf_remaining frame) amount in
        (with_stack t (mkStipendFrame (sf_remaining frame -w drained)
                         (sf_legacy_inflated frame) :: rest), drained)
    end.

Definition detect_grant (frame_init : FrameInit) t : bool :=
  if st_stipend_amount t =? 0 then false
  else
    match fi_frame_input frame_init with
    | FrameInputCall call_inputs =>
        let is_internal_call := negb (fi_depth frame_init =? 0) in
        let is_value_transfer := ci_transfers_value call_inputs in
        let is_call_or_callcode :=
          match ci_scheme call_inputs with SchemeCall | SchemeCallCode => true | _ => false end in
        is_internal_call && is_value_transfer && is_call_or_callcode
    | _ => false
    end.

Definition set_gas_limit (c : CallInputs) (g : Z) : CallInputs :=
  mkCallInputs g (ci_target_address c) (ci_caller c) (ci_scheme c) (ci_transfers_value c)
    (ci_return_memory_offset c) (ci_transfer_value c) (ci_input c) (ci_value c).

(** Mutates the tracker, the frame input and the compute-gas tracker. *)
Definition before_frame_init (frame_init : FrameInit) (compute_gas : ComputeGasTracker) t
    : StorageCallStipendTracker * FrameInit * ComputeGasTracker :=
  if negb (detect_grant frame_init t) then
    (push t stipend_frame_default, frame_init, compute_gas)
  else if st_rex5_enabled t then
    (push t (mkStipendFrame (st_stipend_amount t) false), frame_init, compute_gas)
  else
    match fi_frame_input frame_init with
    | FrameInputCall call_inputs =>
        let pre_inflation_limit := ci_gas_limit call_inputs in
        let call_inputs :=
          set_gas_limit call_inputs (sat_add (ci_gas_limit call_inputs) (st_stipend_amount t)) in
        let compute_gas := cap_current_frame_limit pre_inflation_limit compute_gas in
        (push t (mkStipendFrame (st_stipend_amount t) true),
         mkFrameInit (fi_depth frame_init) (FrameInputCall call_inputs), compute_gas)
    | _ => (push t stipend_frame_default, frame_init, compute_gas)
    end.

Definition current_frame_stipend t : Z :=
  default 0 (sf_remaining <$> head (st_stack t)).
End stipend.

Section stipend_results.
Context `{R : Revm}.
Implicit Types t : StorageCallStipendTracker.

Definition before_frame_return_result (last_frame : bool) (result : FrameResult) t
    : panics (StorageCallStipendTracker * FrameResult) :=
  _ ← assert_ (last_frame || match st_stack t with [] => false | _ => true end);
  let frame := default stipend_frame_default (head (st_stack t)) in
  let t := with_stack t (tail (st_stack t)) in
  if st_rex5_enabled t then Some (t, result)
  else if sf_legacy_inflated frame then
    let gas := fr_gas result in
    let original_limit := sat_sub (gas_limit gas) (st_stipend_amount t) in
    let burn := sat_sub (gas_remaining gas) original_limit in
    if 0 <? burn then Some (t, fr_set_gas (fst (gas_record_cost gas burn)) result)
    else Some (t, result)
  else Some (t, result).

Definition effective_remaining_for_rescue (gas : Gas) t : Z :=
  if st_rex5_enabled t then gas_remaining gas
  else
    let stipend := current_frame_stipend t in
    if 0 <? stipend then
      let original_limit := sat_sub (gas_limit gas) stipend in
      Z.min (gas_remaining gas) original_limit
    else gas_remaining gas.
End stipend_results.
