(* ===== verification/AdditionalLimit.v ===== *)
(** The aggregate of the four resource dimensions and the storage stipend:
    [limit/limit.rs].

    Every method of [AdditionalLimit] is a function on its record.  [None] is a Rust panic;
    a method that returns [Result] returns the mutated state next to the error.  The debug
    assertions are not part of a release build and are left out. *)

From S2P Require Import Prelude Spec Revm LimitCheck FrameLimit Interfaces.
From S2P Require Import ComputeGas DataSize KVUpdate StateGrowth StorageCallStipend.
From S2P Require Import Interfaces LimitCheck.

Record AdditionalLimit : Type := mkLimit {
  has_exceeded_limit : LimitCheck;
  rescued_gas : Z;
  limits : EvmTxRuntimeLimits;
  state_growth : StateGrowthTracker;
  data_size : DataSizeTracker;
  kv_update : KVUpdateTracker;
  compute_gas : ComputeGasTracker;
  storage_call_stipend : StorageCallStipendTracker;
}.

Record LimitUsage : Type := mkLimitUsage {
  lu_data_size : Z;
  lu_kv_updates : Z;
  lu_compute_gas : Z;
  lu_state_growth : Z;
}.

(** * Field updates *)

Definition with_check (a : AdditionalLimit) c : AdditionalLimit :=
  mkLimit c (rescued_gas a) (limits a) (state_growth a) (data_size a) (kv_update a)
    (compute_gas a) (storage_call_stipend a).
Definition with_rescued (a : AdditionalLimit) g : AdditionalLimit :=
  mkLimit (has_exceeded_limit a) g (limits a) (state_growth a) (data_size a) (kv_update a)
    (compute_gas a) (storage_call_stipend a).
Definition with_state_growth (a : AdditionalLimit) t : AdditionalLimit :=
  mkLimit (has_exceeded_limit a) (rescued_gas a) (limits a) t (data_size a) (kv_update a)
    (compute_gas a) (storage_call_stipend a).
Definition with_data_size (a : AdditionalLimit) t : AdditionalLimit :=
  mkLimit (has_exceeded_limit a) (rescued_gas a) (limits a) (state_growth a) t (kv_update a)
    (compute_gas a) (storage_call_stipend a).
Definition with_kv_update (a : AdditionalLimit) t : AdditionalLimit :=
  mkLimit (has_exceeded_limit a) (rescued_gas a) (limits a) (state_growth a) (data_size a) t
    (compute_gas a) (storage_call_stipend a).
Definition with_compute_gas (a : AdditionalLimit) t : AdditionalLimit :=
  mkLimit (has_exceeded_limit a) (rescued_gas a) (limits a) (state_growth a) (data_size a)
    (kv_update a) t (storage_call_stipend a).
Definition with_stipend (a : AdditionalLimit) t : AdditionalLimit :=
  mkLimit (has_exceeded_limit a) (rescued_gas a) (limits a) (state_growth a) (data_size a)
    (kv_update a) (compute_gas a) t.

(** * Verdicts *)

Section limit.
Context `{R : Revm} `{RS : RevmState}.
Implicit Types a : AdditionalLimit.

Definition new (spec : MegaSpecId) (l : EvmTxRuntimeLimits) : AdditionalLimit := {|
  has_exceeded_limit := WithinLimit;
  rescued_gas := 0;
  limits := l;
  state_growth := StateGrowth.new spec (tx_state_growth_limit l);
  data_size := DataSize.new spec (tx_data_size_limit l);
  kv_update := KVUpdate.new spec (tx_kv_updates_limit l);
  compute_gas := ComputeGas.new spec (tx_compute_gas_limit l);
  storage_call_stipend := StorageCallStipend.new spec;
|}.

Definition EXCEEDING_LIMIT_INSTRUCTION_RESULT : InstructionResult := OutOfGas.

Definition exceeding_instruction_result a : InstructionResult :=
  if is_frame_local (has_exceeded_limit a) then Revert
  else EXCEEDING_LIMIT_INSTRUCTION_RESULT.

Definition reset a : AdditionalLimit :=
  mkLimit WithinLimit 0 (limits a)
    (Interfaces.reset (state_growth a)) (Interfaces.reset (data_size a))
    (Interfaces.reset (kv_update a)) (Interfaces.reset (compute_gas a))
    (StorageCallStipend.reset (storage_call_stipend a)).

Definition mark_exempt a : AdditionalLimit := with_check a Exempt.

Definition get_usage a : LimitUsage := {|
  lu_data_size := tx_usage (data_size a);
  lu_kv_updates := tx_usage (kv_update a);
  lu_compute_gas := tx_usage (compute_gas a);
  lu_state_growth := tx_usage (state_growth a);
|}.

Definition push_empty_frame a : panics AdditionalLimit :=
  t ← Interfaces.push_empty_frame (state_growth a); let a := with_state_growth a t in
  t ← Interfaces.push_empty_frame (data_size a); let a := with_data_size a t in
  t ← Interfaces.push_empty_frame (kv_update a); let a := with_kv_update a t in
  t ← Interfaces.push_empty_frame (compute_gas a); let a := with_compute_gas a t in
  Some (with_stipend a (StorageCallStipend.push_empty_frame (storage_call_stipend a))).

Definition compute_gas_limit a : Z := tx_limit (compute_gas a).
Definition current_call_remaining_compute_gas a : panics Z :=
  ComputeGas.current_call_remaining (compute_gas a).
Definition current_call_remaining_data_size a : panics Z :=
  DataSize.current_call_remaining (data_size a).
Definition current_call_remaining_kv_updates a : panics Z :=
  KVUpdate.current_call_remaining (kv_update a).
Definition current_call_remaining_state_growth a : panics Z :=
  StateGrowth.current_call_remaining (state_growth a).
Definition detained_compute_gas_limit a : Z := ComputeGas.detained_limit (compute_gas a).

Definition detained_compute_gas_halt_reason {Op} (access_type : Z) a
    : option (MegaHaltReason Op) :=
  if ComputeGas.is_detained_exceed (compute_gas a) then
    Some (VolatileDataAccessOutOfGas access_type (ComputeGas.detained_limit (compute_gas a))
            (tx_usage (compute_gas a)))
  else None.

Definition set_compute_gas_limit (new_limit : Z) a : AdditionalLimit :=
  with_compute_gas a (ComputeGas.set_detained_limit new_limit (compute_gas a)).

(** Latch and return the verdict of the first dimension that exceeds. *)
Definition check_limit a : panics (AdditionalLimit * LimitCheck) :=
  if negb (within_limit (has_exceeded_limit a)) then Some (a, has_exceeded_limit a)
  else
    data_size_check ← Interfaces.check_limit (data_size a);
    if exceeded_limit data_size_check then
      Some (with_check a data_size_check, data_size_check)
    else
      kv_update_check ← Interfaces.check_limit (kv_update a);
      if exceeded_limit kv_update_check then
        Some (with_check a kv_update_check, kv_update_check)
      else
        compute_gas_check ← Interfaces.check_limit (compute_gas a);
        if exceeded_limit compute_gas_check then
          Some (with_check a compute_gas_check, compute_gas_check)
        else
          state_growth_check ← Interfaces.check_limit (state_growth a);
          if exceeded_limit state_growth_check then
            Some (with_check a state_growth_check, state_growth_check)
          else Some (a, has_exceeded_limit a).

Definition limit_exceeded a : bool := exceeded_limit (has_exceeded_limit a).

(** [is_basic_oog] is the match on [OpHaltReason::Base(OutOfGas(Basic))]; the second check
    runs only when it holds. *)
Definition is_exceeding_limit_halt (is_basic_oog : bool) a : panics (AdditionalLimit * bool) :=
  if is_basic_oog then
    '(a, c) ← check_limit a; Some (a, exceeded_limit c)
  else Some (a, false).

Definition record_compute_gas (compute_gas_used : Z) a : panics (AdditionalLimit * bool) :=
  let a := with_compute_gas a (ComputeGas.record_gas_used compute_gas_used (compute_gas a)) in
  if negb (within_limit (has_exceeded_limit a)) then
    Some (a, negb (exceeded_limit (has_exceeded_limit a)))
  else
    check ← Interfaces.check_limit (compute_gas a);
    if exceeded_limit check then Some (with_check a check, false) else Some (a, true).

Definition record_compute_gas_all_dims (compute_gas_used : Z) a
    : panics (AdditionalLimit * bool) :=
  let a := with_compute_gas a (ComputeGas.record_gas_used compute_gas_used (compute_gas a)) in
  '(a, c) ← check_limit a; Some (a, negb (exceeded_limit c)).

Definition rescue_gas (gas : Gas) a : AdditionalLimit :=
  with_rescued a
    (rescued_gas a +w effective_remaining_for_rescue gas (storage_call_stipend a)).

Definition try_consume_storage_stipend (amount : Z) a : AdditionalLimit * Z :=
  let '(t, drained) := StorageCallStipend.try_consume amount (storage_call_stipend a) in
  (with_stipend a t, drained).

Definition try_rescue_gas (gas : Gas) a : panics AdditionalLimit :=
  '(a, limit_check) ← check_limit a;
  Some (if exceeded_limit limit_check && negb (is_frame_local limit_check)
        then rescue_gas gas a else a).

Definition before_tx_start (tx : MegaTransaction) a : panics AdditionalLimit :=
  let a := with_state_growth a (Interfaces.before_tx_start tx (state_growth a)) in
  let a := with_data_size a (Interfaces.before_tx_start tx (data_size a)) in
  let a := with_kv_update a (Interfaces.before_tx_start tx (kv_update a)) in
  '(a, _) ← check_limit a; Some a.

Definition intrinsic_check_for_tx (spec : MegaSpecId) (tx : MegaTransaction)
    (l : EvmTxRuntimeLimits) : panics LimitCheck :=
  trial ← before_tx_start tx (new spec l);
  '(trial, _) ← record_compute_gas (calculate_initial_tx_gas_for_tx tx) trial;
  '(_, c) ← check_limit trial; Some c.

Definition on_rex5_eip7702_authority_creations (amount : Z) a : panics AdditionalLimit :=
  let a :=
    with_state_growth a (StateGrowth.record_authority_creations amount (state_growth a)) in
  '(a, _) ← check_limit a; Some a.

Definition on_rex6_eip7702_authority_applied (creates_authority : bool) a
    : panics AdditionalLimit :=
  let a := with_data_size a (DataSize.record_persistent_account_write (data_size a)) in
  let a := with_kv_update a (KVUpdate.record_persistent_account_update (kv_update a)) in
  let a :=
    if creates_authority then
      with_state_growth a (StateGrowth.record_authority_creations 1 (state_growth a))
    else a in
  '(a, _) ← check_limit a; Some a.
End limit.

(** * Results that report an exceeded limit *)

Section exceeding_results.
Context `{R : Revm}.

Definition create_exceeding_interpreter_result (instruction_result : InstructionResult)
    (gas : Gas) (output : Bytes) : InterpreterResult :=
  mkInterpreterResult instruction_result output gas.

Definition create_exceeding_limit_frame_result (instruction_result : InstructionResult)
    (gas : Gas) (return_memory_offset : option (Z * Z)) (output : Bytes) : FrameResult :=
  match return_memory_offset with
  | None =>
      FrameResultCreate (create_exceeding_interpreter_result instruction_result gas output) None
  | Some offset =>
      FrameResultCall (create_exceeding_interpreter_result instruction_result gas output) offset
  end.

Definition mark_interpreter_result_as_exceeding_limit (instruction_result : InstructionResult)
    (output : Bytes) (result : InterpreterResult) : InterpreterResult :=
  mkInterpreterResult instruction_result output (ir_gas result).

Definition mark_frame_result_as_exceeding_limit (instruction_result : InstructionResult)
    (output : Bytes) (result : FrameResult) : FrameResult :=
  match result with
  | FrameResultCall call_outcome offset =>
      FrameResultCall
        (mark_interpreter_result_as_exceeding_limit instruction_result output call_outcome) offset
  | FrameResultCreate create_outcome address =>
      FrameResultCreate
        (mark_interpreter_result_as_exceeding_limit instruction_result output create_outcome)
        address
  end.
End exceeding_results.

(** * Frame life cycle *)

Section frames.
Context `{R : Revm} `{RS : RevmState}.
Implicit Types a : AdditionalLimit.

Definition create_exceeded_limit_result (frame_input : FrameInput) a
    : panics (AdditionalLimit * option FrameResult) :=
  '(gas_limit, return_memory_offset) ←
    match frame_input with
    | FrameInputCall inputs => Some (ci_gas_limit inputs, Some (ci_return_memory_offset inputs))
    | FrameInputCreate inputs => Some (cr_gas_limit inputs, None)
    | FrameInputEmpty => None (* unreachable!() *)
    end;
  let output := revert_data (has_exceeded_limit a) in
  let result :=
    create_exceeding_limit_frame_result (exceeding_instruction_result a) (gas_new gas_limit)
      return_memory_offset output in
  a ← try_rescue_gas (fr_gas result) a;
  Some (a, Some result).

Definition frame_result_if_exceeding_limit (frame_input : FrameInput) a
    : panics (AdditionalLimit * option FrameResult) :=
  if negb (limit_exceeded a) then Some (a, None)
  else create_exceeded_limit_result frame_input a.

(** Mutates the limit, the frame input and the journal. *)
Definition before_frame_init {J} `{HJ : !JournalInspectTr J} (frame_init : FrameInit) (j : J) a
    : panics (AdditionalLimit * FrameInit * J * result (option FrameResult) DBError) :=
  '(t, j, r) ← Interfaces.before_frame_init frame_init j (state_growth a);
  let a := with_state_growth a t in
  match r with
  | Err e => Some (a, frame_init, j, Err e)
  | Ok _ =>
  '(t, j, r) ← Interfaces.before_frame_init frame_init j (data_size a);
  let a := with_data_size a t in
  match r with
  | Err e => Some (a, frame_init, j, Err e)
  | Ok _ =>
  '(t, j, r) ← Interfaces.before_frame_init frame_init j (kv_update a);
  let a := with_kv_update a t in
  match r with
  | Err e => Some (a, frame_init, j, Err e)
  | Ok _ =>
  '(t, j, r) ← Interfaces.before_frame_init frame_init j (compute_gas a);
  let a := with_compute_gas a t in
  match r with
  | Err e => Some (a, frame_init, j, Err e)
  | Ok _ =>
  let '(st, frame_init, cg) :=
    StorageCallStipend.before_frame_init frame_init (compute_gas a) (storage_call_stipend a) in
  let a := with_stipend (with_compute_gas a cg) st in
  '(a, c) ← check_limit a;
  if exceeded_limit c then
    '(a, res) ← create_exceeded_limit_result (fi_frame_input frame_init) a;
    Some (a, frame_init, j, Ok res)
  else Some (a, frame_init, j, Ok None)
  end end end end.

Definition after_frame_init (init_result : ItemOrResult) a : panics AdditionalLimit :=
  match init_result with
  | Item frame =>
      t ← after_frame_init_on_frame frame (state_growth a); let a := with_state_growth a t in
      t ← after_frame_init_on_frame frame (data_size a); let a := with_data_size a t in
      t ← after_frame_init_on_frame frame (kv_update a); let a := with_kv_update a t in
      t ← after_frame_init_on_frame frame (compute_gas a); Some (with_compute_gas a t)
  | Result result => try_rescue_gas (fr_gas result) a
  end.

Definition before_frame_run (frame : EthFrame) a
    : panics (AdditionalLimit * option InterpreterResult) :=
  let a := with_state_growth a (Interfaces.before_frame_run frame (state_growth a)) in
  let a := with_data_size a (Interfaces.before_frame_run frame (data_size a)) in
  let a := with_kv_update a (Interfaces.before_frame_run frame (kv_update a)) in
  let a := with_compute_gas a (Interfaces.before_frame_run frame (compute_gas a)) in
  '(a, c) ← check_limit a;
  if exceeded_limit c then
    let output := revert_data (has_exceeded_limit a) in
    Some (a, Some (create_exceeding_interpreter_result (exceeding_instruction_result a)
                     (ef_gas frame) output))
  else Some (a, None).

Definition after_frame_run (result : FrameResult)
    (gas_remaining_before_process_action : option Z) a
    : panics (AdditionalLimit * FrameResult) :=
  '(a, result) ←
    match gas_remaining_before_process_action with
    | Some gas_remaining_before =>
        let compute_gas_cost := sat_sub gas_remaining_before (gas_remaining (fr_gas result)) in
        '(a, ok) ← record_compute_gas compute_gas_cost a;
        if negb ok then
          Some (a, mark_frame_result_as_exceeding_limit (exceeding_instruction_result a) [] result)
        else Some (a, result)
    | None => Some (a, result)
    end;
  a ← try_rescue_gas (fr_gas result) a;
  Some (a, result).

Definition after_frame_run_instructions (frame : EthFrame) (action : InterpreterAction) a
    : panics (AdditionalLimit * InterpreterAction) :=
  let a := with_state_growth a (Interfaces.after_frame_run frame action (state_growth a)) in
  let a := with_data_size a (Interfaces.after_frame_run frame action (data_size a)) in
  let a := with_kv_update a (Interfaces.after_frame_run frame action (kv_update a)) in
  let a := with_compute_gas a (Interfaces.after_frame_run frame action (compute_gas a)) in
  match action with
  | ActionReturn interpreter_result =>
      if ef_is_create frame then
        if limit_exceeded a then
          let output := revert_data (has_exceeded_limit a) in
          Some (a, ActionReturn (mark_interpreter_result_as_exceeding_limit
                                   (exceeding_instruction_result a) output interpreter_result))
        else
          '(a, c) ← check_limit a;
          if exceeded_limit c then
            let output := revert_data (has_exceeded_limit a) in
            Some (a, ActionReturn (mark_interpreter_result_as_exceeding_limit
                                     (exceeding_instruction_result a) output interpreter_result))
          else Some (a, action)
      else Some (a, action)
  | ActionNewFrame => Some (a, action)
  end.

Definition before_frame_return_result (last_frame : bool) (result : FrameResult) a
    : panics (AdditionalLimit * FrameResult) :=
  let duplicate_return_frame_result :=
    last_frame && negb (DataSize.has_active_frame (data_size a)) in
  t ← Interfaces.before_frame_return_result last_frame result (state_growth a);
  let a := with_state_growth a t in
  t ← Interfaces.before_frame_return_result last_frame result (data_size a);
  let a := with_data_size a t in
  t ← Interfaces.before_frame_return_result last_frame result (kv_update a);
  let a := with_kv_update a t in
  t ← Interfaces.before_frame_return_result last_frame result (compute_gas a);
  let a := with_compute_gas a t in
  '(st, result) ←
    StorageCallStipend.before_frame_return_result last_frame result (storage_call_stipend a);
  let a := with_stipend a st in
  '(a, limit_check) ← check_limit a;
  if exceeded_limit limit_check && negb duplicate_return_frame_result then
    if is_frame_local limit_check then
      let output := revert_data limit_check in
      let a := with_check a WithinLimit in
      Some (a, fr_map (λ i, mkInterpreterResult Revert output (ir_gas i)) result)
    else
      Some (a, mark_frame_result_as_exceeding_limit EXCEEDING_LIMIT_INSTRUCTION_RESULT [] result)
  else Some (a, result).

(** * Recording hooks *)

Definition merge_usage (usage : LimitUsage) a : AdditionalLimit :=
  let a := with_compute_gas a
    (ComputeGas.merge_persistent_usage (lu_compute_gas usage) (compute_gas a)) in
  let a := with_data_size a
    (DataSize.merge_persistent_usage (lu_data_size usage) (data_size a)) in
  let a := with_kv_update a
    (KVUpdate.merge_persistent_usage (lu_kv_updates usage) (kv_update a)) in
  with_state_growth a
    (StateGrowth.merge_persistent_usage (lu_state_growth usage) (state_growth a)).

Definition on_sstore (store_result : SStoreResult) a : panics (AdditionalLimit * bool) :=
  let a := with_state_growth a (Interfaces.after_sstore store_result (state_growth a)) in
  let a := with_data_size a (Interfaces.after_sstore store_result (data_size a)) in
  let a := with_kv_update a (Interfaces.after_sstore store_result (kv_update a)) in
  '(a, c) ← check_limit a; Some (a, negb (exceeded_limit c)).

Definition record_deposit_caller_creation a : panics AdditionalLimit :=
  let a := with_state_growth a
    (StateGrowth.record_deposit_caller_creation (state_growth a)) in
  '(a, _) ← check_limit a; Some a.

Definition record_oracle_hint_bytes (len : Z) a : panics (AdditionalLimit * bool) :=
  let a := with_data_size a (DataSize.record_oracle_hint_bytes len (data_size a)) in
  '(a, c) ← check_limit a; Some (a, negb (exceeded_limit c)).

Definition on_log (num_topics size : Z) a : panics (AdditionalLimit * bool) :=
  let a := with_state_growth a (Interfaces.after_log num_topics size (state_growth a)) in
  let a := with_data_size a (Interfaces.after_log num_topics size (data_size a)) in
  '(a, c) ← check_limit a; Some (a, negb (exceeded_limit c)).

Definition on_selfdestruct (refund : Z) a : AdditionalLimit :=
  with_state_growth a (Interfaces.after_selfdestruct refund (state_growth a)).

Definition on_selfdestruct_new_account a : AdditionalLimit :=
  let a := with_data_size a (DataSize.record_account_write (data_size a)) in
  let a := with_kv_update a (KVUpdate.record_account_update (kv_update a)) in
  with_state_growth a (StateGrowth.record_growth 1 (state_growth a)).

Definition on_selfdestruct_existing_account a : AdditionalLimit :=
  let a := with_data_size a (DataSize.record_account_write (data_size a)) in
  with_kv_update a (KVUpdate.record_account_update (kv_update a)).
End frames.
