(* ===== verification/AdditionalLimitFacts.v ===== *)
(** Properties of the aggregate limit: the hooks as steps, the verdict and its latching, exempt
    transactions, and the fast path of [record_compute_gas]. *)

From S2P Require Import Prelude Spec Revm LimitCheck FrameLimit FrameLimitFacts Interfaces.
From S2P Require Import ComputeGas DataSize KVUpdate StateGrowth StorageCallStipend.
From S2P Require Import Interfaces LimitCheck AdditionalLimit.

(** * The verdict *)

Section verdict.
Context `{R : Revm} `{RS : RevmState}.
Implicit Types a : AdditionalLimit.

(** The verdicts of the four dimensions, in the documented order of priority. *)
Definition dimension_verdicts a : list (panics LimitCheck) :=
  [Interfaces.check_limit (data_size a); Interfaces.check_limit (kv_update a);
   Interfaces.check_limit (compute_gas a); Interfaces.check_limit (state_growth a)].

(** The reference verdict: the first dimension that exceeds, and [WithinLimit] when none
    does. *)
Definition first_exceeded (l : list LimitCheck) : LimitCheck :=
  default WithinLimit (snd <$> list_find (λ c, exceeded_limit c = true) l).

Lemma with_check_id a : with_check a (has_exceeded_limit a) = a.
Proof. by destruct a. Qed.

Lemma check_limit_latched a :
  within_limit (has_exceeded_limit a) = false →
  AdditionalLimit.check_limit a = Some (a, has_exceeded_limit a).
Proof. intros H. unfold AdditionalLimit.check_limit. by rewrite H. Qed.

(** The check of an exempt transaction never looks at the counters. *)
Lemma exempt_check a :
  has_exceeded_limit a = Exempt → AdditionalLimit.check_limit a = Some (a, Exempt).
Proof. intros E. by rewrite check_limit_latched, E; [|rewrite E]. Qed.

Lemma check_limit_fresh a l :
  has_exceeded_limit a = WithinLimit → dimension_verdicts a = Some <$> l →
  AdditionalLimit.check_limit a = Some (with_check a (first_exceeded l), first_exceeded l).
Proof.
  intros Hw Hl. unfold AdditionalLimit.check_limit, dimension_verdicts, first_exceeded in *.
  rewrite Hw; simpl. pose proof (with_check_id a) as Hid. rewrite Hw in Hid.
  destruct l as [|d [|k [|c [|g []]]]]; try discriminate. simpl in Hl.
  injection Hl as E1 E2 E3 E4. rewrite E1. simpl.
  destruct (exceeded_limit d) eqn:Hd; [done|]. rewrite E2. simpl.
  destruct (exceeded_limit k) eqn:Hk; [done|]. rewrite E3. simpl.
  destruct (exceeded_limit c) eqn:Hc; [done|]. rewrite E4. simpl.
  destruct (exceeded_limit g) eqn:Hg; [done|]. simpl. by rewrite Hid.
Qed.

(** [check_limit] only ever writes the verdict. *)
Lemma check_limit_inv a a' c :
  AdditionalLimit.check_limit a = Some (a', c) →
  a' = with_check a c ∧
  (within_limit (has_exceeded_limit a) = false → c = has_exceeded_limit a) ∧
  (has_exceeded_limit a = WithinLimit → within_limit c || exceeded_limit c = true).
Proof.
  unfold AdditionalLimit.check_limit. pose proof (with_check_id a) as Hid.
  destruct (within_limit (has_exceeded_limit a)) eqn:Hw; simpl.
  2:{ intros [= <- <-]. rewrite Hid. split_and!; auto. by intros E; rewrite E in Hw. }
  assert (has_exceeded_limit a = WithinLimit) as E by (by destruct (has_exceeded_limit a)).
  rewrite E in *.
  destruct (DataSize.check_limit (data_size a)) as [d|]; [simpl|done].
  destruct (exceeded_limit d) eqn:Hd; [intros [= <- <-]; rewrite Hd, orb_true_r; by split_and!|].
  destruct (KVUpdate.check_limit (kv_update a)) as [k|]; [simpl|done].
  destruct (exceeded_limit k) eqn:Hk; [intros [= <- <-]; rewrite Hk, orb_true_r; by split_and!|].
  destruct (ComputeGas.check_limit (compute_gas a)) as [g|]; [simpl|done].
  destruct (exceeded_limit g) eqn:Hg; [intros [= <- <-]; rewrite Hg, orb_true_r; by split_and!|].
  destruct (StateGrowth.check_limit (state_growth a)) as [s|]; [simpl|done].
  destruct (exceeded_limit s) eqn:Hs; intros [= <- <-]; [rewrite Hs, orb_true_r; by split_and!|].
  rewrite Hid. by split_and!.
Qed.

Lemma check_limit_idempotent a a' c :
  AdditionalLimit.check_limit a = Some (a', c) →
  AdditionalLimit.check_limit a' = Some (a', c) ∧ has_exceeded_limit a' = c.
Proof.
  intros H. destruct (check_limit_inv a a' c H) as (-> & Hs & Hf). simpl. split; [|done].
  destruct (within_limit c) eqn:Hc.
  - destruct c; try done.
    destruct (within_limit (has_exceeded_limit a)) eqn:Hw; [|by rewrite <- (Hs eq_refl) in Hw].
    destruct (has_exceeded_limit a) eqn:E; try done.
    pose proof (with_check_id a) as Hid. rewrite E in Hid. by rewrite Hid in *.
  - by rewrite check_limit_latched by done.
Qed.
End verdict.

(** * Hooks as steps *)

Section steps.
Context `{R : Revm} `{RS : RevmState}.
Implicit Types a : AdditionalLimit.

(** The hooks that leave the number of frames alone. *)
Inductive neutral_step a : AdditionalLimit → Prop :=
  | ns_check a' c : AdditionalLimit.check_limit a = Some (a', c) → neutral_step a a'
  | ns_set_limit l : 0 ≤ l → neutral_step a (set_compute_gas_limit l a)
  | ns_record g a' b : record_compute_gas g a = Some (a', b) → neutral_step a a'
  | ns_record_all g a' b : record_compute_gas_all_dims g a = Some (a', b) → neutral_step a a'
  | ns_consume n : neutral_step a (fst (try_consume_storage_stipend n a))
  | ns_rescue g a' : try_rescue_gas g a = Some a' → neutral_step a a'
  | ns_tx_start tx a' : AdditionalLimit.before_tx_start tx a = Some a' → neutral_step a a'
  | ns_authorities5 n a' :
      on_rex5_eip7702_authority_creations n a = Some a' → neutral_step a a'
  | ns_authority6 b a' : on_rex6_eip7702_authority_applied b a = Some a' → neutral_step a a'
  | ns_frame_result fi a' r : frame_result_if_exceeding_limit fi a = Some (a', r) → neutral_step a a'
  | ns_after_init r a' : after_frame_init r a = Some a' → neutral_step a a'
  | ns_before_run f a' r : AdditionalLimit.before_frame_run f a = Some (a', r) → neutral_step a a'
  | ns_after_run r g a' r' : AdditionalLimit.after_frame_run r g a = Some (a', r') → neutral_step a a'
  | ns_after_instructions f act a' act' :
      after_frame_run_instructions f act a = Some (a', act') → neutral_step a a'
  | ns_merge u : neutral_step a (merge_usage u a)
  | ns_sstore s a' b : on_sstore s a = Some (a', b) → neutral_step a a'
  | ns_deposit a' :
      AdditionalLimit.record_deposit_caller_creation a = Some a' → neutral_step a a'
  | ns_hint n a' b : AdditionalLimit.record_oracle_hint_bytes n a = Some (a', b) → neutral_step a a'
  | ns_log n d a' b : on_log n d a = Some (a', b) → neutral_step a a'
  | ns_selfdestruct n : neutral_step a (on_selfdestruct n a)
  | ns_selfdestruct_new : neutral_step a (on_selfdestruct_new_account a)
  | ns_selfdestruct_existing : neutral_step a (on_selfdestruct_existing_account a).

(** The hooks that open a frame. *)
Inductive push_step a : AdditionalLimit → Prop :=
  | ps_empty a' : AdditionalLimit.push_empty_frame a = Some a' → push_step a a'
  | ps_init J (HJ : JournalInspectTr J) fi fi' (j j' : J) a' r :
      AdditionalLimit.before_frame_init fi j a = Some (a', fi', j', Ok r) → push_step a a'.

(** The hook that closes one. *)
Inductive pop_step a : AdditionalLimit → Prop :=
  | ps_return last r a' r' :
      AdditionalLimit.before_frame_return_result last r a = Some (a', r') → pop_step a a'.

Definition hook_step a a' : Prop := neutral_step a a' ∨ push_step a a' ∨ pop_step a a'.

(** ** Latched verdicts *)

(** [keeps_verdict a a']: a verdict other than [WithinLimit] is still there. *)
Definition keeps_verdict a a' : Prop :=
  within_limit (has_exceeded_limit a) = false → has_exceeded_limit a' = has_exceeded_limit a.

#[export] Instance keeps_verdict_preorder : PreOrder keeps_verdict.
Proof.
  split; unfold keeps_verdict; [done|]. intros a b c H1 H2 Hw.
  rewrite H2; [by apply H1|]. by rewrite H1.
Qed.

Lemma check_keeps a a' c : AdditionalLimit.check_limit a = Some (a', c) → keeps_verdict a a'.
Proof. intros H Hw. apply check_limit_inv in H as (-> & Hs & _). simpl. by apply Hs. Qed.

Lemma rescue_keeps g a a' : try_rescue_gas g a = Some a' → keeps_verdict a a'.
Proof.
  unfold try_rescue_gas. intros H. bind_inv H. injection H as <-. apply check_keeps in E.
  by case_bools.
Qed.

Lemma record_keeps g a a' b : record_compute_gas g a = Some (a', b) → keeps_verdict a a'.
Proof.
  unfold record_compute_gas. simpl. intros H Hw. rewrite Hw in H. simpl in H. by simplify_eq.
Qed.

Lemma create_result_keeps fi a a' r :
  create_exceeded_limit_result fi a = Some (a', r) → keeps_verdict a a'.
Proof.
  unfold create_exceeded_limit_result. intros H. bind_inv H. bind_inv H. simplify_eq.
  by eapply rescue_keeps.
Qed.
End steps.

#[export] Hint Resolve check_keeps rescue_keeps record_keeps create_result_keeps : keeps.

Section sticky.
Context `{R : Revm} `{RS : RevmState}.
Implicit Types a : AdditionalLimit.

(** The hook updated trackers and then ran [check_limit] or [try_rescue_gas]. *)
Ltac keeps_by_check :=
  unfold record_compute_gas_all_dims, AdditionalLimit.before_tx_start,
    on_rex5_eip7702_authority_creations, on_sstore, on_log,
    AdditionalLimit.record_deposit_caller_creation,
    AdditionalLimit.record_oracle_hint_bytes in *;
  repeat match goal with
    | H : AdditionalLimit.check_limit _ = Some _ |- _ => exact (check_keeps _ _ _ H)
    | H : try_rescue_gas _ _ = Some _ |- _ => exact (rescue_keeps _ _ _ H)
    | H : (_ ≫= _) = Some _ |- _ => bind_inv H; simplify_eq
    end.

Lemma after_init_keeps r a a' : after_frame_init r a = Some a' → keeps_verdict a a'.
Proof.
  destruct r as [f|r]; simpl; [|apply rescue_keeps].
  intros H. bind_inv H. bind_inv H. by simplify_eq.
Qed.

Lemma after_run_keeps r g a a' r' :
  AdditionalLimit.after_frame_run r g a = Some (a', r') → keeps_verdict a a'.
Proof.
  unfold AdditionalLimit.after_frame_run. intros H. bind_inv H. bind_inv H. simplify_eq.
  apply rescue_keeps in E0. etrans; [|exact E0].
  destruct g as [g|]; [|by simplify_eq]. bind_inv E. apply record_keeps in E1.
  case_bools_in E; by simplify_eq.
Qed.

Lemma after_instructions_keeps f act a a' act' :
  after_frame_run_instructions f act a = Some (a', act') → keeps_verdict a a'.
Proof.
  unfold after_frame_run_instructions. destruct act as [i|]; [|by intros [= <- <-]].
  destruct (ef_is_create f); [|by intros [= <- <-]].
  destruct (limit_exceeded _); [by intros [= <- <-]|].
  intros H. bind_inv H. case_bools_in H; simplify_eq; keeps_by_check.
Qed.

Lemma neutral_keeps a a' : neutral_step a a' → keeps_verdict a a'.
Proof.
  intros H. destruct H as [a' c H|l|g a' b H|g a' b H|n|g a' H|tx a' H|n a' H|b a' H|fi a' r H
    |r a' H|f a' r H|r g a' r' H|f act a' act' H|u|s a' b H|a' H|n a' b H|n d a' b H|n| |];
    eauto using after_init_keeps, after_run_keeps, after_instructions_keeps with keeps;
    try done; try solve [keeps_by_check].
  - unfold try_consume_storage_stipend. by destruct (try_consume _ _).
  - unfold on_rex6_eip7702_authority_applied in H. destruct b; keeps_by_check.
  - unfold frame_result_if_exceeding_limit in H. case_bools_in H; simplify_eq; [done|].
    by eapply create_result_keeps.
  - unfold AdditionalLimit.before_frame_run in H. bind_inv H.
    case_bools_in H; simplify_eq; keeps_by_check.
Qed.

Lemma push_keeps a a' : push_step a a' → keeps_verdict a a'.
Proof.
  intros [a1 H|J HJ fi fi' j j' a1 r H].
  - unfold AdditionalLimit.push_empty_frame in H. do 4 bind_inv H. by simplify_eq.
  - unfold AdditionalLimit.before_frame_init in H.
    do 4 (bind_inv H; match type of H with context [match ?r with Ok _ => _ | Err _ => _ end] =>
      destruct r; [|done] end).
    destruct (StorageCallStipend.before_frame_init _ _ _) as [[st fi1] cg]. bind_inv H.
    apply check_keeps in E3.
    destruct (exceeded_limit _); [|simplify_eq; exact E3].
    bind_inv H. simplify_eq. etrans; [exact E3|]. by eapply create_result_keeps.
Qed.

(** Closing a frame clears a frame-local verdict and keeps the others. *)
Lemma pop_keeps a a' :
  pop_step a a' → is_frame_local (has_exceeded_limit a) = false → keeps_verdict a a'.
Proof.
  intros [last r a1 r' H] Hl Hw. unfold AdditionalLimit.before_frame_return_result in H.
  do 6 bind_inv H. apply check_limit_inv in E4 as (-> & Hs & _). specialize (Hs Hw). simpl in Hs.
  subst. rewrite Hl in H. case_bools_in H; by simplify_eq.
Qed.
End sticky.

(** C3: [check_limit] reports the first dimension that exceeds, in the order data size, key
    value updates, compute gas, state growth, and latches that verdict: it writes nothing
    else, and a repeated call returns the same verdict. *)
Theorem check_limit_first_exceeded `{R : Revm, RS : RevmState} (a : AdditionalLimit) l :
  has_exceeded_limit a = WithinLimit →
  dimension_verdicts a = Some <$> l →
  let v := first_exceeded l in
  AdditionalLimit.check_limit a = Some (with_check a v, v) ∧
  AdditionalLimit.check_limit (with_check a v) = Some (with_check a v, v).
Proof.
  intros Hw Hl v. pose proof (check_limit_fresh a l Hw Hl) as H. split; [done|].
  by apply check_limit_idempotent in H as [? _].
Qed.

(** C4: a transaction-level verdict is final.  Once a transaction is exempt, or has exceeded
    a transaction-level limit, every later hook keeps that verdict; only a frame-local exceed
    can be absorbed. *)
Theorem transaction_verdict_final `{R : Revm, RS : RevmState} (a a' : AdditionalLimit) :
  rtc hook_step a a' →
  within_limit (has_exceeded_limit a) = false →
  is_frame_local (has_exceeded_limit a) = false →
  has_exceeded_limit a' = has_exceeded_limit a.
Proof.
  intros Hr. induction Hr as [|a a1 a2 Hs Hr IH]; [done|]. intros Hw Hl.
  assert (E : has_exceeded_limit a1 = has_exceeded_limit a).
  { destruct Hs as [Hs|[Hs|Hs]]; [by apply neutral_keeps|by apply push_keeps|by apply pop_keeps]. }
  rewrite IH; rewrite E; done.
Qed.

(** * The fast path of [record_compute_gas] *)

Section fast_path.
Context `{R : Revm} `{RS : RevmState}.
Implicit Types a : AdditionalLimit.

(** The latch protocol: unless a verdict is latched, the dimensions other than compute gas
    are within their limits. *)
Definition others_latched a : Prop :=
  has_exceeded_limit a = WithinLimit →
  ∃ d k s, DataSize.check_limit (data_size a) = Some d ∧ exceeded_limit d = false ∧
           KVUpdate.check_limit (kv_update a) = Some k ∧ exceeded_limit k = false ∧
           StateGrowth.check_limit (state_growth a) = Some s ∧ exceeded_limit s = false.

Lemma check_establishes_latch a a' c :
  AdditionalLimit.check_limit a = Some (a', c) → others_latched a'.
Proof.
  intros H Hw. pose proof (check_limit_idempotent a a' c H) as [H' Hc].
  unfold AdditionalLimit.check_limit in H'. rewrite Hw in H'. simpl in H'. subst c.
  rewrite Hw in H'.
  do 4 (bind_inv H'; case_bools_in H'; [by injection H' as _ ->|]). eauto 12.
Qed.

Lemma record_fast_path g a :
  others_latched a → record_compute_gas g a = record_compute_gas_all_dims g a.
Proof.
  intros Hl. unfold record_compute_gas, record_compute_gas_all_dims, AdditionalLimit.check_limit.
  simpl. destruct (within_limit (has_exceeded_limit a)) eqn:Hw; simpl; [|done].
  assert (E : has_exceeded_limit a = WithinLimit) by (by destruct (has_exceeded_limit a)).
  destruct (Hl E) as (d & k & s & -> & Hd & -> & Hk & -> & Hs). simpl. rewrite Hd, Hk. simpl.
  destruct (ComputeGas.check_limit _) as [c|]; [simpl|done].
  destruct (exceeded_limit c) eqn:Hc; simpl; [by rewrite Hc|]. by rewrite Hs, E.
Qed.

Lemma record_keeps_latch g a a' b :
  others_latched a → record_compute_gas g a = Some (a', b) → others_latched a'.
Proof.
  intros Hl. unfold record_compute_gas. simpl.
  destruct (negb (within_limit (has_exceeded_limit a))); [by intros [= <- <-]|].
  intros H. bind_inv H. case_bools_in H; simplify_eq; [|done]. intros Hw. simpl in Hw. by subst.
Qed.

(** Recording a list of opcode costs, stopping at nothing: the flags tell which opcode is
    the first to exceed. *)
Fixpoint record_all (f : Z → AdditionalLimit → panics (AdditionalLimit * bool))
    (costs : list Z) a : panics (AdditionalLimit * list bool) :=
  match costs with
  | [] => Some (a, [])
  | g :: costs => '(a, b) ← f g a; '(a, bs) ← record_all f costs a; Some (a, b :: bs)
  end.

Lemma record_all_fast_path costs a :
  others_latched a →
  record_all record_compute_gas costs a = record_all record_compute_gas_all_dims costs a.
Proof.
  revert a. induction costs as [|g costs IH]; intros a Hl; [done|]. simpl.
  rewrite <- (record_fast_path g a Hl).
  destruct (record_compute_gas g a) as [[a1 b]|] eqn:E; [simpl|done].
  by rewrite IH by (by eapply record_keeps_latch).
Qed.
End fast_path.

(** C6: the per-opcode fast path is the full check.  After any check of the limits, metering
    any sequence of opcodes with the compute-only [record_compute_gas] gives the state, the
    flags and the panics of metering it with the check of all four dimensions. *)
Theorem record_compute_gas_fast_path `{R : Revm, RS : RevmState} (a a' : AdditionalLimit) c costs :
  AdditionalLimit.check_limit a = Some (a', c) →
  record_all record_compute_gas costs a' = record_all record_compute_gas_all_dims costs a'.
Proof. intros H. by eapply record_all_fast_path, check_establishes_latch. Qed.

(** * Evaluation on concrete limits *)

Definition tight_limits : EvmTxRuntimeLimits := mkTxLimits 200 2 50000 3 1000 1000.

Definition fresh_limit : AdditionalLimit := AdditionalLimit.new REX5 tight_limits.

(** Over the limit for data size and for key-value updates. *)
Definition crowded_limit : AdditionalLimit :=
  merge_usage (mkLimitUsage 500 9 0 0) fresh_limit.

Lemma check_limit_first_exceeded_witness :
  AdditionalLimit.check_limit crowded_limit =
    Some (with_check crowded_limit (ExceedsLimit DataSize 200 500 false),
          ExceedsLimit DataSize 200 500 false).
Proof.
  exact (proj1 (check_limit_first_exceeded crowded_limit
    [ExceedsLimit DataSize 200 500 false; ExceedsLimit KVUpdate 2 9 false; WithinLimit; WithinLimit]
    ltac:(reflexivity) ltac:(vm_compute; reflexivity))).
Defined.

Definition latched_limit : AdditionalLimit :=
  with_check crowded_limit (ExceedsLimit DataSize 200 500 false).

Definition latched_after_push : AdditionalLimit :=
  default latched_limit (AdditionalLimit.push_empty_frame latched_limit).

Definition some_call_result : FrameResult :=
  FrameResultCall (mkInterpreterResult RefStop [] (gas_new 100)) (0, 0).

Definition latched_after_pop : AdditionalLimit :=
  fst (default (latched_limit, some_call_result)
    (AdditionalLimit.before_frame_return_result true some_call_result latched_after_push)).

Lemma latched_run : rtc hook_step latched_limit latched_after_pop.
Proof.
  eapply rtc_l; [right; left; apply (ps_empty _ latched_after_push); vm_compute; reflexivity|].
  eapply rtc_l; [right; right|apply rtc_refl].
  eapply (ps_return _ true some_call_result). vm_compute. reflexivity.
Defined.

Lemma transaction_verdict_final_witness :
  has_exceeded_limit latched_after_pop = ExceedsLimit DataSize 200 500 false.
Proof.
  exact (transaction_verdict_final latched_limit latched_after_pop latched_run
           ltac:(reflexivity) ltac:(reflexivity)).
Defined.

Lemma record_compute_gas_fast_path_witness :
  record_all record_compute_gas [21000; 20000; 20000] fresh_limit =
  record_all record_compute_gas_all_dims [21000; 20000; 20000] fresh_limit ∧
  snd <$> record_all record_compute_gas [21000; 20000; 20000] fresh_limit = Some [true; true; false].
Proof.
  split; [|vm_compute; reflexivity].
  apply (record_compute_gas_fast_path fresh_limit fresh_limit WithinLimit). vm_compute. reflexivity.
Defined.
