(* ===== verification/Alignment.v ===== *)
(** The five frame stacks of the aggregate limit move together with the EVM's call stack.

    The proofs use only the laws of [TxRuntimeLimitLaws] for the four dimensions. *)

From S2P Require Import Prelude Spec Revm LimitCheck FrameLimit FrameLimitFacts Interfaces.
From S2P Require Import ComputeGas DataSize KVUpdate StateGrowth StorageCallStipend.
From S2P Require Import Interfaces LimitCheck AdditionalLimit AdditionalLimitFacts.

Section alignment.
Context `{R : Revm} `{RS : RevmState}.
Implicit Types a : AdditionalLimit.

(** One dimension holds [n] frames and its invariant. *)
Definition at_depth {T} `{!TxRuntimeLimit T, !TxRuntimeLimitLaws T} (n : nat) (t : T) : Prop :=
  frame_depth t = n ∧ tracker_wf t.

Definition aligned (n : nat) a : Prop :=
  at_depth n (state_growth a) ∧ at_depth n (data_size a) ∧ at_depth n (kv_update a) ∧
  at_depth n (compute_gas a) ∧ length (st_stack (storage_call_stipend a)) = n.

Lemma at_depth_eq {T} `{!TxRuntimeLimit T, !TxRuntimeLimitLaws T} n (t t' : T) :
  at_depth n t → (tracker_wf t → frame_depth t' = frame_depth t ∧ tracker_wf t') → at_depth n t'.
Proof. intros [<- Hwf] H. destruct (H Hwf). by split. Qed.

(** Updates of one dimension. *)
Lemma aligned_state_growth n a t : aligned n a → at_depth n t → aligned n (with_state_growth a t).
Proof. intros (?&?&?&?&?) ?. by split_and!. Qed.
Lemma aligned_data_size n a t : aligned n a → at_depth n t → aligned n (with_data_size a t).
Proof. intros (?&?&?&?&?) ?. by split_and!. Qed.
Lemma aligned_kv_update n a t : aligned n a → at_depth n t → aligned n (with_kv_update a t).
Proof. intros (?&?&?&?&?) ?. by split_and!. Qed.
Lemma aligned_compute_gas n a t : aligned n a → at_depth n t → aligned n (with_compute_gas a t).
Proof. intros (?&?&?&?&?) ?. by split_and!. Qed.
Lemma aligned_check n a c : aligned n a → aligned n (with_check a c).
Proof. done. Qed.

Lemma check_aligned n a a' c :
  AdditionalLimit.check_limit a = Some (a', c) → aligned n a → aligned n a'.
Proof. intros H. by apply check_limit_inv in H as (-> & _). Qed.

Lemma rescue_aligned n g a a' : try_rescue_gas g a = Some a' → aligned n a → aligned n a'.
Proof.
  unfold try_rescue_gas. intros H Ha. bind_inv H. simplify_eq.
  pose proof (check_aligned n _ _ _ E Ha). by case_bools.
Qed.

(** ** The recorders outside the life-cycle interface *)

Lemma record_gas_used_depth n g (t : ComputeGasTracker) :
  at_depth n t → at_depth n (record_gas_used g t).
Proof.
  intros H. apply (at_depth_eq n t); [done|]. intros Hwf.
  split; [|by apply record_gas_used_wf]. simpl. unfold record_gas_used.
  pose proof (depth_persistent g (cg_frame_tracker t)) as Hd.
  destruct (add_frame_persistent g (cg_frame_tracker t)) as [f []]; simpl in *; done.
Qed.

Lemma compute_step_depth n f (t : ComputeGasTracker) :
  step (cg_frame_tracker t) f → stack_depth f = stack_depth (cg_frame_tracker t) →
  at_depth n t → at_depth n (ComputeGas.with_frame_tracker t f).
Proof.
  intros Hs Hd H. apply (at_depth_eq n t); [done|]. intros Hwf.
  split; [exact Hd|]. by apply compute_wf_step.
Qed.

Lemma growth_step_depth n f (t : StateGrowthTracker) :
  step (sg_frame_tracker t) f → stack_depth f = stack_depth (sg_frame_tracker t) →
  at_depth n t → at_depth n (StateGrowth.with_frame_tracker t f).
Proof.
  intros Hs Hd H. apply (at_depth_eq n t); [done|]. intros Hwf.
  split; [exact Hd|]. by apply growth_step.
Qed.

Lemma data_step_depth n f (t : DataSizeTracker) :
  (call_wf (ds_frame_tracker t) → call_wf f) →
  stack_depth f = stack_depth (ds_frame_tracker t) →
  at_depth n t → at_depth n (DataSize.with_frame_tracker t f).
Proof.
  intros Hs Hd H. apply (at_depth_eq n t); [done|]. intros Hwf. split; [exact Hd|]. by apply Hs.
Qed.

Lemma kv_step_depth n f (t : KVUpdateTracker) :
  (call_wf (kv_frame_tracker t) → call_wf f) →
  stack_depth f = stack_depth (kv_frame_tracker t) →
  at_depth n t → at_depth n (KVUpdate.with_frame_tracker t f).
Proof.
  intros Hs Hd H. apply (at_depth_eq n t); [done|]. intros Hwf. split; [exact Hd|]. by apply Hs.
Qed.

Lemma record_aligned n g a a' b :
  record_compute_gas g a = Some (a', b) → aligned n a → aligned n a'.
Proof.
  unfold record_compute_gas. intros H Ha.
  assert (Ha' : aligned n (with_compute_gas a (record_gas_used g (compute_gas a)))).
  { apply aligned_compute_gas; [done|]. apply record_gas_used_depth, Ha. }
  case_bools_in H; [by simplify_eq|]. bind_inv H. case_bools_in H; by simplify_eq.
Qed.

Lemma create_result_aligned n fi a a' r :
  create_exceeded_limit_result fi a = Some (a', r) → aligned n a → aligned n a'.
Proof.
  unfold create_exceeded_limit_result. intros H Ha. bind_inv H. bind_inv H. simplify_eq.
  by eapply rescue_aligned.
Qed.
End alignment.

#[export] Hint Resolve aligned_state_growth aligned_data_size aligned_kv_update
  aligned_compute_gas aligned_check : aligned.

Section neutral.
Context `{R : Revm} `{RS : RevmState}.
Implicit Types a : AdditionalLimit.

(** The life-cycle hooks of one dimension that keep its depth. *)
Section dimension.
Context {T : Type} `{HT : !TxRuntimeLimit T, !TxRuntimeLimitLaws T}.
Implicit Types t : T.

Lemma tx_start_depth n tx t : at_depth n t → at_depth n (Interfaces.before_tx_start tx t).
Proof. intros H. eapply at_depth_eq; [done|apply before_tx_start_law]. Qed.
Lemma before_run_depth n f t : at_depth n t → at_depth n (Interfaces.before_frame_run f t).
Proof. intros H. eapply at_depth_eq; [done|apply before_frame_run_law]. Qed.
Lemma after_run_depth n f act t : at_depth n t → at_depth n (Interfaces.after_frame_run f act t).
Proof. intros H. eapply at_depth_eq; [done|apply after_frame_run_law]. Qed.
Lemma sstore_depth n s t : at_depth n t → at_depth n (Interfaces.after_sstore s t).
Proof. intros H. eapply at_depth_eq; [done|apply after_sstore_law]. Qed.
Lemma log_depth n k d t : at_depth n t → at_depth n (Interfaces.after_log k d t).
Proof. intros H. eapply at_depth_eq; [done|apply after_log_law]. Qed.
Lemma selfdestruct_depth n k t : at_depth n t → at_depth n (Interfaces.after_selfdestruct k t).
Proof. intros H. eapply at_depth_eq; [done|apply after_selfdestruct_law]. Qed.
Lemma after_init_depth n f t t' :
  Interfaces.after_frame_init_on_frame f t = Some t' → at_depth n t → at_depth n t'.
Proof. intros Hf H. eapply at_depth_eq; [done|]. intros Hwf. by eapply after_frame_init_law. Qed.
Lemma push_empty_depth n t t' :
  Interfaces.push_empty_frame t = Some t' → at_depth n t → at_depth (S n) t'.
Proof. intros Hp [<- Hwf]. by apply push_empty_frame_law. Qed.
Lemma init_depth n J (HJ : JournalInspectTr J) fi (j : J) t t' j' r :
  Interfaces.before_frame_init fi j t = Some (t', j', r) → at_depth n t → at_depth (S n) t'.
Proof. intros Hp [<- Hwf]. by eapply before_frame_init_law. Qed.
Lemma return_depth n last r t t' :
  Interfaces.before_frame_return_result last r t = Some t' → at_depth n t → at_depth (pred n) t'.
Proof.
  intros Hp [<- Hwf]. pose proof (return_law last r t Hwf) as H. rewrite Hp in H.
  destruct H as (_ & ? & ?). done.
Qed.
End dimension.

Lemma aligned_parts n a :
  aligned n a → at_depth n (state_growth a) ∧ at_depth n (data_size a) ∧
                at_depth n (kv_update a) ∧ at_depth n (compute_gas a).
Proof. by intros (?&?&?&?&?). Qed.

Ltac aligned_solve :=
  lazymatch goal with
  | |- aligned _ (with_state_growth _ _) => apply aligned_state_growth; aligned_solve
  | |- aligned _ (with_data_size _ _) => apply aligned_data_size; aligned_solve
  | |- aligned _ (with_kv_update _ _) => apply aligned_kv_update; aligned_solve
  | |- aligned _ (with_compute_gas _ _) => apply aligned_compute_gas; aligned_solve
  | |- at_depth _ (Interfaces.before_tx_start _ _) => apply tx_start_depth; aligned_solve
  | |- at_depth _ (Interfaces.before_frame_run _ _) => apply before_run_depth; aligned_solve
  | |- at_depth _ (Interfaces.after_frame_run _ _ _) => apply after_run_depth; aligned_solve
  | |- at_depth _ (Interfaces.after_sstore _ _) => apply sstore_depth; aligned_solve
  | |- at_depth _ (Interfaces.after_log _ _ _) => apply log_depth; aligned_solve
  | |- at_depth _ (Interfaces.after_selfdestruct _ _) => apply selfdestruct_depth; aligned_solve
  | |- at_depth _ (record_gas_used _ _) => apply record_gas_used_depth; aligned_solve
  | |- at_depth _ (ComputeGas.with_frame_tracker _ _) =>
      apply compute_step_depth; [constructor|by autorewrite with depth|aligned_solve]
  | |- at_depth _ (StateGrowth.with_frame_tracker _ _) =>
      apply growth_step_depth; [constructor|by autorewrite with depth|aligned_solve]
  | |- at_depth _ (DataSize.with_frame_tracker _ _) =>
      apply data_step_depth; [auto with call_wf|by autorewrite with depth|aligned_solve]
  | |- at_depth _ (KVUpdate.with_frame_tracker _ _) =>
      apply kv_step_depth; [auto with call_wf|by autorewrite with depth|aligned_solve]
  | H : aligned _ _ |- at_depth _ _ => by apply aligned_parts in H as (?&?&?&?)
  | |- _ => try done
  end.

Ltac check_solve :=
  repeat match goal with
    | H : (_ ≫= _) = Some _ |- _ => bind_inv H; simplify_eq
    | H : AdditionalLimit.check_limit _ = Some _ |- aligned _ _ =>
        apply (check_aligned _ _ _ _ H); clear H
    end; aligned_solve.

Lemma consume_aligned n k a :
  aligned n a → aligned n (fst (try_consume_storage_stipend k a)).
Proof.
  intros (?&?&?&?&Hn). unfold try_consume_storage_stipend, try_consume.
  destruct (st_rex5_enabled _); simpl; [|by split_and!].
  destruct (st_stack _) as [|f s] eqn:E; simpl; rewrite ?E in Hn; simpl in Hn; by split_and!; simpl; rewrite ?E.
Qed.

Lemma after_init_aligned n r a a' : after_frame_init r a = Some a' → aligned n a → aligned n a'.
Proof.
  destruct r as [f|r]; [|apply rescue_aligned]. intros H Ha. unfold after_frame_init in H.
  destruct (aligned_parts n a Ha) as (H1 & H2 & H3 & H4).
  do 3 bind_inv H. simplify_eq.
  eauto 10 using after_init_depth with aligned.
Qed.

Lemma after_run_aligned n r g a a' r' :
  AdditionalLimit.after_frame_run r g a = Some (a', r') → aligned n a → aligned n a'.
Proof.
  unfold AdditionalLimit.after_frame_run. intros H Ha. bind_inv H. bind_inv H. simplify_eq.
  apply (rescue_aligned _ _ _ _ E0).
  destruct g as [g|]; [|by simplify_eq]. bind_inv E. apply (record_aligned n) in E1; [|done].
  case_bools_in E; by simplify_eq.
Qed.

Lemma after_instructions_aligned n f act a a' act' :
  after_frame_run_instructions f act a = Some (a', act') → aligned n a → aligned n a'.
Proof.
  unfold after_frame_run_instructions. intros H Ha.
  set (a1 := with_compute_gas _ _) in H.
  assert (Ha1 : aligned n a1) by (unfold a1; aligned_solve).
  destruct act as [i|]; [|by simplify_eq].
  case_bools_in H; try by simplify_eq.
  all: bind_inv H; apply (check_aligned n) in E; [|done]; case_bools_in H; by simplify_eq.
Qed.

Ltac unfold_recorders :=
  unfold record_compute_gas_all_dims, AdditionalLimit.before_tx_start,
    on_rex5_eip7702_authority_creations, on_rex6_eip7702_authority_applied, on_sstore, on_log,
    on_selfdestruct, on_selfdestruct_new_account, on_selfdestruct_existing_account, merge_usage,
    AdditionalLimit.record_deposit_caller_creation, AdditionalLimit.record_oracle_hint_bytes,
    DataSize.record_account_write, DataSize.record_persistent_account_write,
    DataSize.record_discardable, DataSize.record_oracle_hint_bytes,
    DataSize.merge_persistent_usage, KVUpdate.record_account_update,
    KVUpdate.record_discardable, KVUpdate.record_persistent_account_update,
    KVUpdate.merge_persistent_usage, record_growth, record_authority_creations,
    StateGrowth.record_deposit_caller_creation, StateGrowth.merge_persistent_usage,
    ComputeGas.merge_persistent_usage in *.

Lemma neutral_aligned n a a' : neutral_step a a' → aligned n a → aligned n a'.
Proof.
  intros H Ha. destruct H as [a' c H|l Hl|g a' b H|g a' b H|k|g a' H|tx a' H|k a' H|b a' H|fi a' r H
    |r a' H|f a' r H|r g a' r' H|f act a' act' H|u|s a' b H|a' H|k a' b H|k d a' b H|k| |];
    eauto using check_aligned, record_aligned, consume_aligned, rescue_aligned,
      after_init_aligned, after_run_aligned, after_instructions_aligned;
    unfold_recorders; try solve [check_solve].
  - apply aligned_compute_gas; [done|]. eapply at_depth_eq; [apply Ha|]. intros Hwf.
    split; [done|]. by apply set_detained_limit_wf.
  - destruct b; check_solve.
  - unfold frame_result_if_exceeding_limit in H. case_bools_in H; simplify_eq; [done|].
    by eapply create_result_aligned.
  - unfold AdditionalLimit.before_frame_run in H. bind_inv H.
    apply (check_aligned n) in E; [|aligned_solve]. case_bools_in H; by simplify_eq.
Qed.
End neutral.

Section frames.
Context `{R : Revm} `{RS : RevmState}.
Implicit Types a : AdditionalLimit.

Lemma stipend_init_depth n fi (cg cg' : ComputeGasTracker) st st' fi' :
  StorageCallStipend.before_frame_init fi cg st = (st', fi', cg') →
  (∀ c, fi_frame_input fi = FrameInputCall c → 0 ≤ ci_gas_limit c) →
  length (st_stack st) = n → at_depth (S n) cg →
  length (st_stack st') = S n ∧ at_depth (S n) cg'.
Proof.
  unfold StorageCallStipend.before_frame_init. intros H Hg Hn Hc.
  destruct (negb _); [simplify_eq/=; auto|].
  destruct (st_rex5_enabled _); [simplify_eq/=; auto|].
  destruct (fi_frame_input fi) as [c|c|]; simplify_eq/=; auto. split; [done|].
  eapply at_depth_eq; [exact Hc|]. intros Hwf. split; [apply depth_frame_mut|].
  apply cap_current_frame_limit_wf; [by apply Hg|done].
Qed.

Lemma push_empty_aligned n a a' :
  AdditionalLimit.push_empty_frame a = Some a' → aligned n a → aligned (S n) a'.
Proof.
  unfold AdditionalLimit.push_empty_frame. intros H (H1&H2&H3&H4&H5).
  do 4 bind_inv H. simplify_eq.
  split_and!; simpl; [by eapply push_empty_depth..|done].
Qed.

Lemma init_aligned n J (HJ : JournalInspectTr J) fi fi' (j j' : J) a a' r :
  AdditionalLimit.before_frame_init fi j a = Some (a', fi', j', Ok r) →
  (∀ c, fi_frame_input fi = FrameInputCall c → 0 ≤ ci_gas_limit c) →
  aligned n a → aligned (S n) a'.
Proof.
  unfold AdditionalLimit.before_frame_init. intros H Hg (H1&H2&H3&H4&H5).
  do 4 (bind_inv H; match type of H with context [match ?r with Ok _ => _ | Err _ => _ end] =>
    destruct r; [|done] end).
  destruct (StorageCallStipend.before_frame_init _ _ _) as [[st fi1] cg] eqn:Es.
  eapply stipend_init_depth in Es as [Hst Hcg]; [|done|exact H5|by eapply init_depth].
  bind_inv H. eapply (check_aligned (S n)) in E3; [|split_and!; simpl; eauto using init_depth].
  destruct (exceeded_limit _); [|by simplify_eq].
  bind_inv H. simplify_eq. by eapply create_result_aligned.
Qed.

Lemma stipend_return_depth n last r r' st st' :
  StorageCallStipend.before_frame_return_result last r st = Some (st', r') →
  length (st_stack st) = n → length (st_stack st') = pred n.
Proof.
  unfold StorageCallStipend.before_frame_return_result. intros H <-. bind_inv H.
  case_bools_in H; simplify_eq/=; by destruct (st_stack st).
Qed.

Lemma return_aligned n last r r' a a' :
  AdditionalLimit.before_frame_return_result last r a = Some (a', r') →
  aligned n a → aligned (pred n) a'.
Proof.
  unfold AdditionalLimit.before_frame_return_result. intros H (H1&H2&H3&H4&H5).
  do 6 bind_inv H.
  apply (check_aligned (pred n)) in E4;
    [|split_and!; simpl; eauto using return_depth, stipend_return_depth].
  case_bools_in H; by simplify_eq.
Qed.
End frames.

(** * Runs *)

Section runs.
Context `{R : Revm} `{RS : RevmState}.
Implicit Types a : AdditionalLimit.

Definition limits_in_u64 (l : EvmTxRuntimeLimits) : Prop :=
  in_u64 (tx_data_size_limit l) ∧ in_u64 (tx_kv_updates_limit l) ∧
  in_u64 (tx_compute_gas_limit l) ∧ in_u64 (tx_state_growth_limit l).

(** [run n a]: the hooks, called in any order, have led from a fresh limit to [a] with [n]
    frames open. *)
Inductive run : nat → AdditionalLimit → Prop :=
  | run_new spec l : limits_in_u64 l → run 0 (AdditionalLimit.new spec l)
  | run_reset n a : run n a → run 0 (AdditionalLimit.reset a)
  | run_exempt n a : run n a → run n (mark_exempt a)
  | run_neutral n a a' : run n a → neutral_step a a' → run n a'
  | run_push_empty n a a' :
      run n a → AdditionalLimit.push_empty_frame a = Some a' → run (S n) a'
  | run_frame_init n a a' J (HJ : JournalInspectTr J) fi fi' (j j' : J) r :
      run n a → (∀ c, fi_frame_input fi = FrameInputCall c → 0 ≤ ci_gas_limit c) →
      AdditionalLimit.before_frame_init fi j a = Some (a', fi', j', Ok r) → run (S n) a'
  | run_return n a a' last r r' :
      run n a → AdditionalLimit.before_frame_return_result last r a = Some (a', r') →
      run (pred n) a'.

Lemma new_aligned spec l : limits_in_u64 l → aligned 0 (AdditionalLimit.new spec l).
Proof.
  intros (?&?&?&?).
  split_and!; [split; [done|]; cbn..|done].
  - by apply tracker_new_inv.
  - split; [by apply tracker_new_inv|done].
  - split; [by apply tracker_new_inv|done].
  - split; [by apply tracker_new_inv|]. simpl. unfold FrameLimit.tx_limit; simpl. u64_lia.
Qed.

Lemma reset_aligned n a : aligned n a → aligned 0 (AdditionalLimit.reset a).
Proof.
  intros ((_&?)&(_&?)&(_&?)&(_&?)&_). split_and!; [by apply reset_law..|done].
Qed.

Lemma run_aligned n a : run n a → aligned n a.
Proof.
  induction 1; eauto using new_aligned, reset_aligned, neutral_aligned, push_empty_aligned,
    init_aligned, return_aligned.
Qed.

(** A dimension with an open frame can always close it. *)
Lemma return_total {T} `{HT : !TxRuntimeLimit T, !TxRuntimeLimitLaws T} n last r (t : T) :
  at_depth n t → last = true ∨ n ≠ 0%nat →
  is_Some (Interfaces.before_frame_return_result last r t).
Proof.
  intros [Hd Hwf] Hn. pose proof (return_law last r t Hwf) as H.
  destruct (Interfaces.before_frame_return_result last r t); [by eexists|].
  destruct H as [-> H0]. destruct Hn; [done|congruence].
Qed.
End runs.

(** C7: whatever hooks run, in whatever order, the frame stacks of the four dimensions and of
    the storage stipend have the height of the EVM's call stack (frames opened minus frames
    closed), so closing a frame never hits one of the "frame stack is empty" assertions or
    the missing-parent [expect]: with a frame open, and for the duplicate return of the last
    frame, each of the five pops succeeds. *)
Theorem stacks_aligned `{R : Revm, RS : RevmState} n (a : AdditionalLimit) :
  run n a →
  stack_depth (sg_frame_tracker (state_growth a)) = n ∧
  stack_depth (ds_frame_tracker (data_size a)) = n ∧
  stack_depth (kv_frame_tracker (kv_update a)) = n ∧
  stack_depth (cg_frame_tracker (compute_gas a)) = n ∧
  length (st_stack (storage_call_stipend a)) = n ∧
  (∀ last r, last = true ∨ n ≠ 0%nat →
     is_Some (Interfaces.before_frame_return_result last r (state_growth a)) ∧
     is_Some (Interfaces.before_frame_return_result last r (data_size a)) ∧
     is_Some (Interfaces.before_frame_return_result last r (kv_update a)) ∧
     is_Some (Interfaces.before_frame_return_result last r (compute_gas a)) ∧
     is_Some (StorageCallStipend.before_frame_return_result last r (storage_call_stipend a))).
Proof.
  intros Hr. destruct (run_aligned n a Hr) as (H1&H2&H3&H4&H5).
  split_and!; [apply H1|apply H2|apply H3|apply H4|done|].
  intros last r Hn. split_and!; [by eapply return_total..|].
  unfold StorageCallStipend.before_frame_return_result, assert_.
  assert (last || match st_stack (storage_call_stipend a) with [] => false | _ => true end = true) as ->.
  { destruct Hn as [->|Hn]; [done|]. destruct (st_stack _); [done|]. apply orb_true_r. }
  simpl. case_bools; by eexists.
Qed.

(** One frame opened by the limit's own hook. *)
Definition one_frame : AdditionalLimit :=
  default fresh_limit (AdditionalLimit.push_empty_frame fresh_limit).

Lemma one_frame_run : run 1 one_frame.
Proof.
  apply (run_push_empty 0 fresh_limit one_frame).
  - apply run_new. vm_compute. intuition discriminate.
  - vm_compute. reflexivity.
Defined.

Lemma stacks_aligned_witness :
  stack_depth (ds_frame_tracker (data_size one_frame)) = 1%nat ∧
  is_Some (Interfaces.before_frame_return_result false some_call_result (kv_update one_frame)).
Proof.
  destruct (stacks_aligned 1 one_frame one_frame_run) as (_ & H & _ & _ & _ & Hpop).
  split; [exact H|]. exact (proj1 (proj2 (proj2 (Hpop false some_call_result (or_intror (Nat.neq_succ_0 0)))))).
Defined.
