(* ===== verification/LimitOutcomes.v ===== *)
(** What a limit does to a transaction: the results of frames that exceed, the storage
    stipend's gas, gas detention, and the budgets reported to contracts. *)

From S2P Require Import Prelude Spec Revm LimitCheck FrameLimit FrameLimitFacts FrameBudget.
From S2P Require Import Interfaces ComputeGas DataSize KVUpdate StateGrowth StorageCallStipend.
From S2P Require Import Interfaces LimitCheck AdditionalLimit AdditionalLimitFacts.

(** * Frames that return with a latched verdict *)

Section returns.
Context `{R : Revm} `{RS : RevmState}.

(** The result of a frame after its unused Rex4 stipend is burnt. *)
Definition burnt_result (last : bool) (r : FrameResult) (a : AdditionalLimit) : FrameResult :=
  match StorageCallStipend.before_frame_return_result last r (storage_call_stipend a) with
  | Some (_, r) => r
  | None => r
  end.

Lemma return_unfold last r a a' r' :
  AdditionalLimit.before_frame_return_result last r a = Some (a', r') →
  within_limit (has_exceeded_limit a) = false →
  (last = true → DataSize.has_active_frame (data_size a) = true) →
  let v := has_exceeded_limit a in
  if exceeded_limit v then
    if is_frame_local v then
      has_exceeded_limit a' = WithinLimit ∧
      r' = fr_map (λ i, mkInterpreterResult Revert (revert_data v) (ir_gas i)) (burnt_result last r a)
    else
      has_exceeded_limit a' = v ∧
      r' = mark_frame_result_as_exceeding_limit OutOfGas [] (burnt_result last r a)
  else has_exceeded_limit a' = v ∧ r' = burnt_result last r a.
Proof.
  intros H Hw Hd v. unfold AdditionalLimit.before_frame_return_result in H.
  assert (Hdup : last && negb (DataSize.has_active_frame (data_size a)) = false).
  { destruct last; [by rewrite Hd|done]. }
  rewrite Hdup in H. clear Hdup. do 5 bind_inv H.
  rewrite check_limit_latched in H by done. simpl in H. fold v in H.
  unfold burnt_result. simpl in E3. rewrite E3.
  destruct (exceeded_limit v); simpl in H; [|by simplify_eq].
  destruct (is_frame_local v); by simplify_eq.
Qed.
End returns.

(** How a frame that exceeded a limit returns.  A frame-local exceed becomes a [Revert]
    that carries the dimension and the frame's limit, keeps the gas the frame had left, and
    clears the verdict, so the caller goes on; a transaction-level exceed becomes [OutOfGas]
    with empty output and stays latched; an exempt transaction's result is left alone. *)
Lemma exceeded_frame_return `{R : Revm, RS : RevmState} last r (a a' : AdditionalLimit) r' :
  AdditionalLimit.before_frame_return_result last r a = Some (a', r') →
  (last = true → DataSize.has_active_frame (data_size a) = true) →
  match has_exceeded_limit a with
  | ExceedsLimit kind limit _ true =>
      has_exceeded_limit a' = WithinLimit ∧ fr_instruction_result r' = Revert ∧
      ir_output (fr_interpreter_result r') = abi_encode_limit_exceeded (as_u8 kind) limit ∧
      fr_gas r' = fr_gas (burnt_result last r a)
  | ExceedsLimit _ _ _ false =>
      has_exceeded_limit a' = has_exceeded_limit a ∧ fr_instruction_result r' = OutOfGas ∧
      ir_output (fr_interpreter_result r') = [] ∧ fr_gas r' = fr_gas (burnt_result last r a)
  | Exempt => has_exceeded_limit a' = Exempt ∧ r' = burnt_result last r a
  | WithinLimit => True
  end.
Proof.
  intros H Hd. pose proof (return_unfold last r a a' r' H) as Hu.
  destruct (has_exceeded_limit a) as [|k l u []|] eqn:E; [done|..];
    specialize (Hu eq_refl Hd); simpl in Hu; destruct Hu as [Hv ->]; try done;
    rewrite Hv; by destruct (burnt_result last r a).
Qed.

(** * The storage stipend *)

(** The Rex4 stipend never becomes the caller's gas.  When the granted callee returns,
    what it gives back is at most the gas its caller forwarded, and exactly what it has left
    when that is within the forwarded gas. *)
Lemma rex4_stipend_burnt `{R : Revm} {RL : RevmLaws R} fi cg (t t' : StorageCallStipendTracker)
    fi' cg' inputs inputs' r t'' r' :
  st_rex5_enabled t = false → in_u64 (st_stipend_amount t) →
  detect_grant fi t = true →
  StorageCallStipend.before_frame_init fi cg t = (t', fi', cg') →
  fi_frame_input fi = FrameInputCall inputs → in_u64 (ci_gas_limit inputs) →
  fi_frame_input fi' = FrameInputCall inputs' →
  gas_limit (fr_gas r) = ci_gas_limit inputs' →
  0 ≤ gas_remaining (fr_gas r) ≤ gas_limit (fr_gas r) →
  StorageCallStipend.before_frame_return_result false r t' = Some (t'', r') →
  t'' = t ∧ gas_remaining (fr_gas r') ≤ ci_gas_limit inputs ∧
  (ci_gas_limit inputs + st_stipend_amount t ≤ u64_max →
   gas_remaining (fr_gas r') = Z.min (gas_remaining (fr_gas r)) (ci_gas_limit inputs)).
Proof.
  intros H5 Ha Hg Hi Hc Hgl Hc' Hlim Hrem Hret.
  unfold StorageCallStipend.before_frame_init in Hi. rewrite Hg, H5, Hc in Hi. simpl in Hi.
  simplify_eq. simpl in Hc'. injection Hc' as <-. simpl in Hlim.
  unfold StorageCallStipend.before_frame_return_result in Hret. simpl in Hret. rewrite H5 in Hret.
  assert (Ht : with_stack (push t (mkStipendFrame (st_stipend_amount t) true)) (st_stack t) = t)
    by (by destruct t).
  rewrite Ht in Hret.
  set (burn := sat_sub _ _) in Hret.
  destruct (Z.ltb_spec 0 burn); simplify_eq; (split; [done|]).
  - assert (Hb : gas_remaining (fr_gas (fr_set_gas (fst (gas_record_cost (fr_gas r) burn)) r)) =
                 gas_remaining (fr_gas r) - burn).
    { transitivity (gas_remaining (fst (gas_record_cost (fr_gas r) burn))); [by destruct r|].
      apply gas_record_cost_ok. unfold burn, sat_sub in *. lia. }
    rewrite Hb. unfold burn in *. u64_lia.
  - unfold burn in *. u64_lia.
Qed.

Section allowance.
Implicit Types t : StorageCallStipendTracker.

(** A sequence of storage charges; the total drawn from the allowance. *)
Fixpoint consume_all (amounts : list Z) t : StorageCallStipendTracker * Z :=
  match amounts with
  | [] => (t, 0)
  | n :: amounts =>
      let '(t, d) := try_consume n t in
      let '(t, ds) := consume_all amounts t in (t, d + ds)
  end.

Lemma consume_all_total amounts t rem fl rest :
  st_rex5_enabled t = true → st_stack t = mkStipendFrame rem fl :: rest → in_u64 rem →
  Forall (λ n, 0 ≤ n) amounts →
  let total := Z.min rem (sumZ id amounts) in
  consume_all amounts t = (with_stack t (mkStipendFrame (rem - total) fl :: rest), total).
Proof.
  revert t rem. induction amounts as [|n amounts IH]; intros t rem H5 Hs Hr Hn; simpl.
  { rewrite sumZ_nil. destruct t as [am r5 st]; simpl in *. subst. unfold with_stack; simpl.
    rewrite Z.min_r, Z.sub_0_r by u64_lia. done. }
  apply Forall_cons in Hn as [Hn Hns].
  assert (0 ≤ sumZ id amounts) by (apply sumZ_nonneg; done).
  unfold try_consume. rewrite H5, Hs. simpl.
  rewrite wsub_small by u64_lia.
  rewrite (IH _ (rem - Z.min rem n)); simpl; [|done|done|u64_lia|done].
  rewrite sumZ_cons. change (id n) with n. set (d := Z.min rem n).
  set (ds := Z.min (rem - d) (sumZ id amounts)).
  assert (Z.min rem (n + sumZ id amounts) = d + ds) as -> by lia.
  unfold with_stack; simpl. by rewrite Z.sub_add_distr.
Qed.
End allowance.

(** The Rex5 stipend is an allowance beside the gas.  Granting it changes neither the
    callee's gas limit nor its compute budget, and however the storage charges are split,
    they draw from it exactly the smaller of the grant and their sum. *)
Lemma rex5_stipend_allowance fi cg (t t' : StorageCallStipendTracker) fi' cg' amounts :
  st_rex5_enabled t = true → in_u64 (st_stipend_amount t) →
  detect_grant fi t = true → Forall (λ n, 0 ≤ n) amounts →
  StorageCallStipend.before_frame_init fi cg t = (t', fi', cg') →
  fi' = fi ∧ cg' = cg ∧
  snd (consume_all amounts t') = Z.min (st_stipend_amount t) (sumZ id amounts) ∧
  current_frame_stipend (fst (consume_all amounts t')) =
    st_stipend_amount t - Z.min (st_stipend_amount t) (sumZ id amounts).
Proof.
  intros H5 Ha Hg Hn Hi. unfold StorageCallStipend.before_frame_init in Hi.
  rewrite Hg, H5 in Hi. simpl in Hi. simplify_eq.
  rewrite (consume_all_total amounts _ (st_stipend_amount t) false (st_stack t)); done.
Qed.

(** * Gas detention *)

Section detention.
Implicit Types t : ComputeGasTracker.

(** What happens to the compute-gas tracker during a transaction. *)
Inductive compute_step t : ComputeGasTracker → Prop :=
  | cs_record g : compute_step t (record_gas_used g t)
  | cs_merge g : compute_step t (ComputeGas.merge_persistent_usage g t)
  | cs_push t' : ComputeGas.push_frame t = Some t' → compute_step t t'
  | cs_pop b :
      compute_step t (ComputeGas.with_frame_tracker t (fst (pop_frame b (cg_frame_tracker t))))
  | cs_cap cap : compute_step t (cap_current_frame_limit cap t)
  | cs_detain cap : 0 ≤ cap → compute_step t (set_detained_limit cap t).

Lemma limit_frame_step t f :
  step (cg_frame_tracker t) f →
  ComputeGas.tx_limit (ComputeGas.with_frame_tracker t f) = ComputeGas.tx_limit t.
Proof. intros Hs. unfold ComputeGas.tx_limit. simpl. by rewrite (tx_limit_step _ _ Hs). Qed.

Lemma compute_step_limit t t' : compute_step t t' → ComputeGas.tx_limit t' ≤ ComputeGas.tx_limit t.
Proof.
  destruct 1 as [g|g|t' H|b|cap|cap].
  - unfold record_gas_used. pose proof (step_persistent (cg_frame_tracker t) g) as Hs.
    unfold add_frame_persistent in *. destruct (frame_stack _); simpl in *; rewrite limit_frame_step;
      try done. apply step_tx_persistent.
  - unfold ComputeGas.merge_persistent_usage. rewrite limit_frame_step; [done|constructor].
  - unfold ComputeGas.push_frame in H. destruct (cg_rex4_enabled t).
    + bind_inv H. simplify_eq. rewrite limit_frame_step; [done|by econstructor].
    + simplify_eq. by rewrite limit_frame_step by (apply step_push_limit, in_u64_max).
  - rewrite limit_frame_step; [done|constructor].
  - unfold ComputeGas.tx_limit, cap_current_frame_limit, frame_mut, FrameLimit.tx_limit. simpl.
    by destruct (frame_stack _).
  - unfold ComputeGas.tx_limit. simpl. lia.
Qed.

Lemma compute_steps_limit t t' :
  rtc compute_step t t' → ComputeGas.tx_limit t' ≤ ComputeGas.tx_limit t.
Proof. induction 1 as [|t1 t2 t3 Hs _ IH]; [lia|]. apply compute_step_limit in Hs. lia. Qed.

Lemma check_within_usage t c :
  ComputeGas.check_limit t = Some c → exceeded_limit c = false →
  ComputeGas.tx_usage t ≤ ComputeGas.tx_limit t.
Proof.
  unfold ComputeGas.check_limit, ComputeGas.check_tx_limit.
  destruct (Z.ltb_spec (ComputeGas.tx_limit t) (ComputeGas.tx_usage t)); [|done]. intros H' Hc.
  destruct (cg_rex4_enabled t); [bind_inv H'; destruct (exceeded_limit x) eqn:Ex|];
    injection H' as <-; simpl in Hc; congruence.
Qed.
End detention.

(** C13: gas detention.  Once volatile data has been accessed with cap [cap], every later
    state of the transaction that passes the compute-gas check has used, from Rex4 on, at
    most [cap] more than at the access, and before Rex4 at most [cap] in total; later
    accesses, frames and merges never raise that bound or the transaction's limit. *)
Theorem detention_bounds_compute (t0 t : ComputeGasTracker) cap c :
  0 ≤ cap → rtc compute_step (set_detained_limit cap t0) t →
  ComputeGas.check_limit t = Some c → exceeded_limit c = false →
  ComputeGas.tx_usage t ≤ (if cg_rex4_enabled t0 then ComputeGas.tx_usage t0 + cap else cap) ∧
  ComputeGas.tx_usage t ≤ ComputeGas.tx_limit t0.
Proof.
  intros Hcap Hr Hc Hx. pose proof (check_within_usage t c Hc Hx) as Hu.
  apply compute_steps_limit in Hr.
  assert (Hd : ComputeGas.tx_limit (set_detained_limit cap t0) ≤ ComputeGas.tx_limit t0).
  { apply compute_step_limit. by constructor. }
  assert (ComputeGas.tx_limit (set_detained_limit cap t0) ≤
          (if cg_rex4_enabled t0 then ComputeGas.tx_usage t0 + cap else cap)).
  { unfold ComputeGas.tx_limit, set_detained_limit. simpl. case_bools; unfold sat_add; lia. }
  lia.
Qed.

(** * The compute budget reported to contracts *)

Section exact.
Implicit Types (t : ComputeGasTracker) (f : FrameLimitTracker unit).

Definition current_entry_refund f : Z :=
  match frame_stack f with e :: _ => fle_refund e | [] => fle_refund (tx_entry f) end.
Definition current_entry_total f : Z :=
  match frame_stack f with e :: _ => entry_total e | [] => entry_total (tx_entry f) end.
Definition current_entry_limit f : Z :=
  match frame_stack f with e :: _ => fle_limit e | [] => fle_limit (tx_entry f) end.

(** A compute-gas tracker records no refunds, and its counters have not wrapped. *)
Definition exact_state f : Prop :=
  tracker_inv f ∧ current_entry_refund f = 0 ∧ cached_total_refund f = 0 ∧ total_used f ≤ u64_max.

Lemma exact_usage f : exact_state f → net_usage f = total_used f ∧ in_u64 (total_used f).
Proof.
  intros ([(Htx & Hs & Hu & Hr) [Hcu _]] & _ & Hr0 & Hle).
  assert (Ht : in_u64 (total_used f)).
  { split; [|done]. unfold total_used. destruct Htx as (?&?&?&?).
    pose proof (sumZ_nonneg entry_total _ (entry_total_nonneg _ Hs)).
    unfold entry_total at 1. u64_lia. }
  split; [|done]. unfold net_usage. rewrite Hr0, (cong64_eq _ _ Hu Ht Hcu). u64_lia.
Qed.

Lemma current_entry_bounds f :
  exact_state f → 0 ≤ current_entry_total f ≤ total_used f ∧ 0 ≤ current_entry_limit f.
Proof.
  intros ([(Htx & Hs & _ & _) _] & _). unfold current_entry_total, current_entry_limit, total_used.
  destruct Htx as (?&?&?&?).
  destruct (frame_stack f) as [|e s]; rewrite ?sumZ_cons, ?sumZ_nil.
  { unfold entry_total. u64_lia. }
  apply Forall_cons in Hs as [(?&?&?&?) Hs].
  pose proof (sumZ_nonneg entry_total _ (entry_total_nonneg _ Hs)). unfold entry_total at 1 2 3 4.
  u64_lia.
Qed.

Lemma exact_check t :
  exact_state (cg_frame_tracker t) →
  let f := cg_frame_tracker t in
  exceeded_limit <$> ComputeGas.check_limit t =
    Some ((cg_rex4_enabled t && FrameLimit.has_active_frame f &&
           (current_entry_limit f <? current_entry_total f)) ||
          (ComputeGas.tx_limit t <? total_used f)).
Proof.
  intros Hx f. pose proof (exact_usage f Hx) as [Hn _]. pose proof (current_entry_bounds f Hx) as [Hb _].
  unfold ComputeGas.check_limit, ComputeGas.check_tx_limit, ComputeGas.tx_usage. fold f. rewrite Hn.
  assert (Htx : exceeded_limit (if ComputeGas.tx_limit t <? total_used f
                 then ExceedsLimit ComputeGas (ComputeGas.tx_limit t) (total_used f) false
                 else WithinLimit) = (ComputeGas.tx_limit t <? total_used f)) by (by case_bools).
  destruct (cg_rex4_enabled t); simpl; [|by rewrite Htx].
  destruct Hx as (_ & Hr0 & _ & Hle). fold f in Hr0, Hle.
  unfold exceeds_current_frame_limit, current_entry_total, current_entry_limit,
    current_entry_refund, FrameLimit.has_active_frame in *.
  destruct (frame_stack f) as [|e s]; simpl; [by rewrite Htx|].
  rewrite used_Some by lia. simpl. rewrite Hr0.
  assert (sat_sub (entry_total e) 0 = entry_total e) as -> by (unfold sat_sub; lia).
  destruct (fle_limit e <? entry_total e); simpl; [done|by rewrite Htx].
Qed.

Lemma exact_remaining t :
  exact_state (cg_frame_tracker t) →
  let f := cg_frame_tracker t in
  let tx_remaining := sat_sub (ComputeGas.tx_limit t) (total_used f) in
  ComputeGas.current_call_remaining t =
    Some (if cg_rex4_enabled t
          then Z.min (sat_sub (current_entry_limit f) (current_entry_total f)) tx_remaining
          else tx_remaining).
Proof.
  intros Hx f. pose proof (exact_usage f Hx) as [Hn _]. pose proof (current_entry_bounds f Hx) as [Hb _].
  unfold ComputeGas.current_call_remaining, ComputeGas.tx_usage. fold f. rewrite Hn. simpl.
  destruct (cg_rex4_enabled t); [|done].
  destruct Hx as (_ & Hr0 & _ & Hle). fold f in Hr0, Hle.
  unfold current_frame_remaining, current_entry_total, current_entry_limit,
    current_entry_refund, remaining, used in *.
  destruct (frame_stack f) as [|e s]; rewrite checked_add_Some by (unfold entry_total in *; lia);
    simpl; rewrite Hr0; unfold entry_total, sat_sub in *; do 2 f_equal; lia.
Qed.

Lemma exact_record n t :
  exact_state (cg_frame_tracker t) → 0 ≤ n → total_used (cg_frame_tracker t) + n ≤ u64_max →
  let f := cg_frame_tracker t in
  let f' := cg_frame_tracker (record_gas_used n t) in
  exact_state f' ∧ total_used f' = total_used f + n ∧
  current_entry_total f' = current_entry_total f + n ∧
  current_entry_limit f' = current_entry_limit f ∧ FrameLimit.has_active_frame f' = FrameLimit.has_active_frame f ∧
  ComputeGas.tx_limit (record_gas_used n t) = ComputeGas.tx_limit t ∧
  cg_rex4_enabled (record_gas_used n t) = cg_rex4_enabled t.
Proof.
  intros Hx Hn Hle f f'. pose proof (current_entry_bounds f Hx) as [Hb _].
  assert (Hi : tracker_inv f').
  { destruct Hx as [Hi _]. unfold f', record_gas_used.
    pose proof (step_persistent (cg_frame_tracker t) n) as Hs. unfold add_frame_persistent in *.
    destruct (frame_stack _); simpl in *; (eapply step_inv; [|exact Hi]); auto.
    apply step_tx_persistent. }
  destruct Hx as (Hi0 & Hr0 & Hc0 & _). revert Hi Hb Hle Hr0 Hc0.
  destruct Hi0 as [(Htx & Hs & _) _]. destruct Htx as (?&?&?&?).
  unfold exact_state, f', f, record_gas_used, add_frame_persistent, current_entry_total,
    current_entry_limit, current_entry_refund, total_used, FrameLimit.has_active_frame, ComputeGas.tx_limit,
    FrameLimit.tx_limit.
  destruct (frame_stack (cg_frame_tracker t)) as [|e s] eqn:E; simpl; rewrite ?E;
    simpl; rewrite ?sumZ_cons, ?sumZ_nil; unfold entry_total; simpl; intros Hi Hb Hle Hr0 Hc0.
  - rewrite !wadd_small in * by u64_lia. split_and!; auto; lia.
  - apply Forall_cons in Hs as [(?&?&?&?) Hs].
    pose proof (sumZ_nonneg entry_total _ (entry_total_nonneg _ Hs)).
    assert (fle_persistent e +w n = fle_persistent e + n) as Hw.
    { apply wadd_small. unfold entry_total in *. u64_lia. }
    rewrite Hw. split_and!; auto; lia.
Qed.
End exact.

Lemma remaining_exact (t : ComputeGasTracker) n rem :
  exact_state (cg_frame_tracker t) →
  cg_detained_limit t ≤ FrameLimit.tx_limit (cg_frame_tracker t) →
  0 ≤ n → total_used (cg_frame_tracker t) + n ≤ u64_max →
  exceeded_limit <$> ComputeGas.check_limit t = Some false →
  ComputeGas.current_call_remaining t = Some rem →
  exceeded_limit <$> ComputeGas.check_limit (record_gas_used n t) = Some (negb (n <=? rem)).
Proof.
  intros Hx Hd Hn Hle Hc Hrem. destruct (exact_record n t Hx Hn Hle) as (Hx' & Hu & Ht & Hl & Ha & Hlim & H4).
  rewrite exact_check in Hc by done. rewrite exact_remaining in Hrem by done.
  rewrite exact_check by done. rewrite Hu, Ht, Hl, Ha, Hlim, H4.
  pose proof (current_entry_bounds _ Hx) as [Hb Hb'].
  set (f := cg_frame_tracker t) in *. injection Hrem as <-. injection Hc as Hc.
  f_equal. apply orb_false_iff in Hc as [Hc1 Hc2]. apply Z.ltb_ge in Hc2.
  assert (Hcur : FrameLimit.has_active_frame f = false →
    current_entry_total f = total_used f ∧ ComputeGas.tx_limit t ≤ current_entry_limit f).
  { unfold FrameLimit.has_active_frame, current_entry_total, current_entry_limit, total_used.
    destruct (frame_stack f); [|done]. rewrite sumZ_nil. intros _. split; [lia|].
    unfold ComputeGas.tx_limit, FrameLimit.tx_limit. fold f. lia. }
  destruct (cg_rex4_enabled t), (FrameLimit.has_active_frame f) eqn:Haf; simpl in *;
    try (apply Z.ltb_ge in Hc1); try (destruct (Hcur eq_refl) as [Hcur1 Hcur2]);
    unfold sat_sub;
    repeat match goal with
      | |- context [?x <? ?y] => destruct (Z.ltb_spec x y)
      | |- context [?x <=? ?y] => destruct (Z.leb_spec x y)
      end; simpl in *; auto; lia.
Qed.

(** [current_call_remaining] is exact.  In a state within its limits, recording [n] more
    compute gas passes the check exactly when [n] is at most the reported remaining budget,
    for every spec, at any depth, detained or not. *)
Lemma current_call_remaining_exact (t : ComputeGasTracker) n rem :
  exact_state (cg_frame_tracker t) →
  cg_detained_limit t ≤ FrameLimit.tx_limit (cg_frame_tracker t) →
  0 ≤ n → total_used (cg_frame_tracker t) + n ≤ u64_max →
  exceeded_limit <$> ComputeGas.check_limit t = Some false →
  ComputeGas.current_call_remaining t = Some rem →
  exceeded_limit <$> ComputeGas.check_limit (record_gas_used n t) = Some (negb (n <=? rem)).
Proof. apply remaining_exact. Qed.

(** * Evaluation *)

Definition over_budget_frame : AdditionalLimit :=
  with_check (default fresh_limit (AdditionalLimit.push_empty_frame fresh_limit))
    (ExceedsLimit KVUpdate 2 3 true).

Definition over_budget_return : AdditionalLimit * FrameResult :=
  default (fresh_limit, some_call_result)
    (AdditionalLimit.before_frame_return_result false some_call_result over_budget_frame).

Example over_budget_frame_reverts :
  has_exceeded_limit over_budget_return.1 = WithinLimit ∧
  fr_instruction_result over_budget_return.2 = Revert ∧
  ir_output (fr_interpreter_result over_budget_return.2) = [1; 2] ∧
  fr_gas over_budget_return.2 = gas_new 100.
Proof.
  exact (exceeded_frame_return false some_call_result over_budget_frame over_budget_return.1
           over_budget_return.2 ltac:(vm_compute; reflexivity) ltac:(discriminate)).
Qed.

Definition stipend_call (gas : Z) : FrameInit :=
  mkFrameInit 1 (FrameInputCall (mkCallInputs gas 17 18 SchemeCall true (0, 0) (Some 1) (InputBytes []) 1)).

Definition stipend_result : FrameResult :=
  FrameResultCall (mkInterpreterResult RefStop [] (mkRefGas 28000 20000)) (0, 0).

Definition burnt : FrameResult :=
  FrameResultCall (mkInterpreterResult RefStop [] (mkRefGas 28000 5000)) (0, 0).

Lemma rex4_stipend_burnt_witness :
  StorageCallStipend.new REX4 = StorageCallStipend.new REX4 ∧
  gas_remaining (fr_gas burnt) ≤ 5000 ∧
  (5000 + 23000 ≤ u64_max → gas_remaining (fr_gas burnt) = Z.min 20000 5000).
Proof.
  exact (rex4_stipend_burnt (stipend_call 5000) (ComputeGas.new REX4 1000)
    (StorageCallStipend.new REX4)
    (mkStipend 23000 false [mkStipendFrame 23000 true]) (stipend_call 28000)
    (ComputeGas.new REX4 1000)
    (mkCallInputs 5000 17 18 SchemeCall true (0, 0) (Some 1) (InputBytes []) 1)
    (mkCallInputs 28000 17 18 SchemeCall true (0, 0) (Some 1) (InputBytes []) 1)
    stipend_result (StorageCallStipend.new REX4) burnt
    ltac:(reflexivity) ltac:(vm_compute; intuition discriminate) ltac:(reflexivity)
    ltac:(reflexivity) ltac:(reflexivity) ltac:(vm_compute; intuition discriminate)
    ltac:(reflexivity) ltac:(reflexivity) ltac:(vm_compute; intuition discriminate)
    ltac:(vm_compute; reflexivity)).
Defined.

Lemma rex5_stipend_allowance_witness :
  stipend_call 5000 = stipend_call 5000 ∧ ComputeGas.new REX5 1000 = ComputeGas.new REX5 1000 ∧
  snd (consume_all [20000; 5000; 700] (mkStipend 23000 true [mkStipendFrame 23000 false])) = 23000 ∧
  current_frame_stipend
    (fst (consume_all [20000; 5000; 700] (mkStipend 23000 true [mkStipendFrame 23000 false]))) = 0.
Proof.
  exact (rex5_stipend_allowance (stipend_call 5000) (ComputeGas.new REX5 1000)
    (StorageCallStipend.new REX5) (mkStipend 23000 true [mkStipendFrame 23000 false])
    (stipend_call 5000) (ComputeGas.new REX5 1000) [20000; 5000; 700]
    ltac:(reflexivity) ltac:(vm_compute; intuition discriminate) ltac:(reflexivity)
    ltac:(repeat constructor; discriminate) ltac:(reflexivity)).
Defined.

Definition before_access : ComputeGasTracker := record_gas_used 300 (ComputeGas.new REX4 1000).
Definition after_access : ComputeGasTracker := record_gas_used 40 (set_detained_limit 50 before_access).

Lemma detention_bounds_compute_witness :
  ComputeGas.tx_usage after_access ≤ 300 + 50 ∧ ComputeGas.tx_usage after_access ≤ 1000.
Proof.
  exact (detention_bounds_compute before_access after_access 50 WithinLimit ltac:(discriminate)
    (rtc_once _ _ (cs_record (set_detained_limit 50 before_access) 40))
    ltac:(vm_compute; reflexivity) ltac:(reflexivity)).
Defined.

Lemma before_access_exact : exact_state (cg_frame_tracker after_access).
Proof.
  assert (Hwf : compute_wf after_access).
  { apply record_gas_used_wf, set_detained_limit_wf; [discriminate|]. apply record_gas_used_wf.
    split; [apply tracker_new_inv; u64_lia|]. vm_compute. split; discriminate. }
  split; [exact (proj1 Hwf)|]. split; [reflexivity|]. split; [reflexivity|].
  vm_compute. discriminate.
Defined.

Lemma current_call_remaining_exact_witness :
  exceeded_limit <$> ComputeGas.check_limit (record_gas_used 11 after_access) = Some true.
Proof.
  exact (current_call_remaining_exact after_access 11 10 before_access_exact
    ltac:(vm_compute; discriminate) ltac:(discriminate) ltac:(vm_compute; discriminate)
    ltac:(vm_compute; reflexivity) ltac:(vm_compute; reflexivity)).
Defined.
