(* ===== verification/Dedup.v ===== *)
(** Account-update deduplication (Rex5): a frame's own account is charged once, however many
    value transfers and creations it makes and however many of them revert, in a tree of frames
    that write, transfer and create at every depth; and, at the end, where
    the trackers and their comments part: evaluations on concrete states. *)

From S2P Require Import Prelude Spec Revm LimitCheck FrameLimit FrameLimitFacts Journal.
From S2P Require Import JournalFacts Interfaces KVUpdate.

(** * What a frame does *)

Section dedup.
Context `{R : Revm} `{RS : RevmState} {J} `{HJ : !JournalInspectTr J} (j : J).
Implicit Types t : KVUpdateTracker.
Implicit Types e : FrameLimitEntry CallFrameInfo.

(** What a frame does that the key-value tracker sees: a storage write, an account update (the
    accounting of SELFDESTRUCT), the usage of a sandbox merged into the transaction, and a child
    frame, with its input, the frame that was opened (none if the call was answered without
    one), what that frame did, and its result. *)
Inductive activity : Type :=
  | Sstore (s : SStoreResult)
  | AccountUpdate
  | Merge (n : Z)
  | Child (i : FrameInput) (opened : option EthFrame) (body : list activity) (res : FrameResult).

Fixpoint run_activity (x : activity) t : panics KVUpdateTracker :=
  match x with
  | Sstore s => Some (after_sstore s t)
  | AccountUpdate => Some (record_account_update t)
  | Merge n => Some (merge_persistent_usage n t)
  | Child i opened body res =>
      '(t, _, _) ← before_frame_init (mkFrameInit 1 i) j t;
      t ← match opened with Some f => after_frame_init_on_frame f t | None => Some t end;
      t ← (fix run_all l t :=
             match l with [] => Some t | x :: l => t ← run_activity x t; run_all l t end) body t;
      before_frame_return_result false res t
  end.

Fixpoint run_activities (l : list activity) t : panics KVUpdateTracker :=
  match l with [] => Some t | x :: l => t ← run_activity x t; run_activities l t end.

(** A frame that was opened is of the kind that was asked for, and a creation has an address. *)
Definition opened_ok (i : FrameInput) (opened : option EthFrame) : Prop :=
  match i, opened with
  | FrameInputEmpty, _ => False
  | _, None => True
  | FrameInputCall _, Some f => ef_is_create f = false
  | FrameInputCreate _, Some f => ef_is_create f = true ∧ is_Some (ef_created_address f)
  end.

Fixpoint activity_ok (x : activity) : Prop :=
  match x with
  | Child i opened body _ =>
      opened_ok i opened ∧
      (fix all l := match l with [] => True | x :: l => activity_ok x ∧ all l end) body
  | _ => True
  end.

Fixpoint size (x : activity) : Z :=
  match x with
  | Child _ _ body _ => 1 + (fix all l := match l with [] => 0 | x :: l => size x + all l end) body
  | _ => 1
  end.

(** ** The specification: a count over the tree *)

Definition succeeds (res : FrameResult) : bool := is_ok (fr_instruction_result res).

(** Whether the activity leaves a change of the account of the frame behind: a transfer that
    succeeded, a creation that succeeded, and from Rex6 on also one that failed, whose
    nonce bump stays. *)
Definition touches_caller (rex6 : bool) (x : activity) : bool :=
  match x with
  | Child (FrameInputCall c) _ _ res => ci_transfers_value c && succeeds res
  | Child (FrameInputCreate _) _ _ res => succeeds res || rex6
  | _ => false
  end.

(** The account of a callee that received value, and of a contract whose creation opened a
    frame.  From Rex6 on a transfer of an account to itself has no second account. *)
Definition other_account (rex6 : bool) (i : FrameInput) (opened : option EthFrame) : bool :=
  match i with
  | FrameInputCall c => ci_transfers_value c && negb (rex6 && (ci_target_address c =? ci_caller c))
  | FrameInputCreate _ => match opened with Some _ => true | None => false end
  | FrameInputEmpty => false
  end.

(** Whether the child's own account is counted (or needs no count) when it starts. *)
Definition counted_at_start (i : FrameInput) : bool :=
  match i with FrameInputCall c => ci_transfers_value c | _ => true end.

(** The updates an activity adds to those of its frame, other than that of the frame's own
    account, and the refunds. *)
Fixpoint updates (rex6 : bool) (x : activity) : Z :=
  match x with
  | Sstore s => Z.b2z (is_original_eq_present s && negb (is_original_eq_new s))
  | AccountUpdate => 1
  | Merge _ => 0
  | Child i opened body res =>
      if succeeds res then
        Z.b2z (other_account rex6 i opened) +
        Z.b2z (negb (counted_at_start i) && existsb (touches_caller rex6) body) +
        (fix all l := match l with [] => 0 | x :: l => updates rex6 x + all l end) body
      else 0
  end.

Fixpoint refunds (x : activity) : Z :=
  match x with
  | Sstore s => Z.b2z (negb (is_original_eq_present s) && is_original_eq_new s)
  | Child _ _ body res =>
      if succeeds res
      then (fix all l := match l with [] => 0 | x :: l => refunds x + all l end) body else 0
  | _ => 0
  end.

(** The entry of a frame after a list of activities. *)
Definition after (rex6 : bool) (l : list activity) e : FrameLimitEntry CallFrameInfo :=
  let flag := target_updated (fle_info e) in
  let touched := existsb (touches_caller rex6) l in
  mkEntry (fle_limit e) (fle_persistent e)
    (fle_discardable e + Z.b2z (negb flag && touched) + sumZ (updates rex6) l)
    (fle_refund e + sumZ refunds l)
    (mkInfo (target_address (fle_info e)) (flag || touched) (charged_parent_update (fle_info e))).

(** ** Sums and bounds *)

Lemma activity_ind' (P : activity → Prop) :
  (∀ s, P (Sstore s)) → P AccountUpdate → (∀ n, P (Merge n)) →
  (∀ i opened body res, Forall P body → P (Child i opened body res)) → ∀ x, P x.
Proof.
  intros H1 H2 H3 H4. fix IH 1. intros [s| |n|i opened body res]; [apply H1|apply H2|apply H3|].
  apply H4. induction body as [|x body IHb]; constructor; [apply IH|exact IHb].
Qed.

Lemma updates_child rex6 i opened body res :
  updates rex6 (Child i opened body res) =
    if succeeds res then
      Z.b2z (other_account rex6 i opened) +
      Z.b2z (negb (counted_at_start i) && existsb (touches_caller rex6) body) +
      sumZ (updates rex6) body
    else 0.
Proof. done. Qed.

Lemma refunds_child i opened body res :
  refunds (Child i opened body res) = if succeeds res then sumZ refunds body else 0.
Proof. done. Qed.

Lemma size_child i opened body res : size (Child i opened body res) = 1 + sumZ size body.
Proof. done. Qed.

Lemma run_child_unfold i opened body res t :
  run_activity (Child i opened body res) t =
    ('(t, _, _) ← before_frame_init (mkFrameInit 1 i) j t;
     t ← match opened with Some f => after_frame_init_on_frame f t | None => Some t end;
     t ← run_activities body t; before_frame_return_result false res t).
Proof. done. Qed.

Lemma activity_ok_child i opened body res :
  activity_ok (Child i opened body res) → opened_ok i opened ∧ Forall activity_ok body.
Proof.
  intros [Ho Hb]. split; [exact Ho|]. induction body as [|x body IH]; [constructor|].
  destruct Hb. constructor; auto.
Qed.

Lemma b2z_bound b : 0 ≤ Z.b2z b ≤ 1.
Proof. destruct b; simpl; lia. Qed.

(** What an activity can add, against its size. *)
Definition bounded (rex6 : bool) (x : activity) : Prop :=
  1 ≤ size x ∧ 0 ≤ refunds x ≤ size x ∧ 0 ≤ updates rex6 x ∧
  updates rex6 x + Z.b2z (touches_caller rex6 x) ≤ 2 * size x.

Lemma bounded_sum rex6 l :
  Forall (bounded rex6) l →
  0 ≤ sumZ size l ∧ 0 ≤ sumZ refunds l ≤ sumZ size l ∧ 0 ≤ sumZ (updates rex6) l ∧
  sumZ (updates rex6) l + Z.b2z (existsb (touches_caller rex6) l) ≤ 2 * sumZ size l.
Proof.
  induction 1 as [|x l (H1 & H2 & H3 & H4) _ IH]; [unfold sumZ; simpl; lia|].
  rewrite !sumZ_cons. simpl. destruct (touches_caller rex6 x); simpl in *; [|lia].
  pose proof (b2z_bound (existsb (touches_caller rex6) l)). lia.
Qed.

Lemma activity_bounded rex6 x : bounded rex6 x.
Proof.
  induction x as [s| |n|i opened body res IH] using activity_ind'; unfold bounded.
  - simpl. pose proof (b2z_bound (is_original_eq_present s && negb (is_original_eq_new s))).
    pose proof (b2z_bound (negb (is_original_eq_present s) && is_original_eq_new s)). lia.
  - simpl. lia.
  - simpl. lia.
  - apply bounded_sum in IH as (H1 & H2 & H3 & H4).
    rewrite updates_child, refunds_child, size_child.
    pose proof (b2z_bound (touches_caller rex6 (Child i opened body res))).
    destruct (succeeds res); [|lia].
    pose proof (b2z_bound (other_account rex6 i opened)).
    pose proof (b2z_bound (existsb (touches_caller rex6) body)).
    destruct (counted_at_start i); cbn [negb andb Z.b2z]; lia.
Qed.

Lemma activities_bounded rex6 l :
  0 ≤ sumZ size l ∧ 0 ≤ sumZ refunds l ≤ sumZ size l ∧ 0 ≤ sumZ (updates rex6) l ∧
  sumZ (updates rex6) l + Z.b2z (existsb (touches_caller rex6) l) ≤ 2 * sumZ size l.
Proof. apply bounded_sum, Forall_forall. intros x _. apply activity_bounded. Qed.

(** ** The tracker *)

(** The tracker is at Rex5 or later, consistently in both layers. *)
Definition rex5_tracker t : Prop :=
  flt_rex4_enabled (kv_frame_tracker t) = true ∧ flt_rex5_enabled (kv_frame_tracker t) = true ∧
  flt_rex6_enabled (kv_frame_tracker t) = kv_rex6_enabled t.

(** An entry whose counters do not wrap while activities of total size [n] run. *)
Definition room (n : Z) e : Prop :=
  (0 ≤ fle_persistent e ∧ 0 ≤ fle_discardable e ∧ 0 ≤ fle_refund e) ∧
  entry_total e + 2 * n ≤ u64_max ∧ fle_refund e + n ≤ u64_max.

(** [t'] is [t] with another entry of the current frame. *)
Definition moves_to t t' e' rest : Prop :=
  rex5_tracker t' ∧ kv_rex6_enabled t' = kv_rex6_enabled t ∧
  frame_stack (kv_frame_tracker t') = e' :: rest.

Lemma after_nil rex6 e : after rex6 [] e = e.
Proof.
  destruct e as [? ? ? ? []]. unfold after, sumZ. simpl. rewrite andb_false_r, orb_false_r. simpl.
  by rewrite !Z.add_0_r.
Qed.

Lemma after_cons rex6 x l e : after rex6 (x :: l) e = after rex6 l (after rex6 [x] e).
Proof.
  destruct e as [? ? d r [ta flag cp]]. unfold after. simpl. rewrite !sumZ_cons, !sumZ_nil. f_equal.
  - destruct flag, (touches_caller rex6 x), (existsb _ l); simpl; lia.
  - lia.
  - f_equal. rewrite orb_false_r. by rewrite orb_assoc.
Qed.

Lemma room_mono m n e : room n e → m ≤ n → room m e.
Proof. intros (? & ? & ?) Hle. split; [done|]. lia. Qed.

Lemma room_after n rex6 l e : room (sumZ size l + n) e → 0 ≤ n → room n (after rex6 l e).
Proof.
  intros ((?&?&?) & Hle & Hr) Hn. destruct (activities_bounded rex6 l) as (B1 & B2 & B3 & B4).
  unfold room, entry_total, after in *. simpl.
  assert (Hb : 0 ≤ Z.b2z (negb (target_updated (fle_info e)) && existsb (touches_caller rex6) l) ≤
    Z.b2z (existsb (touches_caller rex6) l)).
  { destruct (target_updated _), (existsb _ l); simpl; lia. }
  split_and!; u64_lia.
Qed.

Lemma sstore_moves s t e rest :
  rex5_tracker t → frame_stack (kv_frame_tracker t) = e :: rest → room 1 e →
  moves_to t (after_sstore s t) (after (kv_rex6_enabled t) [Sstore s] e) rest.
Proof.
  intros H5 Hs ((?&?&?) & Hle & Hr). unfold entry_total in *.
  destruct t as [r4 r6 [tx st f4 f5 f6 cu cr]]. destruct e as [l p d r [ta tu cp]].
  unfold moves_to, after_sstore, after, record_discardable, record_refund, add_frame_discardable,
    add_frame_refund. simpl in *. subst st. rewrite !sumZ_cons, !sumZ_nil, andb_false_r, orb_false_r. simpl.
  destruct (is_original_eq_present s), (is_original_eq_new s); simpl; (split; [exact H5|]);
    (split; [done|]); unfold add_discardable, add_refund; simpl;
    rewrite ?wadd_small by u64_lia; do 2 f_equal; lia.
Qed.

Lemma account_update_moves t e rest :
  rex5_tracker t → frame_stack (kv_frame_tracker t) = e :: rest → room 1 e →
  moves_to t (record_account_update t) (after (kv_rex6_enabled t) [AccountUpdate] e) rest.
Proof.
  intros H5 Hs ((?&?&?) & Hle & Hr). unfold entry_total in *.
  destruct t as [r4 r6 [tx st f4 f5 f6 cu cr]]. destruct e as [l p d r [ta tu cp]].
  unfold moves_to, record_account_update, after, record_discardable, add_frame_discardable. simpl in *.
  subst st. rewrite !sumZ_cons, !sumZ_nil, andb_false_r, orb_false_r. simpl. split; [exact H5|].
  split; [done|]. unfold add_discardable. simpl. rewrite wadd_small by u64_lia. do 2 f_equal; lia.
Qed.

(** ** A child *)

Definition is_create_input (i : FrameInput) : bool :=
  match i with FrameInputCreate _ => true | _ => false end.

(** Whether opening the child claims the update of its caller's account; the charge goes to the
    child's lane, except for a creation from Rex6 on. *)
Definition claims (i : FrameInput) e : bool :=
  counted_at_start i && negb (target_updated (fle_info e)).
Definition claim_in_child (rex6 : bool) (i : FrameInput) e : bool :=
  claims i e && negb (is_create_input i && rex6).

Definition claimed_parent (rex6 : bool) (i : FrameInput) e : FrameLimitEntry CallFrameInfo :=
  mkEntry (fle_limit e) (fle_persistent e)
    (fle_discardable e + Z.b2z (claims i e && is_create_input i && rex6)) (fle_refund e)
    (mkInfo (target_address (fle_info e)) (target_updated (fle_info e) || counted_at_start i)
       (charged_parent_update (fle_info e))).

Definition opened_child (limit : Z) ta (rex6 : bool) (i : FrameInput) (opened : option EthFrame) e
    : FrameLimitEntry CallFrameInfo :=
  mkEntry limit 0 (Z.b2z (claim_in_child rex6 i e) + Z.b2z (other_account rex6 i opened)) 0
    (mkInfo ta (counted_at_start i) (claim_in_child rex6 i e)).

(** Equality of two entries whose counters do not wrap. *)
Ltac entry_eq :=
  f_equal; f_equal;
  repeat (progress (change (0 +w 1) with 1; change (1 +w 1) with 2; change (0 +w 0) with 0));
  first [reflexivity | lia | rewrite ?wadd_assoc, wadd_small by u64_lia; lia].

Lemma child_opens i opened t e rest :
  rex5_tracker t → frame_stack (kv_frame_tracker t) = e :: rest → room 1 e → opened_ok i opened →
  ∃ t1 limit ta,
    ('(t, _, _) ← before_frame_init (mkFrameInit 1 i) j t;
     match opened with Some f => after_frame_init_on_frame f t | None => Some t end) = Some t1 ∧
    moves_to t t1 (opened_child limit ta (kv_rex6_enabled t) i opened e)
      (claimed_parent (kv_rex6_enabled t) i e :: rest).
Proof.
  intros (H4 & H5 & H6) Hs ((?&?&?) & Hle & _) Ho. unfold entry_total in *.
  destruct t as [r4 r6 [tx st f4 f5 f6 cu cr]]. destruct e as [l p d r [ta tu cp]].
  unfold moves_to, opened_child, claimed_parent, claim_in_child, claims, rex5_tracker.
  destruct i as [i|i|]; simpl in *; simplify_eq; [| |done].
  all: unfold before_frame_init, after_frame_init_on_frame, push_call_frame, push_create_frame,
    claim_parent_update, push_call_frame_info, FrameLimit.push_frame, max_forward_limit, remaining; simpl.
  - destruct (ci_transfers_value i); simpl.
    + destruct tu; simpl; unfold used; simpl; rewrite checked_add_Some by u64_lia; simpl;
      destruct (r6 && (ci_target_address i =? ci_caller i)); simpl;
      (destruct opened as [f|]; [rewrite Ho|]); simpl; (do 3 eexists; split; [reflexivity|]); simpl;
      (split; [done|]); (split; [done|]); unfold set_target_updated, set_info, add_discardable; simpl;
      rewrite ?Z.add_0_r; reflexivity.
    + unfold used; simpl; rewrite checked_add_Some by u64_lia; simpl.
      (destruct opened as [f|]; [rewrite Ho|]); simpl; (do 3 eexists; split; [reflexivity|]); simpl;
      (split; [done|]); (split; [done|]); rewrite ?Z.add_0_r, ?orb_false_r; reflexivity.
  - destruct tu; simpl; unfold used; simpl; rewrite checked_add_Some by u64_lia; simpl;
    destruct r6; simpl;
    (destruct opened as [f|]; [destruct Ho as [-> [a ->]]|]); simpl;
    (do 3 eexists; split; [reflexivity|]); simpl; (split; [done|]); (split; [done|]);
    unfold set_target_updated, set_info, add_discardable; simpl; rewrite ?Z.add_0_r;
    rewrite ?wadd_small by u64_lia; reflexivity.
Qed.

Lemma child_closes i opened body res t1 limit ta rex6 e rest :
  rex5_tracker t1 → kv_rex6_enabled t1 = rex6 → room (size (Child i opened body res)) e →
  i ≠ FrameInputEmpty →
  frame_stack (kv_frame_tracker t1) =
    after rex6 body (opened_child limit ta rex6 i opened e) :: claimed_parent rex6 i e :: rest →
  ∃ t', before_frame_return_result false res t1 = Some t' ∧
    moves_to t1 t' (after rex6 [Child i opened body res] e) rest.
Proof.
  intros H5 H6 Hroom Hi Hs. destruct (activities_bounded rex6 body) as (B1 & B2 & B3 & B4).
  destruct Hroom as ((?&?&?) & Hle & Hr). rewrite size_child in *. unfold entry_total in *.
  unfold before_frame_return_result, FrameLimit.has_active_frame, pop_frame_unwind_parent, pop_frame.
  destruct t1 as [r4 r6 [tx st f4 f5 f6 cu cr]]. simpl in *. subst st r6. simpl.
  unfold moves_to, claimed_parent, opened_child, after, claim_in_child, claims. simpl.
  rewrite !sumZ_cons, !sumZ_nil, updates_child, refunds_child. fold (succeeds res).
  destruct e as [l p d r [ta' tu cp]]. simpl in *. set (body_touched := existsb _ body) in *.
  pose proof (b2z_bound (other_account rex6 i opened)). pose proof (b2z_bound body_touched).
  destruct i as [c|c|]; [| |done]; simpl in *.
  - destruct (ci_transfers_value c), tu, (succeeds res); simpl in *;
      (eexists; split; [reflexivity|]); simpl; (split; [exact H5|]); (split; [done|]);
      unfold add_refund, add_discardable, add_persistent, frame_mut, set_target_updated, set_info;
      simpl; repeat rewrite wadd_small by u64_lia; do 2 f_equal; lia.
  - destruct tu, rex6, (succeeds res); simpl in *;
      (eexists; split; [reflexivity|]); simpl; (split; [exact H5|]); (split; [done|]);
      unfold add_refund, add_discardable, add_persistent, frame_mut, set_target_updated, set_info;
      simpl; repeat rewrite wadd_small by u64_lia; do 2 f_equal; lia.
Qed.

(** ** The tree *)

(** The activity runs, and does to the entry of its frame what the count says. *)
Definition activity_spec (x : activity) : Prop := ∀ t e rest,
  activity_ok x → rex5_tracker t → frame_stack (kv_frame_tracker t) = e :: rest →
  room (size x) e →
  ∃ t', run_activity x t = Some t' ∧ moves_to t t' (after (kv_rex6_enabled t) [x] e) rest.

Lemma run_list l t e rest :
  Forall activity_spec l → Forall activity_ok l → rex5_tracker t →
  frame_stack (kv_frame_tracker t) = e :: rest → room (sumZ size l) e →
  ∃ t', run_activities l t = Some t' ∧ moves_to t t' (after (kv_rex6_enabled t) l e) rest.
Proof.
  intros Hl. revert t e. induction Hl as [|x l Hx _ IH]; intros t e Hok H5 Hs Hroom.
  { exists t. rewrite after_nil. by split_and!. }
  apply Forall_cons in Hok as [Hokx Hok]. rewrite sumZ_cons in Hroom.
  destruct (activities_bounded (kv_rex6_enabled t) l) as (B1 & _).
  assert (Hx1 : sumZ size [x] = size x) by (rewrite sumZ_cons, sumZ_nil; lia).
  assert (Hrx : room (size x) e) by (eapply room_mono; [exact Hroom|lia]).
  destruct (Hx t e rest Hokx H5 Hs Hrx) as (t1 & Hr & H51 & H6 & Hs1). simpl. rewrite Hr. simpl.
  destruct (IH t1 _ Hok H51 Hs1) as (t' & Hr' & H5' & H6' & Hs').
  { apply room_after; [by rewrite Hx1|done]. }
  exists t'. split; [done|]. rewrite after_cons. rewrite H6 in Hs'.
  split; [done|]. split; [congruence|done].
Qed.

Lemma activity_runs x : activity_spec x.
Proof.
  induction x as [s| |n|i opened body res IH] using activity_ind'; intros t e rest Hok H5 Hs Hroom.
  - eexists. split; [done|]. by apply sstore_moves.
  - eexists. split; [done|]. by apply account_update_moves.
  - eexists. split; [done|]. unfold moves_to, after. simpl. rewrite !sumZ_cons, !sumZ_nil. simpl.
    split_and!; [exact H5|done|]. rewrite Hs, andb_false_r, orb_false_r. simpl. rewrite !Z.add_0_r.
    by destruct e as [? ? ? ? []].
  - apply activity_ok_child in Hok as [Ho Hb].
    destruct (activities_bounded (kv_rex6_enabled t) body) as (B1 & _).
    assert (Hr1 : room 1 e) by (eapply room_mono; [exact Hroom|rewrite size_child; lia]).
    destruct (child_opens i opened t e rest H5 Hs Hr1 Ho) as (t1 & limit & ta & Hop & H51 & H61 & Hs1).
    destruct (run_list body t1 _ _ IH Hb H51 Hs1) as (t2 & Hrun & H52 & H62 & Hs2).
    { rewrite size_child in Hroom. destruct Hroom as (_ & Hle & _).
      assert (0 ≤ entry_total e ∧ 0 ≤ fle_refund e) as [??] by (destruct Hr1 as ((?&?&?) & _); unfold entry_total; u64_lia).
      pose proof (b2z_bound (claim_in_child (kv_rex6_enabled t) i e)).
      pose proof (b2z_bound (other_account (kv_rex6_enabled t) i opened)).
      unfold room, entry_total, opened_child in *. simpl. split_and!; u64_lia. }
    rewrite H61 in Hs2.
    destruct (child_closes i opened body res t2 limit ta (kv_rex6_enabled t) e rest H52
      (eq_trans H62 H61) Hroom) as (t' & Hcl & H5' & H6' & Hs'); [by destruct i|done|].
    exists t'. split; [|split_and!; [done|congruence|done]].
    rewrite run_child_unfold. destruct (before_frame_init _ j t) as [[[t0 ?] ?]|]; [|done].
    simpl in Hop |- *. rewrite Hop. simpl. by rewrite Hrun.
Qed.
End dedup.

(** C15: from Rex5 on, the account of a frame is charged exactly once.  Whatever a frame does,
    with children to any depth that write storage, destroy themselves, transfer, create, succeed
    or revert, the key-value updates of the frame are those it had and:
    its storage writes and account updates; one for its own account, if it was not counted when
    the frame started and some child left a change of it behind (a transfer or creation that
    succeeded, from Rex6 on also a creation that failed); and for every child that succeeded one
    for the account that received value (from Rex6 on not for a transfer to itself) or was
    created, and all the updates of that child, counted the same way.  In particular a revert
    followed by a retry is charged like the retry alone, and the refunds are those of the writes
    that were kept.  The counters are far enough from their 64-bit maximum. *)
Theorem caller_charged_once `{R : Revm, RS : RevmState} {J} `{HJ : !JournalInspectTr J} (j : J)
    l (t : KVUpdateTracker) e rest :
  rex5_tracker t → frame_stack (kv_frame_tracker t) = e :: rest → entry_ok e →
  entry_total e + 2 * sumZ size l ≤ u64_max → fle_refund e + sumZ size l ≤ u64_max →
  Forall activity_ok l →
  let rex6 := kv_rex6_enabled t in
  let flag := target_updated (fle_info e) in
  let touched := existsb (touches_caller rex6) l in
  ∃ t' e', run_activities j l t = Some t' ∧ frame_stack (kv_frame_tracker t') = e' :: rest ∧
    fle_discardable e' = fle_discardable e + Z.b2z (negb flag && touched) + sumZ (updates rex6) l ∧
    fle_refund e' = fle_refund e + sumZ refunds l ∧ fle_persistent e' = fle_persistent e ∧
    target_updated (fle_info e') = flag || touched.
Proof.
  intros H5 Hs He Hle Hr Hok rex6 flag touched.
  assert (Hroom : room (sumZ size l) e).
  { destruct He as (_ & Hp & Hd & Hre). split_and!; try done; [apply Hp|apply Hd|apply Hre]. }
  assert (Hall : Forall (activity_spec j) l) by (apply Forall_forall; intros x _; apply activity_runs).
  destruct (run_list j l t e rest Hall Hok H5 Hs Hroom) as (t' & Hrun & _ & _ & Hs').
  eexists t', _. split_and!; [done|exact Hs'|done..].
Qed.

(** * Evaluation *)

#[local] Existing Instance journal_inspect.

Definition ref_result (ok : bool) : FrameResult :=
  FrameResultCall (mkInterpreterResult (if ok then RefStop else RefRevert) [] (gas_new 0)) (0, 0).

Definition transfer_to (target : Address) : FrameInput :=
  FrameInputCall (mkCallInputs 0 target 7 SchemeCall true (0, 0) (Some 1) (InputBytes []) 1).

Definition creation : FrameInput := FrameInputCreate (mkCreateInputs 0 7 (λ n, n)).

(** A creation that opened the frame of address 9. *)
Definition creation_frame : EthFrame := mkEthFrame true (Some 9) (gas_new 0).

(** A reverted transfer, its retry, a creation whose constructor writes a slot and makes a
    transfer of its own, and a creation that is refused. *)
Definition sample_activities : list activity :=
  [Child (transfer_to 1) None [] (ref_result false); Child (transfer_to 1) None [] (ref_result true);
   Child creation (Some creation_frame)
     [Sstore (mkSStoreResult 0 0 1); Child (transfer_to 2) None [] (ref_result true)] (ref_result true);
   Child creation None [] (ref_result false)].

Definition caller_frame : FrameLimitEntry CallFrameInfo :=
  mkEntry 1000 0 0 0 (mkInfo (Some 7) false false).

Definition sample_kv : KVUpdateTracker :=
  let t := KVUpdate.new REX5 1000 in
  KVUpdate.with_frame_tracker t (set_stack (kv_frame_tracker t) [caller_frame]).

(** Five updates: the caller, account 1, the contract, its slot, and account 2. *)
Lemma caller_charged_once_witness :
  ∃ t' e', run_activities (HJ := journal_inspect cyclic_db) empty_journal sample_activities sample_kv = Some t' ∧
    frame_stack (kv_frame_tracker t') = [e'] ∧ fle_discardable e' = 5 ∧
    fle_refund e' = 0 ∧ fle_persistent e' = 0 ∧ target_updated (fle_info e') = true.
Proof.
  refine (caller_charged_once (HJ := journal_inspect cyclic_db) empty_journal sample_activities
           sample_kv caller_frame [] _ _ _ _ _ _).
  - by split_and!.
  - reflexivity.
  - split_and!; simpl; u64_lia.
  - vm_compute. discriminate.
  - vm_compute. discriminate.
  - unfold sample_activities, creation_frame, creation, transfer_to.
    repeat (apply Forall_cons; split; [simpl; eauto 10|]). constructor.
Defined.

(** * A Rex6 creation at the limit

    [kv_update.rs] comments that from Rex4 on the transaction-level check "should only exceed
    when no frame exists", and asserts it in debug builds.  From Rex6 on the creator's charge
    goes to the parent frame, whose own budget is not checked while the child runs. *)

(** A transaction with a budget of two updates: the caller's own, and one slot written by the
    top frame, which then creates a contract. *)
Definition creation_at_limit (spec : MegaSpecId) : panics KVUpdateTracker :=
  let t := KVUpdate.before_tx_start (mkTx 0 None [] 18 (Some 17) 2 0 1 0 None) (KVUpdate.new spec 2) in
  t ← KVUpdate.push_empty_frame t;
  let t := KVUpdate.after_sstore (mkSStoreResult 0 0 1) t in
  '(t, _, _) ←
    KVUpdate.before_frame_init (HJ := journal_inspect cyclic_db)
      (mkFrameInit 1 (FrameInputCreate (mkCreateInputs 0 7 (λ n, n)))) empty_journal t;
  Some t.

(** The top frame is exactly at its budget before the creation: under Rex5 the child frame
    exceeds and reverts alone, under Rex6 the transaction-level limit is exceeded with two
    frames open. *)
Lemma rex6_creation_exceeds_transaction :
  (t ← creation_at_limit REX5; KVUpdate.check_limit t) = Some (ExceedsLimit KVUpdate 0 1 true) ∧
  (t ← creation_at_limit REX6; KVUpdate.check_limit t) = Some (ExceedsLimit KVUpdate 2 3 false) ∧
  (t ← creation_at_limit REX6; Some (stack_depth (kv_frame_tracker t))) = Some 2%nat.
Proof. by vm_compute. Qed.

(** * Refunds of a reverted frame

    [state_growth.rs] documents that a reverted frame's refunds "are still propagated"; the
    pop drops them together with the discardable growth. *)
Lemma reverted_refund_dropped :
  let t := add_frame_discardable 5 (push_frame_with_limit 100 tt (tracker_new REX4 100)) in
  let t := add_frame_refund 2 (push_frame_with_limit 90 tt t) in
  net_usage t = 3 ∧ net_usage (fst (pop_frame false t)) = 5 ∧ net_usage (fst (pop_frame true t)) = 3.
Proof. by vm_compute. Qed.
