(* ===== verification/Access.v ===== *)
(** Volatile data access: [access/volatile.rs] and [access/tracker.rs].

    The bitmap of accessed data is a 16-bit integer; the tracker adds the detention cap and
    the depth at which a contract has disabled volatile access for its subtree. *)

From S2P Require Import Prelude Spec Revm.

(** * [VolatileDataAccess] *)

(** The Solidity enum, by its discriminants. *)
Inductive VolatileDataAccessType : Type :=
  | BlockNumber | Timestamp | Coinbase | Difficulty | GasLimit | BaseFee | PrevRandao
  | BlockHash | BlobBaseFee | BlobHash | Beneficiary | Oracle.

Definition access_type_u8 (ty : VolatileDataAccessType) : Z :=
  match ty with
  | BlockNumber => 0 | Timestamp => 1 | Coinbase => 2 | Difficulty => 3 | GasLimit => 4
  | BaseFee => 5 | PrevRandao => 6 | BlockHash => 7 | BlobBaseFee => 8 | BlobHash => 9
  | Beneficiary => 10 | Oracle => 11
  end.

Abbreviation VolatileDataAccess := Z (only parsing).

Module flags.
Definition BENEFICIARY_BALANCE : VolatileDataAccess := Z.shiftl 1 10.
Definition ORACLE : VolatileDataAccess := Z.shiftl 1 11.
(** All defined bits, for [from_bits_truncate]. *)
Definition ALL : VolatileDataAccess := 4095.
Definition BLOCK_ENV_MASK : VolatileDataAccess := 1023.
End flags.

Definition from_bits_truncate (bits : Z) : VolatileDataAccess := Z.land bits flags.ALL.

(** [From<VolatileDataAccessType>]. *)
Definition access_from_type (ty : VolatileDataAccessType) : VolatileDataAccess :=
  from_bits_truncate (Z.shiftl 1 (access_type_u8 ty)).

Definition insert (v flag : VolatileDataAccess) : VolatileDataAccess := Z.lor v flag.
Definition contains (v flag : VolatileDataAccess) : bool := Z.land v flag =? flag.

Definition has_block_env_access (v : VolatileDataAccess) : bool :=
  negb (Z.land v flags.BLOCK_ENV_MASK =? 0).
Definition has_beneficiary_balance_access (v : VolatileDataAccess) : bool :=
  contains v flags.BENEFICIARY_BALANCE.
Definition has_oracle_access (v : VolatileDataAccess) : bool := contains v flags.ORACLE.
Definition block_env_only (v : VolatileDataAccess) : VolatileDataAccess :=
  from_bits_truncate (Z.land v flags.BLOCK_ENV_MASK).

(** [count_ones] over the sixteen bits. *)
Definition count_ones (v : Z) : Z := sumZ (λ i, Z.b2z (Z.testbit v (Z.of_nat i))) (seq 0 16).
Definition count_block_env_accessed (v : VolatileDataAccess) : Z :=
  count_ones (Z.land v flags.BLOCK_ENV_MASK).

(** [trailing_zeros] of a [u16]: the position of the lowest bit, 16 when there is none. *)
Definition as_u8 (v : VolatileDataAccess) : Z :=
  default 16 ((λ i, Z.of_nat i) <$> head (filter (λ i, Z.testbit v (Z.of_nat i) = true) (seq 0 16))).

(** * [VolatileDataAccessTracker] *)

Definition ORACLE_CONTRACT_ADDRESS : Address := 0x6342000000000000000000000000000000000001.

Record VolatileDataAccessTracker : Type := mkVolatile {
  volatile_data_accessed : VolatileDataAccess;
  vt_compute_gas_limit : option Z;
  block_env_access_limit : Z;
  oracle_access_limit : Z;
  disable_depth : option Z;
}.

Section tracker.
Implicit Types t : VolatileDataAccessTracker.

Definition new (block_env_access_limit oracle_access_limit : Z) : VolatileDataAccessTracker :=
  mkVolatile 0 None block_env_access_limit oracle_access_limit None.

(** Field updates. *)
Definition with_accessed t v :=
  mkVolatile v (vt_compute_gas_limit t) (block_env_access_limit t) (oracle_access_limit t)
    (disable_depth t).
Definition with_limit t l :=
  mkVolatile (volatile_data_accessed t) l (block_env_access_limit t) (oracle_access_limit t)
    (disable_depth t).
Definition with_disable_depth t d :=
  mkVolatile (volatile_data_accessed t) (vt_compute_gas_limit t) (block_env_access_limit t)
    (oracle_access_limit t) d.

Definition accessed t : bool := negb (volatile_data_accessed t =? 0).
Definition get_volatile_data_info t : option VolatileDataAccess :=
  if accessed t then Some (volatile_data_accessed t) else None.
Definition get_compute_gas_limit t : option Z := vt_compute_gas_limit t.
Definition get_block_env_accesses t : VolatileDataAccess := block_env_only (volatile_data_accessed t).
Definition has_accessed_beneficiary_balance t : bool :=
  has_beneficiary_balance_access (volatile_data_accessed t).
Definition has_accessed_oracle t : bool := has_oracle_access (volatile_data_accessed t).

Definition apply_or_create_limit (limit : Z) t : VolatileDataAccessTracker :=
  match vt_compute_gas_limit t with
  | Some current_limit => with_limit t (Some (Z.min current_limit limit))
  | None => with_limit t (Some limit)
  end.

Definition mark_block_env_accessed (ty : VolatileDataAccessType) t : VolatileDataAccessTracker :=
  let t := with_accessed t (insert (volatile_data_accessed t) (access_from_type ty)) in
  apply_or_create_limit (block_env_access_limit t) t.

Definition mark_beneficiary_balance_accessed t : VolatileDataAccessTracker :=
  let t := with_accessed t (insert (volatile_data_accessed t) flags.BENEFICIARY_BALANCE) in
  apply_or_create_limit (block_env_access_limit t) t.

Definition check_and_mark_oracle_access (address : Address) t
    : VolatileDataAccessTracker * bool :=
  if address =? ORACLE_CONTRACT_ADDRESS then
    let t := with_accessed t (insert (volatile_data_accessed t) flags.ORACLE) in
    (apply_or_create_limit (oracle_access_limit t) t, true)
  else (t, false).

Definition disable_access (depth : Z) t : VolatileDataAccessTracker :=
  match disable_depth t with
  | Some current => if current <=? depth then t else with_disable_depth t (Some depth)
  | None => with_disable_depth t (Some depth)
  end.

Definition volatile_access_disabled (current_depth : Z) t : bool :=
  match disable_depth t with Some d => d <=? current_depth | None => false end.

Definition enable_access (caller_depth : Z) t : VolatileDataAccessTracker * bool :=
  match disable_depth t with
  | None => (t, true)
  | Some d => if caller_depth <=? d then (with_disable_depth t None, true) else (t, false)
  end.

Definition enable_access_if_returning (current_depth : Z) t : VolatileDataAccessTracker :=
  match disable_depth t with
  | Some d => if current_depth <? d then with_disable_depth t None else t
  | None => t
  end.

Definition reset t : VolatileDataAccessTracker :=
  mkVolatile 0 None (block_env_access_limit t) (oracle_access_limit t) None.

Definition merge_accesses_from_bitmap (other_bitmap : VolatileDataAccess) t
    : VolatileDataAccessTracker :=
  with_accessed t (Z.lor (volatile_data_accessed t) other_bitmap).
End tracker.

(** * Accesses commute *)

Section commute.
Implicit Types t : VolatileDataAccessTracker.

(** One access a transaction can make. *)
Inductive access : Type :=
  | BlockEnvAccess (ty : VolatileDataAccessType)
  | BeneficiaryAccess
  | CallAccess (address : Address)
  | SandboxMerge (bitmap : VolatileDataAccess).

Definition do_access (a : access) t : VolatileDataAccessTracker :=
  match a with
  | BlockEnvAccess ty => mark_block_env_accessed ty t
  | BeneficiaryAccess => mark_beneficiary_balance_accessed t
  | CallAccess address => fst (check_and_mark_oracle_access address t)
  | SandboxMerge bitmap => merge_accesses_from_bitmap bitmap t
  end.

Definition do_accesses (l : list access) t : VolatileDataAccessTracker := foldl (flip do_access) t l.

(** The bits and the cap of one access. *)
Definition access_bits (a : access) : VolatileDataAccess :=
  match a with
  | BlockEnvAccess ty => access_from_type ty
  | BeneficiaryAccess => flags.BENEFICIARY_BALANCE
  | CallAccess address => if address =? ORACLE_CONTRACT_ADDRESS then flags.ORACLE else 0
  | SandboxMerge bitmap => bitmap
  end.

Definition access_cap (a : access) t : option Z :=
  match a with
  | BlockEnvAccess _ | BeneficiaryAccess => Some (block_env_access_limit t)
  | CallAccess address =>
      if address =? ORACLE_CONTRACT_ADDRESS then Some (oracle_access_limit t) else None
  | SandboxMerge _ => None
  end.

(** The tighter of two caps, where [None] is no cap. *)
Definition tighter (a b : option Z) : option Z := union_with (λ x y, Some (Z.min x y)) a b.

Lemma do_access_spec a t :
  do_access a t =
  mkVolatile (Z.lor (volatile_data_accessed t) (access_bits a))
    (tighter (vt_compute_gas_limit t) (access_cap a t)) (block_env_access_limit t)
    (oracle_access_limit t) (disable_depth t).
Proof.
  destruct t as [v [l|] b o d], a as [ty| |address|bitmap]; simpl;
    unfold check_and_mark_oracle_access, mark_block_env_accessed,
      mark_beneficiary_balance_accessed, merge_accesses_from_bitmap, apply_or_create_limit,
      with_accessed, with_limit, insert; simpl; try done;
    destruct (address =? ORACLE_CONTRACT_ADDRESS); simpl; by rewrite ?Z.lor_0_r.
Qed.

Lemma tighter_comm a b c : tighter (tighter a b) c = tighter (tighter a c) b.
Proof. destruct a, b, c; simpl; f_equal; lia. Qed.

Lemma tighter_assoc a b c : tighter (tighter a b) c = tighter a (tighter b c).
Proof. destruct a, b, c; simpl; f_equal; lia. Qed.

(** The caps are configuration: accesses do not change them. *)
Lemma access_cap_const a b t : access_cap b (do_access a t) = access_cap b t.
Proof. rewrite do_access_spec. by destruct b. Qed.

Lemma do_access_comm a b t : do_access a (do_access b t) = do_access b (do_access a t).
Proof.
  rewrite (do_access_spec a (do_access b t)), (do_access_spec b (do_access a t)), !access_cap_const.
  rewrite !do_access_spec. simpl. rewrite (tighter_comm _ (access_cap b t)).
  by rewrite <- !Z.lor_assoc, (Z.lor_comm (access_bits b)).
Qed.

Definition caps (l : list access) t : option Z := foldr (λ a, tighter (access_cap a t)) None l.

Lemma caps_const a l t : caps l (do_access a t) = caps l t.
Proof. induction l as [|b l IH]; [done|]. simpl. by rewrite access_cap_const, IH. Qed.

Lemma do_accesses_spec l t :
  volatile_data_accessed (do_accesses l t) =
    Z.lor (volatile_data_accessed t) (foldr (λ a, Z.lor (access_bits a)) 0 l) ∧
  vt_compute_gas_limit (do_accesses l t) = tighter (vt_compute_gas_limit t) (caps l t).
Proof.
  revert t. induction l as [|a l IH]; intros t.
  { simpl. split; [by rewrite Z.lor_0_r|]. by destruct (vt_compute_gas_limit t). }
  change (do_accesses (a :: l) t) with (do_accesses l (do_access a t)).
  destruct (IH (do_access a t)) as [-> ->]. rewrite caps_const, do_access_spec. simpl.
  by rewrite Z.lor_assoc, tighter_assoc.
Qed.

Lemma do_accesses_perm l l' t : l ≡ₚ l' → do_accesses l t = do_accesses l' t.
Proof.
  intros Hp. revert t. induction Hp as [|a l l' _ IH|a b l|l1 l2 l3 _ IH1 _ IH2]; intros t; simpl.
  - done.
  - apply IH.
  - unfold do_accesses, flip. simpl. by rewrite do_access_comm.
  - by rewrite IH1.
Qed.
End commute.

(** Volatile accesses are order independent.  The recorded footprint and the detention cap
    depend only on which accesses were made: every order of the same accesses leads to the
    same tracker, the footprint is the union of the accesses' flags and the cap is the
    tightest of theirs. *)
Lemma volatile_accesses_order_independent (l l' : list access) (t : VolatileDataAccessTracker) :
  l ≡ₚ l' →
  do_accesses l t = do_accesses l' t ∧
  volatile_data_accessed (do_accesses l t) =
    Z.lor (volatile_data_accessed t) (foldr (λ a, Z.lor (access_bits a)) 0 l) ∧
  vt_compute_gas_limit (do_accesses l t) = tighter (vt_compute_gas_limit t) (caps l t).
Proof. intros Hp. split; [by apply do_accesses_perm|apply do_accesses_spec]. Qed.

Example volatile_accesses_in_any_order :
  do_accesses [CallAccess ORACLE_CONTRACT_ADDRESS; BlockEnvAccess Timestamp] (new 20000000 1000000) =
  do_accesses [BlockEnvAccess Timestamp; CallAccess ORACLE_CONTRACT_ADDRESS] (new 20000000 1000000).
Proof. by apply volatile_accesses_order_independent, Permutation_swap. Qed.

(** * The scope of a disable *)

(** The abstract machine: every open frame has a flag, set by [disable] and cleared by
    [enable]; access is disabled in a frame when the frame or one around it has its flag set. *)
Module scope.
Inductive op : Type := Call | Return | Disable | Enable | Query.

(** Frames, innermost first. *)
Definition state : Type := list bool.

Definition strict_ancestors (s : state) : bool := existsb id (tail s).

Definition set_top (b : bool) (s : state) : state :=
  match s with [] => [] | _ :: s => b :: s end.

Definition step (o : op) (s : state) : state * option bool :=
  match o with
  | Call => (false :: s, None)
  | Return => (tail s, None)
  | Disable => (set_top true s, None)
  | Enable => if strict_ancestors s then (s, Some false) else (set_top false s, Some true)
  | Query => (s, Some (existsb id s))
  end.

Fixpoint run (ops : list op) (s : state) : list (option bool) :=
  match ops with
  | [] => []
  | o :: ops => let '(s, r) := step o s in r :: run ops s
  end.
End scope.

(** The same operations on the tracker; the argument is the depth of the current frame. *)
Definition tracker_step (o : scope.op) (depth : nat) (t : VolatileDataAccessTracker)
    : nat * VolatileDataAccessTracker * option bool :=
  match o with
  | scope.Call => (S depth, t, None)
  | scope.Return => (pred depth, enable_access_if_returning (Z.of_nat (pred depth)) t, None)
  | scope.Disable => (depth, disable_access (Z.of_nat depth) t, None)
  | scope.Enable => let '(t, b) := enable_access (Z.of_nat depth) t in (depth, t, Some b)
  | scope.Query => (depth, t, Some (volatile_access_disabled (Z.of_nat depth) t))
  end.

Fixpoint tracker_run (ops : list scope.op) (depth : nat) (t : VolatileDataAccessTracker)
    : list (option bool) :=
  match ops with
  | [] => []
  | o :: ops => let '(depth, t, r) := tracker_step o depth t in r :: tracker_run ops depth t
  end.

(** No operation of a frame runs outside every frame. *)
Fixpoint well_scoped (ops : list scope.op) (depth : nat) : bool :=
  match ops with
  | [] => true
  | scope.Call :: ops => well_scoped ops (S depth)
  | scope.Return :: ops => match depth with O => false | S d => well_scoped ops d end
  | _ :: ops => match depth with O => false | S _ => well_scoped ops depth end
  end.

Section refinement.
(** The depth of the outermost flagged frame. *)
Fixpoint outermost (s : scope.state) : option Z :=
  match s with
  | [] => None
  | b :: s =>
      match outermost s with
      | Some d => Some d
      | None => if b then Some (Z.of_nat (S (length s))) else None
      end
  end.

Lemma outermost_range s d : outermost s = Some d → 1 ≤ d ≤ Z.of_nat (length s).
Proof.
  revert d. induction s as [|b s IH]; intros d; [done|]. simpl.
  destruct (outermost s) as [d'|]; [intros [= <-]; specialize (IH _ eq_refl); lia|].
  destruct b; [intros [= <-]; lia|done].
Qed.

Lemma outermost_exists s : existsb id s = match outermost s with Some _ => true | None => false end.
Proof.
  induction s as [|b s IH]; [done|]. simpl. rewrite IH.
  destruct b, (outermost s); done.
Qed.

Lemma step_refines o s t :
  disable_depth t = outermost s → (o ≠ scope.Call → s ≠ []) →
  let '(s', r) := scope.step o s in
  let '(depth', t', r') := tracker_step o (length s) t in
  r' = r ∧ depth' = length s' ∧ disable_depth t' = outermost s'.
Proof.
  intros Hd Hne. destruct o; simpl.
  - rewrite Hd. by destruct (outermost s).
  - destruct s as [|b s]; [by destruct (Hne ltac:(done))|]. simpl in *.
    unfold enable_access_if_returning. rewrite Hd.
    destruct (outermost s) as [d|] eqn:E.
    + apply outermost_range in E as Hr. rewrite (proj2 (Z.ltb_ge _ _)) by lia. by rewrite Hd.
    + destruct b; [|done]. rewrite (proj2 (Z.ltb_lt _ _)) by lia. done.
  - destruct s as [|b s]; [by destruct (Hne ltac:(done))|]. simpl in *.
    unfold disable_access. rewrite Hd. destruct (outermost s) as [d|] eqn:E.
    + apply outermost_range in E as Hr. rewrite (proj2 (Z.leb_le _ _)) by lia. done.
    + destruct b; [rewrite (proj2 (Z.leb_le _ _)) by lia; by rewrite Hd|done].
  - destruct s as [|b s]; [by destruct (Hne ltac:(done))|]. simpl in *.
    unfold enable_access, scope.strict_ancestors. simpl. rewrite Hd, outermost_exists.
    destruct (outermost s) as [d|] eqn:E.
    + apply outermost_range in E as Hr. rewrite (proj2 (Z.leb_gt _ _)) by lia. simpl. by rewrite E.
    + destruct b; [rewrite (proj2 (Z.leb_le _ _)) by lia|]; simpl; by rewrite E.
  - unfold volatile_access_disabled. rewrite Hd, outermost_exists.
    destruct (outermost s) as [d|] eqn:E; [|done].
    apply outermost_range in E as Hr. by rewrite (proj2 (Z.leb_le _ _)) by lia.
Qed.

Lemma run_refines ops s t :
  disable_depth t = outermost s → well_scoped ops (length s) = true →
  tracker_run ops (length s) t = scope.run ops s.
Proof.
  revert s t. induction ops as [|o ops IH]; intros s t Hd Hw; [done|].
  assert (Hne : o ≠ scope.Call → s ≠ []) by (intros Ho ->; by destruct o).
  pose proof (step_refines o s t Hd Hne) as Hs. simpl.
  destruct (scope.step o s) as [s' r] eqn:Es.
  destruct (tracker_step o (length s) t) as [[d' t'] r'] eqn:Et.
  destruct Hs as (-> & -> & Hd'). f_equal. apply IH; [done|].
  destruct o, s as [|b s]; simpl in Es; try done;
    unfold scope.strict_ancestors in Es; simpl in Es; case_bools_in Es; by simplify_eq.
Qed.
End refinement.

(** C19: the single [disable_depth] implements subtree scoping.  For every well-bracketed run of
    calls, returns, disables, enables and queries, the tracker answers exactly as the machine
    with one flag per frame: access is disabled for a frame and its whole subtree until that
    frame enables it or returns, a descendant cannot enable what an ancestor disabled, and
    nothing leaks to sibling calls. *)
Theorem disable_depth_scopes_subtree ops (t : VolatileDataAccessTracker) :
  disable_depth t = None → well_scoped ops 0 = true →
  tracker_run ops 0 t = scope.run ops [].
Proof. intros Hd Hw. by apply (run_refines ops [] t). Qed.

Definition sample_ops : list scope.op :=
  [scope.Call; scope.Call; scope.Disable; scope.Call; scope.Query; scope.Enable; scope.Return;
   scope.Return; scope.Query; scope.Call; scope.Query].

Lemma disable_depth_scopes_subtree_witness :
  tracker_run sample_ops 0 (new 20 10) = scope.run sample_ops [] ∧
  scope.run sample_ops [] =
    [None; None; None; None; Some true; Some false; None; None; Some false; None; Some false].
Proof. split; [by apply disable_depth_scopes_subtree|reflexivity]. Defined.

(** The conversion of the Solidity enum and back. *)
Lemma access_type_roundtrip ty : as_u8 (access_from_type ty) = access_type_u8 ty.
Proof. by destruct ty. Qed.
