(* ===== verification/SystemTx.v ===== *)
(** Mega system transactions: [system/tx.rs].

    A transaction of the system address to a whitelisted contract is processed like a deposit;
    from Rex6 on it is exempt from metering. *)

From S2P Require Import Prelude Spec Revm Access.

Definition MEGA_SYSTEM_ADDRESS : Address := 0xA887dCB9D5f39Ef79272801d05Abdf707CFBbD1d.

Definition MEGA_SYSTEM_TX_WHITELIST : list Address := [ORACLE_CONTRACT_ADDRESS].

Definition MEGA_SYSTEM_TRANSACTION_SOURCE_HASH : Z :=
  0x852c082c0faff590c6300c2c34815d1f79882552fa95ba413cd5aeb1dba84957.

Definition SANDBOX_TX_SOURCE_HASH : Z :=
  0x3bc757a39ecb6dc5b5e5715352016c2b6fd38968a78cc57e878d9be249bc62f4.

Section system_tx.
Context `{R : Revm}.
Implicit Types tx : MegaTransaction.

Definition sent_from_system_address tx (system_address : Address) : bool :=
  tx_caller tx =? system_address.

Definition check_if_mega_system_transaction (tx_signer : Address) (type : Z)
    (kind : option Address) (system_address : Address) : bool :=
  if (type =? 0) && (tx_signer =? system_address) then
    match kind with
    | None => false
    | Some address => bool_decide (address ∈ MEGA_SYSTEM_TX_WHITELIST)
    end
  else false.

Definition is_mega_system_transaction_with tx (system_address : Address) : bool :=
  check_if_mega_system_transaction (tx_caller tx) (tx_type tx) (tx_kind tx) system_address.

Definition is_deposit_like_transaction tx (system_address : Address) : bool :=
  if tx_type tx =? DEPOSIT_TRANSACTION_TYPE then true
  else is_mega_system_transaction_with tx system_address.

Definition is_system_originated tx (system_address : Address) : bool :=
  (tx_caller tx =? EIP4788_SYSTEM_ADDRESS) ||
  (tx_source_hash tx =? MEGA_SYSTEM_TRANSACTION_SOURCE_HASH) ||
  is_mega_system_transaction_with tx system_address.

(** The two field writes [before_run] makes to a system transaction: it becomes a deposit. *)
Definition promote tx : MegaTransaction :=
  mkTx (tx_input_len tx) (tx_access_list tx) (tx_authorities tx) (tx_caller tx) (tx_kind tx)
    (tx_base_type tx) MEGA_SYSTEM_TRANSACTION_SOURCE_HASH 0 (tx_nonce tx) (tx_chain_id tx).

Lemma promote_system_originated tx addr : is_system_originated (promote tx) addr = true.
Proof.
  unfold is_system_originated. simpl. by rewrite orb_true_r.
Qed.

Lemma mega_system_transaction_iff tx addr :
  is_mega_system_transaction_with tx addr = true ↔
  tx_type tx = 0 ∧ tx_caller tx = addr ∧ tx_kind tx = Some ORACLE_CONTRACT_ADDRESS.
Proof.
  unfold is_mega_system_transaction_with, check_if_mega_system_transaction, MEGA_SYSTEM_TX_WHITELIST.
  split.
  - intros H. destruct ((tx_type tx =? 0) && (tx_caller tx =? addr)) eqn:E; [|done].
    apply andb_true_iff in E as [E1%Z.eqb_eq E2%Z.eqb_eq].
    destruct (tx_kind tx) as [a|]; [|done]. apply bool_decide_eq_true in H.
    apply list_elem_of_singleton in H. by subst.
  - intros (-> & -> & ->). by rewrite !Z.eqb_refl.
Qed.
End system_tx.
