(* ===== verification/DynamicGas.v ===== *)
(** SALT-scaled storage gas: [external/gas.rs] and [external/salt.rs]. *)

From S2P Require Import Prelude Spec Revm.

Definition MIN_BUCKET_SIZE_BITS : Z := 8.
Definition MIN_BUCKET_SIZE : Z := Z.shiftl 1 MIN_BUCKET_SIZE_BITS.

(** The trait [SaltEnv]: capacities are a snapshot of one block, so the query is a function. *)
Class SaltEnv (S : Type) := {
  SaltError : Type;
  get_bucket_capacity : S → Z → result Z SaltError;
  bucket_id_for_account : Address → Z;
  bucket_id_for_slot : Address → U256 → Z;
}.

(** [EmptyExternalEnv]. *)
Inductive EmptyExternalEnv : Type := mkEmptyExternalEnv.

#[export] Instance empty_salt_env : SaltEnv EmptyExternalEnv := {|
  SaltError := Empty_set;
  get_bucket_capacity _ _ := Ok MIN_BUCKET_SIZE;
  bucket_id_for_account _ := 0;
  bucket_id_for_slot _ _ := 0;
|}.

Record DynamicGasCost (S : Type) : Type := mkDynamicGas {
  dg_spec : MegaSpecId;
  dg_parent_block : Z;
  dg_salt_env : S;
  dg_multipliers : gmap Z Z;
}.
Arguments mkDynamicGas {S} _ _ _ _.
Arguments dg_spec {S} _.
Arguments dg_parent_block {S} _.
Arguments dg_salt_env {S} _.
Arguments dg_multipliers {S} _.

Section gas.
Context {S : Type} `{HS : SaltEnv S}.
Implicit Types g : DynamicGasCost S.

Definition new (spec : MegaSpecId) (salt_env : S) (parent_block : Z) : DynamicGasCost S :=
  mkDynamicGas spec parent_block salt_env ∅.

Definition reset (parent_block : Z) g : DynamicGasCost S :=
  mkDynamicGas (dg_spec g) parent_block (dg_salt_env g) ∅.

Definition on_new_block (number : Z) g : DynamicGasCost S := reset (sat_sub number 1) g.

Definition get_bucket_ids g : gset Z := dom (dg_multipliers g).

Definition sstore_set_gas_for_multiplier (multiplier : Z) g : Z :=
  if is_enabled (dg_spec g) REX
  then sat_mul constants.rex.SSTORE_SET_STORAGE_GAS_BASE (multiplier -w 1)
  else sat_mul constants.mini_rex.SSTORE_SET_STORAGE_GAS multiplier.

Definition new_account_gas_for_multiplier (multiplier : Z) g : Z :=
  if is_enabled (dg_spec g) REX
  then sat_mul constants.rex.NEW_ACCOUNT_STORAGE_GAS_BASE (multiplier -w 1)
  else sat_mul constants.mini_rex.NEW_ACCOUNT_STORAGE_GAS multiplier.

Definition create_contract_gas_for_multiplier (multiplier : Z) g : Z :=
  if is_enabled (dg_spec g) REX
  then sat_mul constants.rex.CONTRACT_CREATION_STORAGE_GAS_BASE (multiplier -w 1)
  else sat_mul constants.mini_rex.NEW_ACCOUNT_STORAGE_GAS multiplier.

Definition load_bucket_cost_multiplier (bucket_id : Z) g
    : panics (DynamicGasCost S * result Z SaltError) :=
  match dg_multipliers g !! bucket_id with
  | Some m => Some (g, Ok m)
  | None =>
      match get_bucket_capacity (dg_salt_env g) bucket_id with
      | Err e => Some (g, Err e)
      | Ok capacity =>
          _ ← assert_ (MIN_BUCKET_SIZE <=? capacity);
          let multiplier := capacity / MIN_BUCKET_SIZE in
          Some (mkDynamicGas (dg_spec g) (dg_parent_block g) (dg_salt_env g)
                  (<[bucket_id := multiplier]> (dg_multipliers g)), Ok multiplier)
      end
  end.

(** [Ok(self.f(multiplier))] after the load. *)
Definition with_multiplier (f : Z → DynamicGasCost S → Z) (bucket_id : Z) g
    : panics (DynamicGasCost S * result Z SaltError) :=
  '(g, r) ← load_bucket_cost_multiplier bucket_id g;
  Some (g, match r with Ok multiplier => Ok (f multiplier g) | Err e => Err e end).

Definition sstore_set_gas (address : Address) (key : U256) g :=
  with_multiplier sstore_set_gas_for_multiplier (bucket_id_for_slot address key) g.
Definition new_account_gas (address : Address) g :=
  with_multiplier new_account_gas_for_multiplier (bucket_id_for_account address) g.
Definition create_contract_gas (address : Address) g :=
  with_multiplier create_contract_gas_for_multiplier (bucket_id_for_account address) g.

Definition sstore_set_gas_unscaled g : Z := sstore_set_gas_for_multiplier 1 g.
Definition new_account_gas_unscaled g : Z := new_account_gas_for_multiplier 1 g.
Definition create_contract_gas_unscaled g : Z := create_contract_gas_for_multiplier 1 g.
End gas.

(** * The cache is transparent *)

Section cache.
Context {S : Type} `{HS : SaltEnv S}.
Implicit Types g : DynamicGasCost S.

(** The requests the host makes. *)
Inductive request : Type :=
  | SstoreSet (address : Address) (key : U256)
  | NewAccount (address : Address)
  | CreateContract (address : Address).

Definition ask (q : request) g : panics (DynamicGasCost S * result Z SaltError) :=
  match q with
  | SstoreSet a k => sstore_set_gas a k g
  | NewAccount a => new_account_gas a g
  | CreateContract a => create_contract_gas a g
  end.

Fixpoint ask_all (qs : list request) g : panics (DynamicGasCost S * list (result Z SaltError)) :=
  match qs with
  | [] => Some (g, [])
  | q :: qs => '(g, r) ← ask q g; '(g, rs) ← ask_all qs g; Some (g, r :: rs)
  end.

(** The price list: a base cost times the number of minimum-size units the bucket has grown
    by (from Rex on), or times all its units (before), saturated to 64 bits. *)
Definition request_bucket (q : request) : Z :=
  match q with
  | SstoreSet a k => bucket_id_for_slot a k
  | NewAccount a | CreateContract a => bucket_id_for_account a
  end.

Definition request_base (spec : MegaSpecId) (q : request) : Z :=
  if is_enabled spec REX then
    match q with
    | SstoreSet _ _ => constants.rex.SSTORE_SET_STORAGE_GAS_BASE
    | NewAccount _ => constants.rex.NEW_ACCOUNT_STORAGE_GAS_BASE
    | CreateContract _ => constants.rex.CONTRACT_CREATION_STORAGE_GAS_BASE
    end
  else
    match q with
    | SstoreSet _ _ => constants.mini_rex.SSTORE_SET_STORAGE_GAS
    | NewAccount _ | CreateContract _ => constants.mini_rex.NEW_ACCOUNT_STORAGE_GAS
    end.

Definition price (spec : MegaSpecId) (env : S) (q : request) : result Z SaltError :=
  match get_bucket_capacity env (request_bucket q) with
  | Err e => Err e
  | Ok capacity =>
      let units := capacity / 256 in
      Ok (Z.min u64_max (request_base spec q * (if is_enabled spec REX then units - 1 else units)))
  end.

(** What the code asserts of the environment. *)
Definition capacities_ok (env : S) : Prop :=
  ∀ b c, get_bucket_capacity env b = Ok c → 256 ≤ c ≤ u64_max.

Definition cache_ok g : Prop :=
  ∀ b m, dg_multipliers g !! b = Some m →
    ∃ c, get_bucket_capacity (dg_salt_env g) b = Ok c ∧ m = c / 256.

Lemma load_spec b g :
  capacities_ok (dg_salt_env g) → cache_ok g →
  ∃ g', load_bucket_cost_multiplier b g =
      Some (g', match get_bucket_capacity (dg_salt_env g) b with
                | Ok c => Ok (c / 256) | Err e => Err e end) ∧
    cache_ok g' ∧ dg_spec g' = dg_spec g ∧ dg_salt_env g' = dg_salt_env g.
Proof.
  intros Hc Hg. unfold load_bucket_cost_multiplier.
  destruct (dg_multipliers g !! b) as [m|] eqn:Hm.
  { destruct (Hg b m Hm) as (c & -> & ->). by eexists. }
  destruct (get_bucket_capacity (dg_salt_env g) b) as [c|e] eqn:Hb; [|by eexists].
  destruct (Hc b c Hb) as [Hlo Hhi]. unfold assert_. change MIN_BUCKET_SIZE with 256.
  rewrite (proj2 (Z.leb_le _ _) Hlo). simpl. eexists. split_and!; [done| |done|done].
  intros b' m'. simpl. destruct (decide (b = b')) as [<-|].
  - rewrite lookup_insert_eq. intros [= <-]. eauto.
  - rewrite lookup_insert_ne by done. apply Hg.
Qed.

Lemma ask_spec q g :
  capacities_ok (dg_salt_env g) → cache_ok g →
  ∃ g', ask q g = Some (g', price (dg_spec g) (dg_salt_env g) q) ∧
    cache_ok g' ∧ dg_spec g' = dg_spec g ∧ dg_salt_env g' = dg_salt_env g.
Proof.
  intros Hc Hg. destruct (load_spec (request_bucket q) g Hc Hg) as (g' & Hl & Hg' & Hs & He).
  exists g'. split_and!; auto.
  assert (Hu : ∀ c, get_bucket_capacity (dg_salt_env g) (request_bucket q) = Ok c →
                    c / 256 -w 1 = c / 256 - 1).
  { intros c Hcap. destruct (Hc _ c Hcap). apply wsub_small. unfold in_u64.
    assert (1 ≤ c / 256) by (apply Z.div_le_lower_bound; lia).
    assert (c / 256 ≤ c) by (apply Z.div_le_upper_bound; lia). lia. }
  unfold price, request_base.
  destruct q; simpl in *; unfold sstore_set_gas, new_account_gas, create_contract_gas, with_multiplier;
    rewrite Hl; simpl; destruct (get_bucket_capacity _ _) as [c|e]; try done;
    unfold sstore_set_gas_for_multiplier, new_account_gas_for_multiplier,
      create_contract_gas_for_multiplier, sat_mul; rewrite Hs;
    destruct (is_enabled (dg_spec g) REX); rewrite ?(Hu c eq_refl); done.
Qed.

Lemma ask_all_spec qs g :
  capacities_ok (dg_salt_env g) → cache_ok g →
  snd <$> ask_all qs g = Some (map (price (dg_spec g) (dg_salt_env g)) qs).
Proof.
  revert g. induction qs as [|q qs IH]; intros g Hc Hg; [done|]. simpl.
  destruct (ask_spec q g Hc Hg) as (g1 & -> & Hg1 & Hs & He). simpl.
  specialize (IH g1). rewrite He, Hs in IH. specialize (IH Hc Hg1).
  destruct (ask_all qs g1) as [[g2 rs]|]; simpl in *; [|done]. by injection IH as ->.
Qed.
End cache.

(** C20: storage gas is a pure price list.  Against an environment whose buckets have at least
    the minimum size, any sequence of requests in a block is answered, without panic or
    wrap-around, by the price of each request alone: the cache and the order of requests are
    invisible, prices saturate instead of wrapping, and from Rex on a bucket of minimum size
    costs nothing extra, the price an exempt transaction always pays. *)
Theorem storage_gas_price_list {S} `{HS : SaltEnv S} spec (env : S) parent qs :
  capacities_ok env →
  snd <$> ask_all qs (new spec env parent) = Some (map (price spec env) qs) ∧
  (is_enabled spec REX = true → ∀ q,
     (get_bucket_capacity env (request_bucket q) = Ok 256 → price spec env q = Ok 0) ∧
     sstore_set_gas_unscaled (new spec env parent) = 0 ∧
     new_account_gas_unscaled (new spec env parent) = 0 ∧
     create_contract_gas_unscaled (new spec env parent) = 0).
Proof.
  intros Hc. split; [by apply (ask_all_spec qs (new spec env parent))|].
  intros Hr q. unfold price, sstore_set_gas_unscaled, new_account_gas_unscaled,
    create_contract_gas_unscaled, sstore_set_gas_for_multiplier, new_account_gas_for_multiplier,
    create_contract_gas_for_multiplier. simpl. rewrite Hr. split_and!; try done.
  intros ->. f_equal. change (256 / 256 - 1) with 0. rewrite Z.mul_0_r. u64_lia.
Qed.

(** An environment with one bucket grown to ten units. *)
Inductive grown_env : Type := mkGrownEnv.

#[local] Instance grown_salt_env : SaltEnv grown_env := {|
  SaltError := unit;
  get_bucket_capacity _ b := Ok (if b =? 7 then 2560 else 256);
  bucket_id_for_account a := a;
  bucket_id_for_slot a k := a + k;
|}.

Lemma storage_gas_price_list_witness :
  snd <$> ask_all [SstoreSet 3 4; NewAccount 7; NewAccount 8; SstoreSet 3 4] (new REX6 mkGrownEnv 0) =
  Some [Ok 180000; Ok 225000; Ok 0; Ok 180000].
Proof.
  assert (Hc : capacities_ok mkGrownEnv).
  { intros b c. simpl. destruct (b =? 7); intros [= <-]; u64_lia. }
  exact (proj1 (storage_gas_price_list REX6 mkGrownEnv 0
           [SstoreSet 3 4; NewAccount 7; NewAccount 8; SstoreSet 3 4] Hc)).
Defined.
