(* ===== verification/Context.v ===== *)
(** The execution context: [evm/context.rs] and the [Host], [HostExt] and [JournalInspectTr]
    implementations of [evm/host.rs].

    [MegaContext] wraps the upstream context with the MegaETH state.  The fields behind
    [Rc<RefCell<_>>] are plain fields here: each borrow in the code ends before the next one
    starts, so no borrow can panic.  The upstream context keeps the fields the code names
    (transaction, block number, beneficiary, journal, stashed error); everything else it holds
    is the type [W], and its own host methods are the class [OpHost]. *)

From S2P Require Import Prelude Spec Revm LimitCheck FrameLimit Interfaces.
From S2P Require Import ComputeGas DataSize KVUpdate StateGrowth StorageCallStipend.
From S2P Require Import AdditionalLimit Access DynamicGas SystemTx LimitCheck Interfaces.

(** A stashed [ContextError]; the text of a custom error is not modelled. *)
Inductive ContextError : Type := ErrorDb | ErrorCustom.

Record OpContext (J W : Type) : Type := mkOp {
  op_tx : MegaTransaction;
  op_block_number : Z;
  op_beneficiary : Address;
  op_journal : J;
  op_error : option ContextError;
  op_world : W;
}.
Arguments mkOp {J W} _ _ _ _ _ _.
Arguments op_tx {J W} _.
Arguments op_block_number {J W} _.
Arguments op_beneficiary {J W} _.
Arguments op_journal {J W} _.
Arguments op_error {J W} _.
Arguments op_world {J W} _.

(** [OracleEnv]: the backend of the oracle contract; a hint may change it. *)
Class OracleEnv (O : Type) := {
  get_oracle_storage : O → U256 → option U256;
  on_hint : O → Address → Z → Bytes → O;
}.

(** The account reads of the host that load one account. *)
Inductive account_read : Type := ReadBalance | ReadDelegated | ReadCode | ReadCodeHash.

(** The host methods of the upstream context.  A loaded value comes with its coldness. *)
Class OpHost (J W : Type) := {
  journal_depth : J → Z;
  loaded_value : Type;
  inner_block_env :
    VolatileDataAccessType → Z → OpContext J W → OpContext J W * option U256;
  inner_read : account_read → Address → OpContext J W → OpContext J W * option (loaded_value * bool);
  inner_sload : Address → U256 → OpContext J W → OpContext J W * option (U256 * bool);
  (** The result of [SELFDESTRUCT] as far as it is read: [previously_destroyed]. *)
  inner_selfdestruct : Address → Address → OpContext J W → OpContext J W * option bool;
}.

Section context.
Context `{R : Revm} `{RS : RevmState} {J : Type} `{HJ : !JournalInspectTr J} {W : Type}.
Context `{HH : !OpHost J W} {S : Type} `{HS : SaltEnv S} {O : Type} `{HO : OracleEnv O}.

Record MegaContext : Type := mkContext {
  inner : OpContext J W;
  ctx_spec : MegaSpecId;
  disable_beneficiary : bool;
  additional_limit : AdditionalLimit;
  dynamic_storage_gas_cost : DynamicGasCost S;
  oracle_env : O;
  volatile_data_tracker : VolatileDataAccessTracker;
  inside_sandbox : bool;
  system_address : Address;
}.

Implicit Types ctx : MegaContext.

(** * Field updates *)

Definition op_with_journal (o : OpContext J W) (j : J) : OpContext J W :=
  mkOp (op_tx o) (op_block_number o) (op_beneficiary o) j (op_error o) (op_world o).
Definition op_with_error (o : OpContext J W) (e : ContextError) : OpContext J W :=
  mkOp (op_tx o) (op_block_number o) (op_beneficiary o) (op_journal o) (Some e) (op_world o).
Definition op_with_tx (o : OpContext J W) (tx : MegaTransaction) : OpContext J W :=
  mkOp tx (op_block_number o) (op_beneficiary o) (op_journal o) (op_error o) (op_world o).

Definition with_inner ctx o : MegaContext :=
  mkContext o (ctx_spec ctx) (disable_beneficiary ctx) (additional_limit ctx)
    (dynamic_storage_gas_cost ctx) (oracle_env ctx) (volatile_data_tracker ctx)
    (inside_sandbox ctx) (system_address ctx).
Definition with_additional_limit ctx a : MegaContext :=
  mkContext (inner ctx) (ctx_spec ctx) (disable_beneficiary ctx) a
    (dynamic_storage_gas_cost ctx) (oracle_env ctx) (volatile_data_tracker ctx)
    (inside_sandbox ctx) (system_address ctx).
Definition with_dynamic_gas ctx g : MegaContext :=
  mkContext (inner ctx) (ctx_spec ctx) (disable_beneficiary ctx) (additional_limit ctx)
    g (oracle_env ctx) (volatile_data_tracker ctx) (inside_sandbox ctx) (system_address ctx).
Definition with_oracle ctx o : MegaContext :=
  mkContext (inner ctx) (ctx_spec ctx) (disable_beneficiary ctx) (additional_limit ctx)
    (dynamic_storage_gas_cost ctx) o (volatile_data_tracker ctx) (inside_sandbox ctx)
    (system_address ctx).
Definition with_tracker ctx t : MegaContext :=
  mkContext (inner ctx) (ctx_spec ctx) (disable_beneficiary ctx) (additional_limit ctx)
    (dynamic_storage_gas_cost ctx) (oracle_env ctx) t (inside_sandbox ctx) (system_address ctx).
Definition with_journal ctx j : MegaContext := with_inner ctx (op_with_journal (inner ctx) j).

(** * [context.rs] *)

(** [new_with_context], from the part of the upstream context that is kept. *)
Definition new_with_context (o : OpContext J W) (spec : MegaSpecId) (salt : S) (oracle : O)
    : MegaContext :=
  let tx_limits := from_spec spec in
  mkContext o spec false (AdditionalLimit.new spec tx_limits)
    (DynamicGas.new spec salt (sat_sub (op_block_number o) 1)) oracle
    (Access.new (block_env_access_compute_gas_limit tx_limits)
       (oracle_access_compute_gas_limit tx_limits))
    false MEGA_SYSTEM_ADDRESS.

Definition with_tx_runtime_limits ctx (tx_limits : EvmTxRuntimeLimits) : MegaContext :=
  let ctx := with_additional_limit ctx (AdditionalLimit.new (ctx_spec ctx) tx_limits) in
  with_tracker ctx (Access.new (block_env_access_compute_gas_limit tx_limits)
                      (oracle_access_compute_gas_limit tx_limits)).

Definition set_system_address ctx (address : Address) : MegaContext :=
  mkContext (inner ctx) (ctx_spec ctx) (disable_beneficiary ctx) (additional_limit ctx)
    (dynamic_storage_gas_cost ctx) (oracle_env ctx) (volatile_data_tracker ctx)
    (inside_sandbox ctx) address.

Definition set_inside_sandbox ctx (value : bool) : MegaContext :=
  mkContext (inner ctx) (ctx_spec ctx) (disable_beneficiary ctx) (additional_limit ctx)
    (dynamic_storage_gas_cost ctx) (oracle_env ctx) (volatile_data_tracker ctx) value
    (system_address ctx).

Definition generated_data_size ctx : Z := tx_usage (data_size (additional_limit ctx)).
Definition kv_update_count ctx : Z := tx_usage (kv_update (additional_limit ctx)).

Definition reset_volatile_data_access ctx : MegaContext :=
  with_tracker ctx (Access.reset (volatile_data_tracker ctx)).

Definition mark_block_env_accessed (ty : VolatileDataAccessType) ctx : MegaContext :=
  with_tracker ctx (Access.mark_block_env_accessed ty (volatile_data_tracker ctx)).

Definition check_and_mark_beneficiary_balance_access (address : Address) ctx
    : MegaContext * bool :=
  if op_beneficiary (inner ctx) =? address then
    (with_tracker ctx (mark_beneficiary_balance_accessed (volatile_data_tracker ctx)), true)
  else (ctx, false).

Definition check_tx_beneficiary_access ctx : MegaContext :=
  let tx := op_tx (inner ctx) in
  let beneficiary := op_beneficiary (inner ctx) in
  let ctx :=
    if tx_caller tx =? beneficiary then
      with_tracker ctx (mark_beneficiary_balance_accessed (volatile_data_tracker ctx))
    else ctx in
  match tx_kind tx with
  | Some recipient =>
      if recipient =? beneficiary then
        with_tracker ctx (mark_beneficiary_balance_accessed (volatile_data_tracker ctx))
      else ctx
  | None => ctx
  end.

Definition on_new_block ctx : MegaContext :=
  if is_enabled (ctx_spec ctx) MINI_REX then
    with_dynamic_gas ctx
      (DynamicGas.on_new_block (op_block_number (inner ctx)) (dynamic_storage_gas_cost ctx))
  else ctx.

Definition on_new_tx ctx : panics MegaContext :=
  let ctx := reset_volatile_data_access ctx in
  ctx ←
    (if is_enabled (ctx_spec ctx) MINI_REX then
       a ← AdditionalLimit.before_tx_start (op_tx (inner ctx))
             (AdditionalLimit.reset (additional_limit ctx));
       Some (with_additional_limit ctx a)
     else Some ctx);
  let ctx :=
    if is_enabled (ctx_spec ctx) REX6 &&
       is_system_originated (op_tx (inner ctx)) (system_address ctx)
    then with_additional_limit ctx (mark_exempt (additional_limit ctx))
    else ctx in
  let ctx := check_tx_beneficiary_access ctx in
  Some
    (if is_enabled (ctx_spec ctx) REX4 then
       match get_compute_gas_limit (volatile_data_tracker ctx) with
       | Some limit => with_additional_limit ctx (set_compute_gas_limit limit (additional_limit ctx))
       | None => ctx
       end
     else ctx).

(** * [JournalInspectTr for MegaContext] *)

(** A database error is stashed and reported as [Err(())]. *)
Definition stash {A E : Type} ctx (j : J) (r : result A E) : MegaContext * result A unit :=
  let ctx := with_journal ctx j in
  match r with
  | Ok v => (ctx, Ok v)
  | Err _ => (with_inner ctx (op_with_error (inner ctx) ErrorCustom), Err tt)
  end.

#[export] Instance context_inspect : JournalInspectTr MegaContext := {|
  DBError := unit;
  inspect_account address load_code ctx :=
    let '(j, r) := Interfaces.inspect_account address load_code (op_journal (inner ctx)) in
    stash ctx j r;
  inspect_account_delegated spec address ctx :=
    '(j, r) ← Interfaces.inspect_account_delegated spec address (op_journal (inner ctx));
    Some (stash ctx j r);
  inspect_storage spec address key ctx :=
    '(j, r) ← Interfaces.inspect_storage spec address key (op_journal (inner ctx));
    Some (stash ctx j r);
|}.

(** * [HostExt] *)

(** The shape of the three storage-gas methods: an exempt transaction pays the unscaled
    price, and an error of the environment is stashed. *)
Definition storage_gas {E : Type} (unscaled : DynamicGasCost S → Z)
    (scaled : DynamicGasCost S → panics (DynamicGasCost S * result Z E)) ctx
    : panics (MegaContext * option Z) :=
  if is_exempt (has_exceeded_limit (additional_limit ctx)) then
    Some (ctx, Some (unscaled (dynamic_storage_gas_cost ctx)))
  else
    '(g, r) ← scaled (dynamic_storage_gas_cost ctx);
    let ctx := with_dynamic_gas ctx g in
    match r with
    | Ok v => Some (ctx, Some v)
    | Err _ => Some (with_inner ctx (op_with_error (inner ctx) ErrorCustom), None)
    end.

Definition sstore_set_storage_gas (address : Address) (key : U256) ctx :=
  storage_gas sstore_set_gas_unscaled (sstore_set_gas address key) ctx.
Definition new_account_storage_gas (address : Address) ctx :=
  storage_gas new_account_gas_unscaled (new_account_gas address) ctx.
Definition create_contract_storage_gas (address : Address) ctx :=
  storage_gas create_contract_gas_unscaled (create_contract_gas address) ctx.

Definition volatile_access_disabled ctx : bool :=
  Access.volatile_access_disabled (journal_depth (op_journal (inner ctx)))
    (volatile_data_tracker ctx).

Definition best_effort_resolve_eip7702_delegate_address (address : Address) ctx
    : MegaContext * Address :=
  let '(j, r) :=
    resolve_eip7702_delegate_address (ctx_spec ctx) address (op_journal (inner ctx)) in
  (with_journal ctx j, match r with Ok a => a | Err _ => address end).

(** * [Host] *)

(** [basefee], [gas_limit], [difficulty], [prevrandao], [block_number], [timestamp],
    [beneficiary], [block_hash], [blob_gasprice] and [blob_hash]: [number] is the argument of
    the two hash lookups. *)
Definition block_env_read (ty : VolatileDataAccessType) (number : Z) ctx
    : MegaContext * option U256 :=
  let ctx := mark_block_env_accessed ty ctx in
  let '(o, v) := inner_block_env ty number (inner ctx) in
  (with_inner ctx o, v).

Definition read_inner (what : account_read) (address : Address) ctx
    : MegaContext * option (loaded_value * bool) :=
  let '(o, v) := inner_read what address (inner ctx) in (with_inner ctx o, v).

(** [balance], [load_account_code] and [load_account_code_hash]. *)
Definition host_read (what : account_read) (address : Address) ctx
    : MegaContext * option (loaded_value * bool) :=
  let '(ctx, _) := check_and_mark_beneficiary_balance_access address ctx in
  read_inner what address ctx.

Definition load_account_delegated (address : Address) ctx
    : MegaContext * option (loaded_value * bool) :=
  let '(ctx, _) := check_and_mark_beneficiary_balance_access address ctx in
  let ctx :=
    if is_enabled (ctx_spec ctx) REX6 then
      let '(ctx, resolved) := best_effort_resolve_eip7702_delegate_address address ctx in
      if negb (resolved =? address)
      then fst (check_and_mark_beneficiary_balance_access resolved ctx) else ctx
    else ctx in
  read_inner ReadDelegated address ctx.

Definition sload (address : Address) (key : U256) ctx : MegaContext * option (U256 * bool) :=
  let oracle := is_enabled (ctx_spec ctx) MINI_REX && (address =? ORACLE_CONTRACT_ADDRESS) in
  let ctx :=
    if oracle && is_enabled (ctx_spec ctx) REX3 &&
       negb (tx_caller (op_tx (inner ctx)) =? system_address ctx)
    then with_tracker ctx (fst (check_and_mark_oracle_access address (volatile_data_tracker ctx)))
    else ctx in
  match (if oracle then get_oracle_storage (oracle_env ctx) key else None) with
  | Some value => (ctx, Some (value, true))
  | None =>
      let '(o, v) := inner_sload address key (inner ctx) in
      (with_inner ctx o, (λ '(value, is_cold), (value, if oracle then true else is_cold)) <$> v)
  end.

(** The slots of an account that went from zero to non-zero. *)
Definition new_slot_count (acc : Account) : Z :=
  Z.of_nat (length (filter (λ kv, slot_original (snd kv) = 0 ∧ slot_present (snd kv) ≠ 0)
                      (map_to_list (acc_storage acc)))).

Definition selfdestruct_refund (address : Address) ctx : MegaContext * option Z :=
  if is_enabled (ctx_spec ctx) REX4 then
    let '(j, r) := Interfaces.inspect_account address false (op_journal (inner ctx)) in
    (with_journal ctx j,
     match r with
     | Ok account =>
         if CreatedLocal (acc_status account) then Some (1 + new_slot_count account) else None
     | Err _ => None
     end)
  else (ctx, None).

Definition selfdestruct (address target : Address) ctx : MegaContext * option bool :=
  let ctx :=
    if is_enabled (ctx_spec ctx) REX4
    then fst (check_and_mark_beneficiary_balance_access target ctx) else ctx in
  let '(ctx, refund) := selfdestruct_refund address ctx in
  let '(o, res) := inner_selfdestruct address target (inner ctx) in
  let ctx := with_inner ctx o in
  match refund, res with
  | Some n, Some previously_destroyed =>
      if negb previously_destroyed
      then (with_additional_limit ctx (on_selfdestruct n (additional_limit ctx)), res)
      else (ctx, res)
  | _, _ => (ctx, res)
  end.
End context.

Arguments MegaContext J W S O : clear implicits.

(** [OracleEnv for EmptyExternalEnv]. *)
#[export] Instance empty_oracle_env : OracleEnv EmptyExternalEnv := {|
  get_oracle_storage _ _ := None;
  on_hint e _ _ _ := e;
|}.

(** * A reference host, to evaluate contexts on concrete inputs

    The journal is a depth; inspection finds empty accounts. *)

Record RefJournal : Type := mkRefJournal { rj_depth : Z }.

Definition ref_account `{RS : RevmState} : Account :=
  mkAccount account_info_default ∅ status_not_existing 0.

#[export] Instance ref_journal_inspect `{RS : RevmState} : JournalInspectTr RefJournal := {|
  DBError := Empty_set;
  inspect_account _ _ j := (j, Ok ref_account);
  inspect_account_delegated _ _ j := Some (j, Ok ref_account);
  inspect_storage _ _ _ j := Some (j, Ok (mkSlot 0 0 0 true));
|}.

#[export] Instance reference_host : OpHost RefJournal unit := {|
  journal_depth := rj_depth;
  loaded_value := U256;
  inner_block_env _ _ o := (o, Some 7);
  inner_read _ _ o := (o, Some (0, true));
  inner_sload _ _ o := (o, Some (0, false));
  inner_selfdestruct _ _ o := (o, Some false);
|}.

Definition ref_tx (caller : Address) (to : option Address) : MegaTransaction :=
  mkTx 0 None [] caller to 0 0 1 0 None.

Definition ref_context (spec : MegaSpecId) (tx : MegaTransaction)
    : MegaContext RefJournal unit EmptyExternalEnv EmptyExternalEnv :=
  new_with_context (mkOp tx 10 99 (mkRefJournal 0) None tt) spec mkEmptyExternalEnv mkEmptyExternalEnv.
