(* ===== verification/Precompiles.v ===== *)
(** Precompiled contracts: [evm/precompiles.rs].

    The table of a spec is op-revm's table of Isthmus with two entries replaced, and a call of a
    precompile is op-revm's call with the gas capped at the remaining compute gas, the returned
    gas counter put back on the caller's budget, and the compute gas recorded.  The precompiles
    themselves, and the call, are upstream: the class [OpPrecompiles], with their documented
    behaviour in [OpPrecompilesLaws]. *)

From S2P Require Import Prelude Spec Revm LimitCheck FrameLimit FrameLimitFacts Interfaces.
From S2P Require Import ComputeGas DataSize KVUpdate StateGrowth StorageCallStipend.
From S2P Require Import AdditionalLimit AdditionalLimitFacts LimitOutcomes.
From S2P Require Import Access DynamicGas SystemTx Context LimitCheck Interfaces.

(** * Upstream *)

(** The rest of revm's gas counter. *)
Class GasCounter `{R : Revm} := {
  gas_spent : Gas → Z;
  gas_refunded : Gas → Z;
  gas_set_spent : Z → Gas → Gas;
  gas_record_refund : Z → Gas → Gas;
  is_ok_or_revert : InstructionResult → bool;
}.

Class GasCounterLaws `{R : Revm} (G : GasCounter) := {
  spent_remaining g : gas_remaining g ≤ gas_limit g → gas_spent g = gas_limit g - gas_remaining g;
  set_spent_new l n :
    0 ≤ n → gas_limit (gas_set_spent n (gas_new l)) = l ∧
    gas_remaining (gas_set_spent n (gas_new l)) = sat_sub l n ∧
    gas_refunded (gas_set_spent n (gas_new l)) = 0;
  record_refund_ok n g :
    gas_limit (gas_record_refund n g) = gas_limit g ∧
    gas_remaining (gas_record_refund n g) = gas_remaining g ∧
    gas_refunded (gas_record_refund n g) = gas_refunded g + n;
}.

(** A precompile, from its input and its gas limit. *)
Record PrecompileOutput : Type := mkOutput {
  out_gas_used : Z;
  out_bytes : Bytes;
}.

Definition Precompile (E : Type) : Type := Bytes → Z → result PrecompileOutput E.

Class OpPrecompiles `{R : Revm} (J W : Type) := {
  PrecompileError : Type;
  PrecompileOutOfGas : PrecompileError;
  (** [op_revm::precompiles::isthmus()], [modexp::OSAKA], and the KZG precompile. *)
  isthmus : gmap Address (Precompile PrecompileError);
  modexp_osaka : Address * Precompile PrecompileError;
  KZG_ADDRESS : Address;
  kzg_run : Precompile PrecompileError;
  (** What a call passes, and the error text of a fatal failure. *)
  InputsImpl : Type;
  fatal : Type;
  (** [PrecompileProvider::<OpContext<DB>>::run] on a table. *)
  op_run : gmap Address (Precompile PrecompileError) → Address → InputsImpl → bool → Z →
           OpContext J W → OpContext J W * result (option InterpreterResult) fatal;
}.

Abbreviation PrecompilesMap := (gmap Address (Precompile PrecompileError)) (only parsing).

Section precompiles.
Context `{R : Revm} {J W : Type} `{HP : !OpPrecompiles J W}.

(** * Tables *)

Definition GAS_COST : Z := 100000.

Definition KZG_POINT_EVALUATION : Precompile PrecompileError := λ input gas_limit,
  if gas_limit <? GAS_COST then Err PrecompileOutOfGas
  else
    match kzg_run input gas_limit with
    | Ok output => Ok (mkOutput GAS_COST (out_bytes output))
    | Err e => Err e
    end.

(** [extend]: later entries replace earlier ones. *)
Definition extend (entries : list (Address * Precompile PrecompileError)) (t : PrecompilesMap)
    : PrecompilesMap :=
  foldl (λ t e, <[e.1 := e.2]> t) t entries.

Definition mini_rex : PrecompilesMap :=
  extend [modexp_osaka; (KZG_ADDRESS, KZG_POINT_EVALUATION)] isthmus.
Definition rex : PrecompilesMap := mini_rex.

Record MegaPrecompiles : Type := mkMegaPrecompiles {
  mp_inner : PrecompilesMap;
  mp_spec : MegaSpecId;
}.

Definition new_with_spec (spec : MegaSpecId) : MegaPrecompiles :=
  mkMegaPrecompiles
    (match spec with
     | EQUIVALENCE => isthmus
     | MINI_REX => mini_rex
     | REX | REX1 | REX2 | REX3 | REX4 | REX5 | REX6 => rex
     end) spec.

(** [set_spec]: whether the table changed. *)
Definition set_spec (spec : MegaSpecId) (p : MegaPrecompiles) : MegaPrecompiles * bool :=
  if bool_decide (spec = mp_spec p) then (p, false) else (new_with_spec spec, true).

(** [with_dyn_precompiles] of the EVM: a dynamic precompile replaces the entry of its address. *)
Definition apply_dyn_precompiles (dyn : PrecompilesMap) (t : PrecompilesMap) : PrecompilesMap :=
  dyn ∪ t.

(** * A call *)

Context {S O : Type} `{HG : !GasCounter}.
Local Notation ctx_t := (MegaContext J W S O).
Implicit Types ctx : ctx_t.

Definition effective_gas_limit (gas_limit : Z) ctx : panics Z :=
  if is_enabled (ctx_spec ctx) REX5 then
    remaining ← current_call_remaining_compute_gas (additional_limit ctx);
    Some (Z.min gas_limit remaining)
  else Some gas_limit.

(** The gas counter on the caller's budget. *)
Definition normalize (caller_gas_limit : Z) (output : InterpreterResult) : InterpreterResult :=
  if is_ok_or_revert (ir_result output) then
    let spent := gas_spent (ir_gas output) in
    let refunded := gas_refunded (ir_gas output) in
    mkInterpreterResult (ir_result output) (ir_output output)
      (gas_record_refund refunded (gas_set_spent spent (gas_new caller_gas_limit)))
  else output.

(** The compute gas of a call from Rex5 on. *)
Definition precompile_compute_gas (address : Address) (output : InterpreterResult) : Z :=
  if is_ok_or_revert (ir_result output) then gas_spent (ir_gas output)
  else if (address =? KZG_ADDRESS) && (GAS_COST <=? gas_limit (ir_gas output)) then GAS_COST
  else gas_limit (ir_gas output).

(** [context.additional_limit.borrow_mut().record_compute_gas(..)], whose answer is dropped. *)
Definition record_ctx (n : Z) ctx : panics ctx_t :=
  '(a, _) ← record_compute_gas n (additional_limit ctx); Some (with_additional_limit ctx a).

Definition run (t : PrecompilesMap) (address : Address) (inputs : InputsImpl) (is_static : bool)
    (caller_gas_limit : Z) ctx : panics (ctx_t * result (option InterpreterResult) fatal) :=
  let is_rex5_enabled := is_enabled (ctx_spec ctx) REX5 in
  limit ← effective_gas_limit caller_gas_limit ctx;
  let '(o, r) := op_run t address inputs is_static limit (inner ctx) in
  let ctx := with_inner ctx o in
  match r with
  | Err e => Some (ctx, Err e)
  | Ok None => Some (ctx, Ok None)
  | Ok (Some output) =>
      if is_rex5_enabled then
        let output := normalize caller_gas_limit output in
        ctx ← record_ctx (precompile_compute_gas address output) ctx;
        Some (ctx, Ok (Some output))
      else if is_enabled (ctx_spec ctx) MINI_REX then
        ctx ← record_ctx (gas_spent (ir_gas output)) ctx;
        Some (ctx, Ok (Some output))
      else Some (ctx, Ok (Some output))
  end.
End precompiles.

(** * What a call costs *)

Class OpPrecompilesLaws `{R : Revm} `{HG : !GasCounter} {J W : Type} (HP : OpPrecompiles J W) := {
  (** The counter of a result starts at the gas limit of the call. *)
  op_run_gas t a i st g o o' out :
    0 ≤ g → op_run t a i st g o = (o', Ok (Some out)) →
    gas_limit (ir_gas out) = g ∧ 0 ≤ gas_remaining (ir_gas out) ≤ g;
  (** The entry of the table is what runs; a failure of the entry is a halt. *)
  op_run_entry t a i st g o o' out p :
    op_run t a i st g o = (o', Ok (Some out)) → t !! a = Some p →
    ∃ input, match p input g with
             | Ok x => 0 ≤ out_gas_used x ≤ g →
                 is_ok_or_revert (ir_result out) = true ∧ gas_spent (ir_gas out) = out_gas_used x
             | Err _ => is_ok_or_revert (ir_result out) = false
             end;
}.

Section costs.
Context `{R : Revm} {RL : RevmLaws R} {J W : Type} `{HP : !OpPrecompiles J W} {S O : Type}.
Context `{HG : !GasCounter} {GL : GasCounterLaws HG} `{HL : !OpPrecompilesLaws HP}.
Local Notation ctx_t := (MegaContext J W S O).
Implicit Types ctx : ctx_t.

Lemma kzg_entry (spec : MegaSpecId) :
  is_enabled spec MINI_REX = true →
  mp_inner (new_with_spec spec) !! KZG_ADDRESS = Some KZG_POINT_EVALUATION.
Proof. intros H. destruct spec; try done; apply lookup_insert_eq. Qed.

(** A context in which compute gas is exact and no limit has been exceeded. *)
Record compute_within ctx : Prop := mkWithin {
  cw_exact : exact_state (cg_frame_tracker (compute_gas (additional_limit ctx)));
  cw_detained : cg_detained_limit (compute_gas (additional_limit ctx)) ≤
    FrameLimit.tx_limit (cg_frame_tracker (compute_gas (additional_limit ctx)));
  cw_check :
    exceeded_limit <$> ComputeGas.check_limit (compute_gas (additional_limit ctx)) = Some false;
  cw_verdict : has_exceeded_limit (additional_limit ctx) = WithinLimit;
}.

Lemma remaining_bound t rem :
  exact_state (cg_frame_tracker t) →
  cg_detained_limit t ≤ FrameLimit.tx_limit (cg_frame_tracker t) →
  ComputeGas.current_call_remaining t = Some rem →
  0 ≤ rem ∧ total_used (cg_frame_tracker t) + rem ≤ u64_max.
Proof.
  intros Hx Hd H. rewrite exact_remaining in H by done. injection H as <-.
  destruct (exact_usage _ Hx) as [_ Hu].
  assert (ComputeGas.tx_limit t ≤ u64_max) as Hl.
  { destruct Hx as ([(Htx & _) _] & _). destruct Htx as (?&?&?&?).
    unfold ComputeGas.tx_limit, FrameLimit.tx_limit in *. u64_lia. }
  unfold sat_sub. destruct (cg_rex4_enabled t); u64_lia.
Qed.

(** Recording at most what remains. *)
Lemma record_within ctx n rem :
  compute_within ctx → current_call_remaining_compute_gas (additional_limit ctx) = Some rem →
  0 ≤ n ≤ rem →
  let a := additional_limit ctx in
  let ctx' := with_additional_limit ctx (with_compute_gas a (record_gas_used n (compute_gas a))) in
  record_ctx n ctx = Some ctx' ∧ compute_within ctx'.
Proof.
  intros [Hx Hd Hc Hv] Hrem Hn a ctx'. destruct (remaining_bound _ _ Hx Hd Hrem) as [Hr Hu].
  pose proof (remaining_exact _ n rem Hx Hd (proj1 Hn) ltac:(lia) Hc Hrem) as Hcheck.
  rewrite (proj2 (Z.leb_le n rem) (proj2 Hn)) in Hcheck.
  destruct (exact_record n _ Hx (proj1 Hn) ltac:(lia)) as (Hx' & _).
  split.
  - unfold record_ctx, record_compute_gas. fold a. cbn [has_exceeded_limit with_compute_gas].
    fold a in Hv. rewrite Hv. cbn [within_limit negb]. fold a in Hcheck.
    change (Interfaces.check_limit (compute_gas (with_compute_gas a
      (record_gas_used n (compute_gas a))))) with
      (ComputeGas.check_limit (record_gas_used n (compute_gas a))).
    destruct (ComputeGas.check_limit (record_gas_used _ _)) as [c|]; [|done].
    assert (exceeded_limit c = false) as Hc' by (by injection Hcheck). simpl. by rewrite Hc'.
  - split; [exact Hx'| |exact Hcheck|exact Hv].
    simpl. unfold record_gas_used, add_frame_persistent, FrameLimit.tx_limit in *.
    destruct (frame_stack _); exact Hd.
Qed.

(** The gas of a call, by its result. *)
Definition gas_settled (a : Address) (g rem n : Z) (out : InterpreterResult) : Prop :=
  let limit := Z.min g rem in
  if is_ok_or_revert (ir_result out) then
    gas_limit (ir_gas out) = g ∧ gas_remaining (ir_gas out) = g - n
  else
    gas_limit (ir_gas out) = limit ∧
    n = if (a =? KZG_ADDRESS) && (GAS_COST <=? limit) then GAS_COST else limit.

Lemma normalize_settles t a i st g rem o o' out :
  0 ≤ g → 0 ≤ rem → op_run t a i st (Z.min g rem) o = (o', Ok (Some out)) →
  let out' := normalize g out in
  let n := precompile_compute_gas a out' in
  0 ≤ n ≤ Z.min g rem ∧ gas_settled a g rem n out' ∧
  ir_result out' = ir_result out ∧ ir_output out' = ir_output out ∧
  (is_ok_or_revert (ir_result out) = true →
   n = gas_spent (ir_gas out) ∧ gas_refunded (ir_gas out') = gas_refunded (ir_gas out)).
Proof.
  intros Hg Hr H. assert (0 ≤ Z.min g rem) as Hm by lia.
  destruct (op_run_gas _ _ _ _ _ _ _ _ Hm H) as [Hl Hrem].
  unfold normalize, precompile_compute_gas, gas_settled.
  destruct (is_ok_or_revert (ir_result out)) eqn:Hok; cbn [ir_result ir_gas ir_output]; rewrite Hok.
  - pose proof (spent_remaining (ir_gas out) ltac:(lia)) as Hs. rewrite Hl in Hs.
    assert (0 ≤ gas_spent (ir_gas out)) as Hs0 by lia.
    destruct (set_spent_new g _ Hs0) as (H1 & H2 & H3).
    destruct (record_refund_ok (gas_refunded (ir_gas out))
      (gas_set_spent (gas_spent (ir_gas out)) (gas_new g))) as (H4 & H5 & H6).
    rewrite H1 in H4. rewrite H2 in H5. rewrite H3 in H6. unfold sat_sub in H5.
    rewrite (spent_remaining (gas_record_refund _ _)) by lia. split_and!; try done; try lia.
  - rewrite Hl. unfold GAS_COST. split_and!; try done.
    + destruct ((a =? _) && _) eqn:E; [apply andb_true_iff in E as [_ E%Z.leb_le]|]; lia.
    + destruct ((a =? _) && _) eqn:E; [apply andb_true_iff in E as [_ E%Z.leb_le]|]; lia.
Qed.

(** What the caller gets back of the gas it passed: the upstream frame accounting returns the
    remaining gas of a success or a revert, and nothing of a halt. *)
Definition given_back (out : InterpreterResult) : Z :=
  if is_ok_or_revert (ir_result out) then gas_remaining (ir_gas out) else 0.

Lemma settled_loss a g rem n out :
  n ≤ Z.min g rem → gas_settled a g rem n out →
  n ≤ g - given_back out ∧
  (is_ok_or_revert (ir_result out) = true → n = g - given_back out) ∧
  (is_ok_or_revert (ir_result out) = false → given_back out = 0 ∧
   n = if (a =? KZG_ADDRESS) && (GAS_COST <=? Z.min g rem) then GAS_COST else Z.min g rem).
Proof.
  unfold gas_settled, given_back. intros Hn Hs.
  destruct (is_ok_or_revert (ir_result out)); [split_and!; try done; lia|].
  destruct Hs as [_ Hs]. split_and!; try done. lia.
Qed.

(** C33: a precompile call from Rex5 on is metered and stays within the compute budget.  Called
    with no limit exceeded, it returns and never exceeds the compute gas of the frame or of the
    transaction; the answer is the upstream precompile's, run with the caller's gas [g] capped
    at the remaining compute gas [rem].  If it succeeds or reverts, the compute gas recorded is
    the gas spent, which is exactly what the caller loses of [g], and the refund is kept.  On
    any other result the caller loses all of [g], while the compute gas recorded is only what
    the precompile was run with, [min g rem], and for the KZG precompile its fixed price once
    it can be paid: the record never exceeds the loss.  The KZG precompile of the spec's table
    records [min 100000 (min g rem)] whether its proof verifies or not. *)
Theorem precompile_settles t a i st g ctx rem :
  is_enabled (ctx_spec ctx) REX5 = true → 0 ≤ g → compute_within ctx →
  current_call_remaining_compute_gas (additional_limit ctx) = Some rem →
  ∃ ctx' r, run t a i st g ctx = Some (ctx', r) ∧ compute_within ctx' ∧
    match r with
    | Ok (Some out) => ∃ n out0,
        op_run t a i st (Z.min g rem) (inner ctx) = (inner ctx', Ok (Some out0)) ∧
        ir_result out = ir_result out0 ∧ ir_output out = ir_output out0 ∧
        0 ≤ n ≤ Z.min g rem ∧ n ≤ g - given_back out ∧
        (is_ok_or_revert (ir_result out) = true →
         n = g - given_back out ∧ n = gas_spent (ir_gas out0) ∧
         gas_refunded (ir_gas out) = gas_refunded (ir_gas out0)) ∧
        (is_ok_or_revert (ir_result out) = false →
         given_back out = 0 ∧
         n = if (a =? KZG_ADDRESS) && (GAS_COST <=? Z.min g rem) then GAS_COST else Z.min g rem) ∧
        gas_settled a g rem n out ∧
        compute_gas (additional_limit ctx') = record_gas_used n (compute_gas (additional_limit ctx)) ∧
        (a = KZG_ADDRESS → t !! a = Some KZG_POINT_EVALUATION →
         n = Z.min GAS_COST (Z.min g rem))
    | _ => additional_limit ctx' = additional_limit ctx
    end.
Proof.
  intros H5 Hg Hw Hrem.
  destruct (remaining_bound _ _ (cw_exact _ Hw) (cw_detained _ Hw) Hrem) as [Hr _].
  unfold run, effective_gas_limit. rewrite H5, Hrem. simpl.
  destruct (op_run t a i st (Z.min g rem) (inner ctx)) as [o [[out|]|e]] eqn:Hrun.
  2, 3: by do 2 eexists; split; [done|]; split; [by destruct Hw|].
  destruct (normalize_settles _ _ _ _ _ _ _ _ _ Hg Hr Hrun) as (Hn & Hs & Hres & Hout & Hok).
  set (n := precompile_compute_gas a (normalize g out)) in *.
  destruct (record_within (with_inner ctx o) n rem) as [Hrec Hw']; [by destruct Hw|done|lia|].
  simpl in Hrec. rewrite Hrec. do 2 eexists. split; [done|]. split; [exact Hw'|]. exists n, out.
  destruct (settled_loss a g rem n (normalize g out) (proj2 Hn) Hs) as (Hl & Hle & Hlh).
  split_and!; try done; try lia.
  { rewrite Hres. intros Ho. split_and!; [|by apply Hok..]. rewrite <- Hres in Ho. by apply Hle. }
  intros -> Ht.
  destruct (op_run_entry _ _ _ _ _ _ _ _ _ Hrun Ht) as [input Hin].
  unfold KZG_POINT_EVALUATION in Hin. unfold gas_settled in Hs. rewrite Hres in Hs.
  destruct (Z.ltb_spec (Z.min g rem) GAS_COST) as [Hlt|Hge].
  - rewrite Hin, Z.eqb_refl in Hs. rewrite (proj2 (Z.leb_gt _ _) Hlt) in Hs. simpl in Hs. lia.
  - destruct (kzg_run input _) as [x|e]; simpl in Hin.
    + destruct Hin as [Hin Hsp]; [unfold GAS_COST in *; lia|]. destruct (Hok Hin) as [-> _]. lia.
    + rewrite Hin, Z.eqb_refl, (proj2 (Z.leb_le _ _) Hge) in Hs. simpl in Hs. lia.
Qed.
End costs.

(** * A failing KZG proof *)

Module reference.
(** The reference gas counter, with refunds. *)
Definition counter_revm : Revm := {|
  Gas := RefGas * Z;
  gas_new l := (mkRefGas l l, 0);
  gas_limit g := rg_limit (fst g);
  gas_remaining g := rg_remaining (fst g);
  gas_record_cost g c :=
    let '(h, ok) := gas_record_cost (Revm := reference_revm) (fst g) c in ((h, snd g), ok);
  gas_erase_cost g c := (gas_erase_cost (Revm := reference_revm) (fst g) c, snd g);
  InstructionResult := RefInstructionResult;
  OutOfGas := RefOutOfGas;
  Revert := RefRevert;
  Return_ := RefReturn;
  CallTooDeep := RefCallTooDeep;
  is_ok := is_ok (Revm := reference_revm);
  is_original_eq_present := is_original_eq_present (Revm := reference_revm);
  is_original_eq_new := is_original_eq_new (Revm := reference_revm);
  abi_encode_limit_exceeded := abi_encode_limit_exceeded (Revm := reference_revm);
  calculate_initial_tx_gas_for_tx := calculate_initial_tx_gas_for_tx (Revm := reference_revm);
  tx_type := tx_type (Revm := reference_revm);
  DEPOSIT_TRANSACTION_TYPE := DEPOSIT_TRANSACTION_TYPE (Revm := reference_revm);
  EIP4788_SYSTEM_ADDRESS := EIP4788_SYSTEM_ADDRESS (Revm := reference_revm);
|}.

#[local] Instance counter : GasCounter (R := counter_revm) :=
  @Build_GasCounter counter_revm (λ g : RefGas * Z, rg_limit (fst g) - rg_remaining (fst g)) snd
    (λ n (g : RefGas * Z),
      (mkRefGas (rg_limit (fst g)) (sat_sub (rg_limit (fst g)) n), snd g))
    (λ n (g : RefGas * Z), (fst g, snd g + n))
    (λ r : RefInstructionResult,
      match r with RefStop | RefReturn | RefRevert => true | _ => false end).

#[local] Instance counter_laws : GasCounterLaws (R := counter_revm) counter.
Proof. by split. Qed.

(** One precompile at address 4 and the KZG precompile at 10, which accepts one input. *)
Definition ref_kzg : Precompile bool := λ input _,
  if bool_decide (input = [1]) then Ok (mkOutput 50000 [1]) else Err false.

Definition ref_result (g : Z) (r : result PrecompileOutput bool)
    : InterpreterResult (R := counter_revm) :=
  match r with
  | Ok x =>
      if out_gas_used x <=? g
      then mkInterpreterResult (R := counter_revm) RefReturn (out_bytes x)
             (mkRefGas g (g - Z.max 0 (out_gas_used x)), 0)
      else mkInterpreterResult (R := counter_revm) RefOutOfGas [] (mkRefGas g g, 0)
  | Err _ => mkInterpreterResult (R := counter_revm) RefOutOfGas [] (mkRefGas g g, 0)
  end.

#[local] Instance ref_precompiles {J W} : OpPrecompiles (R := counter_revm) J W :=
  @Build_OpPrecompiles counter_revm J W bool true {[4 := λ input g, Ok (mkOutput 15 input)]}
    (5, λ _ _, Ok (mkOutput 500 [])) 10 ref_kzg Bytes unit
    (λ t a input _ g o, (o, Ok ((λ p, ref_result g (p input g)) <$> t !! a))).

#[local] Instance ref_precompiles_laws {J W} :
  OpPrecompilesLaws (HG := counter) (J := J) (W := W) ref_precompiles.
Proof.
  split.
  - intros t a i st g o o' out Hg H. injection H as _ H.
    apply fmap_Some in H as (p & _ & ->). unfold ref_result.
    destruct (p i g) as [x|e]; [|simpl; lia]. destruct (Z.leb_spec (out_gas_used x) g); simpl; lia.
  - intros t a i st g o o' out p H Ht. injection H as _ H.
    apply fmap_Some in H as (p' & Hp' & ->). pose proof (eq_trans (eq_sym Hp') Ht) as Hp.
    injection Hp as ->. exists i. unfold ref_result. destruct (p i g) as [x|e]; [|done]. intros Hle.
    rewrite (proj2 (Z.leb_le _ _) (proj2 Hle)). split; [done|]. simpl. lia.
Qed.

Definition kzg_context : MegaContext RefJournal unit EmptyExternalEnv EmptyExternalEnv :=
  ref_context REX5 (ref_tx 18 (Some 10)).

Lemma kzg_context_within : compute_within kzg_context.
Proof.
  split; [|by vm_compute|by vm_compute|by vm_compute].
  split; [apply tracker_new_inv; by vm_compute|]. by vm_compute.
Qed.

(** With 250000 gas, a proof that does not verify costs the fixed price in compute gas. *)
Lemma precompile_settles_witness :
  ∃ ctx' out,
    run (HP := ref_precompiles) (HG := counter) (mp_inner (new_with_spec (HP := ref_precompiles) REX5)) 10 [2] false 250000 kzg_context =
      Some (ctx', Ok (Some out)) ∧
    is_ok_or_revert (ir_result out) = false ∧
    compute_gas (additional_limit ctx') =
      record_gas_used 100000 (compute_gas (additional_limit kzg_context)).
Proof.
  destruct (precompile_settles (HP := ref_precompiles) (HG := counter) (mp_inner (new_with_spec (HP := ref_precompiles) REX5)) 10 [2] false 250000
    kzg_context 200000000 eq_refl ltac:(done) kzg_context_within ltac:(vm_compute; reflexivity))
    as (ctx' & r & Hrun & _ & Hr).
  assert (∃ out, r = Ok (Some out) ∧ is_ok_or_revert (ir_result out) = false) as (out & -> & Hout).
  { vm_compute in Hrun. injection Hrun as _ <-. by eexists. }
  destruct Hr as (n & out0 & _ & _ & _ & _ & _ & _ & _ & _ & Hc & Hn). exists ctx', out.
  split; [exact Hrun|]. split; [exact Hout|]. rewrite Hc. f_equal.
  exact (Hn eq_refl (kzg_entry REX5 eq_refl)).
Defined.
End reference.
