(* ===== verification/TxIsolation.v ===== *)
(** Transactions are isolated from each other: what [on_new_tx] sets up does not depend on the
    transactions that ran before.

    Every hook keeps what [reset] returns, so a [reset] after any number of hooks is a [reset]
    of the freshly built limit. *)

From S2P Require Import Prelude Spec Revm LimitCheck FrameLimit FrameLimitFacts Interfaces.
From S2P Require Import ComputeGas DataSize KVUpdate StateGrowth StorageCallStipend.
From S2P Require Import AdditionalLimit AdditionalLimitFacts Access DynamicGas SystemTx.
From S2P Require Import Context LimitCheck Interfaces.

Create HintDb reset_eq.

(** * Frame trackers *)

Section frame_tracker.
Context {I : Type}.
Implicit Types t : FrameLimitTracker I.

Lemma reset_tx_persistent n t : FrameLimit.reset (add_tx_persistent n t) = FrameLimit.reset t.
Proof. done. Qed.
Lemma reset_persistent n t : FrameLimit.reset (fst (add_frame_persistent n t)) = FrameLimit.reset t.
Proof. by destruct t as [? [] ? ? ? ? ?]. Qed.
Lemma reset_discardable n t : FrameLimit.reset (add_frame_discardable n t) = FrameLimit.reset t.
Proof. by destruct t as [? [] ? ? ? ? ?]. Qed.
Lemma reset_refund n t : FrameLimit.reset (add_frame_refund n t) = FrameLimit.reset t.
Proof. by destruct t as [? [] ? ? ? ? ?]. Qed.
Lemma reset_parent_discardable n t :
  FrameLimit.reset (add_parent_discardable n t) = FrameLimit.reset t.
Proof. by destruct t as [? [|? []] ? ? ? ? ?]. Qed.
Lemma reset_frame_mut f t : FrameLimit.reset (frame_mut f t) = FrameLimit.reset t.
Proof. by destruct t as [? [] ? ? ? ? ?]. Qed.
Lemma reset_push_limit l i t : FrameLimit.reset (push_frame_with_limit l i t) = FrameLimit.reset t.
Proof. done. Qed.
Lemma reset_push i t t' : FrameLimit.push_frame i t = Some t' → FrameLimit.reset t' = FrameLimit.reset t.
Proof. intros H. apply push_frame_inv in H as (l & _ & ->). apply reset_push_limit. Qed.
Lemma reset_pop b t : FrameLimit.reset (fst (pop_frame b t)) = FrameLimit.reset t.
Proof. by destruct t as [? [|? []] ? ? ? ? ?], b. Qed.
Lemma reset_reset t : FrameLimit.reset (FrameLimit.reset t) = FrameLimit.reset t.
Proof. done. Qed.
End frame_tracker.

#[export] Hint Rewrite @reset_tx_persistent @reset_persistent @reset_discardable @reset_refund
  @reset_parent_discardable @reset_frame_mut @reset_push_limit @reset_pop @reset_reset : reset_eq.

Section call_tracker.
Implicit Types t : CallTracker.

Lemma reset_push_info i t t' :
  push_call_frame_info i t = Some t' → FrameLimit.reset t' = FrameLimit.reset t.
Proof.
  unfold push_call_frame_info. destruct (flt_rex4_enabled t); [apply reset_push|].
  intros [= <-]. apply reset_push_limit.
Qed.

Lemma reset_claim t : FrameLimit.reset (fst (claim_parent_update t)) = FrameLimit.reset t.
Proof.
  unfold claim_parent_update. destruct (frame_stack t); [done|]. case_bools; [done|..|done].
  apply reset_frame_mut.
Qed.

Lemma reset_push_call a b t t' c :
  push_call_frame a b t = Some (t', c) → FrameLimit.reset t' = FrameLimit.reset t.
Proof.
  unfold push_call_frame. pose proof (reset_claim t) as Hc.
  destruct b; [destruct (claim_parent_update t) as [t1 ?]|]; simpl in *; intros H; bind_inv H;
    apply reset_push_info in E; congruence.
Qed.

Lemma reset_push_create t t' c :
  push_create_frame t = Some (t', c) → FrameLimit.reset t' = FrameLimit.reset t.
Proof.
  unfold push_create_frame. pose proof (reset_claim t) as Hc.
  destruct (claim_parent_update t) as [t1 ?]; simpl in *; intros H; bind_inv H.
  apply reset_push_info in E. congruence.
Qed.

Lemma reset_created_address a t t' :
  set_created_address a t = Some t' → FrameLimit.reset t' = FrameLimit.reset t.
Proof.
  unfold set_created_address. destruct (frame_stack t); [by intros [= <-]|].
  destruct (target_address _); [done|]. intros [= <-]. apply reset_frame_mut.
Qed.

Lemma reset_unwind b t t' :
  pop_frame_unwind_parent b t = Some t' → FrameLimit.reset t' = FrameLimit.reset t.
Proof.
  unfold pop_frame_unwind_parent. pose proof (reset_pop b t) as Hp.
  destruct (pop_frame b t) as [t1 child]. simpl in Hp. intros H.
  destruct b; [congruence|]. destruct child as [e|]; [|congruence].
  case_bools_in H; [|congruence]. destruct (frame_stack t1) eqn:E; [done|].
  injection H as <-. by rewrite reset_frame_mut.
Qed.
End call_tracker.

(** * Dimensions *)

(** Every hook of a dimension keeps what [reset] returns. *)
Class ResetLaws (T : Type) `{R : Revm, RS : RevmState, !TxRuntimeLimit T} := {
  reset_after_reset (t : T) : Interfaces.reset (Interfaces.reset t) = Interfaces.reset t;
  reset_after_tx_start tx (t : T) :
    Interfaces.reset (Interfaces.before_tx_start tx t) = Interfaces.reset t;
  reset_after_push (t t' : T) :
    Interfaces.push_empty_frame t = Some t' → Interfaces.reset t' = Interfaces.reset t;
  reset_after_init {J} {HJ : JournalInspectTr J} fi (j : J) (t t' : T) j' r :
    Interfaces.before_frame_init fi j t = Some (t', j', r) →
    Interfaces.reset t' = Interfaces.reset t;
  reset_after_frame f (t t' : T) :
    after_frame_init_on_frame f t = Some t' → Interfaces.reset t' = Interfaces.reset t;
  reset_after_before_run f (t : T) :
    Interfaces.reset (Interfaces.before_frame_run f t) = Interfaces.reset t;
  reset_after_run f act (t : T) :
    Interfaces.reset (Interfaces.after_frame_run f act t) = Interfaces.reset t;
  reset_after_return last r (t t' : T) :
    Interfaces.before_frame_return_result last r t = Some t' →
    Interfaces.reset t' = Interfaces.reset t;
  reset_after_sstore s (t : T) :
    Interfaces.reset (Interfaces.after_sstore s t) = Interfaces.reset t;
  reset_after_log n d (t : T) :
    Interfaces.reset (Interfaces.after_log n d t) = Interfaces.reset t;
  reset_after_selfdestruct n (t : T) :
    Interfaces.reset (Interfaces.after_selfdestruct n t) = Interfaces.reset t;
}.

Section dimensions.
Context `{R : Revm} `{RS : RevmState}.

Lemma compute_reset f t :
  FrameLimit.reset f = FrameLimit.reset (cg_frame_tracker t) →
  ComputeGas.reset (ComputeGas.with_frame_tracker t f) = ComputeGas.reset t.
Proof.
  intros H. unfold ComputeGas.reset. simpl. rewrite H.
  assert (FrameLimit.tx_limit f = FrameLimit.tx_limit (cg_frame_tracker t)) as Hl.
  { change (FrameLimit.tx_limit (FrameLimit.reset f) =
            FrameLimit.tx_limit (FrameLimit.reset (cg_frame_tracker t))). by rewrite H. }
  done.
Qed.

Lemma growth_reset f t :
  FrameLimit.reset f = FrameLimit.reset (sg_frame_tracker t) →
  StateGrowth.reset (StateGrowth.with_frame_tracker t f) = StateGrowth.reset t.
Proof. intros H. unfold StateGrowth.reset. simpl. by rewrite H. Qed.

Lemma data_reset f t :
  FrameLimit.reset f = FrameLimit.reset (ds_frame_tracker t) →
  DataSize.reset (DataSize.with_frame_tracker t f) = DataSize.reset t.
Proof. intros H. unfold DataSize.reset. simpl. by rewrite H. Qed.

Lemma kv_reset f t :
  FrameLimit.reset f = FrameLimit.reset (kv_frame_tracker t) →
  KVUpdate.reset (KVUpdate.with_frame_tracker t f) = KVUpdate.reset t.
Proof. intros H. unfold KVUpdate.reset. simpl. by rewrite H. Qed.

Lemma compute_push_reset t t' : ComputeGas.push_frame t = Some t' → ComputeGas.reset t' = ComputeGas.reset t.
Proof.
  unfold ComputeGas.push_frame. destruct (cg_rex4_enabled t).
  - intros H. bind_inv H. simplify_eq. apply compute_reset. by eapply reset_push.
  - intros [= <-]. by apply compute_reset.
Qed.

#[export] Program Instance compute_gas_reset_laws : ResetLaws ComputeGasTracker.
Next Obligation.
  intros t. simpl. unfold ComputeGas.reset. simpl. destruct (cg_rex1_enabled t) eqn:E; simpl; by rewrite E.
Qed.
Next Obligation. done. Qed.
Next Obligation. intros t t' H. by apply compute_push_reset. Qed.
Next Obligation.
  intros J HJ fi j t t' j' r H. simpl in H. unfold ComputeGas.before_frame_init in H. bind_inv H.
  simplify_eq. by apply compute_push_reset.
Qed.
Next Obligation. by intros f t t' [= <-]. Qed.
Next Obligation. done. Qed.
Next Obligation. done. Qed.
Next Obligation.
  intros last r t t' H. simpl in H. unfold ComputeGas.before_frame_return_result in H. bind_inv H.
  simplify_eq. apply compute_reset, reset_pop.
Qed.
Next Obligation. done. Qed.
Next Obligation. done. Qed.
Next Obligation. done. Qed.

Lemma growth_push_reset t t' :
  StateGrowth.push_frame t = Some t' → StateGrowth.reset t' = StateGrowth.reset t.
Proof.
  unfold StateGrowth.push_frame. destruct (is_enabled _ _).
  - intros H. bind_inv H. simplify_eq. apply growth_reset. by eapply reset_push.
  - intros [= <-]. by apply growth_reset.
Qed.

Lemma record_growth_reset n t : StateGrowth.reset (record_growth n t) = StateGrowth.reset t.
Proof. apply growth_reset, reset_discardable. Qed.
Lemma growth_refund_reset n t : StateGrowth.reset (StateGrowth.record_refund n t) = StateGrowth.reset t.
Proof. apply growth_reset, reset_refund. Qed.

#[export] Program Instance state_growth_reset_laws : ResetLaws StateGrowthTracker.
Next Obligation. done. Qed.
Next Obligation. done. Qed.
Next Obligation. intros t t' H. by apply growth_push_reset. Qed.
Next Obligation.
  intros J HJ fi j t t' j' r H. simpl in H. unfold StateGrowth.before_frame_init in H. bind_inv H.
  simpl. rewrite <- (growth_push_reset _ _ E).
  destruct (fi_frame_input fi) as [c|c|]; [| |done].
  - destruct (ci_transfers_value c); [|by simplify_eq]. bind_inv H.
    destruct y; simplify_eq; [|done]. destruct (state_clear_aware_is_empty _); [|done].
    apply record_growth_reset.
  - destruct (is_enabled _ _); [|simplify_eq; apply record_growth_reset].
    destruct (inspect_account _ _ _) as [j1 [acc|]]; [|by simplify_eq].
    destruct (inspect_account _ _ j1) as [j2 [acc2|]]; [|by simplify_eq]. simplify_eq.
    destruct (state_clear_aware_is_empty _); [|done]. apply record_growth_reset.
Qed.
Next Obligation. by intros f t t' [= <-]. Qed.
Next Obligation. done. Qed.
Next Obligation. done. Qed.
Next Obligation.
  intros last r t t' H. simpl in H. unfold StateGrowth.before_frame_return_result in H. bind_inv H.
  simplify_eq. apply growth_reset, reset_pop.
Qed.
Next Obligation.
  intros s t. simpl. unfold StateGrowth.after_sstore. repeat case_match;
    auto using record_growth_reset, growth_refund_reset.
Qed.
Next Obligation. done. Qed.
Next Obligation. intros n t. apply growth_refund_reset. Qed.

Lemma data_discardable_reset n t :
  DataSize.reset (DataSize.record_discardable n t) = DataSize.reset t.
Proof. apply data_reset, reset_discardable. Qed.
Lemma data_parent_reset n t :
  DataSize.reset (DataSize.record_parent_discardable n t) = DataSize.reset t.
Proof. apply data_reset, reset_parent_discardable. Qed.
Lemma data_refund_reset n t : DataSize.reset (DataSize.record_refund n t) = DataSize.reset t.
Proof. apply data_reset, reset_refund. Qed.
Lemma data_persistent_reset n t :
  DataSize.reset (DataSize.with_frame_tracker t (add_tx_persistent n (ds_frame_tracker t))) = DataSize.reset t.
Proof. by apply data_reset. Qed.
Lemma data_authorities_reset l t : DataSize.reset (DataSize.record_authorities l t) = DataSize.reset t.
Proof.
  unfold DataSize.record_authorities. revert t. induction l as [|[a|] l IH]; intros t; simpl; [done| |done].
  rewrite IH. apply data_persistent_reset.
Qed.

Lemma kv_discardable_reset n t :
  KVUpdate.reset (KVUpdate.record_discardable n t) = KVUpdate.reset t.
Proof. apply kv_reset, reset_discardable. Qed.
Lemma kv_parent_reset n t :
  KVUpdate.reset (KVUpdate.record_parent_discardable n t) = KVUpdate.reset t.
Proof. apply kv_reset, reset_parent_discardable. Qed.
Lemma kv_refund_reset n t : KVUpdate.reset (KVUpdate.record_refund n t) = KVUpdate.reset t.
Proof. apply kv_reset, reset_refund. Qed.
Lemma kv_persistent_reset n t :
  KVUpdate.reset (KVUpdate.with_frame_tracker t (add_tx_persistent n (kv_frame_tracker t))) = KVUpdate.reset t.
Proof. by apply kv_reset. Qed.
Lemma kv_authorities_reset l t : KVUpdate.reset (KVUpdate.record_authorities l t) = KVUpdate.reset t.
Proof.
  unfold KVUpdate.record_authorities. revert t. induction l as [|[a|] l IH]; intros t; simpl; [done| |done].
  rewrite IH. apply kv_persistent_reset.
Qed.
End dimensions.

#[export] Hint Rewrite data_discardable_reset data_parent_reset data_refund_reset
  data_persistent_reset data_authorities_reset kv_discardable_reset kv_parent_reset
  kv_refund_reset kv_persistent_reset kv_authorities_reset record_growth_reset
  growth_refund_reset : reset_eq.

Section call_dimensions.
Context `{R : Revm} `{RS : RevmState}.

#[export] Program Instance data_size_reset_laws : ResetLaws DataSizeTracker.
Next Obligation. done. Qed.
Next Obligation.
  intros tx t. simpl. unfold DataSize.before_tx_start. case_bools; by autorewrite with reset_eq.
Qed.
Next Obligation.
  intros t t' H. simpl in H. unfold DataSize.push_empty_frame in H. bind_inv H. simplify_eq.
  apply data_reset. by eapply reset_push_info.
Qed.
Next Obligation.
  intros J HJ fi j t t' j' r H. simpl in *. unfold DataSize.before_frame_init in H.
  destruct (fi_frame_input fi) as [c|c|]; [| |done]; bind_inv H.
  - assert (Hr : DataSize.reset (DataSize.with_frame_tracker t x) = DataSize.reset t)
      by (apply data_reset; by eapply reset_push_call).
    case_bools_in H; injection H as <- <- <-; autorewrite with reset_eq; exact Hr.
  - assert (Hr : DataSize.reset (DataSize.with_frame_tracker t x) = DataSize.reset t)
      by (apply data_reset; by eapply reset_push_create).
    case_bools_in H; injection H as <- <- <-; autorewrite with reset_eq; exact Hr.
Qed.
Next Obligation.
  intros f t t' H. simpl in *. unfold DataSize.after_frame_init_on_frame in H.
  destruct (ef_is_create f); [|by simplify_eq]. bind_inv H. bind_inv H. simplify_eq.
  autorewrite with reset_eq. apply data_reset. by eapply reset_created_address.
Qed.
Next Obligation. done. Qed.
Next Obligation.
  intros f [i|] t; simpl; [|done]. case_bools; by autorewrite with reset_eq.
Qed.
Next Obligation.
  intros last r t t' H. simpl in *. unfold DataSize.before_frame_return_result in H. bind_inv H.
  bind_inv H. simplify_eq. apply data_reset. by eapply reset_unwind.
Qed.
Next Obligation.
  intros s t. simpl. unfold DataSize.after_sstore. case_bools; by autorewrite with reset_eq.
Qed.
Next Obligation. intros n d t. simpl. unfold DataSize.after_log. by autorewrite with reset_eq. Qed.
Next Obligation. done. Qed.

#[export] Program Instance kv_update_reset_laws : ResetLaws KVUpdateTracker.
Next Obligation. done. Qed.
Next Obligation.
  intros tx t. simpl. unfold KVUpdate.before_tx_start. case_bools; by autorewrite with reset_eq.
Qed.
Next Obligation.
  intros t t' H. simpl in H. unfold KVUpdate.push_empty_frame in H. bind_inv H. simplify_eq.
  apply kv_reset. by eapply reset_push_info.
Qed.
Next Obligation.
  intros J HJ fi j t t' j' r H. simpl in *. unfold KVUpdate.before_frame_init in H.
  destruct (fi_frame_input fi) as [c|c|]; [| |done]; bind_inv H.
  - assert (Hr : KVUpdate.reset (KVUpdate.with_frame_tracker t x) = KVUpdate.reset t)
      by (apply kv_reset; by eapply reset_push_call).
    case_bools_in H; injection H as <- <- <-; autorewrite with reset_eq; exact Hr.
  - assert (Hr : KVUpdate.reset (KVUpdate.with_frame_tracker t x) = KVUpdate.reset t)
      by (apply kv_reset; by eapply reset_push_create).
    case_bools_in H; injection H as <- <- <-; autorewrite with reset_eq; exact Hr.
Qed.
Next Obligation.
  intros f t t' H. simpl in *. unfold KVUpdate.after_frame_init_on_frame in H.
  destruct (ef_is_create f); [|by simplify_eq]. bind_inv H. bind_inv H. simplify_eq.
  autorewrite with reset_eq. apply kv_reset. by eapply reset_created_address.
Qed.
Next Obligation. done. Qed.
Next Obligation. done. Qed.
Next Obligation.
  intros last r t t' H. simpl in *. unfold KVUpdate.before_frame_return_result in H. bind_inv H.
  bind_inv H. simplify_eq. apply kv_reset. by eapply reset_unwind.
Qed.
Next Obligation.
  intros s t. simpl. unfold KVUpdate.after_sstore. case_bools; by autorewrite with reset_eq.
Qed.
Next Obligation. done. Qed.
Next Obligation. done. Qed.
End call_dimensions.

(** * The aggregate *)

Section aggregate.
Context `{R : Revm} `{RS : RevmState}.
Implicit Types a : AdditionalLimit.

(** [a'] is what [reset] would make of [a], too. *)
Definition same_reset a' a : Prop := AdditionalLimit.reset a' = AdditionalLimit.reset a.

#[export] Instance same_reset_equiv : Equivalence same_reset.
Proof. split; unfold same_reset; congruence. Qed.

Lemma same_growth a b t :
  same_reset a b → Interfaces.reset t = Interfaces.reset (state_growth a) →
  same_reset (with_state_growth a t) b.
Proof. intros <- H. unfold same_reset, AdditionalLimit.reset. simpl in *. by rewrite H. Qed.
Lemma same_data a b t :
  same_reset a b → Interfaces.reset t = Interfaces.reset (data_size a) →
  same_reset (with_data_size a t) b.
Proof. intros <- H. unfold same_reset, AdditionalLimit.reset. simpl in *. by rewrite H. Qed.
Lemma same_kv a b t :
  same_reset a b → Interfaces.reset t = Interfaces.reset (kv_update a) →
  same_reset (with_kv_update a t) b.
Proof. intros <- H. unfold same_reset, AdditionalLimit.reset. simpl in *. by rewrite H. Qed.
Lemma same_compute a b t :
  same_reset a b → Interfaces.reset t = Interfaces.reset (compute_gas a) →
  same_reset (with_compute_gas a t) b.
Proof. intros <- H. unfold same_reset, AdditionalLimit.reset. simpl in *. by rewrite H. Qed.
Lemma same_stipend a b t :
  same_reset a b →
  StorageCallStipend.reset t = StorageCallStipend.reset (storage_call_stipend a) →
  same_reset (with_stipend a t) b.
Proof. intros <- H. unfold same_reset, AdditionalLimit.reset. simpl in *. by rewrite H. Qed.

Lemma check_same a a' c : AdditionalLimit.check_limit a = Some (a', c) → same_reset a' a.
Proof. intros H. by apply check_limit_inv in H as (-> & _). Qed.

Lemma rescue_same g a a' : try_rescue_gas g a = Some a' → same_reset a' a.
Proof.
  unfold try_rescue_gas. intros H. bind_inv H. injection H as <-. apply check_same in E.
  by case_bools.
Qed.

Lemma gas_used_reset g (t : ComputeGasTracker) :
  Interfaces.reset (record_gas_used g t) = Interfaces.reset t.
Proof.
  unfold record_gas_used. pose proof (reset_persistent g (cg_frame_tracker t)) as H.
  destruct (add_frame_persistent g _) as [f []]; by apply compute_reset.
Qed.

Lemma record_same g a a' b : record_compute_gas g a = Some (a', b) → same_reset a' a.
Proof.
  unfold record_compute_gas. intros H.
  assert (Ha : same_reset (with_compute_gas a (record_gas_used g (compute_gas a))) a).
  { apply same_compute; [done|]. apply gas_used_reset. }
  case_bools_in H; [by injection H as <- <-|]. bind_inv H. case_bools_in H; by injection H as <- <-.
Qed.

Lemma create_result_same fi a a' r :
  create_exceeded_limit_result fi a = Some (a', r) → same_reset a' a.
Proof.
  unfold create_exceeded_limit_result. intros H. bind_inv H. bind_inv H. injection H as <- <-.
  by eapply rescue_same.
Qed.
End aggregate.

(** Peels the tracker updates of a hook. *)
Ltac same_solve :=
  lazymatch goal with
  | |- same_reset (with_state_growth _ _) _ => apply same_growth; same_solve
  | |- same_reset (with_data_size _ _) _ => apply same_data; same_solve
  | |- same_reset (with_kv_update _ _) _ => apply same_kv; same_solve
  | |- same_reset (with_compute_gas _ _) _ => apply same_compute; same_solve
  | |- same_reset (with_stipend _ _) _ => apply same_stipend; same_solve
  | |- same_reset _ _ => reflexivity
  | |- Interfaces.reset (Interfaces.before_tx_start _ _) = _ => apply reset_after_tx_start
  | |- Interfaces.reset (Interfaces.before_frame_run _ _) = _ => apply reset_after_before_run
  | |- Interfaces.reset (Interfaces.after_frame_run _ _ _) = _ => apply reset_after_run
  | |- Interfaces.reset (Interfaces.after_sstore _ _) = _ => apply reset_after_sstore
  | |- Interfaces.reset (Interfaces.after_log _ _ _) = _ => apply reset_after_log
  | |- Interfaces.reset (Interfaces.after_selfdestruct _ _) = _ => apply reset_after_selfdestruct
  | |- Interfaces.reset (record_gas_used _ _) = _ => apply gas_used_reset
  | |- Interfaces.reset (ComputeGas.with_frame_tracker _ _) = _ => by apply compute_reset
  | |- Interfaces.reset (StateGrowth.with_frame_tracker _ _) = _ =>
      apply growth_reset; by autorewrite with reset_eq
  | |- Interfaces.reset (DataSize.with_frame_tracker _ _) = _ =>
      apply data_reset; by autorewrite with reset_eq
  | |- Interfaces.reset (KVUpdate.with_frame_tracker _ _) = _ =>
      apply kv_reset; by autorewrite with reset_eq
  | |- _ => try done
  end.

Ltac same_check :=
  repeat match goal with
    | H : (_ ≫= _) = Some _ |- _ => bind_inv H
    | H : Some _ = Some _ |- _ => injection H as <-; subst
    | H : AdditionalLimit.check_limit _ = Some _ |- same_reset _ _ =>
        rewrite (check_same _ _ _ H); clear H
    end; same_solve.

Section hooks.
Context `{R : Revm} `{RS : RevmState}.
Implicit Types a : AdditionalLimit.

Lemma after_init_same r a a' : after_frame_init r a = Some a' → same_reset a' a.
Proof.
  destruct r as [f|r]; [|apply rescue_same]. intros H. unfold after_frame_init in H.
  do 3 bind_inv H. injection H as <-.
  pose proof (reset_after_frame (T := StateGrowthTracker) f _ _ E) as E'.
  pose proof (reset_after_frame (T := DataSizeTracker) f _ _ E0) as E0'.
  pose proof (reset_after_frame (T := KVUpdateTracker) f _ _ E1) as E1'. same_solve; done.
Qed.

Lemma after_run_same r g a a' r' :
  AdditionalLimit.after_frame_run r g a = Some (a', r') → same_reset a' a.
Proof.
  unfold AdditionalLimit.after_frame_run. intros H. bind_inv H. bind_inv H. injection H as <- <-.
  rewrite (rescue_same _ _ _ E0).
  destruct g as [g|]; [|by injection E as <- <-]. bind_inv E. apply record_same in E1.
  case_bools_in E; by injection E as <- <-.
Qed.

Lemma after_instructions_same f act a a' act' :
  after_frame_run_instructions f act a = Some (a', act') → same_reset a' a.
Proof.
  unfold after_frame_run_instructions. intros H.
  set (a1 := with_compute_gas _ _) in H.
  assert (Ha1 : same_reset a1 a) by (unfold a1; same_solve).
  destruct act as [i|]; [|by injection H as <- <-].
  case_bools_in H; try by injection H as <- <-.
  all: bind_inv H; apply check_same in E; case_bools_in H; injection H as <- <-; by rewrite E.
Qed.
End hooks.

Section history.
Context `{R : Revm} `{RS : RevmState}.
Implicit Types a : AdditionalLimit.

Lemma neutral_same a a' :
  neutral_step a a' → cg_rex1_enabled (compute_gas a) = true → same_reset a' a.
Proof.
  intros H Hr. destruct H as [a' c H|l Hl|g a' b H|g a' b H|k|g a' H|tx a' H|k a' H|b a' H|fi a' r H
    |r a' H|f a' r H|r g a' r' H|f act a' act' H|u|s a' b H|a' H|k a' b H|k d a' b H|k| |];
    eauto using check_same, record_same, rescue_same, after_init_same, after_run_same,
      after_instructions_same.
  - apply same_compute; [done|]. simpl. unfold ComputeGas.reset, ComputeGas.set_detained_limit.
    simpl. by rewrite Hr.
  - unfold record_compute_gas_all_dims in H. same_check.
  - unfold try_consume_storage_stipend, try_consume. destruct (negb _); simpl; [same_solve|].
    destruct (st_stack _); simpl; same_solve.
  - unfold AdditionalLimit.before_tx_start in H. same_check.
  - unfold on_rex5_eip7702_authority_creations, record_authority_creations in H. same_check.
  - unfold on_rex6_eip7702_authority_applied in H. destruct b;
      unfold DataSize.record_persistent_account_write, KVUpdate.record_persistent_account_update,
        record_authority_creations in *; same_check.
  - unfold frame_result_if_exceeding_limit in H. case_bools_in H; [by injection H as <- <-|].
    by eapply create_result_same.
  - unfold AdditionalLimit.before_frame_run in H. bind_inv H. apply check_same in E.
    case_bools_in H; injection H as <- <-; rewrite E; same_solve.
  - unfold merge_usage, ComputeGas.merge_persistent_usage, DataSize.merge_persistent_usage,
      KVUpdate.merge_persistent_usage, StateGrowth.merge_persistent_usage. same_solve.
  - unfold on_sstore in H. same_check.
  - unfold AdditionalLimit.record_deposit_caller_creation,
      StateGrowth.record_deposit_caller_creation in H. same_check.
  - unfold AdditionalLimit.record_oracle_hint_bytes, DataSize.record_oracle_hint_bytes in H. same_check.
  - unfold on_log in H. same_check.
  - unfold on_selfdestruct. same_solve.
  - unfold on_selfdestruct_new_account, DataSize.record_account_write, KVUpdate.record_account_update,
      DataSize.record_discardable, KVUpdate.record_discardable, record_growth. same_solve.
  - unfold on_selfdestruct_existing_account, DataSize.record_account_write,
      KVUpdate.record_account_update, DataSize.record_discardable, KVUpdate.record_discardable. same_solve.
Qed.

Lemma push_same a a' : push_step a a' → same_reset a' a.
Proof.
  intros [a1 H|J HJ fi fi' j j' a1 r H].
  - unfold AdditionalLimit.push_empty_frame in H. do 4 bind_inv H. injection H as <-.
    pose proof (reset_after_push (T := StateGrowthTracker) _ _ E) as E'.
    pose proof (reset_after_push (T := DataSizeTracker) _ _ E0) as E0'.
    pose proof (reset_after_push (T := KVUpdateTracker) _ _ E1) as E1'.
    pose proof (reset_after_push (T := ComputeGasTracker) _ _ E2) as E2'. same_solve; done.
  - unfold AdditionalLimit.before_frame_init in H.
    do 4 (bind_inv H; match type of H with context [match ?r with Ok _ => _ | Err _ => _ end] =>
      destruct r; [|done] end).
    destruct (StorageCallStipend.before_frame_init _ _ _) as [[st fi1] cg] eqn:Es. bind_inv H.
    pose proof (reset_after_init (T := StateGrowthTracker) fi _ _ _ _ _ E) as E'.
    pose proof (reset_after_init (T := DataSizeTracker) fi _ _ _ _ _ E0) as E0'.
    pose proof (reset_after_init (T := KVUpdateTracker) fi _ _ _ _ _ E1) as E1'.
    pose proof (reset_after_init (T := ComputeGasTracker) fi _ _ _ _ _ E2) as E2'. apply check_same in E3.
    assert (Hst : StorageCallStipend.reset st = StorageCallStipend.reset (storage_call_stipend a) ∧
                  Interfaces.reset cg = Interfaces.reset (compute_gas a)).
    { unfold StorageCallStipend.before_frame_init in Es.
      repeat case_match; injection Es as <- <- <-; (split; [done|]);
        try exact E2'.
      all: etrans; [apply compute_reset, reset_frame_mut|exact E2']. }
    destruct Hst as [Hst Hcg].
    assert (Ha : same_reset x3 a) by (rewrite E3; same_solve; simpl in *; congruence).
    destruct (exceeded_limit _); [|by injection H as <- <- <- <-].
    bind_inv H. injection H as <- <- <- <-. by rewrite (create_result_same _ _ _ _ E4).
Qed.

Lemma pop_same a a' : pop_step a a' → same_reset a' a.
Proof.
  intros [last r a1 r' H]. unfold AdditionalLimit.before_frame_return_result in H.
  do 6 bind_inv H. pose proof (reset_after_return (T := StateGrowthTracker) last r _ _ E) as E'.
    pose proof (reset_after_return (T := DataSizeTracker) last r _ _ E0) as E0'.
    pose proof (reset_after_return (T := KVUpdateTracker) last r _ _ E1) as E1'.
    pose proof (reset_after_return (T := ComputeGasTracker) last r _ _ E2) as E2'. apply check_same in E4.
  assert (Hst : StorageCallStipend.reset x3 = StorageCallStipend.reset (storage_call_stipend a)).
  { unfold StorageCallStipend.before_frame_return_result in E3. bind_inv E3.
    case_bools_in E3; by injection E3 as <- <-. }
  assert (Ha : same_reset x4 a) by (rewrite E4; same_solve; done).
  case_bools_in H; by injection H as <- <-.
Qed.
End history.

(** * Isolation *)

Section isolation.
Context `{R : Revm} `{RS : RevmState}.

(** What the hooks of earlier transactions can have made of a limit built for [spec] and [l]. *)
Inductive limit_history (spec : MegaSpecId) (l : EvmTxRuntimeLimits) : AdditionalLimit → Prop :=
  | lh_new : limit_history spec l (AdditionalLimit.new spec l)
  | lh_hook a a' : limit_history spec l a → hook_step a a' → limit_history spec l a'
  | lh_exempt a : limit_history spec l a → limit_history spec l (mark_exempt a)
  | lh_reset a : limit_history spec l a → limit_history spec l (AdditionalLimit.reset a).

(** The same for the access tracker. *)
Inductive tracker_history (block_env oracle : Z) : VolatileDataAccessTracker → Prop :=
  | th_new : tracker_history block_env oracle (Access.new block_env oracle)
  | th_block_env ty t :
      tracker_history block_env oracle t →
      tracker_history block_env oracle (Access.mark_block_env_accessed ty t)
  | th_beneficiary t :
      tracker_history block_env oracle t →
      tracker_history block_env oracle (mark_beneficiary_balance_accessed t)
  | th_oracle a t :
      tracker_history block_env oracle t →
      tracker_history block_env oracle (fst (check_and_mark_oracle_access a t))
  | th_disable d t :
      tracker_history block_env oracle t → tracker_history block_env oracle (disable_access d t)
  | th_enable d t :
      tracker_history block_env oracle t →
      tracker_history block_env oracle (fst (enable_access d t))
  | th_returning d t :
      tracker_history block_env oracle t →
      tracker_history block_env oracle (enable_access_if_returning d t)
  | th_merge bits t :
      tracker_history block_env oracle t →
      tracker_history block_env oracle (merge_accesses_from_bitmap bits t)
  | th_reset t :
      tracker_history block_env oracle t → tracker_history block_env oracle (Access.reset t).

Lemma apply_limit_reset n t : Access.reset (apply_or_create_limit n t) = Access.reset t.
Proof. unfold apply_or_create_limit. by destruct (vt_compute_gas_limit t). Qed.

Lemma tracker_history_reset b o t :
  tracker_history b o t → Access.reset t = Access.new b o.
Proof.
  induction 1 as [|ty t _ IH|t _ IH|a t _ IH|d t _ IH|d t _ IH|d t _ IH|bits t _ IH|t _ IH];
    [done|..|done|done]; rewrite <- IH.
  - unfold Access.mark_block_env_accessed. by rewrite apply_limit_reset.
  - unfold mark_beneficiary_balance_accessed. by rewrite apply_limit_reset.
  - unfold check_and_mark_oracle_access. destruct (_ =? _); [|done]. simpl.
    by rewrite apply_limit_reset.
  - unfold disable_access. destruct (disable_depth t); [|done]. by case_bools.
  - unfold enable_access. destruct (disable_depth t); [|done]. by case_bools.
  - unfold enable_access_if_returning. destruct (disable_depth t); [|done]. by case_bools.
Qed.

Lemma new_reset spec l : AdditionalLimit.reset (AdditionalLimit.new spec l) = AdditionalLimit.new spec l.
Proof. by destruct spec. Qed.

Lemma history_reset spec l a :
  is_enabled spec REX1 = true → limit_history spec l a →
  AdditionalLimit.reset a = AdditionalLimit.new spec l.
Proof.
  intros H1. induction 1 as [|a a' _ IH Hs|a _ IH|a _ IH].
  - apply new_reset.
  - rewrite <- IH. assert (Hr : cg_rex1_enabled (compute_gas a) = true).
    { assert (cg_rex1_enabled (compute_gas (AdditionalLimit.reset a)) = true)
        as <- by (by rewrite IH). simpl. unfold ComputeGas.reset. by case_bools. }
    destruct Hs as [Hs|[Hs|Hs]];
      [by apply neutral_same|by apply push_same|by apply pop_same].
  - exact IH.
  - rewrite IH. apply new_reset.
Qed.

(** Before Rex1 the detention of a transaction outlives it: [reset] keeps the detained limit. *)
Lemma detention_survives_before_rex1 spec l cap :
  is_enabled spec REX1 = false →
  detained_compute_gas_limit
    (AdditionalLimit.reset (set_compute_gas_limit cap (AdditionalLimit.new spec l))) =
  Z.min (tx_compute_gas_limit l) cap.
Proof.
  intros H. unfold detained_compute_gas_limit, detained_limit, AdditionalLimit.reset. simpl.
  unfold ComputeGas.reset. simpl. rewrite H. simpl.
  assert (is_enabled spec REX4 = false) as ->; [|done]. by destruct spec.
Qed.
End isolation.

(** C27: transactions are isolated from Rex1 on.  Whatever earlier transactions did to the
    limits and to the access tracker of a context configured with limits [l], [on_new_tx]
    leaves exactly the context it would leave after [with_tx_runtime_limits l] rebuilt both
    from scratch: no usage, verdict, rescued gas, open frame, detention cap, access mark or
    disable depth carries over. *)
Theorem on_new_tx_forgets_history `{R : Revm, RS : RevmState} {J W S O : Type}
    `{HJ : !JournalInspectTr J} `{HH : !OpHost J W} `{HS : SaltEnv S} `{HO : OracleEnv O}
    (ctx : MegaContext J W S O) (l : EvmTxRuntimeLimits) :
  is_enabled (ctx_spec ctx) REX1 = true →
  limit_history (ctx_spec ctx) l (additional_limit ctx) →
  tracker_history (block_env_access_compute_gas_limit l) (oracle_access_compute_gas_limit l)
    (volatile_data_tracker ctx) →
  on_new_tx ctx = on_new_tx (with_tx_runtime_limits ctx l).
Proof.
  intros H1 Ha Ht. apply history_reset in Ha; [|done]. apply tracker_history_reset in Ht.
  unfold on_new_tx. simpl.
  assert (is_enabled (ctx_spec ctx) MINI_REX = true) as Hm by (by destruct (ctx_spec ctx)).
  unfold reset_volatile_data_access. simpl. rewrite Hm, Ha, Ht, new_reset. simpl. done.
Qed.

(** A context in the middle of a transaction that read the oracle: usage, a detention cap and
    an access mark. *)
Definition used_context : MegaContext RefJournal unit EmptyExternalEnv EmptyExternalEnv :=
  let ctx := ref_context REX4 (ref_tx 18 (Some 17)) in
  let ctx := with_tracker ctx
    (fst (check_and_mark_oracle_access ORACLE_CONTRACT_ADDRESS (volatile_data_tracker ctx))) in
  let a := default (additional_limit ctx)
    (fst <$> record_compute_gas 5000 (set_compute_gas_limit 20000000 (additional_limit ctx))) in
  with_additional_limit ctx a.

Lemma on_new_tx_forgets_history_witness :
  on_new_tx used_context = on_new_tx (with_tx_runtime_limits used_context (from_spec REX4)) ∧
  has_accessed_oracle (volatile_data_tracker used_context) = true.
Proof.
  split; [|reflexivity]. apply (on_new_tx_forgets_history used_context (from_spec REX4)).
  - reflexivity.
  - apply (lh_hook REX4 (from_spec REX4)
      (set_compute_gas_limit 20000000 (AdditionalLimit.new REX4 (from_spec REX4)))).
    + apply (lh_hook REX4 (from_spec REX4) (AdditionalLimit.new REX4 (from_spec REX4)));
        [apply lh_new|]. left. apply ns_set_limit. discriminate.
    + left. apply (ns_record _ 5000 _ true). vm_compute. reflexivity.
  - apply (th_oracle _ _ ORACLE_CONTRACT_ADDRESS). apply th_new.
Defined.
