(* ===== verification/Intercept.v ===== *)
(** System contract interception: [system/intercept.rs], with the addresses of [system/control.rs],
    [system/limit_control.rs] and [system/keyless_deploy.rs].

    The ABI of the system contracts is generated from their Solidity interfaces: selectors,
    decoders and encoders are the class [SystemAbi].  The keyless deployment itself is the
    operation of the class [KeylessDeploy]. *)

From S2P Require Import Prelude Spec Revm LimitCheck Interfaces.
From S2P Require Import AdditionalLimit Access DynamicGas SystemTx Context.

Definition KEYLESS_DEPLOY_ADDRESS : Address := 0x6342000000000000000000000000000000000003.
Definition ACCESS_CONTROL_ADDRESS : Address := 0x6342000000000000000000000000000000000004.
Definition LIMIT_CONTROL_ADDRESS : Address := 0x6342000000000000000000000000000000000005.

Class SystemAbi := {
  NonZeroTransfer_SELECTOR : Bytes;
  DISABLED_BY_PARENT_REVERT_DATA : Bytes;
  sendHint_SELECTOR : Bytes;
  keylessDeploy_SELECTOR : Bytes;
  disableVolatileDataAccess_SELECTOR : Bytes;
  enableVolatileDataAccess_SELECTOR : Bytes;
  isVolatileDataAccessDisabled_SELECTOR : Bytes;
  remainingComputeGas_SELECTOR : Bytes;
  (** [sendHintCall::abi_decode]: the topic and the data. *)
  sendHint_decode : Bytes → option (Z * Bytes);
  (** [keylessDeployCall::abi_decode]: the transaction and the gas limit override. *)
  keylessDeploy_decode : Bytes → option (Bytes * U256);
  abi_encode_bool : bool → Bytes;
  abi_encode_u64 : Z → Bytes;
}.

(** The shared memory buffer of the local context and [CallInput::bytes]. *)
Class LocalContext (W : Type) := {
  shared_memory_buffer_slice : W → Z → Z → option Bytes;
  input_bytes : W → CallInput → Bytes;
}.

Section intercept.
Context `{R : Revm} `{RS : RevmState} {J : Type} `{HJ : !JournalInspectTr J} {W : Type}.
Context `{HH : !OpHost J W} {S : Type} `{HS : SaltEnv S} {O : Type} `{HO : OracleEnv O}.
Context `{HA : SystemAbi} `{HL : !LocalContext W}.

Local Notation ctx_t := (MegaContext J W S O).
Implicit Types ctx : ctx_t.

(** [execute_keyless_deploy_call] of the sandbox component. *)
Class KeylessDeploy := {
  execute_keyless_deploy_call : CallInputs → Bytes → U256 → ctx_t → panics (ctx_t * FrameResult);
}.
Context `{HK : KeylessDeploy}.

(** [copy_from_slice] panics when the slice is not four bytes long. *)
Definition peek_selector (input : CallInput) ctx : panics (option Bytes) :=
  match input with
  | InputBytes bytes =>
      if (length bytes <? 4)%nat then Some None else Some (Some (take 4 bytes))
  | InputSharedBuffer start end_ =>
      if sat_sub end_ start <? 4 then Some None
      else
        match shared_memory_buffer_slice (op_world (inner ctx)) start (start + 4) with
        | None => Some None
        | Some slice => _ ← assert_ (length slice =? 4)%nat; Some (Some slice)
        end
  end.

(** [FrameResult::Call] of an interpreter result with the call's whole gas. *)
Definition synthetic (r : InstructionResult) (output : Bytes) (call_inputs : CallInputs)
    : FrameResult :=
  FrameResultCall (mkInterpreterResult r output (gas_new (ci_gas_limit call_inputs)))
    (ci_return_memory_offset call_inputs).

Definition reject_non_zero_transfer (call_inputs : CallInputs) : option FrameResult :=
  match ci_transfer_value call_inputs with
  | Some value =>
      if negb (value =? 0) then Some (synthetic Revert NonZeroTransfer_SELECTOR call_inputs)
      else None
  | None => None
  end.

Definition forward_hint (call_inputs : CallInputs) (bytes : Bytes) ctx : ctx_t :=
  match sendHint_decode bytes with
  | Some (topic, data) =>
      with_oracle ctx (on_hint (oracle_env ctx) (ci_caller call_inputs) topic data)
  | None => ctx
  end.

(** Side effects only: always [None] in the code, so only the context is returned. *)
Definition oracle_hint_intercept (call_inputs : CallInputs) (depth : Z) ctx : panics ctx_t :=
  if negb (ci_target_address call_inputs =? ORACLE_CONTRACT_ADDRESS) then Some ctx
  else if is_enabled (ctx_spec ctx) REX6 &&
          Access.volatile_access_disabled depth (volatile_data_tracker ctx) then Some ctx
  else
    let is_rex5_enabled := is_enabled (ctx_spec ctx) REX5 in
    if is_rex5_enabled && (ci_gas_limit call_inputs =? 0) then Some ctx
    else if is_rex5_enabled then
      selector ← peek_selector (ci_input call_inputs) ctx;
      match selector with
      | None => Some ctx
      | Some selector =>
          if negb (bool_decide (selector = sendHint_SELECTOR)) then Some ctx
          else
            let bytes := input_bytes (op_world (inner ctx)) (ci_input call_inputs) in
            '(a, within) ←
              AdditionalLimit.record_oracle_hint_bytes (Z.of_nat (length bytes))
                (additional_limit ctx);
            let ctx := with_additional_limit ctx a in
            Some (if negb within then ctx else forward_hint call_inputs bytes ctx)
      end
    else
      Some (forward_hint call_inputs (input_bytes (op_world (inner ctx)) (ci_input call_inputs)) ctx).

Definition keyless_deploy_intercept (call_inputs : CallInputs) (depth : Z) ctx
    : panics (ctx_t * option FrameResult) :=
  if inside_sandbox ctx || negb (depth =? 0) then Some (ctx, None)
  else if negb (ci_target_address call_inputs =? KEYLESS_DEPLOY_ADDRESS) then Some (ctx, None)
  else
    selector ← peek_selector (ci_input call_inputs) ctx;
    match selector with
    | None => Some (ctx, None)
    | Some selector =>
        if negb (bool_decide (selector = keylessDeploy_SELECTOR)) then Some (ctx, None)
        else
          match keylessDeploy_decode (input_bytes (op_world (inner ctx)) (ci_input call_inputs)) with
          | None => Some (ctx, None)
          | Some (tx_bytes, gas_limit_override) =>
              '(ctx, r) ← execute_keyless_deploy_call call_inputs tx_bytes gas_limit_override ctx;
              Some (ctx, Some r)
          end
    end.

Definition handle_disable (call_inputs : CallInputs) (caller_journal_depth : Z) ctx
    : ctx_t * option FrameResult :=
  match reject_non_zero_transfer call_inputs with
  | Some r => (ctx, Some r)
  | None =>
      (with_tracker ctx (disable_access caller_journal_depth (volatile_data_tracker ctx)),
       Some (synthetic Return_ [] call_inputs))
  end.

Definition handle_enable (call_inputs : CallInputs) (caller_journal_depth : Z) ctx
    : ctx_t * option FrameResult :=
  match reject_non_zero_transfer call_inputs with
  | Some r => (ctx, Some r)
  | None =>
      let '(t, success) := enable_access caller_journal_depth (volatile_data_tracker ctx) in
      (with_tracker ctx t,
       Some (if success : bool then synthetic Return_ [] call_inputs
             else synthetic Revert DISABLED_BY_PARENT_REVERT_DATA call_inputs))
  end.

Definition handle_is_disabled (call_inputs : CallInputs) (caller_journal_depth : Z) ctx
    : ctx_t * option FrameResult :=
  match reject_non_zero_transfer call_inputs with
  | Some r => (ctx, Some r)
  | None =>
      let disabled :=
        Access.volatile_access_disabled caller_journal_depth (volatile_data_tracker ctx) in
      (ctx, Some (synthetic Return_ (abi_encode_bool disabled) call_inputs))
  end.

Definition access_control_intercept (call_inputs : CallInputs) (depth : Z) ctx
    : panics (ctx_t * option FrameResult) :=
  if negb (ci_target_address call_inputs =? ACCESS_CONTROL_ADDRESS) then Some (ctx, None)
  else
    let caller_journal_depth := depth in
    selector ← peek_selector (ci_input call_inputs) ctx;
    Some
      match selector with
      | None => (ctx, None)
      | Some selector =>
          if bool_decide (selector = disableVolatileDataAccess_SELECTOR)
          then handle_disable call_inputs caller_journal_depth ctx
          else if bool_decide (selector = enableVolatileDataAccess_SELECTOR)
          then handle_enable call_inputs caller_journal_depth ctx
          else if bool_decide (selector = isVolatileDataAccessDisabled_SELECTOR)
          then handle_is_disabled call_inputs caller_journal_depth ctx
          else (ctx, None)
      end.

Definition handle_remaining_compute_gas (call_inputs : CallInputs) ctx
    : panics (ctx_t * option FrameResult) :=
  match reject_non_zero_transfer call_inputs with
  | Some r => Some (ctx, Some r)
  | None =>
      remaining ← current_call_remaining_compute_gas (additional_limit ctx);
      Some (ctx, Some (synthetic Return_ (abi_encode_u64 remaining) call_inputs))
  end.

Definition limit_control_intercept (call_inputs : CallInputs) ctx
    : panics (ctx_t * option FrameResult) :=
  if negb (ci_target_address call_inputs =? LIMIT_CONTROL_ADDRESS) then Some (ctx, None)
  else
    selector ← peek_selector (ci_input call_inputs) ctx;
    match selector with
    | None => Some (ctx, None)
    | Some selector =>
        if bool_decide (selector = remainingComputeGas_SELECTOR)
        then handle_remaining_compute_gas call_inputs ctx
        else Some (ctx, None)
    end.

Definition dispatch_system_contract_interceptors (call_inputs : CallInputs) (depth : Z) ctx
    : panics (ctx_t * option FrameResult) :=
  let spec := ctx_spec ctx in
  ctx ← (if is_enabled spec REX2 then oracle_hint_intercept call_inputs depth ctx else Some ctx);
  '(ctx, r) ←
    (if is_enabled spec REX2 then keyless_deploy_intercept call_inputs depth ctx
     else Some (ctx, None));
  match r with
  | Some r => Some (ctx, Some r)
  | None =>
      '(ctx, r) ←
        (if is_enabled spec REX4 then access_control_intercept call_inputs depth ctx
         else Some (ctx, None));
      match r with
      | Some r => Some (ctx, Some r)
      | None =>
          if is_enabled spec REX4 then limit_control_intercept call_inputs ctx
          else Some (ctx, None)
      end
  end.
End intercept.

Arguments KeylessDeploy {R} J W S O.
