(* ===== verification/Execution.v ===== *)
(** The handlers of [evm/execution.rs]: opening, running and closing a frame, with and without
    an inspector, the start of a transaction and its result.

    The upstream handler ([op-revm]) and the interpreter are the class [OpEvm]: each of its
    operations acts on the whole context, since the instructions, the precompiles and the
    inspector they call act on it.  A handler that returns [Result] returns the context next
    to it; [None] is a panic. *)

From S2P Require Import Prelude Spec Revm LimitCheck Interfaces.
From S2P Require Import AdditionalLimit Access DynamicGas SystemTx Context Intercept.

(** [ItemOrResult<FrameInit, FrameResult>]: what running a frame produces. *)
Inductive FrameInitOrResult `{R : Revm} : Type :=
  | NewFrame (init : FrameInit)
  | FrameDone (result : FrameResult).

(** [ExecutionResult]: [D] is what a success or a revert reports. *)
Inductive ExecutionResult (D H : Type) : Type :=
  | ExecSuccess (data : D)
  | ExecRevert (data : D)
  | ExecHalt (reason : H) (gas_used : Z).
Arguments ExecSuccess {D H} _.
Arguments ExecRevert {D H} _.
Arguments ExecHalt {D H} _ _.

(** The errors [before_run] itself raises, besides those of upstream validation. *)
Inductive TxError (E : Type) : Type :=
  | CalleeNotWhitelisted
  | MissingChainId
  | InvalidChainId
  | StateReadFailed
  | UpstreamError (e : E).
Arguments CalleeNotWhitelisted {E}.
Arguments MissingChainId {E}.
Arguments InvalidChainId {E}.
Arguments StateReadFailed {E}.
Arguments UpstreamError {E} _.

Section execution.
Context `{R : Revm} `{RS : RevmState} {J : Type} `{HJ : !JournalInspectTr J} {W : Type}.
Context `{HH : !OpHost J W} {S : Type} `{HS : SaltEnv S} {O : Type} `{HO : OracleEnv O}.
Context `{HA : SystemAbi} `{HL : !LocalContext W} `{HK : !KeylessDeploy J W S O}.

Local Notation ctx_t := (MegaContext J W S O).
Implicit Types ctx : ctx_t.

Class OpEvm := {
  frame_error : Type;
  from_db_error : DBError → frame_error;
  (** Constants and configuration. *)
  CALL_STACK_LIMIT : Z;
  CODEDEPOSIT : Z;
  max_code_size : ctx_t → Z;
  is_eip3541_disabled : ctx_t → bool;
  london_enabled : ctx_t → bool;
  spurious_dragon_enabled : ctx_t → bool;
  cfg_chain_id : ctx_t → Z;
  tx_chain_id_check : ctx_t → bool;
  disable_nonce_check : ctx_t → bool;
  disable_eip3607 : ctx_t → bool;
  validate_account_nonce_and_code : AccountInfo → Z → bool → bool → option frame_error;
  (** Frames. *)
  current_frame : ctx_t → EthFrame;
  current_frame_input : ctx_t → FrameInput;
  inner_frame_init : FrameInit → ctx_t → ctx_t * result ItemOrResult frame_error;
  run_plain : ctx_t → ctx_t * InterpreterAction;
  process_next_action :
    InterpreterAction → ctx_t → ctx_t * result FrameInitOrResult frame_error;
  set_finished : ctx_t → ctx_t;
  inner_frame_return_result :
    FrameResult → ctx_t → ctx_t * result (option FrameResult) frame_error;
  inner_last_frame_result : FrameResult → ctx_t → ctx_t * result FrameResult frame_error;
  (** The inspector: [frame_start] may rewrite the input and may answer the call, [frame_end]
      may rewrite the result. *)
  frame_start : FrameInput → ctx_t → ctx_t * FrameInput * option FrameResult;
  frame_end : FrameInput → FrameResult → ctx_t → ctx_t * FrameResult;
  initialize_interp : ctx_t → ctx_t;
  inspect_instructions : ctx_t → ctx_t * InterpreterAction;
  (** Results. *)
  exec_data : Type;
  OpHaltReason : Type;
  (** [OpHaltReason::Base(OutOfGas(Basic))]. *)
  is_basic_oog : OpHaltReason → bool;
  op_execution_result :
    FrameResult → ctx_t → ctx_t * result (ExecutionResult exec_data OpHaltReason) frame_error;
  post_execution_output : FrameResult → ctx_t → ctx_t * ExecutionResult exec_data OpHaltReason;
  (** [commit_tx], [clear_tx_l1_cost], [local_mut().clear()] and [frame_stack().clear()]. *)
  clear_after_sandbox : ctx_t → ctx_t;
  from_context_error : ContextError → frame_error;
  gas_new_spent : Z → Gas;
}.
Context `{HE : OpEvm}.

(** * Starting a transaction *)

(** Rex5: the chain id of a system transaction. *)
Definition chain_id_error ctx : option (TxError frame_error) :=
  if tx_chain_id_check ctx then
    match tx_chain_id (op_tx (inner ctx)) with
    | None => Some MissingChainId
    | Some cid => if negb (cid =? cfg_chain_id ctx) then Some InvalidChainId else None
    end
  else None.

Definition before_run ctx : panics (ctx_t * result unit (TxError frame_error)) :=
  let spec := ctx_spec ctx in
  let tx := op_tx (inner ctx) in
  let eip3607 := disable_eip3607 ctx in
  let nonce_check := disable_nonce_check ctx in
  let start ctx := ctx ← on_new_tx ctx; Some (ctx, Ok tt) in
  let promoted ctx := with_inner ctx (op_with_tx (inner ctx) (promote (op_tx (inner ctx)))) in
  if is_enabled spec MINI_REX && sent_from_system_address tx (system_address ctx) then
    if negb (is_mega_system_transaction_with tx (system_address ctx)) then
      Some (ctx, Err CalleeNotWhitelisted)
    else if is_enabled spec REX5 then
      match chain_id_error ctx with
      | Some e => Some (ctx, Err e)
      | None =>
          let '(j, r) :=
            Interfaces.inspect_account (system_address ctx) true (op_journal (inner ctx)) in
          let ctx := with_journal ctx j in
          match r with
          | Err _ => Some (ctx, Err StateReadFailed)
          | Ok state_account =>
              match validate_account_nonce_and_code (acc_info state_account) (tx_nonce tx)
                      eip3607 nonce_check with
              | Some e => Some (ctx, Err (UpstreamError e))
              | None => start (promoted ctx)
              end
          end
      end
    else start (promoted ctx)
  else start ctx.

Definition gen_oog_frame_result (kind : option Address) (gas_limit : Z) : FrameResult :=
  let r := mkInterpreterResult OutOfGas [] (gas_new_spent gas_limit) in
  match kind with
  | Some _ => FrameResultCall r (0, 0)
  | None => FrameResultCreate r None
  end.

Definition before_execution (tx_gas_limit initial_gas : Z) ctx : option FrameResult :=
  if tx_gas_limit <? initial_gas
  then Some (gen_oog_frame_result (tx_kind (op_tx (inner ctx))) tx_gas_limit) else None.

(** * Opening a frame *)

Definition gen_call_too_deep_result (call_inputs : CallInputs) : FrameResult :=
  synthetic CallTooDeep [] call_inputs.

Definition is_call_or_static (c : CallInputs) : bool :=
  match ci_scheme c with SchemeCall | SchemeStaticCall => true | _ => false end.

(** The CALL-based oracle detection of the specs before Rex3. *)
Definition detect_oracle_call (frame_init : FrameInit) ctx : ctx_t :=
  match fi_frame_input frame_init with
  | FrameInputCall call_inputs =>
      let detect_oracle :=
        match ci_scheme call_inputs with
        | SchemeCall => true
        | SchemeStaticCall => is_enabled (ctx_spec ctx) REX
        | SchemeCallCode | SchemeDelegateCall => false
        end in
      if detect_oracle && negb (ci_caller call_inputs =? system_address ctx) then
        let '(t, marked) :=
          check_and_mark_oracle_access (ci_target_address call_inputs)
            (volatile_data_tracker ctx) in
        let ctx := with_tracker ctx t in
        if marked : bool then
          match get_compute_gas_limit t with
          | Some limit =>
              with_additional_limit ctx (set_compute_gas_limit limit (additional_limit ctx))
          | None => ctx
          end
        else ctx
      else ctx
  | _ => ctx
  end.

Definition push_empty ctx : panics ctx_t :=
  a ← AdditionalLimit.push_empty_frame (additional_limit ctx);
  Some (with_additional_limit ctx a).

(** Rex4: a result for a transaction-level exceed, with the frame it needs. *)
Definition exceeded_before_dispatch (frame_input : FrameInput) ctx
    : panics (ctx_t * option FrameResult) :=
  if is_enabled (ctx_spec ctx) REX4 then
    '(a, exceeded) ← frame_result_if_exceeding_limit frame_input (additional_limit ctx);
    let ctx := with_additional_limit ctx a in
    match exceeded with
    | Some r => ctx ← push_empty ctx; Some (ctx, Some r)
    | None => Some (ctx, None)
    end
  else Some (ctx, None).

(** Rex5: the depth guard. *)
Definition too_deep_before_dispatch (frame_input : FrameInput) (depth : Z) ctx
    : panics (ctx_t * option FrameResult) :=
  match frame_input with
  | FrameInputCall call_inputs =>
      if is_enabled (ctx_spec ctx) REX5 && is_call_or_static call_inputs &&
         (CALL_STACK_LIMIT <? depth) then
        ctx ← push_empty ctx; Some (ctx, Some (gen_call_too_deep_result call_inputs))
      else Some (ctx, None)
  | _ => Some (ctx, None)
  end.

Definition intercept (frame_input : FrameInput) (depth : Z) ctx
    : panics (ctx_t * option FrameResult) :=
  match frame_input with
  | FrameInputCall call_inputs =>
      if is_call_or_static call_inputs then
        '(ctx, r) ← dispatch_system_contract_interceptors call_inputs depth ctx;
        match r with
        | Some r =>
            ctx ← (if is_enabled (ctx_spec ctx) MINI_REX then push_empty ctx else Some ctx);
            Some (ctx, Some r)
        | None => Some (ctx, None)
        end
      else Some (ctx, None)
  | _ => Some (ctx, None)
  end.

(** The limit's own hook: an error of the database, a synthetic result, or go on with the
    frame input it may have rewritten. *)
Definition limit_before_frame_init (frame_init : FrameInit) ctx
    : panics (ctx_t * FrameInit * result (option FrameResult) frame_error) :=
  if is_enabled (ctx_spec ctx) MINI_REX then
    '(a, frame_init, j, r) ←
      AdditionalLimit.before_frame_init frame_init (op_journal (inner ctx)) (additional_limit ctx);
    let ctx := with_journal (with_additional_limit ctx a) j in
    Some (ctx, frame_init,
          match r with Ok res => Ok res | Err e => Err (from_db_error e) end)
  else Some (ctx, frame_init, Ok None).

Definition frame_init (init : FrameInit) ctx : panics (ctx_t * result ItemOrResult frame_error) :=
  let ctx :=
    if is_enabled (ctx_spec ctx) MINI_REX && negb (is_enabled (ctx_spec ctx) REX3)
    then detect_oracle_call init ctx else ctx in
  '(ctx, exceeded) ← exceeded_before_dispatch (fi_frame_input init) ctx;
  match exceeded with Some r => Some (ctx, Ok (Result r)) | None =>
  '(ctx, too_deep) ← too_deep_before_dispatch (fi_frame_input init) (fi_depth init) ctx;
  match too_deep with Some r => Some (ctx, Ok (Result r)) | None =>
  '(ctx, intercepted) ← intercept (fi_frame_input init) (fi_depth init) ctx;
  match intercepted with Some r => Some (ctx, Ok (Result r)) | None =>
  '(ctx, init, r) ← limit_before_frame_init init ctx;
  match r with
  | Err e => Some (ctx, Err e)
  | Ok (Some frame_result) => Some (ctx, Ok (Result frame_result))
  | Ok None =>
      match inner_frame_init init ctx with
      | (ctx, Err e) => Some (ctx, Err e)
      | (ctx, Ok init_result) =>
          ctx ←
            (if is_enabled (ctx_spec ctx) MINI_REX then
               a ← after_frame_init init_result (additional_limit ctx);
               Some (with_additional_limit ctx a)
             else Some ctx);
          Some (ctx, Ok init_result)
      end
  end end end end.

(** * Running a frame *)

Definition before_frame_run (frame : EthFrame) ctx : panics (ctx_t * option InterpreterAction) :=
  if is_enabled (ctx_spec ctx) MINI_REX then
    '(a, r) ← AdditionalLimit.before_frame_run frame (additional_limit ctx);
    Some (with_additional_limit ctx a, option_map ActionReturn r)
  else Some (ctx, None).

Definition will_return_create_charge_code_deposit (interpreter_result : InterpreterResult) ctx
    : bool :=
  let code_len := Z.of_nat (length (ir_output interpreter_result)) in
  if negb (is_ok (ir_result interpreter_result)) then false
  else if negb (is_eip3541_disabled ctx) && london_enabled ctx &&
          bool_decide (head (ir_output interpreter_result) = Some 0xEF) then false
  else if spurious_dragon_enabled ctx && (max_code_size ctx <? code_len) then false
  else sat_mul code_len CODEDEPOSIT <=? gas_remaining (ir_gas interpreter_result).

(** The storage gas of the deployed code. *)
Definition charge_code_deposit_storage_gas (frame : EthFrame) (r : InterpreterResult)
    : InterpreterResult :=
  if ef_is_create frame && is_ok (ir_result r) then
    let code_deposit_storage_gas :=
      wmul constants.mini_rex.CODEDEPOSIT_STORAGE_GAS (Z.of_nat (length (ir_output r))) in
    let '(gas, ok) := gas_record_cost (ir_gas r) code_deposit_storage_gas in
    mkInterpreterResult (if ok : bool then ir_result r else OutOfGas) (ir_output r) gas
  else r.

(** Rex5: the compute gas of the code deposit is recorded before the frame is committed. *)
Definition precharge_code_deposit (frame : EthFrame) (r : InterpreterResult) ctx : panics ctx_t :=
  if is_enabled (ctx_spec ctx) REX5 && ef_is_create frame &&
     will_return_create_charge_code_deposit r ctx then
    '(a, _) ← record_compute_gas (sat_mul (Z.of_nat (length (ir_output r))) CODEDEPOSIT)
                (additional_limit ctx);
    Some (with_additional_limit ctx a)
  else Some ctx.

Definition after_frame_run_instructions (frame : EthFrame) (action : InterpreterAction) ctx
    : panics (ctx_t * InterpreterAction) :=
  if negb (is_enabled (ctx_spec ctx) MINI_REX) then Some (ctx, action)
  else
    '(ctx, action) ←
      match action with
      | ActionReturn interpreter_result =>
          let r := charge_code_deposit_storage_gas frame interpreter_result in
          ctx ← precharge_code_deposit frame r ctx; Some (ctx, ActionReturn r)
      | ActionNewFrame => Some (ctx, action)
      end;
    '(a, action) ←
      AdditionalLimit.after_frame_run_instructions frame action (additional_limit ctx);
    Some (with_additional_limit ctx a, action).

Definition after_frame_run (output : FrameInitOrResult) (gas_remaining_before : option Z) ctx
    : panics (ctx_t * FrameInitOrResult) :=
  if negb (is_enabled (ctx_spec ctx) MINI_REX) then Some (ctx, output)
  else
    match output with
    | FrameDone frame_result =>
        let is_create := match frame_result with FrameResultCreate _ _ => true | _ => false end in
        let pass_through :=
          if is_enabled (ctx_spec ctx) REX5 && is_create then None else gas_remaining_before in
        '(a, r) ← AdditionalLimit.after_frame_run frame_result pass_through (additional_limit ctx);
        Some (with_additional_limit ctx a, FrameDone r)
    | NewFrame _ => Some (ctx, output)
    end.

(** The part of [frame_run] and [inspect_frame_run] that follows the instructions. *)
Definition finish_frame_run (frame : EthFrame) (action : InterpreterAction) ctx
    : panics (ctx_t * result FrameInitOrResult frame_error) :=
  '(ctx, action) ← after_frame_run_instructions frame action ctx;
  let gas_remaining_before :=
    match action, is_enabled (ctx_spec ctx) MINI_REX with
    | ActionReturn interpreter_result, true => Some (gas_remaining (ir_gas interpreter_result))
    | _, _ => None
    end in
  match process_next_action action ctx with
  | (ctx, Err e) => Some (ctx, Err e)
  | (ctx, Ok output) =>
      let ctx := match output with FrameDone _ => set_finished ctx | NewFrame _ => ctx end in
      '(ctx, output) ← after_frame_run output gas_remaining_before ctx;
      Some (ctx, Ok output)
  end.

Definition frame_run ctx : panics (ctx_t * result FrameInitOrResult frame_error) :=
  let frame := current_frame ctx in
  '(ctx, action) ← before_frame_run frame ctx;
  let '(ctx, action) :=
    match action with Some action => (ctx, action) | None => run_plain ctx end in
  finish_frame_run frame action ctx.

(** * Closing a frame *)

Definition frame_return_result (r : FrameResult) ctx
    : panics (ctx_t * result (option FrameResult) frame_error) :=
  '(ctx, r) ←
    (if is_enabled (ctx_spec ctx) MINI_REX then
       '(a, r) ← AdditionalLimit.before_frame_return_result false r (additional_limit ctx);
       Some (with_additional_limit ctx a, r)
     else Some (ctx, r));
  match inner_frame_return_result r ctx with
  | (ctx, Err e) => Some (ctx, Err e)
  | (ctx, Ok ret) =>
      let ctx :=
        if is_enabled (ctx_spec ctx) REX4 then
          with_tracker ctx
            (enable_access_if_returning (journal_depth (op_journal (inner ctx)))
               (volatile_data_tracker ctx))
        else ctx in
      Some (ctx, Ok ret)
  end.

Definition last_frame_result (r : FrameResult) ctx : panics (ctx_t * result FrameResult frame_error) :=
  let is_mini_rex := is_enabled (ctx_spec ctx) MINI_REX in
  '(ctx, r) ←
    (if is_mini_rex then
       '(a, r) ← AdditionalLimit.before_frame_return_result true r (additional_limit ctx);
       Some (with_additional_limit ctx a, r)
     else Some (ctx, r));
  match inner_last_frame_result r ctx with
  | (ctx, Err e) => Some (ctx, Err e)
  | (ctx, Ok r) =>
      Some (ctx, Ok (if is_mini_rex
                     then fr_set_gas (gas_erase_cost (fr_gas r) (rescued_gas (additional_limit ctx))) r
                     else r))
  end.

(** * The result of a transaction *)

Definition is_deposit_in_sandbox ctx : bool :=
  inside_sandbox ctx && (tx_type (op_tx (inner ctx)) =? DEPOSIT_TRANSACTION_TYPE).

(** The result before halts are given their reason. *)
Definition base_execution_result (r : FrameResult) ctx
    : ctx_t * result (ExecutionResult exec_data OpHaltReason) frame_error :=
  if is_deposit_in_sandbox ctx then
    match op_error (inner ctx) with
    | Some e =>
        let o := inner ctx in
        (with_inner ctx (mkOp (op_tx o) (op_block_number o) (op_beneficiary o) (op_journal o) None
                           (op_world o)), Err (from_context_error e))
    | None =>
        let '(ctx, exec_result) := post_execution_output r ctx in
        (clear_after_sandbox ctx, Ok exec_result)
    end
  else op_execution_result r ctx.

Definition halt_reason (volatile_info : option Z) (reason : OpHaltReason) ctx
    : panics (ctx_t * MegaHaltReason OpHaltReason) :=
  '(a, exceeding) ← is_exceeding_limit_halt (is_basic_oog reason) (additional_limit ctx);
  let ctx := with_additional_limit ctx a in
  if exceeding : bool then
    match volatile_info ≫= (λ access_type, detained_compute_gas_halt_reason access_type a) with
    | Some halt => Some (ctx, halt)
    | None =>
        '(a, c) ← AdditionalLimit.check_limit a;
        halt ← maybe_halt_reason c; (* expect("should have a halt reason") *)
        Some (with_additional_limit ctx a, halt)
    end
  else Some (ctx, BaseHalt reason).

Definition execution_result (r : FrameResult) ctx
    : panics (ctx_t * result (ExecutionResult exec_data (MegaHaltReason OpHaltReason)) frame_error) :=
  let volatile_info :=
    if is_enabled (ctx_spec ctx) MINI_REX
    then get_volatile_data_info (volatile_data_tracker ctx) else None in
  match base_execution_result r ctx with
  | (ctx, Err e) => Some (ctx, Err e)
  | (ctx, Ok (ExecSuccess d)) => Some (ctx, Ok (ExecSuccess d))
  | (ctx, Ok (ExecRevert d)) => Some (ctx, Ok (ExecRevert d))
  | (ctx, Ok (ExecHalt reason gas_used)) =>
      '(ctx, halt) ← halt_reason volatile_info reason ctx;
      Some (ctx, Ok (ExecHalt halt gas_used))
  end.

(** * With an inspector *)

Definition inspect_frame_init (init : FrameInit) ctx
    : panics (ctx_t * result ItemOrResult frame_error) :=
  let '(ctx, frame_input, answered) := frame_start (fi_frame_input init) ctx in
  let init := mkFrameInit (fi_depth init) frame_input in
  let ended r ctx :=
    let '(ctx, r) := frame_end frame_input r ctx in Some (ctx, Ok (Result r)) in
  match answered with
  | Some output =>
      '(ctx, exceeded) ← exceeded_before_dispatch frame_input ctx;
      match exceeded with Some r => ended r ctx | None =>
      '(ctx, too_deep) ← too_deep_before_dispatch frame_input (fi_depth init) ctx;
      match too_deep with Some r => ended r ctx | None =>
      ctx ← (if is_enabled (ctx_spec ctx) MINI_REX then push_empty ctx else Some ctx);
      ended output ctx
      end end
  | None =>
      '(ctx, r) ← frame_init init ctx;
      match r with
      | Err e => Some (ctx, Err e)
      | Ok (Result output) => ended output ctx
      | Ok (Item frame) => Some (initialize_interp ctx, Ok (Item frame))
      end
  end.

Definition inspect_frame_run ctx : panics (ctx_t * result FrameInitOrResult frame_error) :=
  let frame := current_frame ctx in
  '(ctx, action) ← before_frame_run frame ctx;
  let '(ctx, action) :=
    match action with Some action => (ctx, action) | None => inspect_instructions ctx end in
  '(ctx, r) ← finish_frame_run frame action ctx;
  match r with
  | Ok (FrameDone result) =>
      let '(ctx, result) := frame_end (current_frame_input ctx) result ctx in
      Some (ctx, Ok (FrameDone result))
  | _ => Some (ctx, r)
  end.
End execution.
