(* ===== verification/ExecutionFacts.v ===== *)
(** The execution loop keeps the frame stacks of the limits in step with the EVM's.

    [OpEvmLaws] states what the upstream handler does to its frame stack; the invariant of the
    loop is proved from it handler by handler.  A scripted upstream runs the loop. *)

From S2P Require Import Prelude Spec Revm LimitCheck FrameLimit FrameLimitFacts Interfaces.
From S2P Require Import ComputeGas DataSize KVUpdate StateGrowth StorageCallStipend.
From S2P Require Import AdditionalLimit AdditionalLimitFacts Alignment Access DynamicGas.
From S2P Require Import SystemTx Context Intercept Execution LimitCheck Interfaces.

Section laws.
Context `{R : Revm} `{RS : RevmState} {J : Type} `{HJ : !JournalInspectTr J} {W : Type}.
Context `{HH : !OpHost J W} {S : Type} `{HS : SaltEnv S} {O : Type} `{HO : OracleEnv O}.
Context `{HA : SystemAbi} `{HL : !LocalContext W} `{HK : !KeylessDeploy J W S O}.

Local Notation ctx_t := (MegaContext J W S O).
Implicit Types ctx : ctx_t.

(** The frame stack of the EVM: how many frames it holds and whether the top one has
    returned. *)
Class FrameStack := {
  frame_count : W → nat;
  frame_finished : W → bool;
}.
Context `{HF : FrameStack}.

Definition frames ctx : nat := frame_count (op_world (inner ctx)).
Definition finished ctx : bool := frame_finished (op_world (inner ctx)).

(** The detention caps of the volatile data tracker are unsigned. *)
Definition caps_ok ctx : Prop :=
  let t := volatile_data_tracker ctx in
  0 ≤ block_env_access_limit t ∧ 0 ≤ oracle_access_limit t ∧
  ∀ l, vt_compute_gas_limit t = Some l → 0 ≤ l.

(** [moves ctx ctx']: the spec is the same, and the limit moved only by hooks that leave the
    number of frames alone. *)
Definition moves ctx ctx' : Prop :=
  ctx_spec ctx' = ctx_spec ctx ∧ (caps_ok ctx → caps_ok ctx') ∧
  rtc neutral_step (additional_limit ctx) (additional_limit ctx').

(** [same_frames ctx ctx']: the frame stack of the EVM is the same. *)
Definition same_frames ctx ctx' : Prop := frames ctx' = frames ctx ∧ finished ctx' = finished ctx.

Definition keeps ctx ctx' : Prop := moves ctx ctx' ∧ same_frames ctx ctx'.

#[export] Instance moves_preorder : PreOrder moves.
Proof.
  split; [by intros ctx|]. intros c1 c2 c3 (H1&H2&H3) (H5&H6&H7).
  split_and!; [congruence|auto|by etrans].
Qed.

#[export] Instance same_frames_preorder : PreOrder same_frames.
Proof. split; [by intros ctx|]. intros c1 c2 c3 [??] [??]. split; congruence. Qed.

#[export] Instance keeps_preorder : PreOrder keeps.
Proof. split; [by intros ctx|]. intros c1 c2 c3 [??] [??]. split; by etrans. Qed.

Definition init_gas_ok (init : FrameInit) : Prop :=
  ∀ c, fi_frame_input init = FrameInputCall c → 0 ≤ ci_gas_limit c.

(** The documented behaviour of the upstream handler.  The instructions, the precompiles and
    the keyless deployment reach the limit only through its recording hooks; [frame_init]
    pushes a frame exactly when it returns one; [frame_return_result] pops the top frame if it
    has returned and answers with the result when no frame is left. *)
Class OpEvmLaws `{HE : !OpEvm (J := J) (W := W) (S := S) (O := O)} := {
  keyless_deploy_keeps c b n ctx ctx' r :
    execute_keyless_deploy_call c b n ctx = Some (ctx', r) → keeps ctx ctx';
  inner_frame_init_law init ctx ctx' r :
    inner_frame_init init ctx = (ctx', r) →
    moves ctx ctx' ∧
    match r with
    | Ok (Item _) => frames ctx' = Datatypes.S (frames ctx) ∧ finished ctx' = false
    | _ => same_frames ctx ctx'
    end;
  run_plain_keeps ctx ctx' act : run_plain ctx = (ctx', act) → keeps ctx ctx';
  process_next_action_law act ctx ctx' r :
    process_next_action act ctx = (ctx', r) →
    keeps ctx ctx' ∧ match r with Ok (NewFrame init) => init_gas_ok init | _ => True end;
  set_finished_law ctx :
    moves ctx (set_finished ctx) ∧
    frames (set_finished ctx) = frames ctx ∧ finished (set_finished ctx) = true;
  inner_frame_return_result_law r ctx ctx' ret :
    inner_frame_return_result r ctx = (ctx', ret) →
    moves ctx ctx' ∧
    match ret with
    | Ok o =>
        frames ctx' = (if finished ctx then pred (frames ctx) else frames ctx) ∧
        finished ctx' = false ∧ (is_Some o ↔ frames ctx' = 0%nat)
    | Err _ => True
    end;
  inner_last_frame_result_keeps r ctx ctx' ret :
    inner_last_frame_result r ctx = (ctx', ret) → keeps ctx ctx';
}.
End laws.

Arguments FrameStack W : clear implicits.

(** * The execution loop *)

Section loop.
Context `{R : Revm} `{RS : RevmState} {J : Type} `{HJ : !JournalInspectTr J} {W : Type}.
Context `{HH : !OpHost J W} {S : Type} `{HS : SaltEnv S} {O : Type} `{HO : OracleEnv O}.
Context `{HA : SystemAbi} `{HL : !LocalContext W} `{HK : !KeylessDeploy J W S O}.
Context `{HE : !OpEvm (J := J) (W := W) (S := S) (O := O)} `{HF : !FrameStack W} `{HW : !OpEvmLaws}.

Local Notation ctx_t := (MegaContext J W S O).
Implicit Types ctx : ctx_t.

Inductive phase : Type :=
  | Opening (init : FrameInit)
  | Running
  | Closing (r : FrameResult)
  | Done (r : FrameResult).

(** One turn of revm's [run_exec_loop]: the first frame that is answered at once ends the
    loop, any other result goes through [frame_return_result]. *)
Definition loop_step (ph : phase) ctx : panics (ctx_t * result phase frame_error) :=
  match ph with
  | Opening init =>
      '(ctx', r) ← frame_init init ctx;
      Some (ctx', match r with
                  | Err e => Err e
                  | Ok (Item _) => Ok Running
                  | Ok (Result r) => Ok (if (frames ctx =? 0)%nat then Done r else Closing r)
                  end)
  | Running =>
      '(ctx', r) ← frame_run ctx;
      Some (ctx', match r with
                  | Err e => Err e
                  | Ok (NewFrame init) => Ok (Opening init)
                  | Ok (FrameDone r) => Ok (Closing r)
                  end)
  | Closing r =>
      '(ctx', ret) ← frame_return_result r ctx;
      Some (ctx', match ret with
                  | Err e => Err e
                  | Ok (Some r) => Ok (Done r)
                  | Ok None => Ok Running
                  end)
  | Done r => Some (ctx, Ok (Done r))
  end.

(** The states the loop passes through. *)
Inductive loop_reach : phase * ctx_t → phase * ctx_t → Prop :=
  | lr_refl s : loop_reach s s
  | lr_step s ph ctx ph' ctx' :
      loop_reach s (ph, ctx) → loop_step ph ctx = Some (ctx', Ok ph') → loop_reach s (ph', ctx').

(** The heights of the five frame stacks. *)
Definition depths (a : AdditionalLimit) : list nat :=
  [stack_depth (sg_frame_tracker (state_growth a)); stack_depth (ds_frame_tracker (data_size a));
   stack_depth (kv_frame_tracker (kv_update a)); stack_depth (cg_frame_tracker (compute_gas a));
   length (st_stack (storage_call_stipend a))].

Lemma aligned_depths n a : aligned n a → depths a = replicate 5 n.
Proof.
  intros (H1&H2&H3&H4&H5). unfold depths.
  replace (stack_depth (sg_frame_tracker (state_growth a))) with n by (symmetry; apply H1).
  replace (stack_depth (ds_frame_tracker (data_size a))) with n by (symmetry; apply H2).
  replace (stack_depth (kv_frame_tracker (kv_update a))) with n by (symmetry; apply H3).
  replace (stack_depth (cg_frame_tracker (compute_gas a))) with n by (symmetry; apply H4).
  by rewrite H5.
Qed.

Lemma neutrals_aligned n a a' : rtc neutral_step a a' → aligned n a → aligned n a'.
Proof. induction 1; eauto using neutral_aligned. Qed.

Lemma moves_aligned n ctx ctx' :
  moves ctx ctx' → aligned n (additional_limit ctx) → aligned n (additional_limit ctx').
Proof. intros (_&_&H). by apply neutrals_aligned. Qed.

(** One hook of the limit. *)
Lemma moves_limit ctx a :
  neutral_step (additional_limit ctx) a → moves ctx (with_additional_limit ctx a).
Proof. intros H. split_and!; [done|done|]. by apply rtc_once. Qed.

(** ** Interception *)

Lemma hint_keeps c d ctx ctx' : oracle_hint_intercept c d ctx = Some ctx' → keeps ctx ctx'.
Proof.
  assert (Hf : ∀ b ctx, keeps ctx (forward_hint c b ctx)).
  { intros b ctx0. unfold forward_hint. by destruct (sendHint_decode b) as [[??]|]. }
  unfold oracle_hint_intercept. intros H. case_bools_in H; try by simplify_eq.
  bind_inv H. destruct x as [sel|]; [|by simplify_eq]. case_bools_in H; [by simplify_eq|].
  bind_inv H. injection H as <-.
  etrans; [|by case_bools; [|apply Hf]]. split; [|done]. apply moves_limit. by eapply ns_hint.
Qed.

Lemma keyless_keeps c d ctx ctx' r : keyless_deploy_intercept c d ctx = Some (ctx', r) → keeps ctx ctx'.
Proof.
  unfold keyless_deploy_intercept. intros H. case_bools_in H; try by simplify_eq.
  bind_inv H. destruct x as [sel|]; [|by simplify_eq]. case_bools_in H; [by simplify_eq|].
  destruct (keylessDeploy_decode _) as [[??]|]; [|by simplify_eq]. bind_inv H. simplify_eq.
  by eapply keyless_deploy_keeps.
Qed.

Lemma tracker_keeps t ctx :
  block_env_access_limit t = block_env_access_limit (volatile_data_tracker ctx) →
  oracle_access_limit t = oracle_access_limit (volatile_data_tracker ctx) →
  vt_compute_gas_limit t = vt_compute_gas_limit (volatile_data_tracker ctx) →
  keeps ctx (with_tracker ctx t).
Proof.
  intros H1 H2 H3. split; [|done]. split_and!; [done| |done].
  unfold caps_ok. simpl. by rewrite H1, H2, H3.
Qed.

Lemma control_keeps c d ctx ctx' r : access_control_intercept c d ctx = Some (ctx', r) → keeps ctx ctx'.
Proof.
  unfold access_control_intercept. intros H. case_bools_in H; [by simplify_eq|]. bind_inv H.
  destruct x as [sel|]; [|by simplify_eq].
  unfold handle_disable, handle_enable, handle_is_disabled, disable_access, enable_access in H.
  case_bools_in H; destruct (reject_non_zero_transfer c); try (by simplify_eq);
    destruct (disable_depth _); case_bools_in H; simplify_eq; by apply tracker_keeps.
Qed.

Lemma limit_control_keeps c ctx ctx' r : limit_control_intercept c ctx = Some (ctx', r) → ctx' = ctx.
Proof.
  unfold limit_control_intercept, handle_remaining_compute_gas. intros H.
  case_bools_in H; [by simplify_eq|]. bind_inv H. destruct x as [sel|]; [|by simplify_eq].
  case_bools_in H; [|by simplify_eq]. destruct (reject_non_zero_transfer c); [by simplify_eq|].
  bind_inv H. by simplify_eq.
Qed.

Lemma dispatch_keeps c d ctx ctx' r :
  dispatch_system_contract_interceptors c d ctx = Some (ctx', r) → keeps ctx ctx'.
Proof.
  unfold dispatch_system_contract_interceptors. intros H. bind_inv H. bind_inv H.
  assert (H1 : keeps ctx x) by (destruct (is_enabled _ REX2); [by eapply hint_keeps|by simplify_eq]).
  assert (H2 : keeps x x0) by (destruct (is_enabled _ REX2); [by eapply keyless_keeps|by simplify_eq]).
  etrans; [exact H1|]. etrans; [exact H2|]. destruct y; [by simplify_eq|]. bind_inv H.
  assert (H3 : keeps x0 x1) by (destruct (is_enabled _ REX4); [by eapply control_keeps|by simplify_eq]).
  etrans; [exact H3|]. destruct y; [by simplify_eq|].
  destruct (is_enabled _ REX4); [|by simplify_eq]. by apply limit_control_keeps in H as ->.
Qed.

(** ** Opening a frame *)

(** The frame stack of the EVM is untouched, the limits have [n] frames. *)
Definition unopened n ctx ctx' : Prop :=
  ctx_spec ctx' = ctx_spec ctx ∧ (caps_ok ctx → caps_ok ctx') ∧ same_frames ctx ctx' ∧
  aligned n (additional_limit ctx').

Lemma keeps_unopened n ctx ctx' :
  keeps ctx ctx' → aligned n (additional_limit ctx) → unopened n ctx ctx'.
Proof.
  intros [Hm Hf] Ha. pose proof (moves_aligned n ctx ctx' Hm Ha). by destruct Hm as (?&?&?).
Qed.

Lemma unopened_trans n m c1 c2 c3 : unopened n c1 c2 → unopened m c2 c3 → unopened m c1 c3.
Proof. intros (?&?&?&?) (?&?&?&?). split_and!; [congruence|auto|by etrans|done]. Qed.

Lemma push_empty_law n ctx ctx' :
  push_empty ctx = Some ctx' → aligned n (additional_limit ctx) →
  unopened (Datatypes.S n) ctx ctx'.
Proof.
  unfold push_empty. intros H Ha. bind_inv H. injection H as <-.
  split_and!; try done. by eapply push_empty_aligned.
Qed.

(** A guard that may answer the call: with a frame when it does. *)
Definition guard_law (g : ctx_t → panics (ctx_t * option FrameResult)) : Prop :=
  ∀ n ctx ctx' o, is_enabled (ctx_spec ctx) MINI_REX = true →
    g ctx = Some (ctx', o) → aligned n (additional_limit ctx) →
    unopened (match o with Some _ => Datatypes.S n | None => n end) ctx ctx'.

Lemma exceeded_law fi : guard_law (exceeded_before_dispatch fi).
Proof.
  intros n ctx ctx' o _. unfold exceeded_before_dispatch.
  destruct (is_enabled _ REX4); [|by intros [= <- <-]]. intros H Ha. bind_inv H.
  assert (Hx : unopened n ctx (with_additional_limit ctx x)).
  { apply keeps_unopened; [|done]. split; [|done]. apply moves_limit. by eapply ns_frame_result. }
  destruct y; [|by injection H as <- <-]. bind_inv H. injection H as <- <-.
  eapply unopened_trans; [exact Hx|]. apply (push_empty_law n) in E0; [done|]. apply Hx.
Qed.

Lemma too_deep_law fi d : guard_law (too_deep_before_dispatch fi d).
Proof.
  intros n ctx ctx' o _. unfold too_deep_before_dispatch.
  destruct fi as [c| |]; [|by intros [= <- <-]..]. case_bools; [|by intros [= <- <-]].
  intros H Ha. bind_inv H. injection H as <- <-. by apply push_empty_law.
Qed.

Lemma intercept_law fi d : guard_law (intercept fi d).
Proof.
  intros n ctx ctx' o Hm. unfold intercept.
  destruct fi as [c| |]; [|by intros [= <- <-]..]. destruct (is_call_or_static c); [|by intros [= <- <-]].
  intros H Ha. bind_inv H. apply dispatch_keeps in E.
  pose proof (keeps_unopened n _ _ E Ha) as Hk. destruct y; [|by injection H as <- <-].
  bind_inv H. injection H as <- <-. destruct Hk as (Hs&Hk). rewrite Hs, Hm in E0.
  eapply (unopened_trans n); [by split|]. apply push_empty_law; [done|apply Hk].
Qed.

Lemma limit_init_law n init ctx ctx' init' r :
  is_enabled (ctx_spec ctx) MINI_REX = true → init_gas_ok init →
  limit_before_frame_init init ctx = Some (ctx', init', Ok r) → aligned n (additional_limit ctx) →
  unopened (Datatypes.S n) ctx ctx'.
Proof.
  intros Hm Hg. unfold limit_before_frame_init. rewrite Hm. intros H Ha. bind_inv H.
  destruct y; [|done]. injection H as <- <- <-. split_and!; try done. simpl.
  by eapply init_aligned.
Qed.

Lemma detect_keeps init ctx : caps_ok ctx → keeps ctx (detect_oracle_call init ctx).
Proof.
  intros Hc. unfold detect_oracle_call. destruct (fi_frame_input init) as [c| |]; [|done..].
  case_bools; [|done]. unfold check_and_mark_oracle_access. case_bools; [|by destruct ctx].
  set (t := apply_or_create_limit _ _).
  assert (Ht : caps_ok (with_tracker ctx t)).
  { destruct Hc as (H1 & H2 & H3). unfold caps_ok, t, apply_or_create_limit. simpl.
    destruct (vt_compute_gas_limit _) as [l|]; simpl; split_and!; try done; intros k [= <-]; [|done].
    specialize (H3 l eq_refl). lia. }
  assert (Hk : keeps ctx (with_tracker ctx t)) by done.
  destruct (get_compute_gas_limit t) as [l|] eqn:El; [|done]. etrans; [exact Hk|].
  split; [|done]. apply moves_limit. constructor. by apply Ht.
Qed.

(** A guard answers with a frame open in the limits, or the code after it runs. *)
Lemma guard_step g (k : ctx_t → panics (ctx_t * result ItemOrResult frame_error)) n ctx c0 ctx' r :
  guard_law g → is_enabled (ctx_spec ctx) MINI_REX = true → unopened n ctx c0 →
  ('(c1, o) ← g c0;
   match o with Some r => Some (c1, Ok (Result r)) | None => k c1 end) = Some (ctx', Ok r) →
  (∃ res, r = Result res ∧ unopened (Datatypes.S n) ctx ctx') ∨
  (∃ c1, unopened n ctx c1 ∧ k c1 = Some (ctx', Ok r)).
Proof.
  intros Hg Hm H0 H. bind_inv H.
  assert (Hm0 : is_enabled (ctx_spec c0) MINI_REX = true) by (by rewrite (proj1 H0)).
  apply (Hg n) in E; [|done|apply H0]. apply (unopened_trans _ _ _ _ _ H0) in E. destruct y; [|by eauto].
  injection H as <- <-. left. by eexists.
Qed.

(** What [frame_init] leaves: a frame more in the limits, and in the EVM if it returned one. *)
Definition opened n ctx ctx' (r : ItemOrResult) : Prop :=
  ctx_spec ctx' = ctx_spec ctx ∧ caps_ok ctx' ∧ aligned (Datatypes.S n) (additional_limit ctx') ∧
  match r with
  | Item _ => frames ctx' = Datatypes.S (frames ctx) ∧ finished ctx' = false
  | Result _ => same_frames ctx ctx'
  end.

Lemma unopened_opened n ctx ctx' res :
  caps_ok ctx → unopened (Datatypes.S n) ctx ctx' → opened n ctx ctx' (Result res).
Proof. intros Hc (?&?&?&?). split_and!; by auto. Qed.

Lemma after_init_moves r ctx ctx' :
  is_enabled (ctx_spec ctx) MINI_REX = true →
  (if is_enabled (ctx_spec ctx) MINI_REX
   then a ← after_frame_init r (additional_limit ctx); Some (with_additional_limit ctx a)
   else Some ctx) = Some ctx' →
  keeps ctx ctx'.
Proof.
  intros -> H. bind_inv H. injection H as <-. split; [|done]. apply moves_limit. by econstructor.
Qed.

(** Opening the frame upstream, after the limit has opened it. *)
Lemma inner_init_opened n init ctx c0 c1 ctx' r o :
  is_enabled (ctx_spec ctx) MINI_REX = true → caps_ok ctx → unopened (Datatypes.S n) ctx c0 →
  inner_frame_init init c0 = (c1, Ok r) →
  (if is_enabled (ctx_spec c1) MINI_REX
   then a ← after_frame_init o (additional_limit c1); Some (with_additional_limit c1 a)
   else Some c1) = Some ctx' →
  opened n ctx ctx' r.
Proof.
  intros Hm Hc (Hs & Hca & [Hf Hfin] & Ha) Hi H. apply inner_frame_init_law in Hi as [Hmv Hr].
  assert (Hm1 : is_enabled (ctx_spec c1) MINI_REX = true) by (by rewrite (proj1 Hmv), Hs).
  apply after_init_moves in H as [Hmv' [Hf' Hfin']]; [|done].
  pose proof (transitivity Hmv Hmv') as Ht. split_and!.
  - rewrite (proj1 Ht). done.
  - apply Ht. auto.
  - by eapply moves_aligned.
  - destruct r; [|destruct Hr; split]; rewrite ?Hf', ?Hfin'; intuition congruence.
Qed.

Lemma frame_init_law n init ctx ctx' r :
  is_enabled (ctx_spec ctx) MINI_REX = true → caps_ok ctx → init_gas_ok init →
  aligned n (additional_limit ctx) → frame_init init ctx = Some (ctx', Ok r) →
  opened n ctx ctx' r.
Proof.
  intros Hm Hc Hg Ha H. unfold frame_init in H.
  set (c0 := if is_enabled (ctx_spec ctx) MINI_REX && negb (is_enabled (ctx_spec ctx) REX3)
             then detect_oracle_call init ctx else ctx) in H.
  assert (H0 : unopened n ctx c0).
  { apply keeps_unopened; [|done]. unfold c0. case_bools; [by apply detect_keeps|done]. }
  clearbody c0.
  assert (Hu := unopened_opened n ctx ctx').
  eapply guard_step in H as [(res & -> & ?)|(c1 & H1 & H)]; [by eauto| |apply exceeded_law|done..].
  eapply guard_step in H as [(res & -> & ?)|(c2 & H2 & H)]; [by eauto| |apply too_deep_law|done..].
  eapply guard_step in H as [(res & -> & ?)|(c3 & H3 & H)]; [by eauto| |apply intercept_law|done..].
  bind_inv H. destruct y as [y|]; [|done].
  apply (limit_init_law n) in E; [|by rewrite (proj1 H3)|done|apply H3].
  apply (unopened_trans _ _ _ _ _ H3) in E. destruct y; [injection H as <- <-; by eauto|].
  destruct (inner_frame_init y0 x) as [c4 []] eqn:Ei; [|done]. bind_inv H.
  injection H as <- <-. by eapply inner_init_opened.
Qed.

(** ** Running a frame *)

Lemma before_run_moves f ctx ctx' o : Execution.before_frame_run f ctx = Some (ctx', o) → keeps ctx ctx'.
Proof.
  unfold Execution.before_frame_run. case_bools; intros H; [|by simplify_eq]. bind_inv H. injection H as <- _.
  split; [|done]. apply moves_limit. by econstructor.
Qed.

Lemma after_instructions_moves f act ctx ctx' act' :
  Execution.after_frame_run_instructions f act ctx = Some (ctx', act') → keeps ctx ctx'.
Proof.
  unfold Execution.after_frame_run_instructions. case_bools; intros H; [by simplify_eq|].
  bind_inv H. bind_inv H. injection H as <- _.
  transitivity x.
  - destruct act as [i|]; [|by simplify_eq]. bind_inv E. injection E as -> _.
    unfold precharge_code_deposit in E1. case_bools_in E1; [|by simplify_eq].
    bind_inv E1. injection E1 as <-. split; [|done]. apply moves_limit. by econstructor.
  - split; [|done]. apply moves_limit. by econstructor.
Qed.

Lemma after_run_moves out g ctx ctx' out' :
  Execution.after_frame_run out g ctx = Some (ctx', out') →
  keeps ctx ctx' ∧ match out, out' with
                   | NewFrame i, NewFrame i' => i = i'
                   | FrameDone _, FrameDone _ => True
                   | _, _ => False
                   end.
Proof.
  unfold Execution.after_frame_run. case_bools; intros H; [simplify_eq; by destruct out'|].
  destruct out as [i|r]; [by simplify_eq|]. bind_inv H. injection H as <- <-.
  split; [|done]. split; [|done]. apply moves_limit. by econstructor.
Qed.

Lemma frame_run_law ctx ctx' out :
  frame_run ctx = Some (ctx', Ok out) →
  moves ctx ctx' ∧ frames ctx' = frames ctx ∧
  match out with
  | NewFrame init => init_gas_ok init ∧ finished ctx' = finished ctx
  | FrameDone _ => finished ctx' = true
  end.
Proof.
  unfold frame_run, finish_frame_run. intros H. bind_inv H. apply before_run_moves in E.
  destruct (match y with Some action => (x, action) | None => run_plain x end) as [c1 act] eqn:E1.
  assert (H1 : keeps x c1) by (destruct y; [by simplify_eq|by eapply run_plain_keeps]).
  bind_inv H. apply after_instructions_moves in E0.
  assert (Hk : keeps ctx x0) by (by do 2 (etrans; [eassumption|])).
  destruct (process_next_action y0 x0) as [c2 [o|]] eqn:Ep; [|done].
  apply process_next_action_law in Ep as [Hp Hi]. apply (transitivity Hk) in Hp as [Hmv [Hf Hfin]].
  bind_inv H. apply after_run_moves in E2 as [[Hmv' [Hf' Hfin']] Hout]. injection H as <- <-.
  destruct o as [i|r], y1 as [i'|r']; try done.
  - subst i'. split_and!; [by etrans|congruence|done|congruence].
  - destruct (set_finished_law c2) as (Hs & Hsf & Hsfin).
    split_and!; [by do 2 (etrans; [eassumption|])|congruence|congruence].
Qed.

(** ** Closing a frame *)

Lemma frame_return_law n r ctx ctx' ret :
  is_enabled (ctx_spec ctx) MINI_REX = true → aligned n (additional_limit ctx) →
  frame_return_result r ctx = Some (ctx', Ok ret) →
  ctx_spec ctx' = ctx_spec ctx ∧ (caps_ok ctx → caps_ok ctx') ∧
  aligned (pred n) (additional_limit ctx') ∧
  frames ctx' = (if finished ctx then pred (frames ctx) else frames ctx) ∧
  finished ctx' = false ∧ (is_Some ret ↔ frames ctx' = 0%nat).
Proof.
  intros Hm Ha. unfold frame_return_result. rewrite Hm. intros H. bind_inv H. bind_inv E.
  injection E as <- <-. apply (return_aligned n) in E0; [|done].
  destruct (inner_frame_return_result _ _) as [c1 []] eqn:Ei; [|done].
  apply inner_frame_return_result_law in Ei as (Hmv & Hf & Hfin & Hret).
  simplify_eq. assert (Hk : keeps c1 (if is_enabled (ctx_spec c1) REX4
    then with_tracker c1 (enable_access_if_returning (journal_depth (op_journal (inner c1)))
                            (volatile_data_tracker c1)) else c1)).
  { case_bools; [|done]. unfold enable_access_if_returning.
    destruct (disable_depth _); case_bools; by apply tracker_keeps. }
  destruct Hk as [Hmv' [Hf' Hfin']]. split_and!.
  - by rewrite (proj1 Hmv'), (proj1 Hmv).
  - intros Hc. apply Hmv', Hmv, Hc.
  - eapply moves_aligned; [exact Hmv'|]. by eapply moves_aligned.
  - by rewrite Hf'.
  - by rewrite Hfin'.
  - by rewrite Hf'.
Qed.

Lemma last_frame_law n r ctx ctx' ret :
  is_enabled (ctx_spec ctx) MINI_REX = true → aligned n (additional_limit ctx) →
  last_frame_result r ctx = Some (ctx', Ok ret) →
  aligned (pred n) (additional_limit ctx').
Proof.
  intros Hm Ha. unfold last_frame_result. rewrite Hm. intros H. bind_inv H. bind_inv E.
  injection E as <- <-. apply (return_aligned n) in E0; [|done].
  destruct (inner_last_frame_result _ _) as [c1 []] eqn:Ei; [|done].
  apply inner_last_frame_result_keeps in Ei as [Hmv _]. injection H as <- _.
  by eapply moves_aligned.
Qed.
(** ** The loop *)

(** How many frames the limits have, given the phase and the frame stack of the EVM: a result
    in [Closing] belongs to the finished top frame, or to a frame that was never pushed. *)
Definition limit_frames (ph : phase) ctx : nat :=
  match ph with
  | Opening _ | Running => frames ctx
  | Closing _ => if finished ctx then frames ctx else Datatypes.S (frames ctx)
  | Done _ => frames ctx
  end.

Definition loop_inv (ph : phase) ctx : Prop :=
  is_enabled (ctx_spec ctx) MINI_REX = true ∧ caps_ok ctx ∧
  match ph with
  | Opening init => init_gas_ok init ∧ finished ctx = false ∧ aligned (frames ctx) (additional_limit ctx)
  | Running => finished ctx = false ∧ frames ctx ≠ 0%nat ∧ aligned (frames ctx) (additional_limit ctx)
  | Closing r => frames ctx ≠ 0%nat ∧ aligned (limit_frames (Closing r) ctx) (additional_limit ctx)
  | Done _ =>
      frames ctx = 0%nat ∧ (aligned 0 (additional_limit ctx) ∨ aligned 1 (additional_limit ctx))
  end.

Lemma opening_inv init ctx ctx' ph' :
  loop_inv (Opening init) ctx → loop_step (Opening init) ctx = Some (ctx', Ok ph') → loop_inv ph' ctx'.
Proof.
  intros (Hm & Hc & Hg & Hfin & Ha) H. cbn [loop_step] in H. bind_inv H.
  destruct y as [r|]; [|done]. eapply frame_init_law in E as (Hs & Hc' & Ha' & Hr); [|done..].
  destruct r as [f|r].
  - destruct Hr as [Hf Hfin']. injection H as <- <-. split_and!; [by rewrite Hs|done|done|by rewrite Hf|].
    by rewrite Hf.
  - destruct Hr as [Hf Hfin']. injection H as <- <-. split_and!; [by rewrite Hs|done|].
    destruct (Nat.eqb_spec (frames ctx) 0) as [E0|E0]; rewrite ?E0 in *.
    + split; [congruence|]. by right.
    + unfold limit_frames. rewrite Hfin', Hfin, Hf. by split.
Qed.

Lemma running_inv ctx ctx' ph' :
  loop_inv Running ctx → loop_step Running ctx = Some (ctx', Ok ph') → loop_inv ph' ctx'.
Proof.
  intros (Hm & Hc & Hfin & H0 & Ha) H. cbn [loop_step] in H. bind_inv H.
  destruct y as [out|]; [|done]. apply frame_run_law in E as (Hmv & Hf & Hout).
  assert (Ha' : aligned (frames ctx) (additional_limit x)) by (by eapply moves_aligned).
  destruct Hmv as (Hs & Hcc & _). destruct out as [init|r]; injection H as <- <-.
  - destruct Hout as [Hi Hfin']. split_and!; rewrite ?Hs, ?Hf, ?Hfin'; auto.
  - split_and!; rewrite ?Hs, ?Hf; auto. unfold limit_frames. by rewrite Hout, Hf.
Qed.

Lemma closing_inv r ctx ctx' ph' :
  loop_inv (Closing r) ctx → loop_step (Closing r) ctx = Some (ctx', Ok ph') → loop_inv ph' ctx'.
Proof.
  intros (Hm & Hc & H0 & Ha) H. cbn [loop_step] in H. bind_inv H. destruct y as [o|]; [|done].
  eapply frame_return_law in E as (Hs & Hc' & Ha' & Hf & Hfin & Ho); [|done..].
  assert (Hd : pred (limit_frames (Closing r) ctx) = frames x).
  { rewrite Hf. unfold limit_frames. by destruct (finished ctx). }
  rewrite Hd in Ha'. destruct o as [r'|]; injection H as <- <-.
  - assert (Hz : frames x = 0%nat) by (apply Ho; by eexists).
    split_and!; [by rewrite Hs|auto|done|]. left. by rewrite <- Hz.
  - split_and!; [by rewrite Hs|auto|done| |done]. intros Hz. by destruct (proj2 Ho Hz).
Qed.

Lemma loop_step_inv ph ctx ctx' ph' :
  loop_inv ph ctx → loop_step ph ctx = Some (ctx', Ok ph') → loop_inv ph' ctx'.
Proof.
  destruct ph as [init| |r|r]; [apply opening_inv|apply running_inv|apply closing_inv|].
  intros H [= <- <-]. done.
Qed.

Lemma loop_reach_inv s s' : loop_reach s s' → loop_inv s.1 s.2 → loop_inv s'.1 s'.2.
Proof. induction 1 as [|s ph ctx ph' ctx' _ IH Hs]; [done|]. intros H. by eapply loop_step_inv; [apply IH|]. Qed.
End loop.

(** C28: the execution loop keeps the limits in step with the EVM.  Starting a transaction
    with an empty frame stack and limits that have no frame open, whatever the instructions,
    the precompiles and the intercepted calls do, at every point of the loop the four
    dimensions and the stipend hold exactly one frame for each frame of the EVM, plus one for
    a call that was answered without a frame and is about to return; and the last frame's
    result leaves them empty, also when the very first frame was answered at once. *)
Theorem exec_loop_aligned `{R : Revm, RS : RevmState} {J} `{!JournalInspectTr J} {W}
    `{!OpHost J W} {S} `{SaltEnv S} {O} `{OracleEnv O} `{SystemAbi, !LocalContext W}
    `{!KeylessDeploy J W S O, !OpEvm, !FrameStack W, !OpEvmLaws}
    (init : FrameInit) (ctx0 : MegaContext J W S O) ph ctx :
  is_enabled (ctx_spec ctx0) MINI_REX = true → caps_ok ctx0 → init_gas_ok init →
  run 0 (additional_limit ctx0) → frames ctx0 = 0%nat → finished ctx0 = false →
  loop_reach (Opening init, ctx0) (ph, ctx) →
  match ph with
  | Done r =>
      frames ctx = 0%nat ∧
      ∀ ctx' r', last_frame_result r ctx = Some (ctx', Ok r') →
        depths (additional_limit ctx') = replicate 5 0%nat
  | _ => depths (additional_limit ctx) = replicate 5 (limit_frames ph ctx)
  end.
Proof.
  intros Hm Hc Hg Hr Hf Hfin Hl. apply run_aligned in Hr.
  apply loop_reach_inv in Hl; [|by split_and!; simpl; rewrite ?Hf]. simpl in Hl.
  destruct ph as [i| |r|r], Hl as (Hm' & Hc' & Hi).
  - by apply aligned_depths, Hi.
  - by apply aligned_depths, Hi.
  - by apply aligned_depths, Hi.
  - destruct Hi as [Hz Ha]. split; [done|]. intros ctx' r' Hlast. apply aligned_depths.
    destruct Ha as [Ha|Ha]; by apply (last_frame_law _ _ _ _ _ Hm' Ha) in Hlast.
Qed.

(** * A scripted upstream, to run the loop

    The world counts the frames and holds the calls still to be made: [true] opens a frame,
    [false] returns. *)

Record ScriptWorld : Type := mkWorld {
  sw_frames : nat;
  sw_finished : bool;
  sw_script : list bool;
}.

Section script.
Local Notation script_ctx := (MegaContext RefJournal ScriptWorld EmptyExternalEnv EmptyExternalEnv).
Implicit Types ctx : script_ctx.

#[export] Instance script_host : OpHost RefJournal ScriptWorld := {|
  journal_depth := rj_depth;
  loaded_value := U256;
  inner_block_env _ _ o := (o, Some 7);
  inner_read _ _ o := (o, Some (0, true));
  inner_sload _ _ o := (o, Some (0, false));
  inner_selfdestruct _ _ o := (o, Some false);
|}.

#[export] Instance script_stack : FrameStack ScriptWorld :=
  {| frame_count := sw_frames; frame_finished := sw_finished |}.

#[export] Instance script_abi : SystemAbi := {|
  NonZeroTransfer_SELECTOR := [1; 0; 0; 0];
  DISABLED_BY_PARENT_REVERT_DATA := [2; 0; 0; 0];
  sendHint_SELECTOR := [3; 0; 0; 0];
  keylessDeploy_SELECTOR := [4; 0; 0; 0];
  disableVolatileDataAccess_SELECTOR := [5; 0; 0; 0];
  enableVolatileDataAccess_SELECTOR := [6; 0; 0; 0];
  isVolatileDataAccessDisabled_SELECTOR := [7; 0; 0; 0];
  remainingComputeGas_SELECTOR := [8; 0; 0; 0];
  sendHint_decode b := Some (0, drop 4 b);
  keylessDeploy_decode b := Some (drop 4 b, 0);
  abi_encode_bool b := [Z.b2z b];
  abi_encode_u64 z := [z];
|}.

#[export] Instance script_local : LocalContext ScriptWorld := {|
  shared_memory_buffer_slice _ _ _ := None;
  input_bytes _ i := match i with InputBytes b => b | InputSharedBuffer _ _ => [] end;
|}.

#[export] Instance script_keyless :
    KeylessDeploy RefJournal ScriptWorld EmptyExternalEnv EmptyExternalEnv :=
  {| execute_keyless_deploy_call c _ _ ctx := Some (ctx, synthetic Return_ [] c) |}.

Definition set_world ctx (w : ScriptWorld) : script_ctx :=
  let o := inner ctx in
  with_inner ctx (mkOp (op_tx o) (op_block_number o) (op_beneficiary o) (op_journal o) (op_error o) w).

Definition script_call (target : Address) (input : Bytes) (depth : Z) : FrameInit :=
  mkFrameInit depth (FrameInputCall
    (mkCallInputs 50000 target 1 SchemeCall false (0, 0) (Some 0) (InputBytes input) 0)).

Definition script_result : FrameResult :=
  FrameResultCall (mkInterpreterResult Return_ [] (gas_new 40000)) (0, 0).

Definition script_frame : EthFrame := mkEthFrame false None (gas_new 50000).

Definition script_next ctx : script_ctx * result FrameInitOrResult unit :=
  let w := op_world (inner ctx) in
  match sw_script w with
  | true :: script =>
      (set_world ctx (mkWorld (sw_frames w) (sw_finished w) script),
       Ok (NewFrame (script_call 5 [] 1)))
  | _ => (set_world ctx (mkWorld (sw_frames w) (sw_finished w) (tail (sw_script w))),
          Ok (FrameDone script_result))
  end.

Definition script_return (r : FrameResult) ctx : script_ctx * result (option FrameResult) unit :=
  let w := op_world (inner ctx) in
  let n := if sw_finished w then pred (sw_frames w) else sw_frames w in
  (set_world ctx (mkWorld n false (sw_script w)), Ok (if (n =? 0)%nat then Some r else None)).

Definition script_open (init : FrameInit) ctx : script_ctx * result ItemOrResult unit :=
  let w := op_world (inner ctx) in
  (set_world ctx (mkWorld (S (sw_frames w)) false (sw_script w)), Ok (Item script_frame)).

#[export] Instance script_evm :
    OpEvm (J := RefJournal) (W := ScriptWorld) (S := EmptyExternalEnv) (O := EmptyExternalEnv) := {|
  frame_error := unit;
  from_db_error _ := tt;
  CALL_STACK_LIMIT := 1024;
  CODEDEPOSIT := 200;
  max_code_size _ := 24576;
  is_eip3541_disabled _ := false;
  london_enabled _ := true;
  spurious_dragon_enabled _ := true;
  cfg_chain_id _ := 4326;
  tx_chain_id_check _ := true;
  disable_nonce_check _ := false;
  disable_eip3607 _ := false;
  validate_account_nonce_and_code i n _ _ := if nonce i =? n then None else Some tt;
  current_frame _ := script_frame;
  current_frame_input _ := fi_frame_input (script_call 5 [] 1);
  inner_frame_init := script_open;
  run_plain ctx := (ctx, ActionReturn (fr_interpreter_result script_result));
  process_next_action _ := script_next;
  set_finished ctx :=
    let w := op_world (inner ctx) in set_world ctx (mkWorld (sw_frames w) true (sw_script w));
  inner_frame_return_result := script_return;
  inner_last_frame_result r ctx := (ctx, Ok r);
  frame_start i ctx := (ctx, i, None);
  frame_end _ r ctx := (ctx, r);
  initialize_interp ctx := ctx;
  inspect_instructions ctx := (ctx, ActionReturn (fr_interpreter_result script_result));
  exec_data := unit;
  OpHaltReason := bool;
  is_basic_oog b := b;
  op_execution_result r ctx :=
    (ctx, Ok (if is_ok (fr_instruction_result r) then ExecSuccess tt else ExecHalt true 50000));
  post_execution_output r ctx := (ctx, ExecSuccess tt);
  clear_after_sandbox ctx := ctx;
  from_context_error _ := tt;
  gas_new_spent l := mkRefGas l 0;
|}.

#[export] Instance script_laws :
    OpEvmLaws (J := RefJournal) (W := ScriptWorld) (S := EmptyExternalEnv) (O := EmptyExternalEnv).
Proof.
  assert (Hm : ∀ ctx w, moves ctx (set_world ctx w)) by (by intros; split_and!).
  split; simpl.
  - by intros c b n ctx ctx' r [= <- <-].
  - by intros i ctx ctx' r [= <- <-].
  - by intros ctx ctx' act [= <- <-].
  - intros act ctx ctx' r H. unfold script_next in H.
    destruct (sw_script _) as [|[] script]; injection H as <- <-; (split; [by split|done]) || idtac.
    split; [by split|]. intros c [= <-]. done.
  - intros ctx. split_and!; done.
  - intros r ctx ctx' ret [= <- <-]. split; [done|]. unfold frames, finished. simpl.
    split_and!; try done. case_match eqn:E; [apply Nat.eqb_eq in E|apply Nat.eqb_neq in E].
    + split; [done|by eexists].
    + split; [by intros []|done].
  - by intros r ctx ctx' ret [= <- <-].
Qed.

Definition script_start (script : list bool) : script_ctx :=
  new_with_context (mkOp (ref_tx 1 (Some 5)) 10 99 (mkRefJournal 0) None (mkWorld 0 false script)) REX4
    mkEmptyExternalEnv mkEmptyExternalEnv.

(** Turns of the loop, as many as there are. *)
Fixpoint script_run (fuel : nat) (ph : phase) ctx : phase * script_ctx :=
  match fuel with
  | O => (ph, ctx)
  | S fuel =>
      match loop_step ph ctx with
      | Some (ctx, Ok ph) => script_run fuel ph ctx
      | _ => (ph, ctx)
      end
  end.
End script.

Lemma script_run_reach s fuel ph ctx :
  loop_reach s (ph, ctx) → loop_reach s (script_run fuel ph ctx).
Proof.
  revert ph ctx. induction fuel as [|fuel IH]; intros ph ctx H; [done|]. cbn [script_run].
  destruct (loop_step ph ctx) as [[ctx' [ph'|]]|] eqn:E; [|done..]. apply IH. by econstructor.
Qed.

(** A contract that makes a call: the two frames are open after three turns, and the loop
    ends with none. *)
Lemma exec_loop_aligned_witness :
  let init := script_call 5 [] 0 in
  let start := script_start [true; false; false] in
  let mid := script_run 3 (Opening init) start in
  let fin := script_run 7 (Opening init) start in
  (frames mid.2 = 2%nat ∧ depths (additional_limit mid.2) = replicate 5 2%nat) ∧
  (fin.1 = Done script_result ∧ frames fin.2 = 0%nat).
Proof.
  intros init start mid fin.
  assert (Hrun : run 0 (additional_limit start)).
  { apply run_new. vm_compute. intuition discriminate. }
  assert (Hcaps : caps_ok start) by (vm_compute; intuition discriminate).
  assert (Hgas : init_gas_ok init) by (intros c [= <-]; done).
  assert (Hreach : ∀ n, loop_reach (Opening init, start) (script_run n (Opening init) start)).
  { intros n. apply script_run_reach. constructor. }
  split.
  - split; [vm_compute; reflexivity|].
    assert (Hmid : mid = (Running, mid.2)) by (vm_compute; reflexivity).
    pose proof (Hreach 3%nat) as Hr. fold mid in Hr. rewrite Hmid in Hr.
    refine (eq_trans (exec_loop_aligned init start Running mid.2 _ Hcaps Hgas Hrun _ _ Hr) _); done.
  - assert (Hfin : fin = (Done script_result, fin.2)) by (vm_compute; reflexivity).
    split; [by rewrite Hfin|].
    pose proof (Hreach 7%nat) as Hr. fold fin in Hr. rewrite Hfin in Hr.
    refine (proj1 (exec_loop_aligned init start (Done script_result) fin.2 _ Hcaps Hgas Hrun _ _ Hr)); done.
Defined.
