(* ===== verification/ExecutionOutcomes.v ===== *)
(** What a transaction gets back and reports: the gas rescued by a limit, the reason of a
    halt, the answers of the system contracts, and the promotion of system transactions. *)

From S2P Require Import Prelude Spec Revm LimitCheck FrameLimit FrameLimitFacts Interfaces.
From S2P Require Import ComputeGas DataSize KVUpdate StateGrowth StorageCallStipend.
From S2P Require Import AdditionalLimit AdditionalLimitFacts Alignment LimitOutcomes Access DynamicGas.
From S2P Require Import SystemTx Context TxIsolation Intercept Execution ExecutionFacts.
From S2P Require Import LimitCheck Interfaces.

(** * Rescued gas *)

Section rescue.
Context `{R : Revm} `{RS : RevmState}.
Implicit Types a : AdditionalLimit.

(** A transaction-level exceed is latched. *)
Definition tx_exceeded a : Prop :=
  exceeded_limit (has_exceeded_limit a) = true ∧ is_frame_local (has_exceeded_limit a) = false.

(** [rescues a a']: the rescued gas moved only if a transaction-level exceed is latched. *)
Definition rescues a a' : Prop := rescued_gas a' = rescued_gas a ∨ tx_exceeded a'.

Lemma check_rescues a a' c : AdditionalLimit.check_limit a = Some (a', c) → rescues a a'.
Proof. intros H. apply check_limit_inv in H as (-> & _). by left. Qed.

Lemma rescue_rescues g a a' : try_rescue_gas g a = Some a' → rescues a a'.
Proof.
  unfold try_rescue_gas. intros H. bind_inv H. injection H as <-.
  pose proof (check_rescues _ _ _ E). apply check_limit_idempotent in E as [_ Ec].
  destruct (exceeded_limit y) eqn:Ey; [|done]. destruct (is_frame_local y) eqn:Ef; [done|].
  right. unfold tx_exceeded. simpl. by rewrite Ec.
Qed.

Lemma record_rescued g a a' b :
  record_compute_gas g a = Some (a', b) → rescued_gas a' = rescued_gas a.
Proof.
  unfold record_compute_gas. intros H. case_bools_in H; [by simplify_eq|].
  bind_inv H. case_bools_in H; by simplify_eq.
Qed.

Lemma create_result_rescues fi a a' r :
  create_exceeded_limit_result fi a = Some (a', r) → rescues a a'.
Proof.
  unfold create_exceeded_limit_result. intros H. bind_inv H. bind_inv H. simplify_eq.
  by eapply rescue_rescues.
Qed.

Lemma after_init_rescues r a a' : after_frame_init r a = Some a' → rescues a a'.
Proof.
  destruct r as [f|r]; simpl; [|apply rescue_rescues].
  intros H. bind_inv H. bind_inv H. simplify_eq. by left.
Qed.

Lemma after_run_rescues r g a a' r' :
  AdditionalLimit.after_frame_run r g a = Some (a', r') → rescues a a'.
Proof.
  unfold AdditionalLimit.after_frame_run. intros H. bind_inv H. bind_inv H. simplify_eq.
  assert (Hx : rescued_gas x = rescued_gas a).
  { destruct g as [g|]; [|by simplify_eq]. bind_inv E. apply record_rescued in E1.
    case_bools_in E; by simplify_eq. }
  apply rescue_rescues in E0. unfold rescues. by rewrite <- Hx.
Qed.

Lemma after_instructions_rescues f act a a' act' :
  AdditionalLimit.after_frame_run_instructions f act a = Some (a', act') → rescues a a'.
Proof.
  unfold AdditionalLimit.after_frame_run_instructions. destruct act as [i|]; [|intros [= <- <-]; by left].
  destruct (ef_is_create f); [|intros [= <- <-]; by left].
  destruct (limit_exceeded _); [intros [= <- <-]; by left|].
  intros H. bind_inv H. apply check_rescues in E. case_bools_in H; by simplify_eq.
Qed.

Ltac by_check :=
  unfold record_compute_gas_all_dims, AdditionalLimit.before_tx_start,
    on_rex5_eip7702_authority_creations, on_rex6_eip7702_authority_applied, on_sstore, on_log,
    AdditionalLimit.record_deposit_caller_creation, AdditionalLimit.before_frame_run,
    AdditionalLimit.record_oracle_hint_bytes in *;
  repeat match goal with
    | H : AdditionalLimit.check_limit _ = Some _ |- _ => apply check_rescues in H
    | H : (_ ≫= _) = Some _ |- _ => bind_inv H; simplify_eq
    end; done.

Lemma neutral_rescues a a' : neutral_step a a' → rescues a a'.
Proof.
  intros H. destruct H as [a' c H|l|g a' b H|g a' b H|n|g a' H|tx a' H|n a' H|b a' H|fi a' r H
    |r a' H|f a' r H|r g a' r' H|f act a' act' H|u|s a' b H|a' H|n a' b H|n d a' b H|n| |];
    eauto using check_rescues, rescue_rescues, after_init_rescues, after_run_rescues,
      after_instructions_rescues; try (by left); try solve [by_check].
  - left. by eapply record_rescued.
  - left. unfold try_consume_storage_stipend. by destruct (try_consume _ _).
  - destruct b; by_check.
  - unfold frame_result_if_exceeding_limit in H. case_bools_in H; simplify_eq; [by left|].
    by eapply create_result_rescues.
  - unfold AdditionalLimit.before_frame_run in H. bind_inv H. apply check_rescues in E.
    case_bools_in H; by simplify_eq.
Qed.

Lemma push_rescues a a' : push_step a a' → rescues a a'.
Proof.
  intros [a1 H|J HJ fi fi' j j' a1 r H].
  - unfold AdditionalLimit.push_empty_frame in H. do 4 bind_inv H. simplify_eq. by left.
  - unfold AdditionalLimit.before_frame_init in H.
    do 4 (bind_inv H; match type of H with context [match ?r with Ok _ => _ | Err _ => _ end] =>
      destruct r; [|done] end).
    destruct (StorageCallStipend.before_frame_init _ _ _) as [[st fi1] cg]. bind_inv H.
    apply check_limit_inv in E3 as (-> & _).
    destruct (exceeded_limit _); [|simplify_eq; by left].
    bind_inv H. simplify_eq. by apply create_result_rescues in E3.
Qed.

(** Closing a frame rescues nothing. *)
Lemma return_rescued last r a a' r' :
  AdditionalLimit.before_frame_return_result last r a = Some (a', r') →
  rescued_gas a' = rescued_gas a.
Proof.
  unfold AdditionalLimit.before_frame_return_result. intros H. do 6 bind_inv H.
  apply check_limit_inv in E4 as (-> & _). case_bools_in H; by simplify_eq.
Qed.

Lemma tx_exceeded_step a a' : hook_step a a' → tx_exceeded a → tx_exceeded a'.
Proof.
  intros H [He Hl]. pose proof (exceeded_not_within _ He) as Hw.
  assert (E : has_exceeded_limit a' = has_exceeded_limit a).
  { destruct H as [H|[H|H]]; [by apply neutral_keeps|by apply push_keeps|by apply pop_keeps]. }
  unfold tx_exceeded. by rewrite E.
Qed.

Lemma hooks_rescue a0 a :
  rtc hook_step a0 a → rescued_gas a0 = 0 ∨ tx_exceeded a0 → rescued_gas a = 0 ∨ tx_exceeded a.
Proof.
  induction 1 as [|a0 a1 a2 Hs _ IH]; [done|]. intros H. apply IH.
  destruct H as [H0|Ht]; [|right; by eapply tx_exceeded_step].
  assert (Hr : rescues a0 a1).
  { destruct Hs as [Hs|[Hs|Hs]]; [by apply neutral_rescues|by apply push_rescues|].
    destruct Hs. left. by eapply return_rescued. }
  destruct Hr as [Hr|Hr]; [left; congruence|by right].
Qed.
End rescue.

(** * Exempt transactions *)

Section exempt.
Context `{R : Revm} `{RS : RevmState}.
Implicit Types a : AdditionalLimit.

Lemma exempt_step a a' :
  hook_step a a' → has_exceeded_limit a = Exempt →
  has_exceeded_limit a' = Exempt ∧ rescued_gas a' = rescued_gas a.
Proof.
  intros H He. assert (Hw : within_limit (has_exceeded_limit a) = false) by (by rewrite He).
  assert (Hl : is_frame_local (has_exceeded_limit a) = false) by (by rewrite He).
  destruct H as [H|[H|H]].
  - pose proof (neutral_keeps _ _ H Hw) as Hk. rewrite He in Hk. split; [done|].
    apply neutral_rescues in H as [?|[Hx _]]; [done|]. by rewrite Hk in Hx.
  - pose proof (push_keeps _ _ H Hw) as Hk. rewrite He in Hk. split; [done|].
    apply push_rescues in H as [?|[Hx _]]; [done|]. by rewrite Hk in Hx.
  - rewrite (pop_keeps _ _ H Hl Hw). split; [done|]. destruct H. by eapply return_rescued.
Qed.

Lemma exempt_hooks a a' :
  rtc hook_step a a' → has_exceeded_limit a = Exempt →
  has_exceeded_limit a' = Exempt ∧ rescued_gas a' = rescued_gas a.
Proof.
  induction 1 as [|a a1 a2 Hs _ IH]; [done|]. intros He.
  apply exempt_step in Hs as [He1 <-]; [|done]. by apply IH.
Qed.

(** The stipend's settlement takes gas from a result and keeps its status and output. *)
Lemma stipend_return_keeps last r t t' r' :
  StorageCallStipend.before_frame_return_result last r t = Some (t', r') →
  fr_instruction_result r' = fr_instruction_result r ∧
  ir_output (fr_interpreter_result r') = ir_output (fr_interpreter_result r).
Proof.
  unfold StorageCallStipend.before_frame_return_result. intros H. bind_inv H.
  case_bools_in H; simplify_eq; done || by destruct r.
Qed.

(** Closing a frame of an exempt transaction settles its storage stipend and nothing else. *)
Lemma exempt_return last r a a' r' :
  has_exceeded_limit a = Exempt →
  AdditionalLimit.before_frame_return_result last r a = Some (a', r') →
  StorageCallStipend.before_frame_return_result last r (storage_call_stipend a) =
    Some (storage_call_stipend a', r').
Proof.
  intros He H. unfold AdditionalLimit.before_frame_return_result in H. do 5 bind_inv H.
  rewrite exempt_check in H by done. simpl in *. by simplify_eq.
Qed.
End exempt.

(** C5: metering never changes the course of an exempt transaction.  While the verdict is
    [Exempt], every recording hook reports success, no hook synthesizes a result, running a
    frame returns its result and its action unchanged, and a halt is never attributed to a
    limit.  Closing a frame changes its result only by what the storage stipend's own
    settlement takes from its gas (the stipend is paid before Rex5 whether or not a
    transaction is exempt), never its status or output.  Over any sequence of hooks the
    transaction stays exempt and no gas is rescued; in particular not when a frame is answered
    at its start, run or closed. *)
Theorem exempt_never_halts `{R : Revm, RS : RevmState} (a : AdditionalLimit) :
  has_exceeded_limit a = Exempt →
  (∀ g, snd <$> record_compute_gas g a = Some true) ∧
  (∀ g, snd <$> record_compute_gas_all_dims g a = Some true) ∧
  (∀ s, snd <$> on_sstore s a = Some true) ∧
  (∀ n d, snd <$> on_log n d a = Some true) ∧
  (∀ n, snd <$> AdditionalLimit.record_oracle_hint_bytes n a = Some true) ∧
  (∀ fi, frame_result_if_exceeding_limit fi a = Some (a, None)) ∧
  (∀ J (HJ : JournalInspectTr J) fi (j : J) a' fi' j' r,
     AdditionalLimit.before_frame_init fi j a = Some (a', fi', j', Ok r) → r = None) ∧
  (∀ r, after_frame_init (Result r) a = Some a) ∧
  (∀ f, AdditionalLimit.before_frame_run f a = Some (a, None)) ∧
  (∀ r g, ∃ a', AdditionalLimit.after_frame_run r g a = Some (a', r) ∧
                rescued_gas a' = rescued_gas a) ∧
  (∀ f act, snd <$> AdditionalLimit.after_frame_run_instructions f act a = Some act) ∧
  (∀ last r a' r', AdditionalLimit.before_frame_return_result last r a = Some (a', r') →
     StorageCallStipend.before_frame_return_result last r (storage_call_stipend a) =
       Some (storage_call_stipend a', r') ∧
     fr_instruction_result r' = fr_instruction_result r ∧
     ir_output (fr_interpreter_result r') = ir_output (fr_interpreter_result r) ∧
     rescued_gas a' = rescued_gas a) ∧
  (∀ b, is_exceeding_limit_halt b a = Some (a, false)) ∧
  (∀ a', rtc hook_step a a' → has_exceeded_limit a' = Exempt ∧ rescued_gas a' = rescued_gas a).
Proof.
  intros He. split_and!.
  - intros g. unfold record_compute_gas. simpl. by rewrite He.
  - intros g. unfold record_compute_gas_all_dims. by rewrite exempt_check.
  - intros s. unfold on_sstore. by rewrite exempt_check.
  - intros n d. unfold on_log. by rewrite exempt_check.
  - intros n. unfold AdditionalLimit.record_oracle_hint_bytes. by rewrite exempt_check.
  - intros fi. unfold frame_result_if_exceeding_limit, limit_exceeded. by rewrite He.
  - intros J HJ fi j a' fi' j' r H. unfold AdditionalLimit.before_frame_init in H.
    do 4 (bind_inv H; match type of H with context [match ?r with Ok _ => _ | Err _ => _ end] =>
      destruct r; [|done] end).
    destruct (StorageCallStipend.before_frame_init _ _ _) as [[st fi1] cg].
    rewrite exempt_check in H by done. simpl in H. by simplify_eq.
  - intros r. unfold after_frame_init, try_rescue_gas. by rewrite exempt_check.
  - intros f. unfold AdditionalLimit.before_frame_run. rewrite exempt_check by done. simpl. by destruct a.
  - intros r [g|]; unfold AdditionalLimit.after_frame_run, record_compute_gas, try_rescue_gas; simpl;
      [rewrite He; simpl|]; rewrite exempt_check by done; by eexists.
  - intros f [i|]; [|done]. unfold AdditionalLimit.after_frame_run_instructions.
    destruct (ef_is_create f); [|done]. unfold limit_exceeded. simpl. rewrite He. simpl.
    by rewrite exempt_check.
  - intros last r a' r' H. pose proof (exempt_return _ _ _ _ _ He H) as Hs.
    split_and!; [done|by destruct (stipend_return_keeps _ _ _ _ _ Hs)..|by eapply return_rescued].
  - intros [|]; [|done]. unfold is_exceeding_limit_halt. by rewrite exempt_check.
  - intros a' Hs. by apply exempt_hooks.
Qed.

Lemma exempt_never_halts_witness :
  snd <$> on_log 4 100000 (mark_exempt fresh_limit) = Some true.
Proof. apply (exempt_never_halts (mark_exempt fresh_limit)). reflexivity. Defined.

(** * What is rescued *)

Section rescued_amounts.
Context `{R : Revm} `{RS : RevmState}.
Implicit Types a : AdditionalLimit.

(** The part of a result's remaining gas that the sender paid for: all of it, except that
    before Rex5 a granted storage stipend raised the frame's gas limit and is not paid back. *)
Definition own_gas_left (g : Gas) (t : StorageCallStipendTracker) : Z :=
  if st_rex5_enabled t || (current_frame_stipend t <=? 0) then gas_remaining g
  else Z.min (gas_remaining g) (Z.max 0 (gas_limit g - current_frame_stipend t)).

Lemma own_gas_left_spec g t : effective_remaining_for_rescue g t = own_gas_left g t.
Proof.
  unfold effective_remaining_for_rescue, own_gas_left, sat_sub. destruct (st_rex5_enabled t); [done|].
  simpl. case_bools; done || lia.
Qed.

(** [rescued_for r a a']: from [a] to [a'] the rescued gas grew by the sender's part of what
    [r] has left if the transaction as a whole exceeded a limit, and by nothing otherwise or
    if there is no result. *)
Definition rescued_for (r : option FrameResult) a a' : Prop :=
  match r with
  | Some r =>
      if exceeded_limit (has_exceeded_limit a') && negb (is_frame_local (has_exceeded_limit a'))
      then rescued_gas a' = rescued_gas a +w own_gas_left (fr_gas r) (storage_call_stipend a')
      else rescued_gas a' = rescued_gas a
  | None => rescued_gas a' = rescued_gas a
  end.

Lemma check_rescued a a' c :
  AdditionalLimit.check_limit a = Some (a', c) → rescued_gas a' = rescued_gas a.
Proof. intros H. by apply check_limit_inv in H as (-> & _). Qed.

Lemma try_rescue_exact r a a' : try_rescue_gas (fr_gas r) a = Some a' → rescued_for (Some r) a a'.
Proof.
  unfold try_rescue_gas, rescued_for. intros H. bind_inv H. injection H as <-.
  pose proof (check_rescued _ _ _ E) as <-. apply check_limit_idempotent in E as [_ <-].
  destruct (exceeded_limit (has_exceeded_limit x) && _) eqn:Ex; simpl; rewrite Ex; [|done].
  by rewrite own_gas_left_spec.
Qed.

Lemma create_result_exact fi a a' r :
  create_exceeded_limit_result fi a = Some (a', r) → rescued_for r a a'.
Proof.
  unfold create_exceeded_limit_result. intros H. bind_inv H. bind_inv H. simplify_eq.
  by apply try_rescue_exact.
Qed.

Lemma frame_result_exact fi a a' r :
  frame_result_if_exceeding_limit fi a = Some (a', r) → rescued_for r a a'.
Proof.
  unfold frame_result_if_exceeding_limit. intros H. case_bools_in H; [by simplify_eq|].
  by eapply create_result_exact.
Qed.

Lemma before_init_exact {J} `{HJ : !JournalInspectTr J} fi fi' (j j' : J) a a' r :
  AdditionalLimit.before_frame_init fi j a = Some (a', fi', j', Ok r) → rescued_for r a a'.
Proof.
  intros H. unfold AdditionalLimit.before_frame_init in H.
  do 4 (bind_inv H; match type of H with context [match ?r with Ok _ => _ | Err _ => _ end] =>
    destruct r; [|done] end).
  destruct (StorageCallStipend.before_frame_init _ _ _) as [[st fi1] cg]. bind_inv H.
  apply check_rescued in E3. simpl in E3. case_bools_in H; [|by simplify_eq].
  bind_inv H. simplify_eq. apply create_result_exact in E4. unfold rescued_for in *.
  by rewrite E3 in E4.
Qed.

Lemma after_run_exact r g a a' r' :
  AdditionalLimit.after_frame_run r g a = Some (a', r') → rescued_for (Some r') a a'.
Proof.
  unfold AdditionalLimit.after_frame_run. intros H. bind_inv H. bind_inv H. simplify_eq.
  assert (Hx : rescued_gas x = rescued_gas a).
  { destruct g as [g|]; [|by simplify_eq]. bind_inv E. apply record_rescued in E1.
    case_bools_in E; by simplify_eq. }
  apply try_rescue_exact in E0. unfold rescued_for in *. by rewrite Hx in E0.
Qed.

Lemma before_run_rescued f a a' r :
  AdditionalLimit.before_frame_run f a = Some (a', r) → rescued_gas a' = rescued_gas a.
Proof.
  unfold AdditionalLimit.before_frame_run. intros H. bind_inv H. apply check_rescued in E.
  case_bools_in H; by simplify_eq.
Qed.

Lemma after_instructions_rescued f act a a' act' :
  AdditionalLimit.after_frame_run_instructions f act a = Some (a', act') →
  rescued_gas a' = rescued_gas a.
Proof.
  unfold AdditionalLimit.after_frame_run_instructions. destruct act as [i|]; [|by intros [= <- <-]].
  destruct (ef_is_create f); [|by intros [= <- <-]].
  destruct (limit_exceeded _); [by intros [= <- <-]|].
  intros H. bind_inv H. apply check_rescued in E. case_bools_in H; by simplify_eq.
Qed.

Lemma after_init_exact r a a' :
  after_frame_init r a = Some a' →
  rescued_for (match r with Result r => Some r | Item _ => None end) a a'.
Proof.
  destruct r as [f|r]; simpl; [|apply try_rescue_exact].
  intros H. bind_inv H. bind_inv H. by simplify_eq.
Qed.
End rescued_amounts.

(** C29: what is rescued for the sender, and when.  The hooks that end a frame (the limit's
    answer at a frame's start, the result of an initialization that opened no frame, the
    result of a run) add exactly the gas that this result has left, without a storage stipend
    granted before Rex5, when the transaction as a whole exceeded a limit, and nothing
    otherwise; opening, starting, running and closing a frame without ending it add nothing.
    Hence, whatever hooks ran since the rescued gas was zero, if some gas has been rescued
    when a frame is closed, then a transaction-level exceed is latched and the frame's result
    is an [OutOfGas] without output, of which the upstream accounting refunds nothing.  This
    last part is about a frame that is still open: a last result that is closed a second time,
    with no frame left, passes through as it is. *)
Theorem rescued_gas_only_after_out_of_gas `{R : Revm, RS : RevmState} :
  (∀ fi a a' r, frame_result_if_exceeding_limit fi a = Some (a', r) → rescued_for r a a') ∧
  (∀ J (HJ : JournalInspectTr J) fi fi' (j j' : J) a a' r,
     AdditionalLimit.before_frame_init fi j a = Some (a', fi', j', Ok r) → rescued_for r a a') ∧
  (∀ r a a', after_frame_init (Result r) a = Some a' → rescued_for (Some r) a a') ∧
  (∀ f a a', after_frame_init (Item f) a = Some a' → rescued_gas a' = rescued_gas a) ∧
  (∀ f a a' r, AdditionalLimit.before_frame_run f a = Some (a', r) →
     rescued_gas a' = rescued_gas a) ∧
  (∀ f act a a' act', AdditionalLimit.after_frame_run_instructions f act a = Some (a', act') →
     rescued_gas a' = rescued_gas a) ∧
  (∀ r g a a' r', AdditionalLimit.after_frame_run r g a = Some (a', r') →
     rescued_for (Some r') a a') ∧
  (∀ last r a a' r', AdditionalLimit.before_frame_return_result last r a = Some (a', r') →
     rescued_gas a' = rescued_gas a) ∧
  ∀ (a0 a a' : AdditionalLimit) last r r',
    rescued_gas a0 = 0 → rtc hook_step a0 a →
    AdditionalLimit.before_frame_return_result last r a = Some (a', r') →
    (last = true → DataSize.has_active_frame (data_size a) = true) →
    rescued_gas a' ≠ 0 →
    (∃ kind limit used, has_exceeded_limit a' = ExceedsLimit kind limit used false) ∧
    fr_instruction_result r' = OutOfGas ∧ ir_output (fr_interpreter_result r') = [].
Proof.
  split_and!; eauto using frame_result_exact, before_init_exact, after_run_exact,
    before_run_rescued, after_instructions_rescued, return_rescued.
  - intros r a a'. apply (after_init_exact (Result r)).
  - intros f a a'. apply (after_init_exact (Item f)).
  - intros a0 a a' last r r' H0 Hs Hret Hd Hr. pose proof (return_rescued _ _ _ _ _ Hret) as E.
    destruct (hooks_rescue a0 a Hs (or_introl H0)) as [Hz|[He Hl]]; [congruence|].
    pose proof (return_unfold last r a a' r' Hret (exceeded_not_within _ He) Hd) as Hu.
    simpl in Hu. rewrite He, Hl in Hu. destruct Hu as [Hv ->]. rewrite Hv.
    split; [|by destruct (burnt_result last r a)].
    destruct (has_exceeded_limit a) as [|k l u []|]; try done. by eexists _, _, _.
Qed.

(** A frame that exceeded the transaction's limit and had gas left. *)
Definition rescued_limit : AdditionalLimit :=
  default latched_after_push
    (fst <$> AdditionalLimit.after_frame_run some_call_result None latched_after_push).

Lemma rescued_gas_only_after_out_of_gas_witness :
  rescued_gas rescued_limit = 100 ∧
  rescued_for (Some some_call_result) latched_after_push rescued_limit ∧
  ∃ a' r', AdditionalLimit.before_frame_return_result true some_call_result rescued_limit = Some (a', r') ∧
           fr_instruction_result r' = OutOfGas.
Proof.
  pose proof rescued_gas_only_after_out_of_gas as (_ & _ & _ & _ & _ & _ & Hrun & _ & Hclose).
  assert (Hs : AdditionalLimit.after_frame_run some_call_result None latched_after_push =
    Some (rescued_limit, some_call_result)) by (vm_compute; reflexivity).
  split; [vm_compute; reflexivity|]. split; [exact (Hrun _ _ _ _ _ Hs)|].
  destruct (AdditionalLimit.before_frame_return_result true some_call_result rescued_limit)
    as [[a' r']|] eqn:E; [|by vm_compute in E].
  exists a', r'. split; [done|].
  refine (proj1 (proj2 (Hclose latched_after_push rescued_limit a' true some_call_result r' _ _ E _ _))).
  - reflexivity.
  - apply rtc_once. left. exact (ns_after_run _ _ _ _ _ Hs).
  - reflexivity.
  - rewrite (return_rescued _ _ _ _ _ E). by vm_compute.
Defined.

(** * The reason of a halt *)

Section halts.
Context `{R : Revm} `{RS : RevmState} {J : Type} `{HJ : !JournalInspectTr J} {W : Type}.
Context `{HH : !OpHost J W} {S : Type} `{HS : SaltEnv S} {O : Type} `{HO : OracleEnv O}.
Context `{HA : SystemAbi} `{HL : !LocalContext W} `{HK : !KeylessDeploy J W S O}.
Context `{HE : !OpEvm (J := J) (W := W) (S := S) (O := O)}.
Implicit Types ctx : MegaContext J W S O.

(** The reason of a limit's halt: by its dimension, with the limit and the usage. *)
Definition limit_halt (kind : LimitKind) (limit used : Z) : MegaHaltReason OpHaltReason :=
  match kind with
  | DataSize => DataLimitExceeded limit used
  | KVUpdate => KVUpdateLimitExceeded limit used
  | ComputeGas => ComputeGasLimitExceeded limit used
  | StateGrowth => StateGrowthLimitExceeded limit used
  end.

(** What the sender is told: gas detention if volatile data was accessed and its cap is what
    binds, else the dimension that exceeded. *)
Definition reported_reason (info : option Z) (reason : OpHaltReason) (c : LimitCheck)
    (t : ComputeGasTracker) : MegaHaltReason OpHaltReason :=
  match is_basic_oog reason, c with
  | true, ExceedsLimit kind limit used _ =>
      match info, is_detained_exceed t with
      | Some access, true => VolatileDataAccessOutOfGas access (detained_limit t) (ComputeGas.tx_usage t)
      | _, _ => limit_halt kind limit used
      end
  | _, _ => BaseHalt reason
  end.

Lemma halt_reason_spec info reason ctx a c :
  AdditionalLimit.check_limit (additional_limit ctx) = Some (a, c) →
  snd <$> halt_reason info reason ctx =
    Some (reported_reason info reason c (compute_gas (additional_limit ctx))).
Proof.
  intros Hc. unfold halt_reason, is_exceeding_limit_halt, reported_reason.
  destruct (is_basic_oog reason); [|done]. rewrite Hc.
  pose proof (check_limit_idempotent _ _ _ Hc) as [Hi _].
  apply check_limit_inv in Hc as (-> & _). destruct c as [|k l u f|]; [done| |done].
  unfold detained_compute_gas_halt_reason.
  destruct info as [ty|]; [|cbn -[AdditionalLimit.check_limit]; rewrite Hi; by destruct k].
  cbn -[AdditionalLimit.check_limit is_detained_exceed].
  destruct (is_detained_exceed _); [done|rewrite Hi; by destruct k].
Qed.
End halts.

(** C30: every outcome of a transaction is reported, and a halt with its reason.  Unless a
    counter check itself panics, [execution_result] returns a result: the [expect] for a
    missing halt reason is never reached.  Successes and reverts pass through; a halt that is
    not a plain out-of-gas, or of a transaction within its limits or exempt, keeps the EVM's
    reason; any other out-of-gas is reported as gas detention when volatile data was accessed
    and its cap binds, else as the dimension that exceeded, with its limit and usage. *)
Theorem execution_result_reports_reason `{R : Revm, RS : RevmState} {J} `{!JournalInspectTr J} {W}
    `{!OpHost J W} {S} `{SaltEnv S} {O} `{OracleEnv O} `{SystemAbi, !LocalContext W}
    `{!KeylessDeploy J W S O, !OpEvm} r (ctx ctx1 : MegaContext J W S O) base a c :
  base_execution_result r ctx = (ctx1, Ok base) →
  AdditionalLimit.check_limit (additional_limit ctx1) = Some (a, c) →
  let info := if is_enabled (ctx_spec ctx) MINI_REX
              then get_volatile_data_info (volatile_data_tracker ctx) else None in
  snd <$> execution_result r ctx =
    Some (Ok match base with
             | ExecSuccess d => ExecSuccess d
             | ExecRevert d => ExecRevert d
             | ExecHalt reason gas_used =>
                 ExecHalt (reported_reason info reason c (compute_gas (additional_limit ctx1))) gas_used
             end).
Proof.
  intros Hb Hc info. unfold execution_result. fold info. rewrite Hb.
  destruct base as [d|d|reason g]; [done|done|].
  pose proof (halt_reason_spec info reason ctx1 a c Hc) as Hh.
  destruct (halt_reason info reason ctx1) as [[ctx2 h]|]; [|done]. simpl in *. by simplify_eq.
Qed.

(** The scripted transaction of a contract that read the timestamp and then used more compute
    gas than the cap allows. *)
Definition detained_ctx : MegaContext RefJournal ScriptWorld EmptyExternalEnv EmptyExternalEnv :=
  let ctx := script_start [] in
  let t := Access.mark_block_env_accessed Timestamp (volatile_data_tracker ctx) in
  let a := set_compute_gas_limit (default 0 (get_compute_gas_limit t)) (additional_limit ctx) in
  with_additional_limit (with_tracker ctx t)
    (with_compute_gas a (record_gas_used 30000000 (compute_gas a))).

Definition out_of_gas_result : FrameResult :=
  FrameResultCall (mkInterpreterResult OutOfGas [] (gas_new 0)) (0, 0).

Lemma execution_result_reports_reason_witness :
  snd <$> execution_result out_of_gas_result detained_ctx =
    Some (Ok (ExecHalt (VolatileDataAccessOutOfGas 2 20000000 30000000) 50000)).
Proof.
  destruct (AdditionalLimit.check_limit (additional_limit detained_ctx)) as [[a c]|] eqn:E;
    [|by vm_compute in E].
  refine (eq_trans (execution_result_reports_reason out_of_gas_result detained_ctx detained_ctx
    (ExecHalt true 50000) a c _ E) _); [reflexivity|].
  vm_compute in E. injection E as <- <-. vm_compute. reflexivity.
Defined.

(** * The control contracts *)

Section control.
Context `{R : Revm} `{RS : RevmState} {J : Type} `{HJ : !JournalInspectTr J} {W : Type}.
Context `{HH : !OpHost J W} {S : Type} `{HS : SaltEnv S} {O : Type} `{HO : OracleEnv O}.
Context `{HA : SystemAbi} `{HL : !LocalContext W} `{HK : !KeylessDeploy J W S O}.
Implicit Types ctx : MegaContext J W S O.

(** An answer that gives the caller back all the gas of the call. *)
Definition full_gas_answer (c : CallInputs) (r : FrameResult) : Prop :=
  ∃ res output, r = synthetic res output c.

(** The answer of a control contract: the context is the same except for the disable depth,
    which moves only by the tracker's own operations at the caller's depth, and a call with
    value is refused and changes nothing. *)
Definition control_answer (c : CallInputs) (depth : Z) ctx ctx' (r : option FrameResult) : Prop :=
  match r with
  | None => ctx' = ctx
  | Some r =>
      full_gas_answer c r ∧
      match ci_transfer_value c with
      | Some v => v ≠ 0 → ctx' = ctx ∧ r = synthetic Revert NonZeroTransfer_SELECTOR c
      | None => True
      end ∧
      (ctx' = ctx ∨ ctx' = with_tracker ctx (disable_access depth (volatile_data_tracker ctx)) ∨
       ctx' = with_tracker ctx (fst (enable_access depth (volatile_data_tracker ctx))))
  end.

Lemma refuse_value c r :
  reject_non_zero_transfer c = Some r →
  r = synthetic Revert NonZeroTransfer_SELECTOR c ∧ ∃ v, ci_transfer_value c = Some v ∧ v ≠ 0.
Proof.
  unfold reject_non_zero_transfer. destruct (ci_transfer_value c) as [v|]; [|done].
  case_bools; [|done]. intros [= <-]. split; [done|]. eexists. split; [done|lia].
Qed.

Lemma accept_value c v : reject_non_zero_transfer c = None → ci_transfer_value c = Some v → v = 0.
Proof.
  unfold reject_non_zero_transfer. intros H E. rewrite E in H. case_bools_in H; [done|lia].
Qed.

Lemma refused_answer c depth ctx r :
  reject_non_zero_transfer c = Some r → control_answer c depth ctx ctx (Some r).
Proof.
  intros H. apply refuse_value in H as (-> & v & Ev & Hv). unfold control_answer.
  rewrite Ev. split_and!; [by eexists _, _|done|by left].
Qed.

Lemma accepted_answer c depth ctx ctx' res output :
  reject_non_zero_transfer c = None →
  ctx' = ctx ∨ ctx' = with_tracker ctx (disable_access depth (volatile_data_tracker ctx)) ∨
  ctx' = with_tracker ctx (fst (enable_access depth (volatile_data_tracker ctx))) →
  control_answer c depth ctx ctx' (Some (synthetic res output c)).
Proof.
  intros H Hc. split_and!; [by eexists _, _| |done].
  destruct (ci_transfer_value c) as [v|] eqn:E; [|done]. intros Hv. by apply (accept_value c v) in H.
Qed.

Lemma access_control_answer c depth ctx ctx' r :
  access_control_intercept c depth ctx = Some (ctx', r) → control_answer c depth ctx ctx' r.
Proof.
  unfold access_control_intercept. intros H. case_bools_in H; [by simplify_eq|]. bind_inv H.
  destruct x as [sel|]; [|by simplify_eq].
  unfold handle_disable, handle_enable, handle_is_disabled in H.
  case_bools_in H; try (by simplify_eq); destruct (reject_non_zero_transfer c) eqn:Er;
    try (simplify_eq; by apply refused_answer).
  - simplify_eq. apply accepted_answer; auto.
  - destruct (enable_access depth (volatile_data_tracker ctx)) as [t ok] eqn:Ee. simplify_eq.
    destruct ok; apply accepted_answer; rewrite ?Ee; auto.
  - simplify_eq. apply accepted_answer; auto.
Qed.

Lemma limit_control_answer c depth ctx ctx' r :
  limit_control_intercept c ctx = Some (ctx', r) → control_answer c depth ctx ctx' r.
Proof.
  unfold limit_control_intercept, handle_remaining_compute_gas. intros H.
  case_bools_in H; [by simplify_eq|]. bind_inv H. destruct x as [sel|]; [|by simplify_eq].
  case_bools_in H; [|by simplify_eq]. destruct (reject_non_zero_transfer c) eqn:Er.
  - simplify_eq. by apply refused_answer.
  - bind_inv H. simplify_eq. apply accepted_answer; auto.
Qed.

(** A call to neither the oracle nor the keyless deployment reaches the control contracts. *)
Lemma dispatch_control c depth ctx :
  ci_target_address c ≠ ORACLE_CONTRACT_ADDRESS → ci_target_address c ≠ KEYLESS_DEPLOY_ADDRESS →
  dispatch_system_contract_interceptors c depth ctx =
    if is_enabled (ctx_spec ctx) REX4 then
      '(ctx', r) ← access_control_intercept c depth ctx;
      match r with Some r => Some (ctx', Some r) | None => limit_control_intercept c ctx' end
    else Some (ctx, None).
Proof.
  intros H1 H2. unfold dispatch_system_contract_interceptors, oracle_hint_intercept,
    keyless_deploy_intercept. rewrite (proj2 (Z.eqb_neq _ _) H1), (proj2 (Z.eqb_neq _ _) H2).
  destruct (is_enabled (ctx_spec ctx) REX2), (is_enabled (ctx_spec ctx) REX4);
    cbn [negb mbind option_bind]; try done; by destruct (inside_sandbox ctx || negb (depth =? 0)).
Qed.
End control.

(** C31: the control contracts are confined.  A call to the access control or limit control
    address either is not intercepted and changes nothing, or is answered with all the gas
    the call was given; answering touches neither the limits nor the journal nor the access
    marks and caps, only the disable depth and only by the tracker's operation at the
    caller's depth; a call that transfers value is refused without effect.  Before Rex4
    nothing is intercepted. *)
Theorem control_contracts_confined `{R : Revm, RS : RevmState} {J} `{!JournalInspectTr J} {W}
    `{!OpHost J W} {S} `{SaltEnv S} {O} `{OracleEnv O} `{SystemAbi, !LocalContext W}
    `{!KeylessDeploy J W S O} c depth (ctx ctx' : MegaContext J W S O) r :
  ci_target_address c = ACCESS_CONTROL_ADDRESS ∨ ci_target_address c = LIMIT_CONTROL_ADDRESS →
  dispatch_system_contract_interceptors c depth ctx = Some (ctx', r) →
  control_answer c depth ctx ctx' r ∧ (is_enabled (ctx_spec ctx) REX4 = false → r = None).
Proof.
  intros Ht Hd. rewrite dispatch_control in Hd by (by destruct Ht as [->| ->]).
  destruct (is_enabled (ctx_spec ctx) REX4); [|by simplify_eq].
  split; [|done]. bind_inv Hd. apply access_control_answer in E.
  destruct y as [r'|]; [by simplify_eq|]. simpl in E. subst x. by apply limit_control_answer.
Qed.

Definition control_call (target : Address) (input : Bytes) : CallInputs :=
  mkCallInputs 50000 target 1 SchemeCall false (0, 0) (Some 0) (InputBytes input) 0.

(** A contract at depth 3 disables volatile access for its callees. *)
Lemma control_contracts_confined_witness :
  let ctx := script_start [] in
  let ctx' := with_tracker ctx (disable_access 3 (volatile_data_tracker ctx)) in
  let c := control_call ACCESS_CONTROL_ADDRESS [5; 0; 0; 0] in
  dispatch_system_contract_interceptors c 3 ctx = Some (ctx', Some (synthetic Return_ [] c)) ∧
  control_answer c 3 ctx ctx' (Some (synthetic Return_ [] c)).
Proof.
  intros ctx ctx' c.
  assert (E : dispatch_system_contract_interceptors c 3 ctx =
              Some (ctx', Some (synthetic Return_ [] c))) by (vm_compute; reflexivity).
  split; [exact E|]. exact (proj1 (control_contracts_confined c 3 ctx ctx' _ (or_introl eq_refl) E)).
Defined.

(** * System transactions *)

Section system.
Context `{R : Revm} `{RL : !RevmLaws R} `{RS : RevmState} {J : Type} `{HJ : !JournalInspectTr J} {W : Type}.
Context `{HH : !OpHost J W} {S : Type} `{HS : SaltEnv S} {O : Type} `{HO : OracleEnv O}.
Implicit Types ctx : MegaContext J W S O.

Lemma beneficiary_access_frame ctx :
  let ctx' := check_tx_beneficiary_access ctx in
  inner ctx' = inner ctx ∧ additional_limit ctx' = additional_limit ctx.
Proof.
  unfold check_tx_beneficiary_access. destruct (tx_kind _); case_bools; done.
Qed.

Lemma on_new_tx_frame ctx ctx' :
  on_new_tx ctx = Some ctx' →
  inner ctx' = inner ctx ∧
  (is_enabled (ctx_spec ctx) REX6 = true →
   is_system_originated (op_tx (inner ctx)) (system_address ctx) = true →
   has_exceeded_limit (additional_limit ctx') = Exempt).
Proof.
  unfold on_new_tx. intros H. bind_inv H. injection H as <-.
  set (c0 := reset_volatile_data_access ctx) in E.
  assert (Hx : inner x = inner ctx ∧ ctx_spec x = ctx_spec ctx ∧ system_address x = system_address ctx).
  { case_bools_in E; [bind_inv E|]; by injection E as <-. }
  destruct Hx as (Hi & Hs & Hsys). rewrite Hs, Hi, Hsys.
  set (c1 := if is_enabled (ctx_spec ctx) REX6 && _ then _ else x).
  assert (H1 : inner c1 = inner ctx) by (unfold c1; by case_bools).
  destruct (beneficiary_access_frame c1) as [H2 H3].
  assert (Hlim : ∀ l, has_exceeded_limit (set_compute_gas_limit l (additional_limit c1)) =
                      has_exceeded_limit (additional_limit c1)) by done.
  split.
  - destruct (is_enabled _ REX4); [destruct (get_compute_gas_limit _)|]; simpl; congruence.
  - intros H6 Ho. assert (Hc : has_exceeded_limit (additional_limit c1) = Exempt)
      by (unfold c1; by rewrite H6, Ho).
    destruct (is_enabled _ REX4); [destruct (get_compute_gas_limit _)|]; simpl; by rewrite ?H3.
Qed.

(** A promoted transaction starts as a deposit, exempt from Rex6 on. *)
Lemma start_promoted ctx c1 ctx' {E} (r : result unit E) :
  (c ← on_new_tx c1; Some (c, Ok tt)) = Some (ctx', r) →
  op_tx (inner c1) = promote (op_tx (inner ctx)) → ctx_spec c1 = ctx_spec ctx →
  op_tx (inner ctx') = promote (op_tx (inner ctx)) ∧
  (is_enabled (ctx_spec ctx) REX6 = true → has_exceeded_limit (additional_limit ctx') = Exempt).
Proof.
  intros H Ht Hs. bind_inv H. injection H as <- _. apply on_new_tx_frame in E0 as [Hi He].
  split; [by rewrite Hi|]. intros H6. apply He; [by rewrite Hs|]. rewrite Ht.
  apply promote_system_originated.
Qed.

Lemma promote_deposit tx : tx_type (promote tx) = DEPOSIT_TRANSACTION_TYPE.
Proof. by apply tx_type_deposit. Qed.
End system.

(** C32: what [before_run] admits as a system transaction.  A transaction sent by the system
    address starts only if it is a legacy call of the oracle contract; from Rex5 on also only
    if its chain id is the configured one (when that is checked) and its nonce passes the
    check against the system account in the journal, so it cannot be replayed.  It then runs
    as a deposit without a gas price, and from Rex6 on exempt from metering.  Any other
    transaction starts as it was submitted. *)
Theorem system_transaction_admitted `{R : Revm, !RevmLaws R, RS : RevmState} {J}
    `{!JournalInspectTr J} {W} `{!OpHost J W} {S} `{SaltEnv S} {O} `{OracleEnv O}
    `{SystemAbi, !LocalContext W} `{!KeylessDeploy J W S O, !OpEvm}
    (ctx ctx' : MegaContext J W S O) :
  is_enabled (ctx_spec ctx) MINI_REX = true →
  before_run ctx = Some (ctx', Ok tt) →
  let tx := op_tx (inner ctx) in
  let tx' := op_tx (inner ctx') in
  if tx_caller tx =? system_address ctx then
    tx_type tx = 0 ∧ tx_kind tx = Some ORACLE_CONTRACT_ADDRESS ∧
    tx_type tx' = DEPOSIT_TRANSACTION_TYPE ∧ tx_gas_price tx' = 0 ∧ tx' = promote tx ∧
    (is_enabled (ctx_spec ctx) REX5 = true →
     (tx_chain_id_check ctx = true → tx_chain_id tx = Some (cfg_chain_id ctx)) ∧
     ∃ j acc,
       Interfaces.inspect_account (system_address ctx) true (op_journal (inner ctx)) = (j, Ok acc) ∧
       validate_account_nonce_and_code (acc_info acc) (tx_nonce tx) (disable_eip3607 ctx)
         (disable_nonce_check ctx) = None) ∧
    (is_enabled (ctx_spec ctx) REX6 = true →
     has_exceeded_limit (additional_limit ctx') = Exempt)
  else tx' = tx.
Proof.
  intros Hm Hb tx tx'. unfold before_run, sent_from_system_address in Hb. rewrite Hm in Hb.
  cbn [andb] in Hb. fold tx in Hb. destruct (tx_caller tx =? system_address ctx) eqn:Ec.
  2:{ bind_inv Hb. injection Hb as <-. apply on_new_tx_frame in E as [Hi _]. unfold tx'. by rewrite Hi. }
  destruct (is_mega_system_transaction_with tx (system_address ctx)) eqn:Es; [|done].
  apply mega_system_transaction_iff in Es as (Hty & _ & Hk). cbn [negb] in Hb.
  assert (Hst : ∀ c1 : MegaContext J W S O,
    (c ← on_new_tx c1; Some (c, @Ok unit (TxError frame_error) tt)) = Some (ctx', Ok tt) →
    ctx_spec c1 = ctx_spec ctx → op_tx (inner c1) = promote tx →
    tx_type tx' = DEPOSIT_TRANSACTION_TYPE ∧ tx_gas_price tx' = 0 ∧ tx' = promote tx ∧
    (is_enabled (ctx_spec ctx) REX6 = true → has_exceeded_limit (additional_limit ctx') = Exempt)).
  { intros c1 H3 Hs1 Ht1. destruct (start_promoted ctx c1 ctx' _ H3 Ht1 Hs1) as [Ht He].
    fold tx tx' in Ht.
    rewrite Ht. split_and!; [apply promote_deposit|done..]. }
  destruct (is_enabled (ctx_spec ctx) REX5) eqn:E5.
  2:{ destruct (Hst _ Hb eq_refl eq_refl) as (?&?&?&?). by split_and!. }
  destruct (chain_id_error ctx) eqn:Eid; [done|].
  destruct (Interfaces.inspect_account _ _ _) as [j [acc|]] eqn:Ei; [|done].
  destruct (validate_account_nonce_and_code _ _ _ _) eqn:Ev; [done|].
  destruct (Hst _ Hb eq_refl eq_refl) as (?&?&?&?). split_and!; auto. intros _. split; [|by exists j, acc].
  intros Hc. unfold chain_id_error in Eid. rewrite Hc in Eid. fold tx in Eid.
  destruct (tx_chain_id tx) as [cid|]; [|done].
  destruct (Z.eqb_spec cid (cfg_chain_id ctx)); [by subst|done].
Qed.

(** A system transaction with the right nonce under Rex6. *)
Lemma system_transaction_admitted_witness :
  let tx := mkTx 0 None [] MEGA_SYSTEM_ADDRESS (Some ORACLE_CONTRACT_ADDRESS) 0 0 1 0 (Some 4326) in
  let ctx : MegaContext RefJournal ScriptWorld EmptyExternalEnv EmptyExternalEnv :=
    new_with_context (mkOp tx 10 99 (mkRefJournal 0) None (mkWorld 0 false [])) REX6
      mkEmptyExternalEnv mkEmptyExternalEnv in
  ∃ ctx', before_run ctx = Some (ctx', Ok tt) ∧ tx_type (op_tx (inner ctx')) = 126 ∧
          has_exceeded_limit (additional_limit ctx') = Exempt.
Proof.
  intros tx ctx. destruct (before_run ctx) as [[ctx' r]|] eqn:E; [|by vm_compute in E].
  assert (Er : r = Ok tt) by (vm_compute in E; by injection E as _ <-). subst r.
  exists ctx'. split; [done|].
  pose proof (system_transaction_admitted ctx ctx' eq_refl E) as H.
  destruct H as (_ & _ & Hty & _ & _ & _ & He). split; [exact Hty|by apply He].
Defined.
