(* ===== verification/EvmState.v ===== *)
(** Merging the state of one execution into another: [evm/state.rs].

    [EvmState] is a hash map; the loops visit its entries in an unspecified order, so the
    functions take the list of entries and the theorem quantifies over its order. *)

From S2P Require Import Prelude Spec Revm.

Abbreviation EvmState := (gmap Z Account) (only parsing).
Abbreviation EvmStorage := (gmap Z EvmStorageSlot) (only parsing).

Section merge.
Context `{RS : RevmState}.

(** [merge_evm_storage], one slot: the entry API on the map being merged into. *)
Definition merge_slot (this : EvmStorage) (kv : Z * EvmStorageSlot) : EvmStorage :=
  let '(slot, slot_value) := kv in
  match this !! slot with
  | None => <[slot := slot_mark_cold slot_value]> this
  | Some this_slot =>
      <[slot := mkSlot (slot_original this_slot) (slot_present slot_value)
                  (slot_transaction_id this_slot) (slot_is_cold this_slot)]> this
  end.

Definition merge_evm_storage (this : EvmStorage) (other : list (Z * EvmStorageSlot)) : EvmStorage :=
  foldl merge_slot this other.

(** [|=] and [-=] on the flags. *)
Definition status_union (s t : AccountStatus) : AccountStatus :=
  mkStatus (Created s || Created t) (CreatedLocal s || CreatedLocal t)
    (SelfDestructed s || SelfDestructed t) (SelfDestructedLocal s || SelfDestructedLocal t)
    (Touched s || Touched t) (LoadedAsNotExisting s || LoadedAsNotExisting t) (Cold s || Cold t).

Definition merge_account_status (this other : AccountStatus) : panics AccountStatus :=
  _ ← assert_ (negb (SelfDestructed other));
  let other := mkStatus (Created other) false (SelfDestructed other) false (Touched other)
                 (LoadedAsNotExisting other) false in
  let this :=
    if SelfDestructed this && Created other then
      mkStatus (Created this) (CreatedLocal this) false (SelfDestructedLocal this) (Touched this)
        (LoadedAsNotExisting this) (Cold this)
    else this in
  Some (status_union this other).

Definition merge_account_state (this other : Account) (merge_status : bool) : panics Account :=
  let storage := merge_evm_storage (acc_storage this) (map_to_list (acc_storage other)) in
  status ← (if merge_status then merge_account_status (acc_status this) (acc_status other)
            else Some (acc_status this));
  Some (mkAccount (acc_info other) storage status (acc_transaction_id this)).

(** [Account::default().with_touched_mark()]. *)
Definition empty_touched_account : Account :=
  mkAccount account_info_default ∅ (mkStatus false false false false true false false) 0.

(** [unmark_created_locally] and [unmark_selfdestructed_locally]. *)
Definition unmark_local (s : AccountStatus) : AccountStatus :=
  mkStatus (Created s) false (SelfDestructed s) false (Touched s) (LoadedAsNotExisting s) (Cold s).

(** The body of the loop. *)
Definition merge_account (merge_status : bool) (this : EvmState) (kv : Z * Account)
    : panics EvmState :=
  let '(address, account) := kv in
  if SelfDestructed (acc_status account) then
    _ ← assert_ (is_created account);
    Some
      match this !! address with
      | Some this_account =>
          <[address := if Cold (acc_status this_account) then mark_cold empty_touched_account
                       else empty_touched_account]> this
      | None => <[address := mark_cold empty_touched_account]> this
      end
  else
    match this !! address with
    | None =>
        let merged_account := mark_cold account in
        Some (<[address := mkAccount (acc_info merged_account)
                             (slot_mark_cold <$> acc_storage merged_account)
                             (unmark_local (acc_status merged_account))
                             (acc_transaction_id merged_account)]> this)
    | Some this_account =>
        merged ← merge_account_state this_account account merge_status;
        Some (<[address := merged]> this)
    end.

Fixpoint merge_accounts (merge_status : bool) (this : EvmState) (other : list (Z * Account))
    : panics EvmState :=
  match other with
  | [] => Some this
  | kv :: other => this ← merge_account merge_status this kv; merge_accounts merge_status this other
  end.

Definition merge_evm_state_optional_status (this other : EvmState) (merge_status : bool)
    : panics EvmState :=
  merge_accounts merge_status this (map_to_list other).

Definition merge_evm_state (this other : EvmState) : panics EvmState :=
  merge_evm_state_optional_status this other true.

(** * Storage *)

(** The slot a key has after the merge. *)
Definition merged_slot (this other : option EvmStorageSlot) : option EvmStorageSlot :=
  match this, other with
  | this, None => this
  | None, Some o => Some (slot_mark_cold o)
  | Some t, Some o =>
      Some (mkSlot (slot_original t) (slot_present o) (slot_transaction_id t) (slot_is_cold t))
  end.

Lemma merge_slot_lookup this k s k' :
  merge_slot this (k, s) !! k' = merged_slot (this !! k') (if decide (k = k') then Some s else None).
Proof.
  unfold merge_slot. destruct (decide (k = k')) as [<-|Hk].
  - destruct (this !! k) eqn:E; by simplify_map_eq.
  - destruct (this !! k); rewrite lookup_insert_ne by done; by destruct (this !! k').
Qed.

Local Arguments merge_slot : simpl never.

Lemma merge_storage_lookup l this k :
  NoDup l.*1 →
  merge_evm_storage this l !! k = merged_slot (this !! k) (list_to_map (M := EvmStorage) l !! k).
Proof.
  revert this. induction l as [|[k' s] l IH]; intros this Hnd; simpl.
  { by destruct (this !! k). }
  apply NoDup_cons in Hnd as [Hnew Hnd]. rewrite IH by done. rewrite merge_slot_lookup.
  destruct (decide (k' = k)) as [<-|Hk].
  - rewrite lookup_insert_eq. rewrite not_elem_of_list_to_map_1 by done.
    by destruct (this !! k').
  - rewrite lookup_insert_ne by done. by destruct (this !! k).
Qed.

(** * Accounts *)

(** The account an address has after the merge. *)
Definition merged_account (merge_status : bool) (this : option Account) (other : Account)
    : panics Account :=
  m ← merge_account merge_status (match this with Some t => {[0 := t]} | None => ∅ end) (0, other);
  m !! 0.

Lemma merge_account_lookup ms this a acc :
  merge_account ms this (a, acc) =
    ((λ acc', <[a := acc']> this) <$> merged_account ms (this !! a) acc).
Proof.
  unfold merged_account, merge_account.
  destruct (SelfDestructed (acc_status acc)), (this !! a) as [t|] eqn:E;
    rewrite ?lookup_singleton_eq, ?lookup_empty.
  - destruct (is_created acc); simpl; [|done]. by rewrite lookup_insert_eq.
  - destruct (is_created acc); simpl; [|done]. by rewrite lookup_insert_eq.
  - destruct (merge_account_state t acc ms); simpl; [|done]. by rewrite lookup_insert_eq.
  - simpl. by rewrite lookup_insert_eq.
Qed.

Lemma merge_accounts_lookup ms l (this : EvmState) :
  NoDup l.*1 →
  (∀ a acc, (a, acc) ∈ l → is_Some (merged_account ms (this !! a) acc)) →
  ∃ m, merge_accounts ms this l = Some m ∧
       ∀ a, m !! a = match list_to_map (M := EvmState) l !! a with
                     | Some acc => merged_account ms (this !! a) acc
                     | None => this !! a
                     end.
Proof.
  revert this. induction l as [|[a acc] l IH]; intros this Hnd Hok; [by exists this|].
  apply NoDup_cons in Hnd as [Hnew Hnd]. cbn [fst] in Hnew.
  destruct (Hok a acc) as [acc' Eacc]; [by left|].
  cbn [merge_accounts]. rewrite merge_account_lookup, Eacc. cbn.
  destruct (IH (<[a := acc']> this) Hnd) as (m & Hm & Hl).
  { intros b acc2 Hb. rewrite lookup_insert_ne; [apply Hok; by right|]. intros <-.
    apply Hnew. by apply (list_elem_of_fmap_2' fst l (a, acc2)). }
  exists m. split; [done|]. intros b. rewrite Hl.
  destruct (decide (a = b)) as [<-|Hab].
  - rewrite not_elem_of_list_to_map_1 by done. by rewrite !lookup_insert_eq.
  - by rewrite !lookup_insert_ne by done.
Qed.

(** What the merge promises of an account of the second state, given the first state's. *)
Definition merge_promise (merge_status : bool) (this : option Account) (other acc : Account) : Prop :=
  let gone := SelfDestructed (acc_status other) in
  acc_info acc = (if gone then account_info_default else acc_info other) ∧
  Cold (acc_status acc) = match this with Some t => Cold (acc_status t) | None => true end ∧
  (∀ k, acc_storage acc !! k =
        if gone then None else merged_slot (this ≫= λ t, acc_storage t !! k) (acc_storage other !! k)) ∧
  (this = None ∨ merge_status = true ∨ gone = true →
   Touched (acc_status other) = true ∨ gone = true → Touched (acc_status acc) = true) ∧
  (this = None ∨ gone = true →
   SelfDestructed (acc_status acc) = false ∧ CreatedLocal (acc_status acc) = false ∧
   SelfDestructedLocal (acc_status acc) = false).

Lemma merged_account_promise ms this other :
  (SelfDestructed (acc_status other) = true → Created (acc_status other) = true) →
  ∃ acc, merged_account ms this other = Some acc ∧ merge_promise ms this other acc.
Proof.
  intros Hc. unfold merged_account, merge_account, merge_promise.
  destruct (SelfDestructed (acc_status other)) eqn:Esd.
  - unfold is_created. rewrite (Hc eq_refl). destruct this as [t|]; simpl;
      rewrite ?lookup_singleton_eq, ?lookup_empty, lookup_insert_eq; eexists; (split; [done|]).
    + by destruct (Cold (acc_status t)).
    + by split_and!.
  - destruct this as [t|]; rewrite ?lookup_singleton_eq, ?lookup_empty.
    + assert (Hst : ∀ k, merge_evm_storage (acc_storage t) (map_to_list (acc_storage other)) !! k =
                         merged_slot (acc_storage t !! k) (acc_storage other !! k)).
      { intros k. rewrite merge_storage_lookup by apply NoDup_fst_map_to_list.
        by rewrite list_to_map_to_list. }
      unfold merge_account_state, merge_account_status. rewrite Esd.
      destruct ms; cbn -[merge_evm_storage]; rewrite lookup_insert_eq; eexists; (split; [done|]);
        split_and!; try done; try (by intros [|[]]); try (by intros [|]).
      * cbn. case_bools; by rewrite orb_false_r.
      * cbn. intros _ [Ht|]; [|done]. rewrite Ht. apply orb_true_r.
    + simpl. rewrite lookup_insert_eq. eexists. split; [done|].
      split_and!; try done.
      * intros k. simpl. rewrite lookup_fmap. by destruct (acc_storage other !! k).
      * simpl. intros _ [|]; done.
Qed.
End merge.

(** Merging two states does not depend on the order in which the entries are visited and
    is what the documentation promises, account by account.  If every self-destructed account
    of the second state was created in it, the merge does not panic; an account only in the
    first state is untouched; any other takes the second state's info, its present values
    over the first state's slots, keeps the coldness of the first state and is cold when new;
    a self-destructed account becomes an empty touched one without storage. *)
Lemma merge_evm_state_pointwise `{RS : RevmState} (this other : EvmState) (ms : bool) l :
  l ≡ₚ map_to_list other →
  (∀ a acc, other !! a = Some acc →
            SelfDestructed (acc_status acc) = true → Created (acc_status acc) = true) →
  ∃ m, merge_accounts ms this l = Some m ∧
       merge_evm_state_optional_status this other ms = Some m ∧
       ∀ a, match other !! a with
            | Some acc => ∃ acc', m !! a = Some acc' ∧ merge_promise ms (this !! a) acc acc'
            | None => m !! a = this !! a
            end.
Proof.
  intros Hl Hsd.
  assert (Hmap : ∀ l', l' ≡ₚ map_to_list other → ∃ m, merge_accounts ms this l' = Some m ∧
    ∀ a, m !! a = match other !! a with
                  | Some acc => merged_account ms (this !! a) acc | None => this !! a end).
  { intros l' Hl'.
    assert (Hnd : NoDup l'.*1) by (rewrite Hl'; apply NoDup_fst_map_to_list).
    assert (Ho : list_to_map (M := EvmState) l' = other).
    { rewrite (list_to_map_proper l' (map_to_list other)) by done. apply list_to_map_to_list. }
    destruct (merge_accounts_lookup ms l' this Hnd) as (m & Hm & Hlk).
    - intros a acc Ha. rewrite Hl' in Ha. apply elem_of_map_to_list in Ha.
      destruct (merged_account_promise ms (this !! a) acc (Hsd a acc Ha)) as (acc' & -> & _).
      by eexists.
    - exists m. split; [done|]. intros a. by rewrite Hlk, Ho. }
  destruct (Hmap l Hl) as (m & Hm & Hlk). destruct (Hmap (map_to_list other)) as (m' & Hm' & Hlk'); [done|].
  assert (m' = m) as -> by (apply map_eq; intros a; by rewrite Hlk, Hlk').
  exists m. split_and!; [done|done|]. intros a. rewrite Hlk.
  destruct (other !! a) as [acc|] eqn:Ea; [|done]. by apply merged_account_promise, Hsd with a.
Qed.

(** An account read by two executions, another created and destroyed by the second. *)
Definition merge_this : EvmState :=
  {[1 := mkAccount (mkAccountInfo 5 0 77 None) {[7 := mkSlot 0 3 0 false]} status_empty 0]}.
Definition merge_other : EvmState :=
  {[1 := mkAccount (mkAccountInfo 6 1 77 None) {[7 := mkSlot 3 4 0 false]} status_empty 0;
    2 := mkAccount (mkAccountInfo 9 1 77 None) {[7 := mkSlot 0 1 0 false]}
           (mkStatus true true true true true false false) 0]}.

Lemma merge_evm_state_pointwise_witness :
  ∃ m, merge_evm_state_optional_status merge_this merge_other true = Some m ∧
       (acc_info <$> m !! 1) = Some (mkAccountInfo 6 1 77 None) ∧
       (acc_info <$> m !! 2) = Some account_info_default.
Proof.
  destruct (merge_evm_state_pointwise merge_this merge_other true (rev (map_to_list merge_other)))
    as (m & _ & Hm & Hlk).
  - symmetry. apply Permutation_rev.
  - intros a acc Ha. unfold merge_other in Ha.
    destruct (decide (a = 1)) as [->|]; [by simplify_map_eq|].
    destruct (decide (a = 2)) as [->|]; [by simplify_map_eq|]. by simplify_map_eq.
  - exists m. split; [exact Hm|].
    pose proof (Hlk 1) as (acc1 & -> & Hp1). pose proof (Hlk 2) as (acc2 & -> & Hp2).
    split; simpl; [by rewrite (proj1 Hp1)|by rewrite (proj1 Hp2)].
Defined.
