(* ===== verification/Validation.v ===== *)
(** Validating a transaction and settling it, in [evm/execution.rs]: the intrinsic gas, the
    EIP-7702 authorizations, the steps before execution, and the fee recipients after it.

    The upstream validation and the fields of the transaction that only this code reads are the
    class [OpValidation]; the fields are functions of the upstream context's world. *)

From S2P Require Import Prelude Spec Revm LimitCheck Interfaces.
From S2P Require Import ComputeGas DataSize KVUpdate StateGrowth StorageCallStipend.
From S2P Require Import AdditionalLimit Access DynamicGas SystemTx Context Intercept Execution.

Definition CALLDATA_STANDARD_TOKEN_STORAGE_GAS : Z := 4 * 10.
Definition CALLDATA_STANDARD_TOKEN_STORAGE_FLOOR_GAS : Z := 10 * 10.
Definition EIP7702_TX_TYPE : Z := 4.
Definition ACCOUNT_INFO_WRITE_SIZE : Z := 40.

(** What is read of an authorization; [au_authority] is the recovered signer. *)
Record Authorization : Type := mkAuthorization {
  au_chain_id : U256;
  au_nonce : Z;
  au_authority : option Address;
}.

Record AppliedAuthorization : Type := mkApplied {
  aa_authority : Address;
  aa_creates_authority : bool;
}.

Record FeeRecipientSnapshot : Type := mkSnapshot {
  fs_address : Address;
  fs_balance : U256;
  fs_was_empty : bool;
}.

Record InitialAndFloorGas : Type := mkInitialGas {
  initial_gas : Z;
  floor_gas : Z;
}.

(** The errors this code raises, besides upstream ones. *)
Inductive ValidationError (D V : Type) : Type :=
  | CallGasCostMoreThanGasLimit (gas_limit initial_gas : Z)
  | GasFloorMoreThanGasLimit (gas_limit gas_floor : Z)
  | ValidationDbError (e : D)
  | ValidationString
  | UpstreamValidation (e : V).
Arguments CallGasCostMoreThanGasLimit {D V} _ _.
Arguments GasFloorMoreThanGasLimit {D V} _ _.
Arguments ValidationDbError {D V} _.
Arguments ValidationString {D V}.
Arguments UpstreamValidation {D V} _.

Section validation.
Context `{R : Revm} `{RS : RevmState} {J : Type} `{HJ : !JournalInspectTr J} {W : Type}.
Context {S : Type} `{HS : SaltEnv S} {O : Type} `{HO : OracleEnv O}.

Local Notation ctx_t := (MegaContext J W S O).
Implicit Types ctx : ctx_t.

Class OpValidation := {
  upstream_error : Type;
  (** The transaction and the configuration. *)
  tx_value : W → U256;
  tx_gas_limit : W → Z;
  tx_authorization_list : W → list Authorization;
  (** [get_tokens_in_calldata(input, true)]. *)
  tokens_in_calldata : W → Z;
  cfg_chain_id : W → Z;
  (** [Address::create], [Bytecode::is_empty] and
      [Account::is_loaded_as_not_existing_not_touched]. *)
  address_create : Address → Z → Address;
  code_is_empty : Bytecode → bool;
  is_loaded_as_not_existing_not_touched : Account → bool;
  L1_FEE_RECIPIENT : Address;
  BASE_FEE_RECIPIENT : Address;
  OPERATOR_FEE_RECIPIENT : Address;
  (** The steps of the upstream handler. *)
  validate_env : ctx_t → ctx_t * result unit upstream_error;
  validate_initial_tx_gas : ctx_t → result InitialAndFloorGas upstream_error;
  validate_against_state_and_deduct_caller : ctx_t → ctx_t * result unit upstream_error;
  load_accounts : ctx_t → ctx_t * result unit upstream_error;
  apply_eip7702_auth_list : ctx_t → ctx_t * result Z upstream_error;
  op_reward_beneficiary : FrameResult → ctx_t → ctx_t * result FrameResult upstream_error;
  first_frame_input : Z → ctx_t → ctx_t * result FrameInit upstream_error;
  (** The loop over [frame_init], [frame_run] and [frame_return_result], and over their
      variants with an inspector. *)
  run_exec_loop : FrameInit → ctx_t → panics (ctx_t * result FrameResult upstream_error);
  inspect_run_exec_loop : FrameInit → ctx_t → panics (ctx_t * result FrameResult upstream_error);
  (** The part of [post_execution] before the rewards: refunds, the floor, the reimbursement. *)
  settle_gas :
    InitialAndFloorGas → Z → FrameResult → ctx_t → ctx_t * result FrameResult upstream_error;
}.
Context `{HV : OpValidation}.

Local Notation error := (ValidationError DBError upstream_error).

(** A step that may panic or fail; the context is kept when it fails. *)
Definition step (A : Type) : Type := ctx_t → panics (ctx_t * result A error).
Definition sbind {A B} (m : step A) (k : A → step B) : step B := λ ctx,
  '(ctx, r) ← m ctx; match r with Ok x => k x ctx | Err e => Some (ctx, Err e) end.
Definition sret {A} (x : A) : step A := λ ctx, Some (ctx, Ok x).
Definition sfail {A} (e : error) : step A := λ ctx, Some (ctx, Err e).
Definition upstream {A} (m : ctx_t → ctx_t * result A upstream_error) : step A := λ ctx,
  let '(ctx, r) := m ctx in
  Some (ctx, match r with Ok x => Ok x | Err e => Err (UpstreamValidation e) end).

(** [journal_mut().inspect_account(..)?]. *)
Definition inspect (address : Address) (load_code : bool) : step Account := λ ctx,
  let '(j, r) := Interfaces.inspect_account address load_code (op_journal (inner ctx)) in
  Some (with_journal ctx j, match r with Ok a => Ok a | Err e => Err (ValidationDbError e) end).

(** [inspect_account(..)] with the error turned into a text. *)
Definition inspect_or_text (address : Address) (load_code : bool) : step Account := λ ctx,
  let '(j, r) := Interfaces.inspect_account address load_code (op_journal (inner ctx)) in
  Some (with_journal ctx j, match r with Ok a => Ok a | Err _ => Err ValidationString end).

(** An operation on the limit. *)
Definition on_limit (f : AdditionalLimit → panics AdditionalLimit) : step unit := λ ctx,
  a ← f (additional_limit ctx); Some (with_additional_limit ctx a, Ok tt).

(** * EIP-7702 authorizations *)

(** The checks of an authorization that need no account. *)
Definition candidate_authority (chain_id : Z) (authorization : Authorization) : option Address :=
  if negb (au_chain_id authorization =? 0) && negb (au_chain_id authorization =? chain_id) then None
  else if au_nonce authorization =? u64_max then None
  else au_authority authorization.

(** The nonce of an authority and whether applying creates its account; [None] is [continue]. *)
Definition authority_state (caller_nonce_already_bumped : bool) (simulated : gmap Z Z)
    (authority : Address) : step (option (Z * bool)) := λ ctx,
  match simulated !! authority with
  | Some nonce => sret (Some (nonce, false)) ctx
  | None =>
      sbind (inspect authority true) (λ acc ctx,
        let foreign_code :=
          match code (acc_info acc) with
          | Some (Eip7702 _) | None => false
          | Some c => negb (code_is_empty c)
          end in
        let effective_nonce :=
          if negb caller_nonce_already_bumped && (authority =? tx_caller (op_tx (inner ctx)))
          then sat_add (nonce (acc_info acc)) 1 else nonce (acc_info acc) in
        sret (if foreign_code then None
              else Some (effective_nonce,
                         account_info_is_empty (acc_info acc) &&
                         is_loaded_as_not_existing_not_touched acc)) ctx) ctx
  end.

Fixpoint scan_authorizations (caller_nonce_already_bumped : bool) (chain_id : Z)
    (l : list Authorization) (simulated : gmap Z Z) : step (list AppliedAuthorization) :=
  match l with
  | [] => sret []
  | authorization :: l =>
      let skip := scan_authorizations caller_nonce_already_bumped chain_id l simulated in
      match candidate_authority chain_id authorization with
      | None => skip
      | Some authority =>
          sbind (authority_state caller_nonce_already_bumped simulated authority) (λ st,
            match st with
            | None => skip
            | Some (authority_nonce, creates_authority) =>
                if negb (au_nonce authorization =? authority_nonce) then skip
                else
                  sbind (scan_authorizations caller_nonce_already_bumped chain_id l
                           (<[authority := sat_add authority_nonce 1]> simulated))
                    (λ applied, sret (mkApplied authority creates_authority :: applied))
            end)
      end
  end.

Definition scan_applied_eip7702_authorizations (caller_nonce_already_bumped : bool)
    : step (list AppliedAuthorization) := λ ctx,
  let w := op_world (inner ctx) in
  scan_authorizations caller_nonce_already_bumped (cfg_chain_id w) (tx_authorization_list w) ∅ ctx.

Definition record_rex5_eip7702_authority_state_growth : step unit :=
  sbind (scan_applied_eip7702_authorizations true) (λ applied,
    let authority_creations :=
      Z.of_nat (length (List.filter aa_creates_authority applied)) in
    if 0 <? authority_creations
    then on_limit (on_rex5_eip7702_authority_creations authority_creations) else sret tt).

(** The loop over the applied authorizations: the net-new ones. *)
Fixpoint record_applied (applied : list AppliedAuthorization) : step (list Address) :=
  match applied with
  | [] => sret []
  | auth :: applied =>
      sbind (on_limit (on_rex6_eip7702_authority_applied (aa_creates_authority auth))) (λ _,
      sbind (record_applied applied) (λ materialized,
        sret (if aa_creates_authority auth then aa_authority auth :: materialized
              else materialized)))
  end.

Definition detain_for_beneficiary ctx : ctx_t :=
  let ctx := fst (check_and_mark_beneficiary_balance_access (op_beneficiary (inner ctx)) ctx) in
  match get_compute_gas_limit (volatile_data_tracker ctx) with
  | Some limit => with_additional_limit ctx (set_compute_gas_limit limit (additional_limit ctx))
  | None => ctx
  end.

Definition record_rex6_eip7702_authority_accounting : step (list Address) :=
  sbind (scan_applied_eip7702_authorizations false) (λ applied,
  sbind (record_applied applied) (λ materialized ctx,
    let beneficiary_applied :=
      existsb (λ auth, aa_authority auth =? op_beneficiary (inner ctx)) applied in
    sret materialized (if beneficiary_applied then detain_for_beneficiary ctx else ctx))).

(** * [validate] *)

(** One of the storage gas methods of the host; its error is turned into a text. *)
Definition price_or_fail (m : ctx_t → panics (ctx_t * option Z)) : step Z := λ ctx,
  '(ctx, r) ← m ctx;
  match r with Some gas => sret gas ctx | None => sfail ValidationString ctx end.

Definition callee_storage_gas (materialized_authorities : list Address) : step Z := λ ctx,
  let tx := op_tx (inner ctx) in
  match tx_kind tx with
  | None =>
      let caller := tx_caller tx in
      sbind (if is_enabled (ctx_spec ctx) REX5
             then sbind (inspect_or_text caller false) (λ acc, sret (nonce (acc_info acc)))
             else sret (tx_nonce tx)) (λ nonce ctx,
        let created_address := address_create caller nonce in
        price_or_fail (if is_enabled (ctx_spec ctx) REX
                       then create_contract_storage_gas created_address
                       else new_account_storage_gas created_address) ctx) ctx
  | Some address =>
      if tx_value (op_world (inner ctx)) =? 0 then sret 0 ctx
      else
        sbind (inspect address false) (λ acc,
          if account_info_is_empty (acc_info acc) &&
             negb (bool_decide (address ∈ materialized_authorities))
          then price_or_fail (new_account_storage_gas address) else sret 0) ctx
  end.

Fixpoint authorities_storage_gas (authorities : list Address) (acc : Z) : step Z :=
  match authorities with
  | [] => sret acc
  | a :: l =>
      sbind (price_or_fail (new_account_storage_gas a)) (λ gas, authorities_storage_gas l (acc +w gas))
  end.

(** Rex5: a deposit that materializes its caller. *)
Definition deposit_caller_storage_gas : step Z := λ ctx,
  let tx := op_tx (inner ctx) in
  let caller := tx_caller tx in
  if is_enabled (ctx_spec ctx) REX5 && negb (inside_sandbox ctx) &&
     is_deposit_like_transaction tx (system_address ctx) then
    sbind (inspect caller false) (λ acc ctx,
      if account_info_is_empty (acc_info acc) then
        let already_charged_as_callee :=
          bool_decide (tx_kind tx = Some caller) && negb (tx_value (op_world (inner ctx)) =? 0) in
        sbind (if already_charged_as_callee then sret 0
               else price_or_fail (new_account_storage_gas caller)) (λ gas,
        sbind (on_limit AdditionalLimit.record_deposit_caller_creation) (λ _, sret gas)) ctx
      else sret 0 ctx) ctx
  else sret 0 ctx.

(** The gas of the calldata and of the transaction, recorded as compute gas before it is raised. *)
Definition charge_calldata (g : InitialAndFloorGas) : step InitialAndFloorGas := λ ctx,
  '(a, _) ← record_compute_gas (initial_gas g) (additional_limit ctx);
  let ctx := with_additional_limit ctx a in
  let tokens := tokens_in_calldata (op_world (inner ctx)) in
  let initial := initial_gas g +w wmul CALLDATA_STANDARD_TOKEN_STORAGE_GAS tokens in
  let floor := floor_gas g +w wmul CALLDATA_STANDARD_TOKEN_STORAGE_FLOOR_GAS tokens in
  let initial :=
    if is_enabled (ctx_spec ctx) REX then initial +w constants.rex.TX_INTRINSIC_STORAGE_GAS
    else initial in
  let gas_limit := tx_gas_limit (op_world (inner ctx)) in
  if negb (is_enabled (ctx_spec ctx) REX5) && (gas_limit <? initial)
  then sfail (CallGasCostMoreThanGasLimit gas_limit initial) ctx
  else sret (mkInitialGas initial floor) ctx.

Definition final_gas_check (g : InitialAndFloorGas) : step InitialAndFloorGas := λ ctx,
  let gas_limit := tx_gas_limit (op_world (inner ctx)) in
  if is_enabled (ctx_spec ctx) REX5 && (gas_limit <? initial_gas g)
  then sfail (CallGasCostMoreThanGasLimit gas_limit (initial_gas g)) ctx
  else if is_enabled (ctx_spec ctx) REX5 && (gas_limit <? floor_gas g)
  then sfail (GasFloorMoreThanGasLimit gas_limit (floor_gas g)) ctx
  else sret g ctx.

Definition scans_in_validate ctx : bool :=
  is_enabled (ctx_spec ctx) REX6 && (tx_type (op_tx (inner ctx)) =? EIP7702_TX_TYPE).

Definition validate : step InitialAndFloorGas :=
  sbind (upstream validate_env) (λ _ ctx,
  sbind (upstream (λ ctx, (ctx, validate_initial_tx_gas ctx))) (λ g ctx,
  sbind (if scans_in_validate ctx then record_rex6_eip7702_authority_accounting else sret [])
    (λ materialized_authorities ctx,
  if negb (is_enabled (ctx_spec ctx) MINI_REX) then sret g ctx
  else
    sbind (charge_calldata g) (λ g,
    sbind (callee_storage_gas materialized_authorities) (λ callee_gas,
    let initial := initial_gas g +w callee_gas in
    sbind (authorities_storage_gas materialized_authorities initial) (λ initial,
    sbind deposit_caller_storage_gas (λ caller_gas,
    final_gas_check (mkInitialGas (initial +w caller_gas) (floor_gas g)))))) ctx) ctx) ctx).

(** * Before execution *)

Definition pre_execution : step Z :=
  sbind (upstream validate_against_state_and_deduct_caller) (λ _,
  sbind (upstream load_accounts) (λ _ ctx,
  if tx_type (op_tx (inner ctx)) =? EIP7702_TX_TYPE then
    if is_enabled (ctx_spec ctx) REX6 then
      if limit_exceeded (additional_limit ctx) then sret 0 ctx
      else upstream apply_eip7702_auth_list ctx
    else if is_enabled (ctx_spec ctx) REX5 then
      sbind record_rex5_eip7702_authority_state_growth
        (λ _, upstream apply_eip7702_auth_list) ctx
    else upstream apply_eip7702_auth_list ctx
  else upstream apply_eip7702_auth_list ctx)).

(** * Fee recipients *)

Definition fee_recipient_balance_and_emptiness (address : Address) : step (U256 * bool) :=
  sbind (inspect_or_text address false) (λ acc,
    sret (balance (acc_info acc), account_info_is_empty (acc_info acc))).

Fixpoint snapshot_recipients (recipients : list Address) (snapshots : list FeeRecipientSnapshot)
    : step (list FeeRecipientSnapshot) :=
  match recipients with
  | [] => sret snapshots
  | address :: l =>
      if existsb (λ s, fs_address s =? address) snapshots then snapshot_recipients l snapshots
      else
        sbind (fee_recipient_balance_and_emptiness address) (λ '(balance, was_empty),
          snapshot_recipients l (snapshots ++ [mkSnapshot address balance was_empty]))
  end.

Definition snapshot_fee_recipients : step (list FeeRecipientSnapshot) := λ ctx,
  snapshot_recipients
    [op_beneficiary (inner ctx); L1_FEE_RECIPIENT; BASE_FEE_RECIPIENT; OPERATOR_FEE_RECIPIENT] []
    ctx.

Definition record_reward (was_empty now_empty : bool) (a : AdditionalLimit) : AdditionalLimit :=
  let a := with_data_size a
    (DataSize.merge_persistent_usage ACCOUNT_INFO_WRITE_SIZE (data_size a)) in
  let a := with_kv_update a (KVUpdate.merge_persistent_usage 1 (kv_update a)) in
  if was_empty && negb now_empty
  then with_state_growth a (StateGrowth.merge_persistent_usage 1 (state_growth a)) else a.

Fixpoint record_rewards (snapshots : list FeeRecipientSnapshot) : step unit :=
  match snapshots with
  | [] => sret tt
  | snapshot :: l =>
      sbind (fee_recipient_balance_and_emptiness (fs_address snapshot)) (λ '(balance, now_empty) ctx,
        let ctx :=
          if balance =? fs_balance snapshot then ctx
          else with_additional_limit ctx
                 (record_reward (fs_was_empty snapshot) now_empty (additional_limit ctx)) in
        record_rewards l ctx)
  end.

Definition reward_beneficiary (exec_result : FrameResult) : step FrameResult := λ ctx,
  if disable_beneficiary ctx then sret exec_result ctx
  else if negb (is_enabled (ctx_spec ctx) REX6)
  then upstream (op_reward_beneficiary exec_result) ctx
  else
    sbind snapshot_fee_recipients (λ snapshots,
    sbind (upstream (op_reward_beneficiary exec_result)) (λ exec_result,
    sbind (record_rewards snapshots) (λ _, sret exec_result))) ctx.

End validation.

Arguments OpValidation {R} J W S O.

(** * A whole transaction *)

Section transaction.
Context `{R : Revm} `{RS : RevmState} {J : Type} `{HJ : !JournalInspectTr J} {W : Type}.
Context `{HH : !OpHost J W} {S : Type} `{HS : SaltEnv S} {O : Type} `{HO : OracleEnv O}.
Context `{HA : SystemAbi} `{HL : !LocalContext W} `{HK : !KeylessDeploy J W S O}.
Context `{HE : !OpEvm (J := J) (W := W) (S := S) (O := O)} `{HV : !OpValidation J W S O}.
(** The conversions to the handler's error type. *)
Context (from_frame_error : frame_error → upstream_error).
Context (from_tx_error : TxError frame_error → upstream_error).

Local Notation ctx_t := (MegaContext J W S O).
Local Notation error := (ValidationError DBError upstream_error).
Local Notation step := (step (J := J) (W := W) (S := S) (O := O)).
Implicit Types ctx : ctx_t.

(** The [?] on another error type. *)
Definition converting {A E} (from : E → upstream_error) (m : ctx_t → panics (ctx_t * result A E))
    : step A := λ ctx,
  '(ctx, r) ← m ctx;
  Some (ctx, match r with Ok x => Ok x | Err e => Err (UpstreamValidation (from e)) end).

(** [execution] and [inspect_execution] differ in the loop. *)
Definition execution_with (loop : FrameInit → ctx_t → panics (ctx_t * result FrameResult upstream_error))
    (g : InitialAndFloorGas) : step FrameResult := λ ctx,
  let limit := tx_gas_limit (op_world (inner ctx)) in
  match before_execution limit (initial_gas g) ctx with
  | Some oog_frame_result => sret oog_frame_result ctx
  | None =>
      let gas_limit := limit -w initial_gas g in
      sbind (upstream (first_frame_input gas_limit)) (λ first_frame_input,
      sbind (converting (λ e, e) (loop first_frame_input)) (λ frame_result,
      converting from_frame_error (last_frame_result frame_result))) ctx
  end.

Definition execution := execution_with run_exec_loop.
Definition inspect_execution := execution_with inspect_run_exec_loop.

Definition post_execution (g : InitialAndFloorGas) (eip7702_refund : Z) (exec_result : FrameResult)
    : step FrameResult :=
  sbind (upstream (settle_gas g eip7702_refund exec_result)) reward_beneficiary.

Definition run_with (execution : InitialAndFloorGas → step FrameResult)
    : step (ExecutionResult exec_data (MegaHaltReason OpHaltReason)) :=
  sbind (converting from_tx_error before_run) (λ _,
  sbind validate (λ init_and_floor_gas,
  sbind pre_execution (λ eip7702_refund,
  sbind (execution init_and_floor_gas) (λ exec_result,
  sbind (post_execution init_and_floor_gas eip7702_refund exec_result) (λ exec_result,
  converting from_frame_error (execution_result exec_result)))))).

Definition run_without_catch_error := run_with execution.
Definition inspect_run_without_catch_error := run_with inspect_execution.

(** [op.catch_error] of the upstream handler. *)
Context (op_catch_error : error → step (ExecutionResult exec_data OpHaltReason)).

Definition map_haltreason (r : ExecutionResult exec_data OpHaltReason)
    : ExecutionResult exec_data (MegaHaltReason OpHaltReason) :=
  match r with
  | ExecSuccess d => ExecSuccess d
  | ExecRevert d => ExecRevert d
  | ExecHalt reason gas_used => ExecHalt (BaseHalt reason) gas_used
  end.

Definition catch_error (e : error) : step (ExecutionResult exec_data (MegaHaltReason OpHaltReason)) :=
  sbind (op_catch_error e) (λ r, sret (map_haltreason r)).

Definition run_system_call : step (ExecutionResult exec_data (MegaHaltReason OpHaltReason)) := λ ctx,
  ctx ← on_new_tx ctx;
  '(ctx, r) ←
    sbind (execution (mkInitialGas 0 0)) (λ exec_result,
      converting from_frame_error (execution_result exec_result)) ctx;
  match r with Ok out => Some (ctx, Ok out) | Err e => catch_error e ctx end.
End transaction.
