(* ===== verification/ValidationFacts.v ===== *)
(** What validation charges: the authorizations that will apply, and the gas of every account a
    transaction creates before its first frame. *)

From S2P Require Import Prelude Spec Revm LimitCheck Interfaces Journal JournalFacts.
From S2P Require Import ComputeGas DataSize KVUpdate StateGrowth StorageCallStipend.
From S2P Require Import AdditionalLimit Access DynamicGas SystemTx Context Intercept Execution.
From S2P Require Import Validation.

(** * EIP-7702, as specified

    The list is applied in order; an authorization that applies raises the nonce of its
    authority, which then exists and holds a delegation. *)

Record AuthorityAccount : Type := mkAuthority {
  ac_nonce : Z;
  ac_delegable : bool;
  ac_missing : bool;
}.

Definition applies_to (chain_id : Z) (st : Address → AuthorityAccount) (au : Authorization)
    : option Address :=
  match au_authority au with
  | Some a =>
      if ((au_chain_id au =? 0) || (au_chain_id au =? chain_id)) && (au_nonce au <? u64_max) &&
         ac_delegable (st a) && (au_nonce au =? ac_nonce (st a))
      then Some a else None
  | None => None
  end.

Definition delegated (st : Address → AuthorityAccount) (a : Address) : Address → AuthorityAccount :=
  λ b, if b =? a then mkAuthority (ac_nonce (st a) + 1) true false else st b.

Fixpoint apply_authorizations (chain_id : Z) (st : Address → AuthorityAccount)
    (l : list Authorization) : list AppliedAuthorization :=
  match l with
  | [] => []
  | au :: l =>
      match applies_to chain_id st au with
      | Some a => mkApplied a (ac_missing (st a)) :: apply_authorizations chain_id (delegated st a) l
      | None => apply_authorizations chain_id st l
      end
  end.

Definition creations (l : list AppliedAuthorization) : list Address :=
  aa_authority <$> List.filter aa_creates_authority l.

Lemma apply_creates_once chain_id st l :
  NoDup (creations (apply_authorizations chain_id st l)) ∧
  ∀ a, a ∈ creations (apply_authorizations chain_id st l) → ac_missing (st a) = true.
Proof.
  unfold creations. revert st. induction l as [|au l IH]; intros st; simpl.
  { split; [constructor|]. intros a []%not_elem_of_nil. }
  destruct (applies_to chain_id st au) as [a|]; [|apply IH].
  destruct (IH (delegated st a)) as [Hnd Hm].
  assert (Hd : ∀ b, ac_missing (delegated st a b) = true → b ≠ a ∧ ac_missing (st b) = true).
  { intros b. unfold delegated. by destruct (Z.eqb_spec b a). }
  simpl. destruct (ac_missing (st a)) eqn:Ha; simpl.
  - split; [|intros b [->|Hb]%elem_of_cons; [done|by apply Hd, Hm]].
    constructor; [|done]. intros Hb. by apply Hm, Hd in Hb as [? _].
  - split; [done|]. intros b Hb. by apply Hd, Hm.
Qed.

(** * The scan is the specification *)

Section scan.
Context `{R : Revm} `{RS : RevmState} {RSL : RevmStateLaws RS} {E : Type} (db : Database E).
Local Instance HJ : JournalInspectTr Journal := journal_inspect db.
Context {W S : Type} `{HS : SaltEnv S} {O : Type} `{HO : OracleEnv O}.
Context `{HV : !OpValidation Journal W S O}.

Local Notation ctx_t := (MegaContext Journal W S O).
Implicit Types (ctx : ctx_t) (j : Journal).

Definition seen j (a : Address) : result Account E := snd (Journal.inspect_account db a true j).

(** What the authorization list sees of an account. *)
Definition authority_of (caller_nonce_already_bumped : bool) (caller : Address) (a : Address)
    (r : result Account E) : AuthorityAccount :=
  match r with
  | Ok acc => mkAuthority
      (if negb caller_nonce_already_bumped && (a =? caller)
       then sat_add (nonce (acc_info acc)) 1 else nonce (acc_info acc))
      (match code (acc_info acc) with
       | Some (Eip7702 _) | None => true | Some c => code_is_empty c end)
      (account_info_is_empty (acc_info acc) && is_loaded_as_not_existing_not_touched acc)
  | Err _ => mkAuthority 0 false false
  end.

(** An inspection changes neither its own answer nor another's. *)
Lemma seen_stable a j b : seen (fst (Journal.inspect_account db a true j)) b = seen j b.
Proof.
  destruct (Journal.inspect_account db a true j) as [j' r] eqn:Ei. simpl.
  pose proof (inspect_account_cases db a true j j' r Ei) as ((Ht & _) & _ & Hother).
  destruct (decide (b = a)) as [->|Hne]; cycle 1.
  { unfold seen, Journal.inspect_account. rewrite Hother, Ht by done.
    destruct (jr_state j !! b); [by destruct (needs_code _); [destruct (db_code_by_hash _ _)|]|].
    destruct (Journal.basic db b); [|done]. by destruct (_ && _); [destruct (db_code_by_hash _ _)|]. }
  unfold seen. rewrite Ei. simpl. unfold Journal.inspect_account in Ei.
  assert (Hload : ∀ acc, needs_code acc = false →
    snd (Journal.inspect_account db a true (jr_insert a acc j)) = Ok acc).
  { intros acc Hn. unfold Journal.inspect_account. simpl. by rewrite lookup_insert_eq, Hn. }
  assert (Hsc : ∀ acc c, needs_code (set_code acc c) = false ∧ needs_code (mark_cold (set_code acc c)) = false).
  { intros acc c. unfold needs_code. simpl. by rewrite andb_false_r. }
  destruct (jr_state j !! a) as [acc|] eqn:Ha.
  - destruct (needs_code acc) eqn:Hn.
    + destruct (db_code_by_hash db _) eqn:Hc; simplify_eq; [apply Hload, Hsc|].
      unfold Journal.inspect_account. by rewrite Ha, Hn, Hc.
    + simplify_eq. unfold Journal.inspect_account. by rewrite Ha, Hn.
  - destruct (Journal.basic db a) as [i|e] eqn:Hb; cycle 1.
    { simplify_eq. unfold Journal.inspect_account. by rewrite Ha, Hb. }
    fold (loaded i j) in Ei. destruct (true && needs_code (loaded i j)) eqn:Hn.
    + destruct (db_code_by_hash db _) eqn:Hc; simplify_eq; [apply Hload, Hsc|].
      unfold Journal.inspect_account. rewrite Ha, Hb. fold (loaded i j'). by rewrite Hn, Hc.
    + simplify_eq. by apply Hload.
Qed.

(** Only the journal changed, by loading accounts. *)
Definition only_loads ctx ctx' : Prop :=
  ∃ j, ctx' = with_journal ctx j ∧ transparent db (op_journal (inner ctx)) j.

#[export] Instance only_loads_preorder : PreOrder only_loads.
Proof.
  split.
  - intros ctx. exists (op_journal (inner ctx)). by destruct ctx as [[]].
  - intros c1 c2 c3 (j & -> & H1) (j' & -> & H2). exists j'. split; [done|by etrans].
Qed.

Lemma inspect_spec a ctx :
  ∃ ctx', inspect a true ctx =
      Some (ctx', match seen (op_journal (inner ctx)) a with
                  | Ok acc => Ok acc | Err e => Err (ValidationDbError e) end) ∧
    only_loads ctx ctx' ∧ ∀ b, seen (op_journal (inner ctx')) b = seen (op_journal (inner ctx)) b.
Proof.
  unfold inspect, seen. simpl. pose proof (seen_stable a (op_journal (inner ctx))) as Hs.
  destruct (Journal.inspect_account db a true _) as [j r] eqn:Ei.
  apply inspect_account_cases in Ei as [Ht _]. exists (with_journal ctx j). split; [done|].
  split; [by exists j|]. exact Hs.
Qed.

Lemma sbind_eq {A B} (m : step A) (k : A → step B) ctx ctx' r :
  m ctx = Some (ctx', r) →
  sbind m k ctx = match r with Ok x => k x ctx' | Err e => Some (ctx', Err e) end.
Proof. intros Hm. unfold sbind. by rewrite Hm. Qed.

Context (bumped : bool) (chain_id : Z) (caller : Address) (j0 : Journal).

(** The map of simulated nonces stands for the accounts applied so far. *)
Definition simulates (simulated : gmap Z Z) (st : Address → AuthorityAccount) : Prop :=
  ∀ a, st a = match simulated !! a with
              | Some n => mkAuthority n true false
              | None => authority_of bumped caller a (seen j0 a)
              end.

Lemma simulates_delegated simulated st a n :
  simulates simulated st → ac_nonce (st a) = n → n < u64_max →
  simulates (<[a := sat_add n 1]> simulated) (delegated st a).
Proof.
  intros Hs <- Hlt b. unfold delegated. destruct (Z.eqb_spec b a) as [->|Hne].
  - rewrite lookup_insert_eq. f_equal. u64_lia.
  - rewrite lookup_insert_ne by done. apply Hs.
Qed.

Definition scan_result (l : list Authorization) st ctx
    (x : panics (ctx_t * result (list AppliedAuthorization) (ValidationError E upstream_error))) : Prop :=
  ∃ ctx' r, x = Some (ctx', r) ∧ only_loads ctx ctx' ∧
    match r with
    | Ok applied => applied = apply_authorizations chain_id st l
    | Err _ => ∃ au a e, au ∈ l ∧ au_authority au = Some a ∧ seen j0 a = Err e
    end.

Lemma scan_result_skip au l st ctx ctx1 x :
  only_loads ctx ctx1 → applies_to chain_id st au = None →
  scan_result l st ctx1 x → scan_result (au :: l) st ctx x.
Proof.
  intros Hl Ha (ctx' & r & -> & Hl' & Hr). exists ctx', r. split; [done|]. split; [by etrans|].
  destruct r as [applied|e]; [simpl; by rewrite Ha|].
  destruct Hr as (au' & a & e' & Hin & H). exists au', a, e'. split; [by right|done].
Qed.

Lemma candidate_spec st au :
  in_u64 (au_nonce au) →
  match candidate_authority chain_id au with
  | Some a => au_authority au = Some a ∧ au_nonce au < u64_max ∧
      applies_to chain_id st au =
        if ac_delegable (st a) && (au_nonce au =? ac_nonce (st a)) then Some a else None
  | None => applies_to chain_id st au = None
  end.
Proof.
  intros [_ Hn]. unfold candidate_authority, applies_to.
  destruct (au_chain_id au =? 0), (au_chain_id au =? chain_id); simpl;
    try (by destruct (au_authority au));
    (destruct (Z.eqb_spec (au_nonce au) u64_max) as [->|Hne];
      [by destruct (au_authority au)|destruct (au_authority au); [|done]]);
    rewrite (proj2 (Z.ltb_lt _ _)) by lia; (split; [done|split; [lia|done]]).
Qed.

Lemma scan_spec l : Forall (λ au, in_u64 (au_nonce au)) l → ∀ simulated st ctx,
  simulates simulated st → (∀ a, seen (op_journal (inner ctx)) a = seen j0 a) →
  tx_caller (op_tx (inner ctx)) = caller →
  scan_result l st ctx (scan_authorizations bumped chain_id l simulated ctx).
Proof.
  induction 1 as [|au l Hau Hl IH]; intros simulated st ctx Hs Hj Hc; simpl.
  { exists ctx, (Ok []). by split_and!. }
  pose proof (candidate_spec st au Hau) as Hcand.
  destruct (candidate_authority chain_id au) as [a|]; [|by eapply scan_result_skip; [..|apply IH]].
  destruct Hcand as (Ha & Hlt & Happ).
  (* after the account has been read *)
  assert (Hread : ∀ ctx1 n creates delegable, only_loads ctx ctx1 →
    (∀ b, seen (op_journal (inner ctx1)) b = seen j0 b) → st a = mkAuthority n delegable creates →
    scan_result (au :: l) st ctx
      (match (if delegable : bool then Some (n, creates) else None) with
       | None => scan_authorizations bumped chain_id l simulated
       | Some (authority_nonce, creates_authority) =>
           if negb (au_nonce au =? authority_nonce)
           then scan_authorizations bumped chain_id l simulated
           else sbind (scan_authorizations bumped chain_id l
                  (<[a := sat_add authority_nonce 1]> simulated))
                  (λ applied, sret (mkApplied a creates_authority :: applied))
       end ctx1)).
  { intros ctx1 n creates delegable Hl1 Hj1 Hst. rewrite Hst in Happ. simpl in Happ.
    assert (Hc1 : tx_caller (op_tx (inner ctx1)) = caller) by (by destruct Hl1 as (? & -> & _)).
    destruct delegable; [|by eapply scan_result_skip; [..|apply IH]]. simpl in Happ.
    destruct (Z.eqb_spec (au_nonce au) n) as [Hn|]; simpl; [|by eapply scan_result_skip; [..|apply IH]].
    assert (Hs' : simulates (<[a:=sat_add n 1]> simulated) (delegated st a)).
    { apply simulates_delegated; [done|by rewrite Hst|lia]. }
    destruct (IH _ _ ctx1 Hs' Hj1 Hc1) as (ctx2 & r & E2 & Hl2 & Hr).
    unfold sbind. rewrite E2. simpl. assert (only_loads ctx ctx2) by (by etrans).
    destruct r as [applied|e].
    - eexists _, _. split; [done|]. split; [done|]. simpl. rewrite Happ, Hst. by rewrite Hr.
    - eexists _, _. split; [done|]. split; [done|]. destruct Hr as (au' & b & e' & Hin & Hb).
      exists au', b, e'. split; [by right|done]. }
  unfold sbind at 1, authority_state. pose proof (Hs a) as Hsa.
  destruct (simulated !! a) as [n|]; simpl; [by apply (Hread ctx n false true)|].
  destruct (inspect_spec a ctx) as (ctx1 & Ei & Hl1 & Hj1). rewrite Hj in Ei.
  rewrite (sbind_eq (inspect a true) _ _ _ _ Ei).
  destruct (seen j0 a) as [acc|e] eqn:Hseen; cycle 1.
  { eexists _, _. split; [done|]. split; [done|]. exists au, a, e. split; [left|done]. }
  assert (Hc1 : tx_caller (op_tx (inner ctx1)) = caller) by (by destruct Hl1 as (? & -> & _)).
  simpl. rewrite Hc1. eapply (Hread ctx1) in Hsa; [|done|intros b; by rewrite Hj1, Hj].
  destruct (code (acc_info acc)) as [[?|]|]; simpl in *; try done.
  destruct (code_is_empty _); simpl in *; done.
Qed.
End scan.

(** What the code relies on of the upstream handler: validating the environment only reads, a
    deposit is not a set-code transaction, and whether an account is empty depends on its
    balance, nonce and code hash. *)
Class ValidationLaws `{R : Revm} `{RS : RevmState} {J W S O : Type} `{HV : !OpValidation J W S O} := {
  validate_env_reads ctx ctx' r : validate_env ctx = (ctx', r) → ctx' = ctx;
  deposit_not_7702 : DEPOSIT_TRANSACTION_TYPE ≠ EIP7702_TX_TYPE;
  is_empty_view i i' :
    info_view i = info_view i' → account_info_is_empty i = account_info_is_empty i';
}.

(** * What a transaction pays before its first frame *)

Section charges.
Context `{R : Revm} `{RS : RevmState} {RSL : RevmStateLaws RS} {E : Type} (db : Database E).
Local Instance HJ_charges : JournalInspectTr Journal := journal_inspect db.
Context {W S : Type} `{HS : SaltEnv S} {O : Type} `{HO : OracleEnv O}.
Context `{HV : !OpValidation Journal W S O} {VL : ValidationLaws}.

Local Notation ctx_t := (MegaContext Journal W S O).
Local Notation step := (step (J := Journal) (W := W) (S := S) (O := O)).
Implicit Types ctx : ctx_t.
Context (ctx0 : ctx_t).
Let env := dg_salt_env (dynamic_storage_gas_cost ctx0).
Context (Hcap : capacities_ok env).

(** What validation keeps: everything but loaded accounts, recorded usage and cached prices. *)
Definition kept ctx : Prop :=
  ctx_spec ctx = ctx_spec ctx0 ∧ op_tx (inner ctx) = op_tx (inner ctx0) ∧
  op_world (inner ctx) = op_world (inner ctx0) ∧ inside_sandbox ctx = inside_sandbox ctx0 ∧
  system_address ctx = system_address ctx0 ∧
  transparent db (op_journal (inner ctx0)) (op_journal (inner ctx)) ∧
  is_exempt (has_exceeded_limit (additional_limit ctx)) = false ∧
  dg_spec (dynamic_storage_gas_cost ctx) = ctx_spec ctx0 ∧
  dg_salt_env (dynamic_storage_gas_cost ctx) = env ∧ cache_ok (dynamic_storage_gas_cost ctx).

Lemma sbind_ok_inv {A B} (m : step A) (k : A → step B) ctx ctx' y :
  sbind m k ctx = Some (ctx', Ok y) →
  ∃ ctx1 x, m ctx = Some (ctx1, Ok x) ∧ k x ctx1 = Some (ctx', Ok y).
Proof.
  unfold sbind. intros H. bind_inv H. destruct y0 as [v|]; [|done]. by exists x, v.
Qed.

Lemma kept_limit ctx a :
  kept ctx → is_exempt (has_exceeded_limit a) = is_exempt (has_exceeded_limit (additional_limit ctx)) →
  kept (with_additional_limit ctx a).
Proof. intros (H1&H2&H3&H4&H5&H6&H7&H8) He. split_and!; try done; [simpl; congruence|apply H8..]. Qed.

Lemma kept_loads ctx ctx' : kept ctx → only_loads db ctx ctx' → kept ctx'.
Proof.
  intros (H1&H2&H3&H4&H5&H6&H7&H8&H9&H10) (j & -> & Ht). split_and!; try done. simpl. by etrans.
Qed.

Lemma check_not_exempt (a : AdditionalLimit) a' c :
  AdditionalLimit.check_limit a = Some (a', c) →
  is_exempt (has_exceeded_limit a') = is_exempt (has_exceeded_limit a).
Proof.
  unfold AdditionalLimit.check_limit. intros H. destruct (has_exceeded_limit a) eqn:Ha; simpl in H;
    [|injection H as <- _; by rewrite Ha..].
  do 4 (bind_inv H; match type of H with
    | context [exceeded_limit ?c] =>
        destruct (exceeded_limit c) eqn:?; [injection H as <- _; simpl; by destruct c|]
    end).
  injection H as <- _. by rewrite Ha.
Qed.

(** ** Prices *)

Definition request_gas (q : request) : ctx_t → panics (ctx_t * option Z) :=
  match q with
  | SstoreSet a key => sstore_set_storage_gas a key
  | NewAccount a => new_account_storage_gas a
  | CreateContract a => create_contract_storage_gas a
  end.

Lemma price_ok q ctx ctx' v :
  kept ctx → price_or_fail (request_gas q) ctx = Some (ctx', Ok v) →
  kept ctx' ∧ price (ctx_spec ctx0) env q = Ok v.
Proof.
  intros (H1&H2&H3&H4&H5&H6&H7&H8&H9&H10) H. unfold price_or_fail in H. bind_inv H.
  destruct y as [gas|]; [|done]. injection H as -> <-.
  destruct (ask_spec q (dynamic_storage_gas_cost ctx)) as (g & Ha & Hc & Hs & He); [by rewrite H9|done|].
  assert (Hx : ∃ e, (let '(g, r) := (g, price (ctx_spec ctx0) env q) in
    match r with Ok v => Some (with_dynamic_gas ctx g, Some v) | Err _ => Some (e, None) end) =
    Some (ctx', Some gas)).
  { rewrite H8, H9 in Ha. unfold request_gas in E0.
    destruct q; unfold sstore_set_storage_gas, new_account_storage_gas, create_contract_storage_gas,
      storage_gas in E0; rewrite H7 in E0; simpl in Ha; rewrite Ha in E0; by eexists. }
  destruct Hx as [e Hx]. destruct (price (ctx_spec ctx0) env q) as [v|]; [|by simplify_eq]. simplify_eq.
  split; [|done]. split_and!; try done; simpl; congruence.
Qed.

(** ** Emptiness *)

(** The account is empty before the transaction. *)
Definition vacant (a : Address) : Prop :=
  ∃ i, JournalFacts.view db (op_journal (inner ctx0)) a = Ok (info_view i) ∧
    account_info_is_empty i = true.

Lemma inspect_ok a lc ctx ctx' acc :
  kept ctx → inspect a lc ctx = Some (ctx', Ok acc) →
  kept ctx' ∧ (account_info_is_empty (acc_info acc) = true ↔ vacant a).
Proof.
  intros Hk H. unfold inspect in H. simpl in H.
  destruct (Journal.inspect_account db a lc _) as [j r] eqn:Ei.
  apply inspect_account_cases in Ei as (Ht & Hr & _). destruct r as [acc'|]; [|done]. simplify_eq.
  assert (Hk' : kept (with_journal ctx j)) by (eapply kept_loads; [done|by exists j]).
  split; [done|]. destruct Hk' as (_&_&_&_&_&Ht0&_). destruct Ht0 as (_ & Hv & _). simpl in Hv.
  assert (Hva : JournalFacts.view db (op_journal (inner ctx0)) a = Ok (info_view (acc_info acc))).
  { rewrite <- Hv. unfold JournalFacts.view. by rewrite (Hr acc eq_refl). }
  split; [intros He; by exists (acc_info acc)|].
  intros (i & Hi & He). rewrite Hva in Hi. injection Hi as Hi. rewrite <- He. apply is_empty_view.
  unfold info_view. by f_equal; [f_equal|].
Qed.

(** ** The steps of validation *)

Context (H5 : is_enabled (ctx_spec ctx0) REX5 = true).
Let tx := op_tx (inner ctx0).
Let w := op_world (inner ctx0).

Lemma on_limit_ok f ctx ctx' u :
  kept ctx → on_limit f ctx = Some (ctx', Ok u) →
  (∀ a a', f a = Some a' → is_exempt (has_exceeded_limit a') = is_exempt (has_exceeded_limit a)) →
  kept ctx'.
Proof. intros Hk H Hf. unfold on_limit in H. bind_inv H. simplify_eq. apply kept_limit; auto. Qed.

Lemma record_applied_ok applied ctx ctx' mats :
  kept ctx → record_applied applied ctx = Some (ctx', Ok mats) → kept ctx' ∧ mats = creations applied.
Proof.
  unfold creations. revert ctx ctx' mats.
  induction applied as [|auth applied IH]; intros ctx ctx' mats Hk H; simpl in H.
  { by injection H as <- <-. }
  apply sbind_ok_inv in H as (ctx1 & u & H1 & H). apply on_limit_ok in H1; [|done|]; cycle 1.
  { intros a a' Ha. unfold on_rex6_eip7702_authority_applied in Ha. bind_inv Ha. simplify_eq.
    apply check_not_exempt in E0. rewrite E0. by destruct (aa_creates_authority auth). }
  apply sbind_ok_inv in H as (ctx2 & mats' & H2 & H). apply IH in H2 as [Hk2 ->]; [|done].
  injection H as <- <-. split; [done|]. simpl. by destruct (aa_creates_authority auth).
Qed.

Definition applied0 : list AppliedAuthorization :=
  apply_authorizations (cfg_chain_id w)
    (λ a, authority_of (W := W) (S := S) (O := O) false (tx_caller tx) a
            (seen db (op_journal (inner ctx0)) a))
    (tx_authorization_list w).

Definition materialized0 : list Address :=
  if scans_in_validate ctx0 then creations applied0 else [].

Lemma accounting_ok ctx' mats :
  Forall (λ au, in_u64 (au_nonce au)) (tx_authorization_list w) → kept ctx0 →
  record_rex6_eip7702_authority_accounting ctx0 = Some (ctx', Ok mats) →
  kept ctx' ∧ mats = creations applied0.
Proof.
  intros Hn Hk H. unfold record_rex6_eip7702_authority_accounting in H.
  apply sbind_ok_inv in H as (ctx1 & applied & H1 & H). unfold scan_applied_eip7702_authorizations in H1.
  destruct (scan_spec db false (cfg_chain_id w) (tx_caller tx) (op_journal (inner ctx0))
    (tx_authorization_list w) Hn ∅ (λ a, authority_of (W := W) (S := S) (O := O) false (tx_caller tx) a
            (seen db (op_journal (inner ctx0)) a)) ctx0) as (c & r & E1 & Hl & Hr); try done.
  unfold HJ_charges in H1. unfold HJ in E1. fold w in H1. rewrite E1 in H1. injection H1 as <- ->.
  simpl in Hr. apply sbind_ok_inv in H as (ctx2 & mats' & H2 & H). injection H as <- <-.
  apply record_applied_ok in H2 as [Hk2 ->]; [|by eapply kept_loads].
  split; [|by rewrite Hr]. destruct (existsb _ _); [|done].
  unfold detain_for_beneficiary, check_and_mark_beneficiary_balance_access. rewrite Z.eqb_refl. simpl.
  destruct (get_compute_gas_limit _); [|done]. by apply (kept_limit (with_tracker ctx2 _)).
Qed.

Definition calldata_gas (g : InitialAndFloorGas) : InitialAndFloorGas :=
  mkInitialGas
    (initial_gas g + 40 * tokens_in_calldata w + 39000) (floor_gas g + 100 * tokens_in_calldata w).

Lemma calldata_ok g g' ctx ctx' :
  kept ctx → charge_calldata g ctx = Some (ctx', Ok g') →
  kept ctx' ∧ initial_gas g' ≡64 initial_gas (calldata_gas g) ∧
  floor_gas g' = wrap64 (floor_gas (calldata_gas g)).
Proof.
  intros Hk H. pose proof Hk as (Hs & _ & Hw & _). unfold charge_calldata in H. bind_inv H.
  rewrite Hs, Hw, H5, (is_enabled_trans _ REX5) in H by done. fold w in H. simpl in H.
  injection H as <- <-. simpl.
  split; [|split; [|unfold wmul, CALLDATA_STANDARD_TOKEN_STORAGE_FLOOR_GAS; wrap_eq]].
  - apply kept_limit; [done|]. unfold record_compute_gas in E0. simpl in E0. case_bools_in E0; [by simplify_eq|].
    bind_inv E0. destruct (exceeded_limit x0) eqn:Hx; simplify_eq; [|done].
    simpl in *. destruct x0; try done. by destruct (has_exceeded_limit (additional_limit ctx)).
  - unfold wmul, CALLDATA_STANDARD_TOKEN_STORAGE_GAS, constants.rex.TX_INTRINSIC_STORAGE_GAS. cong64_solve.
Qed.

(** The requests [reqs] were all answered, for [v] in total. *)
Definition price_of (q : request) : Z :=
  match price (ctx_spec ctx0) env q with Ok v => v | Err _ => 0 end.
Definition answered (reqs : list request) (v : Z) : Prop :=
  Forall (λ q, is_ok_result (price (ctx_spec ctx0) env q) = true) reqs ∧ v = sumZ price_of reqs.

Lemma answered_one q v : price (ctx_spec ctx0) env q = Ok v → answered [q] v.
Proof.
  intros H. split; [constructor; [by rewrite H|done]|]. rewrite sumZ_cons, sumZ_nil. unfold price_of.
  rewrite H. lia.
Qed.
Lemma answered_none : answered [] 0.
Proof. by split. Qed.
Lemma answered_app l k v v' : answered l v → answered k v' → answered (l ++ k) (v + v').
Proof. intros [H1 ->] [H2 ->]. split; [by apply Forall_app|by rewrite sumZ_app]. Qed.

(** Who is paid for as the callee, and as the caller of a deposit. *)
Definition callee_paid (mats : list Address) (reqs : list request) : Prop :=
  match tx_kind tx with
  | None => ∃ b n h, JournalFacts.view db (op_journal (inner ctx0)) (tx_caller tx) = Ok (b, n, h) ∧
      reqs = [CreateContract (address_create (tx_caller tx) n)]
  | Some a =>
      let paid := tx_value w ≠ 0 ∧ vacant a ∧ a ∉ mats in
      (paid ∧ reqs = [NewAccount a]) ∨ (¬ paid ∧ reqs = [])
  end.

Definition deposit_creates_caller : Prop :=
  inside_sandbox ctx0 = false ∧ is_deposit_like_transaction tx (system_address ctx0) = true ∧
  vacant (tx_caller tx).

Definition caller_paid (reqs : list request) : Prop :=
  let paid := deposit_creates_caller ∧ ¬ (tx_kind tx = Some (tx_caller tx) ∧ tx_value w ≠ 0) in
  (paid ∧ reqs = [NewAccount (tx_caller tx)]) ∨ (¬ paid ∧ reqs = []).

Lemma inspect_text_nonce a lc ctx ctx' acc :
  kept ctx → inspect_or_text a lc ctx = Some (ctx', Ok acc) →
  kept ctx' ∧ JournalFacts.view db (op_journal (inner ctx0)) a = Ok (info_view (acc_info acc)).
Proof.
  intros Hk H. unfold inspect_or_text in H. simpl in H.
  destruct (Journal.inspect_account db a lc _) as [j r] eqn:Ei.
  apply inspect_account_cases in Ei as (Ht & Hr & _). destruct r as [acc'|]; [|done]. simplify_eq.
  assert (Hk' : kept (with_journal ctx j)) by (eapply kept_loads; [done|by exists j]).
  split; [done|]. destruct Hk' as (_&_&_&_&_&(_ & Hv & _)&_). rewrite <- Hv. simpl.
  unfold JournalFacts.view. by rewrite (Hr acc eq_refl).
Qed.

Lemma callee_ok mats ctx ctx' v :
  kept ctx → callee_storage_gas mats ctx = Some (ctx', Ok v) →
  kept ctx' ∧ ∃ reqs, callee_paid mats reqs ∧ answered reqs v.
Proof.
  intros Hk H. pose proof Hk as (Hs & Htx & Hw & _). unfold callee_storage_gas in H.
  rewrite Htx, Hs, Hw, H5 in H. fold tx w in H. unfold callee_paid. destruct (tx_kind tx) as [a|].
  - destruct (Z.eqb_spec (tx_value w) 0) as [Hz|Hz].
    { injection H as <- <-. split; [done|]. exists []. split; [right; tauto|apply answered_none]. }
    apply sbind_ok_inv in H as (ctx1 & acc & H1 & H). apply inspect_ok in H1 as [Hk1 Hv]; [|done].
    destruct (account_info_is_empty (acc_info acc)); simpl in H; cycle 1.
    { injection H as <- <-. split; [done|]. exists []. split; [|apply answered_none]. right.
      split; [|done]. intros (_ & Hva & _). by apply Hv in Hva. }
    destruct (bool_decide (a ∈ mats)) eqn:Hin; simpl in H.
    { injection H as <- <-. apply bool_decide_eq_true in Hin. split; [done|]. exists [].
      split; [right; tauto|apply answered_none]. }
    apply bool_decide_eq_false in Hin. apply (price_ok (NewAccount a)) in H as [Hk2 Hp]; [|done].
    split; [done|]. exists [NewAccount a]. split; [|by apply answered_one]. left. split; [|done].
    split_and!; [done|by apply Hv|done].
  - apply sbind_ok_inv in H as (ctx1 & n & H1 & H). apply sbind_ok_inv in H1 as (ctx2 & acc & H1 & Hn).
    apply inspect_text_nonce in H1 as [Hk2 Hv]; [|done]. injection Hn as <- <-.
    pose proof Hk2 as (Hs2 & _). rewrite Hs2, (is_enabled_trans _ REX5) in H by done.
    apply (price_ok (CreateContract _)) in H as [Hk3 Hp]; [|done]. split; [done|].
    eexists. split; [|by apply answered_one]. by exists (balance (acc_info acc)), (nonce (acc_info acc)), (code_hash (acc_info acc)).
Qed.

Lemma authorities_ok l acc ctx ctx' v :
  kept ctx → authorities_storage_gas l acc ctx = Some (ctx', Ok v) →
  kept ctx' ∧ ∃ t, answered (NewAccount <$> l) t ∧ v ≡64 acc + t.
Proof.
  revert acc ctx. induction l as [|a l IH]; intros acc ctx Hk H; simpl in H.
  { injection H as <- <-. split; [done|]. exists 0. split; [apply answered_none|]. by rewrite Z.add_0_r. }
  apply sbind_ok_inv in H as (ctx1 & gas & H1 & H). apply (price_ok (NewAccount a)) in H1 as [Hk1 Hp]; [|done].
  apply IH in H as (Hk2 & t & Ht & Hv); [|done]. split; [done|]. exists (gas + t). split.
  - simpl. apply (answered_app [NewAccount a]); [by apply answered_one|done].
  - rewrite Hv. cong64_solve.
Qed.

Lemma deposit_ok ctx ctx' v :
  kept ctx → deposit_caller_storage_gas ctx = Some (ctx', Ok v) →
  kept ctx' ∧ ∃ reqs, caller_paid reqs ∧ answered reqs v.
Proof.
  intros Hk H. pose proof Hk as (Hs & Htx & Hw & Hsb & Hsa & _). unfold deposit_caller_storage_gas in H.
  rewrite Hs, Htx, Hsb, Hsa, H5 in H. fold tx in H. simpl in H. unfold caller_paid, deposit_creates_caller.
  destruct (inside_sandbox ctx0); simpl in H.
  { injection H as <- <-. split; [done|]. exists []. split; [right; split; [by intros [(? & _) _]|done]|apply answered_none]. }
  destruct (is_deposit_like_transaction tx (system_address ctx0)); cycle 1.
  { injection H as <- <-. split; [done|]. exists []. split; [right; split; [by intros [(_ & ? & _) _]|done]|apply answered_none]. }
  apply sbind_ok_inv in H as (ctx1 & acc & H1 & H). apply inspect_ok in H1 as [Hk1 Hv]; [|done].
  pose proof Hk1 as (_ & _ & Hw1 & _). rewrite Hw1 in H. fold w in H.
  destruct (account_info_is_empty (acc_info acc)) eqn:He; cycle 1.
  { injection H as <- <-. split; [done|]. exists []. split; [|apply answered_none]. right. split; [|done].
    intros [(_ & _ & Hva) _]. by apply Hv in Hva. }
  assert (Hva : vacant (tx_caller tx)) by (by apply Hv).
  apply sbind_ok_inv in H as (ctx2 & gas & H2 & H). apply sbind_ok_inv in H as (ctx3 & u & H3 & H).
  injection H as <- <-.
  assert (Hfin : kept ctx2 → kept ctx3).
  { intros Hk2. eapply on_limit_ok in H3; [done..|]. intros a a' Ha.
    unfold AdditionalLimit.record_deposit_caller_creation in Ha. bind_inv Ha. simplify_eq.
    by apply check_not_exempt in E0. }
  destruct (bool_decide (tx_kind tx = Some (tx_caller tx))) eqn:Hb, (Z.eqb_spec (tx_value w) 0) as [Hz|Hz];
    simpl in H2; (apply bool_decide_eq_true in Hb || apply bool_decide_eq_false in Hb).
  all: try (apply (price_ok (NewAccount _)) in H2 as [Hk2 Hp]; [|done]; split; [by apply Hfin|];
    exists [NewAccount (tx_caller tx)]; split; [left; split; [|done]; tauto|by apply answered_one]).
  injection H2 as <- <-. split; [by apply Hfin|]. exists []. split; [|apply answered_none]. right. tauto.
Qed.

Lemma validate_ok ctx' g :
  Forall (λ au, in_u64 (au_nonce au)) (tx_authorization_list w) → kept ctx0 →
  validate ctx0 = Some (ctx', Ok g) →
  ∃ g0 r1 r3 v1 v2 v3, validate_initial_tx_gas ctx0 = Ok g0 ∧
    callee_paid materialized0 r1 ∧ answered r1 v1 ∧ answered (NewAccount <$> materialized0) v2 ∧
    caller_paid r3 ∧ answered r3 v3 ∧
    initial_gas g = wrap64 (initial_gas (calldata_gas g0) + (v1 + (v2 + v3))) ∧
    floor_gas g = wrap64 (floor_gas (calldata_gas g0)) ∧
    initial_gas g ≤ tx_gas_limit w ∧ floor_gas g ≤ tx_gas_limit w.
Proof.
  intros Hn Hk H. unfold validate in H. apply sbind_ok_inv in H as (c1 & u & H1 & H).
  assert (Hc1 : c1 = ctx0).
  { unfold upstream in H1. destruct (validate_env ctx0) as [c r] eqn:Ev.
    apply validate_env_reads in Ev as ->. by injection H1 as <- _. }
  subst c1. apply sbind_ok_inv in H as (c2 & g0 & H2 & H). unfold upstream in H2.
  destruct (validate_initial_tx_gas ctx0) as [g0'|] eqn:Hg0; [|done]. injection H2 as <- ->.
  apply sbind_ok_inv in H as (c3 & mats & H3 & H).
  assert (Hm : kept c3 ∧ mats = materialized0).
  { unfold materialized0. destruct (scans_in_validate ctx0); [by apply accounting_ok|].
    by injection H3 as <- <-. }
  destruct Hm as [Hk3 ->]. pose proof Hk3 as (Hs3 & _).
  rewrite Hs3, (is_enabled_trans _ REX5) in H by done. simpl in H.
  apply sbind_ok_inv in H as (c4 & g1 & H4 & H). apply calldata_ok in H4 as (Hk4 & Hi & Hf); [|done].
  apply sbind_ok_inv in H as (c5 & v1 & H6 & H). apply callee_ok in H6 as (Hk5 & r1 & Hr1 & Hv1); [|done].
  apply sbind_ok_inv in H as (c6 & i2 & H7 & H).
  apply authorities_ok in H7 as (Hk6 & v2 & Hv2 & Hi2); [|done].
  apply sbind_ok_inv in H as (c7 & v3 & H8 & H). apply deposit_ok in H8 as (Hk7 & r3 & Hr3 & Hv3); [|done].
  pose proof Hk7 as (Hs7 & _ & Hw7 & _). unfold final_gas_check in H. rewrite Hs7, Hw7, H5 in H.
  fold w in H. simpl in H. destruct (Z.ltb_spec (tx_gas_limit w) (i2 +w v3)); [done|].
  destruct (Z.ltb_spec (tx_gas_limit w) (floor_gas g1)); [done|]. injection H as _ <-.
  exists g0, r1, r3, v1, v2, v3. split_and!; try done. cbn [initial_gas]. apply cong64_eq; [auto with u64..|].
  rewrite cong64_wadd, Hi2, cong64_wadd, Hi, cong64_wrap. apply cong64_refl_eq. lia.
Qed.

Lemma materialized_NoDup : NoDup materialized0.
Proof. unfold materialized0. destruct (scans_in_validate ctx0); [apply apply_creates_once|constructor]. Qed.

(** A set-code transaction is not a deposit. *)
Lemma scans_not_deposit a : a ∈ materialized0 → ¬ deposit_creates_caller.
Proof.
  unfold materialized0, scans_in_validate. intros Ha (_ & Hd & _). fold tx in Ha.
  destruct (is_enabled _ REX6 && _) eqn:Hs; [|by apply not_elem_of_nil in Ha].
  apply andb_true_iff in Hs as [_ Ht%Z.eqb_eq]. unfold is_deposit_like_transaction in Hd.
  rewrite Ht in Hd. destruct (Z.eqb_spec EIP7702_TX_TYPE DEPOSIT_TRANSACTION_TYPE) as [He|_].
  - by apply deposit_not_7702.
  - apply mega_system_transaction_iff in Hd as (Hd & _). by rewrite Ht in Hd.
Qed.

(** Every account is paid for once. *)
Lemma paid_once r1 r3 :
  callee_paid materialized0 r1 → caller_paid r3 →
  let reqs := r1 ++ (NewAccount <$> materialized0) ++ r3 in
  NoDup reqs ∧
  ∀ a, NewAccount a ∈ reqs ↔
    (tx_kind tx = Some a ∧ tx_value w ≠ 0 ∧ vacant a) ∨ a ∈ materialized0 ∨
    (a = tx_caller tx ∧ deposit_creates_caller).
Proof.
  intros H1 H3 reqs. assert (Hin : ∀ a, NewAccount a ∈ reqs ↔
    NewAccount a ∈ r1 ∨ a ∈ materialized0 ∨ NewAccount a ∈ r3).
  { intros a. unfold reqs. rewrite !elem_of_app, list_elem_of_fmap. naive_solver. }
  assert (Hr1 : ∀ a, NewAccount a ∈ r1 ↔
    tx_kind tx = Some a ∧ tx_value w ≠ 0 ∧ vacant a ∧ a ∉ materialized0).
  { intros a. unfold callee_paid in H1. destruct (tx_kind tx) as [b|].
    - destruct H1 as [[Hp ->]|[Hp ->]]; rewrite ?list_elem_of_singleton, ?elem_of_nil; naive_solver.
    - destruct H1 as (? & ? & ? & _ & ->). rewrite list_elem_of_singleton. naive_solver. }
  assert (Hr3 : ∀ a, NewAccount a ∈ r3 ↔ a = tx_caller tx ∧ deposit_creates_caller ∧
    ¬ (tx_kind tx = Some (tx_caller tx) ∧ tx_value w ≠ 0)).
  { intros a. destruct H3 as [[Hp ->]|[Hp ->]]; rewrite ?list_elem_of_singleton, ?elem_of_nil; naive_solver. }
  split.
  - apply NoDup_app. split_and!.
    + unfold callee_paid in H1. destruct (tx_kind tx).
      * destruct H1 as [[_ ->]|[_ ->]]; [apply NoDup_singleton|constructor].
      * destruct H1 as (? & ? & ? & _ & ->). apply NoDup_singleton.
    + intros q Hq [Ha|Ha]%elem_of_app.
      * apply list_elem_of_fmap in Ha as (a & -> & Ha). apply Hr1 in Hq. tauto.
      * destruct H3 as [[Hp ->]|[_ ->]]; [|by apply elem_of_nil in Ha].
        apply list_elem_of_singleton in Ha as ->. apply Hr1 in Hq. tauto.
    + apply NoDup_app. split_and!; [|intros q (a & -> & Ha)%list_elem_of_fmap Hq|].
      * apply NoDup_fmap_2; [|apply materialized_NoDup]. by intros ?? [=].
      * apply Hr3 in Hq as (_ & Hq & _). by eapply scans_not_deposit.
      * destruct H3 as [[_ ->]|[_ ->]]; [apply NoDup_singleton|constructor].
  - intros a. rewrite Hin, Hr1, Hr3. destruct (decide (a ∈ materialized0)); [naive_solver|].
    destruct (decide (a = tx_caller tx)) as [->|]; [|naive_solver].
    destruct (decide (tx_kind tx = Some (tx_caller tx))), (decide (tx_value w = 0));
      unfold deposit_creates_caller; naive_solver.
Qed.

(** A contract is paid for by a creation only, and a slot never. *)
Lemma paid_contracts r1 r3 :
  callee_paid materialized0 r1 → caller_paid r3 →
  let reqs := r1 ++ (NewAccount <$> materialized0) ++ r3 in
  (∀ a k, SstoreSet a k ∉ reqs) ∧
  ∀ a, CreateContract a ∈ reqs ↔
    tx_kind tx = None ∧ ∃ b n h,
      JournalFacts.view db (op_journal (inner ctx0)) (tx_caller tx) = Ok (b, n, h) ∧
      a = address_create (tx_caller tx) n.
Proof.
  intros H1 H3 reqs. assert (Hin : ∀ q, (∀ a, q ≠ NewAccount a) → q ∈ reqs ↔ q ∈ r1).
  { intros q Hq. unfold reqs. rewrite !elem_of_app, list_elem_of_fmap.
    destruct H3 as [[_ ->]|[_ ->]]; rewrite ?list_elem_of_singleton, ?elem_of_nil; naive_solver. }
  unfold callee_paid in H1. split.
  - intros a k. rewrite Hin by done. destruct (tx_kind tx).
    + destruct H1 as [[_ ->]|[_ ->]]; rewrite ?list_elem_of_singleton, ?elem_of_nil; naive_solver.
    + destruct H1 as (? & ? & ? & _ & ->). rewrite list_elem_of_singleton. naive_solver.
  - intros a. rewrite Hin by done. destruct (tx_kind tx).
    + destruct H1 as [[_ ->]|[_ ->]]; rewrite ?list_elem_of_singleton, ?elem_of_nil; naive_solver.
    + destruct H1 as (b & n & h & Hv & ->). rewrite list_elem_of_singleton, Hv. naive_solver.
Qed.
End charges.

(** C40: the scan that charges for EIP-7702 authorizations charges exactly those that will apply.
    For every list, every journal and every database the scan does not panic and changes nothing
    but loaded accounts, which keep their values.  When it succeeds, its result is the list the
    EIP's own sequential rule applies (chain id, nonce below the maximum, no foreign code, the
    nonce of the authority as raised by earlier authorizations of the same list and by the
    transaction's own nonce bump), each with whether it creates its account, and no account is
    created twice; it fails only when the account of some authority cannot be read. *)
Theorem authorization_scan_exact `{R : Revm} `{RS : RevmState} {RSL : RevmStateLaws RS} {E : Type}
    (db : Database E) {W S O : Type} `{HS : SaltEnv S} `{HO : OracleEnv O}
    `{HV : !OpValidation Journal W S O} (caller_nonce_already_bumped : bool)
    (ctx : MegaContext Journal W S O) :
  let w := op_world (inner ctx) in
  let j := op_journal (inner ctx) in
  let caller := tx_caller (op_tx (inner ctx)) in
  let authority a :=
    authority_of (W := W) (S := S) (O := O) caller_nonce_already_bumped caller a (seen db j a) in
  Forall (λ au, in_u64 (au_nonce au)) (tx_authorization_list w) →
  ∃ ctx' r,
    scan_applied_eip7702_authorizations (HJ := journal_inspect db) caller_nonce_already_bumped ctx =
      Some (ctx', r) ∧
    only_loads db ctx ctx' ∧
    match r with
    | Ok applied =>
        applied = apply_authorizations (cfg_chain_id w) authority (tx_authorization_list w) ∧
        NoDup (creations applied)
    | Err _ => ∃ au a e, au ∈ tx_authorization_list w ∧ au_authority au = Some a ∧ seen db j a = Err e
    end.
Proof.
  intros w j caller authority Hn.
  destruct (scan_spec db caller_nonce_already_bumped (cfg_chain_id w) caller j
    (tx_authorization_list w) Hn ∅ authority ctx) as (ctx' & r & E1 & Hl & Hr); try done.
  exists ctx', r. split; [exact E1|]. split; [done|]. destruct r as [applied|]; [|done].
  rewrite Hr. split; [done|]. apply apply_creates_once.
Qed.

(** C26: the accounts a transaction pays for before its first frame, each once, from Rex5 on.
    When validation succeeds, the intrinsic gas is the upstream one plus 40 per calldata
    token, the fixed 39000 and the storage price of a list of requests without duplicates.  The
    list asks for a new account exactly for the empty recipient of a value transfer, the
    accounts created by the authorizations that apply (a set-code transaction from Rex6 on) and
    the empty caller of a deposit (outside a sandbox); for a contract exactly when the
    transaction is a creation, at the address of the caller's state nonce; and for no slot.
    The intrinsic and the floor gas are within the gas limit, so execution starts with the
    rest.  Assumed: the transaction is not exempt (an exempt one pays unscaled prices), every
    bucket of the environment has at least the minimal capacity (what the code asserts), the
    cached multipliers are those of the environment, and the nonces of the authorizations are
    64-bit. *)
Theorem intrinsic_gas_charged `{R : Revm} `{RS : RevmState} {RSL : RevmStateLaws RS} {E : Type}
    (db : Database E) {W S O : Type} `{HS : SaltEnv S} `{HO : OracleEnv O}
    `{HV : !OpValidation Journal W S O} {VL : ValidationLaws}
    (ctx ctx' : MegaContext Journal W S O) (g : InitialAndFloorGas) :
  let w := op_world (inner ctx) in
  let tx := op_tx (inner ctx) in
  let dynamic_gas := dynamic_storage_gas_cost ctx in
  is_enabled (ctx_spec ctx) REX5 = true → dg_spec dynamic_gas = ctx_spec ctx →
  capacities_ok (dg_salt_env dynamic_gas) → cache_ok dynamic_gas →
  is_exempt (has_exceeded_limit (additional_limit ctx)) = false →
  Forall (λ au, in_u64 (au_nonce au)) (tx_authorization_list w) →
  validate (HJ := journal_inspect db) ctx = Some (ctx', Ok g) →
  ∃ g0 reqs, validate_initial_tx_gas ctx = Ok g0 ∧ NoDup reqs ∧
    Forall (λ q, is_ok_result (price (ctx_spec ctx) (dg_salt_env dynamic_gas) q) = true) reqs ∧
    initial_gas g = wrap64 (initial_gas g0 + 40 * tokens_in_calldata w + 39000 +
                            sumZ (price_of ctx) reqs) ∧
    floor_gas g = wrap64 (floor_gas g0 + 100 * tokens_in_calldata w) ∧
    initial_gas g ≤ tx_gas_limit w ∧ floor_gas g ≤ tx_gas_limit w ∧
    (∀ a, NewAccount a ∈ reqs ↔
       (tx_kind tx = Some a ∧ tx_value w ≠ 0 ∧ vacant db ctx a) ∨ a ∈ materialized0 db ctx ∨
       (a = tx_caller tx ∧ deposit_creates_caller db ctx)) ∧
    (tx_kind tx = None → ∃ b n h,
       JournalFacts.view db (op_journal (inner ctx)) (tx_caller tx) = Ok (b, n, h) ∧
       CreateContract (address_create (tx_caller tx) n) ∈ reqs) ∧
    (∀ a, CreateContract a ∈ reqs ↔ tx_kind tx = None ∧ ∃ b n h,
       JournalFacts.view db (op_journal (inner ctx)) (tx_caller tx) = Ok (b, n, h) ∧
       a = address_create (tx_caller tx) n) ∧
    (∀ a k, SstoreSet a k ∉ reqs).
Proof.
  intros w tx dg H5 Hdg Hcap Hcache Hex Hn H.
  assert (Hk : kept db ctx ctx) by (by split_and!).
  apply (validate_ok db) in H as (g0 & r1 & r3 & v1 & v2 & v3 & Hg0 & H1 & [A1 ->] & [A2 ->] & H3 &
    [A3 ->] & Hi & Hf & Hl1 & Hl2); [|done..].
  destruct (paid_once db ctx r1 r3 H1 H3) as [Hnd Hin].
  pose proof (paid_contracts db ctx r1 r3 H1 H3) as Hct.
  exists g0, (r1 ++ (NewAccount <$> materialized0 db ctx) ++ r3). split_and!; try done.
  - by repeat apply Forall_app_2.
  - by rewrite Hi, !sumZ_app.
  - intros Hnone. unfold callee_paid in H1. fold tx in H1. rewrite Hnone in H1.
    destruct H1 as (b & n & h & Hv & ->). exists b, n, h. split; [done|]. left.  - apply Hct.
  - apply Hct.
Qed.

(** * A reference upstream

    The fields of the transaction are the world; buckets have twice the minimum size. *)

Record TxWorld : Type := mkTxWorld {
  tw_value : U256;
  tw_gas_limit : Z;
  tw_authorizations : list Authorization;
  tw_tokens : Z;
}.

Inductive crowded_env : Type := mkCrowdedEnv.

#[export] Instance crowded_salt_env : SaltEnv crowded_env := {|
  SaltError := unit;
  get_bucket_capacity _ _ := Ok 512;
  bucket_id_for_account a := a;
  bucket_id_for_slot a k := a + k;
|}.

#[export] Instance reference_validation :
    OpValidation Journal TxWorld crowded_env EmptyExternalEnv := {|
  upstream_error := unit;
  tx_value := tw_value;
  tx_gas_limit := tw_gas_limit;
  tx_authorization_list := tw_authorizations;
  tokens_in_calldata := tw_tokens;
  cfg_chain_id _ := 6342;
  address_create a n := 1000 + 10 * a + n;
  code_is_empty c := match c with OtherBytecode [] => true | _ => false end;
  is_loaded_as_not_existing_not_touched acc :=
    LoadedAsNotExisting (acc_status acc) && negb (Touched (acc_status acc));
  L1_FEE_RECIPIENT := 101;
  BASE_FEE_RECIPIENT := 102;
  OPERATOR_FEE_RECIPIENT := 103;
  validate_env c := (c, Ok tt);
  validate_initial_tx_gas _ := Ok (mkInitialGas 21000 21000);
  validate_against_state_and_deduct_caller c := (c, Ok tt);
  load_accounts c := (c, Ok tt);
  apply_eip7702_auth_list c := (c, Ok 0);
  op_reward_beneficiary r c := (c, Ok r);
  first_frame_input _ c := (c, Err tt);
  run_exec_loop _ c := Some (c, Err tt);
  inspect_run_exec_loop _ c := Some (c, Err tt);
  settle_gas _ _ r c := (c, Ok r);
|}.

#[export] Instance reference_validation_laws : ValidationLaws.
Proof.
  split; [by intros ??? [= <- _]|done|]. intros i i' H. unfold info_view in H. injection H as H1 H2 H3.
  simpl. by rewrite H1, H2, H3.
Qed.

Definition plain_db : Database Empty_set :=
  mkDatabase {[ 7 := mkAccountInfo 500 3 77 None ]} (λ _, None) (λ _, Ok (OtherBytecode [])) (λ _ _, Ok 0).

(** Sender 7 (nonce 3) sends value to the unknown account 50; account 5 signs twice, once for
    another chain, and the sender signs for itself with the nonce after its own bump. *)
Definition auth_list : list Authorization :=
  [mkAuthorization 0 0 (Some 5); mkAuthorization 1 1 (Some 5); mkAuthorization 6342 1 (Some 5);
   mkAuthorization 0 4 (Some 7); mkAuthorization 0 9 None].

Definition type4_context : MegaContext Journal TxWorld crowded_env EmptyExternalEnv :=
  new_with_context (mkOp (mkTx 2 (Some []) [Some 5; Some 5; Some 5; Some 7; None] 7 (Some 50) 4 0 1 3 None)
    10 99 (mkJournal ∅ 0) None (mkTxWorld 1 200000 auth_list 2)) REX6 mkCrowdedEnv mkEmptyExternalEnv.

Lemma auth_list_u64 :
  Forall (λ au, in_u64 (au_nonce au)) (tx_authorization_list (op_world (inner type4_context))).
Proof. repeat constructor; vm_compute; congruence. Qed.

Lemma authorization_scan_exact_witness :
  ∃ ctx', scan_applied_eip7702_authorizations (HJ := journal_inspect plain_db) false type4_context =
    Some (ctx', Ok [mkApplied 5 true; mkApplied 5 false; mkApplied 7 false]).
Proof.
  destruct (authorization_scan_exact plain_db false type4_context auth_list_u64)
    as (ctx' & r & Hs & _ & Hr).
  destruct r as [applied|e]; [|destruct Hr as (_ & _ & [] & _)].
  destruct Hr as [-> _]. exists ctx'. rewrite Hs. reflexivity.
Defined.

Definition validated_gas (r : panics (MegaContext Journal TxWorld crowded_env EmptyExternalEnv *
    result InitialAndFloorGas (ValidationError Empty_set unit))) : Z :=
  match r with Some (_, Ok g) => initial_gas g | _ => 0 end.

Lemma intrinsic_gas_charged_witness :
  ∃ ctx' g reqs, validate (HJ := journal_inspect plain_db) type4_context = Some (ctx', Ok g) ∧
    initial_gas g = 110080 ∧ NoDup reqs ∧ NewAccount 5 ∈ reqs ∧ NewAccount 50 ∈ reqs.
Proof.
  assert (Hc : capacities_ok mkCrowdedEnv) by (intros b c [= <-]; u64_lia).
  assert (Hm : cache_ok (dynamic_storage_gas_cost type4_context)) by (intros b m Hb; discriminate Hb).
  assert (H1 : is_enabled (ctx_spec type4_context) REX5 = true) by reflexivity.
  assert (H2 : dg_spec (dynamic_storage_gas_cost type4_context) = ctx_spec type4_context) by reflexivity.
  assert (H3 : is_exempt (has_exceeded_limit (additional_limit type4_context)) = false) by reflexivity.
  assert (H4 : vacant plain_db type4_context 50) by (by exists (mkAccountInfo 0 0 77 None)).
  assert (H5 : 5 ∈ materialized0 plain_db type4_context) by (vm_compute; left).
  assert (Hg : validated_gas (validate (HJ := journal_inspect plain_db) type4_context) = 110080)
    by (by vm_compute).
  destruct (validate (HJ := journal_inspect plain_db) type4_context) as [[ctx' [g|]]|] eqn:E;
    [|discriminate Hg..].
  destruct (intrinsic_gas_charged plain_db type4_context ctx' g H1 H2 Hc Hm H3 auth_list_u64 E)
    as (g0 & reqs & _ & Hnd & _ & _ & _ & _ & _ & Hin & _).
  exists ctx', g, reqs. split; [reflexivity|]. split; [exact Hg|]. split; [exact Hnd|].
  split; apply Hin; [right; left; exact H5|left; split; [reflexivity|split; [discriminate|exact H4]]].
Defined.
