(* ===== verification/Instructions.v ===== *)
(** The instruction wrappers and tables of [evm/instructions.rs].

    The upstream instructions, the memory and the address derivations are the class
    [Interpreter]; [raw op] is the upstream implementation of opcode [op], which is what the
    macro invocations of the file pair with that opcode.  A handler acts on the interpreter and
    the host; an early [return] of a macro is a handler that does not call its continuation.
    [None] is a panic. *)

From S2P Require Import Prelude Spec Revm LimitCheck Interfaces.
From S2P Require Import AdditionalLimit Access DynamicGas SystemTx Context.

(** [InterpreterAction], with the input of a new frame. *)
Inductive PendingAction `{R : Revm} : Type :=
  | PendingReturn (result : InterpreterResult)
  | PendingFrame (input : FrameInput).

(** What the wrappers read and write of the interpreter; the top of the stack is the head. *)
Record Interp `{R : Revm} (M : Type) : Type := mkInterp {
  it_gas : Gas;
  it_stack : list U256;
  it_action : option PendingAction;
  it_target_address : Address;
  it_is_static : bool;
  it_memory : M;
}.
Arguments mkInterp {R M} _ _ _ _ _ _.
Arguments it_gas {R M} _.
Arguments it_stack {R M} _.
Arguments it_action {R M} _.
Arguments it_target_address {R M} _.
Arguments it_is_static {R M} _.
Arguments it_memory {R M} _.

(** The opcodes the tables name one by one. *)
Module opcode.
Definition KECCAK256 := 0x20.
Definition BALANCE := 0x31.
Definition EXTCODESIZE := 0x3B.
Definition EXTCODECOPY := 0x3C.
Definition EXTCODEHASH := 0x3F.
Definition BLOCKHASH := 0x40.
Definition COINBASE := 0x41.
Definition TIMESTAMP := 0x42.
Definition NUMBER := 0x43.
Definition DIFFICULTY := 0x44.
Definition GASLIMIT := 0x45.
Definition SELFBALANCE := 0x47.
Definition BASEFEE := 0x48.
Definition BLOBHASH := 0x49.
Definition BLOBBASEFEE := 0x4A.
Definition SLOAD := 0x54.
Definition SSTORE := 0x55.
Definition LOG0 := 0xA0.
Definition CREATE := 0xF0.
Definition CALL := 0xF1.
Definition CALLCODE := 0xF2.
Definition RETURN := 0xF3.
Definition DELEGATECALL := 0xF4.
Definition CREATE2 := 0xF5.
Definition STATICCALL := 0xFA.
Definition REVERT := 0xFD.
Definition INVALID := 0xFE.
Definition SELFDESTRUCT := 0xFF.
End opcode.

Section instructions.
Context `{R : Revm} `{RS : RevmState} {J : Type} `{HJ : !JournalInspectTr J} {W : Type}.
Context `{HH : !OpHost J W} {S : Type} `{HS : SaltEnv S} {O : Type} `{HO : OracleEnv O}.
Context {M : Type}.

Local Notation ctx_t := (MegaContext J W S O).
Local Notation machine := (Interp M * ctx_t)%type.
Local Notation handler := (machine → panics machine).
Implicit Types (ctx : ctx_t) (it : Interp M) (s : machine) (k : handler).

Class Interpreter := {
  is_error : InstructionResult → bool;
  StackUnderflow : InstructionResult;
  FatalExternalError : InstructionResult;
  InvalidOperandOOG : InstructionResult;
  CreateInitCodeSizeLimit : InstructionResult;
  StateChangeDuringStaticCall : InstructionResult;
  (** The gas constants of [constants::equivalence], inherited from revm. *)
  CALL_STIPEND : Z;
  LOGDATA : Z;
  LOGTOPIC : Z;
  (** The upstream instruction of an opcode, [control::unknown] and [control::invalid]. *)
  raw : Z → machine → machine;
  raw_unknown : machine → machine;
  raw_invalid : machine → machine;
  into_address : U256 → Address;
  (** [as_usize_or_fail!]: [None] is the operand that does not fit. *)
  as_usize : U256 → option Z;
  (** [resize_memory!]: charges the expansion; [false] when it has halted the interpreter. *)
  resize_memory : Z → Z → Interp M → Interp M * bool;
  slice_len : Z → Z → Interp M → Bytes;
  keccak256 : Bytes → Z;
  create_address : Address → Z → Address;
  create2_address : Address → U256 → Z → Address;
  max_initcode_size : ctx_t → Z;
  (** [VolatileDataAccessDisabled { accessType }.abi_encode()]. *)
  volatile_data_access_disabled_revert_data : VolatileDataAccessType → Bytes;
}.
Context `{HI : Interpreter}.

(** * The interpreter *)

Definition with_gas it (g : Gas) : Interp M :=
  mkInterp g (it_stack it) (it_action it) (it_target_address it) (it_is_static it) (it_memory it).
Definition set_action it (a : PendingAction) : Interp M :=
  mkInterp (it_gas it) (it_stack it) (Some a) (it_target_address it) (it_is_static it)
    (it_memory it).

Definition halt (r : InstructionResult) it : Interp M :=
  set_action it (PendingReturn (mkInterpreterResult r [] (it_gas it))).

Definition instruction_result it : option InstructionResult :=
  match it_action it with Some (PendingReturn r) => Some (ir_result r) | _ => None end.

(** [stack.inspect::<N>()]. *)
Definition inspect (n : nat) it : option U256 := it_stack it !! n.

Definition aborted it : bool :=
  match instruction_result it with Some r => is_error r | None => false end.

(** * The macros *)

Definition run_inner_instruction_or_abort (f k : handler) : handler := λ s,
  s ← f s; if aborted (fst s) then Some s else k s.

(** [gas!]. *)
Definition charge_gas (amount : Z) k : handler := λ '(it, ctx),
  let '(g, ok) := gas_record_cost (it_gas it) amount in
  let it := with_gas it g in
  if ok : bool then k (it, ctx) else Some (halt OutOfGas it, ctx).

(** [let Some(x) = stack.inspect::<N>() else { halt; return }]. *)
Definition inspect_or_halt (n : nat) (k : U256 → handler) : handler := λ '(it, ctx),
  match inspect n it with
  | Some v => k v (it, ctx)
  | None => Some (halt StackUnderflow it, ctx)
  end.

Definition as_usize_or_halt (v : U256) (k : Z → handler) : handler := λ '(it, ctx),
  match as_usize v with
  | Some n => k n (it, ctx)
  | None => Some (halt InvalidOperandOOG it, ctx)
  end.

Definition compute_gas (gas_used : Z) k : handler := λ '(it, ctx),
  '(a, ok) ← record_compute_gas gas_used (additional_limit ctx);
  let ctx := with_additional_limit ctx a in
  if ok : bool then k (it, ctx) else Some (halt (exceeding_instruction_result a) it, ctx).

(** The gas the parent gave to a pending child frame. *)
Definition parent_contributed (c : CallInputs) ctx : Z :=
  let stipend_from_revm :=
    if is_enabled (ctx_spec ctx) REX5 &&
       match ci_scheme c with SchemeCall | SchemeCallCode => true | _ => false end &&
       ci_transfers_value c
    then CALL_STIPEND else 0 in
  sat_sub (ci_gas_limit c) stipend_from_revm.

Definition forwarded_child_gas it ctx : Z :=
  match it_action it with
  | Some (PendingFrame (FrameInputCall call_inputs)) => parent_contributed call_inputs ctx
  | Some (PendingFrame (FrameInputCreate create_inputs)) => cr_gas_limit create_inputs
  | _ => 0
  end.

Definition record_storage_compute_gas (gas_before storage_charged : Z) k : handler :=
  λ '(it, ctx),
  let gas_used := sat_sub (sat_sub gas_before (gas_remaining (it_gas it))) storage_charged in
  let forwarded := forwarded_child_gas it ctx in
  let gas_used := sat_sub gas_used forwarded in
  '(a, ok) ← record_compute_gas gas_used (additional_limit ctx);
  let ctx := with_additional_limit ctx a in
  if ok : bool then k (it, ctx)
  else
    let it :=
      if is_enabled (ctx_spec ctx) REX6 then with_gas it (gas_erase_cost (it_gas it) forwarded)
      else it in
    Some (halt (exceeding_instruction_result a) it, ctx).

(** * [compute_gas_ext] *)

Definition raw_op (op : Z) : handler := λ s, Some (raw op s).

(** [wrap_op_compute_gas!]. *)
Definition wrap_op_compute_gas (op : Z) : handler := λ s,
  let gas_before := gas_remaining (it_gas (fst s)) in
  run_inner_instruction_or_abort (raw_op op)
    (λ s, compute_gas (sat_sub gas_before (gas_remaining (it_gas (fst s)))) Some s) s.

(** [wrap_op_compute_gas!(@frame ...)]. *)
Definition wrap_op_compute_gas_frame (op : Z) : handler := λ s,
  let gas_before := gas_remaining (it_gas (fst s)) in
  run_inner_instruction_or_abort (raw_op op)
    (λ '(it, ctx),
      let gas_used := sat_sub gas_before (gas_remaining (it_gas it)) in
      compute_gas (sat_sub gas_used (forwarded_child_gas it ctx)) Some (it, ctx)) s.

Definition compute_selfdestruct : handler := λ s,
  let gas_before := gas_remaining (it_gas (fst s)) in
  run_inner_instruction_or_abort (raw_op opcode.SELFDESTRUCT)
    (λ '(it, ctx),
      let gas_used := sat_sub gas_before (gas_remaining (it_gas it)) in
      '(a, ok) ← record_compute_gas_all_dims gas_used (additional_limit ctx);
      let ctx := with_additional_limit ctx a in
      Some (if ok : bool then it else halt (exceeding_instruction_result a) it, ctx)) s.
(** * [storage_gas_ext] *)

Definition storage_addr_from_to (mega_spec : MegaSpecId) (current to : Address) : Address := to.

Definition storage_addr_for_callcode (mega_spec : MegaSpecId) (current to : Address) : Address :=
  if is_enabled mega_spec REX5 then current else to.

(** A price of the host, less what the stipend pays, is charged as gas; [k] gets what was
    charged. *)
Definition charge_storage_gas (price : ctx_t → panics (ctx_t * option Z)) (k : Z → handler)
    : handler := λ '(it, ctx),
  '(ctx, cost) ← price ctx;
  match cost with
  | None => Some (halt FatalExternalError it, ctx)
  | Some cost =>
      let '(a, drained) := try_consume_storage_stipend cost (additional_limit ctx) in
      let charged := cost -w drained in
      charge_gas charged (k charged) (it, with_additional_limit ctx a)
  end.

(** The account whose state is read: its own from Rex5 on, the delegate's before. *)
Definition inspect_own_account (address : Address) ctx : panics (ctx_t * result Account unit) :=
  if is_enabled (ctx_spec ctx) REX5 then Some (Interfaces.inspect_account address false ctx)
  else Interfaces.inspect_account_delegated (ctx_spec ctx) address ctx.

(** [wrap_call_with_storage_gas!]. *)
Definition wrap_call_with_storage_gas (op : Z) (has_transfer_logic : bool)
    (select_addr : MegaSpecId → Address → Address → Address) : handler := λ s,
  let gas_before := gas_remaining (it_gas (fst s)) in
  inspect_or_halt 1 (λ to '(it, ctx),
    let to := into_address to in
    let storage_address := select_addr (ctx_spec ctx) (it_target_address it) to in
    '(ctx, r) ← inspect_own_account storage_address ctx;
    match r with
    | Err _ => Some (halt FatalExternalError it, ctx)
    | Ok storage_account =>
        let is_empty := state_clear_aware_is_empty storage_account in
        let body (has_transfer : bool) : handler :=
          let run (storage_charged : Z) : handler :=
            run_inner_instruction_or_abort (raw_op op)
              (record_storage_compute_gas gas_before storage_charged Some) in
          if is_empty && has_transfer
          then charge_storage_gas (new_account_storage_gas storage_address) run
          else run 0 in
        if has_transfer_logic
        then inspect_or_halt 2 (λ value, body (negb (value =? 0))) (it, ctx)
        else body false (it, ctx)
    end) s.

(** The initcode hash of a CREATE2 and the gas of the memory expansion left to record. *)
Definition initcode_hash (record_resize_eagerly : bool) (initcode_offset initcode_len : U256)
    (k : Z → Z → handler) : handler := λ s,
  let spec := ctx_spec (snd s) in
  if is_enabled spec REX5 && (initcode_len =? 0) then k KECCAK_EMPTY 0 s
  else
    as_usize_or_halt initcode_len (λ initcode_len '(it, ctx),
      if is_enabled spec REX6 && (max_initcode_size ctx <? initcode_len)
      then Some (halt CreateInitCodeSizeLimit it, ctx)
      else
        as_usize_or_halt initcode_offset (λ initcode_offset '(it, ctx),
          let gas_before_resize := gas_remaining (it_gas it) in
          let '(it, ok) := resize_memory initcode_offset initcode_len it in
          if negb ok then Some (it, ctx)
          else
            let resize_gas := sat_sub gas_before_resize (gas_remaining (it_gas it)) in
            let hash resize_gas : handler := λ '(it, ctx),
              k (keccak256 (slice_len initcode_offset initcode_len it)) resize_gas (it, ctx) in
            if record_resize_eagerly && (0 <? resize_gas)
            then compute_gas resize_gas (hash 0) (it, ctx)
            else hash resize_gas (it, ctx)) (it, ctx)) s.

(** [k] is what follows in the caller; it does not run when the interpreter was halted. *)
Definition compute_created_address (is_create2 record_resize_eagerly : bool)
    (k : Address → Z → handler) : handler := λ '(it, ctx),
  let spec := ctx_spec ctx in
  let creator_address := it_target_address it in
  '(ctx, r) ← inspect_own_account creator_address ctx;
  match r with
  | Err _ => Some (halt FatalExternalError it, ctx)
  | Ok creator =>
      if is_create2 then
        inspect_or_halt 1 (λ initcode_offset,
        inspect_or_halt 2 (λ initcode_len,
          let hashed (salt : option U256) : handler :=
            initcode_hash record_resize_eagerly initcode_offset initcode_len
              (λ hash resize_gas,
                match salt with
                | Some salt => k (create2_address creator_address salt hash) resize_gas
                | None =>
                    inspect_or_halt 3 (λ salt,
                      k (create2_address creator_address salt hash) resize_gas)
                end) in
          if is_enabled spec REX5 then inspect_or_halt 3 (λ salt, hashed (Some salt))
          else hashed None)) (it, ctx)
      else k (create_address creator_address (nonce (acc_info creator))) 0 (it, ctx)
  end.

Definition create_opcode (is_create2 : bool) : Z :=
  if is_create2 then opcode.CREATE2 else opcode.CREATE.

Definition create_rex6 (is_create2 : bool) : handler := λ s,
  if it_is_static (fst s) then Some (halt StateChangeDuringStaticCall (fst s), snd s)
  else
    let gas_before := gas_remaining (it_gas (fst s)) in
    compute_created_address is_create2 false (λ created_address _,
      charge_storage_gas (create_contract_storage_gas created_address) (λ storage_charged,
        run_inner_instruction_or_abort (raw_op (create_opcode is_create2))
          (record_storage_compute_gas gas_before storage_charged Some))) s.

Definition create (is_create2 : bool) : handler := λ s,
  let spec := ctx_spec (snd s) in
  if is_enabled spec REX6 then create_rex6 is_create2 s
  else
    compute_created_address is_create2 (is_enabled spec REX5) (λ created_address resize_gas,
      charge_storage_gas
        (if is_enabled spec REX then create_contract_storage_gas created_address
         else new_account_storage_gas created_address)
        (λ _ s,
          let gas_before := gas_remaining (it_gas (fst s)) in
          run_inner_instruction_or_abort (raw_op (create_opcode is_create2))
            (record_storage_compute_gas gas_before 0 (λ s,
              if 0 <? resize_gas then compute_gas resize_gas Some s else Some s)) s)) s.

Definition LOG_DATA_STORAGE_GAS : Z := LOGDATA * 10.
Definition LOG_TOPIC_STORAGE_GAS : Z := LOGTOPIC * 10.

Definition storage_log (n : nat) : handler := λ s,
  let gas_before := gas_remaining (it_gas (fst s)) in
  inspect_or_halt 1 (λ len, as_usize_or_halt len (λ len '(it, ctx),
    let topic_cost := checked_mul LOG_TOPIC_STORAGE_GAS (Z.of_nat n) in
    let data_cost := checked_mul LOG_DATA_STORAGE_GAS len in
    match topic_cost ≫= (λ topic, data_cost ≫= (λ cost, checked_add cost topic)) with
    | None => Some (halt OutOfGas it, ctx) (* gas_or_fail! *)
    | Some amount =>
        let '(a, drained) := try_consume_storage_stipend amount (additional_limit ctx) in
        let storage_charged := amount -w drained in
        charge_gas storage_charged
          (run_inner_instruction_or_abort (raw_op (opcode.LOG0 + Z.of_nat n))
             (record_storage_compute_gas gas_before storage_charged Some))
          (it, with_additional_limit ctx a)
    end)) s.

(** The slot an SSTORE is about to write and the new value. *)
Definition inspect_sstore (k : SStoreResult → U256 → handler) : handler := λ '(it, ctx),
  inspect_or_halt 0 (λ index '(it, ctx),
    '(ctx, r) ← Interfaces.inspect_storage (ctx_spec ctx) (it_target_address it) index ctx;
    match r with
    | Err _ => Some (halt FatalExternalError it, ctx)
    | Ok slot =>
        inspect_or_halt 1 (λ new_value,
          k (mkSStoreResult (slot_original slot) (slot_present slot) new_value) index) (it, ctx)
    end) (it, ctx).

Definition storage_sstore : handler := λ s,
  let gas_before := gas_remaining (it_gas (fst s)) in
  inspect_sstore (λ loaded index '(it, ctx),
    let run (storage_charged : Z) : handler :=
      run_inner_instruction_or_abort (raw_op opcode.SSTORE)
        (record_storage_compute_gas gas_before storage_charged Some) in
    if (original_value loaded =? 0) && (present_value loaded =? 0) && negb (new_value loaded =? 0)
    then charge_storage_gas (sstore_set_storage_gas (it_target_address it) index) run (it, ctx)
    else run 0 (it, ctx)) s.

Definition storage_selfdestruct : handler := λ s,
  if it_is_static (fst s) then run_inner_instruction_or_abort compute_selfdestruct Some s
  else
    inspect_or_halt 0 (λ target '(it, ctx),
      let target := into_address target in
      let '(ctx, r) := Interfaces.inspect_account target false ctx in
      match r with
      | Err _ => Some (halt FatalExternalError it, ctx)
      | Ok target_account =>
          let is_empty := state_clear_aware_is_empty target_account in
          let caller := it_target_address it in
          let '(ctx, r) := Interfaces.inspect_account caller false ctx in
          match r with
          | Err _ => Some (halt FatalExternalError it, ctx)
          | Ok caller_account =>
              let has_value := negb (balance (acc_info caller_account) =? 0) in
              let run : handler := run_inner_instruction_or_abort compute_selfdestruct Some in
              if is_empty && has_value then
                charge_storage_gas (new_account_storage_gas target) (λ _ '(it, ctx),
                  run (it, with_additional_limit ctx
                             (on_selfdestruct_new_account (additional_limit ctx)))) (it, ctx)
              else if is_enabled (ctx_spec ctx) REX6 && has_value && negb (caller =? target) then
                run (it, with_additional_limit ctx
                           (on_selfdestruct_existing_account (additional_limit ctx)))
              else run (it, ctx)
          end
      end) s.

(** * [additional_limit_ext] *)

(** The shape of the two checks that end the wrappers. *)
Definition limit_or_halt (hook : AdditionalLimit → panics (AdditionalLimit * bool)) : handler :=
  λ '(it, ctx),
  '(a, ok) ← hook (additional_limit ctx);
  Some (if ok : bool then it else halt (exceeding_instruction_result a) it,
        with_additional_limit ctx a).

Definition limit_sstore : handler :=
  inspect_sstore (λ loaded _,
    run_inner_instruction_or_abort storage_sstore (limit_or_halt (on_sstore loaded))).

Definition limit_log (n : nat) : handler :=
  inspect_or_halt 1 (λ len, as_usize_or_halt len (λ len,
    run_inner_instruction_or_abort (storage_log n)
      (limit_or_halt (on_log (Z.of_nat n) len)))).

(** * [forward_gas_ext] *)

Definition wsub128 (a b : Z) : Z := (a - b) mod 2 ^ 128.
Definition wadd128 (a b : Z) : Z := (a + b) mod 2 ^ 128.

(** The two computations of [wrap_gas_cap!]: the gas returned to the parent and the child's
    new gas limit. *)
Definition cap_forwarded_gas (parent_remaining child_gas transfer_gas_stipend : Z) : Z * Z :=
  let forwarded_gas := wsub128 child_gas transfer_gas_stipend in
  let parent_original_gas_left := wadd128 parent_remaining forwarded_gas in
  let forwarded_gas_cap :=
    wsub128 parent_original_gas_left ((parent_original_gas_left * 2) mod 2 ^ 128 / 100) in
  let capped_forwarded_gas := Z.min forwarded_gas forwarded_gas_cap in
  let gas_to_return := wsub128 forwarded_gas capped_forwarded_gas in
  let new_child_gas := wadd128 capped_forwarded_gas transfer_gas_stipend in
  (wrap64 gas_to_return, wrap64 new_child_gas).

Definition with_call_gas_limit (c : CallInputs) (g : Z) : CallInputs :=
  mkCallInputs g (ci_target_address c) (ci_caller c) (ci_scheme c) (ci_transfers_value c)
    (ci_return_memory_offset c) (ci_transfer_value c) (ci_input c) (ci_value c).
Definition with_create_gas_limit (c : CreateInputs) (g : Z) : CreateInputs :=
  mkCreateInputs g (cr_caller c) (cr_created_address c).

Definition cap_child (has_transfer : bool) it : Interp M :=
  let remaining := gas_remaining (it_gas it) in
  match it_action it with
  | Some (PendingFrame (FrameInputCall c)) =>
      let stipend := if has_transfer then CALL_STIPEND else 0 in
      let '(gas_to_return, child) := cap_forwarded_gas remaining (ci_gas_limit c) stipend in
      set_action (with_gas it (gas_erase_cost (it_gas it) gas_to_return))
        (PendingFrame (FrameInputCall (with_call_gas_limit c child)))
  | Some (PendingFrame (FrameInputCreate c)) =>
      let '(gas_to_return, child) := cap_forwarded_gas remaining (cr_gas_limit c) 0 in
      set_action (with_gas it (gas_erase_cost (it_gas it) gas_to_return))
        (PendingFrame (FrameInputCreate (with_create_gas_limit c child)))
  | _ => it
  end.

Definition check_call_has_transfer it : bool :=
  match inspect 2 it with Some value => negb (value =? 0) | None => false end.
Definition no_transfer it : bool := false.

Definition wrap_gas_cap (wrapped : handler) (has_transfer_logic : Interp M → bool) : handler :=
  λ s,
  let has_transfer := has_transfer_logic (fst s) in
  run_inner_instruction_or_abort wrapped
    (λ '(it, ctx), Some (cap_child has_transfer it, ctx)) s.

Definition forward_call : handler :=
  wrap_gas_cap (wrap_call_with_storage_gas opcode.CALL true storage_addr_from_to)
    check_call_has_transfer.
Definition forward_call_code : handler :=
  wrap_gas_cap (wrap_call_with_storage_gas opcode.CALLCODE true storage_addr_for_callcode)
    check_call_has_transfer.
Definition forward_delegate_call : handler :=
  wrap_gas_cap (wrap_call_with_storage_gas opcode.DELEGATECALL false storage_addr_from_to)
    no_transfer.
Definition forward_static_call : handler :=
  wrap_gas_cap (wrap_call_with_storage_gas opcode.STATICCALL false storage_addr_from_to)
    no_transfer.
Definition forward_create (is_create2 : bool) : handler :=
  wrap_gas_cap (create is_create2) no_transfer.

(** * [volatile_data_ext] *)

Definition apply_compute_gas_limit : handler := λ '(it, ctx),
  match get_compute_gas_limit (volatile_data_tracker ctx) with
  | Some limit =>
      Some (it, with_additional_limit ctx (set_compute_gas_limit limit (additional_limit ctx)))
  | None => Some (it, ctx)
  end.

(** [set_action(new_return(Revert, ...))]. *)
Definition revert_disabled (ty : VolatileDataAccessType) it : Interp M :=
  set_action it (PendingReturn (mkInterpreterResult Revert
    (volatile_data_access_disabled_revert_data ty) (it_gas it))).

Definition wrap_op_detain_gas_unconditional (op : Z) (ty : VolatileDataAccessType) : handler :=
  λ '(it, ctx),
  if volatile_access_disabled ctx then Some (revert_disabled ty it, ctx)
  else run_inner_instruction_or_abort (wrap_op_compute_gas op) apply_compute_gas_limit (it, ctx).

Definition wrap_op_detain_gas_conditional (original : handler) : handler := λ '(it, ctx),
  let disabled :=
    match inspect 0 it with
    | Some addr_word =>
        (into_address addr_word =? op_beneficiary (inner ctx)) && volatile_access_disabled ctx
    | None => false
    end in
  if disabled then Some (revert_disabled Beneficiary it, ctx)
  else run_inner_instruction_or_abort original apply_compute_gas_limit (it, ctx).

Definition selfdestruct_with_beneficiary_guard : handler := λ '(it, ctx),
  let beneficiary := op_beneficiary (inner ctx) in
  let disabled :=
    volatile_access_disabled ctx &&
    match inspect 0 it with
    | Some addr_word =>
        (is_enabled (ctx_spec ctx) REX6 && (it_target_address it =? beneficiary)) ||
        (into_address addr_word =? beneficiary)
    | None => false
    end in
  if disabled then Some (revert_disabled Beneficiary it, ctx)
  else run_inner_instruction_or_abort storage_selfdestruct apply_compute_gas_limit (it, ctx).

Definition volatile_selfbalance : handler := λ '(it, ctx),
  if (it_target_address it =? op_beneficiary (inner ctx)) && volatile_access_disabled ctx
  then Some (revert_disabled Beneficiary it, ctx)
  else run_inner_instruction_or_abort (wrap_op_compute_gas opcode.SELFBALANCE)
         apply_compute_gas_limit (it, ctx).

Definition volatile_sload : handler := λ '(it, ctx),
  if (it_target_address it =? ORACLE_CONTRACT_ADDRESS) && volatile_access_disabled ctx
  then Some (revert_disabled Oracle it, ctx)
  else run_inner_instruction_or_abort (wrap_op_compute_gas opcode.SLOAD)
         apply_compute_gas_limit (it, ctx).

(** [wrap_call_volatile_check!]: the inner handler is not followed by an abort check. *)
Definition wrap_call_volatile_check (inner_fn : handler) : handler := λ '(it, ctx),
  let '(ctx, disabled) :=
    if volatile_access_disabled ctx then
      match inspect 1 it with
      | Some addr_word =>
          let target := into_address addr_word in
          let beneficiary := op_beneficiary (inner ctx) in
          if target =? beneficiary then (ctx, true)
          else if is_enabled (ctx_spec ctx) REX6 then
            let '(ctx, resolved) := best_effort_resolve_eip7702_delegate_address target ctx in
            (ctx, resolved =? beneficiary)
          else (ctx, false)
      | None => (ctx, false)
      end
    else (ctx, false) in
  if disabled : bool then Some (revert_disabled Beneficiary it, ctx)
  else s ← inner_fn (it, ctx); apply_compute_gas_limit s.

(** * The tables *)

(** The opcodes that [mini_rex] maps to a plain [compute_gas_ext] wrapper. *)
Definition is_plain (op : Z) : bool :=
  let within a b := (a <=? op) && (op <=? b) in
  within 0x00 0x0B || within 0x10 0x1E || (op =? opcode.KECCAK256) || (op =? 0x30) ||
  within 0x32 0x3A || within 0x3D 0x3E || within 0x46 opcode.SELFBALANCE ||
  within 0x50 opcode.SLOAD || within 0x56 0x9F ||
  (op =? opcode.RETURN) || (op =? opcode.REVERT) || (op =? opcode.INVALID).

(** The opcodes that always read the block environment. *)
Definition block_env_opcode (op : Z) : option VolatileDataAccessType :=
  if op =? opcode.BLOCKHASH then Some BlockHash
  else if op =? opcode.COINBASE then Some Coinbase
  else if op =? opcode.TIMESTAMP then Some Timestamp
  else if op =? opcode.NUMBER then Some BlockNumber
  else if op =? opcode.DIFFICULTY then Some Difficulty
  else if op =? opcode.GASLIMIT then Some GasLimit
  else if op =? opcode.BASEFEE then Some BaseFee
  else if op =? opcode.BLOBHASH then Some BlobHash
  else if op =? opcode.BLOBBASEFEE then Some BlobBaseFee
  else None.

Definition mini_rex_table (op : Z) : handler :=
  match block_env_opcode op with
  | Some ty => wrap_op_detain_gas_unconditional op ty
  | None =>
      if (op =? opcode.BALANCE) || (op =? opcode.EXTCODESIZE) || (op =? opcode.EXTCODECOPY) ||
         (op =? opcode.EXTCODEHASH)
      then wrap_op_detain_gas_conditional (wrap_op_compute_gas op)
      else if op =? opcode.SSTORE then limit_sstore
      else if (opcode.LOG0 <=? op) && (op <=? opcode.LOG0 + 4)
      then limit_log (Z.to_nat (op - opcode.LOG0))
      else if op =? opcode.CREATE then forward_create false
      else if op =? opcode.CREATE2 then forward_create true
      else if op =? opcode.CALL then forward_call
      else if (op =? opcode.CALLCODE) || (op =? opcode.DELEGATECALL) || (op =? opcode.STATICCALL)
      then wrap_op_compute_gas_frame op
      else if op =? opcode.SELFDESTRUCT then λ s, Some (raw_invalid s)
      else if is_plain op then wrap_op_compute_gas op
      else λ s, Some (raw_unknown s)
  end.

Definition rex_table (op : Z) : handler :=
  if op =? opcode.CALLCODE then forward_call_code
  else if op =? opcode.DELEGATECALL then forward_delegate_call
  else if op =? opcode.STATICCALL then forward_static_call
  else mini_rex_table op.

Definition rex2_table (op : Z) : handler :=
  if op =? opcode.SELFDESTRUCT then compute_selfdestruct else rex_table op.

Definition rex3_table (op : Z) : handler :=
  if op =? opcode.SLOAD then volatile_sload else rex2_table op.

Definition rex4_table (op : Z) : handler :=
  if op =? opcode.CALL then wrap_call_volatile_check forward_call
  else if op =? opcode.STATICCALL then wrap_call_volatile_check forward_static_call
  else if op =? opcode.DELEGATECALL then wrap_call_volatile_check forward_delegate_call
  else if op =? opcode.CALLCODE then wrap_call_volatile_check forward_call_code
  else if op =? opcode.SELFDESTRUCT then wrap_op_detain_gas_conditional compute_selfdestruct
  else if op =? opcode.SELFBALANCE then volatile_selfbalance
  else rex3_table op.

Definition rex5_table (op : Z) : handler :=
  if op =? opcode.SELFDESTRUCT then selfdestruct_with_beneficiary_guard else rex4_table op.

Definition rex6_table (op : Z) : handler := rex5_table op.

(** [MegaInstructions::new]: the upstream table before MiniRex. *)
Definition instruction_table (spec : MegaSpecId) (op : Z) : handler :=
  match spec with
  | EQUIVALENCE => raw_op op
  | MINI_REX => mini_rex_table op
  | REX | REX1 => rex_table op
  | REX2 => rex2_table op
  | REX3 => rex3_table op
  | REX4 => rex4_table op
  | REX5 => rex5_table op
  | REX6 => rex6_table op
  end.
End instructions.

Arguments Interpreter {R} J W S O M.

(** The combinators are unfolded one at a time in proofs. *)
Arguments run_inner_instruction_or_abort : simpl never.
Arguments charge_gas : simpl never.
Arguments inspect_or_halt : simpl never.
Arguments as_usize_or_halt : simpl never.
Arguments compute_gas : simpl never.
Arguments record_storage_compute_gas : simpl never.
Arguments charge_storage_gas : simpl never.
Arguments inspect_own_account : simpl never.
Arguments initcode_hash : simpl never.
Arguments inspect_sstore : simpl never.
Arguments limit_or_halt : simpl never.
Arguments apply_compute_gas_limit : simpl never.
