(* ===== verification/InstructionsFacts.v ===== *)
(** Properties of the instruction wrappers: they move the limits only by hooks that leave the
    frame stacks alone, the 98/100 rule for forwarded gas, and what disabling volatile access
    guarantees. *)

From S2P Require Import Prelude Spec Revm LimitCheck FrameLimit FrameLimitFacts Interfaces.
From S2P Require Import ComputeGas DataSize KVUpdate StateGrowth StorageCallStipend.
From S2P Require Import AdditionalLimit AdditionalLimitFacts Alignment Access DynamicGas.
From S2P Require Import SystemTx Context Intercept Execution ExecutionFacts Instructions.
From S2P Require Import LimitCheck Interfaces.

(** * Invariants of handlers

    A relation [P] between the context before and after a handler holds for every wrapper
    around an upstream instruction for which it holds, if it allows what the wrappers do
    themselves.  [guard] is what [P] may assume of every context, and keeps.  [Q] is what the
    instruction may assume of the state it starts from; the work the wrappers do before it must
    preserve [Q]. *)

Section invariants.
Context `{R : Revm} `{RS : RevmState} {J : Type} `{HJ : !JournalInspectTr J} {W : Type}.
Context `{HH : !OpHost J W} {S : Type} `{HS : SaltEnv S} {O : Type} `{HO : OracleEnv O}.
Context {M : Type} `{HI : !Interpreter J W S O M}.

Local Notation ctx_t := (MegaContext J W S O).
Local Notation machine := (Interp M * ctx_t)%type.
Local Notation handler := (machine → panics machine).
Implicit Types (ctx : ctx_t) (it : Interp M) (s : machine) (k h : handler).

Class Harmless (P : relation ctx_t) (guard : ctx_t → Prop) := {
  harmless_preorder :: PreOrder P;
  harmless_guard ctx ctx' : P ctx ctx' → guard ctx → guard ctx';
  harmless_limit ctx a :
    neutral_step (additional_limit ctx) a → P ctx (with_additional_limit ctx a);
  (** The detention cap of the tracker is applied. *)
  harmless_apply ctx l :
    guard ctx → get_compute_gas_limit (volatile_data_tracker ctx) = Some l →
    P ctx (with_additional_limit ctx (set_compute_gas_limit l (additional_limit ctx)));
  (** The journal moves by inspections. *)
  harmless_account ctx a b :
    P ctx (with_journal ctx (fst (Interfaces.inspect_account a b (op_journal (inner ctx)))));
  harmless_delegated ctx a j r :
    Interfaces.inspect_account_delegated (ctx_spec ctx) a (op_journal (inner ctx)) = Some (j, r) →
    P ctx (with_journal ctx j);
  harmless_storage ctx a key j r :
    Interfaces.inspect_storage (ctx_spec ctx) a key (op_journal (inner ctx)) = Some (j, r) →
    P ctx (with_journal ctx j);
  harmless_error ctx e : P ctx (with_inner ctx (op_with_error (inner ctx) e));
  harmless_dynamic_gas ctx g : P ctx (with_dynamic_gas ctx g);
}.

Class Preserved (Q : machine → Prop) := {
  preserved_gas it ctx g : Q (it, ctx) → Q (with_gas it g, ctx);
  preserved_resize it ctx o n : Q (it, ctx) → Q (fst (resize_memory o n it), ctx);
  preserved_limit it ctx a : Q (it, ctx) → Q (it, with_additional_limit ctx a);
  preserved_dynamic_gas it ctx g : Q (it, ctx) → Q (it, with_dynamic_gas ctx g);
  preserved_error it ctx e :
    Q (it, ctx) → Q (it, with_inner ctx (op_with_error (inner ctx) e));
  preserved_account it ctx a b :
    Q (it, ctx) →
    Q (it, with_journal ctx (fst (Interfaces.inspect_account a b (op_journal (inner ctx)))));
  preserved_delegated it ctx a j r :
    Q (it, ctx) → is_enabled (ctx_spec ctx) REX5 = false →
    Interfaces.inspect_account_delegated (ctx_spec ctx) a (op_journal (inner ctx)) = Some (j, r) →
    Q (it, with_journal ctx j);
  preserved_storage it ctx a key j r :
    Q (it, ctx) →
    Interfaces.inspect_storage (ctx_spec ctx) a key (op_journal (inner ctx)) = Some (j, r) →
    Q (it, with_journal ctx j);
}.

#[export] Instance true_preserved : Preserved (λ _, True).
Proof. by split. Qed.

Context (P : relation ctx_t) (guard : ctx_t → Prop) `{HP : !Harmless P guard}.

Definition good (Q : machine → Prop) h : Prop :=
  ∀ s s', h s = Some s' → guard (snd s) → Q s → P (snd s) (snd s').

(** [h] needs no assumption. *)
Abbreviation good_always := (good (λ _, True)).

Lemma good_weaken Q h : good_always h → good Q h.
Proof. intros Hg s s' H Hc _. by apply (Hg s s'). Qed.

(** A handler run after a harmless change. *)
Lemma good_after Q h s s' it ctx :
  good Q h → h (it, ctx) = Some s' → P (snd s) ctx → Q (it, ctx) → guard (snd s) →
  P (snd s) (snd s').
Proof.
  intros Hh H Hk HQ Hc. etrans; [exact Hk|]. apply (Hh _ _ H); [|done]. by eapply harmless_guard.
Qed.

Lemma good_some : good_always Some.
Proof. by intros s s' [= <-]. Qed.

Lemma good_run Q f k : good Q f → good_always k → good Q (run_inner_instruction_or_abort f k).
Proof.
  unfold run_inner_instruction_or_abort. intros Hf Hk s s' H Hc HQ. bind_inv H.
  pose proof (Hf _ _ E Hc HQ) as H1. destruct (aborted _); [by simplify_eq|].
  by eapply good_after.
Qed.

(** ** What the wrappers do to the context *)

Section changes.
Context {Q : machine → Prop} `{HQ : !Preserved Q}.

Lemma own_inspection it a ctx ctx' r :
  inspect_own_account a ctx = Some (ctx', r) → P ctx ctx' ∧ (Q (it, ctx) → Q (it, ctx')).
Proof.
  unfold inspect_own_account. intros H. destruct (is_enabled _ REX5) eqn:E5.
  - injection H as H. cbn in H. pose proof (preserved_account it ctx a false) as Hq.
    pose proof (harmless_account ctx a false) as Hp.
    destruct (Interfaces.inspect_account _ _ _) as [j []]; cbn in H, Hq, Hp; injection H as <- _;
      [done|].
    split; [etrans; [exact Hp|apply harmless_error]|]. intros HQ'. by apply preserved_error, Hq.
  - cbn in H. bind_inv H. pose proof (harmless_delegated _ _ _ _ E) as Hp.
    destruct y; cbn in H; injection H as <- _.
    + split; [done|]. intros HQ'. by eapply preserved_delegated.
    + split; [etrans; [exact Hp|apply harmless_error]|].
      intros HQ'. apply preserved_error. by eapply preserved_delegated.
Qed.

Lemma account_inspection it a b ctx ctx' (r : result Account unit) :
  Interfaces.inspect_account a b ctx = (ctx', r) → P ctx ctx' ∧ (Q (it, ctx) → Q (it, ctx')).
Proof.
  cbn. intros H. pose proof (preserved_account it ctx a b) as Hq.
  pose proof (harmless_account ctx a b) as Hp.
  destruct (Interfaces.inspect_account _ _ _) as [j []]; cbn in H, Hq, Hp; injection H as <- _;
    [done|].
  split; [etrans; [exact Hp|apply harmless_error]|]. intros HQ'. by apply preserved_error, Hq.
Qed.

Lemma storage_inspection it a key ctx ctx' (r : result EvmStorageSlot unit) :
  Interfaces.inspect_storage (ctx_spec ctx) a key ctx = Some (ctx', r) →
  P ctx ctx' ∧ (Q (it, ctx) → Q (it, ctx')).
Proof.
  cbn. intros H. bind_inv H. pose proof (harmless_storage _ _ _ _ _ E) as Hp.
  destruct y; cbn in H; injection H as <- _.
  - split; [done|]. intros HQ'. by eapply preserved_storage.
  - split; [etrans; [exact Hp|apply harmless_error]|].
    intros HQ'. apply preserved_error. by eapply preserved_storage.
Qed.

Lemma price_change {E} it unscaled scaled ctx ctx' c :
  storage_gas (E := E) unscaled scaled ctx = Some (ctx', c) →
  P ctx ctx' ∧ (Q (it, ctx) → Q (it, ctx')).
Proof.
  unfold storage_gas. intros H. destruct (is_exempt _); [by simplify_eq|].
  bind_inv H. destruct y; injection H as <- _.
  - split; [apply harmless_dynamic_gas|]. by apply preserved_dynamic_gas.
  - split.
    + etrans; [apply (harmless_dynamic_gas ctx x)|].
      exact (harmless_error (with_dynamic_gas ctx x) ErrorCustom).
    + intros HQ'. apply (preserved_error it (with_dynamic_gas ctx x) ErrorCustom).
      by apply preserved_dynamic_gas.
Qed.

(** ** The macros *)

Lemma good_charge amount k : good Q k → good Q (charge_gas amount k).
Proof.
  unfold charge_gas. intros Hk [it ctx] s' H Hc HQ'. destruct (gas_record_cost _ _) as [g []].
  - apply (Hk _ _ H); [done|]. by apply preserved_gas.
  - by injection H as <-.
Qed.

Lemma good_inspect n (k : Z → handler) : (∀ v, good Q (k v)) → good Q (inspect_or_halt n k).
Proof.
  unfold inspect_or_halt. intros Hk [it ctx] s' H Hc HQ'. destruct (inspect n it).
  - by apply (Hk _ _ _ H).
  - by injection H as <-.
Qed.

Lemma good_usize v (k : Z → handler) : (∀ n, good Q (k n)) → good Q (as_usize_or_halt v k).
Proof.
  unfold as_usize_or_halt. intros Hk [it ctx] s' H Hc HQ'. destruct (as_usize v).
  - by apply (Hk _ _ _ H).
  - by injection H as <-.
Qed.

Lemma good_compute_gas g k : good Q k → good Q (compute_gas g k).
Proof.
  unfold compute_gas. intros Hk [it ctx] s' H Hc HQ'. bind_inv H.
  assert (Hl : P ctx (with_additional_limit ctx x)) by (apply harmless_limit; by econstructor).
  destruct y; [|by injection H as <-]. eapply (good_after Q k (it, ctx)); try done.
  by apply preserved_limit.
Qed.

Lemma good_charge_storage price (k : Z → handler) :
  (∀ it ctx ctx' c, price ctx = Some (ctx', c) → P ctx ctx' ∧ (Q (it, ctx) → Q (it, ctx'))) →
  (∀ c, good Q (k c)) → good Q (charge_storage_gas price k).
Proof.
  unfold charge_storage_gas. intros Hp Hk [it ctx] s' H Hc HQ'. bind_inv H.
  destruct (Hp it _ _ _ E) as [Hpx Hqx].
  destruct y as [cost|]; [|by injection H as <-].
  pose proof (ns_consume (additional_limit x) cost) as Hn.
  destruct (try_consume_storage_stipend cost (additional_limit x)) as [a d].
  eapply (good_after Q _ (it, ctx)); [apply good_charge, Hk|exact H| |by apply preserved_limit, Hqx|done].
  etrans; [exact Hpx|]. by apply harmless_limit.
Qed.
End changes.

Lemma good_record before charged k :
  good_always k → good_always (record_storage_compute_gas before charged k).
Proof.
  unfold record_storage_compute_gas. intros Hk [it ctx] s' H Hc _. bind_inv H.
  assert (Hl : P ctx (with_additional_limit ctx x)) by (apply harmless_limit; by econstructor).
  destruct y; [|by injection H as <-]. by eapply (good_after _ k (it, ctx)).
Qed.

Lemma good_limit_or_halt hook :
  (∀ a a' b, hook a = Some (a', b) → neutral_step a a') → good_always (limit_or_halt hook).
Proof.
  unfold limit_or_halt. intros Hh [it ctx] s' H Hc _. bind_inv H. injection H as <-.
  apply harmless_limit. by eapply Hh.
Qed.

Lemma good_apply_limit : good_always apply_compute_gas_limit.
Proof.
  unfold apply_compute_gas_limit. intros [it ctx] s' H Hc _.
  destruct (get_compute_gas_limit _) as [l|] eqn:E; injection H as <-; [|done].
  by apply harmless_apply.
Qed.

(** ** The wrappers *)

(** [P] holds for the upstream instruction of [op] where [Q] does. *)
Definition raw_good (Q : machine → Prop) (op : Z) : Prop := good Q (raw_op op).

Lemma good_plain Q op : raw_good Q op → good Q (wrap_op_compute_gas op).
Proof.
  intros Hr s s' H. revert H. apply good_run; [done|]. intros s1 s2 H. revert H.
  apply (good_compute_gas (Q := λ _, True)), good_some.
Qed.

Lemma good_frame Q op : raw_good Q op → good Q (wrap_op_compute_gas_frame op).
Proof.
  intros Hr s s' H. revert H. apply good_run; [done|]. intros [it ctx] s1 H.
  revert H. apply (good_compute_gas (Q := λ _, True)), good_some.
Qed.

Lemma good_compute_selfdestruct Q :
  raw_good Q opcode.SELFDESTRUCT → good Q compute_selfdestruct.
Proof.
  intros Hr s s' H. revert H. apply good_run; [done|]. intros [it ctx] s1 H Hc _.
  bind_inv H. injection H as <-. apply harmless_limit. by econstructor.
Qed.

(** The tail of the wrappers that charge storage gas. *)
Lemma good_recorded Q op before charged :
  raw_good Q op →
  good Q (run_inner_instruction_or_abort (raw_op op)
            (record_storage_compute_gas before charged Some)).
Proof. intros Hr. apply good_run; [done|]. apply good_record, good_some. Qed.

Section pre_work.
Context {Q : machine → Prop} `{HQ : !Preserved Q}.

Lemma good_call op b sel :
  raw_good Q op → good Q (wrap_call_with_storage_gas op b sel).
Proof.
  intros Hr s s' H. revert H. unfold wrap_call_with_storage_gas. apply good_inspect.
  intros to [it ctx] s1 H Hc HQ'. bind_inv H.
  apply (own_inspection it) in E as [Hp Hq]. destruct y as [acc|]; [|by injection H as <-].
  assert (Hrun : ∀ a e before t, good Q (if e && t
    then charge_storage_gas (new_account_storage_gas a) (λ c, run_inner_instruction_or_abort
           (raw_op op) (record_storage_compute_gas before c Some))
    else run_inner_instruction_or_abort (raw_op op) (record_storage_compute_gas before 0 Some))).
  { intros a e before t. destruct (e && t); [|by apply good_recorded].
    apply good_charge_storage; [|intros c; by apply good_recorded].
    intros it1 c1 c2 c. apply price_change. }
  destruct b; (eapply (good_after Q _ (it, ctx)); [|exact H|done|by apply Hq|done]); [|apply Hrun].
  apply good_inspect. intros v. apply Hrun.
Qed.

Lemma good_initcode b off len (k : Z → Z → handler) :
  (∀ x g : Z, good Q (k x g)) → good Q (initcode_hash b off len k).
Proof.
  intros Hk s s' H. revert H. unfold initcode_hash. case_bools; [apply Hk|].
  apply good_usize. intros n [it ctx] s1. case_bools; [by intros [= <-]|].
  apply good_usize. intros o [it' ctx'] s2 H Hc HQ'.
  pose proof (preserved_resize it' ctx' o n HQ') as Hq.
  destruct (resize_memory o n it') as [it2 ok]. simpl in Hq.
  destruct ok; simpl in H; [|by injection H as <-].
  assert (Hh : ∀ g, good Q (λ '(it, ctx), k (keccak256 (slice_len o n it)) g (it, ctx))).
  { intros g [it3 ctx3] s3. apply Hk. }
  case_bools_in H; [by apply (good_compute_gas _ _ (Hh 0) _ _ H)|by apply (Hk _ _ _ _ H)].
Qed.

Lemma good_created_address b eager (k : Address → Z → handler) :
  (∀ a g, good Q (k a g)) → good Q (compute_created_address b eager k).
Proof.
  intros Hk [it ctx] s' H Hc HQ'. unfold compute_created_address in H. bind_inv H.
  apply (own_inspection it) in E as [Hp Hq]. destruct y as [acc|]; [|by injection H as <-].
  assert (Hs : ∀ off len salt, good Q (initcode_hash eager off len (λ hash g,
    match salt with
    | Some salt => k (create2_address (it_target_address it) salt hash) g
    | None => inspect_or_halt 3 (λ salt, k (create2_address (it_target_address it) salt hash) g)
    end))).
  { intros off len salt. apply good_initcode. intros h g. destruct salt; [done|].
    by apply good_inspect. }
  destruct b; (eapply (good_after Q _ (it, ctx)); [|exact H|done|by apply Hq|done]); [|done].
  apply good_inspect. intros off. apply good_inspect. intros len.
  case_bools; [apply good_inspect; intros salt; apply (Hs off len (Some salt))|apply (Hs off len None)].
Qed.

Lemma good_create6 b : raw_good Q (create_opcode b) → good Q (create_rex6 b).
Proof.
  intros Hr s s' H. revert H. unfold create_rex6. destruct (it_is_static _); [by intros [= <-]|].
  apply good_created_address. intros a _. apply good_charge_storage.
  - intros it ctx ctx' c. apply price_change.
  - intros c. by apply good_recorded.
Qed.

Lemma good_create b : raw_good Q (create_opcode b) → good Q (create b).
Proof.
  intros Hr s s' H. revert H. unfold create.
  destruct (is_enabled _ REX6); [by apply good_create6|].
  apply good_created_address. intros a g. apply good_charge_storage.
  { intros it ctx ctx' c. destruct (is_enabled _ REX); apply price_change. }
  intros c s1 s2 H. revert H. apply good_run; [done|]. apply good_record.
  intros s3 s4. case_bools; [|by intros [= <-]]. apply (good_compute_gas (Q := λ _, True)), good_some.
Qed.

Lemma good_inspect_sstore (k : SStoreResult → Z → handler) :
  (∀ r i, good Q (k r i)) → good Q (inspect_sstore k).
Proof.
  intros Hk [it ctx] s' H. revert H. unfold inspect_sstore. apply good_inspect.
  intros i [it1 ctx1] s1 H Hc HQ'. bind_inv H.
  apply (storage_inspection it1) in E as [Hp Hq]. destruct y as [slot|]; [|by injection H as <-].
  eapply (good_after Q _ (it1, ctx1)); [|exact H|done|by apply Hq|done]. by apply good_inspect.
Qed.

Lemma good_storage_sstore : raw_good Q opcode.SSTORE → good Q storage_sstore.
Proof.
  intros Hr s s' H. revert H. unfold storage_sstore. apply good_inspect_sstore.
  intros r i [it ctx] s1 H. revert H.
  case_bools; [|by apply good_recorded]. apply good_charge_storage; [|intros c; by apply good_recorded].
  intros it1 c1 c2 c. apply price_change.
Qed.

Lemma good_storage_log n : raw_good Q (opcode.LOG0 + Z.of_nat n) → good Q (storage_log n).
Proof.
  intros Hr s s' H. revert H. unfold storage_log. apply good_inspect. intros v. apply good_usize.
  intros len [it ctx] s1. destruct (_ ≫= _) as [amount|]; [|by intros [= <-]].
  pose proof (ns_consume (additional_limit ctx) amount) as Hn.
  destruct (try_consume_storage_stipend amount (additional_limit ctx)) as [a d]. intros H Hc HQ'.
  eapply (good_after Q _ (it, ctx)); [|exact H|by apply harmless_limit|by apply preserved_limit|done].
  by apply good_charge, good_recorded.
Qed.

Lemma good_storage_selfdestruct :
  raw_good Q opcode.SELFDESTRUCT → good Q storage_selfdestruct.
Proof.
  intros Hr s s' H. revert H. unfold storage_selfdestruct.
  assert (Hrun : good Q (run_inner_instruction_or_abort compute_selfdestruct Some))
    by (apply good_run; [by apply good_compute_selfdestruct|apply good_some]).
  destruct (it_is_static _); [apply Hrun|]. apply good_inspect. intros v [it ctx] s1 H Hc HQ'.
  destruct (Interfaces.inspect_account (into_address v) false ctx) as [c1 r1] eqn:E1.
  apply (account_inspection it) in E1 as [Hp1 Hq1]. destruct r1 as [t|]; [|by injection H as <-].
  destruct (Interfaces.inspect_account (it_target_address it) false c1) as [c2 r2] eqn:E2.
  apply (account_inspection it) in E2 as [Hp2 Hq2].
  assert (Hp : P ctx c2) by (by etrans). assert (Hq : Q (it, c2)) by auto.
  destruct r2 as [c|]; [|by injection H as <-].
  revert H. case_bools; intros H; (eapply (good_after Q _ (it, ctx)); [|exact H| | |done]); try done.
  - apply good_charge_storage; [intros it1 d1 d2 x; apply price_change|].
    intros _ [it1 ctx1] s2 H1 Hc1 HQ1.
    eapply (good_after Q _ (it1, ctx1)); [exact Hrun|exact H1| |by apply preserved_limit|done].
    apply harmless_limit, ns_selfdestruct_new.
  - etrans; [exact Hp|]. apply harmless_limit, ns_selfdestruct_existing.
  - by apply preserved_limit.
Qed.

Lemma good_limit_sstore : raw_good Q opcode.SSTORE → good Q limit_sstore.
Proof.
  intros Hr. unfold limit_sstore. apply good_inspect_sstore. intros r _.
  apply good_run; [by apply good_storage_sstore|].
  apply good_limit_or_halt. intros a a' b. by econstructor.
Qed.

Lemma good_limit_log n : raw_good Q (opcode.LOG0 + Z.of_nat n) → good Q (limit_log n).
Proof.
  intros Hr. unfold limit_log. apply good_inspect. intros v. apply good_usize. intros len.
  apply good_run; [by apply good_storage_log|].
  apply good_limit_or_halt. intros a a' b. by econstructor.
Qed.
End pre_work.

Lemma good_cap Q h f : good Q h → good Q (wrap_gas_cap h f).
Proof.
  intros Hh s s' H. revert H. unfold wrap_gas_cap. apply good_run; [done|].
  by intros [it ctx] s1 [= <-].
Qed.

(** ** The guards *)

Section guards.
Context {Q : machine → Prop} `{HQ : !Preserved Q}.

Lemma good_unconditional op ty : raw_good Q op → good Q (wrap_op_detain_gas_unconditional op ty).
Proof.
  intros Hr [it ctx] s' H. revert H. unfold wrap_op_detain_gas_unconditional.
  case_bools; [by intros [= <-]|]. apply good_run; [by apply good_plain|apply good_apply_limit].
Qed.

Lemma good_conditional h : good Q h → good Q (wrap_op_detain_gas_conditional h).
Proof.
  intros Hh [it ctx] s' H. revert H. unfold wrap_op_detain_gas_conditional.
  destruct (inspect 0 it); case_bools; try (by intros [= <-]);
    apply good_run; (done || apply good_apply_limit).
Qed.

(** The delegate is looked up in the journal by an inspection. *)
Lemma resolve_change it a ctx ctx' x :
  best_effort_resolve_eip7702_delegate_address a ctx = (ctx', x) →
  P ctx ctx' ∧ (Q (it, ctx) → Q (it, ctx')).
Proof.
  unfold best_effort_resolve_eip7702_delegate_address, resolve_eip7702_delegate_address. intros H.
  pose proof (preserved_account it ctx a (is_enabled (ctx_spec ctx) REX5)) as Hq.
  pose proof (harmless_account ctx a (is_enabled (ctx_spec ctx) REX5)) as Hp.
  by destruct (Interfaces.inspect_account _ _ _) as [j []]; injection H as <- _.
Qed.

Lemma good_call_check h : good Q h → good Q (wrap_call_volatile_check h).
Proof.
  intros Hh [it ctx] s' H Hc HQ'. unfold wrap_call_volatile_check in H.
  destruct (if volatile_access_disabled ctx then _ else _) as [c1 d] eqn:E.
  assert (Hk : P ctx c1 ∧ (Q (it, ctx) → Q (it, c1))).
  { destruct (volatile_access_disabled ctx); [|by simplify_eq].
    destruct (inspect 1 it); [|by simplify_eq]. case_bools_in E; try by simplify_eq.
    destruct (best_effort_resolve_eip7702_delegate_address _ _) eqn:Er.
    simplify_eq. by eapply resolve_change. }
  destruct Hk as [Hk Hq]. destruct d; [by injection H as <-|]. bind_inv H.
  assert (Hx : P ctx (x, y).2) by (eapply (good_after Q h (it, ctx)); eauto).
  by eapply (good_after (λ _, True) _ (it, ctx)); [apply good_apply_limit|exact H|..].
Qed.

Lemma good_guarded_selfdestruct :
  raw_good Q opcode.SELFDESTRUCT → good Q selfdestruct_with_beneficiary_guard.
Proof.
  intros Hr [it ctx] s' H. revert H. unfold selfdestruct_with_beneficiary_guard.
  destruct (_ && _); [by intros [= <-]|].
  apply good_run; [by apply good_storage_selfdestruct|apply good_apply_limit].
Qed.

Lemma good_selfbalance : raw_good Q opcode.SELFBALANCE → good Q volatile_selfbalance.
Proof.
  intros Hr [it ctx] s' H. revert H. unfold volatile_selfbalance.
  destruct (_ && _); [by intros [= <-]|].
  apply good_run; [by apply good_plain|apply good_apply_limit].
Qed.

Lemma good_sload : raw_good Q opcode.SLOAD → good Q volatile_sload.
Proof.
  intros Hr [it ctx] s' H. revert H. unfold volatile_sload.
  destruct (_ && _); [by intros [= <-]|].
  apply good_run; [by apply good_plain|apply good_apply_limit].
Qed.

(** ** The tables *)

Create HintDb tables.
Hint Resolve good_plain good_frame good_compute_selfdestruct good_call good_create good_cap
  good_limit_sstore good_unconditional good_conditional good_call_check
  good_guarded_selfdestruct good_selfbalance good_sload : tables.

(** Decides the tests [op =? c] of a table one by one. *)
Ltac table_cases :=
  repeat match goal with
  | |- good _ (if ?b then _ else _) => destruct b eqn:?
  | H : (_ =? _) = true |- _ => apply Z.eqb_eq in H
  | H : (_ || _) = true |- _ => apply orb_prop in H as [H|H]
  end; subst; auto with tables.

Lemma good_mini_rex op :
  raw_good Q op → good Q (λ s, Some (raw_invalid s)) → good Q (λ s, Some (raw_unknown s)) →
  good Q (mini_rex_table op).
Proof.
  intros Hr Hi Hu. unfold mini_rex_table. destruct (block_env_opcode op); [by apply good_unconditional|].
  destruct ((opcode.LOG0 <=? op) && _) eqn:El; cycle 1.
  { table_cases; try (unfold forward_create, forward_call; auto with tables). }
  destruct (andb_prop _ _ El) as [H1 H2]. apply Z.leb_le in H1, H2. unfold opcode.LOG0 in *.
  repeat (rewrite (proj2 (Z.eqb_neq op _)) by (unfold opcode.BALANCE, opcode.EXTCODESIZE,
    opcode.EXTCODECOPY, opcode.EXTCODEHASH, opcode.SSTORE; lia)). simpl.
  apply good_limit_log. unfold opcode.LOG0. by replace (_ + _) with op by lia.
Qed.

Lemma good_table spec op :
  raw_good Q op → good Q (λ s, Some (raw_invalid s)) → good Q (λ s, Some (raw_unknown s)) →
  good Q (instruction_table spec op).
Proof.
  intros Hr Hi Hu. pose proof (good_mini_rex op Hr Hi Hu) as Hm.
  assert (Hr1 : good Q (rex_table op)).
  { unfold rex_table, forward_call_code, forward_delegate_call, forward_static_call. table_cases. }
  assert (Hr2 : good Q (rex2_table op)) by (unfold rex2_table; table_cases).
  assert (Hr3 : good Q (rex3_table op)) by (unfold rex3_table; table_cases).
  assert (Hr4 : good Q (rex4_table op)).
  { unfold rex4_table, forward_call, forward_call_code, forward_delegate_call,
      forward_static_call. table_cases. }
  assert (Hr5 : good Q (rex5_table op)) by (unfold rex5_table; table_cases).
  by destruct spec.
Qed.
End guards.
End invariants.
