(* ===== verification/InstructionSafety.v ===== *)
(** What the instruction tables guarantee whatever the upstream instructions compute.

    The upstream instruction of an opcode reaches the context only through the host methods of
    [evm/host.rs], at the operands it finds on the stack ([host_calls]).  From that follows
    that no instruction moves the frame stacks of the limits, and that a disabled volatile
    access is never recorded. *)

From S2P Require Import Prelude Spec Revm LimitCheck FrameLimit FrameLimitFacts Interfaces.
From S2P Require Import ComputeGas DataSize KVUpdate StateGrowth StorageCallStipend.
From S2P Require Import AdditionalLimit AdditionalLimitFacts Alignment Access DynamicGas.
From S2P Require Import Journal JournalFacts SystemTx Context Intercept Execution ExecutionFacts Instructions.
From S2P Require Import InstructionsFacts LimitCheck Interfaces.

Section laws.
Context `{R : Revm} `{RS : RevmState} {J : Type} `{HJ : !JournalInspectTr J} {W : Type}.
Context `{HH : !OpHost J W} {S : Type} `{HS : SaltEnv S} {O : Type} `{HO : OracleEnv O}.
Context {M : Type} `{HI : !Interpreter J W S O M} `{HF : !FrameStack W}.

Local Notation ctx_t := (MegaContext J W S O).
Local Notation machine := (Interp M * ctx_t)%type.
Implicit Types (ctx : ctx_t) (it : Interp M) (s : machine).

Definition call_opcode (op : Z) : bool :=
  (op =? opcode.CALL) || (op =? opcode.CALLCODE) || (op =? opcode.DELEGATECALL) ||
  (op =? opcode.STATICCALL).

Definition account_opcode (op : Z) : bool :=
  (op =? opcode.BALANCE) || (op =? opcode.EXTCODESIZE) || (op =? opcode.EXTCODECOPY) ||
  (op =? opcode.EXTCODEHASH).

(** The upstream context with its frame stack as it was. *)
Definition same_stack (o o' : OpContext J W) : Prop :=
  frame_count (op_world o') = frame_count (op_world o) ∧
  frame_finished (op_world o') = frame_finished (op_world o).

(** The host calls of one upstream instruction.  The methods of the host that
    [MegaContext] passes on unchanged are [hc_inner], which moves the upstream context within
    [own]. *)
Inductive host_calls (own : relation (OpContext J W)) (op : Z) it ctx : ctx_t → Prop :=
  | hc_none : host_calls own op it ctx ctx
  | hc_block_env ty ctx' :
      block_env_opcode op = Some ty →
      rtc (λ c c', ∃ ty n, c' = fst (block_env_read ty n c)) ctx ctx' →
      host_calls own op it ctx ctx'
  | hc_account what a :
      account_opcode op = true → inspect 0 it = Some a →
      host_calls own op it ctx (fst (host_read what (into_address a) ctx))
  | hc_selfbalance :
      op = opcode.SELFBALANCE →
      host_calls own op it ctx (fst (host_read ReadBalance (it_target_address it) ctx))
  | hc_call to :
      call_opcode op = true → inspect 1 it = Some to →
      host_calls own op it ctx (fst (load_account_delegated (into_address to) ctx))
  | hc_sload key :
      op = opcode.SLOAD →
      host_calls own op it ctx (fst (sload (it_target_address it) key ctx))
  | hc_selfdestruct a :
      op = opcode.SELFDESTRUCT → inspect 0 it = Some a →
      host_calls own op it ctx (fst (selfdestruct (it_target_address it) (into_address a) ctx))
  | hc_inner o : own (inner ctx) o → host_calls own op it ctx (with_inner ctx o).

(** One instruction: the opcode is looked up in the table of the context's spec. *)
Inductive instr_step s : machine → Prop :=
  | instr op s' : instruction_table (ctx_spec (snd s)) op s = Some s' → instr_step s s'.

(** The documented behaviour of the upstream interpreter and host, which move the upstream
    context within [own]. *)
Class InterpreterLaws (own : relation (OpContext J W)) := {
  raw_host op it ctx : host_calls own op it ctx (snd (raw op (it, ctx)));
  raw_unknown_host s : snd (raw_unknown s) = snd s;
  raw_invalid_host s : snd (raw_invalid s) = snd s;
  (** Expanding the memory leaves the stack and the call inputs alone. *)
  resize_keeps o n it :
    it_stack (fst (resize_memory o n it)) = it_stack it ∧
    it_target_address (fst (resize_memory o n it)) = it_target_address it;
  (** The state access of the upstream context. *)
  inner_block_env_own ty n o : own o (fst (inner_block_env ty n o));
  inner_read_own what a o : own o (fst (inner_read what a o));
  inner_sload_own a k o : own o (fst (inner_sload a k o));
  inner_selfdestruct_own a t o : own o (fst (inner_selfdestruct a t o));
}.

(** Inspecting accounts and slots does not change which delegate an address resolves to. *)
Class StableDelegation := {
  resolve_after_account spec a b lc (j : J) :
    is_enabled spec REX5 = true →
    snd (resolve_eip7702_delegate_address spec a (fst (Interfaces.inspect_account b lc j))) =
    snd (resolve_eip7702_delegate_address spec a j);
  resolve_after_storage spec a b key (j : J) j' r :
    is_enabled spec REX5 = true →
    Interfaces.inspect_storage spec b key j = Some (j', r) →
    snd (resolve_eip7702_delegate_address spec a j') =
    snd (resolve_eip7702_delegate_address spec a j);
}.
End laws.

Arguments InterpreterLaws {R RS J HJ W HH S O HO M HI} own.
Arguments StableDelegation {RS} J {HJ}.

(** * What holds of every program

    A relation that allows what the wrappers do ([Harmless]), what the upstream context does on
    its own and the record of a volatile access holds from the start of a program to its end. *)

Section programs.
Context `{R : Revm} `{RS : RevmState} {J : Type} `{HJ : !JournalInspectTr J} {W : Type}.
Context `{HH : !OpHost J W} {S : Type} `{HS : SaltEnv S} {O : Type} `{HO : OracleEnv O}.
Context {M : Type} `{HI : !Interpreter J W S O M} {own : relation (OpContext J W)}.
Context `{HL : !InterpreterLaws own}.

Local Notation ctx_t := (MegaContext J W S O).
Local Notation machine := (Interp M * ctx_t)%type.
Implicit Types (ctx : ctx_t) (it : Interp M) (s : machine).

Context (P : relation ctx_t) (guard : ctx_t → Prop) `{HP : !Harmless P guard}.
Context (own_ok : ∀ ctx o, own (inner ctx) o → P ctx (with_inner ctx o)).
Context (access_ok : ∀ a ctx,
  guard ctx → P ctx (with_tracker ctx (do_access a (volatile_data_tracker ctx)))).

Lemma beneficiary_allowed a ctx :
  guard ctx → P ctx (fst (check_and_mark_beneficiary_balance_access a ctx)).
Proof.
  intros Hc. unfold check_and_mark_beneficiary_balance_access. case_bools; [|done].
  by apply (access_ok BeneficiaryAccess).
Qed.

Lemma read_inner_allowed what a ctx : P ctx (fst (read_inner what a ctx)).
Proof.
  unfold read_inner. pose proof (inner_read_own what a (inner ctx)) as H.
  destruct (inner_read what a (inner ctx)). by apply own_ok.
Qed.

Lemma host_read_allowed what a ctx : guard ctx → P ctx (fst (host_read what a ctx)).
Proof.
  intros Hc. unfold host_read. pose proof (beneficiary_allowed a ctx Hc) as H.
  destruct (check_and_mark_beneficiary_balance_access a ctx) as [c b].
  etrans; [exact H|]. apply read_inner_allowed.
Qed.

Lemma resolve_allowed a ctx : P ctx (fst (best_effort_resolve_eip7702_delegate_address a ctx)).
Proof.
  unfold best_effort_resolve_eip7702_delegate_address, resolve_eip7702_delegate_address.
  pose proof (harmless_account ctx a (is_enabled (ctx_spec ctx) REX5)) as H.
  destruct (Interfaces.inspect_account _ _ _) as [j [acc|e]]; exact H.
Qed.

Lemma delegated_allowed a ctx : guard ctx → P ctx (fst (load_account_delegated a ctx)).
Proof.
  intros Hc. unfold load_account_delegated. pose proof (beneficiary_allowed a ctx Hc) as H.
  destruct (check_and_mark_beneficiary_balance_access a ctx) as [c b]. simpl in H.
  etrans; [exact H|]. etrans; [|apply read_inner_allowed]. case_bools; [|done].
  pose proof (resolve_allowed a c) as Hk.
  destruct (best_effort_resolve_eip7702_delegate_address a c) as [c1 x]. simpl in Hk.
  case_bools; [|done]. etrans; [exact Hk|].
  apply beneficiary_allowed. eapply harmless_guard; [exact Hk|]. by eapply harmless_guard.
Qed.

Lemma sload_allowed a k ctx : guard ctx → P ctx (fst (sload a k ctx)).
Proof.
  intros Hc. unfold sload.
  match goal with |- context [if ?b then with_tracker ctx ?t else ctx] =>
    set (c := if b : bool then with_tracker ctx t else ctx) end.
  assert (Hk : P ctx c).
  { subst c. case_bools; [|done]. by apply (access_ok (CallAccess a)). }
  destruct (if _ && _ then get_oracle_storage _ _ else None); [done|].
  pose proof (inner_sload_own a k (inner c)) as H. destruct (inner_sload a k (inner c)).
  etrans; [exact Hk|]. by apply own_ok.
Qed.

Lemma refund_allowed a ctx : P ctx (fst (selfdestruct_refund a ctx)).
Proof.
  unfold selfdestruct_refund. case_bools; [|done]. pose proof (harmless_account ctx a false) as H.
  destruct (Interfaces.inspect_account _ _ _) as [j r]. exact H.
Qed.

Lemma selfdestruct_allowed a t ctx : guard ctx → P ctx (fst (selfdestruct a t ctx)).
Proof.
  intros Hc. unfold selfdestruct.
  match goal with |- context [if ?b then fst ?t else ctx] =>
    set (c := if b : bool then fst t else ctx) end.
  assert (Hk : P ctx c) by (subst c; case_bools; [by apply beneficiary_allowed|done]).
  pose proof (refund_allowed a c) as Hk1. destruct (selfdestruct_refund a c) as [c1 refund].
  pose proof (inner_selfdestruct_own a t (inner c1)) as H.
  destruct (inner_selfdestruct a t (inner c1)) as [o res].
  assert (Hk2 : P ctx (with_inner c1 o)) by (etrans; [exact Hk|]; etrans; [exact Hk1|]; by apply own_ok).
  destruct refund as [n|], res as [[]|]; simpl; try exact Hk2.
  etrans; [exact Hk2|]. apply (harmless_limit (guard := guard)), ns_selfdestruct.
Qed.

Lemma block_env_allowed ctx ctx' :
  rtc (λ c c', ∃ ty n, c' = fst (block_env_read ty n c)) ctx ctx' → guard ctx → P ctx ctx'.
Proof.
  induction 1 as [|c1 c2 c3 (ty & n & ->) _ IH]; [done|]. intros Hc.
  assert (Hk : P c1 (fst (block_env_read ty n c1))).
  { unfold block_env_read. etrans; [by apply (access_ok (BlockEnvAccess ty))|].
    pose proof (inner_block_env_own ty n (inner (mark_block_env_accessed ty c1))) as H.
    destruct (inner_block_env _ _ _). by apply own_ok. }
  etrans; [exact Hk|]. apply IH. by eapply harmless_guard.
Qed.

Lemma raw_allowed op : raw_good P guard (λ _ : machine, True) op.
Proof.
  intros [it ctx] s' [= <-] Hc _. simpl in *. destruct (raw_host op it ctx).
  - done.
  - by apply block_env_allowed.
  - by apply host_read_allowed.
  - by apply host_read_allowed.
  - by apply delegated_allowed.
  - by apply sload_allowed.
  - by apply selfdestruct_allowed.
  - by apply own_ok.
Qed.

Lemma table_allowed spec op s s' :
  instruction_table spec op s = Some s' → guard (snd s) → P (snd s) (snd s').
Proof.
  intros H Hc. assert (Hg : good P guard (λ _ : machine, True) (instruction_table spec op)).
  { apply (good_table P guard (Q := λ _, True)); [apply raw_allowed| |].
    - intros s0 s1 [= <-] _ _. by rewrite raw_invalid_host.
    - intros s0 s1 [= <-] _ _. by rewrite raw_unknown_host. }
  by apply (Hg s s').
Qed.

Lemma steps_allowed s s' : rtc instr_step s s' → guard (snd s) → P (snd s) (snd s').
Proof.
  induction 1 as [|s1 s2 s3 [op ? H] _ IH]; [done|]. intros Hc.
  pose proof (table_allowed _ _ _ _ H Hc) as Hk. etrans; [exact Hk|]. apply IH. by eapply harmless_guard.
Qed.
End programs.

Section safety.
Context `{R : Revm} `{RS : RevmState} {J : Type} `{HJ : !JournalInspectTr J} {W : Type}.
Context `{HH : !OpHost J W} {S : Type} `{HS : SaltEnv S} {O : Type} `{HO : OracleEnv O}.
Context {M : Type} `{HI : !Interpreter J W S O M} `{HF : !FrameStack W}.
Context `{HL : !InterpreterLaws same_stack}.

Local Notation ctx_t := (MegaContext J W S O).
Local Notation machine := (Interp M * ctx_t)%type.
Local Notation handler := (machine → panics machine).
Implicit Types (ctx : ctx_t) (it : Interp M) (s : machine) (h : handler).

(** * The frame stacks *)

Lemma journal_keeps ctx j : keeps ctx (with_journal ctx j).
Proof. by split; split_and!. Qed.

#[export] Instance keeps_harmless : Harmless (J := J) (W := W) (S := S) (O := O) keeps caps_ok.
Proof.
  split; try (intros; apply journal_keeps); [apply _| | | | |].
  - intros ctx ctx' [(_ & H & _) _]. done.
  - intros ctx a H. split; [by apply moves_limit|done].
  - intros ctx l Hc Hl. split; [|done]. apply moves_limit. constructor. by apply Hc.
  - intros ctx e. by split; split_and!.
  - intros ctx g. by split; split_and!.
Qed.

Lemma inner_keeps ctx o : same_stack (inner ctx) o → keeps ctx (with_inner ctx o).
Proof. intros [??]. by split; split_and!. Qed.

(** An access tightens the detention cap at most to one of the configured ones. *)
Lemma access_keeps a ctx :
  caps_ok ctx → keeps ctx (with_tracker ctx (do_access a (volatile_data_tracker ctx))).
Proof.
  intros Hc. split; [|done]. split_and!; [done| |done]. intros _. revert Hc. unfold caps_ok. simpl.
  rewrite do_access_spec. simpl. intros (H1 & H2 & H3). split_and!; [done|done|].
  intros l Hl. destruct (vt_compute_gas_limit _) as [l0|], (access_cap a _) as [c|] eqn:Ea;
    simplify_eq/=; try (specialize (H3 _ eq_refl)); destruct a; simplify_eq/=; try case_match; simplify_eq; lia.
Qed.

Lemma steps_keep s s' : rtc instr_step s s' → caps_ok (snd s) → keeps (snd s) (snd s').
Proof. apply (steps_allowed keeps caps_ok); [apply inner_keeps|apply access_keeps]. Qed.

Lemma neutrals_keep (a a' : AdditionalLimit) : rtc neutral_step a a' → keeps_verdict a a'.
Proof. induction 1 as [|a b c H _ IH]; [done|]. etrans; [by apply neutral_keeps|done]. Qed.

(** * Disabled volatile access *)

(** The opcode reads volatile data of the block: its operand is volatile, or, for a
    SELFDESTRUCT from Rex6 on, the executing contract is the beneficiary. *)
Definition volatile_operand (op : Z) it ctx : bool :=
  let beneficiary := op_beneficiary (inner ctx) in
  if bool_decide (is_Some (block_env_opcode op)) then true
  else if account_opcode op then
    match inspect 0 it with Some a => into_address a =? beneficiary | None => false end
  else if op =? opcode.SELFBALANCE then it_target_address it =? beneficiary
  else if op =? opcode.SLOAD then it_target_address it =? ORACLE_CONTRACT_ADDRESS
  else if op =? opcode.SELFDESTRUCT then
    match inspect 0 it with
    | Some a =>
        (is_enabled (ctx_spec ctx) REX6 && (it_target_address it =? beneficiary)) ||
        (into_address a =? beneficiary)
    | None => false
    end
  else if call_opcode op then
    match inspect 1 it with
    | Some a =>
        (into_address a =? beneficiary) ||
        (is_enabled (ctx_spec ctx) REX6 &&
         (snd (best_effort_resolve_eip7702_delegate_address (into_address a) ctx) =? beneficiary))
    | None => false
    end
  else false.

Definition quiet ctx ctx' : Prop := volatile_data_tracker ctx' = volatile_data_tracker ctx.

#[export] Instance quiet_harmless :
  Harmless (J := J) (W := W) (S := S) (O := O) quiet (λ _, True).
Proof.
  unfold quiet. split; try done.
  split; [by intros ctx|]. intros c1 c2 c3 H1 H2. congruence.
Qed.

Context `{HD : !StableDelegation J}.

(** What the operand depends on. *)
Lemma operand_ext op it it' ctx ctx' :
  it_stack it' = it_stack it → it_target_address it' = it_target_address it →
  ctx_spec ctx' = ctx_spec ctx → op_beneficiary (inner ctx') = op_beneficiary (inner ctx) →
  (is_enabled (ctx_spec ctx) REX6 = true → ∀ a,
     snd (resolve_eip7702_delegate_address (ctx_spec ctx) a (op_journal (inner ctx'))) =
     snd (resolve_eip7702_delegate_address (ctx_spec ctx) a (op_journal (inner ctx)))) →
  volatile_operand op it' ctx' = volatile_operand op it ctx.
Proof.
  intros H1 H2 H3 H4 H5. unfold volatile_operand, inspect. rewrite H1, H2, H3, H4.
  repeat (case_match; [done|]). case_match; [|done]. case_match; [|done]. f_equal.
  destruct (is_enabled (ctx_spec ctx) REX6); [|done]. simpl. specialize (H5 eq_refl (into_address z)).
  unfold best_effort_resolve_eip7702_delegate_address. rewrite H3.
  destruct (resolve_eip7702_delegate_address _ _ (op_journal (inner ctx'))),
    (resolve_eip7702_delegate_address _ _ (op_journal (inner ctx))).
  simpl in *. by rewrite H5.
Qed.

#[export] Instance operand_preserved op :
  Preserved (λ s : machine, volatile_operand op s.1 s.2 = false).
Proof.
  split; cbn [fst snd].
  - done.
  - intros it ctx o n <-. destruct (resize_keeps o n it). by apply operand_ext.
  - intros it ctx a <-. by apply operand_ext.
  - intros it ctx g <-. by apply operand_ext.
  - intros it ctx e <-. by apply operand_ext.
  - intros it ctx a b <-. apply operand_ext; try done. intros H6 x.
    by apply resolve_after_account, rex6_rex5.
  - intros it ctx a j r HQ H5 _. rewrite <- HQ. apply operand_ext; try done. intros H6%rex6_rex5. congruence.
  - intros it ctx a key j r <- H. apply operand_ext; try done. intros H6 x.
    eapply resolve_after_storage; [by apply rex6_rex5|exact H].
Qed.

Lemma beneficiary_quiet a ctx :
  (a =? op_beneficiary (inner ctx)) = false →
  fst (check_and_mark_beneficiary_balance_access a ctx) = ctx.
Proof.
  intros H. unfold check_and_mark_beneficiary_balance_access. by rewrite Z.eqb_sym, H.
Qed.

Lemma read_quiet what a ctx :
  (a =? op_beneficiary (inner ctx)) = false → quiet ctx (fst (host_read what a ctx)).
Proof.
  intros H. unfold host_read. pose proof (beneficiary_quiet a ctx H) as E.
  destruct (check_and_mark_beneficiary_balance_access a ctx) as [c b]. simpl in E. subst c.
  unfold read_inner. by destruct (inner_read _ _ _).
Qed.

Lemma delegated_quiet a ctx :
  (a =? op_beneficiary (inner ctx)) ||
  (is_enabled (ctx_spec ctx) REX6 &&
   (snd (best_effort_resolve_eip7702_delegate_address a ctx) =? op_beneficiary (inner ctx))) =
    false →
  quiet ctx (fst (load_account_delegated a ctx)).
Proof.
  intros [H1 H2]%orb_false_elim. unfold load_account_delegated.
  pose proof (beneficiary_quiet a ctx H1) as E.
  destruct (check_and_mark_beneficiary_balance_access a ctx) as [c b]. simpl in E. subst c.
  assert (Hin : ∀ c, quiet c (fst (read_inner ReadDelegated a c)))
    by (intros c; unfold read_inner; by destruct (inner_read _ _ _)).
  etrans; [|apply Hin]. destruct (is_enabled (ctx_spec ctx) REX6); [|done]. simpl in H2.
  destruct (best_effort_resolve_eip7702_delegate_address a ctx) as [c x] eqn:Er. simpl in H2.
  unfold best_effort_resolve_eip7702_delegate_address in Er.
  destruct (resolve_eip7702_delegate_address _ _ _). injection Er as <- _.
  destruct (negb _); [|done]. by rewrite beneficiary_quiet.
Qed.

Lemma sload_quiet a k ctx :
  (a =? ORACLE_CONTRACT_ADDRESS) = false → quiet ctx (fst (sload a k ctx)).
Proof.
  intros H. unfold sload. rewrite H, andb_false_r. simpl. by destruct (inner_sload _ _ _).
Qed.

Lemma selfdestruct_quiet a t ctx :
  (t =? op_beneficiary (inner ctx)) = false → quiet ctx (fst (selfdestruct a t ctx)).
Proof.
  intros H. unfold selfdestruct. rewrite (beneficiary_quiet _ _ H).
  replace (if is_enabled (ctx_spec ctx) REX4 then ctx else ctx) with ctx by (by case_match).
  destruct (selfdestruct_refund a ctx) as [c refund] eqn:E.
  assert (Hc : quiet ctx c).
  { unfold selfdestruct_refund in E. case_bools_in E; [|by simplify_eq].
    destruct (Interfaces.inspect_account _ _ _). by injection E as <- _. }
  destruct (inner_selfdestruct _ _ _) as [o [[]|]], refund; done.
Qed.

(** Which opcode it is, from a disjunction of tests. *)
Ltac which_opcode H :=
  unfold account_opcode, call_opcode in H;
  repeat (apply orb_prop in H as [H|H]); apply Z.eqb_eq in H; subst.

Lemma raw_quiet op : raw_good quiet (λ _, True) (λ s : machine, volatile_operand op s.1 s.2 = false) op.
Proof.
  intros [it ctx] s' [= <-] _ HQ. cbn [fst snd] in *. unfold volatile_operand in HQ.
  destruct (raw_host op it ctx) as [|ty ctx' Hop|what a Hop Ha|Hop|to Hop Ha|key Hop|a Hop Ha|o Ho].
  - done.
  - by rewrite Hop in HQ.
  - apply read_quiet. which_opcode Hop; by rewrite Ha in HQ.
  - apply read_quiet. by subst.
  - apply delegated_quiet. which_opcode Hop; by rewrite Ha in HQ.
  - apply sload_quiet. by subst.
  - apply selfdestruct_quiet. subst. rewrite Ha in HQ. by apply orb_false_elim in HQ as [_ HQ].
  - done.
Qed.

Lemma table_quiet spec op it ctx s' :
  volatile_operand op it ctx = false →
  instruction_table spec op (it, ctx) = Some s' → quiet ctx (snd s').
Proof.
  intros HQ H.
  assert (Hg : good quiet (λ _, True) (λ s : machine, volatile_operand op s.1 s.2 = false)
    (instruction_table spec op)).
  { apply (good_table quiet (λ _, True) (Q := λ s : machine, volatile_operand op s.1 s.2 = false)).
    - apply raw_quiet.
    - intros s0 s1 [= <-] _ _. unfold quiet. by rewrite raw_invalid_host.
    - intros s0 s1 [= <-] _ _. unfold quiet. by rewrite raw_unknown_host. }
  by apply (Hg (it, ctx)).
Qed.

(** ** The guard of every volatile opcode fires *)

(** The interpreter returns the revert; of the context, only the journal may have loaded an
    account. *)
Definition reverts h it ctx : Prop :=
  ∃ ty j, h (it, ctx) = Some (revert_disabled ty it, with_journal ctx j).

Lemma reverts_at h it ctx ty : h (it, ctx) = Some (revert_disabled ty it, ctx) → reverts h it ctx.
Proof.
  intros H. exists ty, (op_journal (inner ctx)). rewrite H. by destruct ctx as [[] ?].
Qed.

Lemma block_env_table op ty :
  block_env_opcode op = Some ty → rex4_table op = wrap_op_detain_gas_unconditional op ty.
Proof.
  unfold block_env_opcode. intros H.
  repeat (destruct (_ =? _) eqn:E in H; [apply Z.eqb_eq in E; injection H as <-; by subst|clear E]).
  done.
Qed.

Lemma late_table spec op :
  is_enabled spec REX4 = true → (op =? opcode.SELFDESTRUCT) = false →
  instruction_table spec op = rex4_table op.
Proof. intros H4 Hop. destruct spec; try done; simpl; unfold rex6_table, rex5_table; by rewrite Hop. Qed.

Section disabled.
Context it ctx (Hd : volatile_access_disabled ctx = true).

Lemma conditional_reverts h a :
  inspect 0 it = Some a → (into_address a =? op_beneficiary (inner ctx)) = true →
  reverts (wrap_op_detain_gas_conditional h) it ctx.
Proof.
  intros Ha Hb. apply (reverts_at _ _ _ Beneficiary). unfold wrap_op_detain_gas_conditional.
  by rewrite Ha, Hb, Hd.
Qed.

Lemma selfdestruct_reverts a :
  is_enabled (ctx_spec ctx) REX4 = true →
  inspect 0 it = Some a →
  (is_enabled (ctx_spec ctx) REX6 && (it_target_address it =? op_beneficiary (inner ctx))) ||
  (into_address a =? op_beneficiary (inner ctx)) = true →
  reverts (instruction_table (ctx_spec ctx) opcode.SELFDESTRUCT) it ctx.
Proof.
  intros H4 Ha Hb.
  assert (Hg : reverts selfdestruct_with_beneficiary_guard it ctx).
  { apply (reverts_at _ _ _ Beneficiary). unfold selfdestruct_with_beneficiary_guard.
    by rewrite Hd, Ha, Hb. }
  destruct (ctx_spec ctx); try done. by apply (conditional_reverts _ a).
Qed.

Lemma call_reverts h a :
  inspect 1 it = Some a →
  (into_address a =? op_beneficiary (inner ctx)) ||
  (is_enabled (ctx_spec ctx) REX6 &&
   (snd (best_effort_resolve_eip7702_delegate_address (into_address a) ctx) =?
    op_beneficiary (inner ctx))) = true →
  reverts (wrap_call_volatile_check h) it ctx.
Proof.
  intros Ha Hb. unfold reverts, wrap_call_volatile_check. rewrite Hd, Ha.
  destruct (into_address a =? op_beneficiary (inner ctx)) eqn:E.
  { exists Beneficiary, (op_journal (inner ctx)). by destruct ctx as [[] ?]. }
  simpl in Hb. destruct (is_enabled (ctx_spec ctx) REX6); [|done]. simpl in Hb.
  destruct (best_effort_resolve_eip7702_delegate_address _ _) as [c x] eqn:Er.
  simpl in Hb. rewrite Hb. unfold best_effort_resolve_eip7702_delegate_address in Er.
  destruct (resolve_eip7702_delegate_address _ _ _) as [j r]. injection Er as <- _. by eexists _, _.
Qed.

Lemma table_reverts op :
  is_enabled (ctx_spec ctx) REX4 = true → volatile_operand op it ctx = true →
  reverts (instruction_table (ctx_spec ctx) op) it ctx.
Proof.
  intros H4 Hv. unfold volatile_operand in Hv.
  destruct (op =? opcode.SELFDESTRUCT) eqn:Es.
  { apply Z.eqb_eq in Es as ->. simpl in Hv. destruct (inspect 0 it) as [a|] eqn:Ha; [|done].
    by eapply selfdestruct_reverts. }
  rewrite late_table by done.
  destruct (block_env_opcode op) as [ty|] eqn:Eb.
  { rewrite (block_env_table _ _ Eb). apply (reverts_at _ _ _ ty).
    unfold wrap_op_detain_gas_unconditional. by rewrite Hd. }
  destruct (account_opcode op) eqn:Ea; simpl in Hv.
  { destruct (inspect 0 it) as [a|] eqn:Ha; [|done].
    which_opcode Ea; by apply (conditional_reverts _ a). }
  destruct (op =? opcode.SELFBALANCE) eqn:E1.
  { apply Z.eqb_eq in E1 as ->. apply (reverts_at volatile_selfbalance _ _ Beneficiary).
    unfold volatile_selfbalance. by rewrite Hv, Hd. }
  destruct (op =? opcode.SLOAD) eqn:E2.
  { apply Z.eqb_eq in E2 as ->. apply (reverts_at volatile_sload _ _ Oracle).
    unfold volatile_sload. by rewrite Hv, Hd. }
  destruct (call_opcode op) eqn:E3; [|done]. destruct (inspect 1 it) as [a|] eqn:Ha; [|done].
  which_opcode E3; by apply (call_reverts _ a).
Qed.
End disabled.
End safety.

(** * The journal of [evm/host.rs] keeps its promise *)

Section stable_journal.
Context `{RS : RevmState} {RSL : RevmStateLaws RS} {E : Type} (db : Database E).
Implicit Types (j : Journal) (a : Address) (acc : Account).

(** The code of an account as an inspection that loads code sees it. *)
Definition account_code acc : result (option Bytecode) E :=
  if needs_code acc then
    match db_code_by_hash db (code_hash (acc_info acc)) with Ok c => Ok (Some c) | Err e => Err e end
  else Ok (code (acc_info acc)).

Definition code_seen j a : result (option Bytecode) E :=
  match jr_state j !! a with
  | Some acc => account_code acc
  | None =>
      match basic db a with Ok i => account_code (loaded i j) | Err e => Err e end
  end.

Lemma account_code_info acc acc' : acc_info acc' = acc_info acc → account_code acc' = account_code acc.
Proof. intros H. unfold account_code, needs_code. by rewrite H. Qed.

Lemma account_code_set acc c :
  needs_code acc = true → db_code_by_hash db (code_hash (acc_info acc)) = Ok c →
  account_code (set_code acc c) = account_code acc.
Proof.
  intros Hn Hc. unfold account_code. rewrite Hn, Hc. unfold needs_code. simpl.
  by rewrite andb_false_r.
Qed.

Lemma resolve_code spec a j :
  is_enabled spec REX5 = true →
  snd (resolve_eip7702_delegate_address (H := journal_inspect db) spec a j) =
  match code_seen j a with
  | Ok c => Ok (match c with Some (Eip7702 d) => d | _ => a end)
  | Err e => Err e
  end.
Proof.
  intros H5. unfold resolve_eip7702_delegate_address, code_seen, account_code. rewrite H5. simpl.
  unfold Journal.inspect_account. destruct (jr_state j !! a) as [acc|].
  - destruct (needs_code acc); [destruct (db_code_by_hash _ _) as [[]|]; done|].
    simpl. by destruct (code (acc_info acc)) as [[]|].
  - destruct (basic db a) as [i|]; [|done]. fold (loaded i j). simpl.
    destruct (needs_code (loaded i j)); [destruct (db_code_by_hash _ _) as [[]|]; done|].
    simpl. by destruct (code (acc_info (loaded i j))) as [[]|].
Qed.

Lemma code_seen_insert j a b acc :
  account_code acc = code_seen j b → code_seen (jr_insert b acc j) a =
  if decide (a = b) then code_seen j b else code_seen j a.
Proof.
  intros H. unfold code_seen at 1. simpl. destruct (decide (a = b)) as [->|Hn].
  - by rewrite lookup_insert_eq.
  - rewrite lookup_insert_ne by done. by unfold code_seen.
Qed.

Lemma code_seen_same j a b acc :
  account_code acc = code_seen j b → code_seen (jr_insert b acc j) a = code_seen j a.
Proof. intros H. rewrite code_seen_insert by done. by destruct (decide (a = b)) as [->|]. Qed.

Lemma code_seen_inspect a b lc j : code_seen (fst (Journal.inspect_account db b lc j)) a = code_seen j a.
Proof.
  unfold Journal.inspect_account. destruct (jr_state j !! b) as [acc|] eqn:Hb.
  - assert (Hs : code_seen j b = account_code acc) by (unfold code_seen; by rewrite Hb).
    destruct (needs_code acc) eqn:Hn; [|done].
    destruct (db_code_by_hash _ _) as [c|] eqn:Hc; [|done]. apply code_seen_same.
    rewrite Hs. by apply account_code_set.
  - destruct (basic db b) as [i|] eqn:Hi; [|done]. fold (loaded i j).
    assert (Hs : code_seen j b = account_code (loaded i j)) by (unfold code_seen; by rewrite Hb, Hi).
    destruct (lc && needs_code (loaded i j)) eqn:Hn.
    + apply andb_prop in Hn as [_ Hn]. destruct (db_code_by_hash _ _) as [c|] eqn:Hc; [|done].
      apply code_seen_same. rewrite Hs. rewrite <- (account_code_set _ _ Hn Hc). by apply account_code_info.
    + apply code_seen_same. rewrite Hs. by apply account_code_info.
Qed.

#[export] Instance journal_stable : @StableDelegation RS Journal (journal_inspect db).
Proof.
  split.
  - intros spec a b lc j H5. rewrite !resolve_code by done.
    change (Interfaces.inspect_account b lc j) with (Journal.inspect_account db b lc j).
    by rewrite code_seen_inspect.
  - intros spec a b key j j' r H5 H. rewrite !resolve_code by done.
    assert (Hx : code_seen j' a = code_seen j a); [|by rewrite Hx].
    change (Journal.inspect_storage db spec b key j = Some (j', r)) in H.
    unfold Journal.inspect_storage in H. rewrite (rex5_rex4 _ H5) in H. unfold inspect_storage_rex4 in H.
    pose proof (code_seen_inspect a b true j) as Hs.
    destruct (Journal.inspect_account db b true j) as [j1 [acc0|]]; simpl in Hs; [|by injection H as <- _].
    bind_inv H. destruct (acc_storage x !! key); [by injection H as <- _|].
    destruct (slot_value _ _ _ _); injection H as <- _; [|done]. rewrite code_seen_same; [done|].
    unfold code_seen. rewrite E0. by apply account_code_info.
Qed.
End stable_journal.

(** C34: whatever program a frame runs, its instructions never move the frame stacks.  From a
    state with [n] frames open in the limits, any sequence of instructions of the table of the
    spec (the upstream instruction wrapped with gas recording, storage gas, volatile guards,
    limit checks and gas forwarding) ends with the same spec, the same frames of the EVM and
    [n] frames in each of the four dimensions and the stipend; and a limit that was exceeded
    or exempt before is so after, with the same verdict. *)
Theorem instructions_keep_frames `{R : Revm, RS : RevmState} {J} `{!JournalInspectTr J} {W}
    `{!OpHost J W} {S} `{SaltEnv S} {O} `{OracleEnv O} {M} `{!Interpreter J W S O M}
    `{!FrameStack W, !InterpreterLaws same_stack} n (s s' : Interp M * MegaContext J W S O) :
  caps_ok (snd s) → run n (additional_limit (snd s)) → rtc instr_step s s' →
  ctx_spec (snd s') = ctx_spec (snd s) ∧ frames (snd s') = frames (snd s) ∧
  depths (additional_limit (snd s')) = replicate 5 n ∧
  keeps_verdict (additional_limit (snd s)) (additional_limit (snd s')).
Proof.
  intros Hc Hr Hs. destruct (steps_keep s s' Hs Hc) as [(Hsp & _ & Hn) [Hf _]]. split_and!.
  - done.
  - done.
  - apply aligned_depths. eapply neutrals_aligned; [exact Hn|]. by apply run_aligned.
  - by apply neutrals_keep.
Qed.

(** C36: the guards of a frame whose volatile access is disabled, from Rex4 on.  Every opcode
    that reads volatile data (the block environment; the beneficiary as the operand of BALANCE,
    the EXTCODE opcodes, SELFBALANCE, SELFDESTRUCT or a call, from Rex6 on also through an
    EIP-7702 delegation and as the contract that executes SELFDESTRUCT; the oracle's storage)
    returns the [VolatileDataAccessDisabled] revert before any gas is charged or any limit is
    touched, and every other opcode leaves the record of volatile accesses as it was.  Under
    Rex4 and Rex5 a beneficiary that destroys itself is one of the other opcodes: its own
    balance is moved without the guard, and without a record. *)
Theorem disabled_access_not_recorded `{R : Revm, RS : RevmState} {J} `{!JournalInspectTr J} {W}
    `{!OpHost J W} {S} `{SaltEnv S} {O} `{OracleEnv O} {M} `{!Interpreter J W S O M}
    `{!FrameStack W, !InterpreterLaws same_stack, !StableDelegation J}
    (op : Z) (it : Interp M) (ctx : MegaContext J W S O) :
  is_enabled (ctx_spec ctx) REX4 = true → volatile_access_disabled ctx = true →
  if volatile_operand op it ctx then
    ∃ ty j, instruction_table (ctx_spec ctx) op (it, ctx) =
            Some (revert_disabled ty it, with_journal ctx j)
  else
    ∀ it' ctx', instruction_table (ctx_spec ctx) op (it, ctx) = Some (it', ctx') →
      volatile_data_tracker ctx' = volatile_data_tracker ctx.
Proof.
  intros H4 Hd. destruct (volatile_operand op it ctx) eqn:Hv.
  - by apply table_reverts.
  - intros it1 ctx1 Ht. by eapply (table_quiet _ op it ctx (it1, ctx1)).
Qed.

(** * A reference interpreter

    Every instruction costs three gas; TIMESTAMP and BALANCE read the host, CALL opens a frame
    with half of the gas. *)

Section ref_interpreter.
Context {J : Type} `{HJ : !JournalInspectTr J} {W : Type} `{HH : !OpHost J W}.
Context {S : Type} `{HS : SaltEnv S} {O : Type} `{HO : OracleEnv O}.
Local Notation machine := (Interp unit * MegaContext J W S O)%type.

Definition ref_pay (cost : Z) (it : Interp unit) : Interp unit :=
  let '(g, ok) := gas_record_cost (it_gas it) cost in
  if ok : bool then with_gas it g
  else set_action (with_gas it g) (PendingReturn (mkInterpreterResult OutOfGas [] g)).

Definition ref_raw (op : Z) (s : machine) : machine :=
  let '(it, ctx) := s in
  let it' := ref_pay 3 it in
  if op =? opcode.TIMESTAMP then (it', fst (block_env_read Timestamp 0 ctx))
  else if op =? opcode.BALANCE then
    match it_stack it !! 0%nat with
    | Some a => (it', fst (host_read ReadBalance a ctx))
    | None => (it', ctx)
    end
  else if op =? opcode.CALL then
    match it_stack it !! 1%nat with
    | Some to =>
        let half := gas_remaining (it_gas it) / 2 in
        (set_action (ref_pay half it') (PendingFrame (FrameInputCall
           (mkCallInputs half to (it_target_address it) SchemeCall false (0, 0) None (InputBytes []) 0))),
         fst (load_account_delegated to ctx))
    | None => (it', ctx)
    end
  else (it', ctx).

Definition ref_stop (s : machine) : machine :=
  let '(it, ctx) := s in
  (set_action it (PendingReturn (mkInterpreterResult RefOutOfGas [] (it_gas it))), ctx).

#[local] Instance ref_interpreter : Interpreter J W S O unit := {|
  is_error r := negb (is_ok r) && match r with RefRevert => false | _ => true end;
  StackUnderflow := RefOutOfGas;
  FatalExternalError := RefOutOfGas;
  InvalidOperandOOG := RefOutOfGas;
  CreateInitCodeSizeLimit := RefOutOfGas;
  StateChangeDuringStaticCall := RefOutOfGas;
  CALL_STIPEND := 2300;
  LOGDATA := 8;
  LOGTOPIC := 375;
  raw := ref_raw;
  raw_unknown := ref_stop;
  raw_invalid := ref_stop;
  into_address a := a;
  as_usize v := if v <=? u64_max then Some v else None;
  resize_memory _ _ it := (it, true);
  slice_len _ _ _ := [];
  keccak256 _ := 77;
  create_address a n := a + n;
  create2_address a s h := a + s + h;
  max_initcode_size _ := 49152;
  volatile_data_access_disabled_revert_data ty := [access_type_u8 ty];
|}.

(** The state after an instruction; the state itself when the code panics. *)
Definition ref_exec (op : Z) (s : machine) : machine :=
  default s (instruction_table (ctx_spec (snd s)) op s).

Lemma ref_exec_steps op (s : machine) : rtc instr_step s (ref_exec op s).
Proof.
  unfold ref_exec. destruct (instruction_table _ op s) as [s'|] eqn:E; [|done].
  by eapply rtc_once, instr.
Qed.

(** It keeps its promise on every host that reads within [own]. *)
Lemma ref_interpreter_laws (own : relation (OpContext J W)) :
  (∀ ty n o, own o (fst (inner_block_env ty n o))) →
  (∀ what a o, own o (fst (inner_read what a o))) →
  (∀ a k o, own o (fst (inner_sload a k o))) →
  (∀ a t o, own o (fst (inner_selfdestruct a t o))) →
  InterpreterLaws (J := J) (W := W) (S := S) (O := O) (M := unit) own.
Proof.
  intros H1 H2 H3 H4. split; try done; try (by intros [it ctx]).
  intros op it ctx. simpl. unfold ref_raw.
  destruct (op =? opcode.TIMESTAMP) eqn:E1.
  { apply Z.eqb_eq in E1 as ->. apply (hc_block_env _ _ _ _ Timestamp); [done|]. apply rtc_once.
    by exists Timestamp, 0. }
  destruct (op =? opcode.BALANCE) eqn:E2.
  { apply Z.eqb_eq in E2 as ->. destruct (it_stack it !! 0%nat) as [z|] eqn:E; [|constructor].
    by refine (hc_account _ _ _ _ ReadBalance z _ E). }
  destruct (op =? opcode.CALL) eqn:E3; [|constructor].
  apply Z.eqb_eq in E3 as ->. destruct (it_stack it !! 1%nat) as [z|] eqn:E; [|constructor].
  by refine (hc_call _ _ _ _ z _ E).
Qed.
End ref_interpreter.

Section reference.
Local Notation ref_ctx := (MegaContext RefJournal ScriptWorld EmptyExternalEnv EmptyExternalEnv).

#[export] Instance reference_interpreter :
  Interpreter RefJournal ScriptWorld EmptyExternalEnv EmptyExternalEnv unit := ref_interpreter.

#[export] Instance reference_interpreter_laws :
  InterpreterLaws (J := RefJournal) (W := ScriptWorld) (S := EmptyExternalEnv)
    (O := EmptyExternalEnv) (M := unit) same_stack.
Proof. by apply ref_interpreter_laws. Qed.

#[export] Instance reference_stable : StableDelegation RefJournal.
Proof. by split. Qed.

Definition ref_interp (stack : list Z) : Interp unit := mkInterp (gas_new 1000000) stack None 5 false tt.

(** The context of a frame at depth 2; [disabled] is where volatile access was disabled. *)
Definition ref_machine_ctx (spec : MegaSpecId) (disabled : option Z) : ref_ctx :=
  let ctx := new_with_context (mkOp (ref_tx 1 (Some 5)) 10 99 (mkRefJournal 2) None
                                (mkWorld 1 false [])) spec mkEmptyExternalEnv mkEmptyExternalEnv in
  with_tracker ctx (with_disable_depth (volatile_data_tracker ctx) disabled).
End reference.

Definition runs {A} (o : option A) : bool := match o with Some _ => true | None => false end.

Lemma runs_default {A} (d : A) o : runs o = true → o = Some (default d o).
Proof. by destruct o. Qed.

(** TIMESTAMP, which detains gas, then a CALL. *)
Lemma instructions_keep_frames_witness :
  let s := (ref_interp [100; 7; 0], ref_machine_ctx REX4 None) in
  let s' := ref_exec opcode.CALL (ref_exec opcode.TIMESTAMP s) in
  vt_compute_gas_limit (volatile_data_tracker (snd s')) = Some 20000000 ∧
  frames (snd s') = 1%nat ∧ depths (additional_limit (snd s')) = replicate 5 0%nat.
Proof.
  intros s s'. split; [vm_compute; reflexivity|].
  destruct (instructions_keep_frames 0 s s') as (_ & Hf & Hd & _).
  - vm_compute. intuition discriminate.
  - apply run_new. vm_compute. intuition discriminate.
  - etrans; [apply (ref_exec_steps opcode.TIMESTAMP)|apply (ref_exec_steps opcode.CALL)].
  - split; [rewrite Hf; vm_compute; reflexivity|exact Hd].
Defined.

(** Below the frame that disabled access BALANCE of the beneficiary reverts with the gas as it
    was, and so does under Rex6 a SELFDESTRUCT executed by the beneficiary; BALANCE of another
    account runs and records nothing. *)
Lemma disabled_access_not_recorded_witness :
  let ctx := ref_machine_ctx REX6 (Some 1) in
  let dying := mkInterp (gas_new 1000000) [98] None 99 false tt in
  let s' := ref_exec opcode.BALANCE (ref_interp [98], ctx) in
  (∃ ty j, instruction_table REX6 opcode.BALANCE (ref_interp [99], ctx) =
           Some (revert_disabled ty (ref_interp [99]), with_journal ctx j)) ∧
  (∃ ty j, instruction_table REX6 opcode.SELFDESTRUCT (dying, ctx) =
           Some (revert_disabled ty dying, with_journal ctx j)) ∧
  gas_remaining (it_gas (fst s')) = 999997 ∧
  volatile_data_tracker (snd s') = volatile_data_tracker ctx.
Proof.
  intros ctx dying s'. assert (Hd : volatile_access_disabled ctx = true) by reflexivity.
  assert (H4 : is_enabled (ctx_spec ctx) REX4 = true) by reflexivity.
  split; [exact (disabled_access_not_recorded opcode.BALANCE (ref_interp [99]) ctx H4 Hd)|].
  split; [exact (disabled_access_not_recorded opcode.SELFDESTRUCT dying ctx H4 Hd)|].
  split; [vm_compute; reflexivity|].
  pose proof (disabled_access_not_recorded opcode.BALANCE (ref_interp [98]) ctx H4 Hd) as H.
  replace (volatile_operand opcode.BALANCE (ref_interp [98]) ctx) with false in H by reflexivity.
  apply (H (fst s')). rewrite <- surjective_pairing. apply runs_default. vm_compute. reflexivity.
Defined.
