(* ===== verification/GasForwarding.v ===== *)
(** The 98/100 rule: how much gas a frame can hand to a child. *)

From S2P Require Import Prelude Spec Revm LimitCheck Interfaces AdditionalLimit Access.
From S2P Require Import DynamicGas SystemTx Context Execution ExecutionFacts Instructions.
From S2P Require Import InstructionSafety.

Section forwarding.
Context `{R : Revm} `{RL : !RevmLaws R} `{RS : RevmState} {J : Type} `{HJ : !JournalInspectTr J}.
Context {W : Type} `{HH : !OpHost J W} {S : Type} `{HS : SaltEnv S} {O : Type} `{HO : OracleEnv O}.
Context {M : Type} `{HI : !Interpreter J W S O M}.
Implicit Types it : Interp M.

(** The gas limit of the frame that is about to be opened. *)
Definition child_gas it : option Z :=
  match it_action it with
  | Some (PendingFrame (FrameInputCall c)) => Some (ci_gas_limit c)
  | Some (PendingFrame (FrameInputCreate c)) => Some (cr_gas_limit c)
  | _ => None
  end.

(** The stipend the interpreter added to it: only calls get one. *)
Definition child_stipend (has_transfer : bool) it : Z :=
  match it_action it with
  | Some (PendingFrame (FrameInputCall _)) => if has_transfer then CALL_STIPEND else 0
  | _ => 0
  end.

(** On 64-bit gas the 128-bit arithmetic is exact. *)
Lemma cap_exact remaining gas stipend :
  0 ≤ stipend ≤ gas → 0 ≤ remaining → gas ≤ u64_max → remaining + (gas - stipend) ≤ u64_max →
  let total := remaining + (gas - stipend) in
  let forwarded := Z.min (gas - stipend) (total - total * 2 / 100) in
  cap_forwarded_gas remaining gas stipend = (gas - stipend - forwarded, forwarded + stipend) ∧
  0 ≤ forwarded ≤ gas - stipend.
Proof.
  intros H1 H2 H3 H4 total forwarded.
  assert (Ht : 0 ≤ total) by (subst total; lia).
  assert (Hd : 0 ≤ total * 2 / 100 ≤ total) by
    (split; [apply Z.div_pos; lia|apply Z.div_le_upper_bound; lia]).
  assert (Hf : 0 ≤ forwarded ≤ gas - stipend) by (subst forwarded; lia). split; [|done].
  unfold cap_forwarded_gas, wsub128, wadd128, wrap64, two64. unfold u64_max in *.
  change (2 ^ 128) with 340282366920938463463374607431768211456.
  rewrite !(Z.mod_small (gas - stipend)) by lia. fold total.
  rewrite !(Z.mod_small total) by lia. rewrite !(Z.mod_small (total * 2)) by lia.
  rewrite !(Z.mod_small (total - _)) by lia. fold forwarded.
  by rewrite !Z.mod_small by (rewrite ?Z.mod_small; lia).
Qed.

Lemma cap_child_spec has_transfer it gas :
  child_gas it = Some gas →
  let stipend := child_stipend has_transfer it in
  let remaining := gas_remaining (it_gas it) in
  0 ≤ stipend ≤ gas → 0 ≤ remaining → gas ≤ u64_max → remaining + (gas - stipend) ≤ u64_max →
  let total := remaining + (gas - stipend) in
  let forwarded := Z.min (gas - stipend) (total - total * 2 / 100) in
  let it' := cap_child has_transfer it in
  child_gas it' = Some (forwarded + stipend) ∧ gas_remaining (it_gas it') = total - forwarded ∧
  gas_limit (it_gas it') = gas_limit (it_gas it).
Proof.
  intros Hg stipend remaining H1 H2 H3 H4 total forwarded it'.
  destruct (cap_exact remaining gas stipend H1 H2 H3 H4) as [Hc Hf].
  assert (He : gas_remaining (gas_erase_cost (it_gas it) (gas - stipend - forwarded)) =
                 total - forwarded ∧
               gas_limit (gas_erase_cost (it_gas it) (gas - stipend - forwarded)) =
                 gas_limit (it_gas it)).
  { destruct (gas_erase_cost_ok (it_gas it) (gas - stipend - forwarded)) as [-> ->]; try done;
      subst total forwarded remaining; lia. }
  subst it'. unfold child_gas in *. unfold stipend, child_stipend, remaining, cap_child in *.
  destruct (it_action it) as [[|[c|c|]]|] eqn:Ea; try done; injection Hg as ->; rewrite Hc; simpl; done.
Qed.
End forwarding.

(** C35: the 98/100 rule.  Around any handler that ends by opening a frame (the CALL family, CREATE and
    CREATE2), [wrap_gas_cap] leaves the child the gas the caller asked for, but never more
    than what remains of the caller's gas after keeping two hundredths of it, plus the
    untouched stipend of a value transfer; what is taken from the child goes back to the
    caller, so no gas is lost or created; and nothing else of the context changes. *)
Theorem forwarded_gas_capped `{R : Revm} `{!RevmLaws R} `{RS : RevmState} {J}
    `{!JournalInspectTr J} {W} `{!OpHost J W} {S} `{SaltEnv S} {O} `{OracleEnv O} {M}
    `{!Interpreter J W S O M} (wrapped : Interp M * MegaContext J W S O → panics (Interp M * MegaContext J W S O))
    (has_transfer_logic : Interp M → bool) it0 ctx0 it ctx gas :
  wrapped (it0, ctx0) = Some (it, ctx) → aborted it = false → child_gas it = Some gas →
  let stipend := child_stipend (has_transfer_logic it0) it in
  let total := gas_remaining (it_gas it) + (gas - stipend) in
  0 ≤ stipend ≤ gas → 0 ≤ gas_remaining (it_gas it) → gas ≤ u64_max → total ≤ u64_max →
  ∃ it' gas',
    wrap_gas_cap wrapped has_transfer_logic (it0, ctx0) = Some (it', ctx) ∧
    child_gas it' = Some gas' ∧
    gas' - stipend = Z.min (gas - stipend) (total - total * 2 / 100) ∧
    gas_remaining (it_gas it') + (gas' - stipend) = total ∧
    gas_limit (it_gas it') = gas_limit (it_gas it).
Proof.
  intros Hw Ha Hg stipend total H1 H2 H3 H4.
  destruct (cap_child_spec _ _ _ Hg H1 H2 H3 H4) as (Hc & Hr & Hl).
  eexists (cap_child _ it), _. split; [|split; [exact Hc|]].
  - unfold wrap_gas_cap, run_inner_instruction_or_abort. simpl. rewrite Hw. simpl. by rewrite Ha.
  - subst total stipend. rewrite Hr. split; [lia|]. split; [lia|exact Hl].
Qed.

(** An interpreter about to open a value-transferring call. *)
Definition ref_opening (gas remaining : Z) : Interp unit :=
  set_action (with_gas (ref_interp [100; 7; 1]) (gas_new remaining)) (PendingFrame (FrameInputCall
    (mkCallInputs gas 7 5 SchemeCall true (0, 0) None (InputBytes []) 1))).

(** A CALL that asks for half of a million gas gets it; one that asks for everything gets
    98 hundredths. *)
Lemma forwarded_gas_capped_witness :
  let ctx := ref_machine_ctx REX4 None in
  let forwarded gas remaining :=
    wrap_gas_cap (λ s, Some (ref_opening gas remaining, snd s)) check_call_has_transfer
      (ref_interp [100; 7; 1], ctx) in
  (∃ it' gas', forwarded 502300 500000 = Some (it', ctx) ∧ child_gas it' = Some gas' ∧
     gas' - 2300 = 500000 ∧ gas_remaining (it_gas it') + (gas' - 2300) = 1000000 ∧
     gas_limit (it_gas it') = 500000) ∧
  (∃ it' gas', forwarded 1002300 0 = Some (it', ctx) ∧ child_gas it' = Some gas' ∧
     gas' - 2300 = 980000 ∧ gas_remaining (it_gas it') + (gas' - 2300) = 1000000 ∧
     gas_limit (it_gas it') = 0).
Proof.
  intros ctx forwarded. split.
  - destruct (forwarded_gas_capped (λ s, Some (ref_opening 502300 500000, snd s))
      check_call_has_transfer (ref_interp [100; 7; 1]) ctx (ref_opening 502300 500000) ctx 502300)
      as (it' & gas' & H1 & H2 & H3 & H4 & H5); try done.
    exists it', gas'. by split_and!.
  - destruct (forwarded_gas_capped (λ s, Some (ref_opening 1002300 0, snd s))
      check_call_has_transfer (ref_interp [100; 7; 1]) ctx (ref_opening 1002300 0) ctx 1002300)
      as (it' & gas' & H1 & H2 & H3 & H4 & H5); try done.
    exists it', gas'. by split_and!.
Defined.
