(* ===== verification/KeylessError.v ===== *)
(** The errors of a keyless deployment and their ABI form: [sandbox/error.rs].

    The Solidity errors and their codecs are generated from [IKeylessDeploy.sol]; they are the
    class [SolErrors], one codec per error name. *)

From S2P Require Import Prelude Spec Revm LimitCheck.

(** [KeylessDeployError]; [Op] is op-revm's [OpHaltReason]. *)
Inductive KeylessDeployError (Op : Type) : Type :=
  | MalformedEncoding
  | NotContractCreation
  | NotPreEIP155
  | NonZeroTxNonce (tx_nonce : Z)
  | NoEtherTransfer
  | InvalidSignature
  | InsufficientBalance
  | ContractAlreadyExists
  | SignerNonceTooHigh (signer_nonce : Z)
  | ExecutionReverted (gas_used : Z) (output : Bytes)
  | ExecutionHalted (gas_used : Z) (reason : MegaHaltReason Op)
  | ParentBudgetExceeded (kind : LimitKind) (limit used : Z)
  | EmptyCodeDeployed (gas_used : Z)
  | NoContractCreated
  | AddressMismatch
  | GasLimitTooLow (tx_gas_limit provided_gas_limit : Z)
  | InsufficientComputeGas (limit used : Z)
  | InitCodeTooLarge (size max : Z)
  | SignerHasCode
  | InternalError
  | InvalidTransaction
  | NotIntercepted.
Arguments MalformedEncoding {Op}.
Arguments NotContractCreation {Op}.
Arguments NotPreEIP155 {Op}.
Arguments NonZeroTxNonce {Op} _.
Arguments NoEtherTransfer {Op}.
Arguments InvalidSignature {Op}.
Arguments InsufficientBalance {Op}.
Arguments ContractAlreadyExists {Op}.
Arguments SignerNonceTooHigh {Op} _.
Arguments ExecutionReverted {Op} _ _.
Arguments ExecutionHalted {Op} _ _.
Arguments ParentBudgetExceeded {Op} _ _ _.
Arguments EmptyCodeDeployed {Op} _.
Arguments NoContractCreated {Op}.
Arguments AddressMismatch {Op}.
Arguments GasLimitTooLow {Op} _ _.
Arguments InsufficientComputeGas {Op} _ _.
Arguments InitCodeTooLarge {Op} _ _.
Arguments SignerHasCode {Op}.
Arguments InternalError {Op}.
Arguments InvalidTransaction {Op}.
Arguments NotIntercepted {Op}.

(** The names and the argument types of the Solidity errors. *)
Module IKeylessDeploy.
Inductive name : Type :=
  | MalformedEncoding | NotContractCreation | NotPreEIP155 | NonZeroTxNonce | NoEtherTransfer
  | InvalidSignature | InsufficientBalance | ContractAlreadyExists | SignerNonceTooHigh
  | ExecutionReverted | ExecutionHalted | ParentBudgetExceeded | EmptyCodeDeployed
  | NoContractCreated | AddressMismatch | GasLimitTooLow | InsufficientComputeGas
  | InitCodeTooLarge | SignerHasCode | InternalError | InvalidTransaction | NotIntercepted.

Definition args (n : name) : Type :=
  match n with
  | NonZeroTxNonce | SignerNonceTooHigh | ExecutionHalted | EmptyCodeDeployed => Z
  | ExecutionReverted => Z * Bytes
  | ParentBudgetExceeded => Z * Z * Z
  | GasLimitTooLow | InsufficientComputeGas | InitCodeTooLarge => Z * Z
  | _ => unit
  end.

(** The values the Rust types of the arguments hold. *)
Definition in_range (n : name) : args n → Prop :=
  match n return args n → Prop with
  | NonZeroTxNonce | SignerNonceTooHigh | ExecutionHalted | EmptyCodeDeployed => in_u64
  | ExecutionReverted => λ a, in_u64 (fst a)
  | ParentBudgetExceeded => λ a, 0 ≤ fst (fst a) < 256 ∧ in_u64 (snd (fst a)) ∧ in_u64 (snd a)
  | GasLimitTooLow | InsufficientComputeGas | InitCodeTooLarge =>
      λ a, in_u64 (fst a) ∧ in_u64 (snd a)
  | _ => λ _, True
  end.
End IKeylessDeploy.

(** The generated codecs. *)
Class SolErrors := {
  selector : IKeylessDeploy.name → Bytes;
  abi_encode n : IKeylessDeploy.args n → Bytes;
  abi_decode n : Bytes → option (IKeylessDeploy.args n);
}.

(** The Solidity ABI: the data of an error starts with its four-byte selector, selectors
    differ, and decoding inverts encoding. *)
Class SolErrorsLaws `{SE : SolErrors} := {
  selector_inj n m : selector n = selector m → n = m;
  abi_encode_selector n a : take 4 (abi_encode n a) = selector n;
  abi_decode_selector n b a : abi_decode n b = Some a → take 4 b = selector n;
  abi_decode_encode n a : IKeylessDeploy.in_range n a → abi_decode n (abi_encode n a) = Some a;
}.

Section codec.
Context {Op : Type} (basic_out_of_gas : Op) `{SE : SolErrors}.
Local Notation error := (KeylessDeployError Op).

Definition encode_error_result (e : error) : Bytes :=
  match e with
  | MalformedEncoding => abi_encode IKeylessDeploy.MalformedEncoding tt
  | NotContractCreation => abi_encode IKeylessDeploy.NotContractCreation tt
  | NotPreEIP155 => abi_encode IKeylessDeploy.NotPreEIP155 tt
  | NonZeroTxNonce tx_nonce => abi_encode IKeylessDeploy.NonZeroTxNonce tx_nonce
  | NoEtherTransfer => abi_encode IKeylessDeploy.NoEtherTransfer tt
  | InvalidSignature => abi_encode IKeylessDeploy.InvalidSignature tt
  | InsufficientBalance => abi_encode IKeylessDeploy.InsufficientBalance tt
  | ContractAlreadyExists => abi_encode IKeylessDeploy.ContractAlreadyExists tt
  | SignerNonceTooHigh signer_nonce => abi_encode IKeylessDeploy.SignerNonceTooHigh signer_nonce
  | ExecutionReverted gas_used output =>
      abi_encode IKeylessDeploy.ExecutionReverted (gas_used, output)
  | ExecutionHalted gas_used _ => abi_encode IKeylessDeploy.ExecutionHalted gas_used
  | ParentBudgetExceeded kind limit used =>
      abi_encode IKeylessDeploy.ParentBudgetExceeded (LimitCheck.as_u8 kind, limit, used)
  | EmptyCodeDeployed gas_used => abi_encode IKeylessDeploy.EmptyCodeDeployed gas_used
  | NoContractCreated => abi_encode IKeylessDeploy.NoContractCreated tt
  | AddressMismatch => abi_encode IKeylessDeploy.AddressMismatch tt
  | GasLimitTooLow tx_gas_limit provided_gas_limit =>
      abi_encode IKeylessDeploy.GasLimitTooLow (tx_gas_limit, provided_gas_limit)
  | InsufficientComputeGas limit used =>
      abi_encode IKeylessDeploy.InsufficientComputeGas (limit, used)
  | InitCodeTooLarge size max => abi_encode IKeylessDeploy.InitCodeTooLarge (size, max)
  | SignerHasCode => abi_encode IKeylessDeploy.SignerHasCode tt
  | InternalError => abi_encode IKeylessDeploy.InternalError tt
  | InvalidTransaction => abi_encode IKeylessDeploy.InvalidTransaction tt
  | NotIntercepted => abi_encode IKeylessDeploy.NotIntercepted tt
  end.

(** [if let Ok(e) = N::abi_decode(output) { return f(e) }], followed by [k]. *)
Definition if_decodes (n : IKeylessDeploy.name) (output : Bytes)
    (f : IKeylessDeploy.args n → option error) (k : option error) : option error :=
  match abi_decode n output with Some a => f a | None => k end.

Definition decode_error_result (output : Bytes) : option error :=
  if_decodes IKeylessDeploy.NoEtherTransfer output (λ _, Some NoEtherTransfer) $
  if_decodes IKeylessDeploy.MalformedEncoding output (λ _, Some MalformedEncoding) $
  if_decodes IKeylessDeploy.NotContractCreation output (λ _, Some NotContractCreation) $
  if_decodes IKeylessDeploy.NotPreEIP155 output (λ _, Some NotPreEIP155) $
  if_decodes IKeylessDeploy.NonZeroTxNonce output (λ e, Some (NonZeroTxNonce e)) $
  if_decodes IKeylessDeploy.InvalidSignature output (λ _, Some InvalidSignature) $
  if_decodes IKeylessDeploy.InsufficientBalance output (λ _, Some InsufficientBalance) $
  if_decodes IKeylessDeploy.ContractAlreadyExists output (λ _, Some ContractAlreadyExists) $
  if_decodes IKeylessDeploy.SignerNonceTooHigh output (λ e, Some (SignerNonceTooHigh e)) $
  if_decodes IKeylessDeploy.ExecutionReverted output
    (λ e, Some (ExecutionReverted (fst e) (snd e))) $
  if_decodes IKeylessDeploy.ExecutionHalted output
    (λ e, Some (ExecutionHalted e (BaseHalt basic_out_of_gas))) $
  if_decodes IKeylessDeploy.ParentBudgetExceeded output
    (λ e, (λ kind, ParentBudgetExceeded kind (snd (fst e)) (snd e)) <$>
          LimitCheck.from_u8 (fst (fst e))) $
  if_decodes IKeylessDeploy.EmptyCodeDeployed output (λ e, Some (EmptyCodeDeployed e)) $
  if_decodes IKeylessDeploy.NoContractCreated output (λ _, Some NoContractCreated) $
  if_decodes IKeylessDeploy.AddressMismatch output (λ _, Some AddressMismatch) $
  if_decodes IKeylessDeploy.GasLimitTooLow output (λ e, Some (GasLimitTooLow (fst e) (snd e))) $
  if_decodes IKeylessDeploy.InitCodeTooLarge output
    (λ e, Some (InitCodeTooLarge (fst e) (snd e))) $
  if_decodes IKeylessDeploy.SignerHasCode output (λ _, Some SignerHasCode) $
  if_decodes IKeylessDeploy.InvalidTransaction output (λ _, Some InvalidTransaction) $
  if_decodes IKeylessDeploy.InternalError output (λ _, Some InternalError) $
  if_decodes IKeylessDeploy.NotIntercepted output (λ _, Some NotIntercepted) None.

(** The values the fields of an error can have. *)
Definition error_in_range (e : error) : Prop :=
  match e with
  | NonZeroTxNonce n | SignerNonceTooHigh n | EmptyCodeDeployed n | ExecutionHalted n _
  | ExecutionReverted n _ => in_u64 n
  | ParentBudgetExceeded _ a b | GasLimitTooLow a b | InsufficientComputeGas a b
  | InitCodeTooLarge a b => in_u64 a ∧ in_u64 b
  | _ => True
  end.

Context `{SL : !SolErrorsLaws}.

(** The data of one error is not another error. *)
Lemma if_decodes_other n m a f k : n ≠ m → if_decodes m (abi_encode n a) f k = k.
Proof.
  intros Hn. unfold if_decodes. destruct (abi_decode m (abi_encode n a)) eqn:E; [|done].
  apply abi_decode_selector in E. rewrite abi_encode_selector in E. by apply selector_inj in E.
Qed.

Lemma if_decodes_self n a f k :
  IKeylessDeploy.in_range n a → if_decodes n (abi_encode n a) f k = f a.
Proof. intros H. unfold if_decodes. by rewrite abi_decode_encode. Qed.
End codec.

(** Skips the decoders of the other errors and takes the error's own. *)
Ltac decode_error := repeat (rewrite if_decodes_other by done); rewrite ?if_decodes_self by done.

(** C37: the errors survive the trip through the ABI, with one exception.  Decoding the encoded
    form of an error gives the error back, except that the reason of a halt is replaced by the
    documented placeholder, and except for [InsufficientComputeGas]: [decode_error_result] has
    no arm for it, so what the deployment reports for a compute gas limit that does not cover
    its overhead cannot be decoded. *)
Theorem error_roundtrip {Op} (basic_out_of_gas : Op) `{SE : SolErrors} `{!SolErrorsLaws}
    (e : KeylessDeployError Op) :
  error_in_range e →
  decode_error_result basic_out_of_gas (encode_error_result e) =
  match e with
  | ExecutionHalted gas_used _ => Some (ExecutionHalted gas_used (BaseHalt basic_out_of_gas))
  | InsufficientComputeGas _ _ => None
  | _ => Some e
  end.
Proof.
  intros He. unfold decode_error_result. destruct e; cbn [encode_error_result]; decode_error; try done.
  rewrite if_decodes_self by (destruct He; cbn; split_and!; [by destruct kind..|done|done]). cbn [fst snd].
  by rewrite LimitCheck.from_u8_as_u8.
Qed.

(** * A reference codec

    The index of the error as its selector, then the arguments. *)

Module reference_sol.
Import IKeylessDeploy.

Definition index (n : name) : Z :=
  match n with
  | MalformedEncoding => 0 | NotContractCreation => 1 | NotPreEIP155 => 2 | NonZeroTxNonce => 3
  | NoEtherTransfer => 4 | InvalidSignature => 5 | InsufficientBalance => 6
  | ContractAlreadyExists => 7 | SignerNonceTooHigh => 8 | ExecutionReverted => 9
  | ExecutionHalted => 10 | ParentBudgetExceeded => 11 | EmptyCodeDeployed => 12
  | NoContractCreated => 13 | AddressMismatch => 14 | GasLimitTooLow => 15
  | InsufficientComputeGas => 16 | InitCodeTooLarge => 17 | SignerHasCode => 18
  | InternalError => 19 | InvalidTransaction => 20 | NotIntercepted => 21
  end.

Definition args_list (n : name) : args n → list Z :=
  match n return args n → list Z with
  | NonZeroTxNonce | SignerNonceTooHigh | ExecutionHalted | EmptyCodeDeployed => λ a, [a]
  | ExecutionReverted => λ a, fst a :: snd a
  | ParentBudgetExceeded => λ a, [fst (fst a); snd (fst a); snd a]
  | GasLimitTooLow | InsufficientComputeGas | InitCodeTooLarge => λ a, [fst a; snd a]
  | _ => λ _, []
  end.

Definition args_of_list (n : name) (l : list Z) : option (args n) :=
  match n return option (args n) with
  | NonZeroTxNonce | SignerNonceTooHigh | ExecutionHalted | EmptyCodeDeployed =>
      match l with [a] => Some a | _ => None end
  | ExecutionReverted => match l with a :: b => Some (a, b) | _ => None end
  | ParentBudgetExceeded => match l with [a; b; c] => Some (a, b, c) | _ => None end
  | GasLimitTooLow | InsufficientComputeGas | InitCodeTooLarge =>
      match l with [a; b] => Some (a, b) | _ => None end
  | _ => match l with [] => Some tt | _ => None end
  end.

Definition ref_selector (n : name) : list Z := [index n; 0; 0; 0].
End reference_sol.

#[export] Instance reference_sol_errors : SolErrors := {|
  selector := reference_sol.ref_selector;
  abi_encode n a := reference_sol.ref_selector n ++ reference_sol.args_list n a;
  abi_decode n b :=
    if bool_decide (take 4 b = reference_sol.ref_selector n)
    then reference_sol.args_of_list n (drop 4 b) else None;
|}.

#[export] Instance reference_sol_laws : SolErrorsLaws.
Proof.
  split; simpl.
  - intros n m [= H]. destruct n, m; done.
  - done.
  - intros n b a. by case_bool_decide.
  - intros n a _. rewrite bool_decide_true by done. simpl.
    destruct n; simpl in *; repeat match goal with x : (_ * _)%type |- _ => destruct x end;
      simpl; try done; by destruct a.
Qed.

(** A revert with its output comes back; the missing arm loses the compute gas error. *)
Lemma error_roundtrip_witness :
  decode_error_result 0 (encode_error_result (Op := Z) (ExecutionReverted 21000 [1; 2; 3])) =
    Some (ExecutionReverted 21000 [1; 2; 3]) ∧
  decode_error_result 0 (encode_error_result (Op := Z) (InsufficientComputeGas 100000 250000)) = None.
Proof.
  split.
  - apply (error_roundtrip 0 (ExecutionReverted 21000 [1; 2; 3])). vm_compute. intuition discriminate.
  - apply (error_roundtrip 0 (InsufficientComputeGas 100000 250000)). vm_compute. intuition discriminate.
Defined.
