(* ===== verification/StateMerge.v ===== *)
(** Applying the state of a sandbox to the parent journal: [sandbox/state_merge.rs].

    The journal is the one of [Journal], with the entries recorded since the transaction
    started, newest first.  The upstream operations on it (touching and creating accounts,
    setting code, the checkpoints) are the class [JournalOps]. *)

From S2P Require Import Prelude Spec Revm Interfaces Journal EvmState KeylessError.

(** revm's [JournalEntry], the entries of this code and of the operations it calls. *)
Inductive JournalEntry : Type :=
  | BalanceChange (address : Address) (old_balance : U256)
  | NonceChange (address : Address)
  | AccountCreated (address : Address) (is_created_globally : bool)
  | StorageChanged (address : Address) (key : U256) (had_value : U256)
  | CodeChange (address : Address)
  | AccountTouched (address : Address).

Record MergeJournal : Type := mkMergeJournal {
  mj_journal : Journal;
  mj_entries : list JournalEntry;
}.

Definition mj_state (j : MergeJournal) : EvmState := jr_state (mj_journal j).
Definition push (e : JournalEntry) (j : MergeJournal) : MergeJournal :=
  mkMergeJournal (mj_journal j) (e :: mj_entries j).
Definition set_account (a : Address) (acc : Account) (j : MergeJournal) : MergeJournal :=
  mkMergeJournal (jr_insert a acc (mj_journal j)) (mj_entries j).

Class JournalOps := {
  mark_created_locally : Account → Account * bool;
  touch : Address → MergeJournal → MergeJournal;
  set_code_with_hash : Address → Bytecode → Z → MergeJournal → MergeJournal;
  (** [checkpoint] is the number of entries there are; a revert takes back the later ones. *)
  checkpoint_revert : nat → MergeJournal → MergeJournal;
  (** [Bytecode::is_empty]. *)
  bytecode_is_empty : Bytecode → bool;
}.

Definition with_balance (acc : Account) (b : U256) : Account :=
  mkAccount (mkAccountInfo b (nonce (acc_info acc)) (code_hash (acc_info acc)) (code (acc_info acc)))
    (acc_storage acc) (acc_status acc) (acc_transaction_id acc).
Definition with_nonce (acc : Account) (n : Z) : Account :=
  mkAccount (mkAccountInfo (balance (acc_info acc)) n (code_hash (acc_info acc)) (code (acc_info acc)))
    (acc_storage acc) (acc_status acc) (acc_transaction_id acc).
Definition with_present (s : EvmStorageSlot) (v : U256) : EvmStorageSlot :=
  mkSlot (slot_original s) v (slot_transaction_id s) (slot_is_cold s).

Section merge.
Context `{RS : RevmState} {E : Type} (db : Database E) {Op : Type} `{JO : JournalOps}.
Local Notation error := (KeylessDeployError Op).
Implicit Types (j : MergeJournal) (a : Address).

(** A step that may panic or fail; the journal is kept when it fails. *)
Abbreviation step := (panics (MergeJournal * result unit error)).

(** Sequencing after a failure-free prefix. *)
Definition and_then (m : step) (k : MergeJournal → step) : step :=
  '(j, r) ← m; match r with Ok _ => k j | Err e => Some (j, Err e) end.

Definition lift (m : panics MergeJournal) : step := j ← m; Some (j, Ok tt).

Definition ensure_sandbox_create_can_merge (parent_nonce parent_code_hash : Z) : result unit error :=
  if negb (parent_nonce =? 0) || negb (parent_code_hash =? KECCAK_EMPTY) then Err InternalError
  else Ok tt.

Definition mark_account_created_for_sandbox_merge a j : panics MergeJournal :=
  acc ← mj_state j !! a; (* unwrap *)
  let '(acc, is_created_globally) := mark_created_locally acc in
  Some (push (AccountCreated a is_created_globally) (set_account a acc j)).

Definition zero_parent_storage_slot a j (key : Z) : panics MergeJournal :=
  let had_value := default 0 (slot_present <$> (acc ← mj_state j !! a; acc_storage acc !! key)) in
  if had_value =? 0 then Some j
  else
    acc ← mj_state j !! a; (* unwrap *)
    slot ← acc_storage acc !! key; (* unwrap *)
    Some (push (StorageChanged a key had_value)
            (set_account a (set_slot acc key (with_present slot 0)) j)).

(** A loop over keys or slots. *)
Fixpoint for_each {A} (body : MergeJournal → A → panics MergeJournal) (l : list A) j
    : panics MergeJournal :=
  match l with [] => Some j | x :: l => j ← body j x; for_each body l j end.

Definition storage_keys (acc : Account) : list Z := (map_to_list (acc_storage acc)).*1.

Definition zero_parent_storage_absent_from_sandbox a (sandbox_account : Account) j
    : panics MergeJournal :=
  acc ← mj_state j !! a; (* unwrap *)
  for_each (λ j key,
    if bool_decide (is_Some (acc_storage sandbox_account !! key)) then Some j
    else zero_parent_storage_slot a j key) (storage_keys acc) j.

Definition apply_sandbox_created_selfdestruct a (sandbox_account : Account) j : step :=
  if negb (is_created sandbox_account) then Some (j, Err InternalError)
  else
    parent ← mj_state j !! a; (* unwrap *)
    match ensure_sandbox_create_can_merge (nonce (acc_info parent)) (code_hash (acc_info parent)) with
    | Err e => Some (j, Err e)
    | Ok _ =>
        j ← mark_account_created_for_sandbox_merge a j;
        let j := touch a j in
        acc ← mj_state j !! a; (* unwrap *)
        let old_balance := balance (acc_info acc) in
        let j :=
          if negb (old_balance =? 0)
          then push (BalanceChange a old_balance) (set_account a (with_balance acc 0) j) else j in
        acc ← mj_state j !! a; (* unwrap *)
        lift (for_each (zero_parent_storage_slot a) (storage_keys acc) j)
    end.

(** * One account *)

Definition merge_created a (sandbox_account : Account) (parent : AccountInfo) j : step :=
  if is_created sandbox_account then
    match ensure_sandbox_create_can_merge (nonce parent) (code_hash parent) with
    | Err e => Some (j, Err e)
    | Ok _ =>
        lift (j ← mark_account_created_for_sandbox_merge a j;
              zero_parent_storage_absent_from_sandbox a sandbox_account j)
    end
  else Some (j, Ok tt).

Definition merge_balance a (sandbox parent : AccountInfo) j : panics MergeJournal :=
  if negb (balance sandbox =? balance parent) then
    acc ← mj_state j !! a; (* unwrap *)
    Some (push (BalanceChange a (balance parent)) (set_account a (with_balance acc (balance sandbox)) j))
  else Some j.

Definition merge_nonce a (sandbox parent : AccountInfo) j : step :=
  if nonce sandbox <? nonce parent then Some (j, Err InternalError)
  else
    let nonce_diff := nonce sandbox -w nonce parent in
    let j := Nat.iter (Z.to_nat nonce_diff) (push (NonceChange a)) j in
    if 0 <? nonce_diff then
      acc ← mj_state j !! a; (* unwrap *)
      Some (set_account a (with_nonce acc (nonce sandbox)) j, Ok tt)
    else Some (j, Ok tt).

Definition merge_code a (sandbox parent : AccountInfo) j : step :=
  if code_hash sandbox =? code_hash parent then
    acc ← mj_state j !! a; (* unwrap *)
    let parent_code_missing :=
      match code (acc_info acc) with None => true | Some c => bytecode_is_empty c end in
    if negb (code_hash parent =? KECCAK_EMPTY) && parent_code_missing then
      match code sandbox with
      | Some c => Some (set_account a (set_code acc c) j, Ok tt)
      | None => Some (j, Ok tt)
      end
    else Some (j, Ok tt)
  else if negb (code_hash parent =? KECCAK_EMPTY) then Some (j, Err InternalError)
  else
    match code sandbox with
    | None => Some (j, Err InternalError)
    | Some c => Some (set_code_with_hash a c (code_hash sandbox) j, Ok tt)
    end.

Definition merge_sandbox_slot a j (kv : Z * EvmStorageSlot) : panics MergeJournal :=
  let '(key, sandbox_slot) := kv in
  let parent_slot := acc ← mj_state j !! a; acc_storage acc !! key in
  let had_value := match parent_slot with
                   | Some s => slot_present s | None => slot_original sandbox_slot end in
  let j :=
    if negb (slot_present sandbox_slot =? had_value) then push (StorageChanged a key had_value) j
    else j in
  acc ← mj_state j !! a; (* unwrap *)
  Some (set_account a (set_slot acc key
    match acc_storage acc !! key with
    | Some s => with_present s (slot_present sandbox_slot)
    | None => slot_mark_cold sandbox_slot
    end) j).

Definition inspect_for_merge a j : MergeJournal * result unit error :=
  let '(i, r) := inspect_account db a false (mj_journal j) in
  (mkMergeJournal i (mj_entries j), match r with Ok _ => Ok tt | Err _ => Err InternalError end).

(** The body of the loop over the sandbox's accounts. *)
Definition merge_sandbox_account (kv : Z * Account) j : step :=
  let '(a, sandbox_account) := kv in
  and_then (Some (inspect_for_merge a j)) (λ j,
    if SelfDestructed (acc_status sandbox_account)
    then apply_sandbox_created_selfdestruct a sandbox_account j
    else
      acc ← mj_state j !! a; (* unwrap *)
      let parent := acc_info acc in
      let sandbox := acc_info sandbox_account in
      and_then (merge_created a sandbox_account parent j) (λ j,
      and_then (lift (merge_balance a sandbox parent j)) (λ j,
      and_then (merge_nonce a sandbox parent j) (λ j,
      and_then (merge_code a sandbox parent j) (λ j,
      let j := if Touched (acc_status sandbox_account) then touch a j else j in
      lift (for_each (merge_sandbox_slot a) (map_to_list (acc_storage sandbox_account)) j)))))).

Fixpoint merge_sandbox_accounts (l : list (Z * Account)) j : step :=
  match l with
  | [] => Some (j, Ok tt)
  | kv :: l => and_then (merge_sandbox_account kv j) (merge_sandbox_accounts l)
  end.

Definition apply_sandbox_state_journaled_inner (sandbox_state : EvmState) j : step :=
  merge_sandbox_accounts (map_to_list sandbox_state) j.

Definition apply_sandbox_state_journaled (sandbox_state : EvmState) j : step :=
  let checkpoint := length (mj_entries j) in
  '(j, r) ← apply_sandbox_state_journaled_inner sandbox_state j;
  match r with
  | Ok _ => Some (j, Ok tt)
  | Err e => Some (checkpoint_revert checkpoint j, Err e)
  end.

Definition apply_sandbox_state_legacy (sandbox_state : EvmState) j : panics MergeJournal :=
  s ← merge_evm_state_optional_status (mj_state j) sandbox_state false;
  Some (mkMergeJournal (mkJournal s (jr_transaction_id (mj_journal j))) (mj_entries j)).

Definition apply_sandbox_state (spec : MegaSpecId) (sandbox_state : EvmState) j : step :=
  if is_enabled spec REX5 then apply_sandbox_state_journaled sandbox_state j
  else lift (apply_sandbox_state_legacy sandbox_state j).
End merge.
