(* ===== verification/StateMergeFacts.v ===== *)
(** The journaled merge of a sandbox is exact, total and revertible. *)

From S2P Require Import Prelude Spec Revm Interfaces Journal JournalFacts EvmState.
From S2P Require Import KeylessError StateMerge.

(** * What a transaction sees of an account *)

Record View : Type := mkView {
  v_balance : U256;
  v_nonce : Z;
  v_code_hash : Z;
  v_slots : gmap Z U256;
}.

Definition info_view' (i : AccountInfo) (m : gmap Z U256) : View :=
  mkView (balance i) (nonce i) (code_hash i) m.
Definition view (acc : Account) : View := info_view' (acc_info acc) (slot_present <$> acc_storage acc).

Definition with_slots (f : gmap Z U256 → gmap Z U256) (v : View) : View :=
  mkView (v_balance v) (v_nonce v) (v_code_hash v) (f (v_slots v)).

(** [v'] shows at least what [v] shows, with the same values. *)
Definition restores (v v' : View) : Prop :=
  v_balance v' = v_balance v ∧ v_nonce v' = v_nonce v ∧ v_code_hash v' = v_code_hash v ∧
  v_slots v ⊆ v_slots v'.

#[export] Instance restores_preorder : PreOrder restores.
Proof.
  split; [by intros v; split_and!|]. intros x y z (?&?&?&?) (?&?&?&?).
  split_and!; [congruence..|by transitivity (v_slots y)].
Qed.

Section undo.
Context `{RS : RevmState}.

Definition entry_address (e : JournalEntry) : Address :=
  match e with
  | BalanceChange a _ | NonceChange a | AccountCreated a _ | StorageChanged a _ _
  | CodeChange a | AccountTouched a => a
  end.

(** What reverting an entry does to the account it names. *)
Definition undo_view (e : JournalEntry) (v : View) : View :=
  match e with
  | BalanceChange _ old => mkView old (v_nonce v) (v_code_hash v) (v_slots v)
  | NonceChange _ => mkView (v_balance v) (v_nonce v - 1) (v_code_hash v) (v_slots v)
  | AccountCreated _ _ => mkView (v_balance v) 0 (v_code_hash v) (v_slots v)
  | StorageChanged _ key had =>
      mkView (v_balance v) (v_nonce v) (v_code_hash v) (alter (λ _, had) key (v_slots v))
  | CodeChange _ => mkView (v_balance v) (v_nonce v) KECCAK_EMPTY (v_slots v)
  | AccountTouched _ => v
  end.

(** Reverting entries, the newest first, as account [a] sees it. *)
Definition undo_at (a : Address) (es : list JournalEntry) (v : View) : View :=
  foldl (λ v e, if entry_address e =? a then undo_view e v else v) v es.

Lemma undo_at_app a es es' v : undo_at a (es ++ es') v = undo_at a es' (undo_at a es v).
Proof. apply foldl_app. Qed.

Lemma undo_at_other a es v : Forall (λ e, entry_address e ≠ a) es → undo_at a es v = v.
Proof.
  revert v. induction es as [|e es IH]; intros v H; [done|]. inversion H as [|?? He Hes]; subst.
  simpl. rewrite (proj2 (Z.eqb_neq _ _) He). by apply IH.
Qed.

Lemma undo_at_one a e v : entry_address e = a → undo_at a [e] v = undo_view e v.
Proof. intros <-. unfold undo_at. simpl. by rewrite Z.eqb_refl. Qed.

Lemma undo_view_mono e v v' : restores v v' → restores (undo_view e v) (undo_view e v').
Proof.
  intros (H1 & H2 & H3 & H4). destruct e; split_and!; simpl; try done; try congruence.
  apply map_subseteq_spec. intros k x Hk. destruct (decide (k = key)) as [->|Hn].
  - rewrite lookup_alter_eq in *. apply fmap_Some in Hk as (y & Hy & ->).
    by rewrite (lookup_weaken _ _ _ _ Hy H4).
  - rewrite lookup_alter_ne in * by done. by eapply lookup_weaken.
Qed.

Lemma undo_at_mono a es v v' : restores v v' → restores (undo_at a es v) (undo_at a es v').
Proof.
  revert v v'. induction es as [|e es IH]; intros v v' H; [done|]. simpl. apply IH.
  case_match; [by apply undo_view_mono|done].
Qed.
End undo.
#[global] Arguments undo_at : simpl never.

(** * The upstream journal *)

(** The documented behaviour of revm's journal: touching and creating an account leave what the
    transaction sees of it alone, every change of code or status is recorded by an entry, and a
    revert takes back the entries after the checkpoint.  Coldness is not touched. *)
Class JournalOpsLaws `{RS : RevmState} `{JO : JournalOps} := {
  mark_created_view acc : view (fst (mark_created_locally acc)) = view acc;
  mark_created_cold acc :
    Cold (acc_status (fst (mark_created_locally acc))) = Cold (acc_status acc);
  touch_law a j acc :
    mj_state j !! a = Some acc →
    ∃ acc' es, touch a j = mkMergeJournal (jr_insert a acc' (mj_journal j)) (es ++ mj_entries j) ∧
      view acc' = view acc ∧ Cold (acc_status acc') = Cold (acc_status acc) ∧
      Forall (eq (AccountTouched a)) es;
  set_code_law a c h j acc :
    mj_state j !! a = Some acc →
    ∃ acc' es,
      set_code_with_hash a c h j =
        mkMergeJournal (jr_insert a acc' (mj_journal j)) (es ++ mj_entries j) ∧
      view acc' = mkView (balance (acc_info acc)) (nonce (acc_info acc)) h
                    (slot_present <$> acc_storage acc) ∧
      Cold (acc_status acc') = Cold (acc_status acc) ∧
      Forall (λ e, e = CodeChange a ∨ e = AccountTouched a) es ∧ CodeChange a ∈ es;
  checkpoint_revert_view n j a :
    view <$> mj_state (checkpoint_revert n j) !! a =
    undo_at a (take (length (mj_entries j) - n) (mj_entries j)) <$> (view <$> mj_state j !! a);
  checkpoint_revert_entries n j :
    mj_entries (checkpoint_revert n j) = drop (length (mj_entries j) - n) (mj_entries j);
}.

Section merge_facts.
Context `{RS : RevmState} {RSL : RevmStateLaws RS} {E : Type} (db : Database E) {Op : Type}.
Context `{JO : JournalOps} {JL : JournalOpsLaws}.
Implicit Types (j : MergeJournal) (a : Address) (acc : Account) (v : View).

(** * Revertible changes *)

(** From [j] to [j'] entries were recorded whose revert restores every account of [j];
    coldness was not touched. *)
Definition covered j j' : Prop :=
  ∃ es, mj_entries j' = es ++ mj_entries j ∧
    ∀ a acc, mj_state j !! a = Some acc →
      ∃ acc', mj_state j' !! a = Some acc' ∧
        restores (view acc) (undo_at a es (view acc')) ∧
        Cold (acc_status acc') = Cold (acc_status acc).

#[export] Instance covered_preorder : PreOrder covered.
Proof.
  split.
  - intros j. exists []. split; [done|]. intros a acc H. exists acc. done.
  - intros j1 j2 j3 (es1 & E1 & H1) (es2 & E2 & H2). exists (es2 ++ es1).
    split; [by rewrite E2, E1, app_assoc|]. intros a acc H.
    destruct (H1 a acc H) as (acc2 & Ha2 & R2 & C2). destruct (H2 a acc2 Ha2) as (acc3 & Ha3 & R3 & C3).
    exists acc3. split; [done|]. split; [|congruence]. rewrite undo_at_app.
    etrans; [exact R2|]. by apply undo_at_mono.
Qed.

(** [changes a v v' j j']: only account [a] changed, from view [v] to [v'], revertibly. *)
Definition changes a v v' j j' : Prop :=
  covered j j' ∧ (∀ b, b ≠ a → mj_state j' !! b = mj_state j !! b) ∧
  (∃ acc, mj_state j !! a = Some acc ∧ view acc = v) ∧
  (∃ acc', mj_state j' !! a = Some acc' ∧ view acc' = v').

Lemma changes_refl a acc j : mj_state j !! a = Some acc → changes a (view acc) (view acc) j j.
Proof. intros H. split_and!; [done|done|by exists acc..]. Qed.

Lemma changes_trans a v1 v2 v3 j1 j2 j3 :
  changes a v1 v2 j1 j2 → changes a v2 v3 j2 j3 → changes a v1 v3 j1 j3.
Proof.
  intros (C1 & O1 & A1 & B1) (C2 & O2 & A2 & B2). split_and!; [by etrans| |done|done].
  intros b Hb. by rewrite O2, O1.
Qed.

(** One account replaced, with entries that name it. *)
Lemma changes_step a acc acc' es j j' :
  mj_state j !! a = Some acc →
  mj_state j' = <[a := acc']> (mj_state j) → mj_entries j' = es ++ mj_entries j →
  Forall (λ e, entry_address e = a) es →
  restores (view acc) (undo_at a es (view acc')) →
  Cold (acc_status acc') = Cold (acc_status acc) →
  changes a (view acc) (view acc') j j'.
Proof.
  intros Ha Hs He Hall Hr Hc. split_and!.
  - exists es. split; [done|]. intros b accb Hb. rewrite Hs.
    destruct (decide (b = a)) as [->|Hn].
    + exists acc'. rewrite lookup_insert_eq. by simplify_eq.
    + exists accb. rewrite lookup_insert_ne by done. split; [done|]. split; [|done].
      rewrite undo_at_other; [done|]. eapply Forall_impl; [exact Hall|]. simpl. congruence.
  - intros b Hb. by rewrite Hs, lookup_insert_ne.
  - by exists acc.
  - exists acc'. by rewrite Hs, lookup_insert_eq.
Qed.

Lemma view_set_slot acc key s :
  view (set_slot acc key s) =
  info_view' (acc_info acc) (<[key := slot_present s]> (slot_present <$> acc_storage acc)).
Proof. unfold view. simpl. by rewrite fmap_insert. Qed.

(** ** The steps *)

Lemma created_step a acc j :
  mj_state j !! a = Some acc → nonce (acc_info acc) = 0 →
  ∃ j', mark_account_created_for_sandbox_merge a j = Some j' ∧ changes a (view acc) (view acc) j j'.
Proof.
  intros Ha Hn. unfold mark_account_created_for_sandbox_merge. rewrite Ha. simpl.
  pose proof (mark_created_view acc) as Hv. pose proof (mark_created_cold acc) as Hc.
  destruct (mark_created_locally acc) as [acc' b]. simpl in *. eexists. split; [done|].
  rewrite <- Hv at 2. apply (changes_step a acc acc' [AccountCreated a b]); try done; [by constructor|].
  rewrite undo_at_one, Hv by done. by split_and!.
Qed.

Lemma zero_slot_step a acc j key :
  mj_state j !! a = Some acc →
  ∃ j', zero_parent_storage_slot a j key = Some j' ∧
    changes a (view acc) (with_slots (alter (λ _, 0) key) (view acc)) j j'.
Proof.
  intros Ha. unfold zero_parent_storage_slot. rewrite Ha. simpl.
  assert (Hid : alter (λ _, 0) key (v_slots (view acc)) = v_slots (view acc) →
    ∃ j', Some j = Some j' ∧ changes a (view acc) (with_slots (alter (λ _, 0) key) (view acc)) j j').
  { intros H. exists j. split; [done|]. unfold with_slots. rewrite H. by apply changes_refl. }
  destruct (acc_storage acc !! key) as [s|] eqn:Hk; simpl; cycle 1.
  { apply Hid, alter_id. intros x Hx. simpl in Hx. by rewrite lookup_fmap, Hk in Hx. }
  assert (Hp : (slot_present <$> acc_storage acc) !! key = Some (slot_present s)) by (by rewrite lookup_fmap, Hk).
  destruct (slot_present s =? 0) eqn:E0.
  { apply Z.eqb_eq in E0. apply Hid, alter_id. intros x Hx. simpl in Hx. rewrite Hp in Hx. by simplify_eq. }
  assert (Hv : view (set_slot acc key (with_present s 0)) = with_slots (alter (λ _, 0) key) (view acc)).
  { rewrite view_set_slot. unfold with_slots. f_equal. apply map_eq. intros i.
    destruct (decide (i = key)) as [->|].
    - simpl. by rewrite lookup_alter_eq, lookup_insert_eq, Hp.
    - simpl. by rewrite lookup_alter_ne, lookup_insert_ne. }
  eexists. split; [done|]. rewrite <- Hv.
  apply (changes_step _ _ _ [StorageChanged a key (slot_present s)]); try done; [by constructor|].
  rewrite undo_at_one, Hv by done. split_and!; simpl; try done.
  apply map_subseteq_spec. intros k x Hx. destruct (decide (k = key)) as [->|].
  - rewrite !lookup_alter_eq, Hx. simpl. congruence.
  - by rewrite !lookup_alter_ne.
Qed.

(** A loop whose body changes the slots of [a] by [f]. *)
Lemma for_each_changes {A} a (body : MergeJournal → A → panics MergeJournal)
    (f : A → gmap Z U256 → gmap Z U256) l :
  (∀ j acc x, mj_state j !! a = Some acc →
     ∃ j', body j x = Some j' ∧ changes a (view acc) (with_slots (f x) (view acc)) j j') →
  ∀ j acc, mj_state j !! a = Some acc →
  ∃ j', for_each body l j = Some j' ∧
    changes a (view acc) (with_slots (λ m, foldl (flip f) m l) (view acc)) j j'.
Proof.
  intros Hb. induction l as [|x l IH]; intros j acc Ha.
  { exists j. split; [done|]. by apply changes_refl. }
  destruct (Hb j acc x Ha) as (j1 & E1 & H1). simpl. rewrite E1. simpl.
  pose proof H1 as (_ & _ & _ & acc1 & Ha1 & Hv1). destruct (IH j1 acc1 Ha1) as (j2 & E2 & H2).
  exists j2. split; [done|]. rewrite Hv1 in H2. by eapply changes_trans.
Qed.

Definition zero_unless (skip : Z → bool) (key : Z) (m : gmap Z U256) : gmap Z U256 :=
  if skip key then m else alter (λ _, 0) key m.

(** Slots outside [skip] set to zero. *)
Definition zeroed (skip : Z → bool) (m : gmap Z U256) : gmap Z U256 :=
  map_imap (λ k x, Some (if skip k then x else 0)) m.

Lemma zero_loop skip l m k :
  foldl (flip (zero_unless skip)) m l !! k =
  (λ x, if bool_decide (k ∈ l) && negb (skip k) then 0 else x) <$> m !! k.
Proof.
  revert m. induction l as [|key l IH]; intros m; simpl.
  { by destruct (m !! k). }
  rewrite IH. unfold flip, zero_unless. destruct (decide (k = key)) as [->|Hn].
  - rewrite (bool_decide_true (key ∈ key :: l)) by set_solver.
    destruct (skip key) eqn:Es; simpl.
    + destruct (m !! key); simpl; [|done]. by rewrite andb_false_r.
    + rewrite lookup_alter_eq. destruct (m !! key); simpl; [|done]. by destruct (bool_decide _).
  - assert (Hl : (if skip key then m else alter (λ _, 0) key m) !! k = m !! k)
      by (destruct (skip key); [done|by rewrite lookup_alter_ne]).
    rewrite Hl. do 3 f_equal. rewrite !bool_decide_decide. repeat case_decide; set_solver.
Qed.

Lemma zero_all skip (acc : Account) :
  foldl (flip (zero_unless skip)) (v_slots (view acc))
    (storage_keys acc) = zeroed skip (v_slots (view acc)).
Proof.
  apply map_eq. intros k. rewrite zero_loop. unfold zeroed. rewrite map_lookup_imap. simpl.
  rewrite lookup_fmap. destruct (acc_storage acc !! k) as [s|] eqn:Hk; [|done]. simpl.
  rewrite bool_decide_true; [by destruct (skip k)|].
  unfold storage_keys. apply list_elem_of_fmap. exists (k, s). split; [done|].
  by apply elem_of_map_to_list.
Qed.

Lemma merge_slot_step a acc j kv :
  mj_state j !! a = Some acc →
  ∃ j', merge_sandbox_slot a j kv = Some j' ∧
    changes a (view acc) (with_slots (<[kv.1 := slot_present kv.2]>) (view acc)) j j'.
Proof.
  destruct kv as [key s]. intros Ha. unfold merge_sandbox_slot. rewrite Ha. simpl.
  set (had := match acc_storage acc !! key with Some s => slot_present s | None => slot_original s end).
  set (slot := match acc_storage acc !! key with
               | Some p => with_present p (slot_present s) | None => slot_mark_cold s end).
  assert (Hp : slot_present slot = slot_present s) by (subst slot; by case_match).
  assert (Hv : view (set_slot acc key slot) = with_slots (<[key := slot_present s]>) (view acc)).
  { by rewrite view_set_slot, Hp. }
  assert (Hm : v_slots (view acc) ⊆ <[key := had]> (v_slots (view acc))).
  { apply map_subseteq_spec. intros k x Hx. destruct (decide (k = key)) as [->|Hn].
    - rewrite lookup_insert_eq. simpl in Hx. rewrite lookup_fmap in Hx. subst had.
      by destruct (acc_storage acc !! key).
    - by rewrite lookup_insert_ne. }
  assert (Hpush : ∀ e, mj_state (push e j) = mj_state j) by done.
  destruct (slot_present s =? had) eqn:Eh; simpl; rewrite ?Hpush, Ha; simpl; fold slot;
    (eexists; split; [done|]; rewrite <- Hv).
  - apply Z.eqb_eq in Eh. apply (changes_step _ _ _ []); try done. rewrite Hv.
    split_and!; simpl; try done. by rewrite Eh.
  - apply (changes_step _ _ _ [StorageChanged a key had]); try done; [by constructor|].
    rewrite undo_at_one, Hv by done. split_and!; simpl; try done. etrans; [exact Hm|].
    apply map_subseteq_spec. intros k x Hx. destruct (decide (k = key)) as [->|Hn].
    + rewrite lookup_insert_eq in Hx. by rewrite lookup_alter_eq, lookup_insert_eq.
    + rewrite lookup_insert_ne in Hx by done. by rewrite lookup_alter_ne, lookup_insert_ne.
Qed.

Lemma slot_loop (l : list (Z * EvmStorageSlot)) (m : gmap Z U256) :
  NoDup l.*1 →
  foldl (flip (λ kv, <[kv.1 := slot_present kv.2]>)) m l =
  (slot_present <$> (list_to_map l : gmap Z EvmStorageSlot)) ∪ m.
Proof.
  revert m. induction l as [|[k s] l IH]; intros m Hnd; simpl.
  { by rewrite fmap_empty, (left_id_L ∅ (∪)). }
  inversion Hnd as [|?? Hk Hl]; subst. rewrite IH by done. unfold flip. simpl.
  rewrite fmap_insert, <- insert_union_l, insert_union_r; [done|].
  rewrite lookup_fmap. apply not_elem_of_list_to_map_1 in Hk. by rewrite Hk.
Qed.

(** ** Composite steps *)

Lemma zero_absent_step a sacc acc j :
  mj_state j !! a = Some acc →
  ∃ j', zero_parent_storage_absent_from_sandbox a sacc j = Some j' ∧
    changes a (view acc)
      (with_slots (zeroed (λ k, bool_decide (is_Some (acc_storage sacc !! k)))) (view acc)) j j'.
Proof.
  intros Ha. unfold zero_parent_storage_absent_from_sandbox. rewrite Ha. simpl.
  set (skip := λ k, bool_decide (is_Some (acc_storage sacc !! k))).
  set (body := λ j key, if skip key then Some j else zero_parent_storage_slot a j key).
  assert (Hb : ∀ j acc x, mj_state j !! a = Some acc → ∃ j', body j x = Some j' ∧
    changes a (view acc) (with_slots (zero_unless skip x) (view acc)) j j').
  { intros j1 acc1 x H1. unfold body, zero_unless. destruct (skip x); [|by apply zero_slot_step].
    exists j1. split; [done|]. by apply changes_refl. }
  destruct (for_each_changes a body _ (storage_keys acc) Hb j acc Ha) as (j' & Hj & Hc).
  exists j'. split; [exact Hj|]. unfold with_slots in *. by rewrite zero_all in Hc.
Qed.

Lemma zero_every_step a acc j :
  mj_state j !! a = Some acc →
  ∃ j', for_each (zero_parent_storage_slot a) (storage_keys acc) j = Some j' ∧
    changes a (view acc) (with_slots (zeroed (λ _, false)) (view acc)) j j'.
Proof.
  intros Ha.
  destruct (for_each_changes a (zero_parent_storage_slot a) (zero_unless (λ _, false))
    (storage_keys acc) (λ j acc x, zero_slot_step a acc j x) j acc Ha) as (j' & Hj & Hc).
  exists j'. split; [done|]. unfold with_slots in *. by rewrite zero_all in Hc.
Qed.

Lemma slots_step a acc sacc j :
  mj_state j !! a = Some acc →
  ∃ j', for_each (merge_sandbox_slot a) (map_to_list (acc_storage sacc)) j = Some j' ∧
    changes a (view acc) (with_slots (λ m, (slot_present <$> acc_storage sacc) ∪ m) (view acc)) j j'.
Proof.
  intros Ha.
  destruct (for_each_changes a (merge_sandbox_slot a) (λ kv, <[kv.1 := slot_present kv.2]>)
    (map_to_list (acc_storage sacc)) (λ j acc kv, merge_slot_step a acc j kv) j acc Ha)
    as (j' & Hj & Hc).
  exists j'. split; [done|]. unfold with_slots in *.
  rewrite slot_loop in Hc by apply NoDup_fst_map_to_list. by rewrite list_to_map_to_list in Hc.
Qed.

Lemma touch_step a acc j :
  mj_state j !! a = Some acc → changes a (view acc) (view acc) j (touch a j).
Proof.
  intros Ha. destruct (touch_law a j acc Ha) as (acc' & es & -> & Hv & Hc & Hes).
  rewrite <- Hv at 2. apply (changes_step _ _ _ es); try done.
  - eapply Forall_impl; [exact Hes|]. by intros e <-.
  - rewrite Hv. clear -Hes. induction Hes as [|e es <- Hes IH]; [done|]. unfold undo_at. simpl.
    by rewrite Z.eqb_refl.
Qed.

(** Setting the balance and the nonce. *)
Lemma balance_step a acc b j :
  mj_state j !! a = Some acc →
  changes a (view acc) (mkView b (v_nonce (view acc)) (v_code_hash (view acc)) (v_slots (view acc))) j
    (push (BalanceChange a (balance (acc_info acc))) (set_account a (with_balance acc b) j)).
Proof.
  intros Ha. apply (changes_step a acc (with_balance acc b) [BalanceChange a (balance (acc_info acc))]);
    try done; [by constructor|]. by rewrite undo_at_one.
Qed.

Lemma iter_push n e j :
  Nat.iter n (push e) j = mkMergeJournal (mj_journal j) (replicate n e ++ mj_entries j).
Proof. induction n as [|n IH]; simpl; [by destruct j|]. by rewrite IH. Qed.

Lemma undo_nonces a n v :
  undo_at a (replicate n (NonceChange a)) v =
  mkView (v_balance v) (v_nonce v - Z.of_nat n) (v_code_hash v) (v_slots v).
Proof.
  revert v. induction n as [|n IH]; intros v; [by rewrite Z.sub_0_r; destruct v|].
  change (undo_at a (replicate (S n) (NonceChange a)) v) with
    (undo_at a (replicate n (NonceChange a)) (if a =? a then undo_view (NonceChange a) v else v)).
  rewrite Z.eqb_refl, IH. simpl. f_equal. lia.
Qed.

Lemma nonce_step a acc n m j :
  mj_state j !! a = Some acc → m = nonce (acc_info acc) + Z.of_nat n →
  changes a (view acc) (mkView (v_balance (view acc)) m (v_code_hash (view acc)) (v_slots (view acc))) j
    (set_account a (with_nonce acc m) (Nat.iter n (push (NonceChange a)) j)).
Proof.
  intros Ha Hm. rewrite iter_push.
  apply (changes_step a acc (with_nonce acc m) (replicate n (NonceChange a))); try done.
  - by apply Forall_replicate.
  - rewrite undo_nonces. split_and!; simpl; try done. lia.
Qed.

(** Entries of a change of code. *)
Definition code_entry a (e : JournalEntry) : Prop := e = CodeChange a ∨ e = AccountTouched a.

Lemma undo_codes_empty a es v :
  Forall (code_entry a) es → v_code_hash v = KECCAK_EMPTY → undo_at a es v = v.
Proof.
  intros Hes Hh. induction Hes as [|e es He _ IH]; [done|]. unfold undo_at. simpl. fold (undo_at a es).
  destruct He as [-> | ->]; simpl; rewrite Z.eqb_refl; [|done].
  replace (mkView _ _ _ _) with v; [done|]. destruct v; simpl in *; congruence.
Qed.

Lemma undo_codes a es v :
  Forall (code_entry a) es → CodeChange a ∈ es →
  undo_at a es v = mkView (v_balance v) (v_nonce v) KECCAK_EMPTY (v_slots v).
Proof.
  intros Hes. revert v. induction Hes as [|e es He Hes IH]; intros v Hin; [by apply not_elem_of_nil in Hin|].
  unfold undo_at. simpl. fold (undo_at a es).
  destruct He as [-> | ->]; simpl; rewrite Z.eqb_refl; [by apply undo_codes_empty|].
  apply IH. by apply elem_of_cons in Hin as [?|?].
Qed.

Lemma code_step a acc c h j :
  mj_state j !! a = Some acc → code_hash (acc_info acc) = KECCAK_EMPTY →
  changes a (view acc) (mkView (v_balance (view acc)) (v_nonce (view acc)) h (v_slots (view acc))) j
    (set_code_with_hash a c h j).
Proof.
  intros Ha Hh. destruct (set_code_law a c h j acc Ha) as (acc' & es & -> & Hv & Hc & Hes & Hin).
  simpl. rewrite <- Hv. apply (changes_step _ _ _ es); try done.
  - eapply Forall_impl; [exact Hes|]. by intros e [-> | ->].
  - rewrite Hv, undo_codes by done. by split_and!.
Qed.

(** * Outcomes *)

(** The step does not panic; when it succeeds it changes the view of [a] from [v] to [v']. *)
Definition outcome a v v' j (m : panics (MergeJournal * result unit (KeylessDeployError Op))) : Prop :=
  ∃ j' r, m = Some (j', r) ∧ match r with Ok _ => changes a v v' j j' | Err _ => covered j j' end.

Lemma outcome_ok a v v' j j' : changes a v v' j j' → outcome a v v' j (Some (j', Ok tt)).
Proof. intros H. exists j', (Ok tt). by split. Qed.

Lemma outcome_err a v v' j e : outcome a v v' j (Some (j, Err e)).
Proof. exists j, (Err e). split; [done|]. reflexivity. Qed.

Lemma outcome_lift a v v' j m :
  (∃ j', m = Some j' ∧ changes a v v' j j') → outcome a v v' j (lift m).
Proof. intros (j' & -> & H). by apply outcome_ok. Qed.

Lemma outcome_then a v1 v2 v3 j m k :
  outcome a v1 v2 j m →
  (∀ j' acc, mj_state j' !! a = Some acc → view acc = v2 → outcome a v2 v3 j' (k j')) →
  outcome a v1 v3 j (and_then m k).
Proof.
  intros (j1 & r & -> & H) Hk. unfold and_then. simpl. destruct r as [u|e]; [|by exists j1, (Err e)].
  pose proof H as (Hc1 & _ & _ & acc & Ha & Hv). destruct (Hk j1 acc Ha Hv) as (j2 & r & -> & H2).
  exists j2, r. split; [done|]. destruct r; [by eapply changes_trans|].
  etrans; [exact Hc1|exact H2].
Qed.

(** ** One account *)

(** The slot is part of the sandbox's account. *)
Definition in_sandbox (sacc : Account) (k : Z) : bool :=
  bool_decide (is_Some (acc_storage sacc !! k)).

(** What is left of the parent's slots, and the account after the merge. *)
Definition kept_slots (sacc : Account) (m : gmap Z U256) : gmap Z U256 :=
  if is_created sacc then zeroed (in_sandbox sacc) m else m.

Definition merged_view (sacc : Account) (v : View) : View :=
  if SelfDestructed (acc_status sacc) then mkView 0 0 KECCAK_EMPTY (zeroed (λ _, false) (v_slots v))
  else info_view' (acc_info sacc) ((slot_present <$> acc_storage sacc) ∪ kept_slots sacc (v_slots v)).

Lemma can_merge_inv (n h : Z) (u : unit) :
  ensure_sandbox_create_can_merge (Op := Op) n h = Ok u → n = 0 ∧ h = KECCAK_EMPTY.
Proof.
  unfold ensure_sandbox_create_can_merge. case_match eqn:Ec; [done|]. intros _. simpl_bools. done.
Qed.

Lemma merge_created_outcome a sacc acc j :
  mj_state j !! a = Some acc →
  outcome a (view acc) (with_slots (kept_slots sacc) (view acc)) j
    (merge_created (Op := Op) a sacc (acc_info acc) j).
Proof.
  intros Ha. unfold merge_created, kept_slots. destruct (is_created sacc); cycle 1.
  { apply outcome_ok. by apply changes_refl. }
  destruct (ensure_sandbox_create_can_merge _ _) as [u|e] eqn:E0; [|apply outcome_err].
  apply can_merge_inv in E0 as [Hn _]. apply outcome_lift.
  destruct (created_step a acc j Ha Hn) as (j1 & E1 & H1). rewrite E1. simpl.
  pose proof H1 as (_ & _ & _ & acc1 & Ha1 & Hv1).
  destruct (zero_absent_step a sacc acc1 j1 Ha1) as (j2 & E2 & H2). exists j2. split; [done|].
  rewrite Hv1 in H2. by eapply changes_trans.
Qed.

Lemma merge_balance_outcome a sandbox parent acc j :
  mj_state j !! a = Some acc → balance (acc_info acc) = balance parent →
  let v := view acc in
  outcome a v (mkView (balance sandbox) (v_nonce v) (v_code_hash v) (v_slots v)) j
    (lift (merge_balance a sandbox parent j)).
Proof.
  intros Ha Hb v. apply outcome_lift. unfold merge_balance. rewrite Ha. simpl.
  destruct (Z.eqb_spec (balance sandbox) (balance parent)) as [He|He]; simpl.
  - exists j. split; [done|]. rewrite He, <- Hb. by apply changes_refl.
  - eexists. split; [done|]. rewrite <- Hb. by apply balance_step.
Qed.

Lemma merge_nonce_outcome a sandbox parent acc j :
  mj_state j !! a = Some acc → nonce (acc_info acc) = nonce parent →
  in_u64 (nonce parent) → in_u64 (nonce sandbox) →
  let v := view acc in
  outcome a v (mkView (v_balance v) (nonce sandbox) (v_code_hash v) (v_slots v)) j
    (merge_nonce (Op := Op) a sandbox parent j).
Proof.
  intros Ha Hn Hp Hs v. unfold merge_nonce.
  destruct (nonce sandbox <? nonce parent) eqn:El; [apply outcome_err|]. apply Z.ltb_ge in El.
  rewrite wsub_small by u64_lia. rewrite iter_push. simpl.
  destruct (0 <? nonce sandbox - nonce parent) eqn:Ep.
  - unfold mj_state at 1. simpl. fold (mj_state j). rewrite Ha. simpl. apply Z.ltb_lt in Ep.
    apply outcome_ok. rewrite <- iter_push. apply nonce_step; [done|]. lia.
  - apply Z.ltb_ge in Ep. replace (nonce sandbox - nonce parent) with 0 by lia. simpl.
    apply outcome_ok. replace (nonce sandbox) with (nonce (acc_info acc)) by lia.
    destruct j. by apply changes_refl.
Qed.

Lemma merge_code_outcome a sandbox parent acc j :
  mj_state j !! a = Some acc → code_hash (acc_info acc) = code_hash parent →
  let v := view acc in
  outcome a v (mkView (v_balance v) (v_nonce v) (code_hash sandbox) (v_slots v)) j
    (merge_code (Op := Op) a sandbox parent j).
Proof.
  intros Ha Hh v. unfold merge_code.
  destruct (Z.eqb_spec (code_hash sandbox) (code_hash parent)) as [He|He].
  - assert (Hr : changes a v (mkView (v_balance v) (v_nonce v) (code_hash sandbox) (v_slots v)) j j).
    { rewrite He, <- Hh. by apply changes_refl. }
    rewrite Ha. simpl. case_match; [|by apply outcome_ok]. destruct (code sandbox) as [c|]; [|by apply outcome_ok].
    apply outcome_ok. rewrite He, <- Hh.
    by apply (changes_step a acc (set_code acc c) []).
  - destruct (Z.eqb_spec (code_hash parent) KECCAK_EMPTY) as [Hk|Hk]; simpl; [|apply outcome_err].
    destruct (code sandbox) as [c|]; [|apply outcome_err]. apply outcome_ok.
    apply code_step; [done|congruence].
Qed.

Lemma selfdestruct_outcome a sacc acc j :
  mj_state j !! a = Some acc → SelfDestructed (acc_status sacc) = true →
  outcome a (view acc) (merged_view sacc (view acc)) j
    (apply_sandbox_created_selfdestruct (Op := Op) a sacc j).
Proof.
  intros Ha Hsd. unfold apply_sandbox_created_selfdestruct, merged_view. rewrite Hsd.
  destruct (is_created sacc); simpl; [|apply outcome_err]. rewrite Ha. simpl.
  destruct (ensure_sandbox_create_can_merge _ _) as [u|e] eqn:E0; [|apply outcome_err].
  apply can_merge_inv in E0 as [Hn Hh].
  destruct (created_step a acc j Ha Hn) as (j1 & -> & H1). simpl.
  pose proof H1 as (_ & _ & _ & acc1 & Ha1 & Hv1). pose proof (touch_step a acc1 j1 Ha1) as H2.
  rewrite Hv1 in H2. pose proof (changes_trans _ _ _ _ _ _ _ H1 H2) as H12.
  pose proof H2 as (_ & _ & _ & acc2 & Ha2 & Hv2). rewrite Ha2. simpl.
  set (j3 := if negb (balance (acc_info acc2) =? 0) then _ else _).
  assert (H3 : changes a (view acc) (mkView 0 0 KECCAK_EMPTY (v_slots (view acc))) j j3).
  { eapply changes_trans; [exact H12|]. rewrite <- Hv2. subst j3.
    assert (Hb : changes a (view acc2) (mkView 0 (v_nonce (view acc2)) (v_code_hash (view acc2))
      (v_slots (view acc2))) (touch a j1) (if negb (balance (acc_info acc2) =? 0) then
        push (BalanceChange a (balance (acc_info acc2))) (set_account a (with_balance acc2 0) (touch a j1))
      else touch a j1)).
    { destruct (Z.eqb_spec (balance (acc_info acc2)) 0) as [Hz|Hz]; simpl; [|by apply balance_step].
      pose proof (changes_refl a acc2 (touch a j1) Ha2) as Hr. unfold view at 2, info_view' in Hr.
      by rewrite Hz in Hr. }
    rewrite Hv2 in *. simpl in Hb. by rewrite Hn, Hh in Hb. }
  pose proof H3 as (_ & _ & _ & acc3 & Ha3 & Hv3). rewrite Ha3. simpl.
  destruct (zero_every_step a acc3 j3 Ha3) as (j4 & -> & H4). simpl. apply outcome_ok.
  rewrite Hv3 in H4. by eapply changes_trans.
Qed.

(** What the parent sees of an account before the merge. *)
Definition parent_view j a : result View E :=
  match mj_state j !! a with
  | Some acc => Ok (view acc)
  | None =>
      match basic db a with
      | Ok i => Ok (info_view' (default account_info_default i) ∅)
      | Err e => Err e
      end
  end.

(** Only account [a] may have been added or changed, revertibly. *)
Definition local a j j' : Prop :=
  covered j j' ∧ ∀ b, b ≠ a → mj_state j' !! b = mj_state j !! b.

Lemma view_same acc acc' : same_account acc acc' → restores (view acc) (view acc').
Proof.
  intros (Hi & _ & _ & Hs & _). unfold info_view in Hi. injection Hi as H1 H2 H3.
  split_and!; simpl; try done. by apply map_fmap_mono.
Qed.

Lemma inspect_view i (i' : Journal) lc j acc' :
  inspect_account db i lc (mj_journal j) = (i', Ok acc') →
  parent_view j i = Ok (view acc').
Proof.
  unfold inspect_account, parent_view, mj_state. destruct (jr_state (mj_journal j) !! i) as [acc0|].
  - destruct (needs_code acc0); [destruct (db_code_by_hash _ _)|]; by intros [= <- <-].
  - destruct (basic db i) as [o|]; [|done]. fold (loaded o (mj_journal j)).
    assert (Hl : info_view' (default account_info_default o) ∅ = view (mark_cold (loaded o (mj_journal j)))).
    { unfold view. destruct o; simpl; by rewrite fmap_empty. }
    destruct (lc && _); [destruct (db_code_by_hash _ _) as [c|]|]; intros [= <- <-]; by rewrite Hl.
Qed.

Lemma inspect_step a j j' (r : result unit (KeylessDeployError Op)) :
  inspect_for_merge db a j = (j', r) →
  local a j j' ∧
  (is_ok_result r = true →
     ∃ v acc, parent_view j a = Ok v ∧ mj_state j' !! a = Some acc ∧ view acc = v).
Proof.
  unfold inspect_for_merge. destruct (inspect_account db a false (mj_journal j)) as [i ri] eqn:Ei.
  intros [= <- <-]. pose proof (inspect_account_cases db a false _ _ _ Ei) as (Ht & Hin & Ho).
  split; [split|].
  - exists []. split; [done|]. intros b acc Hb. destruct Ht as (_ & _ & Ht).
    destruct (Ht b acc Hb) as (acc' & Hb' & Hs). exists acc'. split; [done|].
    split; [by apply view_same|]. by destruct Hs as (_ & -> & _).
  - done.
  - destruct ri as [acc|]; [|done]. intros _. exists (view acc), acc. split_and!; [|by apply Hin|done].
    by eapply inspect_view.
Qed.

Lemma account_merge a sacc j v acc :
  mj_state j !! a = Some acc → view acc = v → in_u64 (v_nonce v) → in_u64 (nonce (acc_info sacc)) →
  outcome a v (merged_view sacc v) j
    (if SelfDestructed (acc_status sacc)
     then apply_sandbox_created_selfdestruct a sacc j
     else
      acc ← mj_state j !! a;
      let parent := acc_info acc in
      let sandbox := acc_info sacc in
      and_then (merge_created a sacc parent j) (λ j,
      and_then (lift (merge_balance a sandbox parent j)) (λ j,
      and_then (merge_nonce a sandbox parent j) (λ j,
      and_then (merge_code a sandbox parent j) (λ j,
      let j := if Touched (acc_status sacc) then touch a j else j in
      lift (for_each (merge_sandbox_slot a) (map_to_list (acc_storage sacc)) j)))))).
Proof.
  intros Ha <- Hn Hs. destruct (SelfDestructed (acc_status sacc)) eqn:Hsd; [by apply selfdestruct_outcome|].
  rewrite Ha. simpl. unfold merged_view. rewrite Hsd. set (w := with_slots (kept_slots sacc) (view acc)).
  eapply outcome_then; [by apply merge_created_outcome|]. intros j1 acc1 H1 V1. fold w in V1 |- *.
  eapply outcome_then.
  { rewrite <- V1. apply merge_balance_outcome; [done|]. change (v_balance (view acc1) = balance (acc_info acc)). by rewrite V1. }
  rewrite V1. intros j2 acc2 H2 V2. eapply outcome_then.
  { rewrite <- V2. apply merge_nonce_outcome; try done.
    change (v_nonce (view acc2) = nonce (acc_info acc)). by rewrite V2. }
  rewrite V2. intros j3 acc3 H3 V3. eapply outcome_then.
  { rewrite <- V3. apply merge_code_outcome; [done|].
    change (v_code_hash (view acc3) = code_hash (acc_info acc)). by rewrite V3. }
  rewrite V3. intros j4 acc4 H4 V4. apply outcome_lift.
  set (j5 := if Touched (acc_status sacc) then touch a j4 else j4).
  assert (H5 : changes a (view acc4) (view acc4) j4 j5).
  { subst j5. destruct (Touched _); [by apply touch_step|by apply changes_refl]. }
  pose proof H5 as (_ & _ & _ & acc5 & Ha5 & V5).
  destruct (slots_step a acc5 sacc j5 Ha5) as (j6 & -> & H6). exists j6. split; [done|].
  rewrite V5, V4 in H6. rewrite V4 in H5. eapply changes_trans; [exact H5|exact H6].
Qed.

Lemma merge_account_outcome a sacc j :
  (∀ v, parent_view j a = Ok v → in_u64 (v_nonce v)) → in_u64 (nonce (acc_info sacc)) →
  ∃ j' r, merge_sandbox_account (Op := Op) db (a, sacc) j = Some (j', r) ∧
    match r with
    | Ok _ => local a j j' ∧
        ∃ v acc', parent_view j a = Ok v ∧ mj_state j' !! a = Some acc' ∧ view acc' = merged_view sacc v
    | Err _ => covered j j'
    end.
Proof.
  intros Hn Hs. unfold merge_sandbox_account, and_then at 1.
  destruct (inspect_for_merge db a j) as [j1 r1] eqn:E1. simpl.
  destruct (inspect_step a j j1 r1 E1) as [[Hc Ho] Hok].
  destruct r1 as [u|e]; [|by exists j1, (Err e)]. destruct (Hok eq_refl) as (v & acc & Hv & Ha & Hva).
  destruct (account_merge a sacc j1 v acc Ha Hva (Hn v Hv) Hs) as (j2 & r & E2 & H2).
  exists j2, r. split; [exact E2|]. destruct r.
  - destruct H2 as (Hc2 & Ho2 & _ & acc2 & Ha2 & Hv2). split.
    + split; [by etrans|]. intros b Hb. by rewrite Ho2, Ho.
    + by exists v, acc2.
  - by etrans.
Qed.

(** ** All accounts *)

(** The account of the sandbox is merged into [j'], from what the parent had in [j]. *)
Definition merged j j' a sacc : Prop :=
  ∃ v acc', parent_view j a = Ok v ∧ mj_state j' !! a = Some acc' ∧ view acc' = merged_view sacc v.

Lemma parent_view_ext j j' a : mj_state j' !! a = mj_state j !! a → parent_view j' a = parent_view j a.
Proof. intros H. unfold parent_view. by rewrite H. Qed.

Definition nonces_ok j (l : list (Z * Account)) : Prop :=
  ∀ a sacc, (a, sacc) ∈ l →
    in_u64 (nonce (acc_info sacc)) ∧ ∀ v, parent_view j a = Ok v → in_u64 (v_nonce v).

Lemma merge_accounts_outcome l j :
  NoDup l.*1 → nonces_ok j l →
  ∃ j' r, merge_sandbox_accounts (Op := Op) db l j = Some (j', r) ∧
    match r with
    | Ok _ => covered j j' ∧ (∀ b, b ∉ l.*1 → mj_state j' !! b = mj_state j !! b) ∧
        ∀ a sacc, (a, sacc) ∈ l → merged j j' a sacc
    | Err _ => covered j j'
    end.
Proof.
  revert j. induction l as [|[a sacc] l IH]; intros j Hnd Hn; cbn [merge_sandbox_accounts].
  { exists j, (Ok tt). split; [done|]. split_and!; [done|done|]. intros ?? []%not_elem_of_nil. }
  inversion Hnd as [|?? Hal Hl]; subst. destruct (Hn a sacc ltac:(left)) as [Hs Hp].
  destruct (merge_account_outcome a sacc j Hp Hs) as (j1 & r1 & E1 & H1). rewrite E1.
  unfold and_then. simpl. destruct r1 as [u|e]; [|by exists j1, (Err e)].
  destruct H1 as [[Hc Ho] Hm].
  assert (Hne : ∀ b x, (b, x) ∈ l → b ≠ a).
  { intros b x Hb ->. destruct Hal. apply list_elem_of_fmap. by exists (a, x). }
  destruct (IH j1 Hl) as (j2 & r2 & E2 & H2).
  { intros b x Hb. destruct (Hn b x ltac:(by right)) as [? Hv]. split; [done|].
    intros v. rewrite (parent_view_ext j); [apply Hv|]. apply Ho. by eapply Hne. }
  exists j2, r2. split; [done|]. destruct r2; [|by etrans]. destruct H2 as (Hc2 & Ho2 & Hm2).
  split_and!; [by etrans| |].
  - intros b [Hb1 Hb2]%not_elem_of_cons. by rewrite Ho2, Ho.
  - intros b x [[= -> ->]|Hb]%elem_of_cons.
    + destruct Hm as (v & acc & Hv & Ha & Hvm). exists v, acc. by rewrite Ho2.
    + destruct (Hm2 b x Hb) as (v & acc & Hv & Ha). exists v, acc.
      by rewrite <- (parent_view_ext j j1 b) by (apply Ho; by eapply Hne).
Qed.

(** Reverting to the checkpoint taken before a covered change. *)
Lemma covered_revert j j' :
  covered j j' →
  mj_entries (checkpoint_revert (length (mj_entries j)) j') = mj_entries j ∧
  ∀ a acc, mj_state j !! a = Some acc →
    ∃ acc', mj_state (checkpoint_revert (length (mj_entries j)) j') !! a = Some acc' ∧
      restores (view acc) (view acc').
Proof.
  intros (es & He & H). rewrite checkpoint_revert_entries, He, length_app.
  replace (length es + length (mj_entries j) - length (mj_entries j))%nat with (length es) by lia.
  split; [by rewrite drop_app_length|]. intros a acc Ha. destruct (H a acc Ha) as (acc1 & Ha1 & Hr & _).
  pose proof (checkpoint_revert_view (length (mj_entries j)) j' a) as Hv.
  rewrite Ha1, He, length_app in Hv.
  replace (length es + length (mj_entries j) - length (mj_entries j))%nat with (length es) in Hv by lia.
  rewrite take_app_length in Hv. simpl in Hv.
  destruct (mj_state (checkpoint_revert _ _) !! a) as [acc'|]; [|done]. injection Hv as Hv.
  exists acc'. split; [done|]. by rewrite Hv.
Qed.
End merge_facts.

(** C38: merging the sandbox of a keyless deployment is exact, total and atomic from Rex5 on.
    For any sandbox state over any parent journal the merge does not panic.  When it succeeds,
    every account of the sandbox has the sandbox's balance, nonce, code hash and slot values
    (a created account has no other non-zero slot, a created and destroyed one is empty), every
    other account is untouched, and reverting to the checkpoint of an enclosing frame gives
    every account of the parent its old values back.  When it fails, the journal entries are
    the old ones and every account of the parent has its old values.  Coldness of the parent's
    accounts never changes. *)
Theorem sandbox_merge_atomic `{RS : RevmState} {RSL : RevmStateLaws RS} {E} (db : Database E) {Op}
    `{JO : JournalOps} `{!JournalOpsLaws} (sandbox_state : gmap Z Account) (j : MergeJournal) :
  nonces_ok db j (map_to_list sandbox_state) →
  let checkpoint := length (mj_entries j) in
  ∃ j' r, apply_sandbox_state_journaled (Op := Op) db sandbox_state j = Some (j', r) ∧
    match r with
    | Ok _ =>
        (∀ a sacc, sandbox_state !! a = Some sacc → merged db j j' a sacc) ∧
        (∀ a, sandbox_state !! a = None → mj_state j' !! a = mj_state j !! a) ∧
        (∀ a acc, mj_state j !! a = Some acc →
           (∃ acc', mj_state j' !! a = Some acc' ∧ Cold (acc_status acc') = Cold (acc_status acc)) ∧
           ∃ acc', mj_state (checkpoint_revert checkpoint j') !! a = Some acc' ∧
             restores (view acc) (view acc'))
    | Err _ =>
        mj_entries j' = mj_entries j ∧
        ∀ a acc, mj_state j !! a = Some acc →
          ∃ acc', mj_state j' !! a = Some acc' ∧ restores (view acc) (view acc')
    end.
Proof.
  intros Hn checkpoint. unfold apply_sandbox_state_journaled, apply_sandbox_state_journaled_inner.
  destruct (merge_accounts_outcome (Op := Op) db (map_to_list sandbox_state) j) as (j1 & r & -> & Hout).
  { apply NoDup_fst_map_to_list. }
  { done. }
  simpl. destruct r as [u|e].
  - exists j1, (Ok tt). split; [done|]. destruct Hout as (Hc & Ho & Hm). split_and!.
    + intros a sacc Ha. apply Hm. by apply elem_of_map_to_list.
    + intros a Ha. apply Ho. intros [[b x] [-> Hb]]%list_elem_of_fmap.
      apply elem_of_map_to_list in Hb. simpl in Ha. congruence.
    + intros a acc Ha. split; [|by apply covered_revert].
      destruct Hc as (es & _ & Hc). destruct (Hc a acc Ha) as (acc' & ? & _ & ?). by exists acc'.
  - exists (checkpoint_revert checkpoint j1), (Err e). split; [done|]. by apply covered_revert.
Qed.

(** * A reference journal *)

Section reference.
Context `{RS : RevmState}.

Definition with_status (acc : Account) (s : AccountStatus) : Account :=
  mkAccount (acc_info acc) (acc_storage acc) s (acc_transaction_id acc).
Definition ref_created (b : bool) (s : AccountStatus) : AccountStatus :=
  mkStatus b b (SelfDestructed s) (SelfDestructedLocal s) (Touched s) (LoadedAsNotExisting s) (Cold s).
Definition ref_touched (b : bool) (s : AccountStatus) : AccountStatus :=
  mkStatus (Created s) (CreatedLocal s) (SelfDestructed s) (SelfDestructedLocal s) b
    (LoadedAsNotExisting s) (Cold s).

Definition ref_set_hash (acc : Account) (c : option Bytecode) (h : Z) : Account :=
  mkAccount (mkAccountInfo (balance (acc_info acc)) (nonce (acc_info acc)) h c) (acc_storage acc)
    (acc_status acc) (acc_transaction_id acc).

Definition ref_touch (a : Address) (j : MergeJournal) : MergeJournal :=
  match mj_state j !! a with
  | Some acc =>
      if Touched (acc_status acc) then set_account a acc j
      else push (AccountTouched a) (set_account a (with_status acc (ref_touched true (acc_status acc))) j)
  | None => j
  end.

Definition ref_set_code (a : Address) (c : Bytecode) (h : Z) (j : MergeJournal) : MergeJournal :=
  match mj_state j !! a with
  | Some acc => push (CodeChange a) (set_account a (ref_set_hash acc (Some c) h) j)
  | None => j
  end.

Definition ref_undo (e : JournalEntry) (acc : Account) : Account :=
  match e with
  | BalanceChange _ old => with_balance acc old
  | NonceChange _ => with_nonce acc (nonce (acc_info acc) - 1)
  | AccountCreated _ _ => with_nonce (with_status acc (ref_created false (acc_status acc))) 0
  | StorageChanged _ key had =>
      mkAccount (acc_info acc) (alter (λ s, with_present s had) key (acc_storage acc))
        (acc_status acc) (acc_transaction_id acc)
  | CodeChange _ => ref_set_hash acc None KECCAK_EMPTY
  | AccountTouched _ => with_status acc (ref_touched false (acc_status acc))
  end.

Definition ref_undo_all (es : list JournalEntry) (st : gmap Z Account) : gmap Z Account :=
  foldl (λ st e, alter (ref_undo e) (entry_address e) st) st es.

#[export] Instance reference_journal_ops : JournalOps := {|
  mark_created_locally acc :=
    (with_status acc (ref_created true (acc_status acc)), negb (Created (acc_status acc)));
  touch := ref_touch;
  set_code_with_hash := ref_set_code;
  checkpoint_revert n j :=
    let es := mj_entries j in
    mkMergeJournal
      (mkJournal (ref_undo_all (take (length es - n) es) (mj_state j)) (jr_transaction_id (mj_journal j)))
      (drop (length es - n) es);
  bytecode_is_empty c := match c with OtherBytecode [] => true | _ => false end;
|}.

Lemma ref_undo_view e acc : view (ref_undo e acc) = undo_view e (view acc).
Proof.
  destruct e; try done. unfold view, undo_view. simpl. f_equal. apply map_eq. intros k.
  rewrite lookup_fmap. destruct (decide (k = key)) as [->|Hn].
  - rewrite !lookup_alter_eq, lookup_fmap. by destruct (acc_storage acc !! key).
  - by rewrite !lookup_alter_ne, lookup_fmap.
Qed.

Lemma ref_undo_all_view es st a :
  view <$> ref_undo_all es st !! a = undo_at a es <$> (view <$> st !! a).
Proof.
  revert st. induction es as [|e es IH]; intros st.
  { unfold ref_undo_all, undo_at. simpl. by destruct (st !! a). }
  change (ref_undo_all (e :: es) st) with (ref_undo_all es (alter (ref_undo e) (entry_address e) st)).
  assert (Hc : ∀ v, undo_at a (e :: es) v =
    undo_at a es (if entry_address e =? a then undo_view e v else v)) by done.
  rewrite IH. destruct (Z.eqb_spec (entry_address e) a) as [<-|Hn].
  - rewrite lookup_alter_eq. destruct (st !! entry_address e); simpl; [|done].
    by rewrite Hc, ref_undo_view.
  - rewrite lookup_alter_ne by done. destruct (st !! a); simpl; [|done]. by rewrite Hc.
Qed.

#[export] Instance reference_journal_laws : JournalOpsLaws.
Proof.
  split; try done; simpl.
  - intros a j acc Ha. unfold ref_touch. rewrite Ha. destruct (Touched (acc_status acc)).
    + by exists acc, [].
    + eexists (with_status acc _), [AccountTouched a]. split; [done|]. split_and!; try done. by constructor.
  - intros a c h j acc Ha. unfold ref_set_code. rewrite Ha.
    eexists (ref_set_hash acc _ h), [CodeChange a]. split; [done|].
    split_and!; try done; [constructor; [by left|done]|by left].
  - intros n j a. apply ref_undo_all_view.
Qed.
End reference.

(** The signer (nonce bumped) and the contract it deploys, with a slot, over a parent that has
    the signer with a balance; and a sandbox that would lower a nonce. *)
Definition ref_db : Database Empty_set :=
  mkDatabase ∅ (λ _, None) (λ _, Ok (OtherBytecode [])) (λ _ _, Ok 0).

Definition merge_parent : MergeJournal :=
  mkMergeJournal (mkJournal {[ 1 := mkAccount (mkAccountInfo 500 1 77 None) ∅ status_empty 0 ]} 0) [].

Definition merge_contract : Account :=
  mkAccount (mkAccountInfo 100 1 99 (Some (OtherBytecode [96]))) {[ 5 := mkSlot 0 7 0 false ]}
    (mkStatus true true false false true false false) 0.

Definition merge_sandbox : gmap Z Account :=
  {[ 1 := mkAccount (mkAccountInfo 400 1 77 None) ∅ (mkStatus false false false false true false false) 0;
     2 := merge_contract ]}.

Definition bad_sandbox : gmap Z Account :=
  {[ 1 := mkAccount (mkAccountInfo 400 0 77 None) ∅ (mkStatus false false false false true false false) 0 ]}.

(** The journal and the success of a merge. *)
Definition merge_run (s : gmap Z Account) : MergeJournal * bool :=
  match apply_sandbox_state_journaled (Op := unit) ref_db s merge_parent with
  | Some (j, r) => (j, is_ok_result r)
  | None => (merge_parent, false)
  end.

Lemma sandbox_merge_atomic_witness :
  (snd (merge_run merge_sandbox) = true ∧
   merged ref_db merge_parent (fst (merge_run merge_sandbox)) 2 merge_contract ∧
   ∃ acc, mj_state (checkpoint_revert 0 (fst (merge_run merge_sandbox))) !! 1 = Some acc ∧
     balance (acc_info acc) = 500) ∧
  (snd (merge_run bad_sandbox) = false ∧
   ∃ acc, mj_state (fst (merge_run bad_sandbox)) !! 1 = Some acc ∧ balance (acc_info acc) = 500).
Proof.
  assert (Hn : ∀ s, (∀ a sacc, s !! a = Some sacc → in_u64 (nonce (acc_info sacc))) →
    nonces_ok ref_db merge_parent (map_to_list s)).
  { intros s Hs a sacc Ha%elem_of_map_to_list. split; [by eapply Hs|]. intros v.
    unfold parent_view. destruct (decide (a = 1)) as [->|Hne].
    - intros [= <-]. by vm_compute.
    - unfold merge_parent, mj_state. simpl. rewrite lookup_singleton_ne by done. intros [= <-]. by vm_compute. }
  assert (Hp : mj_state merge_parent !! 1 = Some (mkAccount (mkAccountInfo 500 1 77 None) ∅ status_empty 0))
    by reflexivity.
  split.
  - split; [by vm_compute|]. unfold merge_run.
    destruct (sandbox_merge_atomic (Op := unit) ref_db merge_sandbox merge_parent) as (j & r & E & H).
    { apply Hn. intros a sacc. unfold merge_sandbox.
      rewrite lookup_insert_Some, lookup_singleton_Some. by intros [[_ <-]|[_ [_ <-]]]. }
    destruct r as [u|e]; cycle 1.
    { exfalso. revert E. vm_compute. discriminate. }
    rewrite E. destruct H as (Hm & _ & Hr). split; [by apply Hm|].
    destruct (Hr 1 _ Hp) as [_ (acc & Ha & Hb & _)]. by exists acc.
  - split; [by vm_compute|]. unfold merge_run.
    destruct (sandbox_merge_atomic (Op := unit) ref_db bad_sandbox merge_parent) as (j & r & E & H).
    { apply Hn. intros a sacc. unfold bad_sandbox. rewrite lookup_singleton_Some. by intros [_ <-]. }
    destruct r as [u|e].
    { exfalso. revert E. vm_compute. discriminate. }
    rewrite E. destruct H as (_ & Hr). destruct (Hr 1 _ Hp) as (acc & Ha & Hb & _). by exists acc.
Defined.
