(* ===== verification/SandboxDb.v ===== *)
(** The database of a sandbox and the keyless transaction: [sandbox/state.rs], [sandbox/tx.rs].

    A sandbox reads the accounts its parent has loaded, as the parent's journal has them, and
    the parent's database behind them.  The text of a database error is not modelled, so the
    erased error type [SandboxDbError] is the parent's. *)

From S2P Require Import Prelude Spec Revm Interfaces Journal StateMerge KeylessError.

(** * [sandbox/state.rs] *)

Record SandboxDb (E : Type) : Type := mkSandboxDb {
  sd_journal_state : gmap Z Account;
  sd_db : Database E;
  (** The address under which the code of a hash is found. *)
  sd_code_index : gmap Z Address;
  sd_nonce_override_address : option Address;
}.
Arguments mkSandboxDb {E} _ _ _ _.
Arguments sd_journal_state {E} _.
Arguments sd_db {E} _.
Arguments sd_code_index {E} _.
Arguments sd_nonce_override_address {E} _.

Section sandbox_db.
Context `{RS : RevmState} `{JO : JournalOps} {E : Type}.
(** [Bytecode::default()]. *)
Context (bytecode_default : Bytecode).
Implicit Types s : SandboxDb E.

(** One account of the loop that builds the index. *)
Definition index_account (index : gmap Z Address) (kv : Z * Account) : gmap Z Address :=
  match code (acc_info (snd kv)) with
  | Some c =>
      if negb (bytecode_is_empty c) then <[code_hash (acc_info (snd kv)) := fst kv]> index else index
  | None => index
  end.

Definition new (state : gmap Z Account) (db : Database E) : SandboxDb E :=
  mkSandboxDb state db (foldl index_account ∅ (map_to_list state)) None.

Definition with_nonce_override s (address : Address) : SandboxDb E :=
  mkSandboxDb (sd_journal_state s) (sd_db s) (sd_code_index s) (Some address).

Definition zero_nonce (i : AccountInfo) : AccountInfo :=
  mkAccountInfo (balance i) 0 (code_hash i) (code i).

Definition override_nonce s (address : Address) (i : AccountInfo) : AccountInfo :=
  if bool_decide (sd_nonce_override_address s = Some address) then zero_nonce i else i.

Definition basic s (address : Address) : result (option AccountInfo) E :=
  match sd_journal_state s !! address with
  | Some account => Ok (Some (override_nonce s address (acc_info account)))
  | None =>
      match Journal.basic (sd_db s) address with
      | Err e => Err e
      | Ok (Some info) => Ok (Some (override_nonce s address info))
      | Ok None => Ok None
      end
  end.

Definition code_by_hash s (hash : Z) : result Bytecode E :=
  if hash =? KECCAK_EMPTY then Ok bytecode_default
  else
    match addr ← sd_code_index s !! hash; sd_journal_state s !! addr with
    | Some account => Ok (default bytecode_default (code (acc_info account)))
    | None => db_code_by_hash (sd_db s) hash
    end.

Definition storage s (address : Address) (index : Z) : result U256 E :=
  match account ← sd_journal_state s !! address; acc_storage account !! index with
  | Some slot => Ok (slot_present slot)
  | None => db_storage (sd_db s) address index
  end.

(** [Database for SandboxDb]: what the sandbox's own journal reads from. *)
Definition as_database s : Database E := mkDatabase
  (map_imap (λ a i, Some (override_nonce s a i))
     ((acc_info <$> sd_journal_state s) ∪ db_accounts (sd_db s)))
  (λ a, match sd_journal_state s !! a with
        | Some _ => None | None => db_account_error (sd_db s) a end)
  (code_by_hash s) (storage s).
End sandbox_db.

(** * [sandbox/tx.rs] *)

(** [Signed<TxLegacy>], its signature included. *)
Record KeylessTx : Type := mkKeylessTx {
  kt_nonce : Z;
  kt_gas_price : Z;
  kt_gas_limit : Z;
  kt_to : option Address;
  kt_value : U256;
  kt_input : Bytes;
  kt_chain_id : option Z;
  kt_signature : Z * U256 * U256;
}.

(** The codec, the signature recovery and the address derivation of [alloy]. *)
Class Consensus := {
  (** [rlp_decode_signed]: the transaction and the bytes after it. *)
  rlp_decode_signed : Bytes → option (KeylessTx * Bytes);
  consensus_recover_signer : KeylessTx → option Address;
  (** [effective_gas_price(None)]. *)
  effective_gas_price : KeylessTx → Z;
  (** [Address::create]. *)
  create_address : Address → Z → Address;
}.

Section tx.
Context `{HC : Consensus} {Op : Type}.
Local Notation error := (KeylessDeployError Op).

Definition decode_keyless_tx (rlp_bytes : Bytes) (spec : MegaSpecId) : result KeylessTx error :=
  match rlp_decode_signed rlp_bytes with
  | None => Err MalformedEncoding
  | Some (signed, buf) =>
      if is_enabled spec REX5 && negb (length buf =? 0)%nat then Err MalformedEncoding
      else if bool_decide (is_Some (kt_to signed)) then Err NotContractCreation
      else if bool_decide (is_Some (kt_chain_id signed)) then Err NotPreEIP155
      else Ok signed
  end.

Definition recover_signer (signed_tx : KeylessTx) : result Address error :=
  match consensus_recover_signer signed_tx with Some a => Ok a | None => Err InvalidSignature end.

Definition calculate_keyless_deploy_address (signer : Address) : Address :=
  create_address signer 0.
End tx.
