(* ===== verification/Sandbox.v ===== *)
(** The keyless deployment sandbox: [sandbox/execution.rs].

    [execute_keyless_deploy_call] answers a call to the keyless deployment contract by running a
    creation in a context of its own and merging the result into the caller's.  The upstream
    context it builds, the run of the transaction in it and the generated ABI are the class
    [SandboxEvm].  The early returns of the function are the error branch of the monad [flow],
    which threads the context and the call's gas counter. *)

From S2P Require Import Prelude Spec Revm LimitCheck Interfaces.
From S2P Require Import ComputeGas DataSize KVUpdate StateGrowth StorageCallStipend.
From S2P Require Import AdditionalLimit Access DynamicGas SystemTx Context Intercept.
From S2P Require Import Journal KeylessError StateMerge SandboxDb.

Definition KEYLESS_DEPLOY_OVERHEAD_GAS : Z := 100000.
Definition MAX_CONTRACT_SIZE : Z := 512 * 1024.
Definition MAX_INITCODE_SIZE : Z := MAX_CONTRACT_SIZE + 24 * 1024.
Definition u256_max : Z := 2 ^ 256 - 1.

(** The transaction of a sandbox: what the limits read of it, and the rest. *)
Record SandboxTx : Type := mkSandboxTx {
  st_tx : MegaTransaction;
  st_data : Bytes;
  st_value : U256;
  st_gas_limit : Z;
  st_enveloped_tx : option Bytes;
  st_mint : option Z;
}.

(** revm's [Output] and [ExecutionResult]. *)
Inductive Output : Type :=
  | OutputCall (bytes : Bytes)
  | OutputCreate (bytes : Bytes) (address : option Address).

Inductive TransactResult (Log Op : Type) : Type :=
  | TxSuccess (gas_used : Z) (output : Output) (logs : list Log)
  | TxRevert (gas_used : Z) (output : Bytes)
  | TxHalt (gas_used : Z) (reason : MegaHaltReason Op).
Arguments TxSuccess {Log Op} _ _ _.
Arguments TxRevert {Log Op} _ _.
Arguments TxHalt {Log Op} _ _.

Record ResultAndState (Log Op : Type) : Type := mkResultAndState {
  rs_result : TransactResult Log Op;
  rs_state : gmap Z Account;
}.
Arguments mkResultAndState {Log Op} _ _.
Arguments rs_result {Log Op} _.
Arguments rs_state {Log Op} _.

Inductive SandboxCompletion (Log Op : Type) : Type :=
  | Deployed (gas_used : Z) (deploy_address : Address) (logs : list Log)
  | EmptyCode (gas_used : Z) (logs : list Log)
  | ExecutionFailed (gas_used : Z) (error : KeylessDeployError Op).
Arguments Deployed {Log Op} _ _ _.
Arguments EmptyCode {Log Op} _ _.
Arguments ExecutionFailed {Log Op} _ _.

(** [SandboxCompletion::gas_used]. *)
Definition completion_gas_used {Log Op} (c : SandboxCompletion Log Op) : Z :=
  match c with Deployed g _ _ | EmptyCode g _ | ExecutionFailed g _ => g end.

Inductive SandboxOutcome (Log Op : Type) : Type :=
  | Completed (state : gmap Z Account) (completion : SandboxCompletion Log Op)
      (limit_usage : LimitUsage) (volatile_accesses : VolatileDataAccess)
  | Rejected (error : KeylessDeployError Op).
Arguments Completed {Log Op} _ _ _ _.
Arguments Rejected {Log Op} _.

(** The upstream code of the sandbox, over the upstream context's world [W]. *)
Class SandboxEvm `{R : Revm} (W Op : Type) := {
  Log : Type;
  TransactError : Type;
  is_tx_error : TransactError → bool;
  (** [OpHaltReason::FailedDeposit]. *)
  is_failed_deposit : Op → bool;
  cfg_max_initcode_size : W → Z;
  cfg_disable_eip3607 : W → bool;
  inner_log : Log → OpContext MergeJournal W → OpContext MergeJournal W;
  new_spent : Z → Gas;
  bytecode_default : Bytecode;
  (** [TxEnv::default()] in [MegaTransaction::new]. *)
  tx_env_default : MegaTransaction;
  mint_default : option Z;
  (** [Context::op().with_db(..).with_cfg(CfgEnv::new_with_spec(..))], then the two size limits,
      the block and the chain of another context. *)
  op_context : MegaSpecId → OpContext MergeJournal W;
  limit_contract_sizes : Z → Z → W → W;
  inner_with_block : OpContext MergeJournal W → OpContext MergeJournal W → OpContext MergeJournal W;
  inner_with_chain : OpContext MergeJournal W → OpContext MergeJournal W → OpContext MergeJournal W;
  (** [MegaEvm::transact_raw] on a context over a database. *)
  transact_raw {E S O : Type} `{HS : SaltEnv S} `{HO : OracleEnv O} :
    Database E → SandboxTx → MegaContext MergeJournal W S O →
    panics (MegaContext MergeJournal W S O * result (ResultAndState Log Op) TransactError);
  (** [keylessDeployCall::abi_encode_returns]. *)
  keylessDeploy_encode_returns : Z → Address → Bytes → Bytes;
}.

(** * Building and running the sandbox *)

Section sandbox.
Context `{R : Revm} `{RS : RevmState} `{JO : JournalOps} `{HC : Consensus} `{SE : SolErrors}.
Context {W Op : Type} `{HX : !SandboxEvm W Op} {S : Type} `{HS : SaltEnv S}.
Context {O : Type} `{HO : OracleEnv O} {E : Type} (db : Database E).

Local Notation ctx_t := (MegaContext MergeJournal W S O).
Local Notation error := (KeylessDeployError Op).
Implicit Types ctx : ctx_t.

(** [new_with_shared_ext_envs] of [evm/context.rs]. *)
Definition new_with_shared_ext_envs {S' O'} `{SaltEnv S'} `{OracleEnv O'} (spec : MegaSpecId)
    (salt_env : S') (oracle_env : O') : MegaContext MergeJournal W S' O' :=
  let o := op_context spec in
  let o :=
    if is_enabled spec MINI_REX then
      mkOp (op_tx o) (op_block_number o) (op_beneficiary o) (op_journal o) (op_error o)
        (limit_contract_sizes MAX_CONTRACT_SIZE MAX_INITCODE_SIZE (op_world o))
    else o in
  new_with_context o spec salt_env oracle_env.

(** [with_block] and [with_chain] of [evm/context.rs], from another context. *)
Definition with_block {S' O'} (parent : OpContext MergeJournal W)
    (c : MegaContext MergeJournal W S' O') : MegaContext MergeJournal W S' O' :=
  on_new_block (with_inner c (inner_with_block parent (inner c))).
Definition with_chain {S' O'} (parent : OpContext MergeJournal W)
    (c : MegaContext MergeJournal W S' O') : MegaContext MergeJournal W S' O' :=
  with_inner c (inner_with_chain parent (inner c)).

(** REX6: the created account destroyed itself. *)
Definition is_selfdestructed_at (state : gmap Z Account) (a : Address) : bool :=
  match state !! a with Some acc => SelfDestructed (acc_status acc) | None => false end.

Definition process_sandbox_transact_result
    (res : result (ResultAndState Log Op) TransactError)
    (limit_usage : LimitUsage) (volatile_accesses : VolatileDataAccess)
    (is_rex5_enabled is_rex6_enabled : bool) : SandboxOutcome Log Op :=
  match res with
  | Ok rs =>
      let completed c := Completed (rs_state rs) c limit_usage volatile_accesses in
      match rs_result rs with
      | TxSuccess gas_used (OutputCreate bytecode (Some created_addr)) logs =>
          let selfdestructed :=
            is_rex6_enabled && is_selfdestructed_at (rs_state rs) created_addr in
          if (length bytecode =? 0)%nat || selfdestructed then
            if is_rex5_enabled then completed (EmptyCode gas_used logs)
            else completed (ExecutionFailed gas_used (EmptyCodeDeployed gas_used))
          else completed (Deployed gas_used created_addr logs)
      | TxSuccess _ _ _ => Rejected NoContractCreated
      | TxRevert gas_used output =>
          completed (ExecutionFailed gas_used (ExecutionReverted gas_used output))
      | TxHalt gas_used reason =>
          let failed_deposit :=
            match reason with BaseHalt op => is_failed_deposit op | _ => false end in
          if failed_deposit then Rejected InvalidTransaction
          else completed (ExecutionFailed gas_used (ExecutionHalted gas_used reason))
      end
  | Err e => if is_tx_error e then Rejected InvalidTransaction else Rejected InternalError
  end.

(** The sandbox's context after the run is returned: it holds the shared oracle. *)
Definition run_sandbox_ctx {S' O'} `{SaltEnv S'} `{OracleEnv O'} (sandbox_db : Database E)
    (sandbox_tx : SandboxTx) (sandbox_tx_limits : option EvmTxRuntimeLimits)
    (parent : OpContext MergeJournal W) (sandbox_ctx : MegaContext MergeJournal W S' O')
    : panics (MegaContext MergeJournal W S' O' * SandboxOutcome Log Op) :=
  let sandbox_ctx :=
    match sandbox_tx_limits with
    | Some limits => with_tx_runtime_limits sandbox_ctx limits
    | None => sandbox_ctx
    end in
  let sandbox_ctx := set_inside_sandbox (with_chain parent (with_block parent sandbox_ctx)) true in
  let is_rex5_enabled := is_enabled (ctx_spec sandbox_ctx) REX5 in
  let is_rex6_enabled := is_enabled (ctx_spec sandbox_ctx) REX6 in
  '(sandbox_ctx, res) ← transact_raw sandbox_db sandbox_tx sandbox_ctx;
  let limit_usage := get_usage (additional_limit sandbox_ctx) in
  let volatile_accesses := volatile_data_accessed (volatile_data_tracker sandbox_ctx) in
  Some (sandbox_ctx,
        process_sandbox_transact_result res limit_usage volatile_accesses
          is_rex5_enabled is_rex6_enabled).

(** What the signer must be able to pay; the product of the gas cost wraps to 256 bits. *)
Definition sandbox_total_cost (spec : MegaSpecId) (sandbox_tx : SandboxTx) : option Z :=
  if is_enabled spec REX5 then Some (st_value sandbox_tx)
  else
    let gas_cost := (st_gas_limit sandbox_tx * tx_gas_price (st_tx sandbox_tx)) mod 2 ^ 256 in
    let total := gas_cost + st_value sandbox_tx in
    if total <=? u256_max then Some total else None.

Definition execute_keyless_deploy_sandbox (sandbox_tx : SandboxTx)
    (sandbox_tx_limits : option EvmTxRuntimeLimits) ctx : panics (ctx_t * SandboxOutcome Log Op) :=
  let deploy_signer := tx_caller (st_tx sandbox_tx) in
  let mega_spec := ctx_spec ctx in
  let sandbox_db :=
    with_nonce_override (SandboxDb.new (mj_state (op_journal (inner ctx))) db) deploy_signer in
  match SandboxDb.basic sandbox_db deploy_signer with
  | Err _ => Some (ctx, Rejected InternalError)
  | Ok info =>
      let signer_account := default account_info_default info in
      match sandbox_total_cost mega_spec sandbox_tx with
      | None => Some (ctx, Rejected InsufficientBalance)
      | Some total_cost =>
          if balance signer_account <? total_cost then Some (ctx, Rejected InsufficientBalance)
          else
            let database := as_database bytecode_default sandbox_db in
            if is_enabled mega_spec REX4 then
              (* the oracle environment is shared with the parent *)
              '(sandbox_ctx, outcome) ←
                run_sandbox_ctx database sandbox_tx sandbox_tx_limits (inner ctx)
                  (new_with_shared_ext_envs mega_spec (dg_salt_env (dynamic_storage_gas_cost ctx))
                     (oracle_env ctx));
              Some (with_oracle ctx (oracle_env sandbox_ctx), outcome)
            else
              '(_, outcome) ←
                run_sandbox_ctx database sandbox_tx sandbox_tx_limits (inner ctx)
                  (new_with_shared_ext_envs mega_spec mkEmptyExternalEnv mkEmptyExternalEnv);
              Some (ctx, outcome)
      end
  end.

(** * The sandbox transaction *)

Definition build_fee_free_sandbox_deposit_tx (deploy_signer : Address) (keyless_tx : KeylessTx)
    (raw_tx_bytes : Bytes) (gas_limit : Z) : SandboxTx :=
  let d := tx_env_default in
  mkSandboxTx
    (mkTx (Z.of_nat (length (kt_input keyless_tx))) (tx_access_list d) (tx_authorities d)
       deploy_signer None (tx_base_type d) SANDBOX_TX_SOURCE_HASH 0 0 (tx_chain_id d))
    (kt_input keyless_tx) (kt_value keyless_tx) gas_limit (Some raw_tx_bytes) None.

(** Before Rex5 the sandbox runs at the signed gas price. *)
Definition build_signed_sandbox_tx (deploy_signer : Address) (keyless_tx : KeylessTx)
    (raw_tx_bytes : Bytes) (gas_limit : Z) : SandboxTx :=
  let d := tx_env_default in
  mkSandboxTx
    (mkTx (Z.of_nat (length (kt_input keyless_tx))) (tx_access_list d) (tx_authorities d)
       deploy_signer None (tx_base_type d) (tx_source_hash d) (effective_gas_price keyless_tx) 0
       (tx_chain_id d))
    (kt_input keyless_tx) (kt_value keyless_tx) gas_limit (Some raw_tx_bytes) mint_default.

Definition sandbox_runtime_limits ctx : panics EvmTxRuntimeLimits :=
  let parent_limit := additional_limit ctx in
  let l := limits parent_limit in
  compute ← current_call_remaining_compute_gas parent_limit;
  data ← current_call_remaining_data_size parent_limit;
  kv ← current_call_remaining_kv_updates parent_limit;
  growth ← current_call_remaining_state_growth parent_limit;
  Some (mkTxLimits data kv compute growth (block_env_access_compute_gas_limit l)
          (oracle_access_compute_gas_limit l)).

Definition sandbox_intrinsic_overflow_error (spec : MegaSpecId) (sandbox_tx : SandboxTx)
    (sandbox_tx_limits : option EvmTxRuntimeLimits) : panics (option error) :=
  match sandbox_tx_limits with
  | None => Some None
  | Some l =>
      c ← intrinsic_check_for_tx spec (st_tx sandbox_tx) l;
      Some match c with
           | ExceedsLimit kind limit used _ => Some (ParentBudgetExceeded kind limit used)
           | WithinLimit | Exempt => None
           end
  end.

(** * Reading the signer *)

Definition get_account_nonce (address : Address) ctx : result Z error :=
  match mj_state (op_journal (inner ctx)) !! address with
  | Some acc => Ok (nonce (acc_info acc))
  | None =>
      match Journal.basic db address with
      | Err _ => Err InternalError
      | Ok info => Ok (default 0 (nonce <$> info))
      end
  end.

Definition inspect_signer_parent_state (address : Address) ctx : ctx_t * result AccountInfo error :=
  let j := op_journal (inner ctx) in
  let load_code := negb (cfg_disable_eip3607 (op_world (inner ctx))) in
  let '(i, r) := Journal.inspect_account db address load_code (mj_journal j) in
  (with_journal ctx (mkMergeJournal i (mj_entries j)),
   match r with Ok account => Ok (acc_info account) | Err _ => Err InternalError end).

Definition validate_signer_code (signer_info : AccountInfo) ctx : result unit error :=
  if cfg_disable_eip3607 (op_world (inner ctx)) then Ok tt
  else
    match code signer_info with
    | Some (Eip7702 _) | None => Ok tt
    | Some c => if negb (bytecode_is_empty c) then Err SignerHasCode else Ok tt
    end.

(** * Gas and limits of the call *)

Definition oog_frame_result (gas_limit : Z) (return_memory_offset : Z * Z) : FrameResult :=
  FrameResultCall (mkInterpreterResult OutOfGas [] (new_spent gas_limit)) return_memory_offset.

Definition oog_exceeding_limit (gas : Gas) (return_memory_offset : Z * Z) : FrameResult :=
  mark_frame_result_as_exceeding_limit EXCEEDING_LIMIT_INSTRUCTION_RESULT []
    (oog_frame_result (gas_limit gas) return_memory_offset).

Definition reject_if_tx_limit_overflow (gas : Gas) (return_memory_offset : Z * Z) ctx
    : panics (ctx_t * option FrameResult) :=
  '(a, limit_check) ← AdditionalLimit.check_limit (additional_limit ctx);
  if negb (exceeded_limit limit_check) || is_frame_local limit_check
  then Some (with_additional_limit ctx a, None)
  else
    Some (with_additional_limit ctx (rescue_gas gas a),
          Some (oog_exceeding_limit gas return_memory_offset)).

Definition charge_caller_materialization_pre_sandbox (gas : Gas) (deploy_signer : Address)
    (signer_info : AccountInfo) (return_memory_offset : Z * Z) ctx
    : panics (ctx_t * Gas * result (option FrameResult) error) :=
  if negb (account_info_is_empty signer_info) then Some (ctx, gas, Ok None)
  else
    '(g, r) ← new_account_gas deploy_signer (dynamic_storage_gas_cost ctx);
    let ctx := with_dynamic_gas ctx g in
    match r with
    | Err _ => Some (ctx, gas, Err InternalError)
    | Ok caller_storage_gas =>
        let '(gas, ok) := gas_record_cost gas caller_storage_gas in
        if negb ok then
          Some (ctx, gas, Ok (Some (oog_frame_result (gas_limit gas) return_memory_offset)))
        else
          a ← AdditionalLimit.record_deposit_caller_creation (additional_limit ctx);
          '(ctx, halt) ←
            reject_if_tx_limit_overflow gas return_memory_offset (with_additional_limit ctx a);
          Some (ctx, gas, Ok halt)
    end.

Definition merge_sandbox_limit_usage (limit_usage : LimitUsage) ctx : ctx_t :=
  with_additional_limit ctx (merge_usage limit_usage (additional_limit ctx)).

Definition refund_unused_sandbox_gas (gas : Gas) (reservation sandbox_gas_used : Z) : Gas :=
  let unused := sat_sub reservation sandbox_gas_used in
  if 0 <? unused then gas_erase_cost gas unused else gas.

Definition apply_sandbox_post_accounting (gas : Gas) (limit_usage : LimitUsage)
    (volatile_accesses : VolatileDataAccess) (reservation sandbox_gas_used : Z)
    (return_memory_offset : Z * Z) ctx : panics (ctx_t * Gas * option FrameResult) :=
  let ctx := merge_sandbox_limit_usage limit_usage ctx in
  let ctx :=
    with_tracker ctx (merge_accesses_from_bitmap volatile_accesses (volatile_data_tracker ctx)) in
  let gas := refund_unused_sandbox_gas gas reservation sandbox_gas_used in
  '(ctx, halt) ← reject_if_tx_limit_overflow gas return_memory_offset ctx;
  Some (ctx, gas, halt).

(** * The call *)

(** A part of [execute_keyless_deploy_call]: it goes on with [Ok], or returns with [Err]. *)
Definition flow (A : Type) : Type := ctx_t → Gas → panics (ctx_t * Gas * result A FrameResult).

Definition then_ {A B} (m : flow A) (k : A → flow B) : flow B := λ ctx gas,
  '(ctx, gas, r) ← m ctx gas;
  match r with Ok x => k x ctx gas | Err r => Some (ctx, gas, Err r) end.
Definition return_with {A} (r : Gas → FrameResult) : flow A := λ ctx gas,
  Some (ctx, gas, Err (r gas)).
Definition go_on {A} (x : A) : flow A := λ ctx gas, Some (ctx, gas, Ok x).

Context (call_inputs : CallInputs).
Let return_memory_offset := ci_return_memory_offset call_inputs.

Definition make_error (e : error) (gas : Gas) : FrameResult :=
  FrameResultCall (mkInterpreterResult Revert (encode_error_result e) gas) return_memory_offset.
Definition make_success (gas_used : Z) (deployed_address : Address) (gas : Gas) : FrameResult :=
  FrameResultCall
    (mkInterpreterResult Return_ (keylessDeploy_encode_returns gas_used deployed_address []) gas)
    return_memory_offset.
Definition make_execution_failure (gas_used : Z) (e : error) (gas : Gas) : FrameResult :=
  FrameResultCall
    (mkInterpreterResult Return_
       (keylessDeploy_encode_returns gas_used 0 (encode_error_result e)) gas)
    return_memory_offset.

(** [match r { Ok(x) => .., Err(e) => return make_error!(e) }]. *)
Definition or_error {A} (r : result A error) : flow A :=
  match r with Ok x => go_on x | Err e => return_with (make_error e) end.

(** Step 1. *)
Definition charge_overhead : flow unit := λ ctx gas,
  let cost := KEYLESS_DEPLOY_OVERHEAD_GAS in
  let '(gas, has_sufficient_gas) := gas_record_cost gas cost in
  if negb has_sufficient_gas then
    Some (ctx, gas, Err (oog_frame_result (gas_limit gas) return_memory_offset))
  else if is_enabled (ctx_spec ctx) REX3 then
    '(a, ok) ← record_compute_gas cost (additional_limit ctx);
    if negb ok then
      check ← Interfaces.check_limit (compute_gas a);
      match check with
      | ExceedsLimit _ limit used frame_local =>
          if frame_local then
            Some (with_additional_limit ctx a, gas,
                  Err (make_error (InsufficientComputeGas limit used) gas))
          else
            a ← (if is_enabled (ctx_spec ctx) REX6 then try_rescue_gas gas a else Some a);
            Some (with_additional_limit ctx a, gas,
                  Err (oog_exceeding_limit gas return_memory_offset))
      | WithinLimit | Exempt => None (* unreachable!() *)
      end
    else Some (with_additional_limit ctx a, gas, Ok tt)
  else Some (ctx, gas, Ok tt).

(** Steps 2 to 4: the transaction and the gas limit override. *)
Definition decode_call (tx_bytes : Bytes) (gas_limit_override : U256) : flow (KeylessTx * Z) :=
  λ ctx,
  if negb (ci_value call_inputs =? 0) then return_with (make_error NoEtherTransfer) ctx
  else
    then_ (or_error (decode_keyless_tx tx_bytes (ctx_spec ctx))) (λ keyless_tx ctx,
      let size := Z.of_nat (length (kt_input keyless_tx)) in
      let max := cfg_max_initcode_size (op_world (inner ctx)) in
      let gas_limit_override_u64 :=
        if gas_limit_override <=? u64_max then gas_limit_override else u64_max in
      if negb (kt_nonce keyless_tx =? 0)
      then return_with (make_error (NonZeroTxNonce (kt_nonce keyless_tx))) ctx
      else if is_enabled (ctx_spec ctx) REX5 && (max <? size)
      then return_with (make_error (InitCodeTooLarge size max)) ctx
      else if gas_limit_override_u64 <? kt_gas_limit keyless_tx
      then return_with
             (make_error (GasLimitTooLow (kt_gas_limit keyless_tx) gas_limit_override_u64)) ctx
      else go_on (keyless_tx, gas_limit_override_u64) ctx) ctx.

Definition check_signer_nonce (signer_nonce : Z) : flow unit :=
  if 1 <? signer_nonce then return_with (make_error (SignerNonceTooHigh signer_nonce))
  else go_on tt.

Definition read_signer (deploy_signer : Address) : flow AccountInfo := λ ctx gas,
  let '(ctx, r) := inspect_signer_parent_state deploy_signer ctx in or_error r ctx gas.

Definition materialize_signer (deploy_signer : Address) (signer_info : AccountInfo) : flow unit :=
  λ ctx gas,
  '(ctx, gas, r) ←
    charge_caller_materialization_pre_sandbox gas deploy_signer signer_info return_memory_offset ctx;
  match r with
  | Err e => return_with (make_error e) ctx gas
  | Ok (Some halt) => Some (ctx, gas, Err halt)
  | Ok None => go_on tt ctx gas
  end.

(** Step 5, from Rex5 on and before. *)
Definition admit_signer (deploy_signer : Address) : flow unit := λ ctx,
  if is_enabled (ctx_spec ctx) REX5 then
    then_ (read_signer deploy_signer) (λ signer_info,
    then_ (check_signer_nonce (nonce signer_info)) (λ _ ctx,
    then_ (or_error (validate_signer_code signer_info ctx)) (λ _,
    materialize_signer deploy_signer signer_info) ctx)) ctx
  else
    then_ (or_error (get_account_nonce deploy_signer ctx)) check_signer_nonce ctx.

(** Step 4b: from Rex5 on the override is capped to the gas that is left. *)
Definition cap_override (keyless_tx : KeylessTx) (gas_limit_override : Z) : flow Z := λ ctx gas,
  if is_enabled (ctx_spec ctx) REX5 then
    let capped := Z.min gas_limit_override (gas_remaining gas) in
    if capped <? kt_gas_limit keyless_tx
    then return_with (make_error (GasLimitTooLow (kt_gas_limit keyless_tx) capped)) ctx gas
    else go_on capped ctx gas
  else go_on gas_limit_override ctx gas.

(** Step 7: the deployment address must have no code. *)
Definition read_deploy_code_hash (deploy_address : Address) : flow Z := λ ctx gas,
  if is_enabled (ctx_spec ctx) REX6 then
    let j := op_journal (inner ctx) in
    let '(i, r) := inspect_account_code_hash db deploy_address (mj_journal j) in
    let ctx := with_journal ctx (mkMergeJournal i (mj_entries j)) in
    match r with
    | Err _ => return_with (make_error InternalError) ctx gas
    | Ok h => go_on h ctx gas
    end
  else
    match Journal.basic db deploy_address with
    | Err _ => return_with (make_error InternalError) ctx gas
    | Ok info => go_on (default KECCAK_EMPTY (code_hash <$> info)) ctx gas
    end.

Definition check_unoccupied (deploy_address : Address) : flow unit :=
  then_ (read_deploy_code_hash deploy_address) (λ h,
    if negb (h =? KECCAK_EMPTY) then return_with (make_error ContractAlreadyExists) else go_on tt).

(** Steps 8 and 8b: the limits of the sandbox, the preflight and the reservation of its gas. *)
Definition reserve_sandbox (sandbox_tx : SandboxTx) (gas_limit_override : Z)
    : flow (option EvmTxRuntimeLimits) := λ ctx gas,
  sandbox_tx_limits ←
    (if is_enabled (ctx_spec ctx) REX5 then l ← sandbox_runtime_limits ctx; Some (Some l)
     else Some None);
  overflow ← sandbox_intrinsic_overflow_error (ctx_spec ctx) sandbox_tx sandbox_tx_limits;
  match overflow with
  | Some e => return_with (make_error e) ctx gas
  | None =>
      let gas :=
        if is_enabled (ctx_spec ctx) REX5 then fst (gas_record_cost gas gas_limit_override)
        else gas in
      go_on sandbox_tx_limits ctx gas
  end.

(** Step 9. *)
Definition run_sandbox (sandbox_tx : SandboxTx) (sandbox_tx_limits : option EvmTxRuntimeLimits)
    : flow (SandboxOutcome Log Op) := λ ctx gas,
  '(ctx, outcome) ← execute_keyless_deploy_sandbox sandbox_tx sandbox_tx_limits ctx;
  go_on outcome ctx gas.

Definition account_for_sandbox (limit_usage : LimitUsage) (volatile_accesses : VolatileDataAccess)
    (reservation sandbox_gas_used : Z) : flow unit := λ ctx gas,
  if is_enabled (ctx_spec ctx) REX5 then
    '(ctx, gas, halt) ←
      apply_sandbox_post_accounting gas limit_usage volatile_accesses reservation sandbox_gas_used
        return_memory_offset ctx;
    match halt with Some r => Some (ctx, gas, Err r) | None => go_on tt ctx gas end
  else go_on tt ctx gas.

Definition merge_sandbox_state (state : gmap Z Account) : flow unit := λ ctx gas,
  '(j, r) ← apply_sandbox_state db (ctx_spec ctx) state (op_journal (inner ctx));
  or_error r (with_journal ctx j) gas.

Definition forward_logs (logs : list Log) : flow unit := λ ctx gas,
  go_on tt (with_inner ctx (foldl (flip inner_log) (inner ctx) logs)) gas.

Definition report_completion (deploy_address : Address) (completion : SandboxCompletion Log Op)
    : flow FrameResult :=
  match completion with
  | Deployed gas_used deployed logs =>
      if negb (deployed =? deploy_address) then return_with (make_error AddressMismatch)
      else then_ (forward_logs logs) (λ _, return_with (make_success gas_used deployed))
  | EmptyCode gas_used logs =>
      then_ (forward_logs logs) (λ _,
        return_with (make_execution_failure gas_used (EmptyCodeDeployed gas_used)))
  | ExecutionFailed gas_used error => return_with (make_execution_failure gas_used error)
  end.

Definition finish (deploy_address : Address) (gas_limit_override : Z)
    (outcome : SandboxOutcome Log Op) : flow FrameResult := λ ctx gas,
  match outcome with
  | Completed state completion limit_usage volatile_accesses =>
      then_ (account_for_sandbox limit_usage volatile_accesses gas_limit_override
               (completion_gas_used completion)) (λ _,
      then_ (merge_sandbox_state state) (λ _,
      report_completion deploy_address completion)) ctx gas
  | Rejected e =>
      let gas :=
        if is_enabled (ctx_spec ctx) REX5 then gas_erase_cost gas gas_limit_override else gas in
      return_with (make_error e) ctx gas
  end.

Definition keyless_deploy (tx_bytes : Bytes) (gas_limit_override : U256) : flow FrameResult :=
  then_ charge_overhead (λ _,
  then_ (decode_call tx_bytes gas_limit_override) (λ '(keyless_tx, gas_limit_override),
  then_ (or_error (recover_signer keyless_tx)) (λ deploy_signer,
  let deploy_address := calculate_keyless_deploy_address deploy_signer in
  then_ (admit_signer deploy_signer) (λ _,
  then_ (cap_override keyless_tx gas_limit_override) (λ gas_limit_override ctx,
  let sandbox_tx :=
    (if is_enabled (ctx_spec ctx) REX5 then build_fee_free_sandbox_deposit_tx
     else build_signed_sandbox_tx) deploy_signer keyless_tx tx_bytes gas_limit_override in
  then_ (check_unoccupied deploy_address) (λ _,
  then_ (reserve_sandbox sandbox_tx gas_limit_override) (λ sandbox_tx_limits,
  then_ (run_sandbox sandbox_tx sandbox_tx_limits) (λ outcome,
  finish deploy_address gas_limit_override outcome))) ctx))))).

Definition execute_keyless_deploy_call (tx_bytes : Bytes) (gas_limit_override : U256) ctx
    : panics (ctx_t * FrameResult) :=
  '(ctx, _, r) ← keyless_deploy tx_bytes gas_limit_override ctx (gas_new (ci_gas_limit call_inputs));
  Some (ctx, match r with Ok r | Err r => r end).
End sandbox.

(** The interceptors' interface, implemented. *)
#[export] Instance sandbox_keyless_deploy `{R : Revm} `{RS : RevmState} `{JO : JournalOps}
    `{HC : Consensus} `{SE : SolErrors} {W Op : Type} `{HX : !SandboxEvm W Op} {S : Type}
    `{HS : SaltEnv S} {O : Type} `{HO : OracleEnv O} {E : Type} (db : Database E)
    : KeylessDeploy MergeJournal W S O := {|
  Intercept.execute_keyless_deploy_call := Sandbox.execute_keyless_deploy_call (Op := Op) db;
|}.
