(* ===== verification/SandboxFacts.v ===== *)
(** A keyless deployment keeps the limits and the frames of its caller in step, charges its
    caller for exactly what it used, and changes the caller's state only when it succeeds. *)

From S2P Require Import Prelude Spec Revm LimitCheck Interfaces.
From S2P Require Import ComputeGas DataSize KVUpdate StateGrowth StorageCallStipend.
From S2P Require Import AdditionalLimit AdditionalLimitFacts Access DynamicGas SystemTx Context.
From S2P Require Import Intercept ExecutionFacts Journal JournalFacts KeylessError.
From S2P Require Import StateMerge StateMergeFacts SandboxDb Sandbox.

(** The database of the sandbox answers as [SandboxDb] does. *)
Lemma as_database_basic `{RS : RevmState} `{JO : JournalOps} {E} b (s : SandboxDb E) a :
  Journal.basic (as_database b s) a = SandboxDb.basic s a.
Proof.
  unfold Journal.basic, SandboxDb.basic, as_database. simpl. rewrite map_lookup_imap, lookup_union, lookup_fmap.
  destruct (sd_journal_state s !! a) as [acc|] eqn:Ha; simpl.
  - by rewrite union_Some_l.
  - unfold Journal.basic. destruct (db_account_error (sd_db s) a); [done|].
    rewrite (left_id_L None (∪)). by destruct (db_accounts (sd_db s) !! a).
Qed.

(** What the code relies on of the upstream context and of the run of a transaction: the gas of
    a spent counter, the failure of [record_cost], that a log changes neither accounts nor
    frames, and that a transaction uses at most its gas limit, creates at the address of its
    sender's nonce and leaves 64-bit nonces. *)
Class SandboxEvmLaws `{R : Revm} {W Op : Type} `{HC : Consensus} `{HX : !SandboxEvm W Op}
    `{HF : !FrameStack W} := {
  new_spent_law l : gas_limit (new_spent l) = l ∧ gas_remaining (new_spent l) = 0;
  record_cost_true g c : snd (gas_record_cost g c) = true → c ≤ gas_remaining g;
  record_cost_false g c : snd (gas_record_cost g c) = false → fst (gas_record_cost g c) = g;
  inner_log_journal l (o : OpContext MergeJournal W) : op_journal (inner_log l o) = op_journal o;
  inner_log_frames l (o : OpContext MergeJournal W) :
    frame_count (op_world (inner_log l o)) = frame_count (op_world o) ∧
    frame_finished (op_world (inner_log l o)) = frame_finished (op_world o);
  transact_law {E S O : Type} `{HS : SaltEnv S} `{HO : OracleEnv O} (db : Database E) tx
      (c c' : MegaContext MergeJournal W S O) rs :
    transact_raw db tx c = Some (c', Ok rs) →
    (0 ≤ match rs_result rs with TxSuccess g _ _ | TxRevert g _ | TxHalt g _ => g end
       ≤ st_gas_limit tx) ∧
    (∀ a acc, rs_state rs !! a = Some acc → in_u64 (nonce (acc_info acc))) ∧
    ∀ g bytes a logs, rs_result rs = TxSuccess g (OutputCreate bytes (Some a)) logs →
      ∀ i, Journal.basic db (tx_caller (st_tx tx)) = Ok i →
        a = create_address (tx_caller (st_tx tx)) (default 0 (nonce <$> i));
}.

Section quiet.
Context `{R : Revm} `{RS : RevmState} {RSL : RevmStateLaws RS} `{JO : JournalOps}.
Context `{HC : Consensus} `{SE : SolErrors} {W Op : Type} `{HX : !SandboxEvm W Op}.
Context {S : Type} `{HS : SaltEnv S} {O : Type} `{HO : OracleEnv O} {E : Type} (db : Database E).
Context `{HF : !FrameStack W} {HL : SandboxEvmLaws}.

Local Notation ctx_t := (MegaContext MergeJournal W S O).
Local Notation flow := (flow (W := W) (S := S) (O := O)).
Implicit Types ctx : ctx_t.

(** * Steps that only read the caller's state *)

(** Accounts may be loaded; what is seen of any account, and the journal's entries, stay. *)
Definition reads (j j' : MergeJournal) : Prop :=
  mj_entries j' = mj_entries j ∧ transparent db (mj_journal j) (mj_journal j').

#[export] Instance reads_preorder : PreOrder reads.
Proof. split; [by intros j|]. intros x y z [??] [??]. split; [congruence|by etrans]. Qed.

Definition journal_of ctx : MergeJournal := op_journal (inner ctx).

Definition quiet ctx ctx' : Prop := keeps ctx ctx' ∧ reads (journal_of ctx) (journal_of ctx').

#[export] Instance quiet_preorder : PreOrder quiet.
Proof. split; [by intros ctx|]. intros x y z [??] [??]. split; by etrans. Qed.

(** [P] holds from the start of a flow to its end. *)
Definition flow_rel (P : ctx_t → ctx_t → Prop) {A} (m : flow A) : Prop :=
  ∀ ctx gas ctx' gas' r, m ctx gas = Some (ctx', gas', r) → P ctx ctx'.

Lemma flow_then (P : ctx_t → ctx_t → Prop) `{!PreOrder P} {A B} (m : flow A) (k : A → flow B) :
  flow_rel P m → (∀ x, flow_rel P (k x)) → flow_rel P (then_ m k).
Proof.
  intros Hm Hk ctx gas ctx' gas' r H. unfold then_ in H. bind_inv H. destruct y as [v|v].
  - etrans; [by eapply Hm|by eapply Hk].
  - simplify_eq. by eapply Hm.
Qed.

Lemma flow_go_on (P : ctx_t → ctx_t → Prop) `{!PreOrder P} {A} (x : A) : flow_rel P (go_on x).
Proof. by intros ctx gas ctx' gas' r [= <- _ _]. Qed.

Lemma flow_return_with (P : ctx_t → ctx_t → Prop) `{!PreOrder P} {A} f :
  flow_rel P (return_with (A := A) f).
Proof. by intros ctx gas ctx' gas' r [= <- _ _]. Qed.

Lemma flow_or_error (P : ctx_t → ctx_t → Prop) `{!PreOrder P} {A} ci
    (r : result A (KeylessDeployError Op)) : flow_rel P (or_error ci r).
Proof. destruct r; [by apply flow_go_on|by apply flow_return_with]. Qed.

Lemma quiet_limit ctx a :
  rtc neutral_step (additional_limit ctx) a → quiet ctx (with_additional_limit ctx a).
Proof. intros H. split; [|done]. split; [|done]. by split_and!. Qed.

Lemma quiet_journal ctx j : reads (journal_of ctx) j → quiet ctx (with_journal ctx j).
Proof. by intros H. Qed.

Lemma inspect_reads a lc j (i : Journal) r :
  Journal.inspect_account db a lc (mj_journal j) = (i, r) → reads j (mkMergeJournal i (mj_entries j)).
Proof. intros H. split; [done|]. by apply inspect_account_cases in H as [? _]. Qed.

Lemma code_hash_reads a j (i : Journal) r :
  inspect_account_code_hash db a (mj_journal j) = (i, r) → reads j (mkMergeJournal i (mj_entries j)).
Proof.
  unfold inspect_account_code_hash. intros H. split; [done|]. simpl.
  destruct (jr_state (mj_journal j) !! a) eqn:Ha; [by simplify_eq|].
  destruct (Journal.basic db a) as [o|e] eqn:Hb; [|by simplify_eq]. simplify_eq.
  eapply transparent_load; [done..|]. apply (loaded_view o).
Qed.

Lemma reject_quiet gas off ctx ctx' r :
  reject_if_tx_limit_overflow gas off ctx = Some (ctx', r) → quiet ctx ctx'.
Proof.
  unfold reject_if_tx_limit_overflow. intros H. bind_inv H. case_bools_in H; simplify_eq.
  - apply quiet_limit, rtc_once. by eapply ns_check.
  - apply quiet_limit, rtc_once. eapply (ns_rescue _ gas). unfold try_rescue_gas. rewrite E0. simpl.
    simpl_bools. by rewrite H, H0.
Qed.

Lemma materialize_quiet gas signer info off ctx ctx' gas' r :
  charge_caller_materialization_pre_sandbox gas signer info off ctx = Some (ctx', gas', r) →
  quiet ctx ctx'.
Proof.
  unfold charge_caller_materialization_pre_sandbox. intros H. case_bools_in H; [by simplify_eq|].
  bind_inv H. destruct y as [price|]; [|by simplify_eq].
  destruct (gas_record_cost gas price) as [gas1 ok]. case_bools_in H; [by simplify_eq|].
  bind_inv H. bind_inv H. simplify_eq. apply reject_quiet in E2.
  etrans; [|exact E2]. apply (quiet_limit (with_dynamic_gas ctx x)), rtc_once. by eapply ns_deposit.
Qed.

(** ** The stages before the sandbox *)

Context (ci : CallInputs).
(** Equations between the ends of flows. *)
Ltac flow_eq := unfold return_with, go_on in *; simplify_eq.

Lemma overhead_quiet : flow_rel quiet (charge_overhead ci).
Proof.
  intros ctx gas ctx' gas' r H. unfold charge_overhead in H.
  destruct (gas_record_cost gas _) as [gas1 ok]. destruct (negb ok); [by flow_eq|].
  destruct (is_enabled _ REX3); [|by flow_eq].
  bind_inv H. assert (Hr : neutral_step (additional_limit ctx) x) by (by eapply ns_record).
  destruct (negb y); [|flow_eq; by apply quiet_limit, rtc_once].
  bind_inv H. destruct x0 as [|kind limit used frame_local|]; [done| |done].
  destruct frame_local; [flow_eq; by apply quiet_limit, rtc_once|].
  bind_inv H. flow_eq. apply quiet_limit. eapply rtc_l; [exact Hr|].
  destruct (is_enabled _ REX6); [|by flow_eq]. apply rtc_once. by eapply ns_rescue.
Qed.

Lemma decode_quiet bytes n : flow_rel quiet (decode_call ci bytes n).
Proof.
  intros ctx gas ctx' gas' r H. unfold decode_call in H.
  destruct (negb (ci_value ci =? 0)); [by flow_eq|]. revert H.
  apply (flow_then _); [by apply flow_or_error; apply _|].
  intros tx c1 g1 c2 g2 r2 H2. case_bools_in H2; by flow_eq.
Qed.

Lemma admit_quiet signer : flow_rel quiet (admit_signer db ci signer).
Proof.
  intros ctx gas ctx' gas' r H. unfold admit_signer in H. destruct (is_enabled _ _).
  - revert H. apply (flow_then _).
    + intros c g c' g' r1 H. unfold read_signer in H.
      destruct (inspect_signer_parent_state db signer c) as [c1 r2] eqn:Ei.
      assert (quiet c c1).
      { unfold inspect_signer_parent_state in Ei. destruct (inspect_account _ _ _ _) as [i r3] eqn:E1.
        flow_eq. apply quiet_journal. by eapply inspect_reads. }
      etrans; [eassumption|]. eapply flow_or_error in H; [exact H|apply _].
    + intros info. apply (flow_then _).
      * unfold check_signer_nonce. case_bools; [by apply flow_return_with; apply _|by apply flow_go_on; apply _].
      * intros _ c g c' g' r1. apply (flow_then _); [by apply flow_or_error; apply _|].
        intros _ c1 g1 c2 g2 r2 H. unfold materialize_signer in H. bind_inv H.
        apply materialize_quiet in E0. destruct y as [[|]|]; flow_eq; done.
  - revert H. apply (flow_then _); [by apply flow_or_error; apply _|]. intros n.
    unfold check_signer_nonce. case_bools; [by apply flow_return_with; apply _|by apply flow_go_on; apply _].
Qed.

Lemma cap_quiet tx n : flow_rel quiet (cap_override (Op := Op) ci tx n).
Proof. intros ctx gas ctx' gas' r H. unfold cap_override in H. case_bools_in H; by flow_eq. Qed.

Lemma unoccupied_quiet a : flow_rel quiet (check_unoccupied (Op := Op) db ci a).
Proof.
  unfold check_unoccupied. apply (flow_then _); cycle 1.
  { intros h. case_bools; [by apply flow_return_with; apply _|by apply flow_go_on; apply _]. }
  intros ctx gas ctx' gas' r H. unfold read_deploy_code_hash in H. case_bools_in H.
  - destruct (inspect_account_code_hash _ _ _) as [i r1] eqn:Ei. apply code_hash_reads in Ei.
    destruct r1; flow_eq; by apply quiet_journal.
  - destruct (Journal.basic db a); by flow_eq.
Qed.

Lemma reserve_quiet stx n : flow_rel quiet (reserve_sandbox (Op := Op) ci stx n).
Proof.
  intros ctx gas ctx' gas' r H. unfold reserve_sandbox in H. bind_inv H. bind_inv H.
  destruct x0; by flow_eq.
Qed.

Lemma run_quiet stx l : flow_rel quiet (run_sandbox db stx l).
Proof.
  intros ctx gas ctx' gas' r H. unfold run_sandbox in H. bind_inv H. flow_eq.
  unfold execute_keyless_deploy_sandbox in E0.
  destruct (SandboxDb.basic _ _); [|by flow_eq]. destruct (sandbox_total_cost _ _); [|by flow_eq].
  case_bools_in E0; [by flow_eq|bind_inv E0; by flow_eq..].
Qed.

(** ** The end of the call *)

Lemma account_quiet u v n g : flow_rel quiet (account_for_sandbox ci u v n g).
Proof.
  intros ctx gas ctx' gas' r H. unfold account_for_sandbox in H. case_bools_in H; [|by flow_eq].
  bind_inv H. unfold apply_sandbox_post_accounting in E0. bind_inv E0. flow_eq.
  apply reject_quiet in E1. assert (quiet ctx x) as Hq.
  { etrans; [|exact E1]. etrans; [apply quiet_limit, rtc_once, ns_merge|].
    split; [|done]. by apply tracker_keeps. }
  destruct y; by flow_eq.
Qed.

Lemma merge_keeps state : flow_rel keeps (merge_sandbox_state (Op := Op) db ci state).
Proof.
  intros ctx gas ctx' gas' r H. unfold merge_sandbox_state in H. bind_inv H.
  eapply flow_or_error in H; [|apply keeps_preorder]. by etrans; [|exact H].
Qed.

Lemma logs_keeps logs : flow_rel keeps (forward_logs logs).
Proof.
  intros ctx gas ctx' gas' r [= <- _ _]. split; [done|]. unfold same_frames, frames, finished. simpl.
  assert (H : ∀ o : OpContext MergeJournal W,
    frame_count (op_world (foldl (flip inner_log) o logs)) = frame_count (op_world o) ∧
    frame_finished (op_world (foldl (flip inner_log) o logs)) = frame_finished (op_world o)); [|apply H].
  induction logs as [|l logs IH]; intros o; [done|].
  destruct (IH (inner_log l o)) as [H1 H2]. destruct (inner_log_frames l o) as [H3 H4].
  split; [by etrans; [exact H1|]|by etrans; [exact H2|]].
Qed.

Lemma report_keeps a c : flow_rel keeps (report_completion ci a c).
Proof.
  unfold report_completion. destruct c; try case_bools;
    first [apply flow_return_with; apply _ |
           apply (flow_then _); [apply logs_keeps|intros; apply flow_return_with; apply _]].
Qed.

Lemma finish_keeps a n o : flow_rel keeps (finish db ci a n o).
Proof.
  intros ctx gas ctx' gas' r H. unfold finish in H. destruct o as [st c u v|e].
  - revert H. apply (flow_then _).
    { intros c1 g1 c2 g2 r2 H. by apply account_quiet in H as [? _]. }
    intros _. apply (flow_then _); [apply merge_keeps|intros _; apply report_keeps].
  - case_bools_in H; by flow_eq.
Qed.
Lemma keyless_deploy_flow_keeps bytes n : flow_rel keeps (keyless_deploy (Op := Op) db ci bytes n).
Proof.
  assert (Hq : ∀ A (m : flow A), flow_rel quiet m → flow_rel keeps m).
  { intros A m H c g c' g' r Hm. by apply H in Hm as [? _]. }
  unfold keyless_deploy.
  apply (flow_then _); [apply Hq, overhead_quiet|intros _].
  apply (flow_then _); [apply Hq, decode_quiet|intros [tx m]].
  apply (flow_then _); [by apply flow_or_error; apply _|intros signer].
  apply (flow_then _); [apply Hq, admit_quiet|intros _].
  apply (flow_then _); [apply Hq, cap_quiet|intros m' c g c' g' r].
  apply (flow_then _); [apply Hq, unoccupied_quiet|intros _].
  apply (flow_then _); [apply Hq, reserve_quiet|intros l].
  apply (flow_then _); [apply Hq, run_quiet|intros o]. apply finish_keeps.
Qed.

(** The contract of [OpEvmLaws] on the keyless deployment. *)
Lemma sandbox_keeps bytes n ctx ctx' r :
  execute_keyless_deploy_call (Op := Op) db ci bytes n ctx = Some (ctx', r) → keeps ctx ctx'.
Proof.
  unfold execute_keyless_deploy_call. intros H. bind_inv H. simplify_eq.
  by eapply keyless_deploy_flow_keeps.
Qed.
End quiet.

(** * What a deployment cannot reach in its caller *)

Section caller.
Context `{R : Revm} `{RS : RevmState} `{JO : JournalOps}.
Context `{HC : Consensus} `{SE : SolErrors} {W Op : Type} `{HX : !SandboxEvm W Op}.
Context {S : Type} `{HS : SaltEnv S} {O : Type} `{HO : OracleEnv O} {E : Type} (db : Database E).

Local Notation ctx_t := (MegaContext MergeJournal W S O).
Local Notation flow := (flow (W := W) (S := S) (O := O)).
Implicit Types ctx : ctx_t.

(** A part of the upstream context that a log leaves alone. *)
Context {B : Type} (part : W → B).
Context (part_log : ∀ l (o : OpContext MergeJournal W),
  part (op_world (inner_log l o)) = part (op_world o)).

Definition stays ctx ctx' : Prop :=
  part (op_world (inner ctx')) = part (op_world (inner ctx)) ∧
  ctx_spec ctx' = ctx_spec ctx ∧ system_address ctx' = system_address ctx.

#[local] Instance stays_preorder : PreOrder stays.
Proof.
  split; [by intros ctx|]. intros x y z (?&?&?) (?&?&?). split_and!; congruence.
Qed.

Context (ci : CallInputs).

(** Follows a stage to its ends, at each of which the caller is as it was. *)
Ltac stage_ends H :=
  unfold return_with, go_on in H; cbn beta iota in H;
  repeat (first [bind_inv H | match type of H with context [match ?x with _ => _ end] =>
            let E := fresh "E" in destruct x eqn:E end]; cbn beta iota in H);
  simplify_eq; try done.

Lemma reject_stays gas off ctx ctx' r :
  reject_if_tx_limit_overflow gas off ctx = Some (ctx', r) → stays ctx ctx'.
Proof. unfold reject_if_tx_limit_overflow. intros H. stage_ends H. Qed.

Lemma materialize_stays gas signer info off ctx ctx' gas' r :
  charge_caller_materialization_pre_sandbox gas signer info off ctx = Some (ctx', gas', r) →
  stays ctx ctx'.
Proof.
  unfold charge_caller_materialization_pre_sandbox. intros H.
  stage_ends H; match goal with E : reject_if_tx_limit_overflow _ _ _ = _ |- _ =>
    exact (reject_stays _ _ _ _ _ E) end.
Qed.

Lemma overhead_stays : flow_rel stays (charge_overhead ci).
Proof. intros ctx gas ctx' gas' r H. unfold charge_overhead in H. stage_ends H. Qed.

Lemma decode_stays bytes n : flow_rel stays (decode_call ci bytes n).
Proof.
  intros ctx gas ctx' gas' r H. unfold decode_call in H. destruct (negb _); [stage_ends H|]. revert H.
  apply (flow_then _); [by apply flow_or_error; apply _|].
  intros tx c1 g1 c2 g2 r2 H. stage_ends H.
Qed.

Lemma nonce_stays n : flow_rel stays (check_signer_nonce (Op := Op) ci n).
Proof. intros ctx gas ctx' gas' r H. unfold check_signer_nonce in H. stage_ends H. Qed.

Lemma admit_stays signer : flow_rel stays (admit_signer db ci signer).
Proof.
  intros ctx gas ctx' gas' r H. unfold admit_signer in H. destruct (is_enabled _ _); revert H.
  - apply (flow_then _).
    + intros c g c' g' r1 H. unfold read_signer, inspect_signer_parent_state in H.
      destruct (Journal.inspect_account _ _ _ _) as [i r2].
      eapply flow_or_error in H; [|apply stays_preorder]. by etrans; [|exact H].
    + intros info. apply (flow_then _); [apply nonce_stays|]. intros _ c g c' g' r1.
      apply (flow_then _); [by apply flow_or_error; apply _|].
      intros _ c1 g1 c2 g2 r2 H. unfold materialize_signer in H. bind_inv H.
      apply materialize_stays in E0. stage_ends H.
  - apply (flow_then _); [by apply flow_or_error; apply _|apply nonce_stays].
Qed.

Lemma unoccupied_stays a : flow_rel stays (check_unoccupied (Op := Op) db ci a).
Proof.
  unfold check_unoccupied. apply (flow_then _).
  - intros ctx gas ctx' gas' r H. unfold read_deploy_code_hash in H. stage_ends H.
  - intros h ctx gas ctx' gas' r H. stage_ends H.
Qed.

Lemma run_stays stx l : flow_rel stays (run_sandbox db stx l).
Proof.
  intros ctx gas ctx' gas' r H. unfold run_sandbox in H. bind_inv H. injection H as <- _ _.
  unfold execute_keyless_deploy_sandbox in E0. stage_ends E0.
Qed.

Lemma account_stays u v n g : flow_rel stays (account_for_sandbox ci u v n g).
Proof.
  intros ctx gas ctx' gas' r H. unfold account_for_sandbox in H.
  destruct (is_enabled _ _); [|stage_ends H]. bind_inv H. unfold apply_sandbox_post_accounting in E0.
  bind_inv E0. injection E0 as -> _ _. apply reject_stays in E1.
  assert (Hs : stays ctx x) by exact E1. stage_ends H.
Qed.

Lemma logs_stays logs : flow_rel stays (forward_logs logs).
Proof.
  intros ctx gas ctx' gas' r [= <- _ _]. split; [|done]. simpl. generalize (inner ctx) as o.
  induction logs as [|l logs IH]; intros o; [done|]. simpl. etrans; [apply IH|apply part_log].
Qed.

Lemma report_stays a c : flow_rel stays (report_completion ci a c).
Proof.
  unfold report_completion. destruct c; try case_bools;
    first [apply flow_return_with; apply _ |
           apply (flow_then _); [apply logs_stays|intros; apply flow_return_with; apply _]].
Qed.

Lemma finish_stays a n o : flow_rel stays (finish db ci a n o).
Proof.
  intros ctx gas ctx' gas' r H. unfold finish in H. destruct o as [st c u v|e]; [|stage_ends H].
  revert H. apply (flow_then _); [apply account_stays|]. intros _. apply (flow_then _).
  - intros c1 g1 c2 g2 r2 H. unfold merge_sandbox_state in H. bind_inv H.
    eapply flow_or_error in H; [|apply stays_preorder]. by etrans; [|exact H].
  - intros _. apply report_stays.
Qed.

(** A deployment changes its caller's journal, limits, prices, tracker and oracle, and nothing
    else: not the caller's database, which is not in its context, and not a part of the
    upstream context that a log leaves alone. *)
Lemma sandbox_stays bytes n ctx ctx' r :
  execute_keyless_deploy_call (Op := Op) db ci bytes n ctx = Some (ctx', r) → stays ctx ctx'.
Proof.
  unfold execute_keyless_deploy_call. intros H. bind_inv H. injection H as <- _.
  revert E0. generalize (gas_new (ci_gas_limit ci)). intros gas. apply (flow_then _ _ _ overhead_stays).
  intros _. apply (flow_then _); [apply decode_stays|intros [tx m]].
  apply (flow_then _); [by apply flow_or_error; apply _|intros signer].
  apply (flow_then _); [apply admit_stays|intros _].
  apply (flow_then _); [intros ????? H; unfold cap_override in H; stage_ends H|intros m' c g c' g' r'].
  apply (flow_then _); [apply unoccupied_stays|intros _].
  apply (flow_then _); [intros ????? H; unfold reserve_sandbox in H; stage_ends H|intros l].
  apply (flow_then _); [apply run_stays|intros o]. apply finish_stays.
Qed.
End caller.

(** * Gas and state *)

Section accounting.
Context `{R : Revm} {RL : RevmLaws R} `{RS : RevmState} {RSL : RevmStateLaws RS}.
Context `{JO : JournalOps} {JL : JournalOpsLaws}.
Context `{HC : Consensus} `{SE : SolErrors} {W Op : Type} `{HX : !SandboxEvm W Op}.
Context {S : Type} `{HS : SaltEnv S} {O : Type} `{HO : OracleEnv O} {E : Type} (db : Database E).
Context `{HF : !FrameStack W} {HL : SandboxEvmLaws}.

Local Notation ctx_t := (MegaContext MergeJournal W S O).
Local Notation flow := (flow (W := W) (S := S) (O := O)).
Implicit Types ctx : ctx_t.

Definition wp {A} (m : flow A) (Q : ctx_t → Gas → result A FrameResult → Prop) ctx gas : Prop :=
  ∀ ctx' gas' r, m ctx gas = Some (ctx', gas', r) → Q ctx' gas' r.

Lemma wp_then {A B} (m : flow A) (k : A → flow B) Q ctx gas :
  wp m (λ c g r, match r with Ok x => wp (k x) Q c g | Err r => Q c g (Err r) end) ctx gas →
  wp (then_ m k) Q ctx gas.
Proof.
  intros Hm c' g' r H. unfold then_ in H. bind_inv H. specialize (Hm _ _ _ E0).
  destruct y; [by apply Hm|]. by simplify_eq.
Qed.

(** A flow that looks at the context first. *)
Lemma wp_at {A} (m m' : flow A) Q ctx gas : m ctx gas = m' ctx gas → wp m' Q ctx gas → wp m Q ctx gas.
Proof. intros Hm H c g r. rewrite Hm. apply H. Qed.

Context (ci : CallInputs) (ctx0 : ctx_t).
Let L := ci_gas_limit ci.
Context (HL0 : in_u64 L) (H5 : is_enabled (ctx_spec ctx0) REX5 = true).

(** [paid] has been taken from the call's gas, and the caller's state has only been read. *)
Definition at_ (paid : Z) ctx (gas : Gas) : Prop :=
  quiet db ctx0 ctx ∧ gas_limit gas = L ∧ gas_remaining gas = L - paid ∧ 0 ≤ L - paid.

(** The call ends without a deployment: it halts with all its gas, or reverts and has paid. *)
Definition refused (paid : Z) ctx (r : FrameResult) : Prop :=
  quiet db ctx0 ctx ∧ gas_limit (fr_gas r) = L ∧
  ((fr_instruction_result r = OutOfGas ∧ gas_remaining (fr_gas r) = 0) ∨
   (fr_instruction_result r = Revert ∧ gas_remaining (fr_gas r) = L - paid)).

Lemma refused_error paid ctx gas (e : KeylessDeployError Op) :
  at_ paid ctx gas → refused paid ctx (make_error ci e gas).
Proof. intros (Hq & Hl & Hr & _). split_and!; [done|done|]. by right. Qed.

Lemma refused_oog paid ctx gas off :
  quiet db ctx0 ctx → gas_limit gas = L →
  refused paid ctx (oog_frame_result (gas_limit gas) off) ∧
  refused paid ctx (oog_exceeding_limit gas off).
Proof.
  intros Hq Hl. destruct (new_spent_law (gas_limit gas)) as [H1 H2].
  split; (split_and!; [done|simpl; unfold fr_gas; simpl; congruence|by left]).
Qed.

Lemma quiet_spec ctx : quiet db ctx0 ctx → is_enabled (ctx_spec ctx) REX5 = true.
Proof. intros [[(Hs & _) _] _]. by rewrite Hs. Qed.

(** Charging [c] from a counter that holds [L - paid]. *)
Lemma record_cost_at paid ctx gas c gas' ok :
  at_ paid ctx gas → 0 ≤ c → gas_record_cost gas c = (gas', ok) →
  if ok then at_ (paid + c) ctx gas' else gas' = gas.
Proof.
  intros (Hq & Hl & Hr & Hp) Hc Hg. pose proof (gas_record_cost_ok gas c) as H.
  pose proof (record_cost_true gas c) as Ht. pose proof (record_cost_false gas c) as Hf.
  rewrite Hg in *. simpl in *. destruct ok; [|by apply Hf]. specialize (Ht eq_refl).
  destruct H as [H1 H2]; [lia|]. split_and!; [done|congruence|lia|lia].
Qed.

Lemma at_move paid ctx ctx' gas : at_ paid ctx gas → quiet db ctx ctx' → at_ paid ctx' gas.
Proof. intros (Hq & H) Hq'. split; [by etrans|done]. Qed.

(** What the materialization of the signer may cost: nothing, or the price of an account. *)
Definition charged (m : Z) : Prop :=
  m = 0 ∨ ∃ signer g, new_account_gas signer (dynamic_storage_gas_cost ctx0) = Some (g, Ok m).

(** A flow that ends in [Q], or refuses the call after [paid]. *)
Definition or_refused {A} (paid : Z) (Q : ctx_t → Gas → A → Prop) ctx gas (r : result A FrameResult)
    : Prop :=
  match r with Ok x => Q ctx gas x | Err r => refused paid ctx r end.

Lemma overhead_at gas :
  at_ 0 ctx0 gas →
  wp (charge_overhead ci)
    (or_refused KEYLESS_DEPLOY_OVERHEAD_GAS (λ c g _, at_ KEYLESS_DEPLOY_OVERHEAD_GAS c g ∧
       dynamic_storage_gas_cost c = dynamic_storage_gas_cost ctx0)) ctx0 gas.
Proof.
  intros Hat c g r H. pose proof (overhead_quiet db ci _ _ _ _ _ H) as Hq. unfold charge_overhead in H.
  destruct (gas_record_cost gas _) as [gas1 ok] eqn:Eg.
  pose proof (record_cost_at _ _ _ KEYLESS_DEPLOY_OVERHEAD_GAS _ _ Hat ltac:(done) Eg) as Hg.
  destruct ok; simpl in H; cycle 1.
  { simplify_eq. apply refused_oog; [done|]. apply Hat. }
  assert (Hat1 : at_ KEYLESS_DEPLOY_OVERHEAD_GAS c gas1) by (destruct Hg as [_ Hg]; by split).
  destruct (is_enabled _ REX3); [|by simplify_eq]. bind_inv H. destruct (negb y); [|by simplify_eq].
  bind_inv H. destruct x0 as [|kind limit used frame_local|]; [done| |done].
  destruct frame_local; [simplify_eq; by apply refused_error|]. bind_inv H. simplify_eq.
  apply refused_oog; [done|]. apply Hat1.
Qed.

Definition decoded (bytes : Bytes) (tx : KeylessTx) : Prop :=
  rlp_decode_signed bytes = Some (tx, []) ∧ kt_to tx = None ∧ kt_chain_id tx = None ∧ kt_nonce tx = 0.

Lemma decode_keyless_ok bytes spec (tx : KeylessTx) :
  is_enabled spec REX5 = true → decode_keyless_tx (Op := Op) bytes spec = Ok tx →
  rlp_decode_signed bytes = Some (tx, []) ∧ kt_to tx = None ∧ kt_chain_id tx = None.
Proof.
  intros Hs. unfold decode_keyless_tx. rewrite Hs. destruct (rlp_decode_signed bytes) as [[t buf]|]; [|done].
  destruct buf; [|done]. simpl. destruct (kt_to t) eqn:?; [done|]. destruct (kt_chain_id t) eqn:?; [done|].
  by intros [= ->].
Qed.

Lemma decode_at p bytes n ctx gas :
  at_ p ctx gas → 0 ≤ n →
  wp (decode_call ci bytes n)
    (or_refused p (λ c g '(tx, m), c = ctx ∧ g = gas ∧ decoded bytes tx ∧ kt_gas_limit tx ≤ m ∧ 0 ≤ m))
    ctx gas.
Proof.
  intros Hat Hn c g r H. unfold decode_call in H.
  destruct (negb (ci_value ci =? 0)); [injection H as <- <- <-; by apply refused_error|].
  revert H. apply wp_then. intros c1 g1 r1 H1.
  destruct (decode_keyless_tx bytes (ctx_spec ctx)) as [tx|e] eqn:Ed; injection H1 as <- <- <-;
    [|by apply refused_error].
  destruct Hat as [Hq Hat]. apply decode_keyless_ok in Ed as (H1 & H2 & H3); [|by apply quiet_spec].
  intros c2 g2 r2 H. destruct (negb (kt_nonce tx =? 0)) eqn:En; [injection H as <- <- <-; by apply refused_error|].
  destruct (is_enabled _ REX5 && _); [injection H as <- <- <-; by apply refused_error|].
  destruct (_ <? kt_gas_limit tx) eqn:El in H; [injection H as <- <- <-; by apply refused_error|].
  injection H as <- <- <-. simpl_bools. split_and!; try done. case_bools; [done|u64_lia].
Qed.

Context (Hdg : dg_spec (dynamic_storage_gas_cost ctx0) = ctx_spec ctx0).

Lemma new_account_gas_nonneg a (g g' : DynamicGasCost S) m :
  is_enabled (dg_spec g) REX = true → new_account_gas a g = Some (g', Ok m) → 0 ≤ m.
Proof.
  intros Hs. unfold new_account_gas, with_multiplier. intros H. bind_inv H.
  destruct y as [mul|]; [|done]. injection H as <- <-.
  assert (Hd : dg_spec x = dg_spec g).
  { unfold load_bucket_cost_multiplier in E0. destruct (_ !! _); [by simplify_eq|].
    destruct (get_bucket_capacity _ _); [|by simplify_eq]. bind_inv E0. by simplify_eq. }
  unfold new_account_gas_for_multiplier. rewrite Hd, Hs. apply sat_mul_range; [done|].
  pose proof (wsub_range mul 1). u64_lia.
Qed.

Lemma materialize_at p signer info ctx gas :
  at_ p ctx gas → dynamic_storage_gas_cost ctx = dynamic_storage_gas_cost ctx0 →
  wp (materialize_signer ci signer info)
    (λ c g r, ∃ m, charged m ∧ or_refused (p + m) (λ c g _, at_ (p + m) c g) c g r) ctx gas.
Proof.
  intros Hat Hd c g r H. unfold materialize_signer in H. bind_inv H.
  pose proof (materialize_quiet db _ _ _ _ _ _ _ _ E0) as Hq.
  unfold charge_caller_materialization_pre_sandbox in E0.
  destruct (negb _).
  { simplify_eq. exists 0. rewrite Z.add_0_r. injection H as <- <- <-. split; [by left|done]. }
  bind_inv E0. rewrite Hd in E1. destruct y1 as [price|e]; cycle 1.
  { simplify_eq. exists 0. rewrite Z.add_0_r. injection H as <- <- <-. split; [by left|].
    apply refused_error. by eapply at_move. }
  assert (Hp : 0 ≤ price).
  { eapply new_account_gas_nonneg; [|exact E1]. rewrite Hdg. by eapply is_enabled_trans. }
  destruct (gas_record_cost gas price) as [gas1 ok] eqn:Eg.
  pose proof (record_cost_at _ _ _ _ _ _ Hat Hp Eg) as Hg. exists price.
  assert (Hc : charged price) by (right; eauto). split; [done|]. destruct ok; simpl in E0; cycle 1.
  { simplify_eq. apply refused_oog; [|apply Hat]. destruct Hat as [? _]. by etrans. }
  bind_inv E0. bind_inv E0. injection E0 as -> <- <-.
  assert (Hat1 : at_ (p + price) x gas1).
  { destruct Hat as [Hq0 _], Hg as [_ Hg]. split; [by etrans|done]. }
  destruct y1 as [halt|]; injection H as <- <- <-; [|done].
  unfold reject_if_tx_limit_overflow in E3. bind_inv E3. destruct (_ || _); [done|]. simplify_eq.
  apply refused_oog; apply Hat1.
Qed.

Lemma wp_or_error {A} p (x : result A (KeylessDeployError Op)) ctx gas :
  at_ p ctx gas → wp (or_error ci x) (or_refused p (λ c g y, c = ctx ∧ g = gas ∧ x = Ok y)) ctx gas.
Proof.
  intros Hat c g r H. destruct x; injection H as <- <- <-; [done|]. by apply refused_error.
Qed.

Lemma admit_at p signer ctx gas :
  at_ p ctx gas → dynamic_storage_gas_cost ctx = dynamic_storage_gas_cost ctx0 →
  wp (admit_signer db ci signer)
    (λ c g r, ∃ m, charged m ∧ or_refused (p + m) (λ c g _, at_ (p + m) c g) c g r) ctx gas.
Proof.
  intros Hat Hd. eapply wp_at; [unfold admit_signer; by rewrite quiet_spec by apply Hat|].
  assert (Hno : ∀ c r, refused p c r → ∃ m, charged m ∧ refused (p + m) c r).
  { intros c1 r1 H1. exists 0. rewrite Z.add_0_r. split; [by left|done]. }
  apply wp_then. intros c1 g1 r1 H1. unfold read_signer, inspect_signer_parent_state in H1.
  destruct (Journal.inspect_account _ _ _ _) as [i r2] eqn:Ei. apply inspect_reads in Ei.
  eapply at_move in Hat; [|by apply (quiet_journal db _ _ Ei)].
  eapply wp_or_error in H1; [|exact Hat]. destruct r1 as [info|]; [|by apply Hno].
  destruct H1 as (-> & -> & _). apply wp_then. intros c2 g2 r3 H2. unfold check_signer_nonce in H2.
  destruct (1 <? nonce info); injection H2 as <- <- <-; [by apply Hno, refused_error|].
  apply wp_then. intros c3 g3 r4 H3. eapply wp_or_error in H3; [|exact Hat].
  destruct r4; [|by apply Hno]. destruct H3 as (-> & -> & _). by apply materialize_at.
Qed.

Lemma cap_at p tx n ctx gas :
  at_ p ctx gas → 0 ≤ n →
  wp (cap_override (Op := Op) ci tx n)
    (or_refused p (λ c g m, c = ctx ∧ g = gas ∧ kt_gas_limit tx ≤ m ≤ L - p ∧ 0 ≤ m)) ctx gas.
Proof.
  intros Hat Hn c g r H. unfold cap_override in H. rewrite quiet_spec in H by apply Hat.
  destruct (_ <? kt_gas_limit tx) eqn:El; injection H as <- <- <-; [by apply refused_error|].
  apply Z.ltb_ge in El. destruct Hat as (_ & _ & Hr & Hp). split_and!; try done; lia.
Qed.

Lemma unoccupied_at p a ctx gas :
  at_ p ctx gas →
  wp (check_unoccupied (Op := Op) db ci a) (or_refused p (λ c g _, at_ p c g ∧ g = gas)) ctx gas.
Proof.
  intros Hat. unfold check_unoccupied. apply wp_then. intros c g r H.
  assert (Hat1 : at_ p c gas).
  { eapply at_move; [exact Hat|]. unfold read_deploy_code_hash in H. destruct (is_enabled (ctx_spec ctx) REX6).
    - destruct (inspect_account_code_hash _ _ _) as [i r1] eqn:Ei. apply code_hash_reads in Ei.
      destruct r1; injection H as <- _ _; by apply quiet_journal.
    - destruct (Journal.basic db a); by injection H as <- _ _. }
  assert (Hr : g = gas ∧ match r with Ok _ => True | Err r => r = make_error ci (InternalError (Op := Op)) gas end).
  { unfold read_deploy_code_hash in H. destruct (is_enabled (ctx_spec ctx) REX6).
    - destruct (inspect_account_code_hash _ _ _) as [i r1]. destruct r1; by injection H as _ <- <-.
    - destruct (Journal.basic db a); by injection H as _ <- <-. }
  destruct Hr as [-> Hr]. destruct r as [h|]; [|subst; by apply refused_error].
  intros c1 g1 r1 H1. destruct (negb _); injection H1 as <- <- <-; [by apply refused_error|done].
Qed.

Lemma reserve_at p stx n ctx gas :
  at_ p ctx gas → 0 ≤ n ≤ L - p →
  wp (reserve_sandbox (Op := Op) ci stx n) (or_refused p (λ c g _, at_ (p + n) c g ∧ c = ctx)) ctx gas.
Proof.
  intros Hat Hn c g r H. unfold reserve_sandbox in H. rewrite quiet_spec in H by apply Hat.
  bind_inv H. bind_inv H. destruct x0 as [e|]; injection H as <- <- <-; [by apply refused_error|].
  split; [|done]. destruct Hat as (Hq & Hl & Hr & Hp).
  destruct (gas_record_cost_ok gas n) as [H1 H2]; [lia|]. split_and!; [done|congruence|lia|lia].
Qed.

(** ** The sandbox *)

Definition transact_gas_used {Log} (r : TransactResult Log Op) : Z :=
  match r with TxSuccess g _ _ | TxRevert g _ | TxHalt g _ => g end.

Lemma process_completed res u v b5 b6 st (comp : SandboxCompletion Log Op) u' v' :
  process_sandbox_transact_result res u v b5 b6 = Completed st comp u' v' →
  ∃ rs, res = Ok rs ∧ st = rs_state rs ∧ completion_gas_used comp = transact_gas_used (rs_result rs) ∧
    ∀ g a logs, comp = Deployed g a logs →
      ∃ bytes, rs_result rs = TxSuccess g (OutputCreate bytes (Some a)) logs.
Proof.
  unfold process_sandbox_transact_result. destruct res as [rs|e]; [|by case_bools].
  intros H. exists rs. split; [done|]. destruct (rs_result rs) as [g [?|bytes [a|]] logs|g out|g reason] eqn:Er; try done.
  - case_bools_in H; simplify_eq; try done. split_and!; [done..|]. intros ??? [= <- <- <-]. eauto.
  - by simplify_eq.
  - destruct reason; simpl in H; case_bools_in H; by simplify_eq.
Qed.

Lemma run_ctx_completed {S' O'} `{SaltEnv S'} `{OracleEnv O'} (d : Database E) stx l parent
    (c c' : MegaContext MergeJournal W S' O') st (comp : SandboxCompletion Log Op) u v :
  run_sandbox_ctx d stx l parent c = Some (c', Completed st comp u v) →
  0 ≤ completion_gas_used comp ≤ st_gas_limit stx ∧
  (∀ a acc, st !! a = Some acc → in_u64 (nonce (acc_info acc))) ∧
  ∀ g a logs, comp = Deployed g a logs →
    ∀ i, Journal.basic d (tx_caller (st_tx stx)) = Ok i →
      a = create_address (tx_caller (st_tx stx)) (default 0 (nonce <$> i)).
Proof.
  unfold run_sandbox_ctx. intros H1. bind_inv H1. injection H1 as <- H1.
  apply process_completed in H1 as (rs & -> & -> & Hg & Ha).
  apply transact_law in E0 as (H2 & H3 & H4). split; [by rewrite Hg|]. split; [done|].
  intros g a logs Hd i Hi. destruct (Ha g a logs Hd) as [bytes Hb]. by eapply H4.
Qed.

Lemma sandbox_completed stx l ctx c st (comp : SandboxCompletion Log Op) u v :
  execute_keyless_deploy_sandbox db stx l ctx = Some (c, Completed st comp u v) →
  0 ≤ completion_gas_used comp ≤ st_gas_limit stx ∧
  (∀ a acc, st !! a = Some acc → in_u64 (nonce (acc_info acc))) ∧
  ∀ g a logs, comp = Deployed g a logs → a = calculate_keyless_deploy_address (tx_caller (st_tx stx)).
Proof.
  unfold execute_keyless_deploy_sandbox. set (signer := tx_caller (st_tx stx)).
  set (sdb := with_nonce_override _ signer). destruct (SandboxDb.basic sdb signer) as [i|] eqn:Hb; [|done].
  destruct (sandbox_total_cost _ _); [|done]. destruct (_ <? _); [done|].
  assert (Hn : default 0 (nonce <$> i) = 0).
  { unfold SandboxDb.basic in Hb. unfold override_nonce in Hb. simpl in Hb.
    rewrite bool_decide_true in Hb by done.
    destruct (mj_state _ !! signer); [by simplify_eq|].
    destruct (Journal.basic db signer) as [[|]|]; by simplify_eq. }
  assert (Hfin : ∀ g a logs, (∀ i, Journal.basic (as_database bytecode_default sdb) signer = Ok i →
      a = create_address signer (default 0 (nonce <$> i))) → comp = Deployed g a logs →
      a = calculate_keyless_deploy_address signer).
  { intros g a logs H _. unfold calculate_keyless_deploy_address. rewrite <- Hn at 1. apply H.
    by rewrite as_database_basic. }
  destruct (is_enabled _ REX4); intros H; bind_inv H; injection H as <- ->;
    apply run_ctx_completed in E0 as (H1 & H2 & H3); (split; [done|split; [done|eauto]]).
Qed.

(** ** Merging *)

(** The entries are the old ones and every account of the caller shows its old values. *)
Definition restored (j j' : MergeJournal) : Prop :=
  mj_entries j' = mj_entries j ∧
  ∀ a acc, mj_state j !! a = Some acc →
    ∃ acc', mj_state j' !! a = Some acc' ∧ restores (view acc) (view acc').

(** The nonces the transaction sees are 64-bit. *)
Definition u64_nonces (j : MergeJournal) : Prop :=
  ∀ a b n h, JournalFacts.view db (mj_journal j) a = Ok (b, n, h) → in_u64 n.

Lemma merge_or_restore st j0 j j' r :
  reads db j0 j → u64_nonces j0 → (∀ a acc, st !! a = Some acc → in_u64 (nonce (acc_info acc))) →
  apply_sandbox_state_journaled (Op := Op) db st j = Some (j', r) →
  match r with Ok _ => True | Err _ => restored j0 j' end.
Proof.
  intros [He (_ & Hv & Hs)] Hn Hst. unfold apply_sandbox_state_journaled, apply_sandbox_state_journaled_inner.
  destruct (merge_accounts_outcome (Op := Op) db (map_to_list st) j) as (j1 & r1 & E1 & Hout).
  { apply NoDup_fst_map_to_list. }
  { intros a sacc Ha%elem_of_map_to_list. split; [by eapply Hst|]. intros v Hpv.
    apply (Hn a (v_balance v) (v_nonce v) (v_code_hash v)). rewrite <- Hv.
    unfold parent_view in Hpv. unfold JournalFacts.view. unfold mj_state in Hpv.
    destruct (jr_state (mj_journal j) !! a); [by simplify_eq|].
    destruct (Journal.basic db a); by simplify_eq. }
  rewrite E1. simpl. destruct r1 as [|e]; intros [= <- <-]; [done|].
  apply covered_revert in Hout as [H1 H2]. split; [congruence|]. intros a acc Ha.
  destruct (Hs a acc Ha) as (acc1 & Ha1 & Hsame). destruct (H2 a acc1 Ha1) as (acc2 & Ha2 & Hr).
  exists acc2. split; [done|]. etrans; [by apply view_same|done].
Qed.

Context (Hn0 : u64_nonces (journal_of ctx0)).

(** How a call ends whose sandbox [comp] was merged, or could not be. *)
Definition settled (paid : Z) (j : MergeJournal) st (comp : SandboxCompletion Log Op) ctx
    (r : FrameResult) : Prop :=
  gas_limit (fr_gas r) = L ∧ gas_remaining (fr_gas r) = L - (paid + completion_gas_used comp) ∧
  ((fr_instruction_result r = Return_ ∧
    apply_sandbox_state_journaled (Op := Op) db st j = Some (journal_of ctx, Ok tt)) ∨
   (fr_instruction_result r = Revert ∧ restored (journal_of ctx0) (journal_of ctx))).

Lemma refund_at p n g ctx gas :
  at_ (p + n) ctx gas → 0 ≤ p → 0 ≤ g ≤ n → at_ (p + g) ctx (refund_unused_sandbox_gas gas n g).
Proof.
  intros (Hq & Hl & Hr & Hp) Hp0 Hg. unfold refund_unused_sandbox_gas.
  assert (Hs : sat_sub n g = n - g) by u64_lia. rewrite Hs. destruct (0 <? n - g) eqn:Elt.
  - destruct (gas_erase_cost_ok gas (n - g)) as [H1 H2]; [simpl_bools; lia|u64_lia|].
    split_and!; [done|congruence|lia|lia].
  - simpl_bools. split_and!; [done|done|lia|lia].
Qed.

Lemma account_at p n g u v ctx gas :
  at_ (p + n) ctx gas → 0 ≤ p → 0 ≤ g ≤ n →
  wp (account_for_sandbox ci u v n g)
    (or_refused p (λ c gas _, at_ (p + g) c gas ∧ journal_of c = journal_of ctx)) ctx gas.
Proof.
  intros Hat Hp Hg c gas' r H. pose proof (account_quiet db _ _ _ _ _ _ _ _ _ _ H) as Hq.
  unfold account_for_sandbox in H. rewrite quiet_spec in H by apply Hat. bind_inv H.
  unfold apply_sandbox_post_accounting in E0. bind_inv E0. injection E0 as -> <- <-.
  assert (Hj : journal_of x = journal_of ctx).
  { unfold reject_if_tx_limit_overflow in E1. bind_inv E1. case_bools_in E1; by simplify_eq. }
  assert (Hat1 : at_ (p + g) c gas').
  { apply (at_move _ ctx); [|done]. destruct y1; injection H as <- <- <-; by apply refund_at. }
  destruct y1 as [halt|]; injection H as <- <- <-; [|done].
  unfold reject_if_tx_limit_overflow in E1. bind_inv E1. destruct (_ || _); [done|]. simplify_eq.
  apply refused_oog; apply Hat1.
Qed.

Lemma logs_journal logs (o : OpContext MergeJournal W) :
  op_journal (foldl (flip inner_log) o logs) = op_journal o.
Proof.
  revert o. induction logs as [|l logs IH]; intros o; [done|]. etrans; [apply (IH (inner_log l o))|].
  apply inner_log_journal.
Qed.

(** A result that carries the call's gas counter. *)
Lemma report_settled paid j st comp a ctx gas :
  gas_limit gas = L → gas_remaining gas = L - (paid + completion_gas_used comp) →
  (∀ g b logs, comp = Deployed g b logs → b = a) →
  apply_sandbox_state_journaled (Op := Op) db st j = Some (journal_of ctx, Ok tt) →
  wp (report_completion ci a comp)
    (λ c _ r, match r with Ok _ => False | Err r => settled paid j st comp c r end) ctx gas.
Proof.
  intros Hl Hr Ha Hj. unfold report_completion. destruct comp as [g b logs|g logs|g e].
  - rewrite (Ha g b logs eq_refl), Z.eqb_refl. apply wp_then. intros c1 g1 r1 [= <- <- <-].
    intros c g2 r [= <- <- <-]. split_and!; [done|done|]. left. split; [done|].
    unfold journal_of. simpl. by rewrite logs_journal.
  - apply wp_then. intros c1 g1 r1 [= <- <- <-]. intros c g2 r [= <- <- <-].
    split_and!; [done|done|]. left. split; [done|]. unfold journal_of. simpl. by rewrite logs_journal.
  - intros c g2 r [= <- <- <-]. split_and!; [done|done|]. by left.
Qed.

Lemma finish_at p n a stx l ctx1 o ctx gas :
  at_ (p + n) ctx gas → 0 ≤ p → 0 ≤ n → st_gas_limit stx = n →
  a = calculate_keyless_deploy_address (tx_caller (st_tx stx)) →
  execute_keyless_deploy_sandbox db stx l ctx1 = Some (ctx, o) →
  wp (finish db ci a n o)
    (λ c _ r, match r with
              | Ok _ => False
              | Err r =>
                  refused p c r ∨
                  ∃ st comp u v, o = Completed st comp u v ∧ settled p (journal_of ctx) st comp c r
              end) ctx gas.
Proof.
  intros Hat Hp Hn Hs -> Hrun. unfold finish. destruct o as [st comp u v|e]; cycle 1.
  { intros c g r H. rewrite quiet_spec in H by apply Hat. injection H as <- <- <-. left.
    apply refused_error. destruct Hat as (Hq & Hl & Hr & Hp').
    destruct (gas_erase_cost_ok gas n) as [H1 H2]; [lia|u64_lia|]. split_and!; [done|congruence|lia|lia]. }
  apply sandbox_completed in Hrun as Hc. destruct Hc as (Hg & Hst & Had). rewrite Hs in Hg.
  apply (wp_then (account_for_sandbox _ _ _ _ _)). intros c1 g1 r1 H1.
  eapply account_at in H1; [|done..]. destruct r1 as [[]|r1]; [|by left].
  destruct H1 as [Hat1 Hj]. apply wp_then. intros c2 g2 r2 H2. unfold merge_sandbox_state in H2.
  bind_inv H2. unfold apply_sandbox_state in E0. rewrite quiet_spec in E0 by apply Hat1.
  unfold journal_of in Hj. rewrite Hj in E0.
  destruct Hat1 as (Hq1 & Hl1 & Hr1 & Hp1). assert (Hread : reads db (journal_of ctx0) (journal_of ctx)).
  { destruct Hat as [[_ Hrd] _]. done. }
  pose proof (merge_or_restore _ _ _ _ _ Hread Hn0 Hst E0) as Hm.
  destruct y as [[]|e]; injection H2 as <- <- <-.
  - intros c g r H. eapply report_settled in H; [|done..].
    destruct r; [done|]. right. exists st, comp, u, v. by split.
  - right. exists st, comp, u, v. split; [done|]. split_and!; [done|done|]. by right.
Qed.

Lemma charged_nonneg m : charged m → 0 ≤ m.
Proof.
  intros [->|(signer & g & H)]; [done|]. eapply new_account_gas_nonneg; [|exact H].
  rewrite Hdg. by eapply is_enabled_trans.
Qed.

(** A sandbox that ran to its end on behalf of the signer of the decoded transaction, for free
    and with at least the signed gas limit, over a caller whose state was only read. *)
Definition sandbox_ran (bytes : Bytes) (paid : Z) ctx st (comp : SandboxCompletion Log Op) : Prop :=
  quiet db ctx0 ctx ∧
  ∃ tx stx l ctx1 u v,
    decoded bytes tx ∧ consensus_recover_signer tx = Some (tx_caller (st_tx stx)) ∧
    tx_gas_price (st_tx stx) = 0 ∧ st_data stx = kt_input tx ∧ st_value stx = kt_value tx ∧
    kt_gas_limit tx ≤ st_gas_limit stx ≤ L - paid ∧
    execute_keyless_deploy_sandbox db stx l ctx1 = Some (ctx, Completed st comp u v).

Lemma keyless_deploy_at bytes n :
  0 ≤ n →
  wp (keyless_deploy (Op := Op) db ci bytes n)
    (λ c _ r, match r with
              | Ok _ => False
              | Err r =>
                  ∃ m, charged m ∧ let paid := KEYLESS_DEPLOY_OVERHEAD_GAS + m in
                    (refused paid c r ∨
                     ∃ ctx st comp, sandbox_ran bytes paid ctx st comp ∧
                       settled paid (journal_of ctx) st comp c r)
              end) ctx0 (gas_new L).
Proof.
  intros Hn. assert (Hno : ∀ c r, refused KEYLESS_DEPLOY_OVERHEAD_GAS c r →
    ∃ m, charged m ∧ let paid := KEYLESS_DEPLOY_OVERHEAD_GAS + m in refused paid c r ∨
      ∃ ctx st comp, sandbox_ran bytes paid ctx st comp ∧ settled paid (journal_of ctx) st comp c r).
  { intros c r H. exists 0. split; [by left|]. left. by rewrite Z.add_0_r. }
  assert (H0 : at_ 0 ctx0 (gas_new L)).
  { split_and!; [done|apply gas_limit_new|rewrite gas_remaining_new; lia|u64_lia]. }
  unfold keyless_deploy. apply wp_then. intros c1 g1 r1 H1. eapply overhead_at in H1; [|done].
  destruct r1 as [|r1]; [|by apply Hno]. destruct H1 as [H1 Hd].
  apply wp_then. intros c2 g2 r2 H2. eapply decode_at in H2; [|done..].
  destruct r2 as [[tx m1]|r2]; [|by apply Hno]. destruct H2 as (-> & -> & Htx & Hm1 & Hm0).
  apply wp_then. intros c3 g3 r3 H3. eapply wp_or_error in H3; [|done].
  destruct r3 as [signer|r3]; [|by apply Hno]. destruct H3 as (-> & -> & Hsig).
  apply wp_then. intros c4 g4 r4 H4. eapply admit_at in H4; [|done..]. destruct H4 as (m & Hm & H4).
  destruct r4 as [|r4]; [|exists m; split; [done|by left]]. simpl in H4.
  pose proof (charged_nonneg m Hm) as Hm'.
  apply wp_then. intros c5 g5 r5 H5'. eapply cap_at in H5'; [|done..].
  destruct r5 as [n1|r5]; [|exists m; split; [done|by left]]. destruct H5' as (-> & -> & Hcap & Hn1).
  eapply wp_at; [cbv zeta beta; by rewrite quiet_spec by apply H4|].
  set (stx := build_fee_free_sandbox_deposit_tx _ _ _ _).
  apply (wp_then (check_unoccupied db ci _)). intros c6 g6 r6 H6. eapply unoccupied_at in H6; [|done].
  destruct r6 as [|r6]; [|exists m; split; [done|by left]]. destruct H6 as [H6 ->].
  apply wp_then. intros c7 g7 r7 H7. eapply reserve_at in H7; [|done|lia].
  destruct r7 as [l|r7]; [|exists m; split; [done|by left]]. destruct H7 as [H7 ->].
  apply wp_then. intros c8 g8 r8 H8. pose proof (run_quiet db _ _ _ _ _ _ _ H8) as Hq8.
  unfold run_sandbox in H8. bind_inv H8. injection H8 as -> <- <-. eapply at_move in H7; [|exact Hq8].
  intros c g r H. eapply (finish_at _ n1 _ stx) in H; [|done|unfold KEYLESS_DEPLOY_OVERHEAD_GAS; lia|done|done|done|done].
  destruct r as [|r]; [done|]. exists m. split; [done|]. destruct H as [H|(st & comp & u & v & -> & H)]; [by left|].
  right. exists c8, st, comp. split; [|done]. split; [apply H7|]. exists tx, stx, l, c6, u, v.
  unfold recover_signer in Hsig. split_and!; try done; try (simpl; lia).
  by destruct (consensus_recover_signer tx); simplify_eq.
Qed.
End accounting.

(** C39: a keyless deployment pays for itself and is all or nothing, from Rex5 on.  Whatever the
    sandbox does, the call reports its own gas limit, and one of four things happened.  It
    halted: all its gas is spent and the caller's state was only read.  It was refused or the
    sandbox was rejected: it reverts, has spent the fixed overhead and at most the price of
    materializing the signer, and the caller's state was only read.  The sandbox ran, for the
    signer of the decoded transaction, at no fee, with at least the signed gas limit and at most
    the gas the call had left: the call has spent the overhead, the materialization and exactly
    the gas the sandbox used, and either it returns and the journal is the merge of the
    sandbox's state, or the merge failed, it reverts, and every account of the caller shows its
    old values with the old journal entries. *)
Theorem keyless_deploy_settles `{R : Revm} {RL : RevmLaws R} `{RS : RevmState}
    {RSL : RevmStateLaws RS} `{JO : JournalOps} {JL : JournalOpsLaws} `{HC : Consensus}
    `{SE : SolErrors} {W Op S O E : Type} `{HX : !SandboxEvm W Op} `{HS : SaltEnv S}
    `{HO : OracleEnv O} `{HF : !FrameStack W} {HL : SandboxEvmLaws} (db : Database E)
    (call_inputs : CallInputs) (tx_bytes : Bytes) (gas_limit_override : U256)
    (ctx ctx' : MegaContext MergeJournal W S O) (r : FrameResult) :
  in_u64 (ci_gas_limit call_inputs) → 0 ≤ gas_limit_override →
  is_enabled (ctx_spec ctx) REX5 = true →
  dg_spec (dynamic_storage_gas_cost ctx) = ctx_spec ctx →
  u64_nonces db (journal_of ctx) →
  execute_keyless_deploy_call (Op := Op) db call_inputs tx_bytes gas_limit_override ctx =
    Some (ctx', r) →
  let limit := ci_gas_limit call_inputs in
  let left := gas_remaining (fr_gas r) in
  gas_limit (fr_gas r) = limit ∧
  ((fr_instruction_result r = OutOfGas ∧ left = 0 ∧ reads db (journal_of ctx) (journal_of ctx')) ∨
   ∃ m, charged ctx m ∧ let paid := KEYLESS_DEPLOY_OVERHEAD_GAS + m in
     ((fr_instruction_result r = Revert ∧ left = limit - paid ∧
       reads db (journal_of ctx) (journal_of ctx')) ∨
      ∃ ctx1 st comp, sandbox_ran db call_inputs ctx tx_bytes paid ctx1 st comp ∧
        left = limit - (paid + completion_gas_used comp) ∧
        ((fr_instruction_result r = Return_ ∧
          apply_sandbox_state_journaled (Op := Op) db st (journal_of ctx1) =
            Some (journal_of ctx', Ok tt)) ∨
         (fr_instruction_result r = Revert ∧ restored (journal_of ctx) (journal_of ctx'))))).
Proof.
  intros HL0 Hn H5 Hdg Hn0 H. unfold execute_keyless_deploy_call in H. bind_inv H. simplify_eq.
  eapply keyless_deploy_at in E0; [|done..]. destruct y as [|fr]; [done|].
  destruct E0 as (m & Hm & [(Hq & Hl & [Ho|Hr])|(ctx1 & st & comp & Hran & Hl & Hg & Ho)]).
  - split; [done|]. left. destruct Hq as [_ Hq]. by destruct Ho.
  - split; [done|]. right. exists m. split; [done|]. left. destruct Hq as [_ Hq]. by destruct Hr.
  - split; [done|]. right. exists m. split; [done|]. right. by exists ctx1, st, comp.
Qed.

(** * A reference sandbox

    A transaction is its gas limit; it is signed by account 1 and every run creates a contract
    with one byte of code for 5000 gas. *)

Section reference.

#[export] Instance reference_consensus : Consensus := {|
  rlp_decode_signed bytes :=
    match bytes with
    | g :: rest => Some (mkKeylessTx 0 0 g None 0 [96] None (27, 1, 1), rest)
    | [] => None
    end;
  consensus_recover_signer _ := Some 1;
  effective_gas_price := kt_gas_price;
  create_address a n := 1000 + 10 * a + n;
|}.

Definition ref_op_context (spec : MegaSpecId) : OpContext MergeJournal unit :=
  mkOp (ref_tx 0 None) 0 0 (mkMergeJournal (mkJournal ∅ 0) []) None tt.

Definition ref_created_account : Account :=
  mkAccount (mkAccountInfo 0 1 99 (Some (OtherBytecode [96]))) ∅
    (mkStatus true true false false true false false) 0.

Definition ref_transact {E Op} (db : Database E) (tx : SandboxTx)
    : result (ResultAndState unit Op) bool :=
  let signer := tx_caller (st_tx tx) in
  match Journal.basic db signer with
  | Ok (Some i) =>
      if (st_gas_limit tx <? 5000) || negb (in_u64b (nonce i)) then Err true
      else
        let created := create_address signer (nonce i) in
        Ok (mkResultAndState (TxSuccess 5000 (OutputCreate [96] (Some created)) [tt])
              {[ created := ref_created_account; signer := mkAccount
                   (mkAccountInfo (balance i) 1 (code_hash i) (code i)) ∅
                   (mkStatus false false false false true false false) 0 ]})
  | _ => Err true
  end.

#[export] Instance reference_sandbox : SandboxEvm unit unit := {|
  Log := unit;
  TransactError := bool;
  is_tx_error b := b;
  is_failed_deposit _ := true;
  cfg_max_initcode_size _ := MAX_INITCODE_SIZE;
  cfg_disable_eip3607 _ := false;
  inner_log _ o := o;
  new_spent l := mkRefGas l 0;
  bytecode_default := OtherBytecode [];
  tx_env_default := mkTx 0 (Some []) [] 0 None 0 0 0 0 None;
  mint_default := None;
  op_context := ref_op_context;
  limit_contract_sizes _ _ w := w;
  inner_with_block p o :=
    mkOp (op_tx o) (op_block_number p) (op_beneficiary p) (op_journal o) (op_error o) (op_world o);
  inner_with_chain _ o := o;
  transact_raw _ _ _ _ _ db tx c := Some (c, ref_transact db tx);
  keylessDeploy_encode_returns g a e := g :: a :: e;
|}.

#[export] Instance reference_stack : FrameStack unit :=
  {| frame_count _ := 0%nat; frame_finished _ := false |}.

#[export] Instance reference_sandbox_laws : SandboxEvmLaws.
Proof.
  split; try done.
  - intros g c. simpl. destruct (c <=? rg_remaining g) eqn:Ec; [|done]. intros _. by apply Z.leb_le.
  - intros g c. simpl. by destruct (c <=? rg_remaining g).
  - intros E S O HS HO db tx c c' rs [= <- H]. unfold ref_transact in H.
    destruct (Journal.basic db _) as [[i|]|] eqn:Hb; try done.
    destruct (_ || _) eqn:Ho; [done|]. injection H as <-. apply orb_false_iff in Ho as [Hlt _].
    apply Z.ltb_ge in Hlt. split_and!; simpl; try lia.
    + intros a acc. rewrite lookup_insert_Some, lookup_singleton_Some. by intros [[_ <-]|[_ [_ <-]]].
    + intros g bytes a logs [= _ _ <- _] j [= <-]. done.
Qed.

Definition sandbox_parent (spec : MegaSpecId)
    : MegaContext MergeJournal unit EmptyExternalEnv EmptyExternalEnv :=
  new_with_context (mkOp (ref_tx 7 (Some KEYLESS_DEPLOY_ADDRESS)) 10 99 merge_parent None tt)
    spec mkEmptyExternalEnv mkEmptyExternalEnv.

Definition sandbox_call : CallInputs :=
  mkCallInputs 1000000 KEYLESS_DEPLOY_ADDRESS 7 SchemeCall false (0, 0) (Some 0) (InputBytes []) 0.

Definition sandbox_result (spec : MegaSpecId) : option (RefInstructionResult * Z * Bytes) :=
  match execute_keyless_deploy_call (Op := unit) ref_db sandbox_call [200000] 500000
          (sandbox_parent spec) with
  | Some (_, r) =>
      Some (fr_instruction_result r, gas_remaining (fr_gas r), ir_output (fr_interpreter_result r))
  | None => None
  end.
End reference.

(** A deployment for 5000 gas of a call with a million, by a signer that exists. *)
Lemma keyless_deploy_settles_witness :
  ∃ ctx' r m ctx1 st comp,
    execute_keyless_deploy_call (Op := unit) ref_db sandbox_call [200000] 500000
      (sandbox_parent REX5) = Some (ctx', r) ∧
    gas_remaining (fr_gas r) = 895000 ∧
    charged (sandbox_parent REX5) m ∧
    sandbox_ran ref_db sandbox_call (sandbox_parent REX5) [200000]
      (KEYLESS_DEPLOY_OVERHEAD_GAS + m) ctx1 st comp ∧
    895000 = 1000000 - (KEYLESS_DEPLOY_OVERHEAD_GAS + m + completion_gas_used comp) ∧
    apply_sandbox_state_journaled (Op := unit) ref_db st (journal_of ctx1) =
      Some (journal_of ctx', Ok tt).
Proof.
  assert (Hn : u64_nonces ref_db (journal_of (sandbox_parent REX5))).
  { intros a b n h. unfold JournalFacts.view. change (mj_journal _) with (mj_journal merge_parent).
    unfold merge_parent. cbn [mj_journal jr_state]. destruct (decide (a = 1)) as [->|Hne].
    - rewrite lookup_singleton_eq. intros [= _ <- _]. by vm_compute.
    - rewrite lookup_singleton_ne by done. intros [= _ <- _]. by vm_compute. }
  assert (H1 : in_u64 (ci_gas_limit sandbox_call)) by (by vm_compute).
  assert (H2 : 0 ≤ 500000) by lia.
  assert (H3 : is_enabled (ctx_spec (sandbox_parent REX5)) REX5 = true) by reflexivity.
  assert (H4 : dg_spec (dynamic_storage_gas_cost (sandbox_parent REX5)) = ctx_spec (sandbox_parent REX5))
    by reflexivity.
  assert (Hr : sandbox_result REX5 = Some (RefReturn, 895000, [5000; 1010])) by (by vm_compute).
  unfold sandbox_result in Hr.
  destruct (execute_keyless_deploy_call (Op := unit) ref_db sandbox_call [200000] 500000
              (sandbox_parent REX5)) as [[ctx' r]|] eqn:E; [|done].
  injection Hr as Hi Hg _. change (gas_remaining (fr_gas r) = 895000) in Hg.
  destruct (keyless_deploy_settles (Op := unit) ref_db sandbox_call [200000] 500000
              (sandbox_parent REX5) ctx' r H1 H2 H3 H4 Hn E) as (_ & Hc).
  rewrite Hi in Hc. destruct Hc as [(Hx & _)|(m & Hm & [(Hx & _)|(ctx1 & st & comp & Hran & Hl & Hc)])];
    [discriminate Hx..|]. destruct Hc as [[_ Hc]|[Hx _]]; [|discriminate Hx]. rewrite Hg in Hl.
  exists ctx', r, m, ctx1, st, comp. exact (conj eq_refl (conj Hg (conj Hm (conj Hran (conj Hl Hc))))).
Defined.

(** * The unreachable arm *)

Section unreachable_arm.
Context `{R : Revm} `{RS : RevmState} `{HC : Consensus} `{SE : SolErrors} {W Op : Type}.
Context `{HX : !SandboxEvm W Op} {S : Type} `{HS : SaltEnv S} {O : Type} `{HO : OracleEnv O}.

(** With no limit exceeded yet, a refused overhead always has a verdict to report. *)
Lemma overhead_reports ci (ctx : MegaContext MergeJournal W S O) gas a :
  has_exceeded_limit (additional_limit ctx) = WithinLimit →
  record_compute_gas KEYLESS_DEPLOY_OVERHEAD_GAS (additional_limit ctx) = Some (a, false) →
  snd (gas_record_cost gas KEYLESS_DEPLOY_OVERHEAD_GAS) = true →
  is_enabled (ctx_spec ctx) REX3 = true → is_enabled (ctx_spec ctx) REX6 = false →
  is_Some (charge_overhead ci ctx gas).
Proof.
  intros Hw Hrec Hg H3 H6. unfold charge_overhead. destruct (gas_record_cost gas _) as [g ok].
  simpl in Hg. subst ok. simpl. rewrite H3, Hrec. simpl. unfold record_compute_gas in Hrec.
  simpl in Hrec. rewrite Hw in Hrec. simpl in Hrec. bind_inv Hrec.
  destruct x as [|k l u fl|]; simpl in Hrec; [done| |done]. injection Hrec as <-. simpl in *.
  rewrite E. simpl. destruct fl; [done|]. by rewrite H6.
Qed.
End unreachable_arm.

(** In Rex3 a transaction that exceeds its data size before its first frame reaches the arm: the
    verdict is the data size's, the compute gas tracker has none, and the call panics. *)
Definition rex3_parent : MegaContext MergeJournal unit EmptyExternalEnv EmptyExternalEnv :=
  with_tx_runtime_limits (sandbox_parent REX3)
    (mkTxLimits 100 u64_max u64_max u64_max u64_max u64_max).

Example rex3_overhead_panics :
  match on_new_tx rex3_parent with
  | Some ctx =>
      exceeded_limit (has_exceeded_limit (additional_limit ctx)) &&
      match execute_keyless_deploy_call (Op := unit) ref_db sandbox_call [200000] 500000 ctx with
      | Some _ => false | None => true end
  | None => false
  end = true.
Proof. by vm_compute. Qed.
