(* ===== verification/BucketHasher.v ===== *)
(** The SALT bucket hash: [external/hasher/]: the vendored AHash fallback and the mapping of a
    key to a bucket.

    A byte is a [Z] below 256.  Slicing panics out of range, so every read is an [option]. *)

From S2P Require Import Prelude DynamicGas.

(** * [convert.rs] *)

Definition split_at (n : nat) (data : list Z) : panics (list Z * list Z) :=
  if (n <=? length data)%nat then Some (take n data, drop n data) else None.

(** [uN::from_le_bytes]. *)
Fixpoint from_le_bytes (bytes : list Z) : Z :=
  match bytes with [] => 0 | b :: bytes => b + 256 * from_le_bytes bytes end.

(** [read_u16], [read_u32], [read_u64], [read_u128]: [n] is the number of bytes. *)
Definition read_le (n : nat) (data : list Z) : panics (Z * list Z) :=
  '(value, rest) ← split_at n data; Some (from_le_bytes value, rest).

(** [read_last_u32], [read_last_u64], [read_last_u128]: [self.len() - n] underflows, and the
    slice panics, when the data is shorter. *)
Definition read_last_le (n : nat) (data : list Z) : panics Z :=
  if (n <=? length data)%nat then
    '(_, value) ← split_at (length data - n) data; Some (from_le_bytes value)
  else None.

(** * [fallback.rs] *)

Definition read_small (data : list Z) : panics (Z * Z) :=
  if (2 <=? length data)%nat then
    if (4 <=? length data)%nat then
      '(a, _) ← read_le 4 data; b ← read_last_le 4 data; Some (a, b)
    else
      '(a, _) ← read_le 2 data; b ← last data; Some (a, b)
  else match data with b :: _ => Some (b, b) | [] => Some (0, 0) end.

Definition PI2 : Z * Z * Z * Z :=
  (0x452821e638d01377, 0xbe5466cf34e90c6c, 0xc0ac29b7c97c50dd, 0x3f84d5b5b5470917).

Definition MULTIPLE : Z := 6364136223846793005.
Definition ROT : Z := 23.

Definition folded_multiply (s by_ : Z) : Z :=
  let result := (s * by_) mod 2 ^ 128 in
  Z.lxor (Z.land result u64_max) (Z.shiftr result 64).

(** [u64::rotate_left]. *)
Definition rotate_left (x n : Z) : Z :=
  wrap64 (Z.lor (Z.shiftl x n) (Z.shiftr x (64 - n))).

Record RandomState : Type := mkRandomState { k0 : Z; k1 : Z; k2 : Z; k3 : Z }.

Definition with_seeds (s0 s1 s2 s3 : Z) : RandomState :=
  let '(p0, p1, p2, p3) := PI2 in
  mkRandomState (Z.lxor s0 p0) (Z.lxor s1 p1) (Z.lxor s2 p2) (Z.lxor s3 p3).

Record DeterministicHasher : Type := mkHasher {
  buffer : Z;
  pad : Z;
  extra_keys : Z * Z;
}.

Definition build_hasher (r : RandomState) : DeterministicHasher :=
  mkHasher (k1 r) (k0 r) (k2 r, k3 r).

Definition with_buffer (h : DeterministicHasher) (b : Z) : DeterministicHasher :=
  mkHasher b (pad h) (extra_keys h).

Definition update (new_data : Z) (h : DeterministicHasher) : DeterministicHasher :=
  with_buffer h (folded_multiply (Z.lxor new_data (buffer h)) MULTIPLE).

Definition large_update (new_data : Z) (h : DeterministicHasher) : DeterministicHasher :=
  let block0 := wrap64 new_data in
  let block1 := wrap64 (Z.shiftr new_data 64) in
  let combined :=
    folded_multiply (Z.lxor block0 (fst (extra_keys h))) (Z.lxor block1 (snd (extra_keys h))) in
  with_buffer h (rotate_left (Z.lxor (buffer h +w pad h) combined) ROT).

(** The typed writes. *)
Definition write_u64 (i : Z) (h : DeterministicHasher) : DeterministicHasher := update i h.
Definition write_u128 (i : Z) (h : DeterministicHasher) : DeterministicHasher := large_update i h.

(** [while data.len() > 16]: one block of sixteen bytes per round. *)
Fixpoint write_blocks (fuel : nat) (data : list Z) (h : DeterministicHasher)
    : panics DeterministicHasher :=
  match fuel with
  | O => None
  | S fuel =>
      if (16 <? length data)%nat then
        '(block, rest) ← read_le 16 data;
        write_blocks fuel rest (large_update block h)
      else Some h
  end.

Definition write (input : list Z) (h : DeterministicHasher) : panics DeterministicHasher :=
  let length_ := Z.of_nat (length input) in
  let h := with_buffer h (wmul (buffer h +w length_) MULTIPLE) in
  if (8 <? length input)%nat then
    if (16 <? length input)%nat then
      tail ← read_last_le 16 input;
      write_blocks (S (length input)) input (large_update tail h)
    else
      '(front, _) ← read_le 8 input;
      back ← read_last_le 8 input;
      Some (large_update (Z.lor front (Z.shiftl back 64)) h)
  else
    '(v0, v1) ← read_small input;
    Some (large_update (Z.lor v0 (Z.shiftl v1 64)) h).

Definition finish (h : DeterministicHasher) : Z :=
  let rot := Z.land (buffer h) 63 in
  rotate_left (folded_multiply (buffer h) (pad h)) rot.

(** * [mod.rs] *)

Definition TRIE_WIDTH_BITS : Z := 8.
Definition MAIN_TRIE_LEVELS : Z := 4.
Definition NUM_BUCKETS : Z := Z.shiftl 1 ((MAIN_TRIE_LEVELS - 1) * TRIE_WIDTH_BITS).
Definition NUM_META_BUCKETS : Z := NUM_BUCKETS / MIN_BUCKET_SIZE.
Definition NUM_KV_BUCKETS : Z := NUM_BUCKETS - NUM_META_BUCKETS.

Definition HASH_BUILDER : RandomState := with_seeds 0x921321f4 0x2ccb667e 0x60d68842 0x077ada9d.

Definition hash (bytes : list Z) : panics Z :=
  hasher ← write bytes (build_hasher HASH_BUILDER); Some (finish hasher).

(** The final cast to [u32]. *)
Definition bucket_id (key : list Z) : panics Z :=
  h ← hash key; Some ((h mod NUM_KV_BUCKETS +w NUM_META_BUCKETS) mod 2 ^ 32).

(** * Every key has a bucket *)

Lemma read_le_Some n data :
  (n ≤ length data)%nat → read_le n data = Some (from_le_bytes (take n data), drop n data).
Proof. intros H. unfold read_le, split_at. by rewrite (proj2 (Nat.leb_le _ _) H). Qed.

Lemma read_last_le_Some n data :
  (n ≤ length data)%nat → is_Some (read_last_le n data).
Proof.
  intros H. unfold read_last_le, split_at. rewrite (proj2 (Nat.leb_le _ _) H).
  rewrite (proj2 (Nat.leb_le _ _)) by lia. by eexists.
Qed.

Lemma read_small_total data : is_Some (read_small data).
Proof.
  unfold read_small. destruct (Nat.leb_spec 2 (length data)).
  - destruct (Nat.leb_spec 4 (length data)).
    + rewrite read_le_Some by done. simpl. destruct (read_last_le_Some 4 data) as [b ->]; [done|].
      by eexists.
    + rewrite read_le_Some by done. simpl.
      destruct (last data) as [b|] eqn:E; [by eexists|]. apply last_None in E. subst; simpl in *; lia.
  - destruct data as [|b [|]]; by eexists.
Qed.

Lemma write_blocks_total fuel data h :
  (length data < fuel)%nat → is_Some (write_blocks fuel data h).
Proof.
  revert data h. induction fuel as [|fuel IH]; intros data h H; [lia|]. simpl.
  destruct (Nat.ltb_spec 16 (length data)); [|by eexists].
  rewrite read_le_Some by lia. apply IH. rewrite length_drop. lia.
Qed.

Lemma write_total input h : is_Some (write input h).
Proof.
  unfold write. destruct (Nat.ltb_spec 8 (length input)).
  - destruct (Nat.ltb_spec 16 (length input)).
    + destruct (read_last_le_Some 16 input) as [t ->]; [lia|]. apply write_blocks_total. lia.
    + rewrite read_le_Some by lia. simpl.
      destruct (read_last_le_Some 8 input) as [t ->]; [lia|]. by eexists.
  - destruct (read_small_total input) as [[a b] ->]. by eexists.
Qed.

(** Every key has a data bucket.  For any bytes the hash is computed without an
    out-of-range slice and its block loop ends, the hash is a 64-bit value, and the bucket
    lies above the metadata buckets and within the trie, so the cast to 32 bits is exact. *)
Lemma bucket_id_total_range (key : list Z) :
  ∃ h, hash key = Some h ∧ in_u64 h ∧
       bucket_id key = Some (h mod NUM_KV_BUCKETS + NUM_META_BUCKETS) ∧
       NUM_META_BUCKETS ≤ h mod NUM_KV_BUCKETS + NUM_META_BUCKETS < NUM_BUCKETS.
Proof.
  unfold bucket_id, hash. destruct (write_total key (build_hasher HASH_BUILDER)) as [hs ->]. simpl.
  exists (finish hs).
  assert (Hb : 0 ≤ finish hs mod NUM_KV_BUCKETS < NUM_KV_BUCKETS) by (apply Z.mod_pos_bound; done).
  change NUM_KV_BUCKETS with 16711680 in *. change NUM_META_BUCKETS with 65536.
  change NUM_BUCKETS with 16777216.
  split_and!; [done|apply wrap64_range..| |lia|lia].
  rewrite wadd_small by u64_lia. by rewrite Z.mod_small by lia.
Qed.

(** The repository's own test vectors. *)
Lemma hash_vectors :
  hash [104; 101; 108; 108; 111] = Some 1027176506268606463 ∧
  hash [119; 111; 114; 108; 100] = Some 2337896903564117184 ∧
  hash [104; 97; 115; 104; 32; 116; 101; 115; 116] = Some 2116618212096523432 ∧
  bucket_id (replicate 20 0) = Some 12666336 ∧
  bucket_id [0xde; 0xad; 0xbe; 0xef; 0xca; 0xfe; 0xba; 0xbe; 0; 1; 2; 3; 4; 5; 6; 7; 8; 9; 10; 11] =
    Some 12196828 ∧
  bucket_id ([0xde; 0xad; 0xbe; 0xef; 0xca; 0xfe; 0xba; 0xbe; 0; 1; 2; 3; 4; 5; 6; 7; 8; 9; 10; 11]
    ++ replicate 31 0 ++ [1]) = Some 9450146.
Proof. by vm_compute. Qed.
