(* ===== verification/Hardfork.v ===== *)
(** Hardfork configuration: [block/hardfork.rs].

    A fork is identified by its name; the [Hardfork] trait and the Ethereum and Optimism forks
    are upstream.  [ForkCondition] and its timestamp test are upstream types with documented
    behaviour: only a timestamp condition is ever active at a timestamp. *)

From S2P Require Import Prelude Spec.

Inductive MegaHardfork : Type :=
  | MiniRex | MiniRex1 | MiniRex2 | Rex | Rex1 | Rex2 | Rex3 | Rex4 | Rex5 | Rex6.

#[export] Instance MegaHardfork_eq_dec : EqDecision MegaHardfork.
Proof. solve_decision. Defined.

Definition fork_spec_id (h : MegaHardfork) : MegaSpecId :=
  match h with
  | MiniRex => MINI_REX
  | MiniRex1 => EQUIVALENCE
  | MiniRex2 => MINI_REX
  | Rex => REX
  | Rex1 => REX1
  | Rex2 => REX2
  | Rex3 => REX3
  | Rex4 => REX4
  | Rex5 => REX5
  | Rex6 => REX6
  end.

(** [Hardfork::name]: the variant's name. *)
Definition fork_name (h : MegaHardfork) : string :=
  match h with
  | MiniRex => "MiniRex"
  | MiniRex1 => "MiniRex1"
  | MiniRex2 => "MiniRex2"
  | Rex => "Rex"
  | Rex1 => "Rex1"
  | Rex2 => "Rex2"
  | Rex3 => "Rex3"
  | Rex4 => "Rex4"
  | Rex5 => "Rex5"
  | Rex6 => "Rex6"
  end.

Inductive ForkCondition : Type :=
  | Block (n : Z)
  | TTD (activation_block_number : Z) (fork_block : option Z) (total_difficulty : Z)
  | Timestamp (t : Z)
  | Never.

Definition active_at_timestamp (c : ForkCondition) (timestamp : Z) : bool :=
  match c with Timestamp t => t <=? timestamp | _ => false end.

Section config.
(** The type of fork parameters ([dyn Any]) and their validation. *)
Context {P : Type} (validate : P → bool).

Record ForkEntry : Type := mkForkEntry {
  fe_fork : string;
  fe_condition : ForkCondition;
  fe_params : option P;
}.

Definition MegaHardforkConfig : Type := list ForkEntry.
Implicit Types c : MegaHardforkConfig.

(** [From<Iterator>]. *)
Definition from_iter (l : list (string * ForkCondition)) : MegaHardforkConfig :=
  map (λ x, mkForkEntry x.1 x.2 None) l.

Definition new : MegaHardforkConfig :=
  from_iter
    [ ("Frontier", Block 0); ("Homestead", Block 0); ("Dao", Block 0); ("Tangerine", Block 0);
      ("SpuriousDragon", Block 0); ("Byzantium", Block 0); ("Constantinople", Block 0);
      ("Petersburg", Block 0); ("Istanbul", Block 0); ("Berlin", Block 0); ("London", Block 0);
      ("Paris", TTD 0 None 0); ("Bedrock", Block 0); ("Regolith", Timestamp 0);
      ("Shanghai", Timestamp 0); ("Canyon", Timestamp 0); ("Cancun", Timestamp 0);
      ("Ecotone", Timestamp 0); ("Fjord", Timestamp 0); ("Granite", Timestamp 0);
      ("Holocene", Timestamp 0); ("Prague", Timestamp 0); ("Isthmus", Timestamp 0) ]%string.

(** [position], then an update in place, or a push at the end. *)
Fixpoint insert (fork : string) (condition : ForkCondition) c : MegaHardforkConfig :=
  match c with
  | [] => [mkForkEntry fork condition None]
  | e :: c =>
      if String.eqb (fe_fork e) fork then mkForkEntry (fe_fork e) condition (fe_params e) :: c
      else e :: insert fork condition c
  end.

Definition with_ (fork : string) (condition : ForkCondition) c : MegaHardforkConfig :=
  insert fork condition c.

Definition with_all_activated c : MegaHardforkConfig :=
  foldl (λ c h, insert (fork_name h) (Timestamp 0) c) c
    [MiniRex; MiniRex1; MiniRex2; Rex; Rex1; Rex2; Rex3; Rex4; Rex5; Rex6].

Definition without (h : MegaHardfork) c : MegaHardforkConfig :=
  List.filter (λ e, negb (String.eqb (fe_fork e) (fork_name h))) c.

Definition find_entry (fork : string) c : option ForkEntry :=
  List.find (λ e, String.eqb (fe_fork e) fork) c.

Definition get (fork : string) c : option ForkCondition := fe_condition <$> find_entry fork c.

Fixpoint set_params (fork : string) (params : P) c : MegaHardforkConfig :=
  match c with
  | [] => []
  | e :: c =>
      if String.eqb (fe_fork e) fork then mkForkEntry (fe_fork e) (fe_condition e) (Some params) :: c
      else e :: set_params fork params c
  end.

(** Panics on invalid parameters and on a fork that is not registered. *)
Definition with_params (fork : MegaHardfork) (params : P) c : panics MegaHardforkConfig :=
  if negb (validate params) then None
  else
    match find_entry (fork_name fork) c with
    | None => None
    | Some _ => Some (set_params (fork_name fork) params c)
    end.

Definition fork_params_any (h : MegaHardfork) c : option P :=
  find_entry (fork_name h) c ≫= fe_params.

Definition mega_fork_activation (h : MegaHardfork) c : ForkCondition :=
  default Never (get (fork_name h) c).

Definition is_active (h : MegaHardfork) (timestamp : Z) c : bool :=
  active_at_timestamp (mega_fork_activation h c) timestamp.

(** [MegaHardforks::hardfork]: newest first. *)
Definition hardfork (timestamp : Z) c : option MegaHardfork :=
  if is_active Rex6 timestamp c then Some Rex6
  else if is_active Rex5 timestamp c then Some Rex5
  else if is_active Rex4 timestamp c then Some Rex4
  else if is_active Rex3 timestamp c then Some Rex3
  else if is_active Rex2 timestamp c then Some Rex2
  else if is_active Rex1 timestamp c then Some Rex1
  else if is_active Rex timestamp c then Some Rex
  else if is_active MiniRex2 timestamp c then Some MiniRex2
  else if is_active MiniRex1 timestamp c then Some MiniRex1
  else if is_active MiniRex timestamp c then Some MiniRex
  else None.

Definition spec_id (timestamp : Z) c : MegaSpecId :=
  match hardfork timestamp c with Some h => fork_spec_id h | None => EQUIVALENCE end.
End config.
Arguments ForkEntry : clear implicits.
Arguments MegaHardforkConfig : clear implicits.
#[global] Arguments find_entry : simpl never.

(** * Properties *)

Section facts.
Context {P : Type}.
Implicit Types c : MegaHardforkConfig P.

Lemma find_entry_cons fork e c :
  find_entry fork (e :: c) = if String.eqb (fe_fork e) fork then Some e else find_entry fork c.
Proof. done. Qed.

Lemma get_insert fork cond fork' c :
  get fork' (insert fork cond c) = if String.eqb fork fork' then Some cond else get fork' c.
Proof.
  unfold get. induction c as [|e c IH]; simpl.
  { rewrite find_entry_cons. simpl. by destruct (String.eqb fork fork'). }
  destruct (String.eqb_spec (fe_fork e) fork) as [Heq|Hne]; rewrite !find_entry_cons; simpl.
  - rewrite <- Heq. by destruct (String.eqb (fe_fork e) fork').
  - destruct (String.eqb_spec (fe_fork e) fork') as [<-|]; [|exact IH].
    destruct (String.eqb_spec fork (fe_fork e)); congruence.
Qed.

Lemma params_insert fork cond h c :
  fork_params_any h c ≠ None → fork_params_any h (insert fork cond c) = fork_params_any h c.
Proof.
  unfold fork_params_any. induction c as [|e c IH]; intros Hp; [done|]. simpl.
  destruct (String.eqb_spec (fe_fork e) fork) as [Heq|Hne].
  - rewrite !find_entry_cons. simpl. by destruct (String.eqb (fe_fork e) (fork_name h)).
  - rewrite !find_entry_cons in *. destruct (String.eqb (fe_fork e) (fork_name h)); [done|].
    by apply IH.
Qed.

Lemma get_without h fork c :
  get fork (without h c) = if String.eqb fork (fork_name h) then None else get fork c.
Proof.
  unfold get. induction c as [|e c IH]; simpl.
  { by destruct (String.eqb fork (fork_name h)). }
  destruct (String.eqb_spec (fe_fork e) (fork_name h)) as [Heq|Hne]; simpl; rewrite ?find_entry_cons.
  - rewrite IH. destruct (String.eqb_spec fork (fork_name h)) as [->|Hne']; [done|].
    destruct (String.eqb_spec (fe_fork e) fork); [congruence|done].
  - destruct (String.eqb_spec (fe_fork e) fork) as [<-|]; [|exact IH].
    by rewrite (proj2 (String.eqb_neq _ _) Hne).
Qed.

(** The position of a fork in the order of releases. *)
Definition release (h : MegaHardfork) : Z :=
  match h with
  | MiniRex => 1 | MiniRex1 => 2 | MiniRex2 => 3 | Rex => 4 | Rex1 => 5 | Rex2 => 6 | Rex3 => 7
  | Rex4 => 8 | Rex5 => 9 | Rex6 => 10
  end.

Definition release_at (ts : Z) c : Z :=
  match hardfork ts c with Some h => release h | None => 0 end.

Lemma is_active_mono h ts ts' c : ts ≤ ts' → is_active h ts c = true → is_active h ts' c = true.
Proof.
  unfold is_active, active_at_timestamp. intros Hle. destruct (mega_fork_activation h c); try done.
  rewrite !Z.leb_le. lia.
Qed.

(** [hardfork] returns the newest active fork. *)
Lemma hardfork_newest ts c h :
  is_active h ts c = true → release h ≤ release_at ts c.
Proof.
  intros Ha. unfold release_at, hardfork.
  destruct h; rewrite ?Ha;
    repeat match goal with |- context [if is_active ?g ts c then _ else _] =>
      destruct (is_active g ts c); [simpl; lia|] end; simpl; lia.
Qed.

Lemma hardfork_active ts c h : hardfork ts c = Some h → is_active h ts c = true.
Proof.
  unfold hardfork.
  repeat match goal with |- context [if is_active ?g ts c then _ else _] =>
    destruct (is_active g ts c) eqn:?; [by intros [= <-]|] end. done.
Qed.

Lemma release_mono ts ts' c : ts ≤ ts' → release_at ts c ≤ release_at ts' c.
Proof.
  intros Hle. unfold release_at at 1. destruct (hardfork ts c) as [h|] eqn:Hh.
  - apply hardfork_newest. eapply is_active_mono; [done|]. by apply hardfork_active.
  - unfold release_at. destruct (hardfork ts' c) as [[]|]; simpl; lia.
Qed.

Lemma spec_of_release h h' :
  4 ≤ release h → release h ≤ release h' → is_enabled (fork_spec_id h') (fork_spec_id h) = true.
Proof. destruct h, h'; simpl; try lia; done. Qed.
End facts.

(** The active spec never goes back.  As time passes the active hardfork only moves
    forward in the order of releases, whatever the configuration; from Rex on, everything a
    block's spec enables stays enabled in every later block. *)
Lemma spec_never_goes_back {P} (c : MegaHardforkConfig P) ts ts' :
  ts ≤ ts' →
  release_at ts c ≤ release_at ts' c ∧
  (4 ≤ release_at ts c → is_enabled (spec_id ts' c) (spec_id ts c) = true).
Proof.
  intros Hle. pose proof (release_mono ts ts' c Hle) as Hm. split; [done|]. intros Hr.
  unfold release_at, spec_id in *. destruct (hardfork ts c) as [h|]; [|simpl in Hr; lia].
  destruct (hardfork ts' c) as [h'|]; [by apply spec_of_release|]. destruct h; simpl in *; lia.
Qed.

(** The configuration is a finite map from forks to conditions.  Inserting a condition makes
    it the fork's condition and changes no other fork, removing a fork removes exactly its
    condition, and changing a condition keeps the parameters attached to the fork. *)
Lemma hardfork_config_map {P} (c : MegaHardforkConfig P) fork cond fork' h h' :
  get fork' (insert fork cond c) = (if String.eqb fork fork' then Some cond else get fork' c) ∧
  get fork (without h c) = (if String.eqb fork (fork_name h) then None else get fork c) ∧
  (fork_params_any h' c ≠ None →
   fork_params_any h' (insert fork cond c) = fork_params_any h' c).
Proof. split_and!; [apply get_insert|apply get_without|apply params_insert]. Qed.

Definition sample_config : MegaHardforkConfig unit :=
  with_ "Rex4" (Timestamp 200) (with_ "Rex" (Timestamp 100) (with_ "MiniRex" (Timestamp 0) new)).

Lemma spec_never_goes_back_witness :
  release_at 150 sample_config ≤ release_at 250 sample_config ∧
  (4 ≤ release_at 150 sample_config →
   is_enabled (spec_id 250 sample_config) (spec_id 150 sample_config) = true).
Proof. apply (spec_never_goes_back sample_config 150 250). lia. Defined.

(** With every fork active the newest spec applies at every time. *)
Lemma all_activated_rex6 {P} ts :
  0 ≤ ts → spec_id ts (with_all_activated (new (P := P))) = REX6.
Proof.
  intros Hts. unfold spec_id, hardfork, is_active, mega_fork_activation.
  change (get (fork_name Rex6) (with_all_activated (new (P := P)))) with (Some (Timestamp 0)).
  simpl. by rewrite (proj2 (Z.leb_le _ _) Hts).
Qed.
