(* ===== verification/BlockLimit.v ===== *)
(** Block-level resource limits: [block/limit.rs]. *)

From S2P Require Import Prelude Spec Hardfork.

(** * Configuration *)

Record BlockLimits : Type := mkBlockLimits {
  tx_gas_limit : Z;
  block_gas_limit : Z;
  tx_encode_size_limit : Z;
  block_txs_encode_size_limit : Z;
  tx_da_size_limit : Z;
  block_da_size_limit : Z;
  tx_data_limit : Z;
  block_txs_data_limit : Z;
  tx_kv_update_limit : Z;
  block_kv_update_limit : Z;
  bl_tx_compute_gas_limit : Z;
  block_compute_gas_limit : Z;
  bl_tx_state_growth_limit : Z;
  block_state_growth_limit : Z;
  bl_block_env_access_compute_gas_limit : Z;
  bl_oracle_access_compute_gas_limit : Z;
}.

Definition no_limits : BlockLimits :=
  mkBlockLimits u64_max u64_max u64_max u64_max u64_max u64_max u64_max u64_max u64_max u64_max
    u64_max u64_max u64_max u64_max u64_max u64_max.

Definition with_tx_runtime_limits (l : EvmTxRuntimeLimits) (b : BlockLimits) : BlockLimits := {|
  tx_gas_limit := tx_gas_limit b;
  block_gas_limit := block_gas_limit b;
  tx_encode_size_limit := tx_encode_size_limit b;
  block_txs_encode_size_limit := block_txs_encode_size_limit b;
  tx_da_size_limit := tx_da_size_limit b;
  block_da_size_limit := block_da_size_limit b;
  tx_data_limit := tx_data_size_limit l;
  block_txs_data_limit := block_txs_data_limit b;
  tx_kv_update_limit := tx_kv_updates_limit l;
  block_kv_update_limit := block_kv_update_limit b;
  bl_tx_compute_gas_limit := tx_compute_gas_limit l;
  block_compute_gas_limit := block_compute_gas_limit b;
  bl_tx_state_growth_limit := tx_state_growth_limit l;
  block_state_growth_limit := block_state_growth_limit b;
  bl_block_env_access_compute_gas_limit := block_env_access_compute_gas_limit l;
  bl_oracle_access_compute_gas_limit := oracle_access_compute_gas_limit l;
|}.

Definition with_block_gas_limit (limit : Z) (b : BlockLimits) : BlockLimits := {|
  tx_gas_limit := tx_gas_limit b;
  block_gas_limit := limit;
  tx_encode_size_limit := tx_encode_size_limit b;
  block_txs_encode_size_limit := block_txs_encode_size_limit b;
  tx_da_size_limit := tx_da_size_limit b;
  block_da_size_limit := block_da_size_limit b;
  tx_data_limit := tx_data_limit b;
  block_txs_data_limit := block_txs_data_limit b;
  tx_kv_update_limit := tx_kv_update_limit b;
  block_kv_update_limit := block_kv_update_limit b;
  bl_tx_compute_gas_limit := bl_tx_compute_gas_limit b;
  block_compute_gas_limit := block_compute_gas_limit b;
  bl_tx_state_growth_limit := bl_tx_state_growth_limit b;
  block_state_growth_limit := block_state_growth_limit b;
  bl_block_env_access_compute_gas_limit := bl_block_env_access_compute_gas_limit b;
  bl_oracle_access_compute_gas_limit := bl_oracle_access_compute_gas_limit b;
|}.

(** The other builders, which set one limit each. *)

Definition with_tx_gas_limit (limit : Z) (x : BlockLimits) : BlockLimits :=
  let 'mkBlockLimits _ b c d e f g h i j k l m n o p := x in
  mkBlockLimits limit b c d e f g h i j k l m n o p.

Definition with_tx_encode_size_limit (limit : Z) (x : BlockLimits) : BlockLimits :=
  let 'mkBlockLimits a b _ d e f g h i j k l m n o p := x in
  mkBlockLimits a b limit d e f g h i j k l m n o p.

Definition with_block_txs_encode_size_limit (limit : Z) (x : BlockLimits) : BlockLimits :=
  let 'mkBlockLimits a b c _ e f g h i j k l m n o p := x in
  mkBlockLimits a b c limit e f g h i j k l m n o p.

Definition with_tx_da_size_limit (limit : Z) (x : BlockLimits) : BlockLimits :=
  let 'mkBlockLimits a b c d _ f g h i j k l m n o p := x in
  mkBlockLimits a b c d limit f g h i j k l m n o p.

Definition with_block_da_size_limit (limit : Z) (x : BlockLimits) : BlockLimits :=
  let 'mkBlockLimits a b c d e _ g h i j k l m n o p := x in
  mkBlockLimits a b c d e limit g h i j k l m n o p.

Definition with_tx_data_limit (limit : Z) (x : BlockLimits) : BlockLimits :=
  let 'mkBlockLimits a b c d e f _ h i j k l m n o p := x in
  mkBlockLimits a b c d e f limit h i j k l m n o p.

Definition with_block_txs_data_limit (limit : Z) (x : BlockLimits) : BlockLimits :=
  let 'mkBlockLimits a b c d e f g _ i j k l m n o p := x in
  mkBlockLimits a b c d e f g limit i j k l m n o p.

Definition with_tx_kv_update_limit (limit : Z) (x : BlockLimits) : BlockLimits :=
  let 'mkBlockLimits a b c d e f g h _ j k l m n o p := x in
  mkBlockLimits a b c d e f g h limit j k l m n o p.

Definition with_block_kv_update_limit (limit : Z) (x : BlockLimits) : BlockLimits :=
  let 'mkBlockLimits a b c d e f g h i _ k l m n o p := x in
  mkBlockLimits a b c d e f g h i limit k l m n o p.

Definition with_tx_compute_gas_limit (limit : Z) (x : BlockLimits) : BlockLimits :=
  let 'mkBlockLimits a b c d e f g h i j _ l m n o p := x in
  mkBlockLimits a b c d e f g h i j limit l m n o p.

Definition with_block_compute_gas_limit (limit : Z) (x : BlockLimits) : BlockLimits :=
  let 'mkBlockLimits a b c d e f g h i j k _ m n o p := x in
  mkBlockLimits a b c d e f g h i j k limit m n o p.

Definition with_tx_state_growth_limit (limit : Z) (x : BlockLimits) : BlockLimits :=
  let 'mkBlockLimits a b c d e f g h i j k l _ n o p := x in
  mkBlockLimits a b c d e f g h i j k l limit n o p.

Definition with_block_state_growth_limit (limit : Z) (x : BlockLimits) : BlockLimits :=
  let 'mkBlockLimits a b c d e f g h i j k l m _ o p := x in
  mkBlockLimits a b c d e f g h i j k l m limit o p.

Definition with_block_env_access_compute_gas_limit (limit : Z) (x : BlockLimits) : BlockLimits :=
  let 'mkBlockLimits a b c d e f g h i j k l m n _ p := x in
  mkBlockLimits a b c d e f g h i j k l m n limit p.

Definition with_oracle_access_compute_gas_limit (limit : Z) (x : BlockLimits) : BlockLimits :=
  let 'mkBlockLimits a b c d e f g h i j k l m n o _ := x in
  mkBlockLimits a b c d e f g h i j k l m n o limit.

(** The struct update of the [match] on the hardfork. *)
Definition with_block_data_kv_growth (data kv growth : Z) (b : BlockLimits) : BlockLimits := {|
  tx_gas_limit := tx_gas_limit b;
  block_gas_limit := block_gas_limit b;
  tx_encode_size_limit := tx_encode_size_limit b;
  block_txs_encode_size_limit := block_txs_encode_size_limit b;
  tx_da_size_limit := tx_da_size_limit b;
  block_da_size_limit := block_da_size_limit b;
  tx_data_limit := tx_data_limit b;
  block_txs_data_limit := data;
  tx_kv_update_limit := tx_kv_update_limit b;
  block_kv_update_limit := kv;
  bl_tx_compute_gas_limit := bl_tx_compute_gas_limit b;
  block_compute_gas_limit := block_compute_gas_limit b;
  bl_tx_state_growth_limit := bl_tx_state_growth_limit b;
  block_state_growth_limit := growth;
  bl_block_env_access_compute_gas_limit := bl_block_env_access_compute_gas_limit b;
  bl_oracle_access_compute_gas_limit := bl_oracle_access_compute_gas_limit b;
|}.

Definition from_hardfork_and_block_gas_limit (hardfork : MegaHardfork) (gas : Z) : BlockLimits :=
  let spec := fork_spec_id hardfork in
  let tx_runtime_limits := from_spec spec in
  let limits := with_block_gas_limit gas (with_tx_runtime_limits tx_runtime_limits no_limits) in
  match hardfork with
  | Rex | Rex1 | Rex2 | Rex3 | Rex4 | Rex5 | Rex6 =>
      with_block_data_kv_growth constants.mini_rex.BLOCK_DATA_LIMIT
        constants.mini_rex.BLOCK_KV_UPDATE_LIMIT constants.rex.BLOCK_STATE_GROWTH_LIMIT limits
  | MiniRex | MiniRex2 =>
      with_block_data_kv_growth constants.mini_rex.BLOCK_DATA_LIMIT
        constants.mini_rex.BLOCK_KV_UPDATE_LIMIT (block_state_growth_limit limits) limits
  | MiniRex1 => limits
  end.

Definition to_evm_tx_runtime_limits (b : BlockLimits) : EvmTxRuntimeLimits := {|
  tx_data_size_limit := tx_data_limit b;
  tx_kv_updates_limit := tx_kv_update_limit b;
  tx_compute_gas_limit := bl_tx_compute_gas_limit b;
  tx_state_growth_limit := bl_tx_state_growth_limit b;
  block_env_access_compute_gas_limit := bl_block_env_access_compute_gas_limit b;
  oracle_access_compute_gas_limit := bl_oracle_access_compute_gas_limit b;
|}.

(** Setting the limits of a transaction is setting each of them, and they can be read back. *)
Lemma tx_runtime_limits_roundtrip l b :
  to_evm_tx_runtime_limits (with_tx_runtime_limits l b) = l ∧
  with_tx_runtime_limits l b =
    with_tx_data_limit (tx_data_size_limit l)
      (with_tx_kv_update_limit (tx_kv_updates_limit l)
        (with_tx_compute_gas_limit (tx_compute_gas_limit l)
          (with_tx_state_growth_limit (tx_state_growth_limit l)
            (with_block_env_access_compute_gas_limit (block_env_access_compute_gas_limit l)
              (with_oracle_access_compute_gas_limit (oracle_access_compute_gas_limit l) b))))).
Proof. destruct l, b. split; reflexivity. Qed.

(** * The limiter *)

Record BlockLimiter : Type := mkLimiter {
  bl_limits : BlockLimits;
  block_gas_used : Z;
  block_tx_size_used : Z;
  block_da_size_used : Z;
  block_data_used : Z;
  block_kv_updates_used : Z;
  block_compute_gas_used : Z;
  block_state_growth_used : Z;
}.

Definition limiter_new (limits : BlockLimits) : BlockLimiter := mkLimiter limits 0 0 0 0 0 0 0.
Definition to_block_limiter (limits : BlockLimits) : BlockLimiter := mkLimiter limits 0 0 0 0 0 0 0.

(** [MegaTxLimitExceededError], [MegaBlockLimitExceededError] and the upstream validation
    errors the check returns. *)
Inductive MegaTxLimitExceededError : Type :=
  | TxTransactionGasLimit (tx_gas_limit limit : Z)
  | TxTransactionEncodeSizeLimit (tx_size limit : Z)
  | TxDataAvailabilitySizeLimit (da_size limit : Z).

Inductive MegaBlockLimitExceededError : Type :=
  | BlockTransactionEncodeSizeLimit (block_used tx_used limit : Z)
  | BlockDataAvailabilitySizeLimit (block_used tx_used limit : Z)
  | BlockTransactionDataLimit (block_used limit : Z)
  | BlockKVUpdateLimit (block_used limit : Z)
  | BlockComputeGasLimit (block_used limit : Z)
  | BlockStateGrowthLimit (block_used limit : Z).

Definition tx_error_usage (e : MegaTxLimitExceededError) : Z :=
  match e with
  | TxTransactionGasLimit tx_gas_limit _ => tx_gas_limit
  | TxTransactionEncodeSizeLimit tx_size _ => tx_size
  | TxDataAvailabilitySizeLimit da_size _ => da_size
  end.

Definition tx_error_limit (e : MegaTxLimitExceededError) : Z :=
  match e with
  | TxTransactionGasLimit _ limit
  | TxTransactionEncodeSizeLimit _ limit
  | TxDataAvailabilitySizeLimit _ limit => limit
  end.

Definition block_error_used (e : MegaBlockLimitExceededError) : Z :=
  match e with
  | BlockTransactionDataLimit block_used _
  | BlockKVUpdateLimit block_used _
  | BlockComputeGasLimit block_used _
  | BlockTransactionEncodeSizeLimit block_used _ _
  | BlockDataAvailabilitySizeLimit block_used _ _
  | BlockStateGrowthLimit block_used _ => block_used
  end.

Definition block_error_limit (e : MegaBlockLimitExceededError) : Z :=
  match e with
  | BlockTransactionDataLimit _ limit
  | BlockKVUpdateLimit _ limit
  | BlockComputeGasLimit _ limit
  | BlockTransactionEncodeSizeLimit _ _ limit
  | BlockDataAvailabilitySizeLimit _ _ limit
  | BlockStateGrowthLimit _ limit => limit
  end.

Inductive BlockExecutionError : Type :=
  | InvalidTx_tx (hash : Z) (error : MegaTxLimitExceededError)
  | InvalidTx_block (hash : Z) (error : MegaBlockLimitExceededError)
  | TransactionGasLimitMoreThanAvailableBlockGas (transaction_gas_limit block_available_gas : Z).

Section limiter.
Implicit Types b : BlockLimiter.

Definition pre_execution_check (tx_hash gas_limit tx_size da_size : Z) (is_deposit : bool) b
    : result unit BlockExecutionError :=
  let l := bl_limits b in
  if tx_gas_limit l <? gas_limit then
    Err (InvalidTx_tx tx_hash (TxTransactionGasLimit gas_limit (tx_gas_limit l)))
  else if block_gas_limit l <? sat_add (block_gas_used b) gas_limit then
    Err (TransactionGasLimitMoreThanAvailableBlockGas gas_limit
           (sat_sub (block_gas_limit l) (block_gas_used b)))
  else if tx_encode_size_limit l <? tx_size then
    Err (InvalidTx_tx tx_hash (TxTransactionEncodeSizeLimit tx_size (tx_encode_size_limit l)))
  else if block_txs_encode_size_limit l <? sat_add tx_size (block_tx_size_used b) then
    Err (InvalidTx_block tx_hash
           (BlockTransactionEncodeSizeLimit (block_tx_size_used b) tx_size
              (block_txs_encode_size_limit l)))
  else if negb is_deposit && (tx_da_size_limit l <? da_size) then
    Err (InvalidTx_tx tx_hash (TxDataAvailabilitySizeLimit da_size (tx_da_size_limit l)))
  else if negb is_deposit && (block_da_size_limit l <? sat_add da_size (block_da_size_used b)) then
    Err (InvalidTx_block tx_hash
           (BlockDataAvailabilitySizeLimit (block_da_size_used b) da_size (block_da_size_limit l)))
  else if block_txs_data_limit l <=? block_data_used b then
    Err (InvalidTx_block tx_hash
           (BlockTransactionDataLimit (block_data_used b) (block_txs_data_limit l)))
  else if block_kv_update_limit l <=? block_kv_updates_used b then
    Err (InvalidTx_block tx_hash
           (BlockKVUpdateLimit (block_kv_updates_used b) (block_kv_update_limit l)))
  else if block_compute_gas_limit l <=? block_compute_gas_used b then
    Err (InvalidTx_block tx_hash
           (BlockComputeGasLimit (block_compute_gas_used b) (block_compute_gas_limit l)))
  else if block_state_growth_limit l <=? block_state_growth_used b then
    Err (InvalidTx_block tx_hash
           (BlockStateGrowthLimit (block_state_growth_used b) (block_state_growth_limit l)))
  else Ok tt.

Definition post_execution_update_raw (gas_used tx_size da_size tx_data kv_updates
    compute_gas_used state_growth_used : Z) (is_deposit : bool) b : BlockLimiter := {|
  bl_limits := bl_limits b;
  block_gas_used := sat_add (block_gas_used b) gas_used;
  block_tx_size_used := sat_add (block_tx_size_used b) tx_size;
  block_da_size_used :=
    if negb is_deposit then sat_add (block_da_size_used b) da_size else block_da_size_used b;
  block_data_used := sat_add (block_data_used b) tx_data;
  block_kv_updates_used := sat_add (block_kv_updates_used b) kv_updates;
  block_compute_gas_used := sat_add (block_compute_gas_used b) compute_gas_used;
  block_state_growth_used := sat_add (block_state_growth_used b) state_growth_used;
|}.

Definition is_block_limit_reached b : bool :=
  let l := bl_limits b in
  (block_gas_limit l <=? block_gas_used b) ||
  (block_txs_encode_size_limit l <=? block_tx_size_used b) ||
  (block_da_size_limit l <=? block_da_size_used b) ||
  (block_txs_data_limit l <=? block_data_used b) ||
  (block_kv_update_limit l <=? block_kv_updates_used b) ||
  (block_compute_gas_limit l <=? block_compute_gas_used b) ||
  (block_state_growth_limit l <=? block_state_growth_used b).
End limiter.

(** What the block knows of a transaction before and after it runs
    ([BlockMegaTransactionOutcome]). *)
Record tx_outcome : Type := mkOutcome {
  o_hash : Z;
  o_gas_limit : Z;
  o_is_deposit : bool;
  o_gas_used : Z;
  o_tx_size : Z;
  o_da_size : Z;
  o_data_size : Z;
  o_kv_updates : Z;
  o_compute_gas_used : Z;
  o_state_growth_used : Z;
}.

Definition post_execution_update (o : tx_outcome) (b : BlockLimiter)
    : BlockLimiter * result unit BlockExecutionError :=
  (post_execution_update_raw (o_gas_used o) (o_tx_size o) (o_da_size o) (o_data_size o)
     (o_kv_updates o) (o_compute_gas_used o) (o_state_growth_used o) (o_is_deposit o) b, Ok tt).

(** * The check *)

(** The conditions of admission, as documented. *)
Definition admissible (gas_limit tx_size da_size : Z) (is_deposit : bool) (b : BlockLimiter) : Prop :=
  let l := bl_limits b in
  gas_limit ≤ tx_gas_limit l ∧ sat_add (block_gas_used b) gas_limit ≤ block_gas_limit l ∧
  tx_size ≤ tx_encode_size_limit l ∧
  sat_add tx_size (block_tx_size_used b) ≤ block_txs_encode_size_limit l ∧
  (is_deposit = false →
     da_size ≤ tx_da_size_limit l ∧ sat_add da_size (block_da_size_used b) ≤ block_da_size_limit l) ∧
  block_data_used b < block_txs_data_limit l ∧ block_kv_updates_used b < block_kv_update_limit l ∧
  block_compute_gas_used b < block_compute_gas_limit l ∧
  block_state_growth_used b < block_state_growth_limit l.

Lemma pre_execution_check_ok h g s d dep b :
  pre_execution_check h g s d dep b = Ok tt ↔ admissible g s d dep b.
Proof.
  unfold pre_execution_check, admissible. split.
  - intros H. case_bools_in H; try done. simpl_bools.
    repeat match goal with H : _ && _ = false |- _ => apply andb_false_iff in H end.
    split_and!; try lia.
    intros ->. simpl in *. intuition (try discriminate; simpl_bools; try lia).
  - intros (?&?&?&?&Hd&?&?&?&?).
    repeat match goal with
      | |- context [?x <? ?y] =>
          rewrite (proj2 (Z.ltb_ge x y)) by first [lia | destruct dep; [lia|apply Hd; done]]
      | |- context [?x <=? ?y] => rewrite (proj2 (Z.leb_gt x y)) by lia
      end.
    destruct dep; simpl; [done|]. destruct (Hd eq_refl). simpl.
    by rewrite !(proj2 (Z.ltb_ge _ _)) by lia.
Qed.

(** * Blocks *)

Section block.
Implicit Types (b : BlockLimiter) (o : tx_outcome).

(** The executor's loop: check, execute, accumulate; the first rejection ends it. *)
Fixpoint run_block (os : list tx_outcome) b : result BlockLimiter BlockExecutionError :=
  match os with
  | [] => Ok b
  | o :: os =>
      match pre_execution_check (o_hash o) (o_gas_limit o) (o_tx_size o) (o_da_size o)
              (o_is_deposit o) b with
      | Err e => Err e
      | Ok _ => run_block os (fst (post_execution_update o b))
      end
  end.

(** A transaction uses no more gas than its limit, and nothing is negative. *)
Definition outcome_ok o : Prop :=
  0 ≤ o_gas_used o ≤ o_gas_limit o ∧ 0 ≤ o_tx_size o ∧ 0 ≤ o_da_size o ∧ 0 ≤ o_data_size o ∧
  0 ≤ o_kv_updates o ∧ 0 ≤ o_compute_gas_used o ∧ 0 ≤ o_state_growth_used o.

Definition charged_da o : Z := if o_is_deposit o then 0 else o_da_size o.

(** A counter after a list of saturating additions. *)
Definition saturated (f : tx_outcome → Z) (os : list tx_outcome) (start : Z) : Z :=
  Z.min u64_max (start + sumZ f os).

(** The four limits that are checked only between transactions: usage below the limit when
    the last transaction is admitted. *)
Definition soft_limits : list ((BlockLimits → Z) * (BlockLimiter → Z) * (tx_outcome → Z)) :=
  [(block_txs_data_limit, block_data_used, o_data_size);
   (block_kv_update_limit, block_kv_updates_used, o_kv_updates);
   (block_compute_gas_limit, block_compute_gas_used, o_compute_gas_used);
   (block_state_growth_limit, block_state_growth_used, o_state_growth_used)].

(** The three limits that are checked with the transaction's own amount. *)
Definition hard_limits : list ((BlockLimits → Z) * (BlockLimiter → Z) * (tx_outcome → Z)) :=
  [(block_gas_limit, block_gas_used, o_gas_used);
   (block_txs_encode_size_limit, block_tx_size_used, o_tx_size);
   (block_da_size_limit, block_da_size_used, charged_da)].

Definition counters_ok b : Prop :=
  Forall (λ x, in_u64 (x.1.2 b)) (soft_limits ++ hard_limits).

Lemma update_counter x o b :
  x ∈ soft_limits ++ hard_limits → counters_ok b → outcome_ok o →
  x.1.2 (fst (post_execution_update o b)) = Z.min u64_max (x.1.2 b + x.2 o) ∧ 0 ≤ x.2 o.
Proof.
  intros Hx Hb Ho. pose proof (proj1 (Forall_forall _ _) Hb x Hx) as Hr.
  unfold outcome_ok in Ho. destruct Ho as ((?&?)&?&?&?&?&?&?).
  unfold soft_limits, hard_limits, charged_da in *. simpl in Hx.
  repeat (apply elem_of_cons in Hx as [->|Hx]); try (by apply not_elem_of_nil in Hx);
    simpl in *; unfold sat_add; try (split; [done|lia]).
  destruct (o_is_deposit o); simpl; (split; [|lia]); [|done]. unfold in_u64 in Hr. lia.
Qed.

Lemma update_ok o b : counters_ok b → outcome_ok o → counters_ok (fst (post_execution_update o b)).
Proof.
  intros Hb Ho. apply Forall_forall. intros x Hx.
  pose proof (proj1 (Forall_forall _ _) Hb x Hx) as Hr. cbv beta in *.
  destruct (update_counter x o b Hx Hb Ho) as [Hc ?].
  unfold in_u64, u64_max in *. lia.
Qed.

Lemma run_block_sum os b b' :
  counters_ok b → Forall outcome_ok os → run_block os b = Ok b' →
  bl_limits b' = bl_limits b ∧ counters_ok b' ∧
  ∀ x, x ∈ soft_limits ++ hard_limits → x.1.2 b' = saturated x.2 os (x.1.2 b).
Proof.
  revert b. induction os as [|o os IH]; intros b Hb Hos; cbn [run_block].
  { intros [= <-]. split_and!; auto. intros x Hx. unfold saturated. rewrite sumZ_nil.
    pose proof (proj1 (Forall_forall _ _) Hb x Hx) as Hr. cbv beta in Hr. unfold in_u64 in Hr. lia. }
  apply Forall_cons in Hos as [Ho Hos].
  destruct (pre_execution_check _ _ _ _ _ _); [|done]. intros H.
  apply IH in H as (Hl & Hc & Hs); [|by apply update_ok|done].
  split_and!; auto. intros x Hx. rewrite (Hs x Hx). unfold saturated.
  destruct (update_counter x o b Hx Hb Ho) as [-> ?]. rewrite sumZ_cons.
  assert (0 ≤ sumZ x.2 os).
  { apply sumZ_nonneg. eapply Forall_impl; [exact Hos|]. intros o' Ho'.
    by destruct (update_counter x o' b Hx Hb Ho'). }
  lia.
Qed.

Lemma run_block_app os os' b :
  run_block (os ++ os') b =
  match run_block os b with Ok b1 => run_block os' b1 | Err e => Err e end.
Proof.
  revert b. induction os as [|o os IH]; intros b; [done|]. simpl.
  destruct (pre_execution_check _ _ _ _ _ _); [apply IH|done].
Qed.

Lemma admitted_hard o b x :
  admissible (o_gas_limit o) (o_tx_size o) (o_da_size o) (o_is_deposit o) b →
  counters_ok b → outcome_ok o → x ∈ hard_limits →
  x.1.2 b ≤ x.1.1 (bl_limits b) →
  x.1.2 (fst (post_execution_update o b)) ≤ x.1.1 (bl_limits b).
Proof.
  intros (?&Hg&?&Hsz&Hda&_) Hb Ho Hx Hle.
  assert (Hx' : x ∈ soft_limits ++ hard_limits) by (apply elem_of_app; by right).
  destruct (update_counter x o b Hx' Hb Ho) as [-> ?].
  destruct Ho as ((?&?)&_). unfold hard_limits, charged_da in *.
  repeat (apply elem_of_cons in Hx as [->|Hx]); try (by apply not_elem_of_nil in Hx);
    simpl in *; unfold sat_add in *; try lia.
  destruct (o_is_deposit o); simpl; [lia|]. destruct (Hda eq_refl). lia.
Qed.

Lemma run_block_hard os b b' :
  counters_ok b → Forall outcome_ok os → run_block os b = Ok b' →
  Forall (λ x, x.1.2 b ≤ x.1.1 (bl_limits b)) hard_limits →
  Forall (λ x, x.1.2 b' ≤ x.1.1 (bl_limits b)) hard_limits.
Proof.
  revert b. induction os as [|o os IH]; intros b Hb Hos H Hle; cbn [run_block] in H.
  { by injection H as <-. }
  apply Forall_cons in Hos as [Ho Hos].
  destruct (pre_execution_check _ _ _ _ _ _) as [[]|] eqn:Hp; [|done].
  apply pre_execution_check_ok in Hp.
  apply (IH (fst (post_execution_update o b))); auto using update_ok.
  apply Forall_forall. intros x Hx. change (bl_limits (fst (post_execution_update o b))) with (bl_limits b).
  apply admitted_hard; auto.
  apply (proj1 (Forall_forall _ _) Hle x Hx).
Qed.
End block.

(** Admission.  [pre_execution_check] accepts a transaction exactly when its gas, encoded
    size and (unless it is a deposit) data-availability size fit the transaction limits and
    what the block has left, and no execution-time resource of the block is used up. *)
Lemma pre_execution_check_admits tx_hash gas_limit tx_size da_size is_deposit (b : BlockLimiter) :
  pre_execution_check tx_hash gas_limit tx_size da_size is_deposit b = Ok tt ↔
  admissible gas_limit tx_size da_size is_deposit b.
Proof. apply pre_execution_check_ok. Qed.

(** What the transaction itself takes of the resource of a refusal. *)
Definition block_error_tx_used (e : MegaBlockLimitExceededError) : option Z :=
  match e with
  | BlockTransactionEncodeSizeLimit _ tx_used _ | BlockDataAvailabilitySizeLimit _ tx_used _ => Some tx_used
  | _ => None
  end.

(** A refusal names the transaction, and its numbers are the reason for it: the usage of the
    transaction is over its limit; or the block has reached its limit, or would exceed it with
    what the transaction takes; or the gas left in the block is not enough. *)
Lemma refusal_explained tx_hash gas_limit tx_size da_size is_deposit (b : BlockLimiter) e :
  pre_execution_check tx_hash gas_limit tx_size da_size is_deposit b = Err e →
  match e with
  | InvalidTx_tx h x => h = tx_hash ∧ tx_error_limit x < tx_error_usage x
  | InvalidTx_block h x =>
      h = tx_hash ∧
      match block_error_tx_used x with
      | Some tx_used => block_error_limit x < tx_used + block_error_used x
      | None => block_error_limit x ≤ block_error_used x
      end
  | TransactionGasLimitMoreThanAvailableBlockGas gas available =>
      gas = gas_limit ∧ available = sat_sub (block_gas_limit (bl_limits b)) (block_gas_used b) ∧
      block_gas_limit (bl_limits b) < block_gas_used b + gas
  end.
Proof.
  unfold pre_execution_check. intros H. case_bools_in H; try done; injection H as <-; simpl_bools;
    simpl; split_and?; try done; u64_lia.
Qed.

(** C25: a block stays within its limits.  However many transactions are executed, the block's
    gas, encoded size and data-availability size (deposits not counted) never exceed the
    limits; data size, key-value updates, compute gas and state growth exceed theirs by at
    most the last transaction, since they were below the limit when it was admitted.  The
    counters are the saturated sums of what the transactions used. *)
Theorem block_within_limits (limits : BlockLimits) os o b :
  Forall (λ x, 0 ≤ x.1.1 limits) hard_limits →
  Forall outcome_ok (os ++ [o]) →
  run_block (os ++ [o]) (limiter_new limits) = Ok b →
  Forall (λ x, x.1.2 b ≤ x.1.1 limits) hard_limits ∧
  Forall (λ x, saturated x.2 os 0 < x.1.1 limits) soft_limits ∧
  Forall (λ x, x.1.2 b = saturated x.2 (os ++ [o]) 0) (soft_limits ++ hard_limits).
Proof.
  intros Hpos Hos Hrun. set (b0 := limiter_new limits) in *.
  assert (Hb0 : counters_ok b0) by (repeat constructor; discriminate).
  assert (H0 : ∀ x, x ∈ soft_limits ++ hard_limits → x.1.2 b0 = 0).
  { intros x Hx. simpl in Hx.
    repeat (apply elem_of_cons in Hx as [->|Hx]); try (by apply not_elem_of_nil in Hx); done. }
  split_and!.
  - apply (run_block_hard (os ++ [o]) b0 b Hb0 Hos Hrun). apply Forall_forall. intros x Hx.
    rewrite H0 by (apply elem_of_app; by right). apply (proj1 (Forall_forall _ _) Hpos x Hx).
  - rewrite run_block_app in Hrun. destruct (run_block os b0) as [b1|e] eqn:H1; [|done].
    apply Forall_app in Hos as [Hos _].
    destruct (run_block_sum os b0 b1 Hb0 Hos H1) as (Hl & _ & Hs). simpl in Hrun.
    destruct (pre_execution_check _ _ _ _ _ b1) as [[]|] eqn:Hp; [|done].
    apply pre_execution_check_ok in Hp as (_&_&_&_&_&?&?&?&?).
    change (bl_limits b0) with limits in Hl. rewrite Hl in *.
    apply Forall_forall. intros x Hx.
    specialize (Hs x ltac:(apply elem_of_app; by left)).
    rewrite H0 in Hs by (apply elem_of_app; by left). rewrite <- Hs. clear Hs.
    unfold soft_limits in Hx.
    repeat (apply elem_of_cons in Hx as [->|Hx]); try (by apply not_elem_of_nil in Hx); done.
  - destruct (run_block_sum (os ++ [o]) b0 b Hb0 Hos Hrun) as (_ & _ & Hs).
    apply Forall_forall. intros x Hx. rewrite (Hs x Hx). by rewrite H0.
Qed.

(** The runtime limits a block hands to the EVM are those of its hardfork's spec. *)
Lemma block_limits_roundtrip (h : MegaHardfork) gas :
  to_evm_tx_runtime_limits (from_hardfork_and_block_gas_limit h gas) = from_spec (fork_spec_id h) ∧
  block_gas_limit (from_hardfork_and_block_gas_limit h gas) = gas.
Proof. by destruct h. Qed.

Definition sample_tx (gas data : Z) : tx_outcome := mkOutcome 1 gas false (gas - 10) 100 50 data 1 gas 0.

Definition sample_limits : BlockLimits := from_hardfork_and_block_gas_limit Rex4 100000.

Definition sample_block : BlockLimiter :=
  match run_block ([sample_tx 40000 13000000] ++ [sample_tx 40000 9000000])
          (limiter_new sample_limits) with
  | Ok b => b
  | Err _ => limiter_new sample_limits
  end.

Lemma block_within_limits_witness :
  Forall (λ x, x.1.2 sample_block ≤ x.1.1 sample_limits) hard_limits.
Proof.
  apply (block_within_limits sample_limits [sample_tx 40000 13000000] (sample_tx 40000 9000000)).
  - repeat constructor; vm_compute; discriminate.
  - repeat constructor; vm_compute; discriminate.
  - vm_compute. reflexivity.
Defined.
