(* ===== verification/Effects.v ===== *)
(** Stateful code that may fail or panic, as the block level writes it: a computation over a
    state [S] that returns the new state next to a [Result].  The state is kept when the
    computation fails, because the code mutates before it fails. *)

From S2P Require Import Prelude.

Declare Scope fallible_scope.
Delimit Scope fallible_scope with fallible.
Create HintDb fails.
Create HintDb steps.

Definition fallible (S E A : Type) : Type := S → panics (S * result A E).

Section monad.
Context {S E : Type}.

Definition fret {A} (x : A) : fallible S E A := λ s, Some (s, Ok x).
Definition ffail {A} (e : E) : fallible S E A := λ s, Some (s, Err e).
Definition fpanic {A} : fallible S E A := λ _, None.
Definition fbind {A B} (m : fallible S E A) (k : A → fallible S E B) : fallible S E B := λ s,
  '(s, r) ← m s; match r with Ok x => k x s | Err e => Some (s, Err e) end.

Definition fgets {A} (f : S → A) : fallible S E A := λ s, Some (s, Ok (f s)).
Definition fmodify (f : S → S) : fallible S E unit := λ s, Some (f s, Ok tt).

(** [ok_or], and a value that may be a panic. *)
Definition ok_or {A} (x : option A) (e : E) : fallible S E A :=
  match x with Some x => fret x | None => ffail e end.
Definition unwrap {A} (x : panics A) : fallible S E A :=
  match x with Some x => fret x | None => fpanic end.

(** [map_err(f)?] on a part of the state. *)
Definition zoom {T E' A} (get : S → T) (set : T → S → S) (from : E' → E) (m : fallible T E' A)
    : fallible S E A := λ s,
  '(t, r) ← m (get s);
  Some (set t s, match r with Ok x => Ok x | Err e => Err (from e) end).

(** A call that cannot panic. *)
Definition total {A} (m : S → S * result A E) : fallible S E A := λ s, Some (m s).

End monad.

Notation "x ⇐ m ; k" := (fbind m (λ x, k%fallible))
  (at level 100, m at next level, k at level 200, right associativity) : fallible_scope.
Notation "' x ⇐ m ; k" := (fbind m (λ y, match y with x => k%fallible end))
  (at level 20, x pattern, m at level 100, k at level 200, only parsing) : fallible_scope.

(** * How a computation can end *)

Section facts.
Context {S E : Type}.

Lemma fbind_some {A B} (m : fallible S E A) (k : A → fallible S E B) s s' r :
  fbind m k s = Some (s', r) →
  ∃ s1 r1, m s = Some (s1, r1) ∧
    match r1 with Ok x => k x s1 = Some (s', r) | Err e => s' = s1 ∧ r = Err e end.
Proof.
  unfold fbind. destruct (m s) as [[s1 r1]|]; simpl; [|done]. intros H.
  exists s1, r1. split; [done|]. destruct r1; [done|]. by injection H as <- <-.
Qed.

Lemma fbind_ok {A B} (m : fallible S E A) (k : A → fallible S E B) s s' y :
  fbind m k s = Some (s', Ok y) → ∃ s1 x, m s = Some (s1, Ok x) ∧ k x s1 = Some (s', Ok y).
Proof.
  intros H. destruct (fbind_some _ _ _ _ _ H) as (s1 & [x|e] & Hm & Hk); [by eauto|].
  by destruct Hk.
Qed.

Lemma fbind_intro {A B} (m : fallible S E A) (k : A → fallible S E B) s s1 x :
  m s = Some (s1, Ok x) → fbind m k s = k x s1.
Proof. unfold fbind. by intros ->. Qed.

Lemma fbind_err {A B} (m : fallible S E A) (k : A → fallible S E B) s s1 e :
  m s = Some (s1, Err e) → fbind m k s = Some (s1, Err e).
Proof. unfold fbind. by intros ->. Qed.

Lemma zoom_some {T E' A} (get : S → T) set (from : E' → E) (m : fallible T E' A) s s' r :
  zoom get set from m s = Some (s', r) →
  ∃ t r1, m (get s) = Some (t, r1) ∧ s' = set t s ∧
    r = match r1 with Ok x => Ok x | Err e => Err (from e) end.
Proof.
  unfold zoom. destruct (m (get s)) as [[t r1]|]; simpl; [|done]. intros [= <- <-]. by eauto.
Qed.

Lemma zoom_ok {T E' A} (get : S → T) set (from : E' → E) (m : fallible T E' A) s s' x :
  zoom get set from m s = Some (s', Ok x) →
  ∃ t, m (get s) = Some (t, Ok x) ∧ s' = set t s.
Proof.
  intros H. destruct (zoom_some _ _ _ _ _ _ _ H) as (t & [y|e] & Hm & -> & He); [|done].
  injection He as ->. by eauto.
Qed.

(** A relation between the states before and after a computation, a failure included. *)
Definition steps {A} (R : relation S) (m : fallible S E A) : Prop :=
  ∀ s s' r, m s = Some (s', r) → R s s'.

Section steps.
Context (R : relation S) `{!PreOrder R}.

Lemma steps_bind {A B} (m : fallible S E A) (k : A → fallible S E B) :
  steps R m → (∀ x, steps R (k x)) → steps R (fbind m k).
Proof.
  intros Hm Hk s s' r H. destruct (fbind_some _ _ _ _ _ H) as (s1 & [x|e] & H1 & H2).
  - etransitivity; [by eapply Hm|]. by eapply Hk.
  - destruct H2 as [-> _]. by eapply Hm.
Qed.

Lemma steps_fret {A} (x : A) : steps R (fret x).
Proof. by intros s s' r [= <- _]. Qed.
Lemma steps_ffail {A} e : steps (A := A) R (ffail e).
Proof. by intros s s' r [= <- _]. Qed.
Lemma steps_fgets {A} (f : S → A) : steps R (fgets f).
Proof. by intros s s' r [= <- _]. Qed.
Lemma steps_unwrap {A} (x : option A) : steps R (unwrap x).
Proof. destruct x; [apply steps_fret|done]. Qed.
Lemma steps_ok_or {A} (x : option A) e : steps R (ok_or x e).
Proof. destruct x; [apply steps_fret|apply steps_ffail]. Qed.
Lemma steps_total {A} (f : S → S * result A E) : (∀ s, R s (fst (f s))) → steps R (total f).
Proof. intros Hf s s' r [= H]. specialize (Hf s). by rewrite H in Hf. Qed.
End steps.

(** What every error of a computation satisfies. *)
Definition fails {A} (m : fallible S E A) (P : E → Prop) : Prop :=
  ∀ s s' e, m s = Some (s', Err e) → P e.

Lemma fails_bind {A B} (m : fallible S E A) (k : A → fallible S E B) P :
  fails m P → (∀ x, fails (k x) P) → fails (fbind m k) P.
Proof.
  intros Hm Hk s s' e H. destruct (fbind_some _ _ _ _ _ H) as (s1 & [x|e1] & H1 & H2).
  - by eapply Hk.
  - destruct H2 as [_ [= <-]]. by eapply Hm.
Qed.

Lemma fails_fret {A} (x : A) P : fails (fret x) P.
Proof. by intros s s' e. Qed.
Lemma fails_ffail {A} e (P : E → Prop) : P e → fails (A := A) (ffail e) P.
Proof. by intros He s s' e' [= _ <-]. Qed.
Lemma fails_fgets {A} (f : S → A) P : fails (fgets f) P.
Proof. by intros s s' e. Qed.
Lemma fails_fmodify (f : S → S) P : fails (fmodify f) P.
Proof. by intros s s' e. Qed.
Lemma fails_ok_or {A} (x : option A) e (P : E → Prop) : P e → fails (ok_or x e) P.
Proof. intros He. destruct x; [apply fails_fret|by apply fails_ffail]. Qed.
Lemma fails_unwrap {A} (x : option A) P : fails (unwrap x) P.
Proof. by destruct x. Qed.
End facts.

Lemma fails_zoom {S E T E' A} (get : S → T) set (from : E' → E) (m : fallible T E' A) P :
  fails m (λ e, P (from e)) → fails (zoom get set from m) P.
Proof.
  intros Hm s s' e H. destruct (zoom_some _ _ _ _ _ _ _ H) as (t & [x|e1] & H1 & _ & He); [done|].
  injection He as ->. by eapply Hm.
Qed.

(** A result read off a computation. *)
Lemma succeeds {A B E} (P : A → B → Prop) (x : option (A * result B E)) :
  match x with Some (a, Ok b) => P a b | _ => False end → ∃ a b, x = Some (a, Ok b) ∧ P a b.
Proof. destruct x as [[a [b|e]]|]; [eauto|done|done]. Qed.

Lemma returns {A} (P : A → Prop) (x : option A) :
  match x with Some a => P a | None => False end → ∃ a, x = Some a ∧ P a.
Proof. destruct x as [a|]; [eauto|done]. Qed.

#[export] Hint Resolve steps_bind steps_fret steps_ffail steps_fgets steps_unwrap steps_ok_or : steps.
#[export] Hint Resolve fails_fret fails_ffail fails_fgets fails_fmodify fails_ok_or fails_unwrap
  : fails.

(** Inverts a computation that returned [Ok], one bind at a time. *)
Ltac fbind_inv H :=
  let s := fresh "s" in let x := fresh "x" in let Hm := fresh "Hm" in
  apply fbind_ok in H as (s & x & Hm & H).
