(* ===== verification/SystemContracts.v ===== *)
(** Deploying the system contracts: [system/deploy.rs], and the descriptors of
    [system/oracle.rs], [system/keyless_deploy.rs], [system/control.rs] and
    [system/limit_control.rs].

    The block's database, revm's [State<DB>], is the class [BlockState]; what the deployments
    rely on is [BlockStateLaws], over two views of a database: the accounts it holds and their
    storage.  The bytecodes are generated from artifacts, so they are the class [Artifacts];
    their hashes are constants. *)

From S2P Require Import Prelude Spec Revm Access Intercept EvmState Hardfork Effects.

Class BlockState (DB : Type) := {
  db_error : Type;
  load_cache_account : Address → DB → DB * result (option AccountInfo) db_error;
  (** [Database::storage]: panics on an account that is not in the cache. *)
  state_storage : Address → U256 → DB → panics (DB * result U256 db_error);
  state_commit : EvmState → DB → DB;
  set_state_clear_flag : bool → DB → DB;
  block_hashes : DB → gmap Z Z;
  clear_block_hashes : DB → DB;
}.

(** [Bytecode::new_raw] and the generated bytecodes. *)
Class Artifacts := {
  new_raw : Bytes → Bytecode;
  ORACLE_CONTRACT_CODE : Bytes;
  ORACLE_CONTRACT_CODE_REX2 : Bytes;
  ORACLE_CONTRACT_CODE_REX5 : Bytes;
  HIGH_PRECISION_TIMESTAMP_ORACLE_CODE : Bytes;
  KEYLESS_DEPLOY_CODE : Bytes;
  ACCESS_CONTROL_CODE : Bytes;
  LIMIT_CONTROL_CODE : Bytes;
  SEQUENCER_REGISTRY_CODE : Bytes;
  SEQUENCER_REGISTRY_CODE_REX6 : Bytes;
}.

Definition ORACLE_CONTRACT_CODE_HASH : Z :=
  0xe9b044afb735a0f569faeb248088b4f267578f60722f87d06ec3867b250a2c34.
Definition ORACLE_CONTRACT_CODE_HASH_REX2 : Z :=
  0x06df675a69e53ea2a3c948521e330b3801740fede324a1cef2044418f8e09242.
Definition ORACLE_CONTRACT_CODE_HASH_REX5 : Z :=
  0x71a65239db8d0f1bb765fad36e34f57600420d103a4401ef7555bd50b229dc55.
Definition HIGH_PRECISION_TIMESTAMP_ORACLE_ADDRESS : Address :=
  0x6342000000000000000000000000000000000002.
Definition HIGH_PRECISION_TIMESTAMP_ORACLE_CODE_HASH : Z :=
  0x1b2df8ca5350cd7106d67ed95532584526f97a5ca267c8eef73a1831f53720f2.
Definition KEYLESS_DEPLOY_CODE_HASH : Z :=
  0x55020d41649acf7a84add6e628b887f802218d9ac86f142ef0994da43ea5eeb6.
Definition ACCESS_CONTROL_CODE_HASH : Z :=
  0x96d0f3ba6b474e9684a97e4388ec8dbb7929818b51e6b4f19f885ccbdf642f9b.
Definition LIMIT_CONTROL_CODE_HASH : Z :=
  0x3927f2a4803c5e18153ff5742d0fa1acd9ad04538e4e6037cb4a9b28694ca87f.

(** * Accounts and slots as the deployments build them *)

(** [Account::from(info)] and [Account { info, ..Default::default() }]. *)
Definition account_from_info (i : AccountInfo) : Account := mkAccount i ∅ status_empty 0.

Definition mark_touch (a : Account) : Account :=
  let s := acc_status a in
  mkAccount (acc_info a) (acc_storage a)
    (mkStatus (Created s) (CreatedLocal s) (SelfDestructed s) (SelfDestructedLocal s) true
       (LoadedAsNotExisting s) (Cold s)) (acc_transaction_id a).

Definition mark_created (a : Account) : Account :=
  let s := acc_status a in
  mkAccount (acc_info a) (acc_storage a)
    (mkStatus true (CreatedLocal s) (SelfDestructed s) (SelfDestructedLocal s) (Touched s)
       (LoadedAsNotExisting s) (Cold s)) (acc_transaction_id a).

Definition insert_slot (a : Account) (k : U256) (s : EvmStorageSlot) : Account :=
  mkAccount (acc_info a) (<[k := s]> (acc_storage a)) (acc_status a) (acc_transaction_id a).

(** [EvmStorageSlot::new] and [new_changed]. *)
Definition slot_new (v : U256) (transaction_id : Z) : EvmStorageSlot :=
  mkSlot v v transaction_id false.
Definition slot_new_changed (original present : U256) (transaction_id : Z) : EvmStorageSlot :=
  mkSlot original present transaction_id false.

(** * [system/deploy.rs] *)

Record SystemContractSpec : Type := mkContractSpec {
  sc_address : Address;
  sc_code : Bytes;
  sc_code_hash : Z;
  sc_seed : list (U256 * U256);
  sc_force_create_on_upgrade : bool;
}.

Definition contract_spec (address : Address) (code : Bytes) (code_hash : Z) : SystemContractSpec :=
  mkContractSpec address code code_hash [] false.
Definition with_seed (seed : list (U256 * U256)) (s : SystemContractSpec) : SystemContractSpec :=
  mkContractSpec (sc_address s) (sc_code s) (sc_code_hash s) seed (sc_force_create_on_upgrade s).
Definition with_force_create_on_upgrade (force : bool) (s : SystemContractSpec) : SystemContractSpec :=
  mkContractSpec (sc_address s) (sc_code s) (sc_code_hash s) (sc_seed s) force.

Section deploy.
Context `{RS : RevmState} `{HA : Artifacts} {DB : Type} `{B : !BlockState DB}.

Definition install_code (spec : SystemContractSpec) (i : AccountInfo) : AccountInfo :=
  mkAccountInfo (balance i) (nonce i) (sc_code_hash spec) (Some (new_raw (sc_code spec))).

Definition seed_storage (seed : list (U256 * U256)) (a : Account) : Account :=
  foldl (λ a kv, insert_slot a kv.1 (slot_new_changed 0 kv.2 0)) a seed.

(** The account of a deployment, from what the database holds. *)
Definition deployed_account (spec : SystemContractSpec) (existing_info : option AccountInfo) : Account :=
  let account_existed := bool_decide (is_Some existing_info) in
  let revm_acc :=
    mark_touch (account_from_info
      (install_code spec (default account_info_default existing_info))) in
  if negb account_existed || sc_force_create_on_upgrade spec
  then seed_storage (sc_seed spec) (mark_created revm_acc) else revm_acc.

Definition transact_deploy (spec : SystemContractSpec) : fallible DB db_error EvmState := (
  existing_info ⇐ total (load_cache_account (sc_address spec));
  match existing_info with
  | Some info =>
      if code_hash info =? sc_code_hash spec
      then fret {[sc_address spec := account_from_info info]}
      else fret {[sc_address spec := deployed_account spec existing_info]}
  | None => fret {[sc_address spec := deployed_account spec existing_info]}
  end)%fallible.

(** * The descriptors *)

Section specs.
Context {P : Type}.
Implicit Types (hardforks : MegaHardforkConfig P) (block_timestamp : Z).

Definition oracle_spec hardforks block_timestamp : option SystemContractSpec :=
  if negb (is_active MiniRex block_timestamp hardforks) then None
  else
    let rex5 := is_active Rex5 block_timestamp hardforks in
    let '(target_code, target_code_hash) :=
      if rex5 then (ORACLE_CONTRACT_CODE_REX5, ORACLE_CONTRACT_CODE_HASH_REX5)
      else if is_active Rex2 block_timestamp hardforks
      then (ORACLE_CONTRACT_CODE_REX2, ORACLE_CONTRACT_CODE_HASH_REX2)
      else (ORACLE_CONTRACT_CODE, ORACLE_CONTRACT_CODE_HASH) in
    Some (with_force_create_on_upgrade (negb rex5)
            (contract_spec ORACLE_CONTRACT_ADDRESS target_code target_code_hash)).

Definition high_precision_timestamp_oracle_spec hardforks block_timestamp :=
  if is_active MiniRex block_timestamp hardforks
  then Some (contract_spec HIGH_PRECISION_TIMESTAMP_ORACLE_ADDRESS
               HIGH_PRECISION_TIMESTAMP_ORACLE_CODE HIGH_PRECISION_TIMESTAMP_ORACLE_CODE_HASH)
  else None.

Definition keyless_deploy_spec hardforks block_timestamp :=
  if is_active Rex2 block_timestamp hardforks
  then Some (contract_spec KEYLESS_DEPLOY_ADDRESS KEYLESS_DEPLOY_CODE KEYLESS_DEPLOY_CODE_HASH)
  else None.

Definition access_control_spec hardforks block_timestamp :=
  if is_active Rex4 block_timestamp hardforks
  then Some (contract_spec ACCESS_CONTROL_ADDRESS ACCESS_CONTROL_CODE ACCESS_CONTROL_CODE_HASH)
  else None.

Definition limit_control_spec hardforks block_timestamp :=
  if is_active Rex4 block_timestamp hardforks
  then Some (contract_spec LIMIT_CONTROL_ADDRESS LIMIT_CONTROL_CODE LIMIT_CONTROL_CODE_HASH)
  else None.

Definition flat_system_contract_specs hardforks block_timestamp : list SystemContractSpec :=
  omap (λ s, s)
    [ oracle_spec hardforks block_timestamp;
      high_precision_timestamp_oracle_spec hardforks block_timestamp;
      keyless_deploy_spec hardforks block_timestamp;
      access_control_spec hardforks block_timestamp;
      limit_control_spec hardforks block_timestamp ].

(** [spec.map(|s| transact_deploy(db, &s)).transpose()]. *)
Definition transact_deploy_spec (spec : option SystemContractSpec)
    : fallible DB db_error (option EvmState) :=
  match spec with
  | None => fret None
  | Some s => fbind (transact_deploy s) (λ state, fret (Some state))
  end.

Definition transact_deploy_oracle_contract hardforks block_timestamp :=
  transact_deploy_spec (oracle_spec hardforks block_timestamp).
Definition transact_deploy_high_precision_timestamp_oracle hardforks block_timestamp :=
  transact_deploy_spec (high_precision_timestamp_oracle_spec hardforks block_timestamp).
Definition transact_deploy_keyless_deploy_contract hardforks block_timestamp :=
  transact_deploy_spec (keyless_deploy_spec hardforks block_timestamp).
Definition transact_deploy_access_control_contract hardforks block_timestamp :=
  transact_deploy_spec (access_control_spec hardforks block_timestamp).
Definition transact_deploy_limit_control_contract hardforks block_timestamp :=
  transact_deploy_spec (limit_control_spec hardforks block_timestamp).
End specs.
End deploy.
