(* ===== verification/SystemContractsFacts.v ===== *)
(** What a deployment does to the block's database.

    A database is seen through [BlockView]: the account of an address, the value of a slot, and
    whether an address is in the cache.  [same_view] is the equality of the first two; reads and
    the cache do not change it.  [BlockStateLaws] states what a commit does, per address, to the
    accounts a deployment can produce. *)

From S2P Require Import Prelude Spec Revm EvmState Hardfork Effects SystemContracts.

Class BlockView (DB : Type) := {
  account_of : DB → Address → option AccountInfo;
  storage_of : DB → Address → U256 → U256;
  cached : DB → Address → Prop;
}.

Section view.
Context {DB : Type} `{V : !BlockView DB}.
Implicit Types d : DB.

Definition same_at d d' (a : Address) : Prop :=
  account_of d' a = account_of d a ∧ ∀ k, storage_of d' a k = storage_of d a k.
Definition same_view d d' : Prop := ∀ a, same_at d d' a.
Definition cache_grows d d' : Prop := ∀ a, cached d a → cached d' a.
(** Reading changes only the cache. *)
Definition only_read d d' : Prop := same_view d d' ∧ cache_grows d d'.

#[export] Instance same_view_equivalence : Equivalence same_view.
Proof.
  split.
  - by intros d a.
  - intros d d' H a. destruct (H a) as [H1 H2]. by split.
  - intros d d' d'' H H' a. destruct (H a) as [H1 H2], (H' a) as [H3 H4].
    split; [congruence|]. intros k. by rewrite H4.
Qed.

#[export] Instance only_read_preorder : PreOrder only_read.
Proof.
  split; [intros d; by split; [reflexivity|intros a]|]. intros d d' d'' [H1 H2] [H3 H4]. split; [by etransitivity|].
  intros a Ha. auto.
Qed.

#[export] Instance account_of_proper : Proper (same_view ==> eq ==> eq) account_of.
Proof. intros d d' H a _ <-. symmetry. apply H. Qed.
#[export] Instance storage_of_proper : Proper (same_view ==> eq ==> eq ==> eq) storage_of.
Proof. intros d d' H a _ <- k _ <-. symmetry. apply (H a). Qed.
End view.

(** The value a commit writes to a slot, if it writes it. *)
Definition written (acc : Account) (k : U256) : option U256 :=
  match acc_storage acc !! k with
  | Some s => if slot_original s =? slot_present s then None else Some (slot_present s)
  | None => None
  end.

Class BlockStateLaws `{RS : RevmState} (DB : Type) `{B : !BlockState DB} `{V : !BlockView DB} := {
  load_only_read a (d : DB) : only_read d (fst (load_cache_account a d));
  load_ok a (d : DB) i :
    snd (load_cache_account a d) = Ok i →
    i = account_of d a ∧ cached (fst (load_cache_account a d)) a;
  storage_cached a k (d : DB) : cached d a → is_Some (state_storage a k d);
  storage_only_read a k (d d' : DB) r : state_storage a k d = Some (d', r) → only_read d d';
  storage_ok a k (d d' : DB) v :
    state_storage a k d = Some (d', Ok v) → v = storage_of d a k;
  clear_flag_only_read b (d : DB) : only_read d (set_state_clear_flag b d);
  clear_hashes_only_read (d : DB) : only_read d (clear_block_hashes d);
  (** A commit changes only touched accounts: a created one gets the written slots and no
      others, another one keeps the slots that are not written. *)
  commit_cache st (d : DB) : cache_grows d (state_commit st d);
  commit_respects st (d d' : DB) :
    same_view d d' → same_view (state_commit st d) (state_commit st d');
  commit_absent (st : EvmState) (d : DB) a : st !! a = None → same_at d (state_commit st d) a;
  commit_untouched (st : EvmState) (d : DB) a acc :
    st !! a = Some acc → Touched (acc_status acc) = false → same_at d (state_commit st d) a;
  commit_created (st : EvmState) (d : DB) a acc :
    st !! a = Some acc → cached d a → Touched (acc_status acc) = true →
    SelfDestructed (acc_status acc) = false → Created (acc_status acc) = true →
    account_of (state_commit st d) a = Some (acc_info acc) ∧
    ∀ k, storage_of (state_commit st d) a k = default 0 (written acc k);
  commit_changed (st : EvmState) (d : DB) a acc :
    st !! a = Some acc → cached d a → Touched (acc_status acc) = true →
    SelfDestructed (acc_status acc) = false → Created (acc_status acc) = false →
    account_info_is_empty (acc_info acc) = false →
    account_of (state_commit st d) a = Some (acc_info acc) ∧
    ∀ k, storage_of (state_commit st d) a k = default (storage_of d a k) (written acc k);
  (** An account with code is not empty. *)
  code_not_empty i : code_hash i ≠ KECCAK_EMPTY → code_hash i ≠ 0 → account_info_is_empty i = false;
}.

(** The value a seed gives a slot: its last entry, zero without one. *)
Fixpoint seeded (seed : list (U256 * U256)) (k : U256) : U256 :=
  match seed with
  | [] => 0
  | (k', v) :: seed =>
      if bool_decide (k ∈ seed.*1) then seeded seed k else if k =? k' then v else 0
  end.

Section facts.
Context `{RS : RevmState} `{HA : Artifacts} {DB : Type} `{B : !BlockState DB} `{V : !BlockView DB}.
Context `{HL : !BlockStateLaws DB}.
Implicit Types (d : DB) (spec : SystemContractSpec) (a : Address).

Lemma load_inv a d d' r :
  load_cache_account a d = (d', r) →
  only_read d d' ∧ ∀ i, r = Ok i → i = account_of d a ∧ cached d' a.
Proof.
  intros H. pose proof (load_only_read a d) as H1. pose proof (load_ok a d) as H2.
  rewrite H in H1, H2. split; [exact H1|]. intros i ->. by apply H2.
Qed.

(** The account a deployment returns for what the database holds. *)
Definition deploy_account spec (existing : option AccountInfo) : Account :=
  match existing with
  | Some info =>
      if code_hash info =? sc_code_hash spec then account_from_info info
      else deployed_account spec existing
  | None => deployed_account spec existing
  end.

Lemma transact_deploy_ok spec d d' st :
  transact_deploy spec d = Some (d', Ok st) →
  only_read d d' ∧ cached d' (sc_address spec) ∧
  st = {[sc_address spec := deploy_account spec (account_of d (sc_address spec))]}.
Proof.
  intros H. fbind_inv H. injection Hm as Hm.
  destruct (load_inv _ _ _ _ Hm) as [Hr Hi]. destruct (Hi _ eq_refl) as [-> Hc].
  unfold deploy_account. destruct (account_of d (sc_address spec)) as [i|].
  - destruct (code_hash i =? sc_code_hash spec); injection H as -> <-; done.
  - by injection H as -> <-.
Qed.

Lemma transact_deploy_total spec d :
  is_Some (transact_deploy spec d).
Proof.
  unfold transact_deploy, fbind, total. destruct (load_cache_account _ d) as [d' [[i|]|e]]; simpl;
    [destruct (_ =? _)|..]; by eauto.
Qed.

Lemma transact_deploy_only_read spec d d' r :
  transact_deploy spec d = Some (d', r) → only_read d d'.
Proof.
  intros H. apply fbind_some in H as (d1 & r1 & H1 & H2). injection H1 as H1.
  destruct (load_inv _ _ _ _ H1) as [Hr _]. destruct r1 as [[i|]|e].
  - destruct (code_hash i =? sc_code_hash spec); by injection H2 as -> _.
  - by injection H2 as -> _.
  - by destruct H2 as [-> _].
Qed.

(** Seeding touches the storage only, and the last entry of a slot wins. *)
Lemma seed_storage_other seed acc :
  acc_info (seed_storage seed acc) = acc_info acc ∧
  acc_status (seed_storage seed acc) = acc_status acc.
Proof.
  unfold seed_storage. revert acc. induction seed as [|kv seed IH]; intros acc; [done|]. simpl.
  destruct (IH (insert_slot acc kv.1 (slot_new_changed 0 kv.2 0))) as [-> ->]. done.
Qed.

Lemma seed_storage_lookup seed acc k :
  acc_storage (seed_storage seed acc) !! k =
    if bool_decide (k ∈ seed.*1) then Some (slot_new_changed 0 (seeded seed k) 0)
    else acc_storage acc !! k.
Proof.
  unfold seed_storage. revert acc. induction seed as [|[k' v] seed IH]; intros acc; [done|].
  cbn [foldl fmap list_fmap fst snd seeded]. rewrite IH. clear IH.
  destruct (bool_decide_reflect (k ∈ seed.*1)) as [Hin|Hin].
  - rewrite bool_decide_eq_true_2 by (by right). done.
  - simpl. destruct (Z.eqb_spec k k') as [->|Hne].
    + rewrite bool_decide_eq_true_2 by left. by rewrite lookup_insert_eq.
    + rewrite bool_decide_eq_false_2 by (rewrite elem_of_cons; tauto).
      by rewrite lookup_insert_ne.
Qed.

Lemma seeded_absent seed k : k ∉ seed.*1 → seeded seed k = 0.
Proof.
  induction seed as [|[k' v] seed IH]; [done|]. cbn [fmap list_fmap fst seeded].
  rewrite not_elem_of_cons. intros [Hne Hin]. rewrite bool_decide_eq_false_2 by done.
  by rewrite (proj2 (Z.eqb_neq _ _)).
Qed.

Lemma written_seeded seed acc k :
  acc_storage acc = ∅ → default 0 (written (seed_storage seed acc) k) = seeded seed k.
Proof.
  intros He. unfold written. rewrite seed_storage_lookup, He.
  destruct (bool_decide_reflect (k ∈ seed.*1)) as [Hin|Hin].
  - cbn [slot_original slot_present slot_new_changed].
    destruct (Z.eqb_spec 0 (seeded seed k)) as [<-|Hne]; done.
  - rewrite lookup_empty. symmetry. by apply seeded_absent.
Qed.

(** The balance and nonce an account had. *)
Definition funds (i : option AccountInfo) : Z * Z :=
  let i := default account_info_default i in (balance i, nonce i).

Definition installed spec d : Prop :=
  ∃ i, account_of d (sc_address spec) = Some i ∧ code_hash i = sc_code_hash spec.

(** Whether the code of [spec] is in place already. *)
Definition in_place spec (existing : option AccountInfo) : bool :=
  match existing with Some i => code_hash i =? sc_code_hash spec | None => false end.

Definition recreates spec (existing : option AccountInfo) : bool :=
  bool_decide (existing = None) || sc_force_create_on_upgrade spec.

(** Committing a state whose entry for the contract is the deployment's account. *)
Lemma commit_deploy_account spec (st : EvmState) d existing :
  let a := sc_address spec in
  sc_code_hash spec ≠ KECCAK_EMPTY → sc_code_hash spec ≠ 0 → cached d a →
  existing = account_of d a →
  st !! a = Some (deploy_account spec existing) →
  let d' := state_commit st d in
  (∃ i, account_of d' a = Some i ∧ code_hash i = sc_code_hash spec ∧
        funds (Some i) = funds existing) ∧
  (in_place spec existing = true → same_at d d' a) ∧
  (in_place spec existing = false → ∀ k,
     storage_of d' a k =
       if recreates spec existing then seeded (sc_seed spec) k else storage_of d a k).
Proof.
  intros a Hk Hz Hc He Hst d'. subst d'. unfold deploy_account, in_place, recreates in *.
  destruct existing as [i|].
  - destruct (Z.eqb_spec (code_hash i) (sc_code_hash spec)) as [Heq|Hne].
    + destruct (commit_untouched st d a _ Hst eq_refl) as [Ha Hs].
      split_and!; [exists i; rewrite Ha; done|done|done].
    + unfold deployed_account in Hst. rewrite bool_decide_eq_true_2 in Hst by (by eexists).
      rewrite bool_decide_eq_false_2 by done. simpl in *.
      destruct (sc_force_create_on_upgrade spec); simpl in *.
      * destruct (seed_storage_other (sc_seed spec)
          (mark_created (mark_touch (account_from_info (install_code spec i))))) as [Hi Hs].
        destruct (commit_created st d a _ Hst Hc) as [Ha Hv]; rewrite ?Hs, ?Hi; try done.
        split_and!; [|done|].
        -- eexists. rewrite Ha, Hi. done.
        -- intros _ k. rewrite Hv. by apply written_seeded.
      * destruct (commit_changed st d a _ Hst Hc) as [Ha Hv]; try done; [by apply code_not_empty|].
        split_and!; [|done|].
        -- eexists. rewrite Ha. done.
        -- intros _ k. by rewrite Hv.
  - unfold deployed_account in Hst. rewrite bool_decide_eq_false_2 in Hst by (by intros [? ?]).
    simpl in Hst. destruct (seed_storage_other (sc_seed spec)
      (mark_created (mark_touch (account_from_info (install_code spec account_info_default)))))
      as [Hi Hs].
    destruct (commit_created st d a _ Hst Hc) as [Ha Hv]; rewrite ?Hs, ?Hi; try done.
    split_and!; [|done|].
    + eexists. rewrite Ha, Hi. done.
    + intros _ k. rewrite bool_decide_eq_true_2 by done. simpl. rewrite Hv.
      by apply written_seeded.
Qed.
End facts.

Section theorem.
Context `{RS : RevmState} `{HA : Artifacts} {DB : Type} `{B : !BlockState DB} `{V : !BlockView DB}.
Context `{HL : !BlockStateLaws DB}.

Lemma same_at_trans (d d' d'' : DB) a : same_at d d' a → same_at d' d'' a → same_at d d'' a.
Proof. intros [H1 H2] [H3 H4]. split; [congruence|]. intros k. by rewrite H4. Qed.

(** A deployment leaves the other addresses alone. *)
Lemma commit_singleton_other (d : DB) a acc b :
  b ≠ a → same_at d (state_commit {[a := acc]} d) b.
Proof. intros Hne. apply commit_absent. by rewrite lookup_singleton_ne. Qed.

(** Deploying what is in place changes nothing. *)
Lemma deploy_in_place spec (d d' : DB) st :
  installed spec d → transact_deploy spec d = Some (d', Ok st) →
  same_view d (state_commit st d').
Proof.
  intros (i & Hi & Hh) H. destruct (transact_deploy_ok _ _ _ _ H) as ([Hv _] & _ & ->).
  rewrite Hi. unfold deploy_account. rewrite Hh, Z.eqb_refl. rewrite Hv. intros b.
  destruct (decide (b = sc_address spec)) as [->|Hne]; [|by apply commit_singleton_other].
  by eapply commit_untouched; [apply lookup_singleton_eq|].
Qed.

(** A system contract is installed by a state patch that keeps what must be kept.  Deploying
    a contract and committing the result puts its code at its address and keeps the balance and
    nonce the address had; an address that did not exist, or that is recreated, holds exactly the
    seeded slots, an upgraded or already deployed contract keeps its storage, no other address
    changes, and deploying again changes nothing. *)
Lemma system_contract_installed spec (d d1 : DB) st :
  sc_code_hash spec ≠ KECCAK_EMPTY → sc_code_hash spec ≠ 0 →
  transact_deploy spec d = Some (d1, Ok st) →
  let a := sc_address spec in
  let old := account_of d a in
  let d2 := state_commit st d1 in
  (∃ i, account_of d2 a = Some i ∧ code_hash i = sc_code_hash spec ∧ funds (Some i) = funds old) ∧
  (∀ k, storage_of d2 a k =
     if negb (in_place spec old) && recreates spec old then seeded (sc_seed spec) k
     else storage_of d a k) ∧
  (∀ b, b ≠ a → same_at d d2 b) ∧
  (∀ d3 st', transact_deploy spec d2 = Some (d3, Ok st') → same_view d2 (state_commit st' d3)).
Proof.
  intros Hk Hz H. cbv zeta. destruct (transact_deploy_ok _ _ _ _ H) as ([Hv Hg] & Hc & ->).
  assert (account_of d (sc_address spec) = account_of d1 (sc_address spec)) as Hold
    by (symmetry; apply Hv).
  rewrite Hold. destruct (commit_deploy_account spec _ d1 _ Hk Hz Hc eq_refl
    (lookup_singleton_eq _ _)) as (Hi & Hsame & Hst).
  split_and!; [done|..].
  - intros k. rewrite <- (proj2 (Hv (sc_address spec)) k).
    destruct (in_place spec _); simpl; [by apply Hsame|]. rewrite (Hst eq_refl k).
    by destruct (recreates spec _).
  - intros b Hb. eapply same_at_trans; [apply Hv|]. by apply commit_singleton_other.
  - intros d3 st' H'. eapply deploy_in_place; [|done]. destruct Hi as (i & Hi & Hh & _). by exists i.
Qed.
End theorem.

(** * A reference database *)

Record RefDb : Type := mkRefDb {
  rd_accounts : gmap Z (AccountInfo * gmap Z Z);
  rd_cached : gset Z;
}.

Definition ref_written (acc : Account) : gmap Z Z :=
  omap (λ s, if slot_original s =? slot_present s then None else Some (slot_present s))
    (acc_storage acc).

Definition ref_apply (old : option (AccountInfo * gmap Z Z)) (new : option Account)
    : option (AccountInfo * gmap Z Z) :=
  match new with
  | None => old
  | Some acc =>
      if negb (Touched (acc_status acc)) then old
      else if SelfDestructed (acc_status acc) then None
      else if Created (acc_status acc) then Some (acc_info acc, ref_written acc)
      else if account_info_is_empty (acc_info acc) then None
      else Some (acc_info acc, ref_written acc ∪ default ∅ (snd <$> old))
  end.

#[export] Instance reference_block_state : BlockState RefDb := {|
  db_error := unit;
  load_cache_account a d :=
    (mkRefDb (rd_accounts d) ({[a]} ∪ rd_cached d), Ok (fst <$> rd_accounts d !! a));
  state_storage a k d :=
    if bool_decide (a ∈ rd_cached d)
    then Some (d, Ok (default 0 (rd_accounts d !! a ≫= λ x, snd x !! k))) else None;
  state_commit st d := mkRefDb (merge ref_apply (rd_accounts d) st) (rd_cached d);
  set_state_clear_flag _ d := d;
  block_hashes _ := ∅;
  clear_block_hashes d := d;
|}.

#[export] Instance reference_block_view : BlockView RefDb := {|
  account_of d a := fst <$> rd_accounts d !! a;
  storage_of d a k := default 0 (rd_accounts d !! a ≫= λ x, snd x !! k);
  cached d a := a ∈ rd_cached d;
|}.

Lemma ref_commit_lookup (st : EvmState) (d : RefDb) a :
  rd_accounts (state_commit st d) !! a = ref_apply (rd_accounts d !! a) (st !! a).
Proof.
  simpl. rewrite lookup_merge. unfold diag_None, ref_apply.
  destruct (rd_accounts d !! a), (st !! a) as [acc|]; simpl; try done.
Qed.

Lemma ref_written_lookup acc k : ref_written acc !! k = written acc k.
Proof.
  unfold ref_written, written. rewrite lookup_omap. by destruct (acc_storage acc !! k).
Qed.

Lemma ref_same_at (d d' : RefDb) a :
  rd_accounts d' !! a = rd_accounts d !! a → same_at d d' a.
Proof. intros H. split; [|intros k]; simpl; by rewrite H. Qed.

Lemma ref_only_read (d d' : RefDb) :
  rd_accounts d' = rd_accounts d → rd_cached d ⊆ rd_cached d' → only_read d d'.
Proof.
  intros H1 H2. split; [intros a; apply ref_same_at; by rewrite H1|]. intros a Ha. by apply H2.
Qed.

#[export] Instance reference_block_laws : BlockStateLaws RefDb.
Proof.
  split.
  - intros a d. by apply ref_only_read; simpl; [|set_solver].
  - intros a d i [= <-]. split; [done|]. simpl. set_solver.
  - intros a k d Ha. simpl. rewrite bool_decide_eq_true_2 by done. by eexists.
  - intros a k d d' r. simpl. case_bool_decide; [|done]. intros [= <- <-]. by apply ref_only_read.
  - intros a k d d' v. simpl. case_bool_decide; [|done]. by intros [= <- <-].
  - intros b d. by apply ref_only_read.
  - intros d. by apply ref_only_read.
  - by intros st d a Ha.
  - intros st d d' Hv a. destruct (Hv a) as [H1 H2]. split; [|intros k; specialize (H2 k)];
      cbn [account_of storage_of reference_block_view] in *; rewrite !ref_commit_lookup;
      unfold ref_apply; destruct (st !! a) as [acc|]; try done;
      destruct (negb (Touched (acc_status acc))); try done;
      destruct (SelfDestructed (acc_status acc)); try done;
      destruct (Created (acc_status acc)); try done;
      destruct (account_info_is_empty (acc_info acc)); try done.
    simpl. rewrite !lookup_union. destruct (ref_written acc !! k); [by destruct (_ !! k), (_ !! k)|].
    destruct (rd_accounts d !! a) as [[i m]|], (rd_accounts d' !! a) as [[i' m']|]; simpl in *;
      rewrite ?lookup_empty; try (by destruct (m !! k)); try (by destruct (m' !! k)); try done.
    by destruct (m !! k), (m' !! k).
  - intros st d a Ha. apply ref_same_at. by rewrite ref_commit_lookup, Ha.
  - intros st d a acc Ha Ht. apply ref_same_at. rewrite ref_commit_lookup, Ha. simpl.
    by rewrite Ht.
  - intros st d a acc Ha _ Ht Hs Hc. cbn [account_of storage_of reference_block_view].
    rewrite ref_commit_lookup, Ha. unfold ref_apply. rewrite Ht, Hs, Hc. simpl. split; [done|].
    intros k. by rewrite ref_written_lookup.
  - intros st d a acc Ha _ Ht Hs Hc He. cbn [account_of storage_of reference_block_view].
    rewrite ref_commit_lookup, Ha. unfold ref_apply. rewrite Ht, Hs, Hc, He. simpl.
    split; [done|]. intros k. rewrite lookup_union, ref_written_lookup.
    destruct (written acc k) as [v|]; simpl; [by destruct (_ !! k)|].
    destruct (rd_accounts d !! a) as [[i m]|]; simpl; [by destruct (m !! k)|done].
  - intros i Hk Hz. simpl in *. rewrite (proj2 (Z.eqb_neq _ _) Hk). by rewrite andb_false_r.
Qed.

#[export] Instance reference_artifacts : Artifacts := {|
  new_raw := OtherBytecode;
  ORACLE_CONTRACT_CODE := [1];
  ORACLE_CONTRACT_CODE_REX2 := [2];
  ORACLE_CONTRACT_CODE_REX5 := [3];
  HIGH_PRECISION_TIMESTAMP_ORACLE_CODE := [4];
  KEYLESS_DEPLOY_CODE := [5];
  ACCESS_CONTROL_CODE := [6];
  LIMIT_CONTROL_CODE := [7];
  SEQUENCER_REGISTRY_CODE := [8];
  SEQUENCER_REGISTRY_CODE_REX6 := [9];
|}.

(** A contract at address 5 of an older version, with a balance and a slot. *)
Definition old_contract_db : RefDb :=
  mkRefDb {[5 := (mkAccountInfo 9 1 100 (Some (OtherBytecode [0])), {[1 := 42]})]} ∅.

(** The upgrade keeps slot 1, the recreation replaces it with the seed. *)
Lemma system_contract_installed_witness :
  let upgrade := contract_spec 5 [0] 200 in
  let recreate := with_force_create_on_upgrade true (with_seed [(7, 8)] upgrade) in
  ∃ d1 st d1' st',
    transact_deploy upgrade old_contract_db = Some (d1, Ok st) ∧
    transact_deploy recreate old_contract_db = Some (d1', Ok st') ∧
    storage_of (state_commit st d1) 5 1 = 42 ∧
    storage_of (state_commit st' d1') 5 1 = 0 ∧ storage_of (state_commit st' d1') 5 7 = 8.
Proof.
  intros upgrade recreate. do 4 eexists. do 2 (split; [reflexivity|]).
  assert (200 ≠ KECCAK_EMPTY) as Hk by done. assert (200 ≠ 0) as Hz by done.
  pose proof (system_contract_installed upgrade old_contract_db _ _ Hk Hz eq_refl) as (_ & H1 & _).
  pose proof (system_contract_installed recreate old_contract_db _ _ Hk Hz eq_refl) as (_ & H2 & _).
  specialize (H1 1). pose proof (H2 1) as H3. specialize (H2 7).
  split_and!; [etransitivity; [exact H1|]|etransitivity; [exact H3|]|etransitivity; [exact H2|]];
    reflexivity.
Defined.
