(* ===== verification/BlockEvm.v ===== *)
(** What the block level asks of an EVM: the interface between [block/] and [evm/].

    The block executor and the pre-block helpers are generic over the EVM they drive; the class
    [BlockEvm] lists the methods they call, [MegaTransactionOutcome] ([evm/result.rs]) is what a
    transaction returns to them, and [ExecError] the errors they raise.  Error texts are kept as
    constructors. *)

From S2P Require Import Prelude Spec Revm EvmState BlockLimit Effects.

(** [evm/result.rs]; [R] is [ExecutionResult<MegaHaltReason>]. *)
Record MegaTransactionOutcome (R : Type) : Type := mkTxOutcome {
  mo_result : R;
  mo_state : EvmState;
  mo_data_size : Z;
  mo_kv_updates : Z;
  mo_compute_gas_used : Z;
  mo_state_growth_used : Z;
}.
Arguments mkTxOutcome {R} _ _ _ _ _ _.
Arguments mo_result {R} _.
Arguments mo_state {R} _.
Arguments mo_data_size {R} _.
Arguments mo_kv_updates {R} _.
Arguments mo_compute_gas_used {R} _.
Arguments mo_state_growth_used {R} _.

(** The messages of the errors on system contracts; [E] is the error of the EVM. *)
Inductive call_message (E : Type) : Type :=
  | CallFailed (e : E)
  | CallNotSuccessful
  | Rex5ParamsMissing
  | Rex6ParamsMissing
  | UnexpectedCodeHash (found expected : Z)
  | ApplyFailed (e : E)
  | ApplyReverted
  | RegistryMissing
  | CodeHashMismatch (expected found : Z)
  | SystemAddressZero.
Arguments CallFailed {E} _.
Arguments CallNotSuccessful {E}.
Arguments Rex5ParamsMissing {E}.
Arguments Rex6ParamsMissing {E}.
Arguments UnexpectedCodeHash {E} _ _.
Arguments ApplyFailed {E} _.
Arguments ApplyReverted {E}.
Arguments RegistryMissing {E}.
Arguments CodeHashMismatch {E} _ _.
Arguments SystemAddressZero {E}.

(** [BlockExecutionError] and [BlockValidationError]; [D] is the error of the database. *)
Inductive ExecError (D E : Type) : Type :=
  | LimitsExceeded (e : BlockExecutionError)
  | BlockHashContractCall (message : call_message E)
  | BeaconRootContractCall (parent_beacon_block_root : Z) (message : call_message E)
  | MissingParentBeaconBlockRoot
  | CancunGenesisParentBeaconBlockRootNotZero (parent_beacon_block_root : Z)
  | OtherError (e : D)
  | EvmFailure (e : E) (hash : Z).
Arguments LimitsExceeded {D E} _.
Arguments BlockHashContractCall {D E} _.
Arguments BeaconRootContractCall {D E} _ _.
Arguments MissingParentBeaconBlockRoot {D E}.
Arguments CancunGenesisParentBeaconBlockRootNotZero {D E} _.
Arguments OtherError {D E} _.
Arguments EvmFailure {D E} _ _.

Class BlockEvm (V DB : Type) := {
  evm_error : Type;
  (** [MegaTransaction], and [ExecutionResult] with what is read of it. *)
  tx_env : Type;
  exec_result : Type;
  logs_t : Type;
  is_success : exec_result → bool;
  gas_used : exec_result → Z;
  into_logs : exec_result → logs_t;
  (** [db_mut()]. *)
  evm_db : V → DB;
  evm_with_db : DB → V → V;
  (** The spec, the block environment and the system address of the context. *)
  evm_spec : V → MegaSpecId;
  env_timestamp : V → U256;
  env_number : V → U256;
  env_gas_limit : V → Z;
  evm_set_system_address : Address → V → V;
  evm_get_accessed_bucket_ids : V → gset Z;
  transact_system_call :
    Address → Address → Bytes → fallible V evm_error (exec_result * EvmState);
  transact_system_call_with_gas_limit :
    Address → Address → Bytes → Z → fallible V evm_error (exec_result * EvmState);
  execute_transaction : tx_env → fallible V evm_error (MegaTransactionOutcome exec_result);
}.

(** [saturating_to::<u64>()] and [to::<u64>()], which panics. *)
Definition saturating_to_u64 (x : U256) : Z := Z.min x u64_max.
Definition to_u64 (x : U256) : panics Z := if x <=? u64_max then Some x else None.
