(* ===== verification/SequencerRegistry.v ===== *)
(** The sequencer registry as the block executor sees it: [system/sequencer_registry.rs], the
    storage slots of [system-contracts/src/lib.rs], and the chain schedules of [block/chain.rs]
    that carry its parameters. *)

From S2P Require Import Prelude Spec Revm SystemTx EvmState Hardfork BlockLimit Effects.
From S2P Require Import SystemContracts BlockEvm.

Definition SEQUENCER_REGISTRY_ADDRESS : Address := 0x6342000000000000000000000000000000000006.
Definition SEQUENCER_REGISTRY_CODE_HASH : Z :=
  0x63cd411a379be1c198613ef1d15c3058e7b0db4a5d07d4bcf07014af90040315.
Definition SEQUENCER_REGISTRY_CODE_HASH_REX6 : Z :=
  0xabd7e8f1c8f0f9ca0346df585b65d9791a7e9ba5c431cc4eda5d2c2f1f5e9c43.

(** * [storage_slots] *)

Definition CURRENT_SYSTEM_ADDRESS : U256 := 0.
Definition CURRENT_SEQUENCER : U256 := 1.
Definition ADMIN : U256 := 2.
Definition PENDING_ADMIN : U256 := 3.
Definition INITIAL_SYSTEM_ADDRESS : U256 := 4.
Definition INITIAL_SEQUENCER : U256 := 5.
Definition INITIAL_FROM_BLOCK : U256 := 6.
Definition PENDING_SYSTEM_ADDRESS : U256 := 7.
Definition SYSTEM_ADDRESS_ACTIVATION_BLOCK : U256 := 8.
Definition PENDING_SEQUENCER : U256 := 9.
Definition SEQUENCER_ACTIVATION_BLOCK : U256 := 10.
Definition MIN_ROTATION_DELAY : U256 := 13.

(** * Fork parameters *)

Record SequencerRegistryConfig : Type := mkRegistryConfig {
  rex5_initial_sequencer : Address;
  rex5_initial_admin : Address;
}.

Record SequencerRegistryRex6Config : Type := mkRegistryRex6Config {
  rex6_min_rotation_delay : Z;
}.

(** The types that implement [HardforkParams], and the fork of each. *)
Inductive HardforkParams : Type :=
  | RegistryParams (c : SequencerRegistryConfig)
  | RegistryRex6Params (c : SequencerRegistryRex6Config).

Definition params_fork (p : HardforkParams) : MegaHardfork :=
  match p with RegistryParams _ => Rex5 | RegistryRex6Params _ => Rex6 end.

Definition validate_config (c : SequencerRegistryConfig) : bool :=
  if rex5_initial_sequencer c =? 0 then false
  else if rex5_initial_admin c =? 0 then false
  else true.

Definition validate_rex6_config (c : SequencerRegistryRex6Config) : bool :=
  if rex6_min_rotation_delay c =? 0 then false else true.

Definition validate_params (p : HardforkParams) : bool :=
  match p with
  | RegistryParams c => validate_config c
  | RegistryRex6Params c => validate_rex6_config c
  end.

Abbreviation Hardforks := (MegaHardforkConfig HardforkParams) (only parsing).

Definition attach_params (p : HardforkParams) (c : Hardforks) : panics Hardforks :=
  with_params validate_params (params_fork p) p c.

(** [fork_params::<P>()]: the parameters of [P]'s fork, if they have type [P]. *)
Definition registry_params (c : Hardforks) : option SequencerRegistryConfig :=
  match fork_params_any Rex5 c with Some (RegistryParams p) => Some p | _ => None end.
Definition registry_rex6_params (c : Hardforks) : option SequencerRegistryRex6Config :=
  match fork_params_any Rex6 c with Some (RegistryRex6Params p) => Some p | _ => None end.

(** * Schedules: [block/chain.rs] *)

Definition MAINNET_CHAIN_ID : Z := 4326.
Definition TESTNET_CHAIN_ID : Z := 6343.

Definition with_fork (h : MegaHardfork) (condition : ForkCondition) (c : Hardforks) : Hardforks :=
  with_ (fork_name h) condition c.

Definition mainnet_hardforks : panics Hardforks :=
  attach_params
    (RegistryParams (mkRegistryConfig 0x7a49197dd1ebb8d38c67e4eb7626af6ade432445
                       0x92e0e0b15e3e99b32c9ed9ad284f939553c7b7d6))
    (with_fork Rex5 (Timestamp 1780632000)
    (with_fork Rex4 (Timestamp 1776659200)
    (with_fork Rex3 (Timestamp 1771639200)
    (with_fork Rex2 (Timestamp 1770246000)
    (with_fork Rex1 (Timestamp 1766282400)
    (with_fork Rex (Timestamp 1764851940)
    (with_fork MiniRex2 (Timestamp 1764849932)
    (with_fork MiniRex1 (Timestamp 1764845637)
    (with_fork MiniRex (Timestamp 0) new))))))))).

Definition testnet_hardforks : panics Hardforks :=
  attach_params
    (RegistryParams (mkRegistryConfig 0xB8DB54eBA7Ae650d14F362de461516a4FF1551FC
                       0x1d9BD232C44B39341e670B735c7F423c40426b34))
    (with_fork Rex5 (Timestamp 1780459200)
    (with_fork Rex4 (Timestamp 1776400000)
    (with_fork Rex3 (Timestamp 1771380000)
    (with_fork Rex2 (Timestamp 1770116400)
    (with_fork Rex1 (Timestamp 1766147599)
    (with_fork Rex (Timestamp 1764694618)
    (with_fork MiniRex2 Never
    (with_fork MiniRex1 Never
    (with_fork MiniRex (Timestamp 0) new))))))))).

Definition all_activated_hardforks : panics Hardforks :=
  c ← attach_params (RegistryParams (mkRegistryConfig MEGA_SYSTEM_ADDRESS MEGA_SYSTEM_ADDRESS))
        (with_all_activated new);
  attach_params (RegistryRex6Params (mkRegistryRex6Config 1)) c.

Definition hardfork_schedule (chain_id : Z) : panics Hardforks :=
  if chain_id =? MAINNET_CHAIN_ID then mainnet_hardforks
  else if chain_id =? TESTNET_CHAIN_ID then testnet_hardforks
  else all_activated_hardforks.

(** * Deployment and reads *)

Section registry.
Context `{RS : RevmState} `{HA : Artifacts} {DB : Type} `{B : !BlockState DB} {E : Type}.
Local Notation error := (ExecError db_error E).
Implicit Types hardforks : Hardforks.

(** [Address::from_word], the inverse of [address_to_storage_value]. *)
Definition address_to_storage_value (address : Address) : U256 := address.
Definition address_from_word (value : U256) : Address := value mod 2 ^ 160.

(** [db.load_cache_account(SEQUENCER_REGISTRY_ADDRESS).map_err(..)?]. *)
Definition load_registry : fallible DB error (option AccountInfo) := λ db,
  let '(db, r) := load_cache_account SEQUENCER_REGISTRY_ADDRESS db in
  Some (db, match r with Ok i => Ok i | Err e => Err (OtherError e) end).

Definition read_registry_storage (slot : U256) : fallible DB error U256 := λ db,
  '(db, r) ← state_storage SEQUENCER_REGISTRY_ADDRESS slot db;
  Some (db, match r with Ok v => Ok v | Err e => Err (OtherError e) end).

Definition is_role_due (account : Account) (pending_slot activation_slot : U256)
    (block_number : Z) : fallible DB error (Account * bool) := (
  pending ⇐ read_registry_storage pending_slot;
  let account := insert_slot account pending_slot (slot_new pending 0) in
  if pending =? 0 then fret (account, false)
  else
    activation_block ⇐ read_registry_storage activation_slot;
    let account := insert_slot account activation_slot (slot_new activation_block 0) in
    fret (account, saturating_to_u64 activation_block <=? block_number))%fallible.

(** The storage a fresh registry starts with. *)
Definition registry_seed (config : SequencerRegistryConfig) (current_block_number : Z)
    (min_rotation_delay : option U256) : list (U256 * U256) :=
  let initial_system_address := address_to_storage_value MEGA_SYSTEM_ADDRESS in
  let initial_sequencer := address_to_storage_value (rex5_initial_sequencer config) in
  let initial_admin := address_to_storage_value (rex5_initial_admin config) in
  [ (CURRENT_SYSTEM_ADDRESS, initial_system_address);
    (CURRENT_SEQUENCER, initial_sequencer);
    (ADMIN, initial_admin);
    (INITIAL_SYSTEM_ADDRESS, initial_system_address);
    (INITIAL_SEQUENCER, initial_sequencer);
    (INITIAL_FROM_BLOCK, current_block_number) ] ++
  match min_rotation_delay with Some delay => [(MIN_ROTATION_DELAY, delay)] | None => [] end.

Definition registry_target (rex6 : bool) : Bytes * Z :=
  if rex6 then (SEQUENCER_REGISTRY_CODE_REX6, SEQUENCER_REGISTRY_CODE_HASH_REX6)
  else (SEQUENCER_REGISTRY_CODE, SEQUENCER_REGISTRY_CODE_HASH).

Definition registry_spec (rex6 : bool) (config : SequencerRegistryConfig)
    (current_block_number : Z) (min_rotation_delay : option U256) : SystemContractSpec :=
  let '(target_code, target_code_hash) := registry_target rex6 in
  with_force_create_on_upgrade true
    (with_seed (registry_seed config current_block_number min_rotation_delay)
       (contract_spec SEQUENCER_REGISTRY_ADDRESS target_code target_code_hash)).

Definition min_rotation_delay_param hardforks (rex6 : bool) : fallible DB error (option U256) :=
  if rex6 then
    fbind (ok_or (registry_rex6_params hardforks) (BlockHashContractCall Rex6ParamsMissing))
      (λ params, fret (Some (rex6_min_rotation_delay params)))
  else fret None.

(** The storage-preserving upgrade to version 2.0.0. *)
Definition upgrade_registry (account_info : AccountInfo) (min_rotation_delay : option U256)
    : fallible DB error EvmState := (
  let '(target_code, target_code_hash) := registry_target true in
  let acc_info := mkAccountInfo (balance account_info) (nonce account_info) target_code_hash
                    (Some (new_raw target_code)) in
  let revm_acc := mark_touch (account_from_info acc_info) in
  original ⇐ read_registry_storage MIN_ROTATION_DELAY;
  delay ⇐ unwrap min_rotation_delay;
  fret {[SEQUENCER_REGISTRY_ADDRESS :=
           insert_slot revm_acc MIN_ROTATION_DELAY (slot_new_changed original delay 0)]})%fallible.

(** The deployment proper: bootstrap, or read-only when the code is in place. *)
Definition deploy_registry (rex6 : bool) (config : SequencerRegistryConfig)
    (current_block_number : Z) (min_rotation_delay : option U256) : fallible DB error EvmState := λ db,
  '(db, r) ← transact_deploy (registry_spec rex6 config current_block_number min_rotation_delay) db;
  Some (db, match r with Ok s => Ok s | Err e => Err (OtherError e) end).

Definition transact_deploy_sequencer_registry hardforks (block_timestamp current_block_number : Z)
    (config : SequencerRegistryConfig) : fallible DB error (option EvmState) :=
  if negb (is_active Rex5 block_timestamp hardforks) then fret None
  else (
    let rex6 := is_active Rex6 block_timestamp hardforks in
    let target_code_hash := snd (registry_target rex6) in
    min_rotation_delay ⇐ min_rotation_delay_param hardforks rex6;
    acc ⇐ load_registry;
    match acc with
    | Some account_info =>
        if rex6 && (code_hash account_info =? SEQUENCER_REGISTRY_CODE_HASH) then
          state ⇐ upgrade_registry account_info min_rotation_delay; fret (Some state)
        else if negb (code_hash account_info =? target_code_hash) &&
                negb (code_hash account_info =? KECCAK_EMPTY) then
          ffail (BlockHashContractCall
                   (UnexpectedCodeHash (code_hash account_info) target_code_hash))
        else
          state ⇐ deploy_registry rex6 config current_block_number min_rotation_delay;
          fret (Some state)
    | None =>
        state ⇐ deploy_registry rex6 config current_block_number min_rotation_delay;
        fret (Some state)
    end)%fallible.

(** [Account::new_not_existing(0)]. *)
Definition account_not_existing : Account :=
  mkAccount account_info_default ∅ status_not_existing 0.

Definition is_apply_pending_changes_due (block_number : Z)
    : fallible DB error (bool * EvmState) := (
  acc ⇐ load_registry;
  match acc with
  | None => fret (false, {[SEQUENCER_REGISTRY_ADDRESS := account_not_existing]})
  | Some info =>
      let account := account_from_info info in
      '(account, system_address_due) ⇐
        is_role_due account PENDING_SYSTEM_ADDRESS SYSTEM_ADDRESS_ACTIVATION_BLOCK block_number;
      '(account, sequencer_due) ⇐
        is_role_due account PENDING_SEQUENCER SEQUENCER_ACTIVATION_BLOCK block_number;
      fret (system_address_due || sequencer_due, {[SEQUENCER_REGISTRY_ADDRESS := account]})
  end)%fallible.

Definition resolve_system_address hardforks (spec : MegaSpecId)
    : fallible DB error (Address * option EvmState) :=
  if negb (is_enabled spec REX5) then fret (MEGA_SYSTEM_ADDRESS, None)
  else (
    _ ⇐ ok_or (registry_params hardforks) (BlockHashContractCall Rex5ParamsMissing);
    acc ⇐ load_registry;
    info ⇐ ok_or acc (BlockHashContractCall RegistryMissing);
    let expected_code_hash :=
      if is_enabled spec REX6 then SEQUENCER_REGISTRY_CODE_HASH_REX6
      else SEQUENCER_REGISTRY_CODE_HASH in
    if negb (code_hash info =? expected_code_hash) then
      ffail (BlockHashContractCall (CodeHashMismatch expected_code_hash (code_hash info)))
    else
      value ⇐ read_registry_storage CURRENT_SYSTEM_ADDRESS;
      let account := insert_slot (account_from_info info) CURRENT_SYSTEM_ADDRESS (slot_new value 0) in
      if value =? 0 then ffail (BlockHashContractCall SystemAddressZero)
      else fret (address_from_word value, Some {[SEQUENCER_REGISTRY_ADDRESS := account]}))%fallible.
End registry.

(** [transact_apply_pending_changes]: [apply_calldata] is the ABI encoding of the call. *)
Section apply.
Context {V DB D : Type} `{BE : !BlockEvm V DB} `{R : Revm} (apply_calldata : Bytes).

Definition SYSTEM_CALL_GAS_LIMIT_FLOOR : Z := 30000000.

Definition transact_apply_pending_changes
    : fallible V (ExecError D evm_error) (exec_result * EvmState) := λ evm,
  let gas_limit := Z.max (env_gas_limit evm) SYSTEM_CALL_GAS_LIMIT_FLOOR in
  '(evm, r) ← transact_system_call_with_gas_limit EIP4788_SYSTEM_ADDRESS
                SEQUENCER_REGISTRY_ADDRESS apply_calldata gas_limit evm;
  match r with
  | Err e => Some (evm, Err (BlockHashContractCall (ApplyFailed e)))
  | Ok (result, state) =>
      if negb (is_success result) then Some (evm, Err (BlockHashContractCall ApplyReverted))
      else Some (evm, Ok (result, state))
  end.
End apply.
