(* ===== verification/RegistryContract.v ===== *)
(** The sequencer registry contract, [system-contracts/contracts/SequencerRegistry.sol], as a
    state machine over blocks.

    [Registry] is the contract's storage, one field per state variable, and each external
    function a function from the caller, the block number and the storage to the new storage or
    a revert.  Events are not modelled.  Signature recovery is a parameter. *)

From S2P Require Import Prelude Revm.

Definition uint96_max : Z := 2 ^ 96 - 1.
Definition uint256_max : Z := 2 ^ 256 - 1.

(** [uint96(x)]. *)
Definition to_uint96 (x : Z) : Z := x mod 2 ^ 96.

Record ChangeRecord : Type := mkChange {
  fromBlock : Z;
  addr : Address;
}.

Record Registry : Type := mkRegistry {
  currentSystemAddress : Address;
  currentSequencer : Address;
  admin : Address;
  pendingAdmin : Address;
  initialSystemAddress : Address;
  initialSequencer : Address;
  initialFromBlock : Z;
  pendingSystemAddress : Address;
  systemAddressActivationBlock : Z;
  pendingSequencer : Address;
  sequencerActivationBlock : Z;
  systemAddressHistory : list ChangeRecord;
  sequencerHistory : list ChangeRecord;
  minRotationDelay : Z;
}.

#[export] Instance ChangeRecord_eq_dec : EqDecision ChangeRecord.
Proof. solve_decision. Defined.
#[export] Instance Registry_eq_dec : EqDecision Registry.
Proof. solve_decision. Defined.

Inductive RegistryError : Type :=
  | FutureBlock | BeforeInitialBlock | NotAdmin | NotPendingAdmin | ZeroAddress
  | InvalidActivationBlock | ActivationBlockTooLarge | RotationDelayTooShort
  | InvalidRotationProof
  (** A checked operation that overflows. *)
  | ArithmeticPanic.

Implicit Types r : Registry.

(** * Storage updates *)

Definition set_system_role r (current pending : Address) (activation : Z) (history : list ChangeRecord) :=
  mkRegistry current (currentSequencer r) (admin r) (pendingAdmin r) (initialSystemAddress r)
    (initialSequencer r) (initialFromBlock r) pending activation (pendingSequencer r)
    (sequencerActivationBlock r) history (sequencerHistory r) (minRotationDelay r).

Definition set_sequencer_role r (current pending : Address) (activation : Z) (history : list ChangeRecord) :=
  mkRegistry (currentSystemAddress r) current (admin r) (pendingAdmin r) (initialSystemAddress r)
    (initialSequencer r) (initialFromBlock r) (pendingSystemAddress r)
    (systemAddressActivationBlock r) pending activation (systemAddressHistory r) history
    (minRotationDelay r).

Definition set_admin r (a pending : Address) :=
  mkRegistry (currentSystemAddress r) (currentSequencer r) a pending (initialSystemAddress r)
    (initialSequencer r) (initialFromBlock r) (pendingSystemAddress r)
    (systemAddressActivationBlock r) (pendingSequencer r) (sequencerActivationBlock r)
    (systemAddressHistory r) (sequencerHistory r) (minRotationDelay r).

(** * Historical lookups *)

(** The loop from the last record to the first. *)
Fixpoint last_at (records_from_last : list ChangeRecord) (blockNumber : Z) (initial : Address) : Address :=
  match records_from_last with
  | [] => initial
  | record :: l => if fromBlock record <=? blockNumber then addr record else last_at l blockNumber initial
  end.

Definition roleAt (history : list ChangeRecord) (initial : Address) (initialFrom : Z)
    (block_number blockNumber : Z) : result Address RegistryError :=
  if block_number <? blockNumber then Err FutureBlock
  else if blockNumber <? initialFrom then Err BeforeInitialBlock
  else Ok (last_at (rev history) blockNumber initial).

Definition systemAddressAt (block_number blockNumber : Z) r : result Address RegistryError :=
  roleAt (systemAddressHistory r) (initialSystemAddress r) (initialFromBlock r) block_number blockNumber.

Definition sequencerAt (block_number blockNumber : Z) r : result Address RegistryError :=
  roleAt (sequencerHistory r) (initialSequencer r) (initialFromBlock r) block_number blockNumber.

(** * Scheduling *)

Definition onlyAdmin (sender : Address) r (k : result Registry RegistryError) :=
  if negb (sender =? admin r) then Err NotAdmin else k.

Definition scheduleNextSystemAddressChange (sender : Address) (block_number : Z)
    (newSystemAddress : Address) (activationBlock : Z) r : result Registry RegistryError :=
  onlyAdmin sender r (
    if activationBlock <=? block_number then Err InvalidActivationBlock
    else if activationBlock =? uint256_max then
      if negb (newSystemAddress =? 0) then Err ZeroAddress
      else Ok (set_system_role r (currentSystemAddress r) 0 0 (systemAddressHistory r))
    else if uint96_max <? activationBlock then Err ActivationBlockTooLarge
    else if newSystemAddress =? 0 then Err ZeroAddress
    else Ok (set_system_role r (currentSystemAddress r) newSystemAddress activationBlock
               (systemAddressHistory r))).

Section signatures.
(** [ecrecover] and the digest of a rotation on this chain. *)
Context (ecrecover : Z → Z → Z → Z → Address) (rotationDigest : Address → Z → Z).

Definition SECP256K1N_HALF : Z :=
  0x7FFFFFFFFFFFFFFFFFFFFFFFFFFFFFFF5D576E7357A4501DDFE92F46681B20A0.

(** A [bytes32] from a slice. *)
Definition bytes32 (l : Bytes) : Z := foldl (λ acc b, acc * 256 + b) 0 l.

Definition recoverRotationSigner (digest : Z) (signature : Bytes) : result Address RegistryError :=
  if negb (length signature =? 65)%nat then Err InvalidRotationProof
  else
    let r := bytes32 (take 32 signature) in
    let s := bytes32 (take 32 (drop 32 signature)) in
    let v := default 0 (signature !! 64%nat) in
    if SECP256K1N_HALF <? s then Err InvalidRotationProof
    else if negb (v =? 27) && negb (v =? 28) then Err InvalidRotationProof
    else
      let signer := ecrecover digest v r s in
      if signer =? 0 then Err InvalidRotationProof else Ok signer.

Definition scheduleNextSequencerChange (sender : Address) (block_number : Z)
    (newSequencer : Address) (activationBlock : Z) (newSequencerSignature : Bytes) r
    : result Registry RegistryError :=
  onlyAdmin sender r (
    if activationBlock <=? block_number then Err InvalidActivationBlock
    else if activationBlock =? uint256_max then
      if negb (newSequencer =? 0) then Err ZeroAddress
      else Ok (set_sequencer_role r (currentSequencer r) 0 0 (sequencerHistory r))
    else if uint96_max <? activationBlock then Err ActivationBlockTooLarge
    else if newSequencer =? 0 then Err ZeroAddress
    else if uint256_max <? block_number + minRotationDelay r then Err ArithmeticPanic
    else if activationBlock <? block_number + minRotationDelay r then Err RotationDelayTooShort
    else
      match recoverRotationSigner (rotationDigest newSequencer activationBlock)
              newSequencerSignature with
      | Err e => Err e
      | Ok signer =>
          if negb (signer =? newSequencer) then Err InvalidRotationProof
          else Ok (set_sequencer_role r (currentSequencer r) newSequencer activationBlock
                     (sequencerHistory r))
      end).

(** * Applying, and the administrator *)

Definition applySystemAddress (block_number : Z) r : Registry :=
  let pending := pendingSystemAddress r in
  if pending =? 0 then r
  else
    let activation := systemAddressActivationBlock r in
    if block_number <? activation then r
    else set_system_role r pending 0 0
           (systemAddressHistory r ++ [mkChange (to_uint96 activation) pending]).

Definition applySequencer (block_number : Z) r : Registry :=
  let pending := pendingSequencer r in
  if pending =? 0 then r
  else
    let activation := sequencerActivationBlock r in
    if block_number <? activation then r
    else set_sequencer_role r pending 0 0
           (sequencerHistory r ++ [mkChange (to_uint96 activation) pending]).

Definition applyPendingChanges (block_number : Z) r : Registry :=
  applySequencer block_number (applySystemAddress block_number r).

Definition transferAdmin (sender newAdmin : Address) r : result Registry RegistryError :=
  onlyAdmin sender r (Ok (set_admin r (admin r) newAdmin)).

Definition acceptAdmin (sender : Address) r : result Registry RegistryError :=
  let pending := pendingAdmin r in
  if negb (sender =? pending) then Err NotPendingAdmin else Ok (set_admin r pending 0).

(** * A chain with a registry *)

(** The external functions that change the storage. *)
Inductive registry_call : Type :=
  | CallScheduleSystemAddress (newSystemAddress : Address) (activationBlock : Z)
  | CallScheduleSequencer (newSequencer : Address) (activationBlock : Z) (signature : Bytes)
  | CallApply
  | CallTransferAdmin (newAdmin : Address)
  | CallAcceptAdmin.

Definition call (sender : Address) (block_number : Z) (c : registry_call) r
    : result Registry RegistryError :=
  match c with
  | CallScheduleSystemAddress a b => scheduleNextSystemAddressChange sender block_number a b r
  | CallScheduleSequencer a b s => scheduleNextSequencerChange sender block_number a b s r
  | CallApply => Ok (applyPendingChanges block_number r)
  | CallTransferAdmin a => transferAdmin sender a r
  | CallAcceptAdmin => acceptAdmin sender r
  end.

(** The roles in force in a block. *)
Record block_roles : Type := mkRoles {
  br_system_address : Address;
  br_sequencer : Address;
}.

(** The current block, the registry, and the roles the blocks since the bootstrap ran with. *)
Record chain : Type := mkChain {
  ch_block : Z;
  ch_registry : Registry;
  ch_roles : Z → block_roles;
}.

Definition roles_now r : block_roles := mkRoles (currentSystemAddress r) (currentSequencer r).

Definition record_roles (b : Z) (v : block_roles) (roles : Z → block_roles) : Z → block_roles :=
  λ b', if b' =? b then v else roles b'.

(** The storage a fresh registry is deployed with. *)
Definition bootstrap (system_address sequencer administrator : Address) (from_block delay : Z) : Registry :=
  mkRegistry system_address sequencer administrator 0 system_address sequencer from_block 0 0 0 0
    [] [] delay.

(** A step: a transaction of the block calls the registry and its call succeeds, or the next
    block starts, with the pre-block call that applies what is due. *)
Inductive chain_step : chain → chain → Prop :=
  | step_call sender c s r' :
      call sender (ch_block s) c (ch_registry s) = Ok r' →
      chain_step s (mkChain (ch_block s) r' (ch_roles s))
  | step_block s :
      let b := ch_block s + 1 in
      let r' := applyPendingChanges b (ch_registry s) in
      chain_step s (mkChain b r' (record_roles b (roles_now r') (ch_roles s))).

(** The chains that start with the bootstrap of a registry. *)
Inductive reachable : chain → Prop :=
  | reach_bootstrap system_address sequencer administrator from_block delay roles :
      system_address ≠ 0 → sequencer ≠ 0 → 0 ≤ from_block →
      let r := bootstrap system_address sequencer administrator from_block delay in
      reachable (mkChain from_block r (record_roles from_block (roles_now r) roles))
  | reach_step s s' : reachable s → chain_step s s' → reachable s'.
End signatures.
