(* ===== verification/RegistryContractFacts.v ===== *)
(** The registry over a chain of blocks: lookups report what was in force, roles are stable
    inside a block, and scheduled changes take effect.  Both roles have the same life cycle, so
    the invariant is stated once, for a role. *)

From S2P Require Import Prelude Revm RegistryContract.

(** * One role *)

(** At block [n] of a registry deployed at block [from], with the addresses [f] the blocks ran
    with. *)
Record role_inv (n from : Z) (f : Z → Address) (initial current pending : Address)
    (activation : Z) (history : list ChangeRecord) : Prop := mkRoleInv {
  ri_started : 0 ≤ from ≤ n;
  ri_pending : pending ≠ 0 → n < activation ≤ uint96_max;
  ri_past : Forall (λ c, fromBlock c ≤ n) history;
  ri_lookup b : from ≤ b ≤ n → last_at (rev history) b initial = f b;
  ri_current : current = f n;
  ri_nonzero : current ≠ 0;
}.

(** Records of the past answer alike for every later block. *)
Lemma last_at_past l n m initial :
  Forall (λ c, fromBlock c ≤ n) l → n ≤ m → last_at l m initial = last_at l n initial.
Proof.
  intros Hl Hm. destruct Hl as [|c l Hc Hl]; simpl; [done|].
  by rewrite !(proj2 (Z.leb_le _ _)) by lia.
Qed.

Lemma role_bootstrap n f a : 0 ≤ n → a ≠ 0 → f n = a → role_inv n n f a a 0 0 [].
Proof.
  intros Hn Ha Hf. split; try done; try lia. intros b Hb. simpl. by replace b with n by lia.
Qed.

(** Scheduling or cancelling a change. *)
Lemma role_schedule n from f i c p a h p' a' :
  role_inv n from f i c p a h → (p' ≠ 0 → n < a' ≤ uint96_max) → role_inv n from f i c p' a' h.
Proof. by intros [] H; split. Qed.

(** The role after the pre-block call of the next block. *)
Definition applied (n : Z) (p : Address) (a : Z) : bool := negb (p =? 0) && (a <=? n).

Lemma role_next n from f f' i c p a h :
  role_inv n from f i c p a h → (∀ b, b ≤ n → f' b = f b) →
  (if applied (n + 1) p a then f' (n + 1) = p else f' (n + 1) = c) →
  if applied (n + 1) p a
  then role_inv (n + 1) from f' i p 0 0 (h ++ [mkChange (to_uint96 a) p])
  else role_inv (n + 1) from f' i c p a h.
Proof.
  intros [H1 H2 H3 H4 H5 H6] Hold Hnew. unfold applied in *.
  assert (Forall (λ c, fromBlock c ≤ n + 1) h) as H3'
    by (eapply Forall_impl; [exact H3|]; simpl; lia).
  destruct (Z.eqb_spec p 0) as [->|Hp]; simpl in *;
    [|destruct (Z.leb_spec a (n + 1)) as [Ha|Ha]; simpl in *].
  1, 3: split; try done; try lia; intros b Hb; destruct (decide (b = n + 1)) as [->|Hne];
    [rewrite Hnew, H5, <- (H4 n) by lia; apply last_at_past; [by apply Forall_rev|lia]
    |rewrite Hold by lia; apply H4; lia].
  specialize (H2 Hp). assert (a = n + 1) as -> by lia.
  assert (to_uint96 (n + 1) = n + 1) as Hu.
  { unfold to_uint96, uint96_max in *. apply Z.mod_small. lia. }
  split; try done; try lia.
  - apply Forall_app. split; [done|]. constructor; [|done]. simpl. lia.
  - intros b Hb. rewrite rev_app_distr, Hu. simpl.
    destruct (Z.leb_spec (n + 1) b) as [Hle|Hlt].
    + by replace b with (n + 1) by lia.
    + rewrite Hold by lia. apply H4. lia.
Qed.

(** * The chain *)

Section chain.
Context (ecrecover : Z → Z → Z → Z → Address) (rotationDigest : Address → Z → Z).
Local Notation call := (call ecrecover rotationDigest).
Local Notation chain_step := (chain_step ecrecover rotationDigest).
Local Notation reachable := (reachable ecrecover rotationDigest).

Record registry_inv (n : Z) (roles : Z → block_roles) (r : Registry) : Prop := mkRegInv {
  reg_system :
    role_inv n (initialFromBlock r) (λ b, br_system_address (roles b)) (initialSystemAddress r)
      (currentSystemAddress r) (pendingSystemAddress r) (systemAddressActivationBlock r)
      (systemAddressHistory r);
  reg_sequencer :
    role_inv n (initialFromBlock r) (λ b, br_sequencer (roles b)) (initialSequencer r)
      (currentSequencer r) (pendingSequencer r) (sequencerActivationBlock r) (sequencerHistory r);
}.

(** What is not yet due is not applied. *)
Lemma apply_not_due n roles r :
  registry_inv n roles r → applyPendingChanges n r = r.
Proof.
  intros [[_ Hs _ _ _ _] [_ Hq _ _ _ _]]. unfold applyPendingChanges, applySystemAddress.
  assert (applySequencer n r = r) as Hseq.
  { unfold applySequencer. destruct (Z.eqb_spec (pendingSequencer r) 0) as [|Hp]; [done|].
    by rewrite (proj2 (Z.ltb_lt _ _)) by (apply Hq in Hp; lia). }
  destruct (Z.eqb_spec (pendingSystemAddress r) 0) as [|Hp]; [done|].
  by rewrite (proj2 (Z.ltb_lt _ _)) by (apply Hs in Hp; lia).
Qed.

(** Calls inside a block keep the invariant and the roles. *)
Lemma call_inv sender n roles c r r' :
  registry_inv n roles r → call sender n c r = Ok r' →
  registry_inv n roles r' ∧ roles_now r' = roles_now r.
Proof.
  intros Hinv. destruct c as [a b|a b s| |a|]; simpl.
  - unfold scheduleNextSystemAddressChange, onlyAdmin. destruct (negb (sender =? admin r)); [done|]. destruct Hinv as [Hs Hq].
    destruct (Z.leb_spec b n); [done|]. destruct (b =? uint256_max).
    + destruct (negb (a =? 0)); [done|]. intros [= <-]. split; [|done].
      split; [|exact Hq]. by eapply role_schedule.
    + destruct (Z.ltb_spec uint96_max b); [done|]. destruct (a =? 0); [done|].
      intros [= <-]. split; [|done]. split; [|exact Hq]. eapply role_schedule; [done|]. simpl. lia.
  - unfold scheduleNextSequencerChange, onlyAdmin. destruct (negb (sender =? admin r)); [done|]. destruct Hinv as [Hs Hq].
    destruct (Z.leb_spec b n); [done|]. destruct (b =? uint256_max).
    + destruct (negb (a =? 0)); [done|]. intros [= <-]. split; [|done].
      split; [exact Hs|]. by eapply role_schedule.
    + destruct (Z.ltb_spec uint96_max b); [done|]. destruct (a =? 0); [done|].
      destruct (_ <? _); [done|]. destruct (_ <? _); [done|].
      destruct (recoverRotationSigner _ _ _) as [signer|]; [|done].
      destruct (negb (signer =? a)); [done|].
      intros [= <-]. split; [|done]. split; [exact Hs|]. eapply role_schedule; [done|]. simpl. lia.
  - intros [= <-]. by rewrite (apply_not_due _ _ _ Hinv).
  - unfold transferAdmin, onlyAdmin. destruct (negb (sender =? admin r)); [done|]. intros [= <-].
    split; [|done]. destruct Hinv. by split.
  - unfold acceptAdmin. destruct (negb _); [done|]. intros [= <-]. split; [|done].
    destruct Hinv. by split.
Qed.

(** The registry after the pre-block call, role by role. *)
Lemma apply_system n r :
  let r' := applyPendingChanges n r in
  let b := applied n (pendingSystemAddress r) (systemAddressActivationBlock r) in
  currentSystemAddress r' = (if b then pendingSystemAddress r else currentSystemAddress r) ∧
  pendingSystemAddress r' = (if b then 0 else pendingSystemAddress r) ∧
  systemAddressActivationBlock r' = (if b then 0 else systemAddressActivationBlock r) ∧
  systemAddressHistory r' =
    (if b then systemAddressHistory r ++
       [mkChange (to_uint96 (systemAddressActivationBlock r)) (pendingSystemAddress r)]
     else systemAddressHistory r).
Proof.
  unfold applyPendingChanges, applySystemAddress, applySequencer, applied. rewrite Z.leb_antisym.
  destruct (pendingSystemAddress r =? 0), (n <? systemAddressActivationBlock r); simpl;
    destruct (pendingSequencer r =? 0), (n <? sequencerActivationBlock r); done.
Qed.

Lemma apply_sequencer n r :
  let r' := applyPendingChanges n r in
  let b := applied n (pendingSequencer r) (sequencerActivationBlock r) in
  currentSequencer r' = (if b then pendingSequencer r else currentSequencer r) ∧
  pendingSequencer r' = (if b then 0 else pendingSequencer r) ∧
  sequencerActivationBlock r' = (if b then 0 else sequencerActivationBlock r) ∧
  sequencerHistory r' =
    (if b then sequencerHistory r ++
       [mkChange (to_uint96 (sequencerActivationBlock r)) (pendingSequencer r)]
     else sequencerHistory r).
Proof.
  unfold applyPendingChanges, applySystemAddress, applySequencer, applied. rewrite Z.leb_antisym.
  destruct (pendingSystemAddress r =? 0), (n <? systemAddressActivationBlock r); simpl;
    destruct (pendingSequencer r =? 0), (n <? sequencerActivationBlock r); done.
Qed.

Lemma apply_constants n r :
  let r' := applyPendingChanges n r in
  initialFromBlock r' = initialFromBlock r ∧ initialSystemAddress r' = initialSystemAddress r ∧
  initialSequencer r' = initialSequencer r ∧ admin r' = admin r ∧
  pendingAdmin r' = pendingAdmin r ∧ minRotationDelay r' = minRotationDelay r.
Proof.
  unfold applyPendingChanges, applySystemAddress, applySequencer.
  destruct (pendingSystemAddress r =? 0), (n <? systemAddressActivationBlock r); simpl;
    destruct (pendingSequencer r =? 0), (n <? sequencerActivationBlock r); done.
Qed.

Lemma block_inv n roles r :
  registry_inv n roles r →
  let r' := applyPendingChanges (n + 1) r in
  registry_inv (n + 1) (record_roles (n + 1) (roles_now r') roles) r'.
Proof.
  intros [Hs Hq] r'. destruct (apply_system (n + 1) r) as (Hs1 & Hs2 & Hs3 & Hs4).
  destruct (apply_sequencer (n + 1) r) as (Hq1 & Hq2 & Hq3 & Hq4).
  destruct (apply_constants (n + 1) r) as (Hc1 & Hc2 & Hc3 & _). fold r' in Hs1, Hs2, Hs3, Hs4.
  fold r' in Hq1, Hq2, Hq3, Hq4, Hc1, Hc2, Hc3.
  assert (∀ b, b ≤ n → record_roles (n + 1) (roles_now r') roles b = roles b) as Hold.
  { intros b Hb. unfold record_roles. by rewrite (proj2 (Z.eqb_neq _ _)) by lia. }
  assert (record_roles (n + 1) (roles_now r') roles (n + 1) = roles_now r') as Hnew.
  { unfold record_roles. by rewrite Z.eqb_refl. }
  split; rewrite ?Hs1, ?Hs2, ?Hs3, ?Hs4, ?Hq1, ?Hq2, ?Hq3, ?Hq4, ?Hc1, ?Hc2, ?Hc3.
  - refine (_ (role_next _ _ _ (λ b, br_system_address (record_roles (n + 1) (roles_now r') roles b))
      _ _ _ _ _ Hs _ _)).
    + intros H. destruct (applied (n + 1) (pendingSystemAddress r) (systemAddressActivationBlock r)); exact H.
    + intros b Hb. by rewrite Hold.
    + rewrite Hnew. simpl. rewrite Hs1. by destruct (applied (n + 1) (pendingSystemAddress r) (systemAddressActivationBlock r)).
  - refine (_ (role_next _ _ _ (λ b, br_sequencer (record_roles (n + 1) (roles_now r') roles b))
      _ _ _ _ _ Hq _ _)).
    + intros H. destruct (applied (n + 1) (pendingSequencer r) (sequencerActivationBlock r)); exact H.
    + intros b Hb. by rewrite Hold.
    + rewrite Hnew. simpl. rewrite Hq1. by destruct (applied (n + 1) (pendingSequencer r) (sequencerActivationBlock r)).
Qed.

Lemma chain_step_inv s s' :
  registry_inv (ch_block s) (ch_roles s) (ch_registry s) → chain_step s s' →
  registry_inv (ch_block s') (ch_roles s') (ch_registry s').
Proof.
  intros Hinv Hstep. destruct Hstep as [sender c s r' Hc|s].
  - by eapply call_inv.
  - by apply block_inv.
Qed.

Lemma chain_reachable_inv s :
  reachable s → registry_inv (ch_block s) (ch_roles s) (ch_registry s).
Proof.
  induction 1 as [sa sq ad n delay roles Hsa Hsq Hn r|s s' _ IH Hstep]; [|by eapply chain_step_inv].
  assert (record_roles n (roles_now r) roles n = roles_now r) as Hr
    by (unfold record_roles; by rewrite Z.eqb_refl).
  split; apply role_bootstrap; simpl; try done; by rewrite Hr.
Qed.

(** Historical lookups report the roles that were in force.  On every chain that starts with
    the bootstrap of a registry, looking up any block from the bootstrap to the current one
    returns the system address and the sequencer that block ran with; the system address is never
    zero, and no call inside a block changes the current roles, so the address resolved before the
    block stays right until its end. *)
Lemma role_lookups_exact s :
  reachable s →
  let n := ch_block s in
  let r := ch_registry s in
  (∀ b, initialFromBlock r ≤ b ≤ n →
     systemAddressAt n b r = Ok (br_system_address (ch_roles s b)) ∧
     sequencerAt n b r = Ok (br_sequencer (ch_roles s b))) ∧
  roles_now r = ch_roles s n ∧ currentSystemAddress r ≠ 0 ∧
  (∀ sender c r', call sender n c r = Ok r' → roles_now r' = roles_now r).
Proof.
  intros Hs. pose proof (chain_reachable_inv s Hs) as Hinv.
  destruct (reg_system _ _ _ Hinv) as [_ _ _ Hl Hc Hz].
  destruct (reg_sequencer _ _ _ Hinv) as [_ _ _ Hl' Hc' _]. cbv zeta. split_and!.
  - intros b Hb. unfold systemAddressAt, sequencerAt, roleAt.
    rewrite !(proj2 (Z.ltb_ge _ _)) by lia. by rewrite Hl, Hl'.
  - unfold roles_now. rewrite Hc, Hc'. by destruct (ch_roles s (ch_block s)).
  - done.
  - intros sender c r' Hcall. by eapply call_inv.
Qed.

(** Steps among which nobody schedules or cancels a change of the system address. *)
Inductive quiet : chain → chain → Prop :=
  | quiet_refl s : quiet s s
  | quiet_call s s1 sender c r' :
      quiet s s1 → (∀ a b, c ≠ CallScheduleSystemAddress a b) →
      call sender (ch_block s1) c (ch_registry s1) = Ok r' →
      quiet s (mkChain (ch_block s1) r' (ch_roles s1))
  | quiet_block s s1 :
      quiet s s1 →
      let b := ch_block s1 + 1 in
      let r' := applyPendingChanges b (ch_registry s1) in
      quiet s (mkChain b r' (record_roles b (roles_now r') (ch_roles s1))).

Lemma quiet_reachable s s' : reachable s → quiet s s' → reachable s'.
Proof.
  intros Hs Hq. induction Hq as [s|s s1 sender c r' _ IH _ Hc|s s1 _ IH b r'].
  - done.
  - eapply reach_step; [by apply IH|]. by econstructor.
  - eapply reach_step; [by apply IH|]. apply step_block.
Qed.

(** A call that schedules no system address change keeps the pending one. *)
Lemma call_keeps_pending sender n roles c r r' :
  registry_inv n roles r → (∀ a b, c ≠ CallScheduleSystemAddress a b) →
  call sender n c r = Ok r' →
  pendingSystemAddress r' = pendingSystemAddress r ∧
  systemAddressActivationBlock r' = systemAddressActivationBlock r.
Proof.
  intros Hinv Hc. destruct c as [a b|a b sg| |a|]; simpl.
  - by destruct (Hc a b).
  - unfold scheduleNextSequencerChange, onlyAdmin. repeat case_match; try done; by intros [= <-].
  - intros [= <-]. by rewrite (apply_not_due _ _ _ Hinv).
  - unfold transferAdmin, onlyAdmin. case_match; [done|]. by intros [= <-].
  - unfold acceptAdmin. case_match; [done|]. by intros [= <-].
Qed.

(** While nobody reschedules, the pending change waits for its block and then is in force. *)
Lemma quiet_pending s s' :
  reachable s → pendingSystemAddress (ch_registry s) ≠ 0 → quiet s s' →
  let p := pendingSystemAddress (ch_registry s) in
  let a := systemAddressActivationBlock (ch_registry s) in
  ch_block s ≤ ch_block s' ∧
  if a <=? ch_block s'
  then currentSystemAddress (ch_registry s') = p ∧ pendingSystemAddress (ch_registry s') = 0
  else currentSystemAddress (ch_registry s') = currentSystemAddress (ch_registry s) ∧
       pendingSystemAddress (ch_registry s') = p ∧ systemAddressActivationBlock (ch_registry s') = a.
Proof.
  intros Hs Hp Hq p a. induction Hq as [s|s s1 sender c r' Hq IH Hc Hcall|s s1 Hq IH b r'].
  - destruct (reg_system _ _ _ (chain_reachable_inv s Hs)) as [_ H _ _ _ _]. specialize (H Hp).
    split; [lia|]. by rewrite (proj2 (Z.leb_gt _ _)) by (subst a; lia).
  - destruct (IH Hs Hp) as [Hb Hif]. pose proof (chain_reachable_inv _ (quiet_reachable _ _ Hs Hq)) as Hinv.
    destruct (call_inv _ _ _ _ _ _ Hinv Hcall) as [_ Hroles].
    destruct (call_keeps_pending _ _ _ _ _ _ Hinv Hc Hcall) as [Hp' Ha']. simpl.
    injection Hroles as Hcur _. split; [done|]. fold p a in Hif. rewrite Hcur, Hp', Ha'. exact Hif.
  - destruct (IH Hs Hp) as [Hb Hif]. fold p a in Hif. split; [simpl; lia|]. simpl.
    destruct (apply_system b (ch_registry s1)) as (H1 & H2 & H3 & _). fold r' in H1, H2, H3.
    rewrite H1, H2, H3. subst b. destruct (Z.leb_spec a (ch_block s1)) as [Ha|Ha].
    + destruct Hif as [Hcur Hpend]. rewrite Hpend. unfold applied. simpl.
      by rewrite (proj2 (Z.leb_le _ _)) by lia.
    + destruct Hif as (Hcur & -> & ->). unfold applied. rewrite (proj2 (Z.eqb_neq _ _)) by done. simpl.
      by destruct (a <=? ch_block s1 + 1).
Qed.

(** Blocks can always be produced. *)
Lemma quiet_blocks s k : ∃ s', quiet s s' ∧ ch_block s' = ch_block s + Z.of_nat k.
Proof.
  induction k as [|k (s1 & Hq & Hb)]; [exists s; split; [constructor|lia]|].
  eexists. split; [by apply quiet_block|]. simpl. lia.
Qed.

(** C24: a scheduled change of the system address takes effect.  From every reachable state with a
    pending change, as long as nobody schedules or cancels another one, the pending address is in
    force in its activation block and in all later blocks, the old one before; and the chain can
    always get there, because the pre-block call never fails. *)
Theorem scheduled_change_activates s :
  reachable s → pendingSystemAddress (ch_registry s) ≠ 0 →
  let p := pendingSystemAddress (ch_registry s) in
  let a := systemAddressActivationBlock (ch_registry s) in
  (∀ s', quiet s s' →
     br_system_address (ch_roles s' (ch_block s')) =
       if a <=? ch_block s' then p else currentSystemAddress (ch_registry s)) ∧
  (∃ s', quiet s s' ∧ ch_block s' = a).
Proof.
  intros Hs Hp p a. split.
  - intros s' Hq. destruct (quiet_pending s s' Hs Hp Hq) as [_ Hif]. fold p a in Hif.
    rewrite <- (ri_current _ _ _ _ _ _ _ _
      (reg_system _ _ _ (chain_reachable_inv s' (quiet_reachable _ _ Hs Hq)))).
    destruct (a <=? ch_block s'); by destruct Hif.
  - destruct (reg_system _ _ _ (chain_reachable_inv s Hs)) as [_ H _ _ _ _]. specialize (H Hp).
    destruct (quiet_blocks s (Z.to_nat (a - ch_block s))) as (s' & Hq & Hb).
    exists s'. split; [done|]. subst a. lia.
Qed.
End chain.

(** * A chain: bootstrap in block 10, a change scheduled in it for block 12, then three blocks *)

Definition sample_recover (_ _ _ _ : Z) : Address := 0.
Definition sample_digest (_ : Address) (_ : Z) : Z := 0.

Definition sample_start : chain :=
  let r := bootstrap 100 200 7 10 1 in mkChain 10 r (record_roles 10 (roles_now r) (λ _, mkRoles 0 0)).

Definition next_block (s : chain) : chain :=
  let b := ch_block s + 1 in
  let r' := applyPendingChanges b (ch_registry s) in
  mkChain b r' (record_roles b (roles_now r') (ch_roles s)).

Definition sample_scheduled : chain :=
  mkChain 10 (set_system_role (ch_registry sample_start) 100 101 12 []) (ch_roles sample_start).

Lemma sample_scheduled_reachable : reachable sample_recover sample_digest sample_scheduled.
Proof.
  eapply reach_step; [by apply (reach_bootstrap _ _ 100 200 7 10 1 (λ _, mkRoles 0 0)); [..|lia]|].
  by apply (step_call _ _ 7 (CallScheduleSystemAddress 101 12)).
Qed.

Lemma next_block_reachable s :
  reachable sample_recover sample_digest s → reachable sample_recover sample_digest (next_block s).
Proof. intros Hs. eapply reach_step; [exact Hs|]. apply step_block. Qed.

Lemma role_lookups_exact_witness :
  let s := next_block (next_block (next_block sample_scheduled)) in
  systemAddressAt 13 11 (ch_registry s) = Ok 100 ∧ systemAddressAt 13 12 (ch_registry s) = Ok 101 ∧
  systemAddressAt 13 13 (ch_registry s) = Ok 101.
Proof.
  intros s.
  assert (reachable sample_recover sample_digest s) as Hs
    by (do 3 apply next_block_reachable; exact sample_scheduled_reachable).
  destruct (role_lookups_exact sample_recover sample_digest s Hs) as (H & _).
  assert (∀ b, 10 ≤ b ≤ 13 → initialFromBlock (ch_registry s) ≤ b ≤ ch_block s) as Hb by done.
  split_and!; (etransitivity; [apply H; apply Hb; lia|reflexivity]).
Defined.

Lemma scheduled_change_activates_witness :
  ∃ s', quiet sample_recover sample_digest sample_scheduled s' ∧ ch_block s' = 12 ∧
    br_system_address (ch_roles s' 12) = 101.
Proof.
  assert (pendingSystemAddress (ch_registry sample_scheduled) ≠ 0) as Hp by done.
  destruct (scheduled_change_activates sample_recover sample_digest _ sample_scheduled_reachable Hp)
    as [H (s' & Hq & Hb)].
  exists s'. split_and!; [exact Hq|exact Hb|]. specialize (H s' Hq). rewrite Hb in H. exact H.
Defined.
