(* ===== verification/SequencerRegistryFacts.v ===== *)
(** The executor's view of the registry against the contract: the due check decides exactly
    whether the pre-block call would change anything, a deployment starts the contract in its
    bootstrap state or upgrades it in place, and the published schedules carry the parameters. *)

From S2P Require Import Prelude Spec Revm SystemTx EvmState Hardfork BlockLimit Effects.
From S2P Require Import SystemContracts SystemContractsFacts BlockEvm SequencerRegistry.
From S2P Require Import RegistryContract RegistryContractFacts.

(** * The storage of the contract *)

(** The flat slots and the state variables they hold. *)
Definition flat_slots (r : Registry) : list (U256 * Z) :=
  [ (CURRENT_SYSTEM_ADDRESS, currentSystemAddress r);
    (CURRENT_SEQUENCER, currentSequencer r);
    (ADMIN, admin r);
    (PENDING_ADMIN, pendingAdmin r);
    (INITIAL_SYSTEM_ADDRESS, initialSystemAddress r);
    (INITIAL_SEQUENCER, initialSequencer r);
    (INITIAL_FROM_BLOCK, initialFromBlock r);
    (PENDING_SYSTEM_ADDRESS, pendingSystemAddress r);
    (SYSTEM_ADDRESS_ACTIVATION_BLOCK, systemAddressActivationBlock r);
    (PENDING_SEQUENCER, pendingSequencer r);
    (SEQUENCER_ACTIVATION_BLOCK, sequencerActivationBlock r);
    (MIN_ROTATION_DELAY, minRotationDelay r) ].

Definition stores (f : U256 → U256) (r : Registry) : Prop :=
  Forall (λ kv, f kv.1 = kv.2) (flat_slots r).

Definition with_delay (delay : Z) (r : Registry) : Registry :=
  mkRegistry (currentSystemAddress r) (currentSequencer r) (admin r) (pendingAdmin r)
    (initialSystemAddress r) (initialSequencer r) (initialFromBlock r) (pendingSystemAddress r)
    (systemAddressActivationBlock r) (pendingSequencer r) (sequencerActivationBlock r)
    (systemAddressHistory r) (sequencerHistory r) delay.

Section facts.
Context `{RS : RevmState} `{HA : Artifacts} {DB : Type} `{B : !BlockState DB} `{V : !BlockView DB}.
Context `{HL : !BlockStateLaws DB} {E : Type}.
Local Notation error := (ExecError db_error E).
Local Notation REG := SEQUENCER_REGISTRY_ADDRESS.
Implicit Types (d : DB) (r : Registry).

Definition represents d r : Prop := stores (storage_of d REG) r.

Lemma represents_slot d r k v : represents d r → (k, v) ∈ flat_slots r → storage_of d REG k = v.
Proof. intros H Hin. by eapply (proj1 (Forall_forall _ _) H (k, v)). Qed.

Lemma represents_same d d' r : same_at d d' REG → represents d r → represents d' r.
Proof. intros [_ Hs] H. eapply Forall_impl; [exact H|]. intros [k v] Hk. simpl in *. by rewrite Hs. Qed.

(** * Reads *)

Lemma load_registry_some d d' res :
  load_registry (E := E) d = Some (d', res) →
  only_read d d' ∧
  match res with
  | Ok i => i = account_of d REG ∧ cached d' REG
  | Err e => ∃ e', e = OtherError e'
  end.
Proof.
  unfold load_registry. destruct (load_cache_account REG d) as [d1 r1] eqn:Hl. intros [= <- <-].
  destruct (load_inv _ _ _ _ Hl) as [Hr Hi]. split; [done|]. destruct r1; [by apply Hi|by eexists].
Qed.

Lemma read_registry_some d d' slot res :
  read_registry_storage (E := E) slot d = Some (d', res) →
  only_read d d' ∧
  match res with Ok v => v = storage_of d REG slot | Err e => ∃ e', e = OtherError e' end.
Proof.
  unfold read_registry_storage. destruct (state_storage REG slot d) as [[d1 r1]|] eqn:Hs; [|done].
  simpl. intros [= <- <-]. split; [by eapply storage_only_read|].
  destruct r1; [by eapply storage_ok|by eexists].
Qed.

Lemma read_registry_total d slot : cached d REG → is_Some (read_registry_storage (E := E) slot d).
Proof.
  intros Hc. unfold read_registry_storage.
  destruct (storage_cached REG slot d Hc) as [[d1 r1] ->]. by eexists.
Qed.

Definition role_due d (pending_slot activation_slot : U256) (n : Z) : bool :=
  negb (storage_of d REG pending_slot =? 0) &&
  (saturating_to_u64 (storage_of d REG activation_slot) <=? n).

(** A read-only witness of an account: nothing is touched, slots are unchanged. *)
Definition read_only_account (acc : Account) : Prop :=
  Touched (acc_status acc) = false ∧
  ∀ k s, acc_storage acc !! k = Some s → slot_original s = slot_present s.

Lemma insert_read_only acc k v :
  read_only_account acc → read_only_account (insert_slot acc k (slot_new v 0)).
Proof.
  intros [Ht Hs]. split; [done|]. intros k' s. simpl. rewrite lookup_insert_Some.
  intros [[_ <-]|[_ Hk]]; [done|]. by eapply Hs.
Qed.

(** The slots the check of one role reads: its activation block only if a change is pending. *)
Definition role_slots (pending : U256) (ps asl : U256) : list U256 :=
  ps :: if pending =? 0 then [] else [asl].

(** The account [acc'] is [acc] with the slots of [l], as read from [d]. *)
Definition records d (l : list U256) (acc acc' : Account) : Prop :=
  ∀ k, acc_storage acc' !! k =
    if decide (k ∈ l) then Some (slot_new (storage_of d REG k) 0) else acc_storage acc !! k.

Lemma records_one d acc k :
  records d [k] acc (insert_slot acc k (slot_new (storage_of d REG k) 0)).
Proof.
  intros k'. simpl. destruct (decide (k' = k)) as [->|Hne].
  - rewrite lookup_insert_eq. by rewrite decide_True by set_solver.
  - rewrite lookup_insert_ne by done. by rewrite decide_False by set_solver.
Qed.

Lemma records_app d l l' a a' a'' :
  records d l a a' → records d l' a' a'' → records d (l ++ l') a a''.
Proof.
  intros H H' k. rewrite H', H. destruct (decide (k ∈ l')), (decide (k ∈ l)), (decide (k ∈ l ++ l'));
    set_solver.
Qed.

Lemma records_same d d' l a a' : same_at d d' REG → records d' l a a' → records d l a a'.
Proof. intros [_ Hs] H k. by rewrite H, Hs. Qed.

Lemma is_role_due_some d d' acc ps asl n res :
  is_role_due (E := E) acc ps asl n d = Some (d', res) →
  only_read d d' ∧
  match res with
  | Ok (acc', due) =>
      due = role_due d ps asl n ∧ records d (role_slots (storage_of d REG ps) ps asl) acc acc' ∧
      (read_only_account acc → read_only_account acc')
  | Err e => ∃ e', e = OtherError e'
  end.
Proof.
  intros H. apply fbind_some in H as (d1 & [p|e] & H1 & H2).
  2: { destruct H2 as [-> ->]. destruct (read_registry_some _ _ _ _ H1) as [? ?]. done. }
  destruct (read_registry_some _ _ _ _ H1) as [Hr1 ->]. unfold role_due, role_slots.
  destruct (storage_of d REG ps =? 0).
  { injection H2 as <- <-. split_and!; [done|done|apply records_one|by apply insert_read_only]. }
  apply fbind_some in H2 as (d2 & [a|e] & H3 & H4).
  2: { destruct H4 as [-> ->]. destruct (read_registry_some _ _ _ _ H3) as [? ?].
       split; [by etransitivity|done]. }
  destruct (read_registry_some _ _ _ _ H3) as [Hr2 ->]. injection H4 as <- <-.
  rewrite (proj2 (proj1 Hr1 REG) asl). split_and!; [by etransitivity|done|..].
  - apply (records_app d [ps] [asl] _ _ _ (records_one d acc ps)), records_one.
  - intros Ha. by do 2 apply insert_read_only.
Qed.

Lemma is_role_due_total d acc ps asl n :
  cached d REG → is_Some (is_role_due (E := E) acc ps asl n d).
Proof.
  intros Hc. unfold is_role_due, fbind.
  destruct (read_registry_total d ps Hc) as [[d1 [p|e]] H1]; rewrite H1; simpl; [|by eexists].
  destruct (p =? 0); [by eexists|].
  destruct (read_registry_some _ _ _ _ H1) as [[_ Hg] _].
  destruct (read_registry_total d1 asl (Hg _ Hc)) as [[d2 [a|e]] ->]; by eexists.
Qed.

(** * The due check *)

Lemma role_due_same d d' ps asl n :
  same_at d d' REG → role_due d' ps asl n = role_due d ps asl n.
Proof. intros [_ Hs]. unfold role_due. by rewrite !Hs. Qed.

(** Whether the pre-block call is made. *)
Definition changes_due d (n : Z) : bool :=
  bool_decide (is_Some (account_of d REG)) &&
  (role_due d PENDING_SYSTEM_ADDRESS SYSTEM_ADDRESS_ACTIVATION_BLOCK n ||
   role_due d PENDING_SEQUENCER SEQUENCER_ACTIVATION_BLOCK n).

Lemma due_some d d' n res :
  is_apply_pending_changes_due (E := E) n d = Some (d', res) →
  only_read d d' ∧
  match res with
  | Ok (due, st) =>
      due = changes_due d n ∧ cached d' REG ∧
      ∃ acc, st = {[REG := acc]} ∧ read_only_account acc ∧
        ∀ info, account_of d REG = Some info →
          records d (role_slots (storage_of d REG PENDING_SYSTEM_ADDRESS) PENDING_SYSTEM_ADDRESS
                       SYSTEM_ADDRESS_ACTIVATION_BLOCK ++
                     role_slots (storage_of d REG PENDING_SEQUENCER) PENDING_SEQUENCER
                       SEQUENCER_ACTIVATION_BLOCK) (account_from_info info) acc
  | Err e => ∃ e', e = OtherError e'
  end.
Proof.
  intros H. apply fbind_some in H as (d1 & [i|e] & H1 & H2).
  2: { destruct H2 as [-> ->]. destruct (load_registry_some _ _ _ H1) as [? ?]. done. }
  destruct (load_registry_some _ _ _ H1) as (Hr1 & -> & Hc1). unfold changes_due.
  destruct (account_of d REG) as [info|].
  2: { injection H2 as <- <-. split; [done|]. split_and!; [done|done|].
       eexists. split_and!; [done|by split|done]. }
  rewrite bool_decide_eq_true_2 by (by eexists). simpl.
  apply fbind_some in H2 as (d2 & [[a2 due2]|e] & H3 & H4).
  2: { destruct H4 as [-> ->]. destruct (is_role_due_some _ _ _ _ _ _ _ H3) as [? ?].
       split; [by etransitivity|done]. }
  apply fbind_some in H4 as (d3 & [[a3 due3]|e] & H5 & H6);
    destruct (is_role_due_some _ _ _ _ _ _ _ H3) as (Hr2 & Hd2 & Hs2 & Ho2);
    destruct (is_role_due_some _ _ _ _ _ _ _ H5) as (Hr3 & Hrest);
    assert (only_read d d3) as Hr by (do 2 (etransitivity; [eassumption|]); done).
  2: { destruct H6 as [-> ->]. done. }
  destruct Hrest as (Hd3 & Hs3 & Ho3). injection H6 as <- <-.
  assert (same_view d d2) as Hv2 by (etransitivity; [apply Hr1|apply Hr2]).
  split; [done|]. split_and!.
  - by rewrite Hd2, Hd3, (role_due_same d d1), (role_due_same d d2) by (apply Hr1 || apply Hv2).
  - apply Hr3, Hr2. exact Hc1.
  - eexists. split_and!; [done|by apply Ho3, Ho2; split|]. intros ? [= <-].
    rewrite (proj2 (proj1 Hr1 REG)) in Hs2. rewrite (proj2 (Hv2 REG)) in Hs3.
    apply (records_app d (role_slots _ _ _) (role_slots _ _ _) _ a2);
      [by eapply records_same; [apply Hr1|]|by eapply records_same; [apply Hv2|]].
Qed.

Lemma due_total d n : is_Some (is_apply_pending_changes_due (E := E) n d).
Proof.
  unfold is_apply_pending_changes_due, fbind.
  destruct (load_registry (E := E) d) as [[d1 res]|] eqn:H1;
    [|unfold load_registry in H1; by destruct (load_cache_account _ _)].
  destruct (load_registry_some _ _ _ H1) as (_ & Hres). simpl.
  destruct res as [[i|]|e]; [|by eexists|by eexists]. destruct Hres as [_ Hc].
  destruct (is_role_due_total d1 (account_from_info i) PENDING_SYSTEM_ADDRESS
    SYSTEM_ADDRESS_ACTIVATION_BLOCK n Hc) as [[d2 r2] H2]. rewrite H2. simpl.
  destruct r2 as [[a2 due2]|e]; [|by eexists].
  destruct (is_role_due_some _ _ _ _ _ _ _ H2) as [[_ Hg] _].
  destruct (is_role_due_total d2 a2 PENDING_SEQUENCER SEQUENCER_ACTIVATION_BLOCK n (Hg _ Hc))
    as [[d3 [[a3 due3]|e]] ->]; by eexists.
Qed.

(** The check against the contract. *)
Lemma role_due_applied d r n ps asl p a :
  represents d r → (ps, p) ∈ flat_slots r → (asl, a) ∈ flat_slots r → n < u64_max →
  role_due d ps asl n = applied n p a.
Proof.
  intros Hr Hp Ha Hn. unfold role_due, applied, saturating_to_u64.
  rewrite (represents_slot _ _ _ _ Hr Hp), (represents_slot _ _ _ _ Hr Ha). f_equal.
  destruct (Z.leb_spec (Z.min a u64_max) n), (Z.leb_spec a n); lia.
Qed.

Lemma applies_iff n r :
  applied n (pendingSystemAddress r) (systemAddressActivationBlock r) ||
  applied n (pendingSequencer r) (sequencerActivationBlock r) = true ↔
  applyPendingChanges n r ≠ r.
Proof.
  destruct (apply_system n r) as (_ & Hp & _). destruct (apply_sequencer n r) as (_ & Hq & _).
  unfold applied in *. rewrite orb_true_iff, !andb_true_iff, !negb_true_iff. split.
  - intros [[H0 Ha]|[H0 Ha]] Heq; rewrite Heq in Hp, Hq; rewrite H0, Ha in *; simpl in *;
      apply Z.eqb_neq in H0; congruence.
  - intros Hne. destruct (Z.eqb_spec (pendingSystemAddress r) 0) as [Hs0|Hs0];
      destruct (Z.eqb_spec (pendingSequencer r) 0) as [Hq0|Hq0];
      destruct (Z.leb_spec (systemAddressActivationBlock r) n) as [Hs|Hs];
      destruct (Z.leb_spec (sequencerActivationBlock r) n) as [Hq'|Hq']; try tauto;
      destruct Hne; unfold applyPendingChanges, applySystemAddress, applySequencer;
      rewrite ?(proj2 (Z.eqb_eq _ _) Hs0), ?(proj2 (Z.eqb_neq _ _) Hs0),
        ?(proj2 (Z.ltb_lt _ _) Hs); rewrite ?(proj2 (Z.eqb_eq _ _) Hq0),
        ?(proj2 (Z.eqb_neq _ _) Hq0), ?(proj2 (Z.ltb_lt _ _) Hq'); done.
Qed.

Lemma changes_due_applies d r n info :
  represents d r → account_of d REG = Some info → n < u64_max →
  changes_due d n = true ↔ applyPendingChanges n r ≠ r.
Proof.
  intros Hr Hi Hn. rewrite <- applies_iff. unfold changes_due. rewrite Hi.
  rewrite bool_decide_eq_true_2 by (by eexists). cbn [andb].
  rewrite (role_due_applied d r n _ _ (pendingSystemAddress r) (systemAddressActivationBlock r)),
    (role_due_applied d r n _ _ (pendingSequencer r) (sequencerActivationBlock r));
    try done; unfold flat_slots; set_solver.
Qed.

(** Committing a witness changes nothing. *)
Lemma commit_read_only d acc :
  read_only_account acc → same_view d (state_commit {[REG := acc]} d).
Proof.
  intros [Ht _] a. destruct (decide (a = REG)) as [->|Hne]; [|by apply commit_singleton_other].
  by eapply commit_untouched; [apply lookup_singleton_eq|].
Qed.

(** The recorded slots of a registry state, as a map. *)
Lemma records_witness d r info acc :
  represents d r →
  (∀ info, account_of d REG = Some info →
     records d (role_slots (storage_of d REG PENDING_SYSTEM_ADDRESS) PENDING_SYSTEM_ADDRESS
                  SYSTEM_ADDRESS_ACTIVATION_BLOCK ++
                role_slots (storage_of d REG PENDING_SEQUENCER) PENDING_SEQUENCER
                  SEQUENCER_ACTIVATION_BLOCK) (account_from_info info) acc) →
  account_of d REG = Some info →
  acc_storage acc = list_to_map
    ([(PENDING_SYSTEM_ADDRESS, slot_new (pendingSystemAddress r) 0)] ++
     (if pendingSystemAddress r =? 0 then []
      else [(SYSTEM_ADDRESS_ACTIVATION_BLOCK, slot_new (systemAddressActivationBlock r) 0)]) ++
     [(PENDING_SEQUENCER, slot_new (pendingSequencer r) 0)] ++
     (if pendingSequencer r =? 0 then []
      else [(SEQUENCER_ACTIVATION_BLOCK, slot_new (sequencerActivationBlock r) 0)])).
Proof.
  intros Hr Hs Hi. specialize (Hs _ Hi). apply map_eq. intros k. rewrite Hs. clear Hs Hi.
  assert (Hv : ∀ k v, (k, v) ∈ flat_slots r → storage_of d REG k = v)
    by (intros ??; by apply represents_slot).
  rewrite (Hv PENDING_SYSTEM_ADDRESS (pendingSystemAddress r)),
    (Hv PENDING_SEQUENCER (pendingSequencer r)) by (unfold flat_slots; set_solver).
  assert (H2 : storage_of d REG SYSTEM_ADDRESS_ACTIVATION_BLOCK = systemAddressActivationBlock r)
    by (apply Hv; unfold flat_slots; set_solver).
  assert (H4 : storage_of d REG SEQUENCER_ACTIVATION_BLOCK = sequencerActivationBlock r)
    by (apply Hv; unfold flat_slots; set_solver).
  assert (H1 : storage_of d REG PENDING_SYSTEM_ADDRESS = pendingSystemAddress r)
    by (apply Hv; unfold flat_slots; set_solver).
  assert (H3 : storage_of d REG PENDING_SEQUENCER = pendingSequencer r)
    by (apply Hv; unfold flat_slots; set_solver).
  clear Hv. unfold role_slots.
  destruct (pendingSystemAddress r =? 0), (pendingSequencer r =? 0);
    cbn [app list_to_map foldr fst snd uncurry]; rewrite !lookup_insert, lookup_empty;
    repeat match goal with |- context [decide (?x = k)] =>
      destruct (decide (x = k)) as [<-|?]; [rewrite decide_True by set_solver; congruence|] end;
    by rewrite decide_False by (rewrite !not_elem_of_cons; split_and!; first [apply not_elem_of_nil|congruence]).
Qed.

(** C11: the due check decides exactly whether the pre-block call would change the registry.  On a
    database that stores a registry state, the check reads without changing anything, never
    panics, fails only with a database error, and answers yes if and only if [applyPendingChanges]
    of the contract changes that state in this block, so that skipping the call loses nothing.
    What it returns for the block's witness is the registry account with exactly the slots it
    read, at the values it read (the two pending addresses, and the activation block of each
    role with a pending change), and commits as a no-op.  The block number is below the maximum
    of 64 bits, to which the check saturates an activation block. *)
Theorem pending_due_exact d r info n :
  represents d r → account_of d REG = Some info → n < u64_max →
  ∃ d' res, is_apply_pending_changes_due (E := E) n d = Some (d', res) ∧ only_read d d' ∧
    match res with
    | Ok (due, st) =>
        (due = true ↔ applyPendingChanges n r ≠ r) ∧ same_view d' (state_commit st d') ∧
        ∃ acc, st = {[REG := acc]} ∧
          acc_storage acc = list_to_map
            ([(PENDING_SYSTEM_ADDRESS, slot_new (pendingSystemAddress r) 0)] ++
             (if pendingSystemAddress r =? 0 then []
              else [(SYSTEM_ADDRESS_ACTIVATION_BLOCK, slot_new (systemAddressActivationBlock r) 0)]) ++
             [(PENDING_SEQUENCER, slot_new (pendingSequencer r) 0)] ++
             (if pendingSequencer r =? 0 then []
              else [(SEQUENCER_ACTIVATION_BLOCK, slot_new (sequencerActivationBlock r) 0)]))
    | Err e => ∃ e', e = OtherError e'
    end.
Proof.
  intros Hr Hi Hn. destruct (due_total d n) as [[d' res] H]. exists d', res.
  destruct (due_some _ _ _ _ H) as [Hro Hres]. split_and!; [done|done|].
  destruct res as [[due st]|e]; [|done]. destruct Hres as (-> & _ & acc & -> & Ha & Hslots).
  split; [by eapply changes_due_applies|]. split; [by apply commit_read_only|].
  exists acc. split; [done|]. by eapply records_witness.
Qed.

(** * Deployment *)

Implicit Types config : SequencerRegistryConfig.

Definition target_hash (rex6 : bool) : Z :=
  if rex6 then SEQUENCER_REGISTRY_CODE_HASH_REX6 else SEQUENCER_REGISTRY_CODE_HASH.

(** The account of a deployment; [original] is the slot of the delay before. *)
Definition registry_account (rex6 : bool) config (n : Z) (delay : option U256) (existing : option AccountInfo)
    (original : U256) : Account :=
  let spec := registry_spec rex6 config n delay in
  match existing with
  | Some info =>
      if rex6 && (code_hash info =? SEQUENCER_REGISTRY_CODE_HASH)
      then insert_slot (mark_touch (account_from_info (install_code spec info))) MIN_ROTATION_DELAY
             (slot_new_changed original (default 0 delay) 0)
      else deploy_account spec existing
  | None => deploy_account spec None
  end.

(** The delay a deployment seeds. *)
Definition delay_of (hardforks : Hardforks) (rex6 : bool) : option U256 :=
  if rex6 then rex6_min_rotation_delay <$> registry_rex6_params hardforks else None.

Lemma deploy_registry_some rex6 config n delay d d' st :
  deploy_registry (E := E) rex6 config n delay d = Some (d', Ok st) →
  only_read d d' ∧ cached d' REG ∧
  st = {[REG := deploy_account (registry_spec rex6 config n delay) (account_of d REG)]}.
Proof.
  unfold deploy_registry. destruct (transact_deploy _ d) as [[d1 [s|e]]|] eqn:H; [|done..]. simpl.
  intros [= <- <-]. destruct (transact_deploy_ok _ _ _ _ H) as (Hr & Hc & ->).
  unfold registry_spec in *. destruct rex6; by split_and!.
Qed.

Lemma transact_deploy_registry_ok hardforks ts n config d d' o :
  is_active Rex5 ts hardforks = true →
  transact_deploy_sequencer_registry (E := E) hardforks ts n config d = Some (d', Ok o) →
  let rex6 := is_active Rex6 ts hardforks in
  only_read d d' ∧ cached d' REG ∧ (rex6 = true → delay_of hardforks rex6 ≠ None) ∧
  o = Some {[REG := registry_account rex6 config n (delay_of hardforks rex6) (account_of d REG)
                      (storage_of d REG MIN_ROTATION_DELAY)]}.
Proof.
  intros H5. unfold transact_deploy_sequencer_registry. rewrite H5. cbn [negb]. cbv zeta.
  generalize (is_active Rex6 ts hardforks). intros rex6 H. fbind_inv H. rename x into delay.
  assert (s = d ∧ delay = delay_of hardforks rex6 ∧ (rex6 = true → delay ≠ None)) as (-> & -> & Hd).
  { unfold min_rotation_delay_param, delay_of in *. destruct rex6.
    - fbind_inv Hm. unfold ok_or in Hm0. destruct (registry_rex6_params hardforks); [|done].
      injection Hm0 as <- <-. injection Hm as <- <-. done.
    - by injection Hm as <- <-. }
  clear Hm. fbind_inv H. destruct (load_registry_some _ _ _ Hm) as (Hr & -> & Hc). clear Hm.
  pose proof (proj1 Hr REG) as [Hacc Hsto]. unfold registry_account.
  destruct (account_of d REG) as [info|] eqn:Hi.
  - destruct (rex6 && (code_hash info =? SEQUENCER_REGISTRY_CODE_HASH)) eqn:Hup.
    + apply andb_true_iff in Hup as [-> _]. fbind_inv H. injection H as <- <-.
      unfold upgrade_registry in Hm. cbn [registry_target] in Hm. fbind_inv Hm.
      destruct (read_registry_some _ _ _ _ Hm0) as (Hr2 & ->). fbind_inv Hm.
      unfold unwrap, fpanic in Hm1. destruct (delay_of hardforks true) as [dl|]; [|by cbn in Hm1].
      injection Hm1 as <- <-.
      injection Hm as <- <-. rewrite Hsto.
      split_and!; [by etransitivity|by apply Hr2|done|done].
    + destruct (negb (code_hash info =? _) && negb _); [done|]. fbind_inv H. injection H as <- <-.
      destruct (deploy_registry_some _ _ _ _ _ _ _ Hm) as (Hr2 & Hc2 & ->). rewrite Hacc.
      split_and!; [by etransitivity|done|done|done].
  - fbind_inv H. injection H as <- <-.
    destruct (deploy_registry_some _ _ _ _ _ _ _ Hm) as (Hr2 & Hc2 & ->). rewrite Hacc.
    split_and!; [by etransitivity|done|done|done].
Qed.

(** The registry a fresh deployment starts with. *)
Definition bootstrap_registry config (n : Z) (delay : option U256) : Registry :=
  bootstrap MEGA_SYSTEM_ADDRESS (rex5_initial_sequencer config) (rex5_initial_admin config) n
    (default 0 delay).

Lemma seed_stores config n delay :
  stores (seeded (registry_seed config n delay)) (bootstrap_registry config n delay).
Proof. destruct delay; repeat constructor. Qed.

Lemma registry_spec_fields rex6 config n delay :
  sc_address (registry_spec rex6 config n delay) = REG ∧
  sc_code_hash (registry_spec rex6 config n delay) = target_hash rex6 ∧
  sc_seed (registry_spec rex6 config n delay) = registry_seed config n delay.
Proof. by destruct rex6. Qed.

Definition has_code d (hash : Z) : Prop := ∃ i, account_of d REG = Some i ∧ code_hash i = hash.

(** Nothing is deployed at the registry's address: it has no account, or one without code and
    storage, which was only funded. *)
Definition no_registry d : Prop :=
  account_of d REG = None ∨ has_code d KECCAK_EMPTY ∧ ∀ k, storage_of d REG k = 0.

Lemma no_registry_same d d' : same_at d d' REG → no_registry d → no_registry d'.
Proof.
  intros [Ha Hs] [H|[(i & Hi & Hh) Hz]]; [left; by rewrite Ha|right].
  split; [exists i; by rewrite Ha|]. intros k. by rewrite Hs.
Qed.

(** The deployment there creates the account. *)
Lemma registry_account_fresh rex6 config n delay d original :
  (∀ rex6, target_hash rex6 ≠ KECCAK_EMPTY) → no_registry d →
  let spec := registry_spec rex6 config n delay in
  registry_account rex6 config n delay (account_of d REG) original =
    deploy_account spec (account_of d REG) ∧
  in_place spec (account_of d REG) = false ∧ recreates spec (account_of d REG) = true.
Proof.
  intros Hk Hn. destruct (registry_spec_fields rex6 config n delay) as (_ & Hsh & _).
  unfold registry_account, in_place, recreates. rewrite Hsh.
  destruct Hn as [->|[(i & -> & ->) _]].
  - by split_and!.
  - rewrite (proj2 (Z.eqb_neq KECCAK_EMPTY (target_hash rex6))) by (apply not_eq_sym, Hk).
    rewrite (proj2 (Z.eqb_neq KECCAK_EMPTY SEQUENCER_REGISTRY_CODE_HASH))
      by (apply not_eq_sym, (Hk false)).
    split_and!; by destruct rex6.
Qed.

Lemma commit_bootstrap rex6 config n delay d original :
  (∀ rex6, target_hash rex6 ≠ KECCAK_EMPTY) → no_registry d → cached d REG →
  let d' := state_commit
    {[REG := registry_account rex6 config n delay (account_of d REG) original]} d in
  has_code d' (target_hash rex6) ∧ represents d' (bootstrap_registry config n delay).
Proof.
  intros Hk Hn Hc. destruct (registry_spec_fields rex6 config n delay) as (Ha & Hh & Hs).
  destruct (registry_account_fresh rex6 config n delay d original Hk Hn) as (-> & Hp & Hr).
  pose proof (commit_deploy_account (registry_spec rex6 config n delay)
    {[REG := deploy_account (registry_spec rex6 config n delay) (account_of d REG)]} d
    (account_of d REG)) as H.
  rewrite Ha, Hh, Hs, Hr in H. cbv zeta in *.
  destruct H as ((i & Hi & Hhash & _) & _ & Hst); [done|by destruct rex6|done|done|
    by apply lookup_singleton_eq|].
  split; [by exists i|]. eapply Forall_impl; [apply (seed_stores config n delay)|].
  intros kv Hkv. cbv beta. rewrite Hst by done. exact Hkv.
Qed.

(** In place: the deployment is read-only. *)
Lemma commit_in_place rex6 config n delay d info original :
  code_hash info = target_hash rex6 →
  same_view d (state_commit {[REG := registry_account rex6 config n delay (Some info) original]} d).
Proof.
  intros Hh. destruct (registry_spec_fields rex6 config n delay) as (Ha & Hsh & _).
  assert (registry_account rex6 config n delay (Some info) original = account_from_info info) as ->.
  { unfold registry_account, deploy_account. rewrite Hsh, Hh, Z.eqb_refl. by destruct rex6. }
  by apply commit_read_only.
Qed.

(** The upgrade keeps every slot but the delay's. *)
Lemma commit_upgrade config n delay d info :
  SEQUENCER_REGISTRY_CODE_HASH_REX6 ≠ KECCAK_EMPTY → cached d REG →
  code_hash info = SEQUENCER_REGISTRY_CODE_HASH →
  let d' := state_commit {[REG := registry_account true config n (Some delay) (Some info)
                                    (storage_of d REG MIN_ROTATION_DELAY)]} d in
  has_code d' SEQUENCER_REGISTRY_CODE_HASH_REX6 ∧
  ∀ k, storage_of d' REG k = if k =? MIN_ROTATION_DELAY then delay else storage_of d REG k.
Proof.
  intros Hk Hc Hh d'. subst d'. unfold registry_account. rewrite Hh, Z.eqb_refl. cbn [andb].
  set (acc := insert_slot _ _ _).
  destruct (commit_changed {[REG := acc]} d REG acc) as [Ha Hs]; try done.
  { by apply code_not_empty. }
  split; [by eexists|]. intros k. rewrite Hs. unfold written. simpl.
  destruct (Z.eqb_spec k MIN_ROTATION_DELAY) as [->|Hne].
  - rewrite lookup_insert_eq. simpl. by destruct (Z.eqb_spec (storage_of d REG MIN_ROTATION_DELAY) delay).
  - by rewrite lookup_insert_ne, lookup_empty.
Qed.

(** * Everything here reads *)

Lemma load_registry_reads : steps only_read (load_registry (E := E)).
Proof. intros d d' res H. by destruct (load_registry_some _ _ _ H). Qed.
Lemma read_registry_reads slot : steps only_read (read_registry_storage (E := E) slot).
Proof. intros d d' res H. by destruct (read_registry_some _ _ _ _ H). Qed.

Lemma deploy_registry_reads hardforks ts n config :
  steps only_read (transact_deploy_sequencer_registry (E := E) hardforks ts n config).
Proof.
  assert (∀ rex6 delay, steps only_read (fbind (deploy_registry (E := E) rex6 config n delay)
    (λ state, fret (Some state)))) as Hdep.
  { intros rex6 delay. apply steps_bind; [apply _| |eauto with steps typeclass_instances].
    intros d d' res. unfold deploy_registry.
    destruct (transact_deploy _ d) as [[d1 r1]|] eqn:H; [|done]. intros [= <- _].
    by eapply transact_deploy_only_read. }
  unfold transact_deploy_sequencer_registry. destruct (negb _); [by apply steps_fret, _|].
  apply steps_bind; [apply _| |intros delay].
  { unfold min_rotation_delay_param. destruct (is_active _ _ _); [|by apply steps_fret, _].
    apply steps_bind; [apply _|apply steps_ok_or, _|intros; by apply steps_fret, _]. }
  apply steps_bind; [apply _|apply load_registry_reads|intros [info|]]; [|apply Hdep].
  destruct (_ && _).
  { apply steps_bind; [apply _| |intros; by apply steps_fret, _]. unfold upgrade_registry. simpl.
    apply steps_bind; [apply _|apply read_registry_reads|intros original].
    apply steps_bind; [apply _|apply steps_unwrap, _|intros; by apply steps_fret, _]. }
  destruct (_ && _); [by apply steps_ffail, _|apply Hdep].
Qed.

(** * Resolution *)

Lemma resolve_some hardforks spec d d' res :
  is_enabled spec REX5 = true →
  resolve_system_address (E := E) hardforks spec d = Some (d', res) →
  only_read d d' ∧
  match res with
  | Ok (a, o) =>
      a = address_from_word (storage_of d REG CURRENT_SYSTEM_ADDRESS) ∧
      ∃ acc, o = Some {[REG := acc]} ∧ read_only_account acc
  | Err e =>
      (∃ e', e = OtherError e') ∨ e = BlockHashContractCall Rex5ParamsMissing ∨
      e = BlockHashContractCall RegistryMissing ∧ account_of d REG = None ∨
      (∃ h h', e = BlockHashContractCall (CodeHashMismatch h h') ∧
               ¬ has_code d (target_hash (is_enabled spec REX6))) ∨
      e = BlockHashContractCall SystemAddressZero ∧ storage_of d REG CURRENT_SYSTEM_ADDRESS = 0
  end.
Proof.
  intros H5. unfold resolve_system_address. rewrite H5. cbn [negb]. intros H.
  apply fbind_some in H as (d0 & [p|e0] & H0 & H).
  2: { destruct H as [-> ->]. unfold ok_or in H0. destruct (registry_params hardforks); [done|].
       injection H0 as <- <-. split; [done|]. tauto. }
  unfold ok_or in H0. destruct (registry_params hardforks); [|done]. injection H0 as <- _.
  apply fbind_some in H as (d1 & [i|e1] & H1 & H).
  2: { destruct H as [-> ->]. destruct (load_registry_some _ _ _ H1) as [? ?]. split; [done|]. tauto. }
  destruct (load_registry_some _ _ _ H1) as (Hr1 & -> & Hc).
  apply fbind_some in H as (d2 & [info|e2] & H2 & H).
  2: { destruct H as [-> ->]. unfold ok_or in H2. destruct (account_of d REG); [done|].
       injection H2 as <- <-. split; [done|]. tauto. }
  unfold ok_or in H2. destruct (account_of d REG) as [info'|] eqn:Hi; [|done].
  injection H2 as <- <-.
  destruct (Z.eqb_spec (code_hash info')
    (if is_enabled spec REX6 then SEQUENCER_REGISTRY_CODE_HASH_REX6
     else SEQUENCER_REGISTRY_CODE_HASH)) as [Hh|Hh]; cbn [negb] in H.
  2: { injection H as <- <-. split; [done|]. right; right; right; left. do 2 eexists.
       split; [done|]. intros (i & Hi' & Hi''). rewrite Hi in Hi'. injection Hi' as <-. done. }
  apply fbind_some in H as (d3 & [v|e3] & H3 & H).
  2: { destruct H as [-> ->]. destruct (read_registry_some _ _ _ _ H3) as [? ?].
       split; [by etransitivity|]. tauto. }
  destruct (read_registry_some _ _ _ _ H3) as (Hr3 & ->).
  assert (only_read d d3) as Hr by (by etransitivity).
  rewrite (proj2 (proj1 Hr1 REG)) in H.
  destruct (Z.eqb_spec (storage_of d REG CURRENT_SYSTEM_ADDRESS) 0) as [Hz|Hz].
  - injection H as <- <-. split; [done|]. tauto.
  - injection H as <- <-. split; [done|]. split; [done|]. eexists. split; [done|].
    by apply insert_read_only.
Qed.
End facts.

(** * Schedules *)

(** No schedule panics, and each carries the parameters of every registry fork it activates. *)
Lemma schedules_configured chain_id :
  ∃ c, hardfork_schedule chain_id = Some c ∧ registry_params c ≠ None ∧
    ∀ ts, is_active Rex6 ts c = true → registry_rex6_params c ≠ None.
Proof.
  unfold hardfork_schedule. destruct (chain_id =? MAINNET_CHAIN_ID); [|destruct (chain_id =? _)];
    eexists; (split; [vm_compute; reflexivity|]); (split; [done|]); intros ts; by vm_compute.
Qed.

(** * A registry with a change that is due *)

Definition sample_registry : Registry :=
  mkRegistry 100 200 7 0 100 200 10 101 12 0 0 [] [] 1.

Definition sample_registry_info : AccountInfo :=
  mkAccountInfo 0 1 SEQUENCER_REGISTRY_CODE_HASH (Some (OtherBytecode [8])).

Definition sample_registry_db (r : Registry) : RefDb :=
  mkRefDb {[SEQUENCER_REGISTRY_ADDRESS := (sample_registry_info, list_to_map (flat_slots r))]} ∅.

Lemma pending_due_exact_witness :
  ∃ d' st, is_apply_pending_changes_due (E := unit) 12 (sample_registry_db sample_registry) =
             Some (d', Ok (true, st)) ∧
           applyPendingChanges 12 sample_registry ≠ sample_registry ∧
           same_view d' (state_commit st d').
Proof.
  assert (represents (sample_registry_db sample_registry) sample_registry) as Hr
    by (unfold represents, stores; repeat constructor).
  destruct (pending_due_exact (E := unit) (sample_registry_db sample_registry) sample_registry
    sample_registry_info 12 Hr eq_refl ltac:(done)) as (d' & res & H & _ & Hres).
  vm_compute in H. injection H as <- <-. destruct Hres as (Hdue & Hsame & _).
  do 2 eexists. split; [vm_compute; reflexivity|]. split; [by apply Hdue|exact Hsame].
Defined.
