(* ===== verification/BlockExecutor.v ===== *)
(** The block executor: [block/executor.rs], the pre- and post-block calls of [block/eips.rs],
    the transaction wrapper of [block/helpers.rs], and the construction in [block/factory.rs].

    The executor drives an EVM through [BlockEvm] over a database through [BlockState].  The
    receipt builder, the transaction codec and the state hook are upstream: the classes
    [ReceiptBuilder], [Tx2718] and [StateHook].  A hook is a state of its own, so that what it
    is told, and in which order, is part of the model. *)

From S2P Require Import Prelude Spec Revm SystemTx EvmState Hardfork BlockLimit Effects.
From S2P Require Import SystemContracts BlockEvm SequencerRegistry.

(** * Upstream interfaces *)

Inductive StateChangeSource : Type :=
  | SourceTransaction (index : Z)
  | SourceBlockHashesContract
  | SourceBeaconRootContract
  | SourceBalanceIncrements.

(** [OnStateHook]. *)
Class StateHook (H : Type) := { on_state_hook : StateChangeSource → EvmState → H → H }.

(** What is read of a transaction [T]: [tx()] and the conversions of its wrappers. *)
Class Tx2718 (T Env : Type) := {
  tx_ty : T → Z;
  inner_tx_hash : T → Z;
  tx_gas_limit_of : T → Z;
  trie_hash : T → Z;
  tx_signer : T → Address;
  into_tx_env : T → Env;
  (** [encode_2718_len() as u64], and [tx_estimated_size_fjord_bytes] of the encoding. *)
  encode_2718_len : T → Z;
  estimated_size_fjord : T → Z;
}.

#[export] Hint Mode Tx2718 ! - : typeclass_instances.

(** The receipt builder; [build_receipt] fails on a deposit. *)
Class ReceiptBuilder (T R L : Type) := {
  Receipt : Type;
  build_receipt : T → R → Z → EvmState → option Receipt;
  (** [build_deposit_receipt]: status, cumulative gas, logs, receipt version, deposit nonce. *)
  build_deposit_receipt : bool → Z → L → option Z → option Z → Receipt;
  cumulative_gas_used : Receipt → Z;
}.

(** * [block/helpers.rs] *)

Record EnrichedMegaTx (T : Type) : Type := mkEnriched {
  en_inner : T;
  en_tx_hash : Z;
  en_da_size : Z;
  en_tx_size : Z;
}.
Arguments mkEnriched {T} _ _ _ _.
Arguments en_inner {T} _.
Arguments en_tx_hash {T} _.
Arguments en_da_size {T} _.
Arguments en_tx_size {T} _.

Definition enriched_new {T} (inner : T) (tx_hash da_size tx_size : Z) : EnrichedMegaTx T :=
  mkEnriched inner tx_hash da_size tx_size.
Definition enriched_new_slow {T Env} `{Tx2718 T Env} (inner : T) : EnrichedMegaTx T :=
  mkEnriched inner (trie_hash inner) (estimated_size_fjord inner) (encode_2718_len inner).

(** [MegaTransactionExt]: the sizes and the hash of a transaction. *)
Class MegaTransactionExt (T : Type) := {
  estimated_da_size : T → Z;
  tx_size : T → Z;
  tx_hash : T → Z;
}.

(** The default methods, for a transaction without a cache. *)
Definition recomputing_ext {T Env} `{Tx2718 T Env} : MegaTransactionExt T := {|
  estimated_da_size := estimated_size_fjord;
  tx_size := encode_2718_len;
  tx_hash := inner_tx_hash;
|}.

#[export] Instance enriched_ext {T} : MegaTransactionExt (EnrichedMegaTx T) := {|
  estimated_da_size := en_da_size;
  tx_size := en_tx_size;
  tx_hash := en_tx_hash;
|}.

(** The delegations of the wrapper: [tx()] is the inner transaction. *)
#[export] Instance enriched_2718 {T Env} `{Tx2718 T Env} : Tx2718 (EnrichedMegaTx T) Env := {|
  tx_ty t := tx_ty (en_inner t);
  inner_tx_hash t := inner_tx_hash (en_inner t);
  tx_gas_limit_of t := tx_gas_limit_of (en_inner t);
  trie_hash t := trie_hash (en_inner t);
  tx_signer t := tx_signer (en_inner t);
  into_tx_env t := into_tx_env (en_inner t);
  encode_2718_len t := encode_2718_len (en_inner t);
  estimated_size_fjord t := estimated_size_fjord (en_inner t);
|}.

(** * The executor *)

Record MegaBlockExecutionCtx : Type := mkExecutionCtx {
  parent_hash : Z;
  parent_beacon_block_root : option Z;
  extra_data : Bytes;
  block_limits : BlockLimits;
}.

Record MegaSystemCallOutcome : Type := mkCallOutcome {
  so_source : StateChangeSource;
  so_state : EvmState;
}.

(** [block/result.rs]. *)
Record BlockMegaTransactionOutcome (T R : Type) : Type := mkBlockOutcome {
  bo_tx : T;
  bo_tx_size : Z;
  bo_da_size : Z;
  bo_depositor : option AccountInfo;
  bo_inner : MegaTransactionOutcome R;
}.
Arguments mkBlockOutcome {T R} _ _ _ _ _.
Arguments bo_tx {T R} _.
Arguments bo_tx_size {T R} _.
Arguments bo_da_size {T R} _.
Arguments bo_depositor {T R} _.
Arguments bo_inner {T R} _.

Section executor.
Context `{Rv : Revm} `{RS : RevmState} `{HA : Artifacts} {DB V : Type} `{B : !BlockState DB}.
Context `{BE : !BlockEvm V DB} {H : Type} `{HH : !StateHook H}.
Context {T : Type} `{HT : !Tx2718 T tx_env} `{HR : !ReceiptBuilder T exec_result logs_t}.
(** The encodings of the system calls' inputs, and of the hashes. *)
Context (apply_calldata : Bytes) (b256_bytes : Z → Bytes).
Context (HISTORY_STORAGE_ADDRESS BEACON_ROOTS_ADDRESS : Address).
(** [post_block_balance_increments]. *)
Context (post_block_balance_increments : Hardforks → V → list (Address * Z)).

Local Notation error := (ExecError db_error evm_error).

Record MegaBlockExecutor : Type := mkExecutor {
  ex_hardforks : Hardforks;
  ex_ctx : MegaBlockExecutionCtx;
  (** The hook of the [SystemCaller]. *)
  ex_hook : option H;
  ex_evm : V;
  ex_block_limiter : BlockLimiter;
  ex_receipts : list Receipt;
}.

Implicit Types ex : MegaBlockExecutor.

Definition with_evm (evm : V) ex : MegaBlockExecutor :=
  mkExecutor (ex_hardforks ex) (ex_ctx ex) (ex_hook ex) evm (ex_block_limiter ex) (ex_receipts ex).
Definition with_hook (hook : option H) ex : MegaBlockExecutor :=
  mkExecutor (ex_hardforks ex) (ex_ctx ex) hook (ex_evm ex) (ex_block_limiter ex) (ex_receipts ex).
Definition with_limiter (l : BlockLimiter) ex : MegaBlockExecutor :=
  mkExecutor (ex_hardforks ex) (ex_ctx ex) (ex_hook ex) (ex_evm ex) l (ex_receipts ex).
Definition push_receipt (r : Receipt) ex : MegaBlockExecutor :=
  mkExecutor (ex_hardforks ex) (ex_ctx ex) (ex_hook ex) (ex_evm ex) (ex_block_limiter ex)
    (ex_receipts ex ++ [r]).

(** The timestamp as the code reads it. *)
Definition timestamp (evm : V) : Z := saturating_to_u64 (env_timestamp evm).

(** [hardforks.is_*_active_at_timestamp] of an upstream fork. *)
Definition is_fork_active (fork : string) (ts : Z) (c : Hardforks) : bool :=
  active_at_timestamp (default Never (get fork c)) ts.

(** [new]: the assertions panic; with the feature [test-utils], which the tools have, the spec and
    the gas limit are not compared. *)
Definition executor_new (test_utils : bool) (evm : V) (ctx : MegaBlockExecutionCtx)
    (hardforks : Hardforks) : panics MegaBlockExecutor :=
  let block_timestamp := timestamp evm in
  _ ← assert_ (test_utils || bool_decide (evm_spec evm = spec_id block_timestamp hardforks));
  _ ← assert_ (is_fork_active "Regolith" block_timestamp hardforks);
  _ ← assert_ (is_fork_active "Canyon" block_timestamp hardforks);
  _ ← assert_ (is_fork_active "Isthmus" block_timestamp hardforks);
  _ ← assert_ (test_utils || (block_gas_limit (block_limits ctx) =? env_gas_limit evm));
  Some (mkExecutor hardforks ctx None evm (limiter_new (block_limits ctx)) []).

(** Computations on the EVM and on its database, as steps of the executor. *)
Definition on_evm {A E} (from : E → error) (m : fallible V E A) : fallible MegaBlockExecutor error A :=
  zoom ex_evm with_evm from m.
Definition on_db {A E} (from : E → error) (m : fallible DB E A) : fallible MegaBlockExecutor error A :=
  zoom (λ ex, evm_db (ex_evm ex)) (λ db ex, with_evm (evm_with_db db (ex_evm ex)) ex) from m.

(** [system_caller.on_state], then [db.commit]. *)
Definition notify (source : StateChangeSource) (state : EvmState) ex : MegaBlockExecutor :=
  with_hook (on_state_hook source state <$> ex_hook ex) ex.
Definition commit_db (state : EvmState) ex : MegaBlockExecutor :=
  with_evm (evm_with_db (state_commit state (evm_db (ex_evm ex))) (ex_evm ex)) ex.

(** * [block/eips.rs] *)

(** The call itself: from Rex5 on with the gas of the block. *)
Definition transact_call (rex5 : bool) (contract : Address) (data : Bytes)
    : fallible V evm_error (exec_result * EvmState) := λ evm,
  if rex5 then
    transact_system_call_with_gas_limit EIP4788_SYSTEM_ADDRESS contract data
      (Z.max (env_gas_limit evm) SYSTEM_CALL_GAS_LIMIT_FLOOR) evm
  else transact_system_call EIP4788_SYSTEM_ADDRESS contract data evm.

(** The error of a call that did not run. *)
Definition map_call {A} (from : evm_error → error) (m : fallible V evm_error A) : fallible V error A :=
  zoom (λ v, v) (λ v _, v) from m.

Definition transact_blockhashes_contract_call (hardforks : Hardforks) (parent_block_hash : Z)
    : fallible V error (option (exec_result * EvmState)) := λ evm,
  let block_timestamp := timestamp evm in
  if negb (is_fork_active "Prague" block_timestamp hardforks) then Some (evm, Ok None)
  else if env_number evm =? 0 then Some (evm, Ok None)
  else
    fbind (map_call (λ e, BlockHashContractCall (CallFailed e))
             (transact_call (is_active Rex5 block_timestamp hardforks) HISTORY_STORAGE_ADDRESS
                (b256_bytes parent_block_hash)))
      (λ res, fret (Some res)) evm.

Definition transact_beacon_root_contract_call (hardforks : Hardforks)
    (parent_beacon_block_root : option Z) : fallible V error (option (exec_result * EvmState)) := λ evm,
  let block_timestamp := timestamp evm in
  if negb (is_fork_active "Cancun" block_timestamp hardforks) then Some (evm, Ok None)
  else
    match parent_beacon_block_root with
    | None => Some (evm, Err MissingParentBeaconBlockRoot)
    | Some root =>
        if env_number evm =? 0 then
          if negb (root =? 0)
          then Some (evm, Err (CancunGenesisParentBeaconBlockRootNotZero root))
          else Some (evm, Ok None)
        else
          fbind (map_call (λ e, BeaconRootContractCall root (CallFailed e))
                   (transact_call (is_active Rex5 block_timestamp hardforks) BEACON_ROOTS_ADDRESS
                      (b256_bytes root)))
            (λ res, fret (Some res)) evm
    end.

(** The body of the loop over the increments; [+=] wraps at 256 bits. *)
Definition increment_account (i : AccountInfo) (balance_increment : Z) : Account :=
  mark_touch (account_from_info
    (mkAccountInfo ((balance i + balance_increment) mod 2 ^ 256) (nonce i) (code_hash i) (code i))).

Fixpoint balance_increments (balances : list (Address * Z)) (state : EvmState)
    : fallible DB db_error EvmState :=
  match balances with
  | [] => fret state
  | (address, balance_increment) :: l =>
      if balance_increment =? 0 then balance_increments l state
      else
        fbind (total (load_cache_account address)) (λ info,
          balance_increments l
            (<[address := increment_account (default account_info_default info) balance_increment]>
               state))
  end.

Definition transact_balance_increments (balances : list (Address * Z))
    : fallible DB db_error (option EvmState) :=
  fbind (balance_increments balances ∅) (λ state, fret (Some state)).

(** * Before the block *)

(** The two EIP calls: from Rex5 on, a call that did not succeed fails the block. *)
Definition eip_outcome (is_rex_5 : bool) (failure : error) (source : StateChangeSource)
    (result_and_state : option (exec_result * EvmState))
    : result (list MegaSystemCallOutcome) error :=
  match result_and_state with
  | None => Ok []
  | Some (result, state) =>
      if is_rex_5 && negb (is_success result) then Err failure
      else Ok [mkCallOutcome source state]
  end.

Definition lift_result {A} (r : result A error) : fallible MegaBlockExecutor error A :=
  match r with Ok x => fret x | Err e => ffail e end.

Definition deploy_outcome (state : EvmState) : MegaSystemCallOutcome :=
  mkCallOutcome (SourceTransaction 0) state.

(** The loop over the flat system contracts. *)
Fixpoint deploy_flat (specs : list SystemContractSpec)
    : fallible MegaBlockExecutor error (list MegaSystemCallOutcome) := (
  match specs with
  | [] => fret []
  | spec :: specs =>
      state ⇐ on_db OtherError (transact_deploy spec);
      outcomes ⇐ deploy_flat specs;
      fret (deploy_outcome state :: outcomes)
  end)%fallible.

Definition push_deploy_sequencer_registry_outcome (block_timestamp block_number : Z)
    (params : SequencerRegistryConfig)
    : fallible MegaBlockExecutor error (list MegaSystemCallOutcome) := λ ex, (
  result_and_state ⇐
    on_db (λ e, e)
      (transact_deploy_sequencer_registry (ex_hardforks ex) block_timestamp block_number params);
  fret (match result_and_state with Some state => [deploy_outcome state] | None => [] end))%fallible ex.

(** The witness of the due check, and the call if a change is due. *)
Definition apply_pending (block_number : Z)
    : fallible MegaBlockExecutor error (list MegaSystemCallOutcome) := (
  '(due, witness_state) ⇐ on_db (λ e, e) (is_apply_pending_changes_due block_number);
  if (due : bool) then
    res ⇐ on_evm (λ e, e) (transact_apply_pending_changes apply_calldata);
    fret [deploy_outcome witness_state; deploy_outcome (snd res)]
  else fret [deploy_outcome witness_state])%fallible.

(** The registry's part of the pre-block work: from Rex6 on the deployment comes last. *)
Definition registry_changes (block_timestamp block_number : Z)
    : fallible MegaBlockExecutor error (list MegaSystemCallOutcome) := λ ex, (
  params ⇐ ok_or (registry_params (ex_hardforks ex)) (BlockHashContractCall Rex5ParamsMissing);
  let is_rex_6 := is_active Rex6 block_timestamp (ex_hardforks ex) in
  let deploy := push_deploy_sequencer_registry_outcome block_timestamp block_number params in
  before ⇐ (if negb is_rex_6 then deploy else fret []);
  applied ⇐ apply_pending block_number;
  after ⇐ (if is_rex_6 then deploy else fret []);
  fret (before ++ applied ++ after))%fallible ex.

Definition pre_execution_changes : fallible MegaBlockExecutor error (list MegaSystemCallOutcome) := (
  _ ⇐ on_db OtherError (fmodify (set_state_clear_flag true));
  hardforks ⇐ fgets ex_hardforks;
  ctx ⇐ fgets ex_ctx;
  block_timestamp ⇐ fgets (λ ex, timestamp (ex_evm ex));
  let is_rex_5 := is_active Rex5 block_timestamp hardforks in
  blockhashes ⇐ on_evm (λ e, e) (transact_blockhashes_contract_call hardforks (parent_hash ctx));
  o1 ⇐ lift_result (eip_outcome is_rex_5 (BlockHashContractCall CallNotSuccessful)
                      SourceBlockHashesContract blockhashes);
  beacon_root ⇐ on_evm (λ e, e)
    (transact_beacon_root_contract_call hardforks (parent_beacon_block_root ctx));
  o2 ⇐ lift_result (eip_outcome is_rex_5
                      (BeaconRootContractCall (default 0 (parent_beacon_block_root ctx))
                         CallNotSuccessful)
                      SourceBeaconRootContract beacon_root);
  o3 ⇐ deploy_flat (flat_system_contract_specs hardforks block_timestamp);
  number ⇐ fgets (λ ex, env_number (ex_evm ex));
  block_number ⇐ unwrap (to_u64 number);
  o4 ⇐ (if is_rex_5 then registry_changes block_timestamp block_number else fret []);
  fret (o1 ++ o2 ++ o3 ++ o4))%fallible.

(** [for outcome in outcomes]. *)
Definition commit_system_call_outcome (outcome : MegaSystemCallOutcome) ex : MegaBlockExecutor :=
  commit_db (so_state outcome) (notify (so_source outcome) (so_state outcome) ex).
Definition commit_system_call_outcomes (outcomes : list MegaSystemCallOutcome)
    : fallible MegaBlockExecutor error unit :=
  fmodify (λ ex, foldl (λ ex o, commit_system_call_outcome o ex) ex outcomes).

Definition apply_pre_execution_changes : fallible MegaBlockExecutor error unit := (
  outcomes ⇐ pre_execution_changes;
  _ ⇐ commit_system_call_outcomes outcomes;
  spec ⇐ fgets (λ ex, evm_spec (ex_evm ex));
  hardforks ⇐ fgets ex_hardforks;
  '(system_address, read_state) ⇐ on_db (λ e, e) (resolve_system_address hardforks spec);
  _ ⇐ fmodify (λ ex,
        match read_state with
        | Some state => commit_db state (notify (SourceTransaction 0) state ex)
        | None => ex
        end);
  fmodify (λ ex, with_evm (evm_set_system_address system_address (ex_evm ex)) ex))%fallible.

(** * Transactions *)

Local Notation outcome := (BlockMegaTransactionOutcome T exec_result).

Definition is_deposit_tx (tx : T) : bool := tx_ty tx =? DEPOSIT_TRANSACTION_TYPE.

(** [block_limiter.pre_execution_check(..)?]. *)
Definition check_limits (tx : T) (tx_size da_size : Z) : fallible MegaBlockExecutor error unit := λ ex,
  Some (ex, match pre_execution_check (inner_tx_hash tx) (tx_gas_limit_of tx) tx_size da_size
                    (is_deposit_tx tx) (ex_block_limiter ex) with
            | Ok _ => Ok tt
            | Err e => Err (LimitsExceeded e)
            end).

(** The depositor of a deposit, before the transaction. *)
Definition load_depositor (tx : T) : fallible MegaBlockExecutor error (option AccountInfo) :=
  if is_deposit_tx tx then
    fbind (on_db OtherError (total (load_cache_account (tx_signer tx))))
      (λ info, fret (Some (default account_info_default info)))
  else fret None.

Definition run_transaction_with_sizes (tx : T) (tx_size da_size : Z)
    : fallible MegaBlockExecutor error outcome := (
  _ ⇐ check_limits tx tx_size da_size;
  depositor ⇐ load_depositor tx;
  inner ⇐ on_evm (λ e, EvmFailure e (trie_hash tx)) (execute_transaction (into_tx_env tx));
  fret (mkBlockOutcome tx tx_size da_size depositor inner))%fallible.

Definition run_transaction `{HX : !MegaTransactionExt T} (tx : T)
    : fallible MegaBlockExecutor error outcome :=
  run_transaction_with_sizes tx (tx_size tx) (estimated_da_size tx).

(** [post_execution_update]: what the limiter reads of the outcome. *)
Definition limiter_outcome (o : outcome) : tx_outcome := {|
  o_hash := inner_tx_hash (bo_tx o);
  o_gas_limit := tx_gas_limit_of (bo_tx o);
  o_is_deposit := is_deposit_tx (bo_tx o);
  o_gas_used := gas_used (mo_result (bo_inner o));
  o_tx_size := bo_tx_size o;
  o_da_size := bo_da_size o;
  o_data_size := mo_data_size (bo_inner o);
  o_kv_updates := mo_kv_updates (bo_inner o);
  o_compute_gas_used := mo_compute_gas_used (bo_inner o);
  o_state_growth_used := mo_state_growth_used (bo_inner o);
|}.

Definition make_receipt (o : outcome) (block_gas_used : Z) : Receipt :=
  let result := mo_result (bo_inner o) in
  match build_receipt (bo_tx o) result block_gas_used (mo_state (bo_inner o)) with
  | Some receipt => receipt
  | None =>
      build_deposit_receipt (is_success result) block_gas_used (into_logs result)
        (if bool_decide (is_Some (bo_depositor o)) then Some 1 else None)
        (nonce <$> bo_depositor o)
  end.

Definition commit_transaction_outcome (o : outcome) : fallible MegaBlockExecutor error Z := (
  _ ⇐ check_limits (bo_tx o) (bo_tx_size o) (bo_da_size o);
  _ ⇐ (λ ex, let '(l, r) := post_execution_update (limiter_outcome o) (ex_block_limiter ex) in
             Some (with_limiter l ex,
                   match r with Ok _ => Ok tt | Err e => Err (LimitsExceeded e) end));
  let state := mo_state (bo_inner o) in
  _ ⇐ fmodify (λ ex,
        let ex := notify (SourceTransaction (Z.of_nat (length (ex_receipts ex)))) state ex in
        let ex := push_receipt (make_receipt o (block_gas_used (ex_block_limiter ex))) ex in
        commit_db state ex);
  fret (gas_used (mo_result (bo_inner o))))%fallible.

(** [f] decides whether the result is committed. *)
Definition execute_transaction_with_commit_condition (tx : T) (f : exec_result → bool)
    : fallible MegaBlockExecutor error (option Z) := (
  outcome ⇐ run_transaction_with_sizes tx (encode_2718_len tx) (estimated_size_fjord tx);
  if f (mo_result (bo_inner outcome)) then
    gas_used ⇐ commit_transaction_outcome outcome; fret (Some gas_used)
  else fret None)%fallible.

(** * After the block *)

Definition post_execution_changes : fallible MegaBlockExecutor error (list MegaSystemCallOutcome) := λ ex, (
  let increments := post_block_balance_increments (ex_hardforks ex) (ex_evm ex) in
  state ⇐ on_db OtherError (transact_balance_increments increments);
  fret (match state with
        | Some state => [mkCallOutcome SourceBalanceIncrements state]
        | None => []
        end))%fallible ex.

Record BlockExecutionResult : Type := mkExecutionResult {
  ber_receipts : list Receipt;
  ber_gas_used : Z;
}.

Definition finish : fallible MegaBlockExecutor error BlockExecutionResult := (
  outcomes ⇐ post_execution_changes;
  _ ⇐ commit_system_call_outcomes outcomes;
  fgets (λ ex, mkExecutionResult (ex_receipts ex)
                 (default 0 (cumulative_gas_used <$> last (ex_receipts ex)))))%fallible.

Definition set_state_hook (hook : option H) ex : MegaBlockExecutor := with_hook hook ex.
Definition get_accessed_bucket_ids ex : gset Z := evm_get_accessed_bucket_ids (ex_evm ex).
Definition get_accessed_block_hashes ex : gmap Z Z := block_hashes (evm_db (ex_evm ex)).
Definition clear_accessed_block_hashes ex : MegaBlockExecutor :=
  with_evm (evm_with_db (clear_block_hashes (evm_db (ex_evm ex))) (ex_evm ex)) ex.

(** [block/factory.rs]: an executor over an EVM with the block's limits per transaction. *)
Definition create_executor (test_utils : bool) (with_tx_runtime_limits : EvmTxRuntimeLimits → V → V)
    (evm : V) (block_ctx : MegaBlockExecutionCtx) (hardforks : Hardforks) : panics MegaBlockExecutor :=
  let runtime_limits := to_evm_tx_runtime_limits (block_limits block_ctx) in
  executor_new test_utils (with_tx_runtime_limits runtime_limits evm) block_ctx hardforks.

(** An executor that is created is fresh, and its hardforks are those it needs. *)
Lemma executor_new_fresh test_utils evm ctx hardforks ex :
  executor_new test_utils evm ctx hardforks = Some ex →
  ex = mkExecutor hardforks ctx None evm (limiter_new (block_limits ctx)) [] ∧
  Forall (λ fork, is_fork_active fork (timestamp evm) hardforks = true) ["Regolith"; "Canyon"; "Isthmus"] ∧
  (test_utils = false → evm_spec evm = spec_id (timestamp evm) hardforks ∧
     block_gas_limit (block_limits ctx) = env_gas_limit evm).
Proof.
  unfold executor_new, assert_. intros H'. case_bools_in H'; try done. injection H' as <-.
  split; [done|]. split; [by repeat constructor|]. intros ->. simpl in *.
  split; [by eapply bool_decide_eq_true_1|]. by apply Z.eqb_eq.
Qed.

(** The factory is generic in the EVM's factory [F], which makes an EVM over a database in an
    environment [En], with or without an inspector. *)
Record MegaBlockExecutorFactory (F : Type) : Type := mkBlockFactory {
  bf_hardforks : Hardforks;
  bf_evm_factory : F;
}.
#[global] Arguments mkBlockFactory {F} _ _.
#[global] Arguments bf_hardforks {F} _.
#[global] Arguments bf_evm_factory {F} _.

Definition factory_create_executor {F En : Type} (create_evm : F → DB → En → panics V)
    (with_tx_runtime_limits : EvmTxRuntimeLimits → V → V) (test_utils : bool)
    (f : MegaBlockExecutorFactory F) (db : DB) (block_ctx : MegaBlockExecutionCtx) (evm_env : En)
    : panics MegaBlockExecutor :=
  let runtime_limits := to_evm_tx_runtime_limits (block_limits block_ctx) in
  evm ← create_evm (bf_evm_factory f) db evm_env;
  executor_new test_utils (with_tx_runtime_limits runtime_limits evm) block_ctx (bf_hardforks f).

Definition factory_create_executor_with_inspector {F En I : Type}
    (create_evm_with_inspector : F → DB → En → I → panics V)
    (with_tx_runtime_limits : EvmTxRuntimeLimits → V → V) (test_utils : bool)
    (f : MegaBlockExecutorFactory F) (db : DB) (block_ctx : MegaBlockExecutionCtx) (evm_env : En)
    (inspector : I) : panics MegaBlockExecutor :=
  let runtime_limits := to_evm_tx_runtime_limits (block_limits block_ctx) in
  evm ← create_evm_with_inspector (bf_evm_factory f) db evm_env inspector;
  executor_new test_utils (with_tx_runtime_limits runtime_limits evm) block_ctx (bf_hardforks f).
End executor.

