(* ===== verification/BlockExecutorFacts.v ===== *)
(** What a block's executor keeps track of.

    [BlockEvmLaws] states what the executor relies on of the EVM it drives: running a call or a
    transaction reads the database and commits nothing.  [executes] lists everything a client can
    do with an executor, with the transactions committed so far; the theorem relates the
    executor's counters, receipts, hook and database to that list. *)

From S2P Require Import Prelude Spec Revm SystemTx EvmState Hardfork BlockLimit Effects.
From S2P Require Import SystemContracts SystemContractsFacts BlockEvm SequencerRegistry.
From S2P Require Import SequencerRegistryFacts BlockExecutor.

Section env.
Context {V DB : Type} `{BE : !BlockEvm V DB}.

(** The environment of a block does not change while it is executed. *)
Definition same_env (v v' : V) : Prop :=
  evm_spec v' = evm_spec v ∧ env_timestamp v' = env_timestamp v ∧
  env_number v' = env_number v ∧ env_gas_limit v' = env_gas_limit v.

#[export] Instance same_env_preorder : PreOrder same_env.
Proof. split; [by intros v|]. intros v1 v2 v3 (?&?&?&?) (?&?&?&?). split_and!; congruence. Qed.
End env.

Class BlockEvmLaws {V DB : Type} (BE : BlockEvm V DB) `{VW : !BlockView DB} := {
  evm_system_address : V → Address;
  db_with_db d v : evm_db (evm_with_db d v) = d;
  env_with_db d v : same_env v (evm_with_db d v);
  set_address_db a v : evm_db (evm_set_system_address a v) = evm_db v;
  set_address_env a v : same_env v (evm_set_system_address a v);
  set_address_get a v : evm_system_address (evm_set_system_address a v) = a;
  call_reads caller contract data v v' r :
    transact_system_call caller contract data v = Some (v', r) →
    only_read (evm_db v) (evm_db v') ∧ same_env v v';
  call_gas_reads caller contract data gas v v' r :
    transact_system_call_with_gas_limit caller contract data gas v = Some (v', r) →
    only_read (evm_db v) (evm_db v') ∧ same_env v v';
  execute_reads e v v' r :
    execute_transaction e v = Some (v', r) → only_read (evm_db v) (evm_db v') ∧ same_env v v';
}.

(** A receipt carries the gas it is built with. *)
Class ReceiptLaws {T R L : Type} (HR : ReceiptBuilder T R L) := {
  build_receipt_gas t r g st rc : build_receipt t r g st = Some rc → cumulative_gas_used rc = g;
  deposit_receipt_gas ok g l v n : cumulative_gas_used (build_deposit_receipt ok g l v n) = g;
}.

(** The hook that writes everything down. *)
Definition hook_log : Type := list (StateChangeSource * EvmState).
#[export] Instance log_hook : StateHook hook_log := {|
  on_state_hook source state log := log ++ [(source, state)];
|}.

Section executor.
Context `{Rv : Revm} `{RS : RevmState} `{HA : Artifacts} {DB V : Type} `{B : !BlockState DB}.
Context `{BE : !BlockEvm V DB} `{VW : !BlockView DB} `{HL : !BlockStateLaws DB}.
Context `{HE : !BlockEvmLaws BE} {T : Type} `{HT : !Tx2718 T tx_env}.
Context `{HR : !ReceiptBuilder T exec_result logs_t} `{HRL : !ReceiptLaws HR}.
Context (apply_calldata : Bytes) (b256_bytes : Z → Bytes).
Context (HISTORY_STORAGE_ADDRESS BEACON_ROOTS_ADDRESS : Address).
Context (increments : Hardforks → V → list (Address * Z)).

Local Notation executor := (MegaBlockExecutor (V := V) (H := hook_log) (HR := HR)).
Local Notation error := (ExecError db_error evm_error).
Local Notation outcome := (BlockMegaTransactionOutcome T exec_result).
Implicit Types ex : executor.

Definition db_of ex : DB := evm_db (ex_evm ex).

(** * Steps that only read *)

(** Everything but the cache of the database is as it was. *)
Record ex_reads ex ex' : Prop := mkReads {
  er_db : only_read (db_of ex) (db_of ex');
  er_env : same_env (ex_evm ex) (ex_evm ex');
  er_hardforks : ex_hardforks ex' = ex_hardforks ex;
  er_ctx : ex_ctx ex' = ex_ctx ex;
  er_hook : ex_hook ex' = ex_hook ex;
  er_limiter : ex_block_limiter ex' = ex_block_limiter ex;
  er_receipts : ex_receipts ex' = ex_receipts ex;
}.

#[export] Instance ex_reads_preorder : PreOrder ex_reads.
Proof.
  split; [intros ex; by split|]. intros ex1 ex2 ex3 [] []. split; try congruence; by etransitivity.
Qed.

(** A computation that only reads, whatever its result. *)
Abbreviation reading m := (steps ex_reads m).

Lemma reading_lift {A} (x : result A error) : reading (lift_result x).
Proof. destruct x; eauto with steps typeclass_instances. Qed.

Lemma reading_on_evm {A E'} (from : E' → error) (m : fallible V E' A) :
  (∀ v v' r, m v = Some (v', r) → only_read (evm_db v) (evm_db v') ∧ same_env v v') →
  reading (on_evm from m).
Proof.
  intros Hm ex ex' r H. destruct (zoom_some _ _ _ _ _ _ _ H) as (v & r1 & H1 & -> & _).
  destruct (Hm _ _ _ H1) as [Hd Hv]. by split.
Qed.

Lemma reading_on_db {A E'} (from : E' → error) (m : fallible DB E' A) :
  (∀ d d' r, m d = Some (d', r) → only_read d d') → reading (on_db from m).
Proof.
  intros Hm ex ex' r H. destruct (zoom_some _ _ _ _ _ _ _ H) as (d & r1 & H1 & -> & _).
  split; try done; [|apply env_with_db]. unfold db_of. simpl. rewrite db_with_db. by eapply Hm.
Qed.

#[local] Hint Resolve reading_lift reading_on_evm reading_on_db : steps.

Lemma load_reads a (d d' : DB) r : load_cache_account a d = (d', r) → only_read d d'.
Proof. intros H. by destruct (load_inv _ _ _ _ H). Qed.

Lemma transact_call_reads rex5 contract data v v' r :
  transact_call rex5 contract data v = Some (v', r) →
  only_read (evm_db v) (evm_db v') ∧ same_env v v'.
Proof. destruct rex5; [apply call_gas_reads|apply call_reads]. Qed.

(** * The pre-block work reads *)

Lemma map_call_reads {A} from (m : fallible V evm_error A) v v' r :
  (∀ v v' r, m v = Some (v', r) → only_read (evm_db v) (evm_db v') ∧ same_env v v') →
  map_call from m v = Some (v', r) → only_read (evm_db v) (evm_db v') ∧ same_env v v'.
Proof.
  intros Hm H. destruct (zoom_some _ _ _ _ _ _ _ H) as (v1 & r1 & H1 & -> & _). by eapply Hm.
Qed.

(** The shape of both EIP calls. *)
Lemma eip_call_reads from rex5 contract data v v' r :
  fbind (map_call from (transact_call rex5 contract data)) (λ res, fret (Some res)) v = Some (v', r) →
  only_read (evm_db v) (evm_db v') ∧ same_env v v'.
Proof.
  intros H. destruct (fbind_some _ _ _ _ _ H) as (v1 & [x|e] & H1 & H2).
  - injection H2 as <- _. eapply map_call_reads; [|done]. apply transact_call_reads.
  - destruct H2 as [-> _]. eapply map_call_reads; [|done]. apply transact_call_reads.
Qed.

Lemma blockhashes_reads hf hash v v' r :
  transact_blockhashes_contract_call b256_bytes HISTORY_STORAGE_ADDRESS hf hash v = Some (v', r) →
  only_read (evm_db v) (evm_db v') ∧ same_env v v'.
Proof.
  unfold transact_blockhashes_contract_call. destruct (negb _); [by intros [= <- _]|].
  destruct (_ =? 0); [by intros [= <- _]|]. apply eip_call_reads.
Qed.

Lemma beacon_root_reads hf root v v' r :
  transact_beacon_root_contract_call b256_bytes BEACON_ROOTS_ADDRESS hf root v = Some (v', r) →
  only_read (evm_db v) (evm_db v') ∧ same_env v v'.
Proof.
  unfold transact_beacon_root_contract_call. destruct (negb _); [by intros [= <- _]|].
  destruct root as [root|]; [|by intros [= <- _]].
  destruct (_ =? 0); [destruct (negb _); by intros [= <- _]|]. apply eip_call_reads.
Qed.

Lemma apply_call_reads {D} v v' (r : result _ (ExecError D evm_error)) :
  transact_apply_pending_changes apply_calldata v = Some (v', r) →
  only_read (evm_db v) (evm_db v') ∧ same_env v v'.
Proof.
  unfold transact_apply_pending_changes. intros H. bind_inv H.
  repeat case_match; simplify_eq/=; by eapply call_gas_reads.
Qed.

Lemma transact_deploy_reads spec : steps only_read (transact_deploy (DB := DB) spec).
Proof. intros d d' r. apply transact_deploy_only_read. Qed.

Lemma due_reads n : steps only_read (is_apply_pending_changes_due (DB := DB) (E := evm_error) n).
Proof. intros d d' r H. by destruct (due_some _ _ _ _ H). Qed.

Lemma deploy_flat_reads specs : reading (deploy_flat (HR := HR) specs).
Proof.
  induction specs as [|spec specs IH]; simpl; [by apply steps_fret, _|].
  apply steps_bind; [apply _|apply reading_on_db, transact_deploy_reads|intros st].
  apply steps_bind; [apply _|done|intros outs; by apply steps_fret, _].
Qed.

Lemma push_deploy_reads ts n params :
  reading (push_deploy_sequencer_registry_outcome (HR := HR) ts n params).
Proof.
  intros ex. refine (steps_bind _ _ _ _ _ ex); [apply reading_on_db, deploy_registry_reads|].
  intros o. by apply steps_fret, _.
Qed.

Lemma apply_pending_reads n : reading (apply_pending (HR := HR) apply_calldata n).
Proof.
  apply steps_bind; [apply _|apply reading_on_db, due_reads|intros [[] st]]; [|by apply steps_fret, _].
  apply steps_bind; [apply _| |intros res; by apply steps_fret, _].
  apply reading_on_evm. intros v v' r. apply apply_call_reads.
Qed.

Lemma registry_changes_reads ts n : reading (registry_changes (HR := HR) apply_calldata ts n).
Proof.
  intros ex. refine (steps_bind _ _ _ _ _ ex); [by apply steps_ok_or, _|intros params].
  apply steps_bind; [apply _| |intros before].
  { destruct (negb _); [apply push_deploy_reads|by apply steps_fret, _]. }
  apply steps_bind; [apply _|apply apply_pending_reads|intros applied].
  apply steps_bind; [apply _| |intros after; by apply steps_fret, _].
  destruct (is_active _ _ _); [apply push_deploy_reads|by apply steps_fret, _].
Qed.

Lemma clear_flag_reads : reading (on_db (HR := HR) OtherError (fmodify (set_state_clear_flag true))).
Proof. apply reading_on_db. intros d d' r [= <- _]. apply clear_flag_only_read. Qed.

Lemma pre_execution_changes_reads :
  reading (pre_execution_changes (HR := HR) apply_calldata b256_bytes HISTORY_STORAGE_ADDRESS
             BEACON_ROOTS_ADDRESS).
Proof.
  apply steps_bind; [apply _|apply clear_flag_reads|intros _].
  do 3 (apply steps_bind; [apply _|by apply steps_fgets, _|intros ?]).
  apply steps_bind; [apply _|apply reading_on_evm; intros ???; apply blockhashes_reads|intros ?].
  apply steps_bind; [apply _|apply reading_lift|intros ?].
  apply steps_bind; [apply _|apply reading_on_evm; intros ???; apply beacon_root_reads|intros ?].
  apply steps_bind; [apply _|apply reading_lift|intros ?].
  apply steps_bind; [apply _|apply deploy_flat_reads|intros ?].
  apply steps_bind; [apply _|by apply steps_fgets, _|intros ?].
  apply steps_bind; [apply _|by apply steps_unwrap, _|intros ?].
  apply steps_bind; [apply _| |intros ?; by apply steps_fret, _].
  destruct (is_active _ _ _); [apply registry_changes_reads|by apply steps_fret, _].
Qed.

(** * What a step commits, it tells the hook *)

Definition replay (log : hook_log) (d : DB) : DB := foldl (λ d e, state_commit (snd e) d) d log.

Lemma replay_app log log' d : replay (log ++ log') d = replay log' (replay log d).
Proof. apply foldl_app. Qed.

Lemma replay_respects log d d' : same_view d d' → same_view (replay log d) (replay log d').
Proof.
  revert d d'. induction log as [|e log IH]; intros d d' H; [done|]. simpl. by apply IH, commit_respects.
Qed.

(** The hook hears what the database gets, in the same order. *)
Definition logged ex ex' : Prop :=
  ∀ l, ex_hook ex = Some l → ∃ log,
    ex_hook ex' = Some (l ++ log) ∧ same_view (replay log (db_of ex)) (db_of ex').

#[export] Instance logged_preorder : PreOrder logged.
Proof.
  split.
  - intros ex l Hl. exists []. rewrite app_nil_r. by split.
  - intros ex1 ex2 ex3 H12 H23 l Hl. destruct (H12 l Hl) as (log & H1 & H2).
    destruct (H23 _ H1) as (log' & H3 & H4). exists (log ++ log'). rewrite app_assoc.
    split; [done|]. rewrite replay_app. etransitivity; [|exact H4]. by apply replay_respects.
Qed.

Lemma reads_logged ex ex' : ex_reads ex ex' → logged ex ex'.
Proof.
  intros H l Hl. exists []. rewrite app_nil_r, (er_hook _ _ H). split; [done|]. apply (er_db _ _ H).
Qed.

(** Notifying and committing one state. *)
Lemma notify_commit_logged source st ex : logged ex (commit_db st (notify source st ex)).
Proof.
  intros l Hl. exists [(source, st)]. simpl. rewrite Hl. split; [done|]. unfold db_of. simpl.
  by rewrite db_with_db.
Qed.

(** Steps that leave the counters and receipts alone. *)
Record ex_keeps ex ex' : Prop := mkKeeps {
  ek_logged : logged ex ex';
  ek_env : same_env (ex_evm ex) (ex_evm ex');
  ek_hardforks : ex_hardforks ex' = ex_hardforks ex;
  ek_ctx : ex_ctx ex' = ex_ctx ex;
  ek_limiter : ex_block_limiter ex' = ex_block_limiter ex;
  ek_receipts : ex_receipts ex' = ex_receipts ex;
}.

#[export] Instance ex_keeps_preorder : PreOrder ex_keeps.
Proof.
  split; [intros ex; by split|].
  intros ex1 ex2 ex3 [] []. split; try congruence; by etransitivity.
Qed.

Lemma reads_keeps ex ex' : ex_reads ex ex' → ex_keeps ex ex'.
Proof. intros H. split; [by apply reads_logged|apply H..]. Qed.

Lemma steps_reads_keeps {A} (m : fallible executor error A) : reading m → steps ex_keeps m.
Proof. intros H ex ex' r Hm. by eapply reads_keeps, H. Qed.

Lemma commit_one_keeps source st ex : ex_keeps ex (commit_db st (notify source st ex)).
Proof. split; [apply notify_commit_logged|apply env_with_db|done..]. Qed.

Lemma commit_outcomes_keeps outs : steps ex_keeps (commit_system_call_outcomes (HR := HR) outs).
Proof.
  intros ex ex' r [= <- _]. revert ex. induction outs as [|o outs IH]; intros ex; [done|]. simpl.
  etransitivity; [|apply IH]. apply commit_one_keeps.
Qed.

Lemma resolve_reads hf spec :
  steps only_read (resolve_system_address (DB := DB) (E := evm_error) hf spec).
Proof.
  destruct (is_enabled spec REX5) eqn:H5.
  - intros d d' r H. by destruct (resolve_some _ _ _ _ _ H5 H).
  - unfold resolve_system_address. rewrite H5. by apply steps_fret, _.
Qed.

Lemma apply_pre_keeps :
  steps ex_keeps (apply_pre_execution_changes (HR := HR) apply_calldata b256_bytes
                    HISTORY_STORAGE_ADDRESS BEACON_ROOTS_ADDRESS).
Proof.
  apply steps_bind; [apply _|apply steps_reads_keeps, pre_execution_changes_reads|intros outs].
  apply steps_bind; [apply _|apply commit_outcomes_keeps|intros _].
  do 2 (apply steps_bind; [apply _|by apply steps_fgets, _|intros ?]).
  apply steps_bind; [apply _|apply steps_reads_keeps, reading_on_db, resolve_reads|intros [a o]].
  apply steps_bind; [apply _| |intros _].
  - intros ex ex' r [= <- _]. destruct o; [apply commit_one_keeps|done].
  - intros ex ex' r [= <- _]. split; try done; [|apply set_address_env].
    intros l Hl. exists []. rewrite app_nil_r. split; [done|]. unfold db_of. simpl.
    by rewrite set_address_db.
Qed.

Lemma balance_increments_reads l st : steps only_read (balance_increments (DB := DB) l st).
Proof.
  revert st. induction l as [|[a inc] l IH]; intros st; simpl; [by apply steps_fret, _|].
  destruct (inc =? 0); [apply IH|]. apply steps_bind; [apply _| |intros i; apply IH].
  apply steps_total. intros d. apply load_only_read.
Qed.

Lemma post_execution_changes_reads : reading (post_execution_changes (HR := HR) increments).
Proof.
  intros ex. refine (steps_bind _ _ _ _ _ ex); [|intros o; by apply steps_fret, _].
  apply reading_on_db. apply steps_bind; [apply _|apply balance_increments_reads|].
  intros st. by apply steps_fret, _.
Qed.

Lemma block_finish_keeps : steps ex_keeps (finish (HR := HR) increments).
Proof.
  apply steps_bind; [apply _|apply steps_reads_keeps, post_execution_changes_reads|intros outs].
  apply steps_bind; [apply _|apply commit_outcomes_keeps|intros _]. by apply steps_fgets, _.
Qed.

Lemma check_limits_reads tx s d : reading (check_limits (HR := HR) tx s d).
Proof. by intros ex ex' r [= <- _]. Qed.

Lemma run_transaction_reads tx s d : reading (run_transaction_with_sizes (HR := HR) tx s d).
Proof.
  apply steps_bind; [apply _|apply check_limits_reads|intros _].
  apply steps_bind; [apply _| |intros dep].
  { unfold load_depositor. destruct (is_deposit_tx tx); [|by apply steps_fret, _].
    apply steps_bind; [apply _| |intros i; by apply steps_fret, _].
    apply reading_on_db, steps_total. intros x. apply load_only_read. }
  apply steps_bind; [apply _| |intros o; by apply steps_fret, _].
  apply reading_on_evm. intros v v' r. apply execute_reads.
Qed.

Lemma run_transaction_keeps tx s d : steps ex_keeps (run_transaction_with_sizes (HR := HR) tx s d).
Proof. apply steps_reads_keeps, run_transaction_reads. Qed.

(** * Committing a transaction *)

Lemma commit_transaction_some (o : outcome) ex ex' r :
  commit_transaction_outcome (HR := HR) o ex = Some (ex', r) →
  match r with
  | Ok g =>
      let l := fst (post_execution_update (limiter_outcome o) (ex_block_limiter ex)) in
      pre_execution_check (o_hash (limiter_outcome o)) (o_gas_limit (limiter_outcome o))
        (o_tx_size (limiter_outcome o)) (o_da_size (limiter_outcome o))
        (o_is_deposit (limiter_outcome o)) (ex_block_limiter ex) = Ok tt ∧
      g = o_gas_used (limiter_outcome o) ∧ ex_block_limiter ex' = l ∧
      ex_receipts ex' = ex_receipts ex ++ [make_receipt o (block_gas_used l)] ∧
      logged ex ex'
  | Err _ => ex' = ex
  end.
Proof.
  unfold commit_transaction_outcome. intros H.
  apply fbind_some in H as (ex1 & [[]|e] & H1 & H);
    unfold check_limits in H1; injection H1 as <- H1.
  2: { by destruct H as [-> ->]. }
  destruct (pre_execution_check _ _ _ _ _ _) as [[]|] eqn:Hp; [|done]. clear H1.
  cbv [fbind fmodify fret post_execution_update] in H. cbn [mbind option_bind] in H.
  injection H as <- <-. split_and!; try done.
  intros l Hl. eexists [(_, _)]. simpl. rewrite Hl. split; [done|]. unfold db_of. simpl.
  by rewrite db_with_db.
Qed.

(** The database gets the state of the outcome, and the block stays the same block. *)
Lemma commit_transaction_db (o : outcome) ex ex' g :
  commit_transaction_outcome (HR := HR) o ex = Some (ex', Ok g) →
  db_of ex' = state_commit (mo_state (bo_inner o)) (db_of ex) ∧ same_env (ex_evm ex) (ex_evm ex') ∧
  ex_hardforks ex' = ex_hardforks ex ∧ ex_ctx ex' = ex_ctx ex.
Proof.
  unfold commit_transaction_outcome. intros H. fbind_inv H. unfold check_limits in Hm.
  injection Hm as <- _. cbv [fbind fmodify fret post_execution_update] in H.
  cbn [mbind option_bind] in H. injection H as <- _. split; [|split; [apply env_with_db|done]].
  unfold db_of. simpl. by rewrite db_with_db.
Qed.

(** * A block *)

(** Everything a client does with an executor, and the outcomes committed so far.  Running and
    committing are separate, so transactions may be run in any order and committed in another. *)
Inductive executes (ex0 : executor) : list outcome → executor → Prop :=
  | exec_start : executes ex0 [] ex0
  | exec_pre cs ex ex' r :
      executes ex0 cs ex →
      apply_pre_execution_changes apply_calldata b256_bytes HISTORY_STORAGE_ADDRESS
        BEACON_ROOTS_ADDRESS ex = Some (ex', r) → executes ex0 cs ex'
  | exec_run cs ex ex' tx tx_size da_size r :
      executes ex0 cs ex → run_transaction_with_sizes tx tx_size da_size ex = Some (ex', r) →
      executes ex0 cs ex'
  | exec_commit cs ex ex' o r :
      executes ex0 cs ex → commit_transaction_outcome o ex = Some (ex', r) →
      executes ex0 (if is_ok_result r then cs ++ [o] else cs) ex'
  | exec_finish cs ex ex' r :
      executes ex0 cs ex → finish increments ex = Some (ex', r) → executes ex0 cs ex'.

(** The receipts of a block. *)
Definition receipts_of (limits : BlockLimits) (cs : list outcome) (receipts : list Receipt) : Prop :=
  length receipts = length cs ∧
  ∀ i rc, receipts !! i = Some rc →
    cumulative_gas_used rc =
      saturated o_gas_used (limiter_outcome <$> take (S i) cs) 0.

Lemma make_receipt_gas (o : outcome) g : cumulative_gas_used (make_receipt (HR := HR) o g) = g.
Proof.
  unfold make_receipt. destruct (build_receipt _ _ _ _) eqn:Hb; [by eapply build_receipt_gas|].
  apply deposit_receipt_gas.
Qed.

(** The gas counter of an admitted block is the sum of what was used. *)
Lemma run_block_gas limits (cs : list outcome) b :
  Forall outcome_ok (limiter_outcome <$> cs) →
  run_block (limiter_outcome <$> cs) (limiter_new limits) = Ok b →
  block_gas_used b = saturated o_gas_used (limiter_outcome <$> cs) 0.
Proof.
  intros Hok Hrun.
  assert (counters_ok (limiter_new limits)) as Hc by (repeat constructor; discriminate).
  destruct (run_block_sum _ _ _ Hc Hok Hrun) as (_ & _ & Hsum).
  apply (Hsum (block_gas_limit, block_gas_used, o_gas_used)). unfold soft_limits, hard_limits.
  set_solver.
Qed.

Record block_inv (limits : BlockLimits) ex0 (cs : list outcome) ex : Prop := mkBlockInv {
  bi_limiter : run_block (limiter_outcome <$> cs) (limiter_new limits) = Ok (ex_block_limiter ex);
  bi_receipts : receipts_of limits cs (ex_receipts ex);
  bi_logged : logged ex0 ex;
}.

Lemma block_inv_keeps limits ex0 cs ex ex' :
  block_inv limits ex0 cs ex → ex_keeps ex ex' → block_inv limits ex0 cs ex'.
Proof.
  intros [Hl Hr Hlog] Hk. split.
  - by rewrite (ek_limiter _ _ Hk).
  - by rewrite (ek_receipts _ _ Hk).
  - etransitivity; [done|]. apply Hk.
Qed.

Lemma block_inv_commit limits ex0 cs ex ex' o g :
  Forall outcome_ok (limiter_outcome <$> (cs ++ [o])) →
  block_inv limits ex0 cs ex → commit_transaction_outcome o ex = Some (ex', Ok g) →
  block_inv limits ex0 (cs ++ [o]) ex'.
Proof.
  intros Hok [Hl Hr Hlog] H. pose proof (commit_transaction_some _ _ _ _ H) as Hc.
  cbv zeta in Hc. destruct Hc as (Hp & _ & Hlim & Hrec & Hlg).
  assert (run_block (limiter_outcome <$> (cs ++ [o])) (limiter_new limits) =
    Ok (fst (post_execution_update (limiter_outcome o) (ex_block_limiter ex)))) as Hrun.
  { rewrite fmap_app, run_block_app, Hl. simpl. simpl in Hp. by rewrite Hp. }
  split.
  - by rewrite Hlim.
  - destruct Hr as [Hlen Hr]. rewrite Hrec. split; [by rewrite !length_app, Hlen|].
    intros i rc Hi. apply lookup_app_Some in Hi as [Hi|[Hge Hi]].
    + rewrite (Hr i rc Hi). do 2 f_equal. rewrite take_app_le; [done|].
      apply lookup_lt_Some in Hi. lia.
    + destruct (i - length (ex_receipts ex))%nat eqn:Hd; [|done]. injection Hi as <-.
      rewrite make_receipt_gas.
      etransitivity; [exact (run_block_gas limits (cs ++ [o]) _ Hok Hrun)|].
      rewrite take_ge; [done|]. rewrite length_app. simpl. lia.
  - by etransitivity.
Qed.

Lemma executes_inv limits ex0 cs ex :
  ex_block_limiter ex0 = limiter_new limits → ex_receipts ex0 = [] →
  executes ex0 cs ex → Forall outcome_ok (limiter_outcome <$> cs) → block_inv limits ex0 cs ex.
Proof.
  intros H1 H2 Hex. induction Hex as [|cs ex ex' r _ IH H|cs ex ex' tx s d r _ IH H
    |cs ex ex' o r _ IH H|cs ex ex' r _ IH H]; intros Hok.
  - split; [by rewrite H1| |done]. split; [by rewrite H2|]. intros i rc. by rewrite H2.
  - eapply block_inv_keeps; [by apply IH|]. by eapply apply_pre_keeps.
  - eapply block_inv_keeps; [by apply IH|]. by eapply run_transaction_keeps.
  - destruct r as [g|e]; simpl in *.
    + eapply block_inv_commit; [done| |done]. apply IH. rewrite fmap_app in Hok.
      by apply Forall_app in Hok as [? _].
    + pose proof (commit_transaction_some _ _ _ _ H) as ->. by apply IH.
  - eapply block_inv_keeps; [by apply IH|]. by eapply block_finish_keeps.
Qed.

Lemma finish_result ex ex' res :
  finish (HR := HR) increments ex = Some (ex', Ok res) →
  ber_receipts res = ex_receipts ex ∧
  ber_gas_used res = default 0 (cumulative_gas_used <$> last (ex_receipts ex)).
Proof.
  intros H. fbind_inv H. fbind_inv H. injection H as _ <-. simpl.
  rewrite (ek_receipts _ _ (commit_outcomes_keeps _ _ _ _ Hm0)).
  by rewrite (er_receipts _ _ (post_execution_changes_reads _ _ _ Hm)).
Qed.

Lemma receipts_last_gas limits cs receipts :
  receipts_of limits cs receipts →
  default 0 (cumulative_gas_used <$> last receipts) =
    saturated o_gas_used (limiter_outcome <$> cs) 0.
Proof.
  intros [Hlen Hr]. rewrite last_lookup.
  destruct (receipts !! pred (length receipts)) as [rc|] eqn:Hi; simpl.
  - rewrite (Hr _ _ Hi). do 2 f_equal. apply take_ge. apply lookup_lt_Some in Hi. lia.
  - apply lookup_ge_None in Hi. assert (length cs = 0%nat) as Hz by lia.
    apply nil_length_inv in Hz as ->. done.
Qed.

(** C21: a block's books balance.  Whatever a client does with a fresh executor, running and
    committing transactions in any order and with any failures, the block's counters are those of
    checking and adding up the committed transactions one after the other; there is one receipt
    per committed transaction, with the gas of the block up to it; the gas the finished block
    reports is what its transactions used; and replaying what the state hook was told, on the
    database the block started from, gives the database it ended with. *)
Theorem block_books_balance limits ex0 cs ex :
  ex_block_limiter ex0 = limiter_new limits → ex_receipts ex0 = [] → ex_hook ex0 = Some [] →
  executes ex0 cs ex → Forall outcome_ok (limiter_outcome <$> cs) →
  run_block (limiter_outcome <$> cs) (limiter_new limits) = Ok (ex_block_limiter ex) ∧
  receipts_of limits cs (ex_receipts ex) ∧
  (∃ log, ex_hook ex = Some log ∧ same_view (replay log (db_of ex0)) (db_of ex)) ∧
  (∀ ex' res, finish increments ex = Some (ex', Ok res) →
     ber_receipts res = ex_receipts ex ∧
     ber_gas_used res = saturated o_gas_used (limiter_outcome <$> cs) 0).
Proof.
  intros H1 H2 H3 Hex Hok. destruct (executes_inv limits ex0 cs ex H1 H2 Hex Hok) as [Hl Hr Hlog].
  split_and!; [done|done| |].
  - destruct (Hlog [] H3) as (log & Hlog1 & Hlog2). by exists log.
  - intros ex' res Hf. destruct (finish_result _ _ _ Hf) as [-> ->]. split; [done|].
    by eapply receipts_last_gas.
Qed.
End executor.
