(* ===== verification/PreBlock.v ===== *)
(** The work before a block: every system contract of the fork is in place, the registry has
    applied what is due, and the system address of the block is the registry's.

    [SystemCallLaws] is what the pre-block work relies on of the contracts it calls: a call
    touches no other system contract, and the registry's bytecode behaves as its source,
    [RegistryContract]. *)

From S2P Require Import Prelude Spec Revm Access SystemTx Intercept EvmState Hardfork BlockLimit.
From S2P Require Import Effects SystemContracts SystemContractsFacts BlockEvm SequencerRegistry.
From S2P Require Import RegistryContract RegistryContractFacts SequencerRegistryFacts.
From S2P Require Import BlockExecutor BlockExecutorFacts.

Definition system_contracts : list Address :=
  [ORACLE_CONTRACT_ADDRESS; HIGH_PRECISION_TIMESTAMP_ORACLE_ADDRESS; KEYLESS_DEPLOY_ADDRESS;
   ACCESS_CONTROL_ADDRESS; LIMIT_CONTROL_ADDRESS; SEQUENCER_REGISTRY_ADDRESS].

(** The code hashes the deployments install. *)
Definition system_code_hashes : list Z :=
  [ORACLE_CONTRACT_CODE_HASH; ORACLE_CONTRACT_CODE_HASH_REX2; ORACLE_CONTRACT_CODE_HASH_REX5;
   HIGH_PRECISION_TIMESTAMP_ORACLE_CODE_HASH; KEYLESS_DEPLOY_CODE_HASH; ACCESS_CONTROL_CODE_HASH;
   LIMIT_CONTROL_CODE_HASH; SEQUENCER_REGISTRY_CODE_HASH; SEQUENCER_REGISTRY_CODE_HASH_REX6].

(** An untouched entry, or none. *)
Definition untouched (st : EvmState) (a : Address) : Prop :=
  ∀ acc, st !! a = Some acc → Touched (acc_status acc) = false.

Section laws.
Context `{Rv : Revm} {V DB : Type} `{BE : !BlockEvm V DB} `{VW : !BlockView DB}.

(** The state of a call that applied the pending changes to a registry. *)
Record applies_changes (d : DB) (n : Z) (r : Registry) (st : EvmState) (acc : Account) : Prop :=
  mkApplies {
    ac_entry : st !! SEQUENCER_REGISTRY_ADDRESS = Some acc;
    ac_touched : Touched (acc_status acc) = true;
    ac_alive : SelfDestructed (acc_status acc) = false;
    ac_old : Created (acc_status acc) = false;
    ac_info : account_of d SEQUENCER_REGISTRY_ADDRESS = Some (acc_info acc);
    ac_slots :
      stores (λ k, default (storage_of d SEQUENCER_REGISTRY_ADDRESS k) (written acc k))
        (applyPendingChanges n r);
  }.

Class SystemCallLaws (apply_calldata : Bytes) := {
  call_confined contract data v v' res st a :
    a ∈ system_contracts → a ≠ contract →
    transact_system_call EIP4788_SYSTEM_ADDRESS contract data v = Some (v', Ok (res, st)) →
    untouched st a;
  call_gas_confined contract data gas v v' res st a :
    a ∈ system_contracts → a ≠ contract →
    transact_system_call_with_gas_limit EIP4788_SYSTEM_ADDRESS contract data gas v =
      Some (v', Ok (res, st)) → untouched st a;
  (** [applyPendingChanges()] of the deployed registry. *)
  registry_call gas v v' res st r i :
    represents (evm_db v) r →
    account_of (evm_db v) SEQUENCER_REGISTRY_ADDRESS = Some i →
    code_hash i ∈ [SEQUENCER_REGISTRY_CODE_HASH; SEQUENCER_REGISTRY_CODE_HASH_REX6] →
    transact_system_call_with_gas_limit EIP4788_SYSTEM_ADDRESS SEQUENCER_REGISTRY_ADDRESS
      apply_calldata gas v = Some (v', Ok (res, st)) →
    is_success res = true → ∃ acc, applies_changes (evm_db v) (env_number v) r st acc;
}.
End laws.

(** The errors of [resolve_system_address] that its comments call unreachable. *)
Definition unreachable_error {D E} (e : ExecError D E) : bool :=
  match e with
  | BlockHashContractCall RegistryMissing
  | BlockHashContractCall (CodeHashMismatch _ _)
  | BlockHashContractCall SystemAddressZero => true
  | _ => false
  end.

Section pre_block.
Context `{Rv : Revm} `{RS : RevmState} `{HA : Artifacts} {DB V : Type} `{B : !BlockState DB}.
Context `{BE : !BlockEvm V DB} `{VW : !BlockView DB} `{HL : !BlockStateLaws DB}.
Context `{HE : !BlockEvmLaws BE} {T : Type} `{HT : !Tx2718 T tx_env}.
Context `{HR : !ReceiptBuilder T exec_result logs_t}.
Context (apply_calldata : Bytes) `{HC : !SystemCallLaws apply_calldata} (b256_bytes : Z → Bytes).
Context (HISTORY_STORAGE_ADDRESS BEACON_ROOTS_ADDRESS : Address).
(** The EIP contracts are other contracts, and no system contract has empty code. *)
Hypothesis history_other : HISTORY_STORAGE_ADDRESS ∉ system_contracts.
Hypothesis beacon_other : BEACON_ROOTS_ADDRESS ∉ system_contracts.
Hypothesis code_hashes : KECCAK_EMPTY ∉ system_code_hashes.

Local Notation executor := (MegaBlockExecutor (V := V) (H := hook_log) (HR := HR)).
Local Notation error := (ExecError db_error evm_error).
Local Notation REG := SEQUENCER_REGISTRY_ADDRESS.
Implicit Types (ex : executor) (d : DB) (r : Registry).

(** * Commits *)

Definition leaves (a : Address) (st : EvmState) : Prop := ∀ d, same_at d (state_commit st d) a.

Lemma untouched_leaves st a : untouched st a → leaves a st.
Proof.
  intros H d. destruct (st !! a) as [acc|] eqn:Ha; [|by apply commit_absent].
  eapply commit_untouched; [done|]. by apply H.
Qed.

Definition commits (outs : list MegaSystemCallOutcome) d : DB :=
  foldl (λ d o, state_commit (so_state o) d) d outs.

Lemma commits_app o1 o2 d : commits (o1 ++ o2) d = commits o2 (commits o1 d).
Proof. apply foldl_app. Qed.

Lemma commits_leave a outs d :
  Forall (λ o, leaves a (so_state o)) outs → same_at d (commits outs d) a.
Proof.
  intros H. revert d. induction H as [|o outs Ho _ IH]; intros d; [done|]. simpl.
  eapply same_at_trans; [apply Ho|apply IH].
Qed.

Lemma commits_cache outs d : cache_grows d (commits outs d).
Proof.
  revert d. induction outs as [|o outs IH]; intros d; [by intros a|]. simpl.
  intros a Ha. by apply IH, commit_cache.
Qed.

Lemma commit_outcomes_db outs ex ex' u :
  commit_system_call_outcomes (HR := HR) outs ex = Some (ex', Ok u) →
  db_of ex' = commits outs (db_of ex) ∧ ex_hardforks ex' = ex_hardforks ex.
Proof.
  intros [= <- _]. revert ex. induction outs as [|o outs IH]; intros ex; [done|]. simpl.
  destruct (IH (commit_system_call_outcome o ex)) as [-> ->]. split; [|done].
  unfold db_of. simpl. by rewrite db_with_db.
Qed.

(** * The EIP calls *)

Lemma transact_call_confined rex5 contract data v v' res st a :
  contract ∉ system_contracts → a ∈ system_contracts →
  transact_call rex5 contract data v = Some (v', Ok (res, st)) → untouched st a.
Proof.
  intros Hc Ha H. assert (a ≠ contract) as Hne by (by intros ->).
  destruct rex5; [by eapply call_gas_confined|by eapply call_confined].
Qed.

Lemma eip_call_confined from rex5 contract data v v' res st a :
  contract ∉ system_contracts → a ∈ system_contracts →
  fbind (map_call from (transact_call rex5 contract data)) (λ res, fret (Some res)) v =
    Some (v', Ok (Some (res, st))) → untouched st a.
Proof.
  intros Hc Ha H. fbind_inv H. destruct (zoom_ok _ _ _ _ _ _ _ Hm) as (v1 & Hm1 & _).
  injection H as _ ->. by eapply transact_call_confined.
Qed.

Lemma eip_outcome_leaves is_rex_5 failure source o outs a :
  eip_outcome is_rex_5 failure source o = Ok outs →
  (∀ res st, o = Some (res, st) → untouched st a) → Forall (λ o, leaves a (so_state o)) outs.
Proof.
  intros H Ho. destruct o as [[res st]|]; simpl in H.
  - destruct (_ && _); [done|]. injection H as <-. constructor; [|done].
    apply untouched_leaves. by eapply Ho.
  - by injection H as <-.
Qed.

Lemma blockhashes_confined hf hash v v' res st a :
  a ∈ system_contracts →
  transact_blockhashes_contract_call b256_bytes HISTORY_STORAGE_ADDRESS hf hash v =
    Some (v', Ok (Some (res, st))) → untouched st a.
Proof.
  intros Ha. unfold transact_blockhashes_contract_call. destruct (negb _); [done|].
  destruct (_ =? 0); [done|]. by apply eip_call_confined.
Qed.

Lemma beacon_root_confined hf root v v' res st a :
  a ∈ system_contracts →
  transact_beacon_root_contract_call b256_bytes BEACON_ROOTS_ADDRESS hf root v =
    Some (v', Ok (Some (res, st))) → untouched st a.
Proof.
  intros Ha. unfold transact_beacon_root_contract_call. destruct (negb _); [done|].
  destruct root as [root|]; [|done]. destruct (_ =? 0); [by destruct (negb _)|].
  by apply eip_call_confined.
Qed.

(** * The flat contracts *)

Lemma on_db_ok {A E'} (from : E' → error) (m : fallible DB E' A) ex ex' x :
  on_db (HR := HR) from m ex = Some (ex', Ok x) → m (db_of ex) = Some (db_of ex', Ok x).
Proof.
  intros H. destruct (zoom_ok _ _ _ _ _ _ _ H) as (d & Hd & ->). unfold db_of in *. simpl.
  by rewrite db_with_db.
Qed.

Definition deploy_entry d (spec : SystemContractSpec) : MegaSystemCallOutcome :=
  deploy_outcome {[sc_address spec := deploy_account spec (account_of d (sc_address spec))]}.

Lemma deploy_flat_ok specs ex ex' outs :
  deploy_flat (HR := HR) specs ex = Some (ex', Ok outs) →
  outs = deploy_entry (db_of ex) <$> specs ∧
  Forall (λ spec, cached (db_of ex') (sc_address spec)) specs.
Proof.
  revert ex outs. induction specs as [|spec specs IH]; intros ex outs H; simpl in H.
  { by injection H as _ <-. }
  fbind_inv H. fbind_inv H. injection H as <- <-.
  pose proof (reading_on_db _ _ (transact_deploy_reads spec) _ _ _ Hm) as Hr.
  apply on_db_ok in Hm. destruct (transact_deploy_ok _ _ _ _ Hm) as (_ & Hc & ->).
  pose proof (deploy_flat_reads _ _ _ _ Hm0) as Hr0. destruct (IH _ _ Hm0) as [-> Hcs].
  split; [|constructor; [by apply (er_db _ _ Hr0)|done]]. simpl. f_equal.
  apply list_fmap_ext. intros i spec' _. unfold deploy_entry.
  by rewrite (proj1 (proj1 (er_db _ _ Hr) _)).
Qed.

Lemma flat_specs_wf {P} (hf : MegaHardforkConfig P) ts :
  let specs := flat_system_contract_specs hf ts in
  NoDup (sc_address <$> specs) ∧
  Forall (λ s, sc_address s ∈ system_contracts ∧ sc_address s ≠ REG ∧
               sc_code_hash s ∈ system_code_hashes) specs.
Proof.
  unfold flat_system_contract_specs, oracle_spec, high_precision_timestamp_oracle_spec,
    keyless_deploy_spec, access_control_spec, limit_control_spec.
  destruct (is_active MiniRex ts hf), (is_active Rex2 ts hf), (is_active Rex4 ts hf),
    (is_active Rex5 ts hf); simpl;
    (split; [apply (bool_decide_unpack _); vm_compute; exact I|]);
    repeat apply Forall_cons_2; try apply Forall_nil_2;
    (split; [apply (bool_decide_unpack _); vm_compute; exact I|]);
    (split; [done|apply (bool_decide_unpack _); vm_compute; exact I]).
Qed.

Lemma system_hash_ok h : h ∈ system_code_hashes → h ≠ KECCAK_EMPTY ∧ h ≠ 0.
Proof.
  intros Hh. split; [by intros ->|]. intros ->.
  revert Hh. apply (bool_decide_unpack _). vm_compute. exact I.
Qed.

Lemma same_at_installed spec d d' :
  same_at d d' (sc_address spec) → installed spec d → installed spec d'.
Proof. intros [Ha _] (i & Hi & Hh). exists i. by rewrite Ha. Qed.

Lemma flat_commits d0 specs d :
  NoDup (sc_address <$> specs) →
  Forall (λ s, sc_code_hash s ∈ system_code_hashes) specs →
  Forall (λ s, cached d (sc_address s) ∧
               account_of d (sc_address s) = account_of d0 (sc_address s)) specs →
  Forall (λ s, installed s (commits (deploy_entry d0 <$> specs) d)) specs.
Proof.
  revert d. induction specs as [|spec specs IH]; intros d Hnd Hh Hd; [done|]. simpl in *.
  apply NoDup_cons in Hnd as [Hnin Hnd]. apply Forall_cons in Hh as [Hh Hhs].
  apply Forall_cons in Hd as [[Hc Ha] Hd].
  assert (∀ s, s ∈ specs → sc_address s ≠ sc_address spec) as Hne.
  { intros s Hs Heq. apply Hnin. rewrite <- Heq. by apply list_elem_of_fmap_2. }
  constructor.
  - destruct (system_hash_ok _ Hh) as [Hk Hz].
    destruct (commit_deploy_account spec (so_state (deploy_entry d0 spec)) d _ Hk Hz Hc
      (eq_sym Ha))
      as ((i & Hi & Hhash & _) & _); [apply lookup_singleton_eq|].
    eapply same_at_installed; [|exists i; split; [exact Hi|exact Hhash]].
    apply commits_leave, Forall_fmap, Forall_forall. intros s Hs d1.
    apply commit_singleton_other. apply not_eq_sym. by apply Hne.
  - apply IH; [done|done|]. apply Forall_forall. intros s Hs.
    destruct (proj1 (Forall_forall _ _) Hd s Hs) as [Hc' Ha'].
    split; [by apply commit_cache|].
    rewrite (proj1 (commit_singleton_other d (sc_address spec)
      (deploy_account spec (account_of d0 (sc_address spec))) (sc_address s) (Hne s Hs))). done.
Qed.

(** * The registry *)

Definition witness_entry (w : Account) : MegaSystemCallOutcome := deploy_outcome {[REG := w]}.

Definition registry_entry d (rex6 : bool) config n delay : MegaSystemCallOutcome :=
  deploy_outcome {[REG := registry_account rex6 config n delay (account_of d REG)
                            (storage_of d REG MIN_ROTATION_DELAY)]}.

Lemma push_deploy_ok ts n config ex ex' outs :
  is_active Rex5 ts (ex_hardforks ex) = true →
  push_deploy_sequencer_registry_outcome (HR := HR) ts n config ex = Some (ex', Ok outs) →
  let rex6 := is_active Rex6 ts (ex_hardforks ex) in
  let delay := delay_of (ex_hardforks ex) rex6 in
  outs = [registry_entry (db_of ex) rex6 config n delay] ∧ cached (db_of ex') REG ∧
  (rex6 = true → delay ≠ None).
Proof.
  intros H5 H. unfold push_deploy_sequencer_registry_outcome in H. fbind_inv H.
  injection H as <- <-. apply on_db_ok in Hm.
  destruct (transact_deploy_registry_ok _ _ _ _ _ _ _ H5 Hm) as (_ & Hc & Hdel & ->). done.
Qed.

Lemma applies_same d d' n r st acc :
  same_at d d' REG → applies_changes d n r st acc → applies_changes d' n r st acc.
Proof.
  intros [Ha Hs] []. split; try done; [by rewrite Ha|].
  eapply Forall_impl; [exact ac_slots0|]. intros kv Hkv. by rewrite Hs.
Qed.

(** The outcomes of the pre-block call, if it is made. *)
Definition applied_entries d n (outs : list MegaSystemCallOutcome) : Prop :=
  (changes_due d n = false ∧ outs = []) ∨
  changes_due d n = true ∧ ∃ st,
    outs = [deploy_outcome st] ∧ (∀ a, a ∈ system_contracts → a ≠ REG → untouched st a) ∧
    ∀ r i, represents d r → account_of d REG = Some i →
      code_hash i ∈ [SEQUENCER_REGISTRY_CODE_HASH; SEQUENCER_REGISTRY_CODE_HASH_REX6] →
      ∃ acc, applies_changes d n r st acc.

Lemma apply_pending_ok n ex ex' outs :
  env_number (ex_evm ex) = n →
  apply_pending (HR := HR) apply_calldata n ex = Some (ex', Ok outs) →
  cached (db_of ex') REG ∧
  ∃ w outs', read_only_account w ∧ outs = witness_entry w :: outs' ∧ applied_entries (db_of ex) n outs'.
Proof.
  intros Hn H. unfold apply_pending in H. fbind_inv H.
  pose proof (reading_on_db _ _ (due_reads n) _ _ _ Hm) as Hr.
  apply on_db_ok in Hm. destruct (due_some _ _ _ _ Hm) as (_ & Hdue). destruct x as [due w0].
  destruct Hdue as (Hdue & Hc & w & -> & Hw & _). destruct due.
  - fbind_inv H. injection H as <- <-.
    assert (steps ex_reads (on_evm (HR := HR) (λ e : error, e)
      (transact_apply_pending_changes apply_calldata))) as Hra.
    { apply reading_on_evm. intros v v' res. apply apply_call_reads. }
    pose proof (Hra _ _ _ Hm0) as Hr0. clear Hra.
    split; [by apply (er_db _ _ Hr0)|]. exists w. eexists. split_and!; [done|done|]. right.
    split; [done|]. destruct (zoom_ok _ _ _ _ _ _ _ Hm0) as (v & Hv & _).
    unfold transact_apply_pending_changes in Hv. bind_inv Hv.
    destruct x as [res st].
    repeat case_match; simplify_eq/=. eexists. split_and!; [done| |].
    + intros a Ha Hne. by eapply call_gas_confined.
    + intros r i Hrep Hi Hcode.
      assert (same_at (db_of ex) (evm_db (ex_evm s)) REG) as Hs by apply (er_db _ _ Hr).
      match goal with H : negb (is_success ?x) = false |- _ =>
        apply negb_false_iff in H; rename H into Hsucc end.
      match goal with H : transact_system_call_with_gas_limit _ _ _ _ _ = Some (_, Ok _) |- _ =>
        destruct (registry_call _ _ _ _ _ r i (represents_same _ _ _ Hs Hrep)
          (eq_trans (proj1 Hs) Hi) Hcode H Hsucc) as [acc Hacc] end.
      destruct (er_env _ _ Hr) as (_ & _ & Hnum & _). rewrite Hnum in Hacc.
      exists acc. eapply applies_same; [|exact Hacc]. destruct Hs as [H1 H2].
      split; [by rewrite H1|]. intros k. by rewrite H2.
  - injection H as <- <-. split; [done|]. exists w, []. split_and!; [done|done|]. by left.
Qed.

(** * The registry after the outcomes are committed *)

(** What the registry was before: not deployed (its address may have been funded), or deployed
    with a state, a system address and the code of some version. *)
Definition registry_before d (rex6 : bool) (before : option Registry) : Prop :=
  match before with
  | None => no_registry d
  | Some r =>
      represents d r ∧ currentSystemAddress r ≠ 0 ∧
      (has_code d (target_hash rex6) ∨ rex6 = true ∧ has_code d SEQUENCER_REGISTRY_CODE_HASH)
  end.

(** Whether the deployment upgrades the registry in place. *)
Definition upgrades d (rex6 : bool) : bool :=
  match account_of d REG with
  | Some i => rex6 && (code_hash i =? SEQUENCER_REGISTRY_CODE_HASH)
  | None => false
  end.

Definition registry_after d (rex6 : bool) config (n : Z) (delay : option U256)
    (before : option Registry) : Registry :=
  match before with
  | None => bootstrap_registry config n delay
  | Some r =>
      let r' := applyPendingChanges n r in
      if upgrades d rex6 then with_delay (default 0 delay) r' else r'
  end.

Lemma commit_applied d d' n r st acc :
  same_at d d' REG → cached d' REG → has_code d (code_hash (acc_info acc)) →
  code_hash (acc_info acc) ∈ system_code_hashes → applies_changes d n r st acc →
  represents (state_commit st d') (applyPendingChanges n r) ∧
  has_code (state_commit st d') (code_hash (acc_info acc)).
Proof.
  intros Hs Hc _ Hh Ha. destruct (applies_same _ _ _ _ _ _ Hs Ha) as [H1 H2 H3 H4 H5 H6].
  destruct (system_hash_ok _ Hh) as [Hk Hz].
  destruct (commit_changed st d' REG acc H1 Hc H2 H3 H4 (code_not_empty _ Hk Hz)) as [Hacc Hsto].
  split; [|by exists (acc_info acc)]. eapply Forall_impl; [exact H6|]. intros kv Hkv. by rewrite Hsto.
Qed.

Definition registry_outcomes d (rex6 : bool) config n delay w ap : list MegaSystemCallOutcome :=
  let entry := registry_entry d rex6 config n delay in
  if rex6 then witness_entry w :: ap ++ [entry] else entry :: witness_entry w :: ap.

Lemma registry_entry_same d d' rex6 config n delay :
  same_at d d' REG → registry_entry d' rex6 config n delay = registry_entry d rex6 config n delay.
Proof. intros [Ha Hs]. unfold registry_entry. by rewrite Ha, Hs. Qed.

Lemma applied_entries_same d d' n outs :
  same_at d d' REG → applied_entries d' n outs → applied_entries d n outs.
Proof.
  intros Hs Happ. assert (same_at d' d REG) as Hs' by (destruct Hs as [H1 H2]; by split).
  assert (changes_due d n = changes_due d' n) as Hd.
  { unfold changes_due. by rewrite (proj1 Hs), !(role_due_same d d'). }
  destruct Happ as [[H ->]|(H & st & -> & Hu & Hap)]; [left|right]; rewrite Hd; [done|].
  split; [done|]. exists st. split_and!; [done|done|]. intros r i Hr Hi Hcode.
  destruct (Hap r i) as [acc Hacc]; [by eapply represents_same|by rewrite (proj1 Hs)|done|].
  exists acc. by eapply applies_same.
Qed.

Lemma registry_changes_ok ts n ex ex' outs :
  is_active Rex5 ts (ex_hardforks ex) = true → env_number (ex_evm ex) = n →
  registry_changes (HR := HR) apply_calldata ts n ex = Some (ex', Ok outs) →
  let rex6 := is_active Rex6 ts (ex_hardforks ex) in
  let delay := delay_of (ex_hardforks ex) rex6 in
  ∃ config w ap,
    registry_params (ex_hardforks ex) = Some config ∧ read_only_account w ∧
    applied_entries (db_of ex) n ap ∧ cached (db_of ex') REG ∧ (rex6 = true → delay ≠ None) ∧
    outs = registry_outcomes (db_of ex) rex6 config n delay w ap.
Proof.
  intros H5 Hn H. unfold registry_changes in H. fbind_inv H. rename x into config.
  unfold ok_or in Hm. destruct (registry_params (ex_hardforks ex)) as [c|]; [|done].
  injection Hm as <- ->. cbv zeta.
  unfold registry_outcomes. destruct (is_active Rex6 ts (ex_hardforks ex)) eqn:H6; cbn [negb] in H.
  - fbind_inv H. injection Hm as <- <-. fbind_inv H. fbind_inv H. injection H as <- <-.
    pose proof (apply_pending_reads _ _ _ _ _ Hm) as Hr.
    destruct (apply_pending_ok _ _ _ _ Hn Hm) as (Hc & w & ap & Hw & -> & Hap).
    pose proof (er_hardforks _ _ Hr) as Hhf.
    destruct (push_deploy_ok ts n config s s0 x0) as (-> & Hc' & Hdel); [by rewrite Hhf|done|].
    rewrite Hhf, H6 in *. exists config, w, ap. split_and!; try done. simpl.
    rewrite (registry_entry_same (db_of ex) (db_of s)); [done|]. apply (er_db _ _ Hr).
  - fbind_inv H. fbind_inv H. fbind_inv H. injection Hm1 as <- <-. injection H as <- <-.
    pose proof (push_deploy_reads _ _ _ _ _ _ Hm) as Hr.
    destruct (push_deploy_ok ts n config ex s x H5 Hm) as (-> & Hc & Hdel). rewrite H6 in *.
    destruct (apply_pending_ok n s s0 x0) as (Hc' & w & ap & Hw & -> & Hap); [|done|].
    { destruct (er_env _ _ Hr) as (_ & _ & -> & _). done. }
    exists config, w, ap. split_and!; try done; [|by rewrite app_nil_r].
    eapply applied_entries_same; [|done]. apply (er_db _ _ Hr).
Qed.

(** The registry is deployed with code of a known version. *)
Lemma before_code d rex6 r :
  registry_before d rex6 (Some r) →
  ∃ i, account_of d REG = Some i ∧
    code_hash i ∈ [SEQUENCER_REGISTRY_CODE_HASH; SEQUENCER_REGISTRY_CODE_HASH_REX6] ∧
    (upgrades d rex6 = true ∧ rex6 = true ∧ code_hash i = SEQUENCER_REGISTRY_CODE_HASH ∨
     upgrades d rex6 = false ∧ code_hash i = target_hash rex6).
Proof.
  intros (_ & _ & [(i & Hi & Hh)|(-> & i & Hi & Hh)]); exists i; unfold upgrades; rewrite Hi, Hh.
  - split_and!; [done|destruct rex6; set_solver|]. right. by destruct rex6.
  - split_and!; [done|set_solver|]. by left.
Qed.

(** Witness and pre-block call. *)
Lemma commits_applied d d' r n w ap i :
  same_at d d' REG → cached d' REG → n < u64_max → read_only_account w →
  applied_entries d n ap → represents d r → account_of d REG = Some i →
  code_hash i ∈ [SEQUENCER_REGISTRY_CODE_HASH; SEQUENCER_REGISTRY_CODE_HASH_REX6] →
  let d'' := commits (witness_entry w :: ap) d' in
  represents d'' (applyPendingChanges n r) ∧ has_code d'' (code_hash i).
Proof.
  intros Hs Hc Hn Hw Hap Hr Hi Hcode. simpl.
  pose proof (commit_read_only d' w Hw) as Hv.
  assert (same_at d (state_commit {[REG := w]} d') REG) as Hs1
    by (eapply same_at_trans; [exact Hs|apply Hv]).
  destruct Hap as [[Hdue ->]|(Hdue & st & -> & _ & Happ)]; simpl.
  - assert (applyPendingChanges n r = r) as ->.
    { apply dec_stable. intros Hne. apply (changes_due_applies d r n i) in Hne; [|done..].
      congruence. }
    split; [by eapply represents_same|]. exists i. by rewrite (proj1 Hs1).
  - destruct (Happ r i Hr Hi Hcode) as [acc Hacc].
    assert (acc_info acc = i) as Hinfo by (pose proof (ac_info _ _ _ _ _ Hacc); congruence).
    assert (code_hash i ∈ system_code_hashes) as Hsys.
    { unfold system_code_hashes. do 7 right. exact Hcode. }
    rewrite <- Hinfo in *. apply (commit_applied d); [done|by apply commit_cache|by exists (acc_info acc)|done|done].
Qed.

Lemma stores_with_delay (f f' : U256 → U256) delay r :
  stores f r → (∀ k, f' k = if k =? MIN_ROTATION_DELAY then delay else f k) →
  stores f' (with_delay delay r).
Proof.
  intros H Hf. unfold stores, flat_slots in *.
  repeat (apply Forall_cons in H as [? H]). repeat (constructor; [by simpl in *; rewrite Hf|]). done.
Qed.

Lemma apply_keeps_delay n r : minRotationDelay (applyPendingChanges n r) = minRotationDelay r.
Proof. by destruct (apply_constants n r) as (_ & _ & _ & _ & _ & ->). Qed.

Lemma has_code_same d d' h : same_at d d' REG → has_code d h → has_code d' h.
Proof. intros [Ha _] (i & Hi & Hh). exists i. by rewrite Ha. Qed.

Lemma target_hash_ok rex6 : target_hash rex6 ≠ KECCAK_EMPTY.
Proof. apply system_hash_ok. unfold target_hash, system_code_hashes. destruct rex6; set_solver. Qed.

Lemma represents_delay d r : represents d r → storage_of d REG MIN_ROTATION_DELAY = minRotationDelay r.
Proof. intros H. eapply represents_slot; [exact H|]. do 11 right. left. Qed.
Lemma represents_system_address d r :
  represents d r → storage_of d REG CURRENT_SYSTEM_ADDRESS = currentSystemAddress r.
Proof. intros H. eapply represents_slot; [exact H|]. left. Qed.

(** No change is due where nothing is deployed. *)
Lemma no_registry_due d n : no_registry d → changes_due d n = false.
Proof.
  unfold changes_due. intros [Hi|[_ Hz]].
  - rewrite bool_decide_eq_false_2; [done|]. rewrite Hi. by intros [? ?].
  - unfold role_due. rewrite !Hz. by rewrite andb_false_r.
Qed.

(** A fresh registry. *)
Lemma registry_commits_fresh d d' rex6 config n delay w ap :
  same_at d d' REG → cached d' REG → read_only_account w → applied_entries d n ap →
  no_registry d →
  let d'' := commits (registry_outcomes d rex6 config n delay w ap) d' in
  represents d'' (bootstrap_registry config n delay) ∧ has_code d'' (target_hash rex6).
Proof.
  intros Hs Hc Hw Hap Hnone.
  assert (ap = []) as ->.
  { destruct Hap as [[_ ->]|[Hdue _]]; [done|]. by rewrite no_registry_due in Hdue. }
  assert (∀ rex6, target_hash rex6 ≠ KECCAK_EMPTY) as Hk by exact target_hash_ok.
  unfold registry_outcomes, registry_entry.
  destruct rex6; cbn [app commits foldl so_state deploy_outcome witness_entry].
  - pose proof (commit_read_only d' w Hw) as Hv.
    assert (same_at d (state_commit {[REG := w]} d') REG) as Hs1
      by (eapply same_at_trans; [exact Hs|apply Hv]).
    destruct (commit_bootstrap true config n delay (state_commit {[REG := w]} d')
      (storage_of d REG MIN_ROTATION_DELAY) Hk) as [H1 H2];
      [by eapply no_registry_same|by apply commit_cache|]. by rewrite (proj1 Hs1) in *.
  - destruct (commit_bootstrap false config n delay d' (storage_of d REG MIN_ROTATION_DELAY) Hk)
      as [H1 H2]; [by eapply no_registry_same|done|]. rewrite (proj1 Hs) in *.
    pose proof (commit_read_only (state_commit {[REG := registry_account false config n delay
      (account_of d REG) (storage_of d REG MIN_ROTATION_DELAY)]} d') w Hw REG) as Hv.
    split; [by eapply represents_same|by eapply has_code_same].
Qed.

(** A registry that was there. *)
Lemma registry_commits_old d d' rex6 config n delay w ap r :
  same_at d d' REG → cached d' REG → n < u64_max → read_only_account w → applied_entries d n ap →
  registry_before d rex6 (Some r) → (rex6 = true → delay ≠ None) →
  let d'' := commits (registry_outcomes d rex6 config n delay w ap) d' in
  represents d'' (registry_after d rex6 config n delay (Some r)) ∧ has_code d'' (target_hash rex6).
Proof.
  intros Hs Hc Hn Hw Hap Hbef Hdel. destruct (before_code _ _ _ Hbef) as (i & Hi & Hcode & Hver).
  destruct Hbef as (Hr & _ & _). unfold registry_outcomes, registry_after, registry_entry.
  rewrite Hi. destruct rex6.
  - destruct (commits_applied d d' r n w ap i Hs Hc Hn Hw Hap Hr Hi Hcode) as [H1 H2].
    change (witness_entry w :: ap ++ ?e) with ((witness_entry w :: ap) ++ e).
    cbv zeta. rewrite commits_app.
    assert (cached (commits (witness_entry w :: ap) d') REG) as Hc1 by (by apply commits_cache).
    revert H1 H2 Hc1. generalize (commits (witness_entry w :: ap) d'). intros d1 H1 H2 Hc1.
    cbn [commits foldl so_state deploy_outcome].
    destruct Hver as [(-> & _ & Hv1)|[-> Hh]].
    + destruct delay as [dl|]; [|by destruct Hdel].
      assert (storage_of d REG MIN_ROTATION_DELAY = storage_of d1 REG MIN_ROTATION_DELAY) as ->.
      { rewrite (represents_delay _ _ Hr), (represents_delay _ _ H1). by rewrite apply_keeps_delay. }
      destruct (commit_upgrade config n dl d1 i) as [H3 H4];
        [apply (target_hash_ok true)|done|done|].
      split; [|exact H3]. eapply stores_with_delay; [exact H1|exact H4].
    + pose proof (commit_in_place true config n delay d1 i (storage_of d REG MIN_ROTATION_DELAY) Hh)
        as Hv.
      split; [by eapply represents_same; [apply Hv|]|]. eapply has_code_same; [apply Hv|].
      by rewrite Hh in H2.
  - destruct Hver as [(_ & ? & _)|[-> Hh]]; [done|]. cbn [commits foldl so_state deploy_outcome].
    pose proof (commit_in_place false config n delay d' i (storage_of d REG MIN_ROTATION_DELAY) Hh)
      as Hv.
    destruct (commits_applied d _ r n w ap i
      (same_at_trans _ _ _ _ Hs (Hv REG)) (commit_cache _ _ _ Hc) Hn Hw Hap Hr Hi Hcode) as [H1 H2].
    rewrite Hh in H2. done.
Qed.

Lemma registry_commits d d' rex6 config n delay w ap before :
  same_at d d' REG → cached d' REG → n < u64_max → read_only_account w → applied_entries d n ap →
  registry_before d rex6 before → (rex6 = true → delay ≠ None) →
  let d'' := commits (registry_outcomes d rex6 config n delay w ap) d' in
  represents d'' (registry_after d rex6 config n delay before) ∧ has_code d'' (target_hash rex6).
Proof.
  destruct before as [r|]; intros Hs Hc Hn Hw Hap Hbef Hdel;
    [by apply registry_commits_old|by apply registry_commits_fresh].
Qed.

Lemma registry_outcomes_leave d rex6 config n delay w ap a :
  applied_entries d n ap → a ∈ system_contracts → a ≠ REG →
  Forall (λ o, leaves a (so_state o)) (registry_outcomes d rex6 config n delay w ap).
Proof.
  intros Hap Ha Hne.
  assert (∀ acc, leaves a {[REG := acc]}) as Hsing.
  { intros acc d'. by apply commit_singleton_other. }
  assert (Forall (λ o, leaves a (so_state o)) ap) as Hap'.
  { destruct Hap as [[_ ->]|(_ & st & -> & Hu & _)]; [done|]. constructor; [|done].
    by apply untouched_leaves, Hu. }
  unfold registry_outcomes. destruct rex6.
  - constructor; [apply Hsing|]. apply Forall_app. split; [done|]. constructor; [apply Hsing|done].
  - constructor; [apply Hsing|]. constructor; [apply Hsing|done].
Qed.

Lemma after_address_nonzero d rex6 config n delay before :
  registry_before d rex6 before →
  currentSystemAddress (registry_after d rex6 config n delay before) ≠ 0.
Proof.
  destruct before as [r|]; [|done]. intros (_ & Hz & _).
  assert (currentSystemAddress (applyPendingChanges n r) ≠ 0) as Hz'.
  { destruct (apply_system n r) as [-> _]. unfold applied.
    destruct (Z.eqb_spec (pendingSystemAddress r) 0); simpl; [done|]. by destruct (_ <=? _). }
  unfold registry_after. by destruct (upgrades d rex6).
Qed.

(** * Errors *)

Local Notation reachable_error := (λ e : error, unreachable_error e = false).

Lemma fails_on_db_other {A} (m : fallible DB db_error A) :
  fails (on_db (HR := HR) (H := hook_log) OtherError m) reachable_error.
Proof. by apply fails_zoom. Qed.

Lemma fails_deploy_registry hf ts n config :
  fails (transact_deploy_sequencer_registry (DB := DB) (E := evm_error) hf ts n config) reachable_error.
Proof.
  assert (∀ A (m : fallible DB error A),
    (∀ d d' e, m d = Some (d', Err e) → ∃ e', e = OtherError e') → fails m reachable_error) as Hother.
  { intros A m Hm d d' e He. by destruct (Hm _ _ _ He) as [e' ->]. }
  assert (fails (load_registry (DB := DB) (E := evm_error)) reachable_error) as Hload.
  { apply Hother. intros d d' e He. by destruct (load_registry_some _ _ _ He). }
  assert (∀ k, fails (read_registry_storage (DB := DB) (E := evm_error) k) reachable_error) as Hread.
  { intros k. apply Hother. intros d d' e He. by destruct (read_registry_some _ _ _ _ He). }
  assert (∀ rex6 delay, fails (fbind (deploy_registry (DB := DB) (E := evm_error) rex6 config n delay)
    (λ st, fret (Some st))) reachable_error) as Hdep.
  { intros rex6 delay. apply fails_bind; [|auto with fails]. apply Hother. intros d d' e.
    unfold deploy_registry. destruct (transact_deploy _ d) as [[d1 [st|e1]]|]; simpl; [done| |done].
    intros [= _ <-]. by eexists. }
  unfold transact_deploy_sequencer_registry. destruct (negb _); [auto with fails|].
  apply fails_bind; [|intros delay].
  { unfold min_rotation_delay_param. destruct (is_active _ _ _); [|auto with fails].
    apply fails_bind; auto with fails. }
  apply fails_bind; [done|intros [info|]]; [|apply Hdep].
  destruct (_ && _).
  { apply fails_bind; [|auto with fails]. unfold upgrade_registry. simpl.
    apply fails_bind; [apply Hread|intros original]. apply fails_bind; auto with fails. }
  destruct (_ && _); [auto with fails|apply Hdep].
Qed.

Lemma fails_apply_pending n :
  fails (apply_pending (HR := HR) (H := hook_log) apply_calldata n) reachable_error.
Proof.
  apply fails_bind.
  - apply fails_zoom. intros d d' e He. destruct (due_some _ _ _ _ He) as (_ & e' & ->). done.
  - intros [[] st]; [|auto with fails]. apply fails_bind; [|auto with fails].
    apply fails_zoom. intros v v' e. unfold transact_apply_pending_changes. intros H. bind_inv H.
    repeat case_match; simplify_eq/=; done.
Qed.

Lemma fails_registry_changes ts n :
  fails (registry_changes (HR := HR) (H := hook_log) apply_calldata ts n) reachable_error.
Proof.
  assert (∀ config, fails (push_deploy_sequencer_registry_outcome (HR := HR) (H := hook_log) ts n config)
    reachable_error) as Hpush.
  { intros config ex. refine (fails_bind _ _ _ _ _ ex); [|auto with fails].
    apply fails_zoom, fails_deploy_registry. }
  intros ex. refine (fails_bind _ _ _ _ _ ex); [auto with fails|intros config].
  apply fails_bind; [destruct (negb _); [apply Hpush|auto with fails]|intros before].
  apply fails_bind; [apply fails_apply_pending|intros applied].
  apply fails_bind; [|auto with fails]. destruct (is_active _ _ _); [apply Hpush|auto with fails].
Qed.

Lemma fails_deploy_flat specs :
  fails (deploy_flat (HR := HR) (H := hook_log) specs) reachable_error.
Proof.
  induction specs as [|spec specs IH]; simpl; [auto with fails|].
  apply fails_bind; [apply fails_on_db_other|intros st]. apply fails_bind; auto with fails.
Qed.

Lemma fails_eip_call from rex5 contract data :
  (∀ e, unreachable_error (from e) = false) →
  fails (fbind (map_call from (transact_call rex5 contract data)) (λ res, fret (Some res)))
    reachable_error.
Proof. intros Hf. apply fails_bind; [|auto with fails]. apply fails_zoom. intros v v' e _. apply Hf. Qed.

Lemma fails_lift_eip is_rex_5 failure source o :
  unreachable_error failure = false →
  fails (lift_result (HR := HR) (H := hook_log) (eip_outcome is_rex_5 failure source o)) reachable_error.
Proof.
  intros Hf. unfold eip_outcome. destruct o as [[res st]|]; [destruct (_ && _)|]; simpl;
    auto with fails.
Qed.

Lemma fails_pre_execution :
  fails (pre_execution_changes (HR := HR) (H := hook_log) apply_calldata b256_bytes
           HISTORY_STORAGE_ADDRESS BEACON_ROOTS_ADDRESS) reachable_error.
Proof.
  apply fails_bind; [apply fails_on_db_other|intros _].
  do 3 (apply fails_bind; [auto with fails|intros ?]).
  apply fails_bind; [apply fails_zoom|intros ?].
  { unfold transact_blockhashes_contract_call. intros v. destruct (negb _); [done|].
    destruct (_ =? 0); [done|]. by apply fails_eip_call. }
  apply fails_bind; [by apply fails_lift_eip|intros ?].
  apply fails_bind; [apply fails_zoom|intros ?].
  { unfold transact_beacon_root_contract_call. intros v v' e. destruct (negb _); [done|].
    destruct (parent_beacon_block_root _) as [root|]; [|by intros [= _ <-]].
    destruct (_ =? 0); [destruct (negb _); [by intros [= _ <-]|done]|]. by apply fails_eip_call. }
  apply fails_bind; [by apply fails_lift_eip|intros ?].
  apply fails_bind; [apply fails_deploy_flat|intros ?].
  do 2 (apply fails_bind; [auto with fails|intros ?]).
  apply fails_bind; [|auto with fails].
  destruct (is_active _ _ _); [apply fails_registry_changes|auto with fails].
Qed.

(** * The outcomes of the pre-block work *)

Definition block_rex6 ex : bool := is_active Rex6 (timestamp (ex_evm ex)) (ex_hardforks ex).
Definition block_delay ex : option U256 := delay_of (ex_hardforks ex) (block_rex6 ex).
Definition block_specs ex : list SystemContractSpec :=
  flat_system_contract_specs (ex_hardforks ex) (timestamp (ex_evm ex)).

(** What the outcomes are made of: the EIP calls, the flat contracts, the registry. *)
Record pre_block_outcomes ex ex' (outs : list MegaSystemCallOutcome) config : Prop := mkOutcomes {
  po_params : registry_params (ex_hardforks ex) = Some config;
  po_delay : block_rex6 ex = true → block_delay ex ≠ None;
  po_cached : Forall (λ a, cached (db_of ex') a) (REG :: (sc_address <$> block_specs ex));
  po_parts : ∃ eips w ap,
    outs = eips ++ (deploy_entry (db_of ex) <$> block_specs ex) ++
           registry_outcomes (db_of ex) (block_rex6 ex) config (env_number (ex_evm ex))
             (block_delay ex) w ap ∧
    Forall (λ o, ∀ a, a ∈ system_contracts → leaves a (so_state o)) eips ∧
    read_only_account w ∧ applied_entries (db_of ex) (env_number (ex_evm ex)) ap;
}.

Lemma deploy_entries_same d d' (specs : list SystemContractSpec) :
  same_view d d' → deploy_entry d' <$> specs = deploy_entry d <$> specs.
Proof.
  intros Hv. apply list_fmap_ext. intros i spec _. unfold deploy_entry. by rewrite (proj1 (Hv _)).
Qed.

Lemma registry_outcomes_same d d' rex6 config n delay w ap :
  same_at d d' REG →
  registry_outcomes d' rex6 config n delay w ap = registry_outcomes d rex6 config n delay w ap.
Proof. intros Hs. unfold registry_outcomes. by rewrite (registry_entry_same d d'). Qed.

Lemma timestamp_same (v v' : V) : same_env v v' → timestamp v' = timestamp v.
Proof. intros (_ & H & _). unfold timestamp. by rewrite H. Qed.

Lemma lift_eip_leaves is_rex_5 failure source o ex ex' outs :
  lift_result (HR := HR) (eip_outcome is_rex_5 failure source o) ex = Some (ex', Ok outs) →
  (∀ res st a, o = Some (res, st) → a ∈ system_contracts → untouched st a) →
  ex' = ex ∧ Forall (λ o, ∀ a, a ∈ system_contracts → leaves a (so_state o)) outs.
Proof.
  intros H Ho. unfold lift_result in H. destruct (eip_outcome _ _ _ o) as [outs1|e1] eqn:He; [|done].
  injection H as <- <-. split; [done|]. apply Forall_forall. intros x Hin a Ha.
  assert (Forall (λ o, leaves a (so_state o)) outs1) as Hall.
  { eapply eip_outcome_leaves; [exact He|]. intros res st Hst. by eapply Ho. }
  by apply (proj1 (Forall_forall _ _) Hall).
Qed.

Lemma pre_execution_ok ex ex' outs :
  is_active Rex5 (timestamp (ex_evm ex)) (ex_hardforks ex) = true →
  pre_execution_changes (HR := HR) apply_calldata b256_bytes HISTORY_STORAGE_ADDRESS
    BEACON_ROOTS_ADDRESS ex = Some (ex', Ok outs) →
  ∃ config, pre_block_outcomes ex ex' outs config.
Proof.
  intros H5 H. unfold pre_execution_changes in H. fbind_inv H.
  pose proof (clear_flag_reads _ _ _ Hm) as R1. clear Hm.
  do 3 (fbind_inv H; injection Hm as <- <-). fbind_inv H. rename x0 into bh, s0 into ex2.
  pose proof (reading_on_evm _ _ (blockhashes_reads _ _ _ _) _ _ _ Hm) as R2.
  fbind_inv H. rename x0 into o1.
  destruct (lift_eip_leaves _ _ _ _ _ _ _ Hm0) as [-> Ho1].
  { intros res st a -> Ha. destruct (zoom_ok _ _ _ _ _ _ _ Hm) as (v & Hv & _).
    by eapply blockhashes_confined. }
  clear Hm Hm0. fbind_inv H. rename x0 into br, s0 into ex3.
  pose proof (reading_on_evm _ _ (beacon_root_reads _ _ _ _) _ _ _ Hm) as R3.
  fbind_inv H. rename x0 into o2.
  destruct (lift_eip_leaves _ _ _ _ _ _ _ Hm0) as [-> Ho2].
  { intros res st a -> Ha. destruct (zoom_ok _ _ _ _ _ _ _ Hm) as (v & Hv & _).
    by eapply beacon_root_confined. }
  clear Hm Hm0. fbind_inv H. rename x0 into o3, s0 into ex4.
  pose proof (deploy_flat_reads _ _ _ _ Hm) as R4.
  destruct (deploy_flat_ok _ _ _ _ Hm) as [-> Hcs].
  fbind_inv H. injection Hm0 as <- <-. fbind_inv H.
  assert (R : ex_reads ex ex4) by (do 3 (etransitivity; [eassumption|]); done).
  pose proof (er_hardforks _ _ R1) as Hhf. pose proof (timestamp_same _ _ (er_env _ _ R1)) as Hts.
  rewrite Hhf, Hts, H5 in H.
  assert (s0 = ex4 ∧ x0 = env_number (ex_evm ex)) as [-> ->].
  { unfold unwrap, to_u64 in Hm0. destruct (_ <=? u64_max); [|by cbn in Hm0].
    injection Hm0 as <- <-. split; [done|]. by destruct (er_env _ _ R) as (_ & _ & -> & _). }
  clear Hm0. fbind_inv H. injection H as <- <-.
  pose proof (registry_changes_reads _ _ _ _ _ _ Hm0) as R5.
  rewrite <- (er_hardforks _ _ R) in H5.
  destruct (registry_changes_ok _ _ _ _ _ H5
    (proj1 (proj2 (proj2 (er_env _ _ R)))) Hm0)
    as (config & w & ap & Hp & Hw & Hap & Hc & Hd & ->).
  rewrite (er_hardforks _ _ R) in *. exists config. unfold block_rex6, block_delay, block_specs.
  split; [done|done| |].
  - constructor; [done|]. rewrite Hhf, Hts in Hcs. apply Forall_fmap.
    eapply Forall_impl; [exact Hcs|]. intros spec Hspec. by apply (er_db _ _ R5).
  - exists (o1 ++ o2), w, ap. split_and!; [|by apply Forall_app|done|].
    + rewrite <- app_assoc. do 2 f_equal. f_equal.
      * apply deploy_entries_same.
        destruct (er_db _ _ R1), (er_db _ _ R2), (er_db _ _ R3). by do 2 (etransitivity; [eassumption|]).
      * apply registry_outcomes_same. apply (er_db _ _ R).
    + eapply applied_entries_same; [|exact Hap]. apply (er_db _ _ R).
Qed.

(** The registry and the flat contracts once the outcomes are committed. *)
Lemma pre_block_committed ex ex' outs config before :
  env_number (ex_evm ex) < u64_max → registry_before (db_of ex) (block_rex6 ex) before →
  ex_reads ex ex' → pre_block_outcomes ex ex' outs config →
  let d := commits outs (db_of ex') in
  let r := registry_after (db_of ex) (block_rex6 ex) config (env_number (ex_evm ex))
             (block_delay ex) before in
  represents d r ∧ has_code d (target_hash (block_rex6 ex)) ∧
  Forall (λ spec, installed spec d) (block_specs ex).
Proof.
  intros Hn Hbef Hr [_ Hdel Hcached (eips & w & ap & -> & Heips & Hw & Hap)].
  apply Forall_cons in Hcached as [Hreg Hflat].
  destruct (flat_specs_wf (ex_hardforks ex) (timestamp (ex_evm ex))) as [Hnd Hwf].
  fold (block_specs ex) in Hnd, Hwf.
  assert (∀ a, a ∈ system_contracts → Forall (λ o, leaves a (so_state o)) eips) as Hleave.
  { intros a Ha. eapply Forall_impl; [exact Heips|]. intros o Ho. by apply Ho. }
  cbv zeta. rewrite !commits_app.
  match goal with |- ?A ∧ ?B ∧ ?C => cut ((A ∧ B) ∧ C); [tauto|] end. split.
  - apply registry_commits; try done; [|by do 2 apply commits_cache].
    eapply same_at_trans; [apply (er_db _ _ Hr)|].
    eapply same_at_trans; apply commits_leave; [apply Hleave; unfold system_contracts; set_solver|].
    apply Forall_fmap. eapply Forall_impl; [exact Hwf|]. intros spec (_ & Hne & _) d.
    by apply commit_singleton_other.
  - assert (Forall (λ s, installed s (commits (deploy_entry (db_of ex) <$> block_specs ex)
      (commits eips (db_of ex')))) (block_specs ex)) as Hinst.
    { apply flat_commits; [done|by eapply Forall_impl; [exact Hwf|]; intros ? (_ & _ & ?)|].
      rewrite Forall_fmap in Hflat.
      eapply Forall_impl; [exact (proj2 (Forall_and _ _) (conj Hflat Hwf))|].
      intros spec [Hc (Hin & _ & _)]. split; [by apply commits_cache|].
      rewrite (proj1 (commits_leave _ _ _ (Hleave _ Hin))). apply (er_db _ _ Hr). }
    eapply Forall_impl; [exact (proj2 (Forall_and _ _) (conj Hinst Hwf))|].
    intros spec [Hi (Hin & Hne & _)]. eapply same_at_installed; [|exact Hi].
    by apply commits_leave, registry_outcomes_leave.
Qed.

(** From Rex5 on, the spec of a block tells whether Rex6 is active. *)
Lemma spec_rex5 {P} ts (c : MegaHardforkConfig P) :
  is_active Rex5 ts c = true →
  is_enabled (spec_id ts c) REX5 = true ∧ is_enabled (spec_id ts c) REX6 = is_active Rex6 ts c.
Proof. intros H5. unfold spec_id, hardfork. rewrite H5. by destruct (is_active Rex6 ts c). Qed.

(** C22: before the first transaction of a block, its system contracts and its system address are
    settled.  From Rex5 on, if the pre-block work succeeds then every system contract of the
    block's fork has its code, the registry is the bootstrap state or, if it was deployed, its
    state with the due changes applied and, at the Rex6 boundary, the upgraded code and delay as
    well, and the system address of the EVM is the registry's; and the three failures of the
    resolution that are commented as unreachable do not happen.  The registry starts as nothing
    (no account, or an account that was funded and has neither code nor storage) or as a
    deployed registry of this or the previous version with a system address; its address with
    foreign code is refused before, and is not covered. *)
Theorem pre_block_settles ex ex' res before :
  evm_spec (ex_evm ex) = spec_id (timestamp (ex_evm ex)) (ex_hardforks ex) →
  is_active Rex5 (timestamp (ex_evm ex)) (ex_hardforks ex) = true →
  env_number (ex_evm ex) < u64_max → registry_before (db_of ex) (block_rex6 ex) before →
  apply_pre_execution_changes (HR := HR) apply_calldata b256_bytes HISTORY_STORAGE_ADDRESS
    BEACON_ROOTS_ADDRESS ex = Some (ex', res) →
  match res with
  | Ok _ => ∃ config,
      let r := registry_after (db_of ex) (block_rex6 ex) config (env_number (ex_evm ex))
                 (block_delay ex) before in
      registry_params (ex_hardforks ex) = Some config ∧ represents (db_of ex') r ∧
      has_code (db_of ex') (target_hash (block_rex6 ex)) ∧
      evm_system_address (ex_evm ex') = address_from_word (currentSystemAddress r) ∧
      Forall (λ spec, installed spec (db_of ex')) (block_specs ex)
  | Err e => unreachable_error e = false
  end.
Proof.
  intros Hspec H5 Hn Hbef H. destruct (spec_rex5 _ _ H5) as [He5 He6].
  apply fbind_some in H as (ex1 & [outs|e] & H1 & H).
  2: { destruct H as [-> ->]. by eapply fails_pre_execution. }
  pose proof (pre_execution_changes_reads _ _ _ _ _ _ _ H1) as R1.
  destruct (pre_execution_ok _ _ _ H5 H1) as [config Hout].
  apply fbind_some in H as (ex2 & [u|e] & H2 & H); [|done].
  destruct (commit_outcomes_db _ _ _ _ H2) as [Hdb2 Hhf2].
  pose proof (ek_env _ _ (commit_outcomes_keeps _ _ _ _ H2)) as (Hs2 & _).
  destruct (pre_block_committed _ _ _ _ before Hn Hbef R1 Hout) as (Hrep & Hcode & Hinst).
  rewrite <- Hdb2 in Hrep, Hcode, Hinst. clear H1 H2 Hdb2.
  destruct (er_env _ _ R1) as (Hs1 & _).
  unfold fgets at 1 2 in H. cbv beta in H.
  apply fbind_some in H as (ex3 & [sp|e] & H3 & H); [injection H3 as <- <-|done].
  apply fbind_some in H as (ex3 & [hf|e] & H3 & H); [injection H3 as <- <-|done].
  apply fbind_some in H as (ex4 & r4 & H4 & H). rewrite Hs2, Hs1, Hspec in H4.
  destruct (zoom_some _ _ _ _ _ _ _ H4) as (d4 & r5 & H5' & -> & Hr4).
  destruct (resolve_some _ _ _ _ _ He5 H5') as [Hread Hres]. fold (db_of ex2) in Hread, Hres.
  pose proof (po_params _ _ _ _ Hout) as Hp.
  rewrite He6 in Hres. fold (block_rex6 ex) in Hres.
  destruct r5 as [[a o]|e]; subst r4.
  - destruct Hres as (-> & acc & -> & Hacc). cbv [fbind fmodify] in H.
    cbn [mbind option_bind] in H. injection H as <- <-. exists config.
    assert (same_view (db_of ex2) (state_commit {[REG := acc]} d4)) as Hv.
    { etransitivity; [apply Hread|]. by apply commit_read_only. }
    cbv zeta. match goal with |- context[with_evm ?v ?e] => assert (db_of (with_evm v e) =
      state_commit {[REG := acc]} d4) as -> end.
    { unfold db_of. cbn [ex_evm with_evm]. by rewrite set_address_db, !db_with_db. }
    cbn [ex_evm with_evm].
    split_and!; [done|by eapply represents_same|by eapply has_code_same| |].
    + rewrite set_address_get. f_equal. by apply represents_system_address.
    + eapply Forall_impl; [exact Hinst|]. intros spec Hi. by eapply same_at_installed.
  - destruct H as [_ ->].
    destruct Hres as [[e' ->]|[->|[[_ Hnone]|[(h & h' & _ & Hno)|[_ Hz]]]]]; [done|done|..].
    + destruct Hcode as (i & Hi & _). congruence.
    + by destruct Hno.
    + rewrite (represents_system_address _ _ Hrep) in Hz.
      by destruct (after_address_nonzero (db_of ex) (block_rex6 ex) config (env_number (ex_evm ex))
        (block_delay ex) before Hbef).
Qed.
End pre_block.
