(* ===== verification/BlockReference.v ===== *)
(** A small EVM for the block level, and two blocks run on it.

    [RefEvm] holds a reference database and the block's environment.  A transaction carries its
    own outcome, and a call of the registry applies the pending changes to the stored slots, so
    that every interface of the block executor has an instance and its theorems can be used on
    concrete blocks. *)

From S2P Require Import Prelude Spec Revm Access SystemTx Intercept EvmState Hardfork BlockLimit.
From S2P Require Import Effects SystemContracts SystemContractsFacts BlockEvm SequencerRegistry.
From S2P Require Import RegistryContract RegistryContractFacts SequencerRegistryFacts.
From S2P Require Import BlockExecutor BlockExecutorFacts PreBlock.

Record RefEvm : Type := mkRefEvm {
  re_db : RefDb;
  re_spec : MegaSpecId;
  re_timestamp : U256;
  re_number : U256;
  re_gas_limit : Z;
  re_system_address : Address;
}.

Local Notation REG := SEQUENCER_REGISTRY_ADDRESS.

(** * The registry call *)

(** The registry a database stores, without the histories. *)
Definition ref_registry (d : RefDb) : Registry :=
  let slot k := storage_of d REG k in
  mkRegistry (slot CURRENT_SYSTEM_ADDRESS) (slot CURRENT_SEQUENCER) (slot ADMIN)
    (slot PENDING_ADMIN) (slot INITIAL_SYSTEM_ADDRESS) (slot INITIAL_SEQUENCER)
    (slot INITIAL_FROM_BLOCK) (slot PENDING_SYSTEM_ADDRESS) (slot SYSTEM_ADDRESS_ACTIVATION_BLOCK)
    (slot PENDING_SEQUENCER) (slot SEQUENCER_ACTIVATION_BLOCK) [] [] (slot MIN_ROTATION_DELAY).

Definition ref_changed (f : U256 → U256) (i : AccountInfo) (slots : list (U256 * Z)) : Account :=
  mkAccount i (list_to_map ((λ kv, (kv.1, slot_new_changed (f kv.1) kv.2 0)) <$> slots))
    (acc_status (mark_touch (account_from_info i))) 0.

(** A calldata for [applyPendingChanges()]. *)
Definition ref_apply_calldata : Bytes := [1; 2; 3; 4].

Definition ref_call (contract : Address) (data : Bytes) (v : RefEvm) : (Z * bool) * EvmState :=
  if (contract =? REG) && bool_decide (data = ref_apply_calldata) then
    match account_of (re_db v) REG with
    | Some i =>
        ((0, true),
         {[REG := ref_changed (storage_of (re_db v) REG) i
                    (flat_slots (applyPendingChanges (re_number v) (ref_registry (re_db v))))]})
    | None => ((0, true), ∅)
    end
  else ((0, true), ∅).

#[export] Instance reference_block_evm : BlockEvm RefEvm RefDb := {|
  evm_error := unit;
  tx_env := MegaTransactionOutcome (Z * bool);
  exec_result := Z * bool;
  logs_t := unit;
  is_success := snd;
  gas_used := fst;
  into_logs _ := tt;
  evm_db := re_db;
  evm_with_db d v :=
    mkRefEvm d (re_spec v) (re_timestamp v) (re_number v) (re_gas_limit v) (re_system_address v);
  evm_spec := re_spec;
  env_timestamp := re_timestamp;
  env_number := re_number;
  env_gas_limit := re_gas_limit;
  evm_set_system_address a v :=
    mkRefEvm (re_db v) (re_spec v) (re_timestamp v) (re_number v) (re_gas_limit v) a;
  evm_get_accessed_bucket_ids _ := ∅;
  transact_system_call caller contract data v := Some (v, Ok (ref_call contract data v));
  transact_system_call_with_gas_limit caller contract data gas v :=
    Some (v, Ok (ref_call contract data v));
  execute_transaction e v := Some (v, Ok e);
|}.

#[export] Instance reference_block_evm_laws : BlockEvmLaws reference_block_evm.
Proof.
  refine {| evm_system_address := re_system_address |}; try done;
    intros; simplify_eq/=; by split; [apply ref_only_read|].
Defined.

Lemma ref_call_confined contract data v res st a :
  a ≠ contract → ref_call contract data v = (res, st) → untouched st a.
Proof.
  intros Hne. unfold ref_call. destruct (Z.eqb_spec contract REG) as [->|]; simpl.
  - destruct (bool_decide _); [|by intros [= <- <-] ?].
    destruct (fst <$> _) as [i|]; intros [= <- <-] acc; [|done].
    by rewrite lookup_singleton_ne.
  - by intros [= <- <-] acc.
Qed.

Lemma flat_slots_nodup r : NoDup (flat_slots r).*1.
Proof. apply (bool_decide_unpack _). by vm_compute. Qed.

(** The account holds what was written, and the database the rest. *)
Lemma ref_changed_stores f i r :
  stores (λ k, default (f k) (written (ref_changed f i (flat_slots r)) k)) r.
Proof.
  apply Forall_forall. intros [k x] Hin. simpl. unfold written, ref_changed. cbn [acc_storage].
  rewrite (elem_of_list_to_map_1 _ k (slot_new_changed (f k) x 0)).
  - simpl. by destruct (Z.eqb_spec (f k) x).
  - rewrite <- list_fmap_compose. apply flat_slots_nodup.
  - by apply (list_elem_of_fmap_2 (λ kv, (kv.1, slot_new_changed (f kv.1) kv.2 0)) _ (k, x)).
Qed.

(** What the call does to the slots does not depend on the histories. *)
Lemma represents_apply d n r :
  represents d r →
  flat_slots (applyPendingChanges n (ref_registry d)) = flat_slots (applyPendingChanges n r).
Proof.
  intros H. destruct r. unfold represents, stores, flat_slots in H.
  repeat (apply Forall_cons in H as [? H]). cbn -[storage_of] in *.
  unfold ref_registry. repeat match goal with E : storage_of _ _ _ = _ |- _ => rewrite E; clear E end.
  unfold applyPendingChanges, applySequencer, applySystemAddress. cbn.
  by destruct (pendingSystemAddress =? 0), (n <? systemAddressActivationBlock); cbn;
    destruct (pendingSequencer =? 0), (n <? sequencerActivationBlock).
Qed.

#[export] Instance reference_system_calls : SystemCallLaws ref_apply_calldata.
Proof.
  split.
  - intros contract data v v' res st a _ Hne [= _ H]. by eapply ref_call_confined.
  - intros contract data gas v v' res st a _ Hne [= _ H]. by eapply ref_call_confined.
  - intros gas v v' res st r i Hr Hi _ H _.
    change (evm_db v) with (re_db v) in *. change (env_number v) with (re_number v).
    injection H as _ H. unfold ref_call in H.
    rewrite Z.eqb_refl, bool_decide_eq_true_2, Hi in H by done. cbn [andb] in H.
    injection H as _ <-. eexists. split; [apply lookup_singleton_eq|done|done|done|done|].
    rewrite (represents_apply _ _ _ Hr). apply ref_changed_stores.
Qed.

(** * Transactions and receipts *)

Record RefTx : Type := mkRefTx {
  rt_ty : Z;
  rt_hash : Z;
  rt_gas_limit : Z;
  rt_signer : Address;
  rt_size : Z;
  rt_outcome : MegaTransactionOutcome (Z * bool);
}.

#[export] Instance reference_tx : Tx2718 RefTx (MegaTransactionOutcome (Z * bool)) := {|
  tx_ty := rt_ty;
  inner_tx_hash := rt_hash;
  tx_gas_limit_of := rt_gas_limit;
  trie_hash := rt_hash;
  tx_signer := rt_signer;
  into_tx_env := rt_outcome;
  encode_2718_len := rt_size;
  estimated_size_fjord := rt_size;
|}.

(** A receipt is its cumulative gas. *)
#[export] Instance reference_receipts : ReceiptBuilder RefTx (Z * bool) unit := {|
  Receipt := Z;
  build_receipt t _ g _ := if rt_ty t =? DEPOSIT_TRANSACTION_TYPE then None else Some g;
  build_deposit_receipt _ g _ _ _ := g;
  cumulative_gas_used g := g;
|}.

#[export] Instance reference_receipt_laws : ReceiptLaws reference_receipts.
Proof.
  split; [|done]. intros t r g st rc. simpl. destruct (_ =? _); [done|]. by intros [= ->].
Qed.

(** * A block at the Rex6 boundary *)

Definition ref_hardforks : Hardforks := default new all_activated_hardforks.
Definition ref_context : MegaBlockExecutionCtx := mkExecutionCtx 5 (Some 6) [] no_limits.
Definition ref_evm (d : RefDb) : RefEvm := mkRefEvm d REX6 1 12 u64_max 0.

Local Notation ref_executor :=
  (MegaBlockExecutor (BE := reference_block_evm) (H := hook_log) (T := RefTx) (HR := reference_receipts)).
Local Notation pre_block :=
  (apply_pre_execution_changes (BE := reference_block_evm) (H := hook_log) (T := RefTx) (HR := reference_receipts)
     ref_apply_calldata (λ x, [x]) 1000 1001).

Definition boundary_executor : ref_executor :=
  mkExecutor (BE := reference_block_evm) (T := RefTx) (HR := reference_receipts) ref_hardforks ref_context (Some [])
    (ref_evm (sample_registry_db sample_registry)) (limiter_new no_limits) [].

(** The registry has the code of Rex5 and a change due in this block: the block applies it, then
    upgrades the registry in place. *)
Lemma pre_block_settles_witness :
  ∃ ex' config,
    pre_block boundary_executor = Some (ex', Ok tt) ∧
    represents (db_of ex')
      (registry_after (db_of boundary_executor) true config 12 (Some 1) (Some sample_registry)) ∧
    has_code (db_of ex') SEQUENCER_REGISTRY_CODE_HASH_REX6 ∧
    re_system_address (ex_evm ex') = 101.
Proof.
  assert (registry_before (db_of boundary_executor) (block_rex6 boundary_executor)
    (Some sample_registry)) as Hb.
  { split; [unfold represents, stores; repeat constructor|]. split; [done|]. right.
    split; [by vm_compute|]. by exists sample_registry_info. }
  assert (block_rex6 boundary_executor = true) as H6 by (by vm_compute).
  assert (block_delay boundary_executor = Some 1) as Hd by (by vm_compute).
  assert (address_from_word (currentSystemAddress (registry_after (db_of boundary_executor) true
    (mkRegistryConfig MEGA_SYSTEM_ADDRESS MEGA_SYSTEM_ADDRESS) 12 (Some 1)
    (Some sample_registry))) = 101) as Ha by (by vm_compute).
  assert (registry_params (ex_hardforks boundary_executor) =
    Some (mkRegistryConfig MEGA_SYSTEM_ADDRESS MEGA_SYSTEM_ADDRESS)) as Hp by (by vm_compute).
  pose proof (pre_block_settles ref_apply_calldata (λ x, [x]) 1000 1001
    ltac:(apply (bool_decide_unpack _); vm_compute; exact I)
    ltac:(apply (bool_decide_unpack _); vm_compute; exact I)
    ltac:(apply (bool_decide_unpack _); vm_compute; exact I)
    boundary_executor) as Hres.
  destruct (succeeds (λ _ _, True) (pre_block boundary_executor)) as (ex' & [] & H & _); [vm_compute; exact I|].
  specialize (Hres ex' (Ok tt) (Some sample_registry) ltac:(vm_compute; exact eq_refl)
    ltac:(vm_compute; exact eq_refl) ltac:(vm_compute; exact eq_refl) Hb H).
  destruct Hres as (config & Hc & Hrep & Hcode & Haddr & _). exists ex'.
  rewrite Hp in Hc. injection Hc as <-. eexists. rewrite H6, Hd in Hrep, Haddr. rewrite H6 in Hcode.
  split; [exact H|]. split; [exact Hrep|]. split; [exact Hcode|]. exact (eq_trans Haddr Ha).
Defined.

(** * A block of two transactions *)

Definition ref_outcome (gas : Z) (st : EvmState) : MegaTransactionOutcome (Z * bool) :=
  mkTxOutcome (gas, true) st 100 2 gas 1.

Definition touched_account (b : Z) : Account :=
  mark_touch (account_from_info (mkAccountInfo b 1 77 None)).

Definition ref_transfer : RefTx :=
  mkRefTx 2 11 50000 8 110 (ref_outcome 21000 {[9 := touched_account 5]}).
Definition ref_deposit : RefTx :=
  mkRefTx DEPOSIT_TRANSACTION_TYPE 12 60000 10 90 (ref_outcome 40000 {[9 := touched_account 7]}).

Local Notation block_outcome := (BlockMegaTransactionOutcome RefTx (Z * bool)).

Definition ref_committed : list block_outcome :=
  [ mkBlockOutcome ref_deposit 90 90 (Some account_info_default) (rt_outcome ref_deposit);
    mkBlockOutcome ref_transfer 110 110 None (rt_outcome ref_transfer) ].

Local Notation run t := (run_transaction_with_sizes (BE := reference_block_evm) (H := hook_log)
  (HR := reference_receipts) t (rt_size t) (rt_size t)).
Local Notation commit o := (commit_transaction_outcome (BE := reference_block_evm) (H := hook_log)
  (HR := reference_receipts) o).

(** Both are run before either is committed, and the second is committed first. *)
Definition two_transactions : fallible ref_executor (ExecError unit unit) (list block_outcome) := (
  _ ⇐ pre_block;
  transfer ⇐ run ref_transfer;
  deposit ⇐ run ref_deposit;
  _ ⇐ commit deposit;
  _ ⇐ commit transfer;
  fret [deposit; transfer])%fallible.

Local Notation ref_executes := (executes (BE := reference_block_evm) (HR := reference_receipts)
  ref_apply_calldata (λ x, [x]) 1000 1001 (λ _ _, [(4, 9)])).

Lemma two_transactions_executes ex0 ex cs :
  two_transactions ex0 = Some (ex, Ok cs) → ref_executes ex0 cs ex.
Proof.
  unfold two_transactions. intros H. do 5 fbind_inv H. injection H as <- <-.
  refine (exec_commit _ _ _ _ _ _ [_] _ _ _ (Ok _) _ Hm3).
  refine (exec_commit _ _ _ _ _ _ [] _ _ _ (Ok _) _ Hm2).
  do 2 (eapply exec_run; [|eassumption]). eapply exec_pre; [apply exec_start|eassumption].
Qed.

Lemma block_books_balance_witness :
  ∃ ex log, ref_executes boundary_executor ref_committed ex ∧
    receipts_of no_limits ref_committed (ex_receipts ex) ∧ ex_receipts ex = [40000; 61000] ∧
    ex_hook ex = Some log ∧ same_view (replay log (db_of boundary_executor)) (db_of ex).
Proof.
  assert (Forall outcome_ok (limiter_outcome (BE := reference_block_evm) <$> ref_committed)) as Hok
    by (repeat apply Forall_cons_2; try apply Forall_nil_2; unfold outcome_ok; cbn; lia).
  pose proof (block_books_balance ref_apply_calldata (λ x, [x]) 1000 1001 (λ _ _, [(4, 9)])
    no_limits boundary_executor ref_committed) as Hbal.
  destruct (succeeds (λ (ex : ref_executor) cs, cs = ref_committed ∧ ex_receipts ex = [40000; 61000])
    (two_transactions boundary_executor)) as (ex & cs & H & -> & Hrec);
    [vm_compute; split; exact eq_refl|]. apply two_transactions_executes in H.
  specialize (Hbal ex eq_refl eq_refl eq_refl H Hok).
  destruct Hbal as (_ & Hr & (log & Hlog & Hsame) & _). exists ex, log.
  split; [exact H|]. split; [exact Hr|]. split; [exact Hrec|]. split; [exact Hlog|exact Hsame].
Defined.
