(* ===== verification/MegaEvm.v ===== *)
(** The EVM: [evm/mod.rs], its execution interfaces [evm/interfaces.rs], its factory
    [evm/factory.rs], and the constructors and setters of the context in [evm/context.rs]; and the
    context that the tools build from [MegaContext::default] instead of the factory.

    [MegaEvm] holds the context and what the calls on it choose between.  A transaction is run
    by the handler of [Validation]; what upstream owns (the raw transaction, the block, the
    configuration, the journal's database) is the class [EvmParts], and the upstream methods
    that only call back into the handler are the class [ExecuteDefaults].

    [MegaContext::default] is a context of [EQUIVALENCE]; setting the configuration afterwards
    changes the spec of the context, but not the limits that were made with it. *)

From S2P Require Import Prelude Spec Revm LimitCheck Interfaces AdditionalLimit Access DynamicGas.
From S2P Require Import SystemTx Context Intercept Execution EvmState Validation Precompiles.
From S2P Require Import BlockLimit Effects BlockEvm.

(** * Configuration *)

(** The fields of revm's [CfgEnv]. *)
Record CfgEnv (Spec : Type) : Type := mkCfg {
  ce_spec : Spec;
  ce_chain_id : Z;
  ce_tx_chain_id_check : bool;
  ce_limit_contract_code_size : option Z;
  ce_limit_contract_initcode_size : option Z;
  ce_disable_nonce_check : bool;
  ce_max_blobs_per_tx : option Z;
  ce_blob_base_fee_update_fraction : option Z;
  ce_tx_gas_limit_cap : option Z;
  ce_memory_limit : Z;
  ce_disable_balance_check : bool;
  ce_disable_block_gas_limit : bool;
  ce_disable_eip3541 : bool;
  ce_disable_eip3607 : bool;
  ce_disable_base_fee : bool;
}.
Arguments mkCfg {Spec} _ _ _ _ _ _ _ _ _ _ _ _ _ _ _.
Arguments ce_spec {Spec} _.
Arguments ce_limit_contract_code_size {Spec} _.
Arguments ce_limit_contract_initcode_size {Spec} _.

(** The fields of a configuration under another spec. *)
Definition retag {A B} (spec : B) (c : CfgEnv A) : CfgEnv B :=
  let 'mkCfg _ a b d e f g h i j k l m n o := c in mkCfg spec a b d e f g h i j k l m n o.

Definition into_megaeth_cfg {A} (spec : MegaSpecId) (c : CfgEnv A) : CfgEnv MegaSpecId := retag spec c.

Definition with_code_limits {A} (size initcode : option Z) (c : CfgEnv A) : CfgEnv A :=
  let 'mkCfg s a b _ _ f g h i j k l m n o := c in mkCfg s a b size initcode f g h i j k l m n o.

(** From MiniRex on, the sizes that are not set. *)
Definition default_code_limits {A} (spec : MegaSpecId) (c : CfgEnv A) : CfgEnv A :=
  if is_enabled spec MINI_REX then
    let or_default (x : option Z) d := match x with Some n => Some n | None => Some d end in
    with_code_limits
      (or_default (ce_limit_contract_code_size c) constants.mini_rex.MAX_CONTRACT_SIZE)
      (or_default (ce_limit_contract_initcode_size c) constants.mini_rex.MAX_INITCODE_SIZE) c
  else c.

(** * Upstream parts *)

Class EvmParts (J W DB : Type) := {
  OpSpecId : Type;
  ISTHMUS : OpSpecId;
  BlockEnv : Type;
  be_number : BlockEnv → U256;
  be_timestamp : BlockEnv → U256;
  be_gas_limit : BlockEnv → Z;
  L1BlockInfo : Type;
  l1_default : L1BlockInfo;
  (** [MegaTransaction] with everything upstream reads of it. *)
  RawTx : Type;
  raw_default : RawTx;
  raw_with_gas_limit : Z → RawTx → RawTx;
  new_system_tx_with_caller : Address → Address → Bytes → RawTx;
  (** [revm::Context::op().with_db(db).with_cfg(cfg)], and the setters of the context. *)
  op_new : DB → CfgEnv OpSpecId → OpContext J W;
  op_set_tx : RawTx → OpContext J W → OpContext J W;
  op_set_block : BlockEnv → OpContext J W → OpContext J W;
  op_set_cfg : CfgEnv OpSpecId → OpContext J W → OpContext J W;
  op_set_chain : L1BlockInfo → OpContext J W → OpContext J W;
  op_block : W → BlockEnv;
  op_cfg : W → CfgEnv OpSpecId;
  (** [CfgEnv::new_with_spec]. *)
  cfg_new_with_spec : OpSpecId → CfgEnv OpSpecId;
  (** The journal's database, and [finalize]. *)
  journal_db : J → DB;
  journal_with_db : DB → J → J;
  journal_finalize : J → J * EvmState;
}.

(** [Handler::run], [InspectorHandler::inspect_run], and the default methods that finalize. *)
Class ExecuteDefaults := {
  catching : ∀ {M A E : Type},
    (M → panics (M * result A E)) → (E → M → panics (M * result A E)) → M → panics (M * result A E);
  and_finalize : ∀ {M A E : Type},
    (M → panics (M * result A E)) → (M → M * EvmState) → M → panics (M * result (A * EvmState) E);
}.

Class ExecuteDefaultsLaws (D : ExecuteDefaults) := {
  (** An error goes to the error handler, and a success is the result. *)
  catching_spec {M A E : Type} (m : M → panics (M * result A E)) c s :
    catching m c s =
      ('(s, r) ← m s; match r with Ok x => Some (s, Ok x) | Err e => c e s end);
  (** The state is taken after a success, and an error leaves the journal as it is. *)
  and_finalize_spec {M A E : Type} (m : M → panics (M * result A E)) f s :
    and_finalize m f s =
      ('(s, r) ← m s;
       match r with Ok x => let '(s, st) := f s in Some (s, Ok (x, st)) | Err e => Some (s, Err e) end);
}.

(** * The context *)

Section context.
Context `{R : Revm} `{RS : RevmState} {J W DB : Type} `{HB : !EvmParts J W DB}.

Definition into_op_spec (spec : MegaSpecId) : OpSpecId := ISTHMUS.
Definition into_op_cfg (c : CfgEnv MegaSpecId) : CfgEnv OpSpecId := retag (into_op_spec (ce_spec c)) c.

Section envs.
Context {S O : Type}.
Implicit Types ctx : MegaContext J W S O.

Definition new_with_shared_ext_envs (db : DB) (spec : MegaSpecId) (salt : S) (oracle : O)
    : panics (MegaContext J W S O) :=
  let o := op_new db (cfg_new_with_spec (into_op_spec spec)) in
  let o :=
    if is_enabled spec MINI_REX then
      op_set_cfg (with_code_limits (Some constants.mini_rex.MAX_CONTRACT_SIZE)
                    (Some constants.mini_rex.MAX_INITCODE_SIZE) (op_cfg (op_world o))) o
    else o in
  let tx_limits := from_spec spec in
  number ← to_u64 (be_number (op_block (op_world o)));
  Some (mkContext o spec false (AdditionalLimit.new spec tx_limits)
          (DynamicGas.new spec salt (sat_sub number 1)) oracle
          (Access.new (block_env_access_compute_gas_limit tx_limits)
             (oracle_access_compute_gas_limit tx_limits))
          false MEGA_SYSTEM_ADDRESS).

Definition with_tx (tx : RawTx) ctx : MegaContext J W S O := with_inner ctx (op_set_tx tx (inner ctx)).

Definition with_block (block : BlockEnv) ctx : MegaContext J W S O :=
  on_new_block (with_inner ctx (op_set_block block (inner ctx))).

(** [ContextSetters::set_block] goes to the inner context only. *)
Definition set_block (block : BlockEnv) ctx : MegaContext J W S O :=
  with_inner ctx (op_set_block block (inner ctx)).

Definition with_spec (spec : MegaSpecId) ctx : MegaContext J W S O :=
  mkContext (inner ctx) spec (disable_beneficiary ctx) (additional_limit ctx)
    (dynamic_storage_gas_cost ctx) (oracle_env ctx) (volatile_data_tracker ctx)
    (inside_sandbox ctx) (system_address ctx).

Definition with_cfg (cfg : CfgEnv MegaSpecId) ctx : MegaContext J W S O :=
  let ctx := with_spec (ce_spec cfg) ctx in
  let o := op_set_cfg (into_op_cfg cfg) (inner ctx) in
  with_inner ctx (op_set_cfg (default_code_limits (ce_spec cfg) (op_cfg (op_world o))) o).

Definition with_chain (chain : L1BlockInfo) ctx : MegaContext J W S O :=
  with_inner ctx (op_set_chain chain (inner ctx)).

Definition set_disable_beneficiary ctx : MegaContext J W S O :=
  mkContext (inner ctx) (ctx_spec ctx) true (additional_limit ctx) (dynamic_storage_gas_cost ctx)
    (oracle_env ctx) (volatile_data_tracker ctx) (inside_sandbox ctx) (system_address ctx).

Definition accessed_bucket_ids ctx : gset Z := get_bucket_ids (dynamic_storage_gas_cost ctx).
End envs.

Definition with_external_envs {S O S' O' : Type} (salt : S') (oracle : O') (ctx : MegaContext J W S O)
    : panics (MegaContext J W S' O') :=
  number ← to_u64 (be_number (op_block (op_world (inner ctx))));
  Some (mkContext (inner ctx) (ctx_spec ctx) (disable_beneficiary ctx) (additional_limit ctx)
          (DynamicGas.new (ctx_spec ctx) salt (sat_sub number 1)) oracle (volatile_data_tracker ctx)
          (inside_sandbox ctx) (system_address ctx)).

Definition context_new (db : DB) (spec : MegaSpecId)
    : panics (MegaContext J W EmptyExternalEnv EmptyExternalEnv) :=
  new_with_shared_ext_envs db spec mkEmptyExternalEnv mkEmptyExternalEnv.
End context.

(** * The EVM *)

Section evm.
Context `{R : Revm} `{RS : RevmState} {J : Type} `{HJ : !JournalInspectTr J} {W : Type}.
Context `{HH : !OpHost J W} {S : Type} `{HS : SaltEnv S} {O : Type} `{HO : OracleEnv O}.
Context `{HA : SystemAbi} `{HL : !LocalContext W} `{HK : !KeylessDeploy J W S O}.
Context `{HE : !OpEvm (J := J) (W := W) (S := S) (O := O)} `{HV : !OpValidation J W S O}.
Context {DB : Type} `{HB : !EvmParts J W DB} `{HP : !OpPrecompiles J W} `{HD : ExecuteDefaults}.
(** The conversions to the error of the handler, and [catch_error] of the upstream handler. *)
Context (from_frame_error : frame_error → upstream_error).
Context (from_tx_error : TxError frame_error → upstream_error).
Context (op_catch_error : ValidationError DBError upstream_error →
  step (J := J) (W := W) (S := S) (O := O) (ExecutionResult exec_data OpHaltReason)).

Local Notation ctx_t := (MegaContext J W S O).
Local Notation error := (ValidationError DBError upstream_error).
Local Notation result_t := (ExecutionResult exec_data (MegaHaltReason OpHaltReason)).

(** The instruction table is the one of a spec ([Instructions.instruction_table]). *)
Record MegaEvm : Type := mkEvm {
  evm_ctx : ctx_t;
  evm_instruction : MegaSpecId;
  evm_precompiles : PrecompilesMap;
  evm_inspect : bool;
}.
Implicit Types evm : MegaEvm.

Definition with_ctx (ctx : ctx_t) evm : MegaEvm :=
  mkEvm ctx (evm_instruction evm) (evm_precompiles evm) (evm_inspect evm).

Definition evm_new (ctx : ctx_t) : MegaEvm :=
  let spec := ctx_spec ctx in mkEvm ctx spec (mp_inner (new_with_spec spec)) false.

Definition with_inspector evm : MegaEvm :=
  mkEvm (evm_ctx evm) (evm_instruction evm) (evm_precompiles evm) true.
Definition without_inspector evm : MegaEvm :=
  mkEvm (evm_ctx evm) (evm_instruction evm) (evm_precompiles evm) false.
Definition set_inspector_enabled (enabled : bool) evm : MegaEvm :=
  mkEvm (evm_ctx evm) (evm_instruction evm) (evm_precompiles evm) enabled.

Definition evm_with_tx_runtime_limits (tx_limits : EvmTxRuntimeLimits) evm : MegaEvm :=
  with_ctx (Context.with_tx_runtime_limits (evm_ctx evm) tx_limits) evm.

(** A dynamic precompile replaces the entry of its address. *)
Definition with_dyn_precompiles (dyn_precompiles : PrecompilesMap) evm : MegaEvm :=
  mkEvm (evm_ctx evm) (evm_instruction evm)
    (apply_dyn_precompiles dyn_precompiles (evm_precompiles evm)) (evm_inspect evm).

Definition evm_set_block (block : BlockEnv) evm : MegaEvm :=
  with_ctx (set_block block (evm_ctx evm)) evm.

Definition db evm : DB := journal_db (op_journal (inner (evm_ctx evm))).
Definition with_db (d : DB) evm : MegaEvm :=
  with_ctx (with_journal (evm_ctx evm) (journal_with_db d (op_journal (inner (evm_ctx evm))))) evm.

(** * Running *)

(** [self.ctx().set_tx(tx)]. *)
Definition evm_set_tx (tx : RawTx) evm : MegaEvm := with_ctx (with_tx tx (evm_ctx evm)) evm.

Definition on_ctx {A} (m : ctx_t → panics (ctx_t * result A error)) : fallible MegaEvm error A :=
  zoom evm_ctx with_ctx (λ e, e) m.

Definition handler_run : ctx_t → panics (ctx_t * result result_t error) :=
  catching (run_without_catch_error from_frame_error from_tx_error) (catch_error op_catch_error).
Definition handler_inspect_run : ctx_t → panics (ctx_t * result result_t error) :=
  catching (inspect_run_without_catch_error from_frame_error from_tx_error)
    (catch_error op_catch_error).

Definition transact_one (tx : RawTx) : fallible MegaEvm error result_t := λ evm,
  on_ctx handler_run (evm_set_tx tx evm).
Definition inspect_one_tx (tx : RawTx) : fallible MegaEvm error result_t := λ evm,
  on_ctx handler_inspect_run (evm_set_tx tx evm).

Definition finalize evm : MegaEvm * EvmState :=
  let '(j, st) := journal_finalize (op_journal (inner (evm_ctx evm))) in
  (with_ctx (with_journal (evm_ctx evm) j) evm, st).

(** [ExecuteEvm::transact] and [InspectEvm::inspect_tx]. *)
Definition transact (tx : RawTx) : fallible MegaEvm error (result_t * EvmState) :=
  and_finalize (transact_one tx) finalize.
Definition inspect_tx (tx : RawTx) : fallible MegaEvm error (result_t * EvmState) :=
  and_finalize (inspect_one_tx tx) finalize.

(** [.map(|result| .. finalize ..)]. *)
Definition map_finalize {A} (m : fallible MegaEvm error A) : fallible MegaEvm error (A * EvmState) :=
  fbind m (λ x evm, let '(evm, st) := finalize evm in Some (evm, Ok (x, st))).

Definition replay : fallible MegaEvm error (result_t * EvmState) := map_finalize (on_ctx handler_run).

Definition transact_raw (tx : RawTx) : fallible MegaEvm error (result_t * EvmState) := λ evm,
  if evm_inspect evm then inspect_tx tx evm else transact tx evm.

Definition run_system (tx : RawTx) : fallible MegaEvm error result_t := λ evm,
  on_ctx (run_system_call from_frame_error op_catch_error) (evm_set_tx tx evm).

Definition transact_system_call_with_caller (caller contract : Address) (data : Bytes)
    : fallible MegaEvm error result_t :=
  run_system (new_system_tx_with_caller caller contract data).

(** [transact_system_call_with_caller_finalize]. *)
Definition evm_transact_system_call (caller contract : Address) (data : Bytes)
    : fallible MegaEvm error (result_t * EvmState) :=
  and_finalize (transact_system_call_with_caller caller contract data) finalize.

Definition evm_transact_system_call_with_gas_limit (caller contract : Address) (data : Bytes)
    (gas_limit : Z) : fallible MegaEvm error (result_t * EvmState) :=
  map_finalize
    (run_system (raw_with_gas_limit gas_limit (new_system_tx_with_caller caller contract data))).

(** The result of a transaction, its state and what it used. *)
Definition with_usage (m : fallible MegaEvm error (result_t * EvmState))
    : fallible MegaEvm error (MegaTransactionOutcome result_t) :=
  fbind m (λ '(result, state) evm,
    let usage := get_usage (additional_limit (evm_ctx evm)) in
    Some (evm, Ok (mkTxOutcome result state (lu_data_size usage) (lu_kv_updates usage)
                     (lu_compute_gas usage) (lu_state_growth usage)))).

Definition evm_execute_transaction (tx : RawTx)
    : fallible MegaEvm error (MegaTransactionOutcome result_t) := λ evm,
  with_usage (if evm_inspect evm then inspect_tx tx else transact tx) evm.

Definition inspect_transaction (tx : RawTx)
    : fallible MegaEvm error (MegaTransactionOutcome result_t) := with_usage (inspect_tx tx).

(** [ExecuteCommitEvm::commit], from the commit of the database. *)
Definition evm_commit (db_commit : EvmState → DB → DB) (state : EvmState) evm : MegaEvm :=
  with_db (db_commit state (db evm)) evm.

Definition evm_accessed_bucket_ids evm : gset Z := accessed_bucket_ids (evm_ctx evm).

(** [finish]: the database, the block and the configuration. *)
Definition evm_finish evm : DB * BlockEnv * CfgEnv MegaSpecId :=
  let ctx := evm_ctx evm in
  (journal_db (op_journal (inner ctx)), op_block (op_world (inner ctx)),
   into_megaeth_cfg (ctx_spec ctx) (op_cfg (op_world (inner ctx)))).

(** * The factory *)

Record MegaEvmFactory : Type := mkFactory {
  external_envs : Z → S * O;
  dyn_precompiles_builder : option (MegaSpecId → PrecompilesMap);
}.

Definition with_dyn_precompiles_builder (b : MegaSpecId → PrecompilesMap) (f : MegaEvmFactory)
    : MegaEvmFactory := mkFactory (external_envs f) (Some b).
Definition with_external_env_factory (e : Z → S * O) (f : MegaEvmFactory) : MegaEvmFactory :=
  mkFactory e (dyn_precompiles_builder f).

Definition create_evm (f : MegaEvmFactory) (db : DB) (block_env : BlockEnv) (cfg_env : CfgEnv MegaSpecId)
    : panics MegaEvm :=
  let spec_id := ce_spec cfg_env in
  block_number ← to_u64 (be_number block_env);
  let runtime_limits := from_spec spec_id in
  ctx ← context_new db spec_id;
  let '(salt, oracle) := external_envs f block_number in
  ctx ← with_external_envs salt oracle ctx;
  let ctx := with_tx raw_default ctx in
  let ctx := with_block block_env ctx in
  let ctx := with_cfg cfg_env ctx in
  let ctx := with_chain l1_default ctx in
  let ctx := Context.with_tx_runtime_limits ctx runtime_limits in
  Some (with_dyn_precompiles (match dyn_precompiles_builder f with Some b => b spec_id | None => ∅ end)
          (evm_new ctx)).

Definition create_evm_with_inspector (f : MegaEvmFactory) (db : DB) (block_env : BlockEnv)
    (cfg_env : CfgEnv MegaSpecId) : panics MegaEvm :=
  evm ← create_evm f db block_env cfg_env; Some (with_inspector evm).

(** * The EVM of the block executor *)

(** What the block executor reads of an execution result. *)
Context (data_gas_used : exec_data → Z) (logs : Type) (data_logs : exec_data → logs) (no_logs : logs).

Definition mega_block_evm : BlockEvm MegaEvm DB := {|
  BlockEvm.evm_error := error;
  BlockEvm.tx_env := RawTx;
  BlockEvm.exec_result := result_t;
  BlockEvm.logs_t := logs;
  BlockEvm.is_success r := match r with ExecSuccess _ => true | _ => false end;
  BlockEvm.gas_used r :=
    match r with ExecSuccess d | ExecRevert d => data_gas_used d | ExecHalt _ gas => gas end;
  BlockEvm.into_logs r := match r with ExecSuccess d => data_logs d | _ => no_logs end;
  BlockEvm.evm_db := db;
  BlockEvm.evm_with_db := with_db;
  BlockEvm.evm_spec evm := ctx_spec (evm_ctx evm);
  BlockEvm.env_timestamp evm := be_timestamp (op_block (op_world (inner (evm_ctx evm))));
  BlockEvm.env_number evm := be_number (op_block (op_world (inner (evm_ctx evm))));
  BlockEvm.env_gas_limit evm := be_gas_limit (op_block (op_world (inner (evm_ctx evm))));
  BlockEvm.evm_set_system_address a evm := with_ctx (Context.set_system_address (evm_ctx evm) a) evm;
  BlockEvm.evm_get_accessed_bucket_ids := evm_accessed_bucket_ids;
  BlockEvm.transact_system_call := evm_transact_system_call;
  BlockEvm.transact_system_call_with_gas_limit := evm_transact_system_call_with_gas_limit;
  BlockEvm.execute_transaction := evm_execute_transaction;
|}.
End evm.

(** revm's [Context::with_db], from a context on the empty database. *)
Class EmptyContext (J W DB J0 W0 DB0 : Type) `{HB : !EvmParts J W DB} `{HB0 : !EvmParts J0 W0 DB0} := {
  empty_db : DB0;
  op_with_db : DB → OpContext J0 W0 → OpContext J W;
}.

Section default.
Context `{R : Revm} `{RS : RevmState} {J W DB J0 W0 DB0 : Type}.
Context `{HB : !EvmParts J W DB} `{HB0 : !EvmParts J0 W0 DB0} `{HC : !EmptyContext J W DB J0 W0 DB0}.

Definition default_context : panics (MegaContext J0 W0 EmptyExternalEnv EmptyExternalEnv) :=
  context_new empty_db EQUIVALENCE.

Definition ctx_with_db {S O : Type} (d : DB) (ctx : MegaContext J0 W0 S O) : MegaContext J W S O :=
  mkContext (op_with_db d (inner ctx)) (ctx_spec ctx) (disable_beneficiary ctx)
    (additional_limit ctx) (dynamic_storage_gas_cost ctx) (oracle_env ctx)
    (volatile_data_tracker ctx) (inside_sandbox ctx) (system_address ctx).

(** [MegaContext::default().with_db(..).with_cfg(..).with_block(..)]: the context of a transaction
    of the transition tool. *)
Definition transition_context (d : DB) (cfg : CfgEnv MegaSpecId) (block : BlockEnv (EvmParts := HB))
    : panics (MegaContext J W EmptyExternalEnv EmptyExternalEnv) :=
  ctx ← default_context;
  Some (with_block block (with_cfg cfg (ctx_with_db d ctx))).

(** The same with [.with_external_envs(..)]: the context of a state test. *)
Definition state_test_context {S O : Type} (d : DB) (cfg : CfgEnv MegaSpecId)
    (block : BlockEnv (EvmParts := HB)) (salt : S) (oracle : O) : panics (MegaContext J W S O) :=
  ctx ← transition_context d cfg block;
  with_external_envs salt oracle ctx.

(** * What the spec of the configuration does not reach *)

Definition volatile_limits {S O : Type} (ctx : MegaContext J W S O) : Z * Z :=
  (block_env_access_limit (volatile_data_tracker ctx), oracle_access_limit (volatile_data_tracker ctx)).

Lemma transition_context_parts d cfg block ctx :
  transition_context d cfg block = Some ctx →
  ctx_spec ctx = ce_spec cfg ∧
  additional_limit ctx = AdditionalLimit.new EQUIVALENCE (from_spec EQUIVALENCE) ∧
  dg_spec (dynamic_storage_gas_cost ctx) = EQUIVALENCE ∧ volatile_limits ctx = (u64_max, u64_max).
Proof.
  unfold transition_context, default_context, context_new, new_with_shared_ext_envs.
  intros H. bind_inv H. bind_inv E. injection E as <-. injection H as <-.
  unfold with_block, on_new_block, with_cfg. simpl.
  by destruct (is_enabled (ce_spec cfg) MINI_REX).
Qed.

(** Whatever spec is configured, a transaction of the transition tool runs without resource limits
    and with the storage prices of [EQUIVALENCE]. *)
Lemma transition_unlimited d cfg block ctx :
  transition_context d cfg block = Some ctx →
  ctx_spec ctx = ce_spec cfg ∧ limits (additional_limit ctx) = Spec.no_limits ∧
  dg_spec (dynamic_storage_gas_cost ctx) = EQUIVALENCE.
Proof. intros H. destruct (transition_context_parts _ _ _ _ H) as (Hs & -> & Hg & _). done. Qed.

(** A state test runs with the storage prices of its spec, but without resource limits. *)
Lemma state_test_unlimited {S O : Type} d cfg block (salt : S) (oracle : O) ctx :
  state_test_context d cfg block salt oracle = Some ctx →
  ctx_spec ctx = ce_spec cfg ∧ limits (additional_limit ctx) = Spec.no_limits ∧
  dg_spec (dynamic_storage_gas_cost ctx) = ce_spec cfg ∧ volatile_limits ctx = (u64_max, u64_max).
Proof.
  unfold state_test_context. intros H. bind_inv H.
  destruct (transition_context_parts _ _ _ _ E) as (Hs & Ha & _ & Hv).
  unfold with_external_envs in H. bind_inv H. injection H as <-. simpl.
  rewrite Ha. split_and!; done.
Qed.

(** The factory, which blocks are executed with, sets the limits of the spec. *)
Lemma factory_limited {S O : Type} `{HJ : !JournalInspectTr J} `{HP : !OpPrecompiles J W}
    (f : MegaEvmFactory (S := S) (O := O)) (d : DB) block cfg evm :
  create_evm f d block cfg = Some evm →
  limits (additional_limit (evm_ctx evm)) = from_spec (ce_spec cfg).
Proof.
  unfold create_evm. intros H. bind_inv H. bind_inv H.
  destruct (external_envs f x) as [salt oracle]. bind_inv H. by injection H as <-.
Qed.
End default.

(** * Executing and committing *)

(** The default methods of [ExecuteCommitEvm] and [InspectCommitEvm]. *)
Class CommitDefaults := {
  and_commit : ∀ {M A E : Type}, (M → panics (M * result A E)) → (M → M * EvmState) →
    (EvmState → M → M) → M → panics (M * result A E);
}.

(** The state is finalized and committed after a success, and an error commits nothing. *)
Class CommitDefaultsLaws (D : CommitDefaults) := {
  and_commit_spec {M A E : Type} (m : M → panics (M * result A E)) f c s :
    and_commit m f c s =
      ('(s, r) ← m s;
       match r with Ok x => let '(s, st) := f s in Some (c st s, Ok x) | Err e => Some (s, Err e) end);
}.

Section commit.
Context `{R : Revm} `{RS : RevmState} {J : Type} `{HJ : !JournalInspectTr J} {W : Type}.
Context `{HH : !OpHost J W} {S : Type} `{HS : SaltEnv S} {O : Type} `{HO : OracleEnv O}.
Context `{HA : SystemAbi} `{HL : !LocalContext W} `{HK : !KeylessDeploy J W S O}.
Context `{HE : !OpEvm (J := J) (W := W) (S := S) (O := O)} `{HV : !OpValidation J W S O}.
Context {DB : Type} `{HB : !EvmParts J W DB} `{HP : !OpPrecompiles J W} `{HD : ExecuteDefaults}.
Context `{HC : CommitDefaults}.
Context (from_frame_error : frame_error → upstream_error).
Context (from_tx_error : TxError frame_error → upstream_error).
Context (op_catch_error : ValidationError DBError upstream_error →
  step (J := J) (W := W) (S := S) (O := O) (ExecutionResult exec_data OpHaltReason)).
(** [DatabaseCommit::commit]. *)
Context (db_commit : EvmState → DB → DB).

Local Notation error := (ValidationError DBError upstream_error).
Local Notation result_t := (ExecutionResult exec_data (MegaHaltReason OpHaltReason)).

Definition transact_commit (tx : RawTx) : fallible (MegaEvm (J := J) (S := S) (O := O)) error result_t :=
  and_commit (transact_one from_frame_error from_tx_error op_catch_error tx) finalize
    (evm_commit db_commit).

Definition inspect_tx_commit (tx : RawTx) : fallible (MegaEvm (J := J) (S := S) (O := O)) error result_t :=
  and_commit (inspect_one_tx from_frame_error from_tx_error op_catch_error tx) finalize
    (evm_commit db_commit).
End commit.

(** No other spec is without limits. *)
Lemma spec_limits_differ spec : spec ≠ EQUIVALENCE → from_spec spec ≠ Spec.no_limits.
Proof. destruct spec; [done|..]; intros _ [=]. Qed.
