(* ===== verification/MegaEvmFacts.v ===== *)
(** The EVM implements what the block executor relies on.

    [BlockEvmLaws] asks that running a call or a transaction reads the database, commits nothing,
    and keeps the block's environment.  Here the handlers of [evm/execution.rs] are shown to do
    so, one after the other, given that the upstream steps they call do ([ReadingUpstream]);
    the execution loop is any sequence of handlers.  Upstream calls back into two parts of the
    program, the instruction table and the keyless deployment: [ReadingCode] is what the handlers
    rely on of them, and it is proved, for any program that runs on the table and for the sandbox
    of [Sandbox] on a journal over a database ([CallerJournal]). *)

From S2P Require Import Journal KeylessError StateMerge SandboxDb Sandbox SandboxFacts.
From S2P Require Import AdditionalLimitFacts.
From S2P Require Import Instructions InstructionsFacts InstructionSafety.
From S2P Require Import Prelude Spec Revm LimitCheck Interfaces ComputeGas DataSize KVUpdate.
From S2P Require Import StateGrowth StorageCallStipend AdditionalLimit Access DynamicGas.
From S2P Require Import SystemTx Context Intercept Execution EvmState Validation Precompiles.
From S2P Require Import BlockLimit Effects SystemContracts SystemContractsFacts BlockEvm.
From S2P Require Import BlockExecutorFacts MegaEvm LimitCheck Interfaces.

Create HintDb reads.

Section reads.
Context `{R : Revm} `{RS : RevmState} {J : Type} `{HJ : !JournalInspectTr J} {W : Type}.
Context `{HH : !OpHost J W} {S : Type} `{HS : SaltEnv S} {O : Type} `{HO : OracleEnv O}.
Context `{HA : SystemAbi} `{HL : !LocalContext W} `{HK : !KeylessDeploy J W S O}.
Context `{HE : !OpEvm (J := J) (W := W) (S := S) (O := O)} `{HV : !OpValidation J W S O}.
Context {DB : Type} `{HB : !EvmParts J W DB} `{VW : !BlockView DB}.

Local Notation ctx_t := (MegaContext J W S O).
Local Notation step := (step (J := J) (W := W) (S := S) (O := O)).
Implicit Types ctx : ctx_t.

Definition ctx_db ctx : DB := journal_db (op_journal (inner ctx)).

(** Only the cache of the database, and what belongs to the transaction, may differ. *)
Definition ctx_reads ctx ctx' : Prop :=
  only_read (ctx_db ctx) (ctx_db ctx') ∧
  op_block (op_world (inner ctx')) = op_block (op_world (inner ctx)) ∧
  ctx_spec ctx' = ctx_spec ctx ∧ system_address ctx' = system_address ctx.

#[export] Instance ctx_reads_preorder : PreOrder ctx_reads.
Proof.
  split; [by intros ctx|]. intros c1 c2 c3 (?&?&?&?) (?&?&?&?).
  split_and!; [by etransitivity|congruence..].
Qed.

(** What a computation started in [ctx] may return. *)
Definition reads_from {A} ctx (o : panics (ctx_t * A)) : Prop :=
  ∀ ctx' x, o = Some (ctx', x) → ctx_reads ctx ctx'.

(** A computation that may panic, and one that may not. *)
Definition reading {A} (m : ctx_t → panics (ctx_t * A)) : Prop := ∀ ctx, reads_from ctx (m ctx).
Definition reading_total {A} (m : ctx_t → ctx_t * A) : Prop := reading (λ ctx, Some (m ctx)).
(** One that returns the context only. *)
Definition reading_only (m : ctx_t → panics ctx_t) : Prop :=
  reading (λ ctx, option_map (λ c, (c, tt)) (m ctx)).

Lemma rf_some {A} ctx ctx' (x : A) : ctx_reads ctx ctx' → reads_from ctx (Some (ctx', x)).
Proof. by intros H ? ? [= <- <-]. Qed.

Lemma rf_trans {A} ctx c (o : panics (ctx_t * A)) :
  ctx_reads ctx c → reads_from c o → reads_from ctx o.
Proof. intros H Ho ctx' x E. etransitivity; [exact H|by eapply Ho]. Qed.

(** A computation on the context, then another; a computation on a part of it; an update. *)
Lemma rf_bind {A B} ctx (m : panics (ctx_t * A)) (k : ctx_t * A → panics (ctx_t * B)) :
  reads_from ctx m → (∀ c x, reads_from c (k (c, x))) → reads_from ctx (m ≫= k).
Proof.
  intros Hm Hk. destruct m as [[c x]|]; [|done]. simpl. eapply rf_trans; [by eapply Hm|apply Hk].
Qed.

Lemma rf_bind_only {B} ctx (m : panics ctx_t) (k : ctx_t → panics (ctx_t * B)) :
  reads_from ctx (option_map (λ c, (c, tt)) m) → (∀ c, reads_from c (k c)) → reads_from ctx (m ≫= k).
Proof.
  intros Hm Hk. destruct m as [c|]; [|done]. simpl. eapply rf_trans; [by eapply Hm|apply Hk].
Qed.

Lemma rf_bind3 {A A' B} ctx (m : panics (ctx_t * A * A')) (k : ctx_t * A * A' → panics (ctx_t * B)) :
  (∀ c x y, m = Some (c, x, y) → ctx_reads ctx c) → (∀ c x y, reads_from c (k (c, x, y))) →
  reads_from ctx (m ≫= k).
Proof.
  intros Hm Hk. destruct m as [[[c x] y]|]; [|done]. simpl. eapply rf_trans; [by eapply Hm|apply Hk].
Qed.

Lemma rf_bind_part {A B} ctx (m : panics A) (k : A → panics (ctx_t * B)) :
  (∀ x, reads_from ctx (k x)) → reads_from ctx (m ≫= k).
Proof. intros Hk. destruct m as [x|]; [apply Hk|done]. Qed.

Lemma rf_sbind {A B} ctx c (m : step A) (k : A → step B) :
  reads_from ctx (m c) → (∀ x c, reads_from c (k x c)) → reads_from ctx (sbind m k c).
Proof. intros Hm Hk. apply rf_bind; [exact Hm|]. intros c' [x|e]; [apply Hk|by apply rf_some]. Qed.

Lemma option_map_bind {A B C} (f : B → C) (m : option A) k :
  option_map f (m ≫= k) = m ≫= (λ x, option_map f (k x)).
Proof. by destruct m. Qed.

(** The parts of the context that are compared. *)
Lemma reads_same ctx ctx' :
  op_journal (inner ctx') = op_journal (inner ctx) → op_world (inner ctx') = op_world (inner ctx) →
  ctx_spec ctx' = ctx_spec ctx → system_address ctx' = system_address ctx → ctx_reads ctx ctx'.
Proof.
  intros Hj Hw Hs Ha. unfold ctx_reads, ctx_db. rewrite Hj, Hw. by split_and!.
Qed.

(** Another journal. *)
Lemma reads_journal ctx j :
  only_read (journal_db (op_journal (inner ctx))) (journal_db j) → ctx_reads ctx (with_journal ctx j).
Proof. by split. Qed.
End reads.

(** ** Automation: a computation reads when its parts do. *)

(** An update of the context. *)
Ltac updated :=
  repeat case_match; solve [apply reads_same; reflexivity | eauto with reads].

(** A call of something known to read. *)
Ltac known :=
  lazymatch goal with
  | |- reads_from ?ctx (Some (?m ?c)) =>
      apply (rf_trans ctx c); [updated|];
      let H := fresh in assert (H : reading_total m) by (solve [eauto with reads]); exact (H c)
  | |- reads_from ?ctx (option_map _ (?m ?c)) =>
      apply (rf_trans ctx c); [updated|];
      let H := fresh in assert (H : reading_only m) by (solve [eauto with reads]); exact (H c)
  | |- reads_from ?ctx (?m ?c) =>
      apply (rf_trans ctx c); [updated|];
      let H := fresh in assert (H : reading m) by (solve [eauto with reads]); exact (H c)
  end.

(** Opens the pair a step returns, which [solver] shows to read. *)
Ltac open_pair ctx t solver :=
  let H := fresh in
  assert (H : reads_from ctx (Some t)) by (solve [solver]);
  let c := fresh "c" in let x := fresh "x" in
  destruct t as [c x]; apply (rf_trans ctx c _ (H _ _ eq_refl)); clear H.

Ltac rd :=
  cbn beta iota zeta;
  lazymatch goal with
  | |- reading_total _ => let c := fresh "ctx" in intros c; rd
  | |- reading_only _ => let c := fresh "ctx" in intros c; rd
  | |- reading _ => let c := fresh "ctx" in intros c; rd
  | |- reads_from _ None => intros ? ? ?; discriminate
  | |- reads_from _ (Some (_, _)) => apply rf_some; updated
  | |- reads_from _ (sret _ _) => apply rf_some; updated
  | |- reads_from _ (sfail _ _) => apply rf_some; updated
  | |- reads_from ?ctx (Some (match ?t with pair _ _ => _ end)) =>
      first [open_pair ctx t rd; rd | destruct t; rd]
  | |- reads_from _ (Some (match ?t with _ => _ end)) => destruct t; rd
  | |- reads_from _ (option_map _ (Some _)) => apply rf_some; updated
  | |- reads_from _ (option_map _ (_ ≫= _)) => rewrite option_map_bind; rd
  | |- reads_from _ (option_map _ (match ?t with _ => _ end)) => destruct t; rd
  | |- reads_from _ (sbind _ _ _) => apply rf_sbind; [rd|intros ? ?; rd]
  | |- reads_from _ (_ ≫= _) =>
      first [apply rf_bind; [rd|intros ? ?; rd]
            |apply rf_bind_only; [rd|intros ?; rd]
            |apply rf_bind3; [solve [intros; eauto with reads]|intros ? ? ?; rd]
            |apply rf_bind_part; intros ?; rd]
  | |- reads_from ?ctx (match ?t with pair _ _ => _ end) =>
      first [open_pair ctx t rd; rd | destruct t; rd]
  | |- reads_from _ (match ?t with _ => _ end) => destruct t; rd
  | |- reads_from _ ((match ?t with _ => _ end) _) => destruct t; rd
  | |- reads_from _ _ => first [known|idtac]
  end.

(** * Upstream *)

Section upstream.
Context `{R : Revm} `{RS : RevmState} {J : Type} `{HJ : !JournalInspectTr J} {W : Type}.
Context `{HH : !OpHost J W} {S : Type} `{HS : SaltEnv S} {O : Type} `{HO : OracleEnv O}.
Context `{HA : SystemAbi} `{HL : !LocalContext W} `{HK : !KeylessDeploy J W S O}.
Context `{HE : !OpEvm (J := J) (W := W) (S := S) (O := O)} `{HV : !OpValidation J W S O}.
Context {DB : Type} `{HB : !EvmParts J W DB} `{VW : !BlockView DB}.
Context (op_catch_error : ValidationError DBError upstream_error →
  step (J := J) (W := W) (S := S) (O := O) (ExecutionResult exec_data OpHaltReason)).

Local Notation ctx_t := (MegaContext J W S O).

(** A turn of the loop calls one of the handlers. *)
Inductive handler_step : ctx_t → ctx_t → Prop :=
  | hs_init init ctx ctx' r : frame_init init ctx = Some (ctx', r) → handler_step ctx ctx'
  | hs_run ctx ctx' r : frame_run ctx = Some (ctx', r) → handler_step ctx ctx'
  | hs_return x ctx ctx' r : frame_return_result x ctx = Some (ctx', r) → handler_step ctx ctx'
  | hs_inspect_init init ctx ctx' r :
      inspect_frame_init init ctx = Some (ctx', r) → handler_step ctx ctx'
  | hs_inspect_run ctx ctx' r : inspect_frame_run ctx = Some (ctx', r) → handler_step ctx ctx'.

(** The journal reads through its database and keeps it. *)
Class ReadingJournal := {
  inspect_account_reads a c (j j' : J) r :
    inspect_account a c j = (j', r) → only_read (journal_db j) (journal_db j');
  inspect_delegated_reads spec a (j j' : J) r :
    inspect_account_delegated spec a j = Some (j', r) → only_read (journal_db j) (journal_db j');
  inspect_storage_reads spec a k (j j' : J) r :
    inspect_storage spec a k j = Some (j', r) → only_read (journal_db j) (journal_db j');
  finalize_db (j : J) : journal_db (fst (journal_finalize j)) = journal_db j;
  journal_db_with_db d (j : J) : journal_db (journal_with_db d j) = d;
}.

(** Nothing upstream commits to the database, or changes the block. *)
Class ReadingUpstream := {
  ru_set_tx tx (o : OpContext J W) :
    op_journal (op_set_tx tx o) = op_journal o ∧
    op_block (op_world (op_set_tx tx o)) = op_block (op_world o);
  ru_frame_init init : reading_total (inner_frame_init init);
  ru_next_action act : reading_total (process_next_action act);
  ru_set_finished ctx : ctx_reads ctx (set_finished ctx);
  ru_return r : reading_total (inner_frame_return_result r);
  ru_last r : reading_total (inner_last_frame_result r);
  ru_frame_start i ctx : ctx_reads ctx (frame_start i ctx).1.1;
  ru_frame_end i r : reading_total (frame_end i r);
  ru_initialize ctx : ctx_reads ctx (initialize_interp ctx);
  ru_execution_result r : reading_total (op_execution_result r);
  ru_output r : reading_total (post_execution_output r);
  ru_clear ctx : ctx_reads ctx (clear_after_sandbox ctx);
  ru_validate_env : reading_total validate_env;
  ru_deduct : reading_total validate_against_state_and_deduct_caller;
  ru_load : reading_total load_accounts;
  ru_auth : reading_total apply_eip7702_auth_list;
  ru_reward r : reading_total (op_reward_beneficiary r);
  ru_first g : reading_total (first_frame_input g);
  ru_settle g n r : reading_total (settle_gas g n r);
  ru_catch e : reading (op_catch_error e);
  (** The loops only call the handlers. *)
  ru_loop init ctx ctx' r : run_exec_loop init ctx = Some (ctx', r) → rtc handler_step ctx ctx';
  ru_inspect_loop init ctx ctx' r :
    inspect_run_exec_loop init ctx = Some (ctx', r) → rtc handler_step ctx ctx';
}.

(** What the handlers rely on of the program's own code that upstream calls back: running the
    instructions of a frame, and the keyless deployment. *)
Class ReadingCode := {
  rc_run_plain : reading_total run_plain;
  rc_inspect_instructions : reading_total inspect_instructions;
  rc_keyless c b g : reading (execute_keyless_deploy_call c b g);
}.
End upstream.

(** * The handlers *)

Section handlers.
Context `{R : Revm} `{RS : RevmState} {J : Type} `{HJ : !JournalInspectTr J} {W : Type}.
Context `{HH : !OpHost J W} {S : Type} `{HS : SaltEnv S} {O : Type} `{HO : OracleEnv O}.
Context `{HA : SystemAbi} `{HL : !LocalContext W} `{HK : !KeylessDeploy J W S O}.
Context `{HE : !OpEvm (J := J) (W := W) (S := S) (O := O)} `{HV : !OpValidation J W S O}.
Context {DB : Type} `{HB : !EvmParts J W DB} `{VW : !BlockView DB}.
Context (op_catch_error : ValidationError DBError upstream_error →
  step (J := J) (W := W) (S := S) (O := O) (ExecutionResult exec_data OpHaltReason)).
Context `{RJ : !ReadingJournal} `{RU : !ReadingUpstream op_catch_error} `{RC : !ReadingCode}.

Local Notation ctx_t := (MegaContext J W S O).
Local Notation error := (ValidationError DBError upstream_error).
Local Notation reading_only := (reading_only (J := J) (W := W) (S := S) (O := O)).
Local Notation reading := (reading (J := J) (W := W) (S := S) (O := O)).
Local Notation reading_total := (reading_total (J := J) (W := W) (S := S) (O := O)).
Implicit Types ctx : ctx_t.

(** ** Limit hooks *)

(** Follows the computation of [H]. *)
Ltac follow H := repeat first [bind_inv H | case_match]; simplify_eq/=.

Ltac inspections :=
  repeat match goal with
    | E : Interfaces.inspect_account_delegated _ _ _ = Some _ |- _ => apply inspect_delegated_reads in E
    | E : Interfaces.inspect_account _ _ _ = _ |- _ => apply inspect_account_reads in E
    end;
  solve [done | assumption | etransitivity; eassumption].

Lemma growth_init_reads fi (j j' : J) t t' r :
  StateGrowth.before_frame_init fi j t = Some (t', j', r) → only_read (journal_db j) (journal_db j').
Proof. unfold StateGrowth.before_frame_init. intros H. follow H; inspections. Qed.

Lemma data_init_reads fi (j j' : J) t t' r :
  DataSize.before_frame_init fi j t = Some (t', j', r) → j' = j.
Proof. unfold DataSize.before_frame_init. intros H. follow H; done. Qed.

Lemma kv_init_reads fi (j j' : J) t t' r :
  KVUpdate.before_frame_init fi j t = Some (t', j', r) → j' = j.
Proof. unfold KVUpdate.before_frame_init. intros H. follow H; done. Qed.

Lemma compute_init_reads fi (j j' : J) t t' r :
  ComputeGas.before_frame_init fi j t = Some (t', j', r) → j' = j.
Proof. unfold ComputeGas.before_frame_init. intros H. follow H; done. Qed.

Lemma limit_init_reads fi (j j' : J) a a' fi' r :
  AdditionalLimit.before_frame_init fi j a = Some (a', fi', j', r) →
  only_read (journal_db j) (journal_db j').
Proof.
  unfold AdditionalLimit.before_frame_init. intros H. follow H;
    repeat match goal with
      | E : StateGrowth.before_frame_init _ _ _ = Some _ |- _ => apply growth_init_reads in E
      | E : DataSize.before_frame_init _ _ _ = Some _ |- _ => apply data_init_reads in E as ->
      | E : KVUpdate.before_frame_init _ _ _ = Some _ |- _ => apply kv_init_reads in E as ->
      | E : ComputeGas.before_frame_init _ _ _ = Some _ |- _ => apply compute_init_reads in E as ->
      end; assumption.
Qed.

#[local] Hint Resolve ru_frame_init rc_run_plain ru_next_action ru_set_finished ru_return ru_last
  ru_frame_start ru_frame_end ru_initialize rc_inspect_instructions ru_execution_result ru_output
  ru_clear rc_keyless ru_validate_env ru_deduct ru_load ru_auth ru_reward ru_first ru_settle ru_catch
  : reads.

(** ** Interception *)

Lemma oracle_hint_reads c d : reading_only (oracle_hint_intercept c d).
Proof. unfold oracle_hint_intercept, forward_hint. rd. Qed.

Lemma keyless_intercept_reads c d : reading (keyless_deploy_intercept c d).
Proof. unfold keyless_deploy_intercept. rd. Qed.

Lemma access_intercept_reads c d : reading (access_control_intercept c d).
Proof.
  unfold access_control_intercept, handle_disable, handle_enable, handle_is_disabled. rd.
Qed.

Lemma limit_intercept_reads c : reading (limit_control_intercept c).
Proof. unfold limit_control_intercept, handle_remaining_compute_gas. rd. Qed.

#[local] Hint Resolve oracle_hint_reads keyless_intercept_reads access_intercept_reads
  limit_intercept_reads : reads.

Lemma dispatch_reads c d : reading (dispatch_system_contract_interceptors c d).
Proof. unfold dispatch_system_contract_interceptors. rd. Qed.

(** ** Frames *)

Lemma detect_oracle_reads fi ctx : ctx_reads ctx (detect_oracle_call fi ctx).
Proof. unfold detect_oracle_call. updated. Qed.

Lemma push_empty_reads : reading_only push_empty.
Proof. unfold push_empty. rd. Qed.

#[local] Hint Resolve dispatch_reads detect_oracle_reads push_empty_reads : reads.

Lemma exceeded_reads i : reading (exceeded_before_dispatch i).
Proof. unfold exceeded_before_dispatch. rd. Qed.

Lemma too_deep_reads i d : reading (too_deep_before_dispatch i d).
Proof. unfold too_deep_before_dispatch. rd. Qed.

Lemma intercept_reads i d : reading (intercept i d).
Proof. unfold intercept. rd. Qed.

Lemma limit_before_reads fi ctx ctx' fi' r :
  limit_before_frame_init fi ctx = Some (ctx', fi', r) → ctx_reads ctx ctx'.
Proof.
  unfold limit_before_frame_init. intros H. case_match; [bind_inv H|].
  - injection H as <- <- <-. exact (reads_journal ctx _ (limit_init_reads _ _ _ _ _ _ _ E)).
  - by injection H as <- <- <-.
Qed.

Lemma before_run_reads f : reading (Execution.before_frame_run f).
Proof. unfold Execution.before_frame_run. rd. Qed.

Lemma precharge_reads f r : reading_only (precharge_code_deposit f r).
Proof. unfold precharge_code_deposit. rd. Qed.

#[local] Hint Resolve exceeded_reads too_deep_reads intercept_reads before_run_reads precharge_reads
  limit_before_reads : reads.

Lemma after_instructions_reads f act : reading (Execution.after_frame_run_instructions f act).
Proof. unfold Execution.after_frame_run_instructions. rd. Qed.

Lemma after_run_reads out g : reading (Execution.after_frame_run out g).
Proof. unfold Execution.after_frame_run. rd. Qed.

#[local] Hint Resolve after_instructions_reads after_run_reads : reads.

Lemma finish_run_reads f act : reading (finish_frame_run f act).
Proof. unfold finish_frame_run. rd. Qed.

#[local] Hint Resolve finish_run_reads : reads.

Lemma frame_run_reads : reading frame_run.
Proof. unfold frame_run. rd. Qed.

(** Opening a frame, from the context the oracle detection leaves. *)
Lemma frame_init_reads init : reading (frame_init init).
Proof.
  intros ctx. unfold frame_init. cbv zeta.
  match goal with |- reads_from _ (exceeded_before_dispatch _ ?c ≫= _) =>
    apply (rf_trans ctx c); [updated|generalize c; clear ctx; intros ctx] end.
  rd.
Qed.

Lemma return_result_reads r : reading (frame_return_result r).
Proof. unfold frame_return_result. rd. Qed.

Lemma last_result_reads r : reading (last_frame_result r).
Proof. unfold last_frame_result. rd. Qed.

#[local] Hint Resolve frame_init_reads frame_run_reads : reads.

Lemma inspect_init_reads init : reading (inspect_frame_init init).
Proof.
  intros ctx. unfold inspect_frame_init.
  pose proof (ru_frame_start op_catch_error (fi_frame_input init) ctx) as Hs.
  destruct (frame_start _ ctx) as [[c i] answered]. eapply rf_trans; [exact Hs|]. rd.
Qed.

Lemma inspect_run_reads : reading inspect_frame_run.
Proof. unfold inspect_frame_run. rd. Qed.

Lemma base_result_reads r : reading_total (base_execution_result r).
Proof. unfold base_execution_result. rd. Qed.

Lemma halt_reason_reads v h : reading (halt_reason v h).
Proof. unfold halt_reason. rd. Qed.

#[local] Hint Resolve base_result_reads halt_reason_reads : reads.

Lemma execution_result_reads r : reading (execution_result r).
Proof. unfold execution_result. rd. Qed.

(** ** Transactions *)

Lemma check_tx_beneficiary_reads ctx : ctx_reads ctx (check_tx_beneficiary_access ctx).
Proof. unfold check_tx_beneficiary_access. updated. Qed.

#[local] Hint Resolve check_tx_beneficiary_reads : reads.

Lemma on_new_tx_reads : reading_only on_new_tx.
Proof.
  unfold on_new_tx. intros ctx.
  apply (rf_trans ctx (reset_volatile_data_access ctx)); [updated|]. cbv zeta.
  generalize (reset_volatile_data_access ctx). clear ctx. intros ctx. rewrite option_map_bind.
  apply rf_bind_only; [rd|]. intros c. apply rf_some.
  match goal with |- context [check_tx_beneficiary_access ?c1] =>
    transitivity (check_tx_beneficiary_access c1);
    [etransitivity; [|apply check_tx_beneficiary_reads]; updated
    |generalize (check_tx_beneficiary_access c1); intros; updated] end.
Qed.

#[local] Hint Resolve on_new_tx_reads : reads.

(** A read of an account. *)
Lemma inspect_account_ctx a b ctx j r :
  Interfaces.inspect_account a b (op_journal (inner ctx)) = (j, r) →
  ctx_reads ctx (with_journal ctx j).
Proof. intros E. by eapply reads_journal, inspect_account_reads. Qed.

Lemma before_tx_reads : reading before_run.
Proof.
  unfold before_run. intros ctx. cbv zeta. repeat case_match; try rd;
    (eapply rf_trans; [by eapply inspect_account_ctx|rd]).
Qed.

(** ** Validation and settlement *)

Lemma upstream_reads {A} (m : ctx_t → ctx_t * result A upstream_error) :
  reading_total m → reading (upstream m).
Proof. intros Hm. unfold upstream. rd. Qed.

Lemma converting_reads {A E} (from : E → upstream_error) (m : ctx_t → panics (ctx_t * result A E)) :
  reading m → reading (converting from m).
Proof. intros Hm. unfold converting. rd. Qed.

Lemma inspect_step_reads a b : reading (inspect a b).
Proof.
  intros ctx. unfold inspect. destruct (Interfaces.inspect_account _ _ _) as [j r] eqn:E.
  by eapply rf_some, inspect_account_ctx.
Qed.

Lemma inspect_text_reads a b : reading (inspect_or_text a b).
Proof.
  intros ctx. unfold inspect_or_text. destruct (Interfaces.inspect_account _ _ _) as [j r] eqn:E.
  by eapply rf_some, inspect_account_ctx.
Qed.

Lemma on_limit_reads f : reading (on_limit f).
Proof. unfold on_limit. rd. Qed.

#[local] Hint Resolve upstream_reads converting_reads inspect_step_reads inspect_text_reads on_limit_reads
  before_tx_reads : reads.

Lemma authority_state_reads b sim a : reading (authority_state b sim a).
Proof. unfold authority_state. rd. Qed.

#[local] Hint Resolve authority_state_reads : reads.

Lemma scan_reads b chain l sim : reading (scan_authorizations b chain l sim).
Proof. revert sim. induction l as [|au l IH]; intros sim; simpl; rd. Qed.

#[local] Hint Resolve scan_reads : reads.

Lemma scan_applied_reads b : reading (scan_applied_eip7702_authorizations b).
Proof. unfold scan_applied_eip7702_authorizations. rd. Qed.

#[local] Hint Resolve scan_applied_reads : reads.

Lemma rex5_authority_reads : reading record_rex5_eip7702_authority_state_growth.
Proof. unfold record_rex5_eip7702_authority_state_growth. rd. Qed.

Lemma record_applied_reads l : reading (record_applied l).
Proof. induction l as [|au l IH]; simpl; rd. Qed.

Lemma detain_reads ctx : ctx_reads ctx (detain_for_beneficiary ctx).
Proof. unfold detain_for_beneficiary, check_and_mark_beneficiary_balance_access. updated. Qed.

#[local] Hint Resolve rex5_authority_reads record_applied_reads detain_reads : reads.

Lemma rex6_authority_reads : reading record_rex6_eip7702_authority_accounting.
Proof. unfold record_rex6_eip7702_authority_accounting. rd. Qed.

Lemma storage_gas_reads {E} u (s : DynamicGasCost S → panics (DynamicGasCost S * result Z E)) :
  reading (storage_gas u s).
Proof. unfold storage_gas. rd. Qed.

Lemma new_account_reads a : reading (new_account_storage_gas a).
Proof. apply storage_gas_reads. Qed.
Lemma create_contract_reads a : reading (create_contract_storage_gas a).
Proof. apply storage_gas_reads. Qed.

Lemma price_reads m : reading m → reading (price_or_fail m).
Proof. intros Hm. unfold price_or_fail. rd. Qed.

#[local] Hint Resolve rex6_authority_reads new_account_reads create_contract_reads price_reads : reads.

Lemma callee_gas_reads l : reading (callee_storage_gas l).
Proof.
  unfold callee_storage_gas. rd.
  apply price_reads. case_match; auto with reads.
Qed.

Lemma authorities_gas_reads l acc : reading (authorities_storage_gas l acc).
Proof. revert acc. induction l as [|a l IH]; intros acc; simpl; rd. Qed.

Lemma deposit_gas_reads : reading deposit_caller_storage_gas.
Proof. unfold deposit_caller_storage_gas. rd. Qed.

Lemma calldata_reads g : reading (charge_calldata g).
Proof. unfold charge_calldata. rd. Qed.

Lemma final_check_reads g : reading (final_gas_check g).
Proof. unfold final_gas_check. rd. Qed.

Lemma initial_gas_reads :
  reading_total (λ ctx, (ctx, validate_initial_tx_gas ctx)).
Proof. rd. Qed.

#[local] Hint Resolve callee_gas_reads authorities_gas_reads deposit_gas_reads calldata_reads
  final_check_reads initial_gas_reads : reads.

Lemma validate_reads : reading validate.
Proof. unfold validate. rd. Qed.

Lemma pre_execution_reads : reading pre_execution.
Proof. unfold pre_execution. rd. Qed.

Lemma fee_recipient_reads a : reading (fee_recipient_balance_and_emptiness a).
Proof. unfold fee_recipient_balance_and_emptiness. rd. Qed.

#[local] Hint Resolve validate_reads pre_execution_reads fee_recipient_reads : reads.

Lemma snapshots_reads l acc : reading (snapshot_recipients l acc).
Proof. revert acc. induction l as [|a l IH]; intros acc; simpl; rd. Qed.

Lemma rewards_reads l : reading (record_rewards l).
Proof. induction l as [|x l IH]; simpl; rd. Qed.

#[local] Hint Resolve snapshots_reads rewards_reads : reads.

Lemma reward_reads r : reading (reward_beneficiary r).
Proof. unfold reward_beneficiary, snapshot_fee_recipients. rd. Qed.

#[local] Hint Resolve reward_reads : reads.

(** ** A whole transaction *)

Lemma step_reads ctx ctx' : handler_step ctx ctx' → ctx_reads ctx ctx'.
Proof.
  intros [init c c' r H|c c' r H|x c c' r H|init c c' r H|c c' r H].
  - exact (frame_init_reads _ _ _ _ H).
  - exact (frame_run_reads _ _ _ H).
  - exact (return_result_reads _ _ _ _ H).
  - exact (inspect_init_reads _ _ _ _ H).
  - exact (inspect_run_reads _ _ _ H).
Qed.

Lemma loop_reads init : reading (run_exec_loop init).
Proof.
  intros ctx ctx' r H. apply (ru_loop op_catch_error) in H.
  induction H as [c|c1 c2 c3 Hs _ IH]; [reflexivity|]. etransitivity; [by apply step_reads|exact IH].
Qed.

Lemma inspect_loop_reads init : reading (inspect_run_exec_loop init).
Proof.
  intros ctx ctx' r H. apply (ru_inspect_loop op_catch_error) in H.
  induction H as [c|c1 c2 c3 Hs _ IH]; [reflexivity|]. etransitivity; [by apply step_reads|exact IH].
Qed.

#[local] Hint Resolve loop_reads inspect_loop_reads last_result_reads execution_result_reads : reads.

Context (from_frame_error : frame_error → upstream_error).
Context (from_tx_error : TxError frame_error → upstream_error).

Lemma execution_with_reads loop g :
  (∀ init, reading (loop init)) → reading (execution_with from_frame_error loop g).
Proof. intros Hl. unfold execution_with. rd. Qed.

Lemma post_execution_reads g n r : reading (post_execution g n r).
Proof. unfold post_execution. rd. Qed.

Lemma catch_error_reads e : reading (catch_error op_catch_error e).
Proof. unfold catch_error. rd. Qed.

#[local] Hint Resolve post_execution_reads catch_error_reads : reads.

Lemma run_with_reads exec :
  (∀ g, reading (exec g)) → reading (run_with from_frame_error from_tx_error exec).
Proof. intros He. unfold run_with. rd. Qed.

Lemma execution_reads g : reading (execution from_frame_error g).
Proof. apply execution_with_reads, loop_reads. Qed.
Lemma inspect_execution_reads g : reading (inspect_execution from_frame_error g).
Proof. apply execution_with_reads, inspect_loop_reads. Qed.

#[local] Hint Resolve execution_reads : reads.

Lemma system_call_reads : reading (run_system_call from_frame_error op_catch_error).
Proof. unfold run_system_call. rd. Qed.

Context `{HD : ExecuteDefaults} `{HDL : !ExecuteDefaultsLaws HD}.

Lemma catching_reads {A E : Type} (m : ctx_t → panics (ctx_t * result A E)) c :
  reading m → (∀ e, reading (c e)) → reading (catching m c).
Proof. intros Hm Hc ctx. rewrite catching_spec. rd. Qed.

Lemma handler_run_reads : reading (handler_run from_frame_error from_tx_error op_catch_error).
Proof. apply catching_reads; [apply run_with_reads, execution_reads|apply catch_error_reads]. Qed.

Lemma handler_inspect_reads :
  reading (handler_inspect_run from_frame_error from_tx_error op_catch_error).
Proof.
  apply catching_reads; [apply run_with_reads, inspect_execution_reads|apply catch_error_reads].
Qed.
End handlers.

(** * The EVM *)

Section evm.
Context `{R : Revm} `{RS : RevmState} {J : Type} `{HJ : !JournalInspectTr J} {W : Type}.
Context `{HH : !OpHost J W} {S : Type} `{HS : SaltEnv S} {O : Type} `{HO : OracleEnv O}.
Context `{HA : SystemAbi} `{HL : !LocalContext W} `{HK : !KeylessDeploy J W S O}.
Context `{HE : !OpEvm (J := J) (W := W) (S := S) (O := O)} `{HV : !OpValidation J W S O}.
Context {DB : Type} `{HB : !EvmParts J W DB} `{VW : !BlockView DB} `{HP : !OpPrecompiles J W}.
Context `{HD : ExecuteDefaults} `{HDL : !ExecuteDefaultsLaws HD}.
Context (from_frame_error : frame_error → upstream_error).
Context (from_tx_error : TxError frame_error → upstream_error).
Context (op_catch_error : ValidationError DBError upstream_error →
  step (J := J) (W := W) (S := S) (O := O) (ExecutionResult exec_data OpHaltReason)).
Context `{RJ : !ReadingJournal} `{RU : !ReadingUpstream op_catch_error} `{RC : !ReadingCode}.

Local Notation error := (ValidationError DBError upstream_error).
Local Notation MegaEvm := (MegaEvm (J := J) (W := W) (S := S) (O := O)).
Local Notation execute := (evm_execute_transaction from_frame_error from_tx_error op_catch_error).
Local Notation call := (evm_transact_system_call from_frame_error op_catch_error).
Local Notation call_with_gas :=
  (evm_transact_system_call_with_gas_limit from_frame_error op_catch_error).
Local Notation replay := (replay from_frame_error from_tx_error op_catch_error).
Implicit Types evm v : MegaEvm.

(** Neither the database nor the configuration of the EVM is changed. *)
Definition evm_reads v v' : Prop :=
  ctx_reads (evm_ctx v) (evm_ctx v') ∧ evm_instruction v' = evm_instruction v ∧
  evm_precompiles v' = evm_precompiles v ∧ evm_inspect v' = evm_inspect v.

#[export] Instance evm_reads_preorder : PreOrder evm_reads.
Proof.
  split; [intros v; by split|]. intros v1 v2 v3 (?&?&?&?) (?&?&?&?).
  split_and!; [by etransitivity|congruence..].
Qed.

Lemma reads_with_ctx v c : ctx_reads (evm_ctx v) c → evm_reads v (with_ctx c v).
Proof. by split. Qed.

Lemma reads_on_ctx {A} (m : MegaContext J W S O → panics (MegaContext J W S O * result A error)) :
  reading m → steps evm_reads (on_ctx m).
Proof.
  intros Hm v v' r H. destruct (zoom_some _ _ _ _ _ _ _ H) as (c & r1 & H1 & -> & _).
  by eapply reads_with_ctx, Hm.
Qed.

Lemma reads_set_tx tx v : evm_reads v (evm_set_tx tx v).
Proof.
  apply reads_with_ctx. destruct (ru_set_tx op_catch_error tx (inner (evm_ctx v))) as [Hj Hb].
  unfold ctx_reads, ctx_db. simpl. rewrite Hj, Hb. by split_and!.
Qed.

Lemma reads_finalize v : evm_reads v (finalize v).1.
Proof.
  unfold finalize. pose proof (finalize_db (op_journal (inner (evm_ctx v)))) as Hf.
  destruct (journal_finalize _) as [j st]. apply reads_with_ctx, reads_journal. simpl in *.
  rewrite Hf. reflexivity.
Qed.

Lemma reads_map_finalize {A} (m : fallible MegaEvm error A) :
  steps evm_reads m → steps evm_reads (map_finalize m).
Proof.
  intros Hm. apply steps_bind; [exact _|exact Hm|]. intros x v v' r H.
  pose proof (reads_finalize v) as Hf. destruct (finalize v) as [v1 st]. by injection H as <- <-.
Qed.

Lemma reads_and_finalize {A} (m : fallible MegaEvm error A) :
  steps evm_reads m → steps evm_reads (and_finalize m finalize).
Proof.
  intros Hm v v' r H. rewrite and_finalize_spec in H. bind_inv H.
  apply Hm in E. etransitivity; [exact E|]. destruct y as [a|e].
  - pose proof (reads_finalize x) as Hf. destruct (finalize x) as [v1 st]. by injection H as <- <-.
  - by injection H as <- <-.
Qed.

Lemma reads_with_tx {A} tx (m : fallible MegaEvm error A) :
  steps evm_reads m → steps evm_reads (λ v, m (evm_set_tx tx v)).
Proof. intros Hm v v' r H. etransitivity; [apply (reads_set_tx tx)|by eapply Hm]. Qed.

Lemma call_only_reads caller contract data : steps evm_reads (call caller contract data).
Proof.
  apply reads_and_finalize, reads_with_tx, reads_on_ctx, (system_call_reads op_catch_error).
Qed.

Lemma call_gas_only_reads caller contract data gas :
  steps evm_reads (call_with_gas caller contract data gas).
Proof.
  apply reads_map_finalize, reads_with_tx, reads_on_ctx, (system_call_reads op_catch_error).
Qed.

Lemma replay_only_reads : steps evm_reads replay.
Proof. apply reads_map_finalize, reads_on_ctx, (handler_run_reads op_catch_error _ _). Qed.

Lemma plain_only_reads tx :
  steps evm_reads (transact from_frame_error from_tx_error op_catch_error tx).
Proof.
  apply (reads_and_finalize (transact_one _ _ _ tx)), reads_with_tx, reads_on_ctx.
  apply (handler_run_reads op_catch_error _ _).
Qed.

Lemma inspect_only_reads tx :
  steps evm_reads (inspect_tx from_frame_error from_tx_error op_catch_error tx).
Proof.
  apply (reads_and_finalize (inspect_one_tx _ _ _ tx)), reads_with_tx, reads_on_ctx.
  apply (handler_inspect_reads op_catch_error _ _).
Qed.

Lemma reads_with_usage m : steps evm_reads m → steps evm_reads (with_usage m).
Proof. intros Hm. apply steps_bind; [exact _|exact Hm|]. by intros [res st] v v' r [= <- _]. Qed.

Lemma transact_only_reads tx :
  steps evm_reads (transact_raw from_frame_error from_tx_error op_catch_error tx).
Proof.
  intros v v' r. unfold transact_raw.
  destruct (evm_inspect v); [apply inspect_only_reads|apply plain_only_reads].
Qed.

Lemma execute_only_reads tx : steps evm_reads (execute tx).
Proof.
  intros v v' r. unfold evm_execute_transaction.
  destruct (evm_inspect v); apply reads_with_usage; [apply inspect_only_reads|apply plain_only_reads].
Qed.

(** ** Whatever is run on an EVM *)

Inductive runs : MegaEvm → MegaEvm → Prop :=
  | runs_execute tx v v' r : execute tx v = Some (v', r) → runs v v'
  | runs_transact tx v v' r :
      transact_raw from_frame_error from_tx_error op_catch_error tx v = Some (v', r) → runs v v'
  | runs_inspect tx v v' r :
      inspect_transaction from_frame_error from_tx_error op_catch_error tx v = Some (v', r) →
      runs v v'
  | runs_replay v v' r : replay v = Some (v', r) → runs v v'
  | runs_call caller contract data v v' r :
      call caller contract data v = Some (v', r) → runs v v'
  | runs_call_with_gas caller contract data gas v v' r :
      call_with_gas caller contract data gas v = Some (v', r) → runs v v'.

Lemma runs_read v v' : rtc runs v v' → evm_reads v v'.
Proof.
  induction 1 as [v|v1 v2 v3 Hs _ IH]; [reflexivity|]. etransitivity; [|exact IH].
  destruct Hs as [tx v v' r H|tx v v' r H|tx v v' r H|v v' r H|c k d v v' r H|c k d g v v' r H].
  - by eapply execute_only_reads.
  - by eapply transact_only_reads.
  - exact (reads_with_usage _ (inspect_only_reads tx) _ _ _ H).
  - by eapply replay_only_reads.
  - by eapply call_only_reads.
  - by eapply call_gas_only_reads.
Qed.

(** * What the block executor relies on *)

Context (data_gas_used : exec_data → Z) (logs : Type) (data_logs : exec_data → logs) (no_logs : logs).

Local Notation block_evm := (mega_block_evm from_frame_error from_tx_error op_catch_error
  data_gas_used logs data_logs no_logs).

Lemma reads_block_env v v' :
  evm_reads v v' →
  only_read (@BlockEvm.evm_db _ _ block_evm v) (@BlockEvm.evm_db _ _ block_evm v') ∧
  same_env (BE := block_evm) v v'.
Proof.
  intros ((Hd & Hb & Hs & _) & _). split; [exact Hd|]. unfold same_env. simpl. by rewrite Hb, Hs.
Qed.

#[export] Instance mega_block_evm_laws : BlockEvmLaws block_evm.
Proof.
  refine {| BlockExecutorFacts.evm_system_address v := system_address (evm_ctx v) |}; simpl.
  - intros d v. apply journal_db_with_db.
  - by intros d v.
  - done.
  - by intros a v.
  - done.
  - intros caller contract data v v' r H. eapply reads_block_env, call_only_reads, H.
  - intros caller contract data gas v v' r H. eapply reads_block_env, call_gas_only_reads, H.
  - intros tx v v' r H. eapply reads_block_env, execute_only_reads, H.
Qed.
End evm.

(** * The instructions of a frame *)

Section instructions.
Context `{R : Revm} `{RS : RevmState} {J : Type} `{HJ : !JournalInspectTr J} {W : Type}.
Context `{HH : !OpHost J W} {S : Type} `{HS : SaltEnv S} {O : Type} `{HO : OracleEnv O}.
Context {DB : Type} `{HB : !EvmParts J W DB} `{VW : !BlockView DB} `{RJ : !ReadingJournal}.
Context {M : Type} `{HI : !Interpreter J W S O M}.
Context `{HE : !OpEvm (J := J) (W := W) (S := S) (O := O)}.

Local Notation ctx_t := (MegaContext J W S O).
Local Notation machine := (Interp M * ctx_t)%type.
Local Notation ctx_reads := (ctx_reads (J := J) (W := W) (S := S) (O := O)).

(** The upstream context reads through the database of its journal. *)
Definition own_reads (o o' : OpContext J W) : Prop :=
  only_read (journal_db (op_journal o)) (journal_db (op_journal o')) ∧
  op_block (op_world o') = op_block (op_world o).

#[export] Instance ctx_reads_harmless :
  Harmless (J := J) (W := W) (S := S) (O := O) ctx_reads (λ _, True).
Proof.
  split; try done; [apply _|..].
  - intros ctx a b. destruct (inspect_account a b _) as [j r] eqn:E.
    by eapply reads_journal, inspect_account_reads.
  - intros ctx a j r H. by eapply reads_journal, inspect_delegated_reads.
  - intros ctx a k j r H. by eapply reads_journal, inspect_storage_reads.
Qed.

Context `{HL : !InterpreterLaws own_reads}.

(** A turn of an inspected interpreter: an instruction, or a hook of the inspector. *)
Inductive inspect_step (s : machine) : machine → Prop :=
  | is_instr s' : instr_step s s' → inspect_step s s'
  | is_hook s' : ctx_reads (snd s) (snd s') → inspect_step s s'.

(** The upstream loops execute the instructions of the table, one after the other. *)
Class RunsInstructions := {
  run_plain_steps ctx :
    ∃ it it' : Interp M, rtc instr_step (it, ctx) (it', fst (run_plain ctx));
  inspect_instructions_steps ctx :
    ∃ it it' : Interp M, rtc inspect_step (it, ctx) (it', fst (inspect_instructions ctx));
}.

Lemma program_reads (s s' : machine) : rtc instr_step s s' → ctx_reads (snd s) (snd s').
Proof.
  intros H. apply (steps_allowed ctx_reads (λ _, True)); [|by intros|exact H|done].
  by intros ctx o [H1 H2].
Qed.

Lemma inspected_program_reads (s s' : machine) : rtc inspect_step s s' → ctx_reads (snd s) (snd s').
Proof.
  induction 1 as [|s1 s2 s3 [s2' H|s2' H] _ IH]; [reflexivity| |]; (etransitivity; [|exact IH]).
  - by apply program_reads, rtc_once.
  - exact H.
Qed.

Lemma run_plain_reads `{HR : !RunsInstructions} : reading_total run_plain.
Proof.
  intros ctx ctx' x [= E]. destruct (run_plain_steps ctx) as (it & it' & H).
  apply program_reads in H. by rewrite E in H.
Qed.

Lemma inspect_instructions_reads `{HR : !RunsInstructions} : reading_total inspect_instructions.
Proof.
  intros ctx ctx' x [= E]. destruct (inspect_instructions_steps ctx) as (it & it' & H).
  apply inspected_program_reads in H. by rewrite E in H.
Qed.
End instructions.

(** * The sandbox on a journal over a database

    revm's [Journal] owns the database.  The inspections of [evm/host.rs] and the sandbox read
    it through the journal, which is [Journal]'s and [StateMerge]'s argument [db]; here the
    database is a part of the state, and may cache what is read. *)

Record CallerJournal (DB : Type) : Type := mkCaller {
  cj_journal : MergeJournal;
  cj_db : DB;
}.
Arguments mkCaller {DB} _ _.
Arguments cj_journal {DB} _.
Arguments cj_db {DB} _.

(** What a database answers, and the database after the reads that loaded a journal. *)
Class CallerDb (DB E : Type) := {
  db_answers : DB → Database E;
  after_reads : MergeJournal → DB → DB;
}.

Section caller.
Context `{R : Revm} `{RS : RevmState} `{JO : JournalOps} `{HC : Consensus} `{SE : SolErrors}.
Context {DB E : Type} `{HD : !CallerDb DB E}.

Local Notation journal := (CallerJournal DB).

Definition moved (j : journal) (m : MergeJournal) : journal := mkCaller m (after_reads m (cj_db j)).
Definition inspected (j : journal) (i : Journal) : journal :=
  moved j (mkMergeJournal i (mj_entries (cj_journal j))).

#[export] Instance caller_inspect : JournalInspectTr journal := {|
  DBError := E;
  Interfaces.inspect_account a load_code j :=
    let '(i, r) :=
      Journal.inspect_account (db_answers (cj_db j)) a load_code (mj_journal (cj_journal j)) in
    (inspected j i, r);
  Interfaces.inspect_account_delegated spec a j :=
    '(i, r) ← Journal.inspect_account_delegated (db_answers (cj_db j)) spec a
                (mj_journal (cj_journal j));
    Some (inspected j i, r);
  Interfaces.inspect_storage spec a key j :=
    '(i, r) ← Journal.inspect_storage (db_answers (cj_db j)) spec a key
                (mj_journal (cj_journal j));
    Some (inspected j i, r);
|}.

Context {W Op : Type} `{HX : !SandboxEvm W Op} {S : Type} `{HS : SaltEnv S}.
Context {O : Type} `{HO : OracleEnv O}.

(** A context with another journal. *)
Definition over {J J'} (f : J → J') (ctx : MegaContext J W S O) : MegaContext J' W S O :=
  let o := inner ctx in
  mkContext (mkOp (op_tx o) (op_block_number o) (op_beneficiary o) (f (op_journal o)) (op_error o)
               (op_world o))
    (ctx_spec ctx) (disable_beneficiary ctx) (additional_limit ctx) (dynamic_storage_gas_cost ctx)
    (oracle_env ctx) (volatile_data_tracker ctx) (inside_sandbox ctx) (system_address ctx).

(** [execute_keyless_deploy_call] on the caller's context. *)
#[export] Instance caller_keyless_deploy : KeylessDeploy journal W S O := {|
  Intercept.execute_keyless_deploy_call c tx_bytes gas_limit_override ctx :=
    let j := op_journal (inner ctx) in
    '(ctx', r) ← Sandbox.execute_keyless_deploy_call (Op := Op) (db_answers (cj_db j)) c tx_bytes
                   gas_limit_override (over cj_journal ctx);
    Some (over (moved j) ctx', r);
|}.

Context `{HB : !EvmParts journal W DB} `{VW : !BlockView DB}.

(** What upstream promises of the journal and its database: reading may cache, [finalize] and a
    log leave the database and the block alone. *)
Class CallerLaws := {
  after_reads_only m (d : DB) : only_read d (after_reads m d);
  caller_db (j : journal) : journal_db j = cj_db j;
  caller_finalize (j : journal) : journal_db (fst (journal_finalize j)) = journal_db j;
  caller_with_db d (j : journal) : journal_db (journal_with_db d j) = d;
  log_block l (o : OpContext MergeJournal W) :
    op_block (op_world (inner_log l o)) = op_block (op_world o);
}.
Context `{HL : !CallerLaws}.

Lemma moved_reads (j : journal) m : only_read (journal_db j) (journal_db (moved j m)).
Proof. rewrite !caller_db. apply after_reads_only. Qed.

#[export] Instance caller_reading_journal : ReadingJournal (J := journal) (W := W) (DB := DB).
Proof.
  split.
  - intros a c j j' r. simpl. destruct (Journal.inspect_account _ _ _ _) as [i r'].
    intros [= <- _]. apply moved_reads.
  - intros spec a j j' r H. simpl in H. bind_inv H. injection H as <- _. apply moved_reads.
  - intros spec a k j j' r H. simpl in H. bind_inv H. injection H as <- _. apply moved_reads.
  - apply caller_finalize.
  - apply caller_with_db.
Qed.

Lemma caller_keyless_reads c b g :
  reading (J := journal) (Intercept.execute_keyless_deploy_call c b g).
Proof.
  intros ctx ctx' r H. simpl in H. bind_inv H. injection H as <- _.
  apply (sandbox_stays _ op_block log_block) in E0 as (H1 & H2 & H3).
  split_and!; [apply moved_reads|exact H1|exact H2|exact H3].
Qed.

Context `{HH : !OpHost journal W} {M : Type} `{HI : !Interpreter journal W S O M}.
Context `{HIL : !InterpreterLaws own_reads}.
Context `{HE : !OpEvm (J := journal) (W := W) (S := S) (O := O)} `{HR : !RunsInstructions (M := M)}.

(** The program's own code keeps what the handlers rely on. *)
#[export] Instance caller_reading_code : ReadingCode (J := journal) (W := W) (S := S) (O := O).
Proof.
  split; [apply run_plain_reads|apply inspect_instructions_reads|apply caller_keyless_reads].
Qed.
Context `{HA : SystemAbi} `{HLc : !LocalContext W} `{HV : !OpValidation journal W S O}.
Context `{HP : !OpPrecompiles journal W} `{HF : ExecuteDefaults} `{HFL : !ExecuteDefaultsLaws HF}.
Context (from_frame_error : frame_error → upstream_error).
Context (from_tx_error : TxError frame_error → upstream_error).
Context (op_catch_error : ValidationError DBError upstream_error →
  step (J := journal) (W := W) (S := S) (O := O) (ExecutionResult exec_data OpHaltReason)).
Context `{RU : !ReadingUpstream op_catch_error}.

(** C9: nothing an EVM runs is committed: after any sequence of transactions, replays and system
    calls, each of which may succeed, revert, halt or fail, the database holds what it held, with
    at most more of it cached, and the block environment, the spec, the system address, the
    precompiles and the inspection mode are unchanged.  The frames run any program on the
    instruction table of the spec, and keyless deployments run the sandbox, whose state is merged
    into the journal; what is assumed is that the steps of revm and op-revm and the hooks of the
    inspector read, and that a database caches what is read. *)
Theorem execution_commits_nothing (v v' : MegaEvm (J := journal) (W := W) (S := S) (O := O)) :
  rtc (runs from_frame_error from_tx_error op_catch_error) v v' →
  only_read (db v) (db v') ∧
  op_block (op_world (inner (evm_ctx v'))) = op_block (op_world (inner (evm_ctx v))) ∧
  ctx_spec (evm_ctx v') = ctx_spec (evm_ctx v) ∧
  system_address (evm_ctx v') = system_address (evm_ctx v) ∧
  evm_precompiles v' = evm_precompiles v ∧ evm_inspect v' = evm_inspect v.
Proof.
  intros Hr. apply runs_read in Hr as ((Hd & Hb & Hs & Ha) & _ & Hp & Hi); [|apply _..].
  by split_and!.
Qed.
End caller.

(** * The block of an EVM *)

(** [set_block] leaves the storage gas prices of the previous block in place, which [with_block]
    drops from MiniRex on. *)
Lemma set_block_keeps_prices `{R : Revm} `{RS : RevmState} {J W DB S O : Type}
    `{HB : !EvmParts J W DB} b (ctx : MegaContext J W S O) :
  dynamic_storage_gas_cost (set_block b ctx) = dynamic_storage_gas_cost ctx ∧
  (is_enabled (ctx_spec ctx) MINI_REX = true →
   get_bucket_ids (dynamic_storage_gas_cost (with_block b ctx)) = ∅).
Proof.
  split; [done|]. intros H. unfold with_block, on_new_block. simpl. rewrite H. simpl.
  unfold get_bucket_ids. simpl. apply dom_empty_L.
Qed.

(** * The factory *)

Section factory.
Context `{R : Revm} `{RS : RevmState} {J W DB S O : Type} `{HH : !OpHost J W} `{HS : SaltEnv S}.
Context `{HB : !EvmParts J W DB} `{HP : !OpPrecompiles J W}.

(** The setters of the upstream context set one field each. *)
Class EvmPartsLaws := {
  new_db d c : journal_db (op_journal (op_new d c)) = d;
  new_number d c : be_number (op_block (op_world (op_new d c))) ≤ u64_max;
  set_tx_parts tx (o : OpContext J W) :
    op_journal (op_set_tx tx o) = op_journal o ∧
    op_block (op_world (op_set_tx tx o)) = op_block (op_world o) ∧
    op_cfg (op_world (op_set_tx tx o)) = op_cfg (op_world o);
  set_block_parts b (o : OpContext J W) :
    op_journal (op_set_block b o) = op_journal o ∧ op_block (op_world (op_set_block b o)) = b ∧
    op_cfg (op_world (op_set_block b o)) = op_cfg (op_world o) ∧
    op_block_number (op_set_block b o) = be_number b;
  set_cfg_parts c (o : OpContext J W) :
    op_journal (op_set_cfg c o) = op_journal o ∧ op_cfg (op_world (op_set_cfg c o)) = c ∧
    op_block (op_world (op_set_cfg c o)) = op_block (op_world o);
  set_chain_parts l (o : OpContext J W) :
    op_journal (op_set_chain l o) = op_journal o ∧
    op_block (op_world (op_set_chain l o)) = op_block (op_world o) ∧
    op_cfg (op_world (op_set_chain l o)) = op_cfg (op_world o);
}.
Context `{HL : !EvmPartsLaws}.

(** The configuration comes back, with the sizes the spec sets where the caller set none. *)
Lemma cfg_roundtrip spec (c : CfgEnv MegaSpecId) :
  ce_spec c = spec →
  into_megaeth_cfg spec (default_code_limits spec (into_op_cfg c)) = default_code_limits spec c.
Proof.
  intros <-. destruct c as [s a b l1 l2 f g h i j k l m n o]. unfold default_code_limits. simpl.
  by destruct (is_enabled s MINI_REX).
Qed.

Lemma create_context_db (db : DB) spec (ctx : MegaContext J W EmptyExternalEnv EmptyExternalEnv) :
  context_new db spec = Some ctx →
  journal_db (op_journal (inner ctx)) = db ∧ ctx_spec ctx = spec ∧
  system_address ctx = MEGA_SYSTEM_ADDRESS ∧ inside_sandbox ctx = false ∧
  disable_beneficiary ctx = false.
Proof.
  unfold context_new, new_with_shared_ext_envs. intros H. bind_inv H. injection H as <-. simpl.
  split_and!; try done. destruct (is_enabled spec MINI_REX); [|apply new_db].
  destruct (set_cfg_parts (with_code_limits (Some constants.mini_rex.MAX_CONTRACT_SIZE)
    (Some constants.mini_rex.MAX_INITCODE_SIZE) (op_cfg (op_world (op_new db (cfg_new_with_spec
      (into_op_spec spec)))))) (op_new db (cfg_new_with_spec (into_op_spec spec)))) as (-> & _).
  apply new_db.
Qed.

(** What [finish] takes from the context, and how the setters of the context act on it. *)
Definition ctx_parts (ctx : MegaContext J W S O) : DB * BlockEnv * CfgEnv OpSpecId :=
  (journal_db (op_journal (inner ctx)), op_block (op_world (inner ctx)), op_cfg (op_world (inner ctx))).

Lemma parts_with_tx tx (ctx : MegaContext J W S O) : ctx_parts (with_tx tx ctx) = ctx_parts ctx.
Proof. unfold ctx_parts. simpl. by destruct (set_tx_parts tx (inner ctx)) as (-> & -> & ->). Qed.

Lemma parts_with_block b (ctx : MegaContext J W S O) :
  ctx_parts (with_block b ctx) = ((ctx_parts ctx).1.1, b, (ctx_parts ctx).2).
Proof.
  unfold ctx_parts, with_block, on_new_block. destruct (set_block_parts b (inner ctx)) as (Hj & Hb & Hc & _).
  case_match; simpl; by rewrite Hj, Hb, Hc.
Qed.

Lemma parts_with_cfg c (ctx : MegaContext J W S O) :
  ctx_parts (with_cfg c ctx) = ((ctx_parts ctx).1, default_code_limits (ce_spec c) (into_op_cfg c)).
Proof.
  unfold ctx_parts, with_cfg. simpl.
  match goal with |- context [op_set_cfg ?c1 (op_set_cfg ?c2 (inner ctx))] =>
    destruct (set_cfg_parts c1 (op_set_cfg c2 (inner ctx))) as (-> & -> & ->) end.
  by destruct (set_cfg_parts (into_op_cfg c) (inner ctx)) as (-> & -> & ->).
Qed.

Lemma parts_with_chain l (ctx : MegaContext J W S O) : ctx_parts (with_chain l ctx) = ctx_parts ctx.
Proof. unfold ctx_parts. simpl. by destruct (set_chain_parts l (inner ctx)) as (-> & -> & ->). Qed.

(** The factory refuses only a block number beyond 64 bits. *)
Lemma to_u64_some x : x ≤ u64_max → to_u64 x = Some x.
Proof. intros H. unfold to_u64. by rewrite (proj2 (Z.leb_le _ _) H). Qed.

Lemma context_number (db : DB) spec :
  ∃ ctx : MegaContext J W EmptyExternalEnv EmptyExternalEnv,
    context_new db spec = Some ctx ∧ be_number (op_block (op_world (inner ctx))) ≤ u64_max.
Proof.
  unfold context_new, new_with_shared_ext_envs.
  match goal with |- context [to_u64 (be_number (op_block (op_world ?o)))] =>
    assert (Hn : be_number (op_block (op_world o)) ≤ u64_max) end.
  { destruct (is_enabled spec MINI_REX); [|apply new_number].
    match goal with |- context [op_set_cfg ?c ?o] => destruct (set_cfg_parts c o) as (_ & _ & ->) end.
    apply new_number. }
  rewrite (to_u64_some _ Hn). by eexists.
Qed.

Lemma create_evm_total (f : MegaEvmFactory (S := S) (O := O)) (db : DB) block cfg :
  is_Some (create_evm f db block cfg) ↔ be_number block ≤ u64_max.
Proof.
  unfold create_evm. split.
  - intros [evm H]. bind_inv H. unfold to_u64 in E.
    destruct (Z.leb_spec (be_number block) u64_max); [done|discriminate E].
  - intros Hn. rewrite (to_u64_some _ Hn). simpl.
    destruct (context_number db (ce_spec cfg)) as (ctx & -> & Hc). simpl.
    destruct (external_envs f (be_number block)) as [salt oracle]. unfold with_external_envs.
    rewrite (to_u64_some _ Hc). by eexists.
Qed.

(** An EVM the factory creates gives back what it was created from, and starts from the limits
    of its spec. *)
Lemma create_evm_finish (f : MegaEvmFactory (S := S) (O := O)) (db : DB) block cfg evm :
  create_evm f db block cfg = Some evm →
  evm_finish evm = (db, block, default_code_limits (ce_spec cfg) cfg) ∧
  additional_limit (evm_ctx evm) = AdditionalLimit.new (ce_spec cfg) (from_spec (ce_spec cfg)) ∧
  system_address (evm_ctx evm) = MEGA_SYSTEM_ADDRESS ∧ evm_inspect evm = false.
Proof.
  intros H. unfold create_evm in H. bind_inv H. bind_inv H.
  destruct (external_envs f x) as [salt oracle]. bind_inv H. injection H as <-.
  apply create_context_db in E0 as (Hdb & Hs & Ha & _). unfold with_external_envs in E1.
  bind_inv E1. injection E1 as <-.
  set (c0 := mkContext _ _ _ _ _ _ _ _ _).
  set (c1 := with_chain _ _).
  assert (Hp : ctx_parts c1 = (db, block, default_code_limits (ce_spec cfg) (into_op_cfg cfg))).
  { unfold c1. rewrite parts_with_chain, parts_with_cfg, parts_with_block, parts_with_tx. simpl.
    by rewrite Hdb. }
  assert (Hc : ctx_spec c1 = ce_spec cfg ∧ system_address c1 = MEGA_SYSTEM_ADDRESS).
  { unfold c1, with_block, on_new_block. by case_match. }
  clearbody c1. destruct Hc as [Hc1 Hc2]. injection Hp as Hd Hb Hg. unfold evm_finish. simpl.
  rewrite Hc1, Hc2, Hd, Hb, Hg, cfg_roundtrip by done. done.
Qed.
End factory.
