(* ===== verification/EvmReference.v ===== *)
(** A small EVM on which the whole type [MegaEvm] can be evaluated, and a transaction run on it.

    The journal is that of [Journal] over a reference database; keyless deployments run the
    sandbox; a frame executes two instructions of the table and returns, the other upstream
    steps succeed, and the reward credits the beneficiary. *)

From S2P Require Import Journal StateMerge StateMergeFacts KeylessError SandboxDb Sandbox.
From S2P Require Import SandboxFacts Instructions InstructionsFacts InstructionSafety.
From S2P Require Import Prelude Spec Revm LimitCheck Interfaces AdditionalLimit Access DynamicGas.
From S2P Require Import SystemTx Context Intercept Execution EvmState Validation Precompiles.
From S2P Require Import BlockLimit Effects SystemContracts SystemContractsFacts BlockEvm.
From S2P Require Import BlockExecutorFacts MegaEvm MegaEvmFacts LimitCheck Interfaces.

Abbreviation FlatJournal := (CallerJournal RefDb).

Definition mkFlat (d : RefDb) (st : EvmState) : FlatJournal :=
  mkCaller (mkMergeJournal (mkJournal st 0) []) d.
Definition fj_state (j : FlatJournal) : EvmState := mj_state (cj_journal j).

(** Every account that is read is cached. *)
#[export] Instance flat_caller_db : CallerDb RefDb unit := {|
  db_answers d :=
    mkDatabase (fst <$> rd_accounts d) (λ _, None) (λ _, Ok (OtherBytecode []))
      (λ a k, Ok (storage_of d a k));
  after_reads m d := mkRefDb (rd_accounts d) (dom (mj_state m) ∪ rd_cached d);
|}.

Record FlatBlock : Type := mkFlatBlock {
  fb_number : U256;
  fb_timestamp : U256;
  fb_gas_limit : Z;
}.

Record FlatWorld : Type := mkFlatWorld {
  fw_block : FlatBlock;
  fw_cfg : CfgEnv unit;
}.

Local Notation flat_ctx := (MegaContext FlatJournal FlatWorld EmptyExternalEnv EmptyExternalEnv).
Local Notation flat_op := (OpContext FlatJournal FlatWorld).

(** * The journal and the host *)

#[export] Instance flat_host : OpHost FlatJournal FlatWorld := {|
  journal_depth _ := 0;
  loaded_value := U256;
  inner_block_env _ _ o := (o, Some 7);
  inner_read _ _ o := (o, Some (0, true));
  inner_sload _ _ o := (o, Some (0, false));
  inner_selfdestruct _ _ o := (o, Some false);
|}.

#[export] Instance flat_abi : SystemAbi := {|
  NonZeroTransfer_SELECTOR := [1; 0; 0; 0];
  DISABLED_BY_PARENT_REVERT_DATA := [2; 0; 0; 0];
  sendHint_SELECTOR := [3; 0; 0; 0];
  keylessDeploy_SELECTOR := [4; 0; 0; 0];
  disableVolatileDataAccess_SELECTOR := [5; 0; 0; 0];
  enableVolatileDataAccess_SELECTOR := [6; 0; 0; 0];
  isVolatileDataAccessDisabled_SELECTOR := [7; 0; 0; 0];
  remainingComputeGas_SELECTOR := [8; 0; 0; 0];
  sendHint_decode b := Some (0, drop 4 b);
  keylessDeploy_decode b := Some (drop 4 b, 50000);
  abi_encode_bool b := [Z.b2z b];
  abi_encode_u64 z := [z];
|}.

#[export] Instance flat_local : LocalContext FlatWorld := {|
  shared_memory_buffer_slice _ _ _ := None;
  input_bytes _ i := match i with InputBytes b => b | InputSharedBuffer _ _ => [] end;
|}.

(** The sandbox runs the transaction of the reference sandbox. *)
Definition flat_cfg : CfgEnv unit :=
  mkCfg tt 6342 true None None false None None None 4294967296 false false false false false.
Definition flat_world : FlatWorld := mkFlatWorld (mkFlatBlock 0 0 0) flat_cfg.

#[export] Instance flat_sandbox : SandboxEvm FlatWorld bool := {|
  Log := unit;
  TransactError := bool;
  is_tx_error b := b;
  is_failed_deposit _ := true;
  cfg_max_initcode_size _ := Sandbox.MAX_INITCODE_SIZE;
  cfg_disable_eip3607 _ := false;
  inner_log _ o := o;
  new_spent l := mkRefGas l 0;
  bytecode_default := OtherBytecode [];
  tx_env_default := mkTx 0 (Some []) [] 0 None 0 0 0 0 None;
  mint_default := None;
  op_context _ := mkOp (ref_tx 0 None) 0 0 (mkMergeJournal (mkJournal ∅ 0) []) None flat_world;
  limit_contract_sizes _ _ w := w;
  inner_with_block p o :=
    mkOp (op_tx o) (op_block_number p) (op_beneficiary p) (op_journal o) (op_error o)
      (mkFlatWorld (fw_block (op_world p)) (fw_cfg (op_world o)));
  inner_with_chain _ o := o;
  Sandbox.transact_raw _ _ _ _ _ d tx c := Some (c, ref_transact d tx);
  keylessDeploy_encode_returns g a e := g :: a :: e;
|}.

#[export] Instance flat_keyless :
  KeylessDeploy FlatJournal FlatWorld EmptyExternalEnv EmptyExternalEnv := caller_keyless_deploy.

(** * The upstream handler *)

Definition flat_frame : EthFrame := mkEthFrame false None (gas_new 50000).
Definition flat_result : FrameResult :=
  FrameResultCall (mkInterpreterResult Return_ [] (gas_new 40000)) (0, 0).
Definition flat_call (ctx : flat_ctx) (gas : Z) : FrameInit :=
  mkFrameInit 0 (FrameInputCall
    (mkCallInputs gas (default 0 (tx_kind (op_tx (inner ctx)))) (tx_caller (op_tx (inner ctx)))
       SchemeCall false (0, 0) (Some 0) (InputBytes [4; 0; 0; 0; 20000]) 0)).

(** A frame runs TIMESTAMP and the BALANCE of account 7. *)
#[export] Instance flat_interpreter :
  Interpreter FlatJournal FlatWorld EmptyExternalEnv EmptyExternalEnv unit := ref_interpreter.

Definition flat_interp : Interp unit := mkInterp (gas_new 50000) [7] None 5 false tt.
Definition flat_run (ctx : flat_ctx) : flat_ctx :=
  snd (ref_exec opcode.BALANCE (ref_exec opcode.TIMESTAMP (flat_interp, ctx))).

#[export] Instance flat_evm :
    OpEvm (J := FlatJournal) (W := FlatWorld) (S := EmptyExternalEnv) (O := EmptyExternalEnv) := {|
  frame_error := unit;
  from_db_error _ := tt;
  CALL_STACK_LIMIT := 1024;
  CODEDEPOSIT := 200;
  max_code_size _ := 24576;
  is_eip3541_disabled _ := false;
  london_enabled _ := true;
  spurious_dragon_enabled _ := true;
  Execution.cfg_chain_id _ := 4326;
  tx_chain_id_check _ := true;
  disable_nonce_check _ := false;
  disable_eip3607 _ := false;
  validate_account_nonce_and_code i n _ _ := if nonce i =? n then None else Some tt;
  current_frame _ := flat_frame;
  current_frame_input ctx := fi_frame_input (flat_call ctx 0);
  inner_frame_init _ ctx := (ctx, Ok (Item flat_frame));
  run_plain ctx := (flat_run ctx, ActionReturn (fr_interpreter_result flat_result));
  process_next_action _ ctx := (ctx, Ok (FrameDone flat_result));
  set_finished ctx := ctx;
  inner_frame_return_result r ctx := (ctx, Ok (Some r));
  inner_last_frame_result r ctx := (ctx, Ok r);
  frame_start i ctx := (ctx, i, None);
  frame_end _ r ctx := (ctx, r);
  initialize_interp ctx := ctx;
  inspect_instructions ctx := (flat_run ctx, ActionReturn (fr_interpreter_result flat_result));
  exec_data := Z;
  OpHaltReason := bool;
  is_basic_oog b := b;
  op_execution_result r ctx :=
    (ctx, Ok (if is_ok (fr_instruction_result r) then ExecSuccess 10000 else ExecHalt true 50000));
  post_execution_output r ctx := (ctx, ExecSuccess 10000);
  clear_after_sandbox ctx := ctx;
  from_context_error _ := tt;
  gas_new_spent l := mkRefGas l 0;
|}.

(** The loop for frames that make no call. *)
Definition flat_close (r : FrameResult) (ctx : flat_ctx)
    : panics (flat_ctx * result FrameResult unit) :=
  '(ctx, r) ← frame_return_result r ctx;
  Some (ctx, match r with Ok (Some r) => Ok r | _ => Err tt end).

Definition flat_loop (init : FrameInit) (ctx : flat_ctx)
    : panics (flat_ctx * result FrameResult unit) :=
  '(ctx, r) ← frame_init init ctx;
  match r with
  | Err _ => Some (ctx, Err tt)
  | Ok (Result r) => flat_close r ctx
  | Ok (Item _) =>
      '(ctx, r) ← frame_run ctx;
      match r with Ok (FrameDone r) => flat_close r ctx | _ => Some (ctx, Err tt) end
  end.

Definition flat_inspect_loop (init : FrameInit) (ctx : flat_ctx)
    : panics (flat_ctx * result FrameResult unit) :=
  '(ctx, r) ← inspect_frame_init init ctx;
  match r with
  | Err _ => Some (ctx, Err tt)
  | Ok (Result r) => flat_close r ctx
  | Ok (Item _) =>
      '(ctx, r) ← inspect_frame_run ctx;
      match r with Ok (FrameDone r) => flat_close r ctx | _ => Some (ctx, Err tt) end
  end.

(** The beneficiary is credited in the journal. *)
Definition flat_reward (r : FrameResult) (ctx : flat_ctx) : flat_ctx * result FrameResult unit :=
  let a := op_beneficiary (inner ctx) in
  match Interfaces.inspect_account a false (op_journal (inner ctx)) with
  | (j, Ok acc) =>
      let i := acc_info acc in
      let acc := mark_touch (account_from_info
        (mkAccountInfo (balance i + 1) (nonce i) (code_hash i) (code i))) in
      (with_journal ctx (mkCaller (set_account a acc (cj_journal j)) (cj_db j)), Ok r)
  | (j, Err e) => (with_journal ctx j, Err e)
  end.

#[export] Instance flat_validation :
    OpValidation FlatJournal FlatWorld EmptyExternalEnv EmptyExternalEnv := {|
  upstream_error := unit;
  tx_value _ := 0;
  Validation.tx_gas_limit _ := 200000;
  tx_authorization_list _ := [];
  tokens_in_calldata _ := 2;
  Validation.cfg_chain_id _ := 6342;
  address_create a n := 1000 + 10 * a + n;
  code_is_empty c := match c with OtherBytecode [] => true | _ => false end;
  is_loaded_as_not_existing_not_touched acc :=
    LoadedAsNotExisting (acc_status acc) && negb (Touched (acc_status acc));
  L1_FEE_RECIPIENT := 101;
  BASE_FEE_RECIPIENT := 102;
  OPERATOR_FEE_RECIPIENT := 103;
  validate_env c := (c, Ok tt);
  validate_initial_tx_gas _ := Ok (mkInitialGas 21000 21000);
  validate_against_state_and_deduct_caller c := (c, Ok tt);
  load_accounts c := (c, Ok tt);
  apply_eip7702_auth_list c := (c, Ok 0);
  op_reward_beneficiary := flat_reward;
  first_frame_input gas c := (c, Ok (flat_call c gas));
  run_exec_loop := flat_loop;
  inspect_run_exec_loop := flat_inspect_loop;
  settle_gas _ _ r c := (c, Ok r);
|}.

(** * The parts of the EVM *)

Definition flat_with_world (f : FlatWorld → FlatWorld) (o : flat_op) : flat_op :=
  mkOp (op_tx o) (op_block_number o) (op_beneficiary o) (op_journal o) (op_error o) (f (op_world o)).

#[export] Instance flat_parts : EvmParts FlatJournal FlatWorld RefDb := {|
  OpSpecId := unit;
  ISTHMUS := tt;
  BlockEnv := FlatBlock;
  be_number := fb_number;
  be_timestamp := fb_timestamp;
  be_gas_limit := fb_gas_limit;
  L1BlockInfo := unit;
  l1_default := tt;
  RawTx := MegaTransaction;
  raw_default := ref_tx 0 (Some 0);
  raw_with_gas_limit _ tx := tx;
  new_system_tx_with_caller caller contract _ := ref_tx caller (Some contract);
  op_new d cfg := mkOp (ref_tx 0 (Some 0)) 0 0 (mkFlat d ∅) None (mkFlatWorld (mkFlatBlock 0 0 0) cfg);
  op_set_tx tx o := op_with_tx o tx;
  op_set_block b o :=
    mkOp (op_tx o) (fb_number b) 99 (op_journal o) (op_error o) (mkFlatWorld b (fw_cfg (op_world o)));
  op_set_cfg cfg := flat_with_world (λ w, mkFlatWorld (fw_block w) cfg);
  op_set_chain _ o := o;
  op_block := fw_block;
  op_cfg := fw_cfg;
  cfg_new_with_spec _ := flat_cfg;
  journal_db := cj_db;
  journal_with_db d j := mkCaller (cj_journal j) d;
  journal_finalize j := (mkFlat (cj_db j) ∅, fj_state j);
|}.

#[export] Instance flat_precompiles : OpPrecompiles FlatJournal FlatWorld := {|
  PrecompileError := unit;
  PrecompileOutOfGas := tt;
  isthmus := ∅;
  modexp_osaka := (5, λ _ _, Ok (mkOutput 500 []));
  KZG_ADDRESS := 10;
  kzg_run _ _ := Err tt;
  InputsImpl := unit;
  fatal := unit;
  op_run _ _ _ _ _ o := (o, Ok None);
|}.

#[export] Instance flat_defaults : ExecuteDefaults := {|
  catching M A E m c s :=
    '(s, r) ← m s; match r with Ok x => Some (s, Ok x) | Err e => c e s end;
  and_finalize M A E m f s :=
    '(s, r) ← m s;
    match r with Ok x => let '(s, st) := f s in Some (s, Ok (x, st)) | Err e => Some (s, Err e) end;
|}.

#[export] Instance flat_defaults_laws : ExecuteDefaultsLaws flat_defaults.
Proof. by split. Qed.

Definition flat_catch (e : ValidationError unit unit)
    : step (J := FlatJournal) (W := FlatWorld) (S := EmptyExternalEnv) (O := EmptyExternalEnv)
        (ExecutionResult Z bool) := λ ctx, Some (ctx, Err e).

(** * Its laws *)

#[export] Instance flat_caller_laws : CallerLaws (W := FlatWorld).
Proof. split; try done. intros m d. by apply ref_only_read; simpl; [|set_solver]. Qed.

#[export] Instance flat_interpreter_laws :
  InterpreterLaws (J := FlatJournal) (W := FlatWorld) (S := EmptyExternalEnv)
    (O := EmptyExternalEnv) (M := unit) own_reads.
Proof. apply ref_interpreter_laws; intros; split; reflexivity. Qed.

Lemma flat_run_steps (ctx : flat_ctx) :
  ∃ it it' : Interp unit, rtc instr_step (it, ctx) (it', flat_run ctx).
Proof.
  exists flat_interp. eexists. unfold flat_run. rewrite <- surjective_pairing.
  etrans; apply ref_exec_steps.
Qed.

#[export] Instance flat_runs_instructions :
  RunsInstructions (J := FlatJournal) (W := FlatWorld) (S := EmptyExternalEnv)
    (O := EmptyExternalEnv) (DB := RefDb) (M := unit).
Proof.
  split; intros ctx; destruct (flat_run_steps ctx) as (it & it' & H); exists it, it'; [done|].
  eapply rtc_subrel; [|exact H]. intros s s' Hs. by constructor.
Qed.

#[export] Instance flat_journal_reads :
  ReadingJournal (J := FlatJournal) (W := FlatWorld) (DB := RefDb) := caller_reading_journal.

#[export] Instance flat_code_reads :
  ReadingCode (J := FlatJournal) (W := FlatWorld) (S := EmptyExternalEnv) (O := EmptyExternalEnv)
    (DB := RefDb) (HK := flat_keyless) := caller_reading_code.

Lemma flat_close_steps r ctx ctx' x :
  flat_close r ctx = Some (ctx', x) → rtc handler_step ctx ctx'.
Proof.
  unfold flat_close. intros H. bind_inv H. injection H as <- _.
  eapply rtc_once, hs_return. exact E.
Qed.

Lemma flat_reward_reads r : reading_total (flat_reward r).
Proof.
  intros ctx. unfold flat_reward. destruct (Interfaces.inspect_account _ _ _) as [j x] eqn:E.
  apply inspect_account_reads in E. destruct x; by apply rf_some, reads_journal.
Qed.

#[export] Instance flat_upstream :
  ReadingUpstream (HJ := caller_inspect) (HE := flat_evm) (HV := flat_validation) flat_catch.
Proof.
  split; try (by intros; apply rf_some); try (by intros; intros ctx; apply rf_some); try done.
  - apply flat_reward_reads.
  - intros init ctx ctx' r H. simpl in H. unfold flat_loop in H. bind_inv H.
    eapply rtc_l; [eapply hs_init; exact E|]. destruct y as [[f|x1]|e].
    + bind_inv H. eapply rtc_l; [eapply hs_run; exact E0|].
      destruct y as [[i|x1]|e]; [by injection H as <- _|by eapply flat_close_steps|by injection H as <- _].
    + by eapply flat_close_steps.
    + by injection H as <- _.
  - intros init ctx ctx' r H. simpl in H. unfold flat_inspect_loop in H. bind_inv H.
    eapply rtc_l; [eapply hs_inspect_init; exact E|]. destruct y as [[f|x1]|e].
    + bind_inv H. eapply rtc_l; [eapply hs_inspect_run; exact E0|].
      destruct y as [[i|x1]|e]; [by injection H as <- _|by eapply flat_close_steps|by injection H as <- _].
    + by eapply flat_close_steps.
    + by injection H as <- _.
Qed.

(** * A transaction *)

(** Account 7, the beneficiary 99 and the signer 1 of keyless transactions. *)
Definition flat_db : RefDb :=
  mkRefDb {[7 := (mkAccountInfo 500 3 77 None, {[1 := 42]}); 99 := (mkAccountInfo 10 0 0 None, ∅);
            1 := (mkAccountInfo 5 0 KECCAK_EMPTY None, ∅)]} ∅.

Definition flat_factory : MegaEvmFactory :=
  mkFactory (λ _, (mkEmptyExternalEnv, mkEmptyExternalEnv)) None.

Definition flat_created : panics (MegaEvm (J := FlatJournal) (W := FlatWorld)
    (S := EmptyExternalEnv) (O := EmptyExternalEnv)) :=
  create_evm flat_factory flat_db (mkFlatBlock 10 1000 30000000) (retag REX6 flat_cfg).

Definition flat_from_frame (e : frame_error (OpEvm := flat_evm))
    : upstream_error (OpValidation := flat_validation) := tt.
Definition flat_from_tx (e : TxError (frame_error (OpEvm := flat_evm)))
    : upstream_error (OpValidation := flat_validation) := tt.

Definition flat_execute :=
  evm_execute_transaction (HP := flat_precompiles) flat_from_frame flat_from_tx flat_catch.

(** What the transaction reports: its result, the account of the beneficiary, and the usage. *)
Definition flat_report (v : MegaEvm (J := FlatJournal) (W := FlatWorld)
    (S := EmptyExternalEnv) (O := EmptyExternalEnv)) :=
  '(v', r) ← flat_execute (ref_tx 7 (Some 5)) v;
  match r with
  | Ok o => Some (mo_result o, balance ∘ acc_info <$> mo_state o !! 99, mo_kv_updates o,
                  mo_compute_gas_used o)
  | Err _ => None
  end.

(** A call to account 5, then a keyless deployment.  The outcome of the first credits the
    beneficiary, that of the second holds the contract at 1010; the database still has the old
    balance and no contract. *)
Lemma execution_commits_nothing_witness :
  ∃ v v1 v2 o1 o2,
    flat_created = Some v ∧ flat_execute (ref_tx 7 (Some 5)) v = Some (v1, Ok o1) ∧
    flat_execute (ref_tx 7 (Some KEYLESS_DEPLOY_ADDRESS)) v1 = Some (v2, Ok o2) ∧
    balance ∘ acc_info <$> mo_state o1 !! 99 = Some 11 ∧
    code ∘ acc_info <$> mo_state o2 !! 1010 = Some (Some (OtherBytecode [96])) ∧
    balance <$> account_of (db v2) 99 = Some 10 ∧ account_of (db v2) 1010 = None ∧
    storage_of (db v2) 7 1 = 42 ∧ system_address (evm_ctx v2) = MEGA_SYSTEM_ADDRESS.
Proof.
  destruct (returns (λ v, match flat_execute (ref_tx 7 (Some 5)) v with
      | Some (v1, Ok o1) => balance ∘ acc_info <$> mo_state o1 !! 99 = Some 11 ∧
          match flat_execute (ref_tx 7 (Some KEYLESS_DEPLOY_ADDRESS)) v1 with
          | Some (_, Ok o2) =>
              code ∘ acc_info <$> mo_state o2 !! 1010 = Some (Some (OtherBytecode [96]))
          | _ => False end
      | _ => False end ∧ db v = flat_db ∧ system_address (evm_ctx v) = MEGA_SYSTEM_ADDRESS)
    flat_created) as (v & Hv & Hx & Hdb & Ha); [vm_compute; split_and!; exact eq_refl|].
  destruct (flat_execute (ref_tx 7 (Some 5)) v) as [[v1 [o1|e1]]|] eqn:Hr1; [|destruct Hx..].
  destruct Hx as [Ho1 Hx].
  destruct (flat_execute (ref_tx 7 (Some KEYLESS_DEPLOY_ADDRESS)) v1) as [[v2 [o2|e2]]|] eqn:Hr2;
    [|destruct Hx..].
  destruct (execution_commits_nothing flat_from_frame flat_from_tx flat_catch v v2
    (rtc_l _ _ _ _ (runs_execute _ _ _ _ _ _ _ Hr1) (rtc_once _ _ (runs_execute _ _ _ _ _ _ _ Hr2))))
    as ((Hview & _) & _ & _ & Hsys & _).
  exists v, v1, v2, o1, o2. split; [exact Hv|]. split; [exact Hr1|]. split; [exact Hr2|].
  split; [exact Ho1|]. split; [exact Hx|]. rewrite Hdb in Hview. rewrite Hsys, Ha.
  split; [rewrite <- Hview; exact eq_refl|]. split; [rewrite <- Hview; exact eq_refl|].
  split; [rewrite <- Hview; exact eq_refl|exact eq_refl].
Defined.
