(* ===== verification/MemoryEnvs.v ===== *)
(** The in-memory external environment: [TestExternalEnvs] of [external/test_utils.rs], which the
    tests and the command line tools run on.

    The handles a value hands out share one store; nothing changes the capacities while a
    transaction runs and only the oracle side records hints, so the SALT and the oracle
    environment are two values here. *)

From S2P Require Import Prelude Spec Revm DynamicGas Access SystemTx Context BucketHasher.

Class BucketHash (H : Type) := { hash_bucket_id : list Z → Z }.

(** FNV-1a. *)
Inductive SimpleBucketHasher : Type := mkSimpleBucketHasher.

Definition fnv1a (key : list Z) : Z :=
  foldl (λ hash byte, wmul (Z.lxor hash byte) 0x100000001b3) 0xcbf29ce484222325 key.

#[export] Instance simple_bucket_hasher : BucketHash SimpleBucketHasher := {|
  hash_bucket_id key :=
    let NUM_BUCKETS := Z.shiftl 1 24 in
    let NUM_META_BUCKETS := NUM_BUCKETS / 256 in
    let NUM_KV_BUCKETS := NUM_BUCKETS - NUM_META_BUCKETS in
    (fnv1a key mod NUM_KV_BUCKETS +w NUM_META_BUCKETS) mod 2 ^ 32;
|}.

(** The production hasher, which is total ([bucket_id_total_range]). *)
Inductive AHashBucketHasher : Type := mkAHashBucketHasher.

#[export] Instance ahash_bucket_hasher : BucketHash AHashBucketHasher := {|
  hash_bucket_id key := default 0 (bucket_id key);
|}.

Record RecordedHint : Type := mkHint {
  rh_from : Address;
  rh_topic : Z;
  rh_data : Bytes;
}.

Record TestExternalEnvs (H : Type) : Type := mkTestEnvs {
  te_oracle_storage : gmap Z U256;
  te_bucket_capacity : gmap Z Z;
  te_default_bucket_capacity : option Z;
  te_recorded_hints : list RecordedHint;
}.
Arguments mkTestEnvs {H} _ _ _ _.
Arguments te_oracle_storage {H} _.
Arguments te_bucket_capacity {H} _.
Arguments te_default_bucket_capacity {H} _.
Arguments te_recorded_hints {H} _.

Section envs.
Context {H : Type} `{HH : !BucketHash H}.
Implicit Types e : TestExternalEnvs H.

Definition test_new : TestExternalEnvs H := mkTestEnvs ∅ ∅ None [].

Definition with_bucket_capacity (bucket_id capacity : Z) e : TestExternalEnvs H :=
  mkTestEnvs (te_oracle_storage e) (<[bucket_id := capacity]> (te_bucket_capacity e))
    (te_default_bucket_capacity e) (te_recorded_hints e).

Definition with_default_bucket_capacity (capacity : Z) e : TestExternalEnvs H :=
  mkTestEnvs (te_oracle_storage e) (te_bucket_capacity e) (Some capacity) (te_recorded_hints e).

Definition clear_bucket_capacity e : TestExternalEnvs H :=
  mkTestEnvs (te_oracle_storage e) ∅ (te_default_bucket_capacity e) (te_recorded_hints e).

Definition with_oracle_storage (slot value : U256) e : TestExternalEnvs H :=
  mkTestEnvs (<[slot := value]> (te_oracle_storage e)) (te_bucket_capacity e)
    (te_default_bucket_capacity e) (te_recorded_hints e).

Definition clear_oracle_storage e : TestExternalEnvs H :=
  mkTestEnvs ∅ (te_bucket_capacity e) (te_default_bucket_capacity e) (te_recorded_hints e).

Definition clear_recorded_hints e : TestExternalEnvs H :=
  mkTestEnvs (te_oracle_storage e) (te_bucket_capacity e) (te_default_bucket_capacity e) [].

Definition bucket_capacities e : list (Z * Z) := map_to_list (te_bucket_capacity e).
Definition oracle_storage e : list (U256 * U256) := map_to_list (te_oracle_storage e).

(** The [n] bytes of a number, most significant first. *)
Fixpoint be_bytes (n : nat) (z : Z) : list Z :=
  match n with O => [] | S n => be_bytes n (z / 256) ++ [z mod 256] end.

Definition test_get_bucket_capacity e (bucket_id : Z) : Z :=
  default (default MIN_BUCKET_SIZE (te_default_bucket_capacity e)) (te_bucket_capacity e !! bucket_id).

#[export] Instance test_salt_env : SaltEnv (TestExternalEnvs H) := {|
  SaltError := Empty_set;
  get_bucket_capacity e bucket_id := Ok (test_get_bucket_capacity e bucket_id);
  bucket_id_for_account account := hash_bucket_id (be_bytes 20 account);
  bucket_id_for_slot address key := hash_bucket_id (be_bytes 20 address ++ be_bytes 32 key);
|}.

#[export] Instance test_oracle_env : OracleEnv (TestExternalEnvs H) := {|
  get_oracle_storage e slot := te_oracle_storage e !! slot;
  on_hint e from topic data :=
    mkTestEnvs (te_oracle_storage e) (te_bucket_capacity e) (te_default_bucket_capacity e)
      (te_recorded_hints e ++ [mkHint from topic data]);
|}.

(** [ExternalEnvFactory] and [From]: the block does not matter. *)
Definition test_external_envs e (block : Z) : TestExternalEnvs H * TestExternalEnvs H := (e, e).

(** * Capacities *)

(** The environment is one the storage prices accept exactly when every configured capacity is
    at least the minimum. *)
Lemma test_capacities_ok e :
  map_Forall (λ _ c, 256 ≤ c ≤ u64_max) (te_bucket_capacity e) →
  (∀ c, te_default_bucket_capacity e = Some c → 256 ≤ c ≤ u64_max) →
  capacities_ok e.
Proof.
  intros Hm Hd b c [= <-]. unfold test_get_bucket_capacity.
  destruct (te_bucket_capacity e !! b) as [c|] eqn:E; [by apply (Hm b c E)|]. simpl.
  destruct (te_default_bucket_capacity e) as [d|]; [by apply Hd|]. by vm_compute.
Qed.

(** A smaller capacity is accepted here, and pricing an account of that bucket panics. *)
Lemma small_capacity_panics spec e parent a c :
  c < 256 →
  new_account_gas a
    (DynamicGas.new spec (with_bucket_capacity (bucket_id_for_account (S := TestExternalEnvs H) a) c e)
       parent) = None.
Proof.
  intros Hc. unfold new_account_gas, with_multiplier, load_bucket_cost_multiplier.
  cbn [dg_multipliers DynamicGas.new]. rewrite lookup_empty.
  cbn [dg_salt_env DynamicGas.new get_bucket_capacity test_salt_env].
  unfold test_get_bucket_capacity. cbn [te_bucket_capacity with_bucket_capacity].
  rewrite lookup_insert_eq. simpl. unfold assert_.
  change MIN_BUCKET_SIZE with 256. destruct (Z.leb_spec 256 c); [lia|done].
Qed.

(** The later of two configurations of a bucket is the one that counts, and the others are as
    they were. *)
Lemma with_capacity_get b c b' e :
  test_get_bucket_capacity (with_bucket_capacity b c e) b' =
    if decide (b = b') then c else test_get_bucket_capacity e b'.
Proof.
  unfold test_get_bucket_capacity. simpl. destruct (decide (b = b')) as [->|Hne].
  - by rewrite lookup_insert_eq.
  - by rewrite lookup_insert_ne.
Qed.
End envs.

(** Both hashers stay above the metadata buckets. *)
Lemma simple_bucket_range key :
  65536 ≤ hash_bucket_id (H := SimpleBucketHasher) key < 16777216.
Proof.
  simpl. change (Z.shiftl 1 24) with 16777216. change (16777216 / 256) with 65536.
  change (16777216 - 65536) with 16711680.
  assert (0 ≤ fnv1a key mod 16711680 < 16711680) by (apply Z.mod_pos_bound; lia).
  rewrite wadd_small by u64_lia. rewrite Z.mod_small by lia. lia.
Qed.

Lemma ahash_bucket_range key :
  65536 ≤ hash_bucket_id (H := AHashBucketHasher) key < 16777216.
Proof.
  destruct (bucket_id_total_range key) as (h & _ & _ & Hb & Hr). simpl. rewrite Hb. exact Hr.
Qed.
