(* ===== verification/CliInput.v ===== *)
(** The input of [mega-evme]: option strings, the prestate and the state dump of
    [bin/mega-evme/src/common/state.rs].

    A [str] is the list of its code points.  Number, address and hash parsers are those of the
    [alloy] crates, and the bytecode operations those of revm: the classes [Parsers] and
    [BytecodeOps].  Error texts are not modelled; a file is what was read from it. *)

From S2P Require Import Prelude Spec Revm SystemContracts.

Create HintDb cli.

Abbreviation str := (list Z) (only parsing).

(** A string literal, for the constants of the code and the examples. *)
Definition str_of (s : string) : str :=
  map (λ c, Z.of_N (Ascii.N_of_ascii c)) (String.list_ascii_of_string s).

(** * [std::str] *)

(** [char::is_whitespace]. *)
Definition is_whitespace (c : Z) : bool :=
  ((9 <=? c) && (c <=? 13)) || (c =? 32) || (c =? 0x85) || (c =? 0xA0) || (c =? 0x1680) ||
  ((0x2000 <=? c) && (c <=? 0x200A)) || (c =? 0x2028) || (c =? 0x2029) || (c =? 0x202F) ||
  (c =? 0x205F) || (c =? 0x3000).

Fixpoint trim_start (s : str) : str :=
  match s with [] => [] | c :: l => if is_whitespace c then trim_start l else s end.
Definition trim (s : str) : str := rev (trim_start (rev (trim_start s))).

(** [split_once]: around the first occurrence. *)
Fixpoint split_once (pattern s : str) : option (str * str) :=
  if bool_decide (take (length pattern) s = pattern) then Some ([], drop (length pattern) s)
  else
    match s with
    | [] => None
    | c :: l => '(a, b) ← split_once pattern l; Some (c :: a, b)
    end.

Definition is_ascii_digit (c : Z) : bool := (48 <=? c) && (c <=? 57).

(** [find(p).unwrap_or(len)], then [split_at]. *)
Fixpoint split_at_find (p : Z → bool) (s : str) : str * str :=
  match s with
  | [] => ([], [])
  | c :: l => if p c then ([], s) else let '(a, b) := split_at_find p l in (c :: a, b)
  end.

(** * Errors *)

(** The errors the modelled operations return, without their messages. *)
Inductive EvmeError : Type :=
  | InvalidInput
  | UnsupportedTxType (ty : Z)
  | InvalidHex
  | InvalidBytecode
  | RpcError
  | FileRead
  | ExecutionError
  | FixtureError
  | TransactionNotFound (tx_hash : Z)
  | BlockNotFound (number : Z)
  | Other
  | CodeHashMismatch (expected computed : Z).

(** [?] over a loop that collects. *)
Fixpoint try_map {A B E} (f : A → result B E) (l : list A) : result (list B) E :=
  match l with
  | [] => Ok []
  | x :: l =>
      match f x with
      | Err e => Err e
      | Ok y => match try_map f l with Err e => Err e | Ok ys => Ok (y :: ys) end
      end
  end.

Definition and_then {A B E} (r : result A E) (k : A → result B E) : result B E :=
  match r with Ok x => k x | Err e => Err e end.
Definition or_invalid {A} (x : option A) : result A EvmeError :=
  match x with Some x => Ok x | None => Err InvalidInput end.

Class Parsers := {
  u32_from_str : str → option Z;
  u64_from_str : str → option Z;
  (** [u64::from_str_radix(s, 16)], and [hex::decode]. *)
  u64_from_hex : str → option Z;
  hex_decode : str → option Bytes;
  u256_from_str : str → option U256;
  b256_from_str : str → option Z;
  address_from_str : str → option Address;
  (** [parse_units(num, unit)], converted to [U256]. *)
  parse_units : str → str → option U256;
}.

Section parsing.
Context `{HP : Parsers}.

Definition parse_ether_value (s : str) : result U256 EvmeError :=
  let s := trim s in
  let '(num_str, unit) := split_at_find (λ c, negb (is_ascii_digit c) && negb (c =? 46)) s in
  let unit := match unit with [] => str_of "wei" | _ => unit end in
  or_invalid (parse_units num_str unit).

(** One entry of [parse_block_hashes]; a later entry replaces an earlier one. *)
Definition parse_block_hash (entry : str) : result (Z * Z) EvmeError :=
  and_then (or_invalid (split_once (str_of ":") entry)) (λ '(num_str, hash_str),
  and_then (or_invalid (u64_from_str (trim num_str))) (λ block_num,
  and_then (or_invalid (b256_from_str (trim hash_str))) (λ block_hash,
  Ok (block_num, block_hash)))).

Definition parse_block_hashes (block_hashes : list str) : result (gmap Z Z) EvmeError :=
  and_then (try_map parse_block_hash block_hashes) (λ l,
  Ok (foldl (λ m kv, <[kv.1 := kv.2]> m) ∅ l)).

(** An address and an amount around a separator. *)
Definition parse_amount (separator : str) (entry : str) : result (Address * U256) EvmeError :=
  and_then (or_invalid (split_once separator entry)) (λ '(addr_str, value_str),
  and_then (or_invalid (address_from_str (trim addr_str))) (λ address,
  and_then (parse_ether_value value_str) (λ wei, Ok (address, wei)))).

Definition parse_faucet (faucet : list str) : result (list (Address * U256)) EvmeError :=
  try_map (parse_amount (str_of "+=")) faucet.
Definition parse_balance (balance : list str) : result (list (Address * U256)) EvmeError :=
  try_map (parse_amount (str_of "=")) balance.

Definition parse_storage_entry (entry : str) : result (Address * U256 * U256) EvmeError :=
  and_then (or_invalid (split_once (str_of ":") entry)) (λ '(addr_str, rest),
  and_then (or_invalid (split_once (str_of "=") rest)) (λ '(slot_str, value_str),
  and_then (or_invalid (address_from_str (trim addr_str))) (λ address,
  and_then (or_invalid (u256_from_str (trim slot_str))) (λ slot,
  and_then (or_invalid (u256_from_str (trim value_str))) (λ value, Ok (address, slot, value)))))).

Definition parse_storage (storage : list str) : result (list (Address * U256 * U256)) EvmeError :=
  try_map parse_storage_entry storage.
End parsing.

(** * Accounts in a file *)

Class BytecodeOps := {
  (** [Bytecode::default], [original_byte_slice], [new_raw_checked] and [hash_slow]. *)
  bytecode_default : Bytecode;
  original_byte_slice : Bytecode → Bytes;
  new_raw_checked : Bytes → option Bytecode;
  hash_slow : Bytecode → Z;
  keccak256 : Bytes → Z;
}.

(** The fields of the JSON object; a missing field is [None]. *)
Record AccountState : Type := mkAccountState {
  as_balance : option U256;
  as_nonce : option Z;
  as_code : option Bytes;
  as_code_hash : option Z;
  as_storage : option (gmap Z U256);
}.

Section accounts.
Context `{RS : RevmState} `{HB : BytecodeOps}.

Definition from_account (account : Account) : AccountState :=
  let '(c, h) :=
    match code (acc_info account) with
    | Some bytecode =>
        let bytes := original_byte_slice bytecode in
        (Some bytes, match bytes with [] => KECCAK_EMPTY | _ => keccak256 bytes end)
    | None => (None, code_hash (acc_info account))
    end in
  mkAccountState (Some (balance (acc_info account))) (Some (nonce (acc_info account))) c (Some h)
    (Some (slot_present <$> acc_storage account)).

(** [Account::from(info).with_storage(storage)], with slots [EvmStorageSlot::new(value, 0)]. *)
Definition account_with_values (i : AccountInfo) (values : gmap Z U256) : Account :=
  mkAccount i ((λ v, slot_new v 0) <$> values) status_empty 0.

Definition into_account (s : AccountState) : result Account EvmeError :=
  let code := default [] (as_code s) in
  and_then
    (match code with
     | [] => Ok bytecode_default
     | _ => match new_raw_checked code with Some b => Ok b | None => Err InvalidBytecode end
     end) (λ bytecode,
  let computed_hash := hash_slow bytecode in
  let account :=
    account_with_values
      (mkAccountInfo (default 0 (as_balance s)) (default 0 (as_nonce s)) computed_hash (Some bytecode))
      (default ∅ (as_storage s)) in
  match as_code_hash s with
  | Some expected =>
      if negb (computed_hash =? expected) then Err (CodeHashMismatch expected computed_hash)
      else Ok account
  | None => Ok account
  end).

(** [serialize_evm_state]: what is written, before its JSON encoding. *)
Definition dump_state (state : gmap Z Account) : gmap Z AccountState := from_account <$> state.

(** The loop over the accounts of a file: the first error found ends it. *)
Definition load_accounts (file : gmap Z AccountState) : result (gmap Z Account) EvmeError :=
  and_then
    (try_map (λ kv : Z * AccountState, and_then (into_account kv.2) (λ a, Ok (kv.1, a)))
       (map_to_list file))
    (λ l, Ok (list_to_map l)).

(** * The prestate *)

(** [prestate.entry(address).or_default()], then an update of the account. *)
Definition update_account (address : Address) (f : Account → Account) (s : gmap Z Account)
    : gmap Z Account :=
  <[address := f (default (account_from_info account_info_default) (s !! address))]> s.

Definition set_balance (b : U256) (a : Account) : Account :=
  let i := acc_info a in
  mkAccount (mkAccountInfo b (nonce i) (code_hash i) (code i)) (acc_storage a) (acc_status a)
    (acc_transaction_id a).

Definition U256_MODULUS : Z := 2 ^ 256.

(** [+=] on [U256] wraps. *)
Definition add_balance (b : U256) (a : Account) : Account :=
  set_balance ((balance (acc_info a) + b) mod U256_MODULUS) a.

Record PreStateArgs : Type := mkPreStateArgs {
  (** The accounts of the [--prestate] file. *)
  pa_prestate : option (result (gmap Z AccountState) EvmeError);
  pa_block_hashes : list str;
  pa_sender_balance : option str;
  pa_faucet : list str;
  pa_balance : list str;
  pa_storage : list str;
}.

Context `{HP : Parsers}.

Definition load_prestate (args : PreStateArgs) (sender : Address)
    : result (gmap Z Account) EvmeError :=
  and_then
    (match pa_prestate args with
     | Some file => and_then file load_accounts
     | None => Ok ∅
     end) (λ prestate,
  and_then (parse_balance (pa_balance args)) (λ balances,
  let prestate := foldl (λ s kv, update_account kv.1 (set_balance kv.2) s) prestate balances in
  and_then (parse_storage (pa_storage args)) (λ slots,
  let prestate :=
    foldl (λ s '(address, slot, value),
             update_account address (λ a, insert_slot a slot (slot_new value 0)) s) prestate slots in
  and_then
    (match pa_sender_balance args with
     | Some b =>
         and_then (parse_ether_value b) (λ sender_balance,
         Ok (update_account sender (set_balance sender_balance) prestate))
     | None => Ok prestate
     end) (λ prestate,
  and_then (parse_faucet (pa_faucet args)) (λ amounts,
  Ok (foldl (λ s kv, update_account kv.1 (add_balance kv.2) s) prestate amounts)))))).
End accounts.
