(* ===== verification/CliTx.v ===== *)
(** The transaction of [mega-evme]: [common/tx.rs], its overrides in a replay,
    [common/tx_override.rs], and the hexadecimal input of [common/hex.rs].

    A file is what was read from it; the codec of EIP-2718 envelopes and the recovery of a signer
    are upstream, the class [TxCodec]. *)

From S2P Require Import Prelude Spec Revm CliInput.

Definition DEFAULT_SENDER : Address := 0xf39Fd6e51aad88F6F4ce6aB8827279cffFb92266.

(** [OpTxType]. *)
Inductive MegaTxType : Type := Legacy | Eip2930 | Eip1559 | Eip7702Tx | Deposit.

#[export] Instance MegaTxType_eq_dec : EqDecision MegaTxType.
Proof. solve_decision. Defined.

Record TxArgs : Type := mkTxArgs {
  ta_tx_type : option Z;
  ta_gas : option Z;
  ta_basefee : option Z;
  ta_priority_fee : option Z;
  ta_sender : option Address;
  ta_receiver : option Address;
  ta_nonce : option Z;
  ta_create : option bool;
  ta_value : option str;
  ta_input : option str;
  (** The content of the input file, or of the standard input. *)
  ta_inputfile : option (result str EvmeError);
  ta_source_hash : option Z;
  ta_mint : option Z;
  ta_auth : list str;
  ta_access : list str;
}.

(** [Authorization]. *)
Record AuthorizationFields : Type := mkAuthFields {
  af_chain_id : U256;
  af_address : Address;
  af_nonce : Z;
}.

(** A recovered authorization: its authority is known. *)
Record RecoveredAuthorization : Type := mkRecovered {
  ra_inner : AuthorizationFields;
  ra_authority : option Address;
}.

Record AccessListItem : Type := mkAccessItem {
  ai_address : Address;
  ai_storage_keys : list Z;
}.

(** [TxEnv], less the blob fields, which are always empty here. The kind [None] is [Create]. *)
Record TxEnv : Type := mkTxEnv {
  te_caller : Address;
  te_gas_price : Z;
  te_gas_priority_fee : option Z;
  te_tx_type : Z;
  te_gas_limit : Z;
  te_data : Bytes;
  te_nonce : Z;
  te_value : U256;
  te_access_list : list AccessListItem;
  te_authorization_list : list RecoveredAuthorization;
  te_kind : option Address;
  te_chain_id : option Z;
}.

(** [DepositTransactionParts]: source hash, mint, and whether it is a system transaction. *)
Record DepositParts : Type := mkDepositParts {
  dp_source_hash : Z;
  dp_mint : option Z;
  dp_is_system_transaction : bool;
}.

Record MegaTx : Type := mkMegaTx {
  mt_base : TxEnv;
  mt_enveloped_tx : option Bytes;
  mt_deposit : DepositParts;
}.

(** [DepositTransactionParts::default()]. *)
Definition deposit_default : DepositParts := mkDepositParts 0 None false.
(** [MegaTransaction::new]. *)
Definition mega_tx_new (tx : TxEnv) : MegaTx := mkMegaTx tx None deposit_default.

(** [str::split] and [starts_with]. *)
Fixpoint split_fuel (fuel : nat) (pattern s : str) : list str :=
  match fuel with
  | O => [s]
  | S fuel =>
      match split_once pattern s with
      | Some (a, b) => a :: split_fuel fuel pattern b
      | None => [s]
      end
  end.
Definition split (pattern s : str) : list str := split_fuel (length s) pattern s.
Definition starts_with (pattern s : str) : bool := bool_decide (take (length pattern) s = pattern).
(** [trim_start_matches]. *)
Fixpoint trim_start_matches_fuel (fuel : nat) (pattern s : str) : str :=
  match fuel with
  | O => s
  | S fuel =>
      if starts_with pattern s
      then trim_start_matches_fuel fuel pattern (drop (length pattern) s) else s
  end.
Definition trim_start_matches (pattern s : str) : str :=
  trim_start_matches_fuel (length s) pattern s.

Section hex.
Context `{HP : Parsers}.

(** The length is counted in bytes, which for a string [hex::decode] accepts are its
    characters; the error differs for others. *)
Definition decode_hex (s : str) : result Bytes EvmeError :=
  let s := trim s in
  match s with
  | [] => Ok []
  | _ =>
      let hex_str :=
        if starts_with (str_of "0x") s || starts_with (str_of "0X") s then drop 2 s else s in
      if negb (Z.of_nat (length hex_str) mod 2 =? 0) then Err InvalidInput
      else match hex_decode hex_str with Some b => Ok b | None => Err InvalidHex end
  end.

Definition load_hex (arg : option str) (file : option (result str EvmeError))
    : result (option Bytes) EvmeError :=
  match arg, file with
  | Some arg, _ => and_then (decode_hex arg) (λ b, Ok (Some b))
  | None, Some file => and_then file (λ content, and_then (decode_hex content) (λ b, Ok (Some b)))
  | None, None => Ok None
  end.
End hex.

Section args.
Context `{HP : Parsers}.
Implicit Types args : TxArgs.

Definition gas args : Z := default 10000000 (ta_gas args).
Definition basefee args : Z := default 0 (ta_basefee args).
Definition sender args : Address := default DEFAULT_SENDER (ta_sender args).
Definition create args : bool := default false (ta_create args).
Definition receiver args : Address := default 0 (ta_receiver args).
Definition tx_type_arg args : Z := default 0 (ta_tx_type args).

Definition value args : result U256 EvmeError :=
  match ta_value args with Some v => parse_ether_value v | None => Ok 0 end.

Definition type_of_u8 (ty : Z) : result MegaTxType EvmeError :=
  if ty =? 0 then Ok Legacy
  else if ty =? 1 then Ok Eip2930
  else if ty =? 2 then Ok Eip1559
  else if ty =? 4 then Ok Eip7702Tx
  else if ty =? 126 then Ok Deposit
  else Err (UnsupportedTxType ty).

Definition mega_tx_type args : result MegaTxType EvmeError := type_of_u8 (tx_type_arg args).

Definition is_given {A} (x : option A) : bool := match x with Some _ => true | None => false end.
Definition is_empty {A} (l : list A) : bool := match l with [] => true | _ => false end.

Definition validate args : result unit EvmeError :=
  and_then (mega_tx_type args) (λ ty,
  let is_ty t := bool_decide (ty = t) in
  if negb (is_ty Deposit) && (is_given (ta_source_hash args) || is_given (ta_mint args))
  then Err InvalidInput
  else if is_ty Deposit && negb (is_given (ta_source_hash args)) then Err InvalidInput
  else if (is_ty Legacy || is_ty Eip2930) && is_given (ta_priority_fee args) then Err InvalidInput
  else if create args && is_given (ta_receiver args) then Err InvalidInput
  else if negb (is_ty Eip7702Tx) && negb (is_empty (ta_auth args)) then Err InvalidInput
  else if negb (is_empty (ta_access args)) && negb (is_ty Eip2930 || is_ty Eip1559 || is_ty Eip7702Tx)
  then Err InvalidInput
  else Ok tt).

Definition parse_auth_fields (s : str) (chain_id : Z)
    : result (AuthorizationFields * Address) EvmeError :=
  match split (str_of "->") s with
  | [authority_part; delegation_str] =>
      and_then (or_invalid (address_from_str (trim delegation_str))) (λ delegation,
      match split (str_of ":") authority_part with
      | [authority_str; nonce_str] =>
          and_then (or_invalid (address_from_str (trim authority_str))) (λ authority,
          let nonce_str := trim nonce_str in
          and_then
            (or_invalid
               (if starts_with (str_of "0x") nonce_str
                then u64_from_hex (trim_start_matches (str_of "0x") nonce_str)
                else u64_from_str nonce_str)) (λ nonce,
          Ok (mkAuthFields chain_id delegation nonce, authority)))
      | _ => Err InvalidInput
      end)
  | _ => Err InvalidInput
  end.

Definition parse_authorization (chain_id : Z) (s : str) : result RecoveredAuthorization EvmeError :=
  and_then (parse_auth_fields s chain_id) (λ '(auth, authority),
  Ok (mkRecovered auth (Some authority))).

Definition parse_authorization_list (chain_id : Z) args
    : result (list RecoveredAuthorization) EvmeError :=
  try_map (parse_authorization chain_id) (ta_auth args).

Definition parse_access_list_item (s : str) : result AccessListItem EvmeError :=
  match split_once (str_of ":") s with
  | Some (addr_str, keys_str) =>
      and_then (or_invalid (address_from_str (trim addr_str))) (λ address,
      and_then (try_map (λ k, or_invalid (b256_from_str (trim k))) (split (str_of ",") keys_str))
        (λ storage_keys, Ok (mkAccessItem address storage_keys)))
  | None =>
      and_then (or_invalid (address_from_str (trim s))) (λ address, Ok (mkAccessItem address []))
  end.

Definition parse_access_list args : result (list AccessListItem) EvmeError :=
  try_map parse_access_list_item (ta_access args).

Definition create_tx_env (chain_id : Z) args : result TxEnv EvmeError :=
  and_then (validate args) (λ _,
  and_then (load_hex (ta_input args) (ta_inputfile args)) (λ data,
  let kind := if create args then None else Some (receiver args) in
  and_then (parse_authorization_list chain_id args) (λ authorization_list,
  and_then (parse_access_list args) (λ access_list,
  and_then (value args) (λ v,
  Ok (mkTxEnv (sender args) (basefee args) (ta_priority_fee args) (tx_type_arg args) (gas args)
        (default [] data) (default 0 (ta_nonce args)) v access_list authorization_list kind
        (Some chain_id))))))).
End args.

(** * Envelopes *)

(** The unsigned parts of an envelope; the signature is a dummy. *)
Inductive FakeEnvelope : Type :=
  | LegacyEnvelope (chain_id : option Z) (nonce gas_price gas_limit : Z) (to : option Address)
      (value : U256) (input : Bytes)
  | Eip2930Envelope (chain_id nonce gas_price gas_limit : Z) (to : option Address) (value : U256)
      (access_list : list AccessListItem) (input : Bytes)
  | Eip1559Envelope (chain_id nonce gas_limit max_fee_per_gas max_priority_fee_per_gas : Z)
      (to : option Address) (value : U256) (access_list : list AccessListItem) (input : Bytes)
  | Eip7702Envelope (chain_id nonce gas_limit max_fee_per_gas max_priority_fee_per_gas : Z)
      (to : Address) (value : U256) (access_list : list AccessListItem)
      (authorization_list : list AuthorizationFields) (input : Bytes)
  | DepositEnvelope (source_hash : Z) (from : Address) (to : option Address) (mint : Z)
      (value : U256) (gas_limit : Z) (is_system_transaction : bool) (input : Bytes).

(** A decoded envelope, with what is read of it. *)
Record DecodedEnvelope : Type := mkEnvelope {
  de_type : MegaTxType;
  de_signer : option Address;
  de_deposit : option (Z * Z * bool);
  de_chain_id : option Z;
  de_gas_price : option Z;
  de_max_fee_per_gas : Z;
  de_max_priority_fee_per_gas : option Z;
  de_gas_limit : Z;
  de_input : Bytes;
  de_nonce : Z;
  de_value : U256;
  de_access_list : option (list AccessListItem);
  de_authorization_list : option (list RecoveredAuthorization);
  de_kind : option Address;
}.

Class TxCodec := {
  encoded_2718 : FakeEnvelope → Bytes;
  decode_2718 : Bytes → option DecodedEnvelope;
}.

Definition type_u8 (ty : MegaTxType) : Z :=
  match ty with Legacy => 0 | Eip2930 => 1 | Eip1559 => 2 | Eip7702Tx => 4 | Deposit => 126 end.

Definition create_fake_envelope (tx : TxEnv) : result FakeEnvelope EvmeError :=
  let chain_id := default 0 (te_chain_id tx) in
  let priority := default 0 (te_gas_priority_fee tx) in
  and_then (type_of_u8 (te_tx_type tx)) (λ ty,
  match ty with
  | Legacy =>
      Ok (LegacyEnvelope (te_chain_id tx) (te_nonce tx) (te_gas_price tx) (te_gas_limit tx)
            (te_kind tx) (te_value tx) (te_data tx))
  | Eip2930 =>
      Ok (Eip2930Envelope chain_id (te_nonce tx) (te_gas_price tx) (te_gas_limit tx) (te_kind tx)
            (te_value tx) (te_access_list tx) (te_data tx))
  | Eip1559 =>
      Ok (Eip1559Envelope chain_id (te_nonce tx) (te_gas_limit tx) (te_gas_price tx) priority
            (te_kind tx) (te_value tx) (te_access_list tx) (te_data tx))
  | Eip7702Tx =>
      match te_kind tx with
      | None => Err InvalidInput
      | Some to =>
          Ok (Eip7702Envelope chain_id (te_nonce tx) (te_gas_limit tx) (te_gas_price tx) priority to
                (te_value tx) (te_access_list tx) (ra_inner <$> te_authorization_list tx)
                (te_data tx))
      end
  | Deposit =>
      Ok (DepositEnvelope 0 (te_caller tx) (te_kind tx) 0 (te_value tx) (te_gas_limit tx) false
            (te_data tx))
  end).

Section codec.
Context `{HP : Parsers} `{HC : TxCodec}.

Definition create_tx (chain_id : Z) (args : TxArgs) : result MegaTx EvmeError :=
  and_then (create_tx_env chain_id args) (λ tx_env,
  and_then (create_fake_envelope tx_env) (λ envelope,
  and_then (mega_tx_type args) (λ ty,
  let deposit :=
    if bool_decide (ty = Deposit)
    then mkDepositParts (default 0 (ta_source_hash args)) (ta_mint args) false
    else deposit_default in
  Ok (mkMegaTx tx_env (Some (encoded_2718 envelope)) deposit)))).

Record DecodedRawTx : Type := mkDecoded {
  dr_tx_env : TxEnv;
  dr_raw_bytes : Bytes;
  dr_deposit : option (Z * option Z * bool);
}.

Definition from_raw (raw_bytes : Bytes) : result DecodedRawTx EvmeError :=
  and_then (or_invalid (decode_2718 raw_bytes)) (λ e,
  and_then (or_invalid (de_signer e)) (λ caller,
  let deposit :=
    (λ '(source_hash, mint, is_system), (source_hash, if mint =? 0 then None else Some mint, is_system))
      <$> de_deposit e in
  let '(gas_price, gas_priority_fee) :=
    match de_type e with
    | Legacy | Eip2930 => (default 0 (de_gas_price e), None)
    | Eip1559 | Eip7702Tx => (de_max_fee_per_gas e, de_max_priority_fee_per_gas e)
    | Deposit => (0, None)
    end in
  Ok (mkDecoded
        (mkTxEnv caller gas_price gas_priority_fee (type_u8 (de_type e)) (de_gas_limit e) (de_input e)
           (de_nonce e) (de_value e) (default [] (de_access_list e))
           (default [] (de_authorization_list e)) (de_kind e) (de_chain_id e))
        raw_bytes deposit))).

(** The fields that were given; the environment's chain id is never overridden. *)
Definition override_fields (args : TxArgs) (v : U256) (data : Bytes) (access : list AccessListItem)
    (auth : list RecoveredAuthorization) (tx : TxEnv) : TxEnv :=
  mkTxEnv (default (te_caller tx) (ta_sender args))
    (default (te_gas_price tx) (ta_basefee args))
    (match ta_priority_fee args with Some p => Some p | None => te_gas_priority_fee tx end)
    (default (te_tx_type tx) (ta_tx_type args))
    (default (te_gas_limit tx) (ta_gas args)) data (default (te_nonce tx) (ta_nonce args)) v access
    auth
    (if default false (ta_create args) then None
     else match ta_receiver args with Some r => Some r | None => te_kind tx end)
    (te_chain_id tx).

Definition override_tx_env (args : TxArgs) (d : DecodedRawTx) : result DecodedRawTx EvmeError :=
  let tx := dr_tx_env d in
  and_then
    (match ta_value args with Some v => parse_ether_value v | None => Ok (te_value tx) end) (λ v,
  and_then
    (if is_given (ta_input args) || is_given (ta_inputfile args)
     then and_then (load_hex (ta_input args) (ta_inputfile args)) (λ data, Ok (default [] data))
     else Ok (te_data tx)) (λ data,
  and_then
    (if negb (is_empty (ta_access args)) then parse_access_list args else Ok (te_access_list tx))
    (λ access,
  and_then
    (if negb (is_empty (ta_auth args))
     then parse_authorization_list (default 0 (te_chain_id tx)) args
     else Ok (te_authorization_list tx)) (λ auth,
  let deposit :=
    (λ '(source_hash, mint, is_system),
       (default source_hash (ta_source_hash args),
        match ta_mint args with Some m => Some m | None => mint end, is_system)) <$> dr_deposit d in
  Ok (mkDecoded (override_fields args v data access auth tx) (dr_raw_bytes d) deposit))))).

Definition into_tx (d : DecodedRawTx) : MegaTx :=
  mkMegaTx (dr_tx_env d) (Some (dr_raw_bytes d))
    (match dr_deposit d with
     | Some (source_hash, mint, is_system) => mkDepositParts source_hash mint is_system
     | None => deposit_default
     end).
End codec.

(** * Overrides in a replay *)

Record TxOverrideArgs : Type := mkOverrideArgs {
  oa_gas_limit : option Z;
  oa_value : option str;
  oa_input : option str;
  oa_input_file : option (result str EvmeError);
}.

Definition has_overrides (a : TxOverrideArgs) : bool :=
  is_given (oa_gas_limit a) || is_given (oa_value a) || is_given (oa_input a) ||
  is_given (oa_input_file a).

Record TxOverrides : Type := mkOverrides {
  ov_gas_limit : option Z;
  ov_value : option U256;
  ov_has_input_override : bool;
}.

(** The overrides [wrap] computes: the input goes to the thread's [INPUT_OVERRIDE] cell, the first component. *)
Definition wrap `{HP : Parsers} (a : TxOverrideArgs) (cell : option Bytes)
    : option Bytes * result TxOverrides EvmeError :=
  match load_hex (oa_input a) (oa_input_file a) with
  | Err e => (cell, Err e)
  | Ok input =>
      (input,
       and_then
         (match oa_value a with
          | Some v => and_then (parse_ether_value v) (λ v, Ok (Some v)) | None => Ok None end)
         (λ v, Ok (mkOverrides (oa_gas_limit a) v (is_given input))))
  end.

Definition with_gas_value_data (g : Z) (v : U256) (data : Bytes) (tx : TxEnv) : TxEnv :=
  mkTxEnv (te_caller tx) (te_gas_price tx) (te_gas_priority_fee tx) (te_tx_type tx) g data
    (te_nonce tx) v (te_access_list tx) (te_authorization_list tx) (te_kind tx) (te_chain_id tx).

Definition apply_overrides (o : TxOverrides) (cell : option Bytes) (tx : TxEnv) : TxEnv :=
  with_gas_value_data (default (te_gas_limit tx) (ov_gas_limit o))
    (default (te_value tx) (ov_value o))
    (if ov_has_input_override o then default (te_data tx) cell else te_data tx) tx.

(** [OverriddenTx]: the transaction keeps its encoding, signer and hash; only the environment it
    converts to is changed. *)
Record OverriddenTx (T : Type) : Type := mkOverridden {
  ot_inner : T;
  ot_overrides : TxOverrides;
}.
#[global] Arguments mkOverridden {T} _ _.
#[global] Arguments ot_inner {T} _.
#[global] Arguments ot_overrides {T} _.

Definition overridden_into_tx_env {T} (into_tx_env : T → MegaTx) (cell : option Bytes)
    (o : OverriddenTx T) : MegaTx :=
  let tx := into_tx_env (ot_inner o) in
  mkMegaTx (apply_overrides (ot_overrides o) cell (mt_base tx)) (mt_enveloped_tx tx) (mt_deposit tx).
