(* ===== verification/CliState.v ===== *)
(** The environment and the database of [mega-evme]: [common/env.rs], [EvmeState] of
    [common/state.rs] and the fixed hardforks of [common/hardfork.rs].

    [CfgEnv::default] and the fields of revm's [BlockEnv] are upstream, the class [EnvParts].  The
    state overlays the accounts of the prestate on a backend, which is empty or a fork read over
    RPC.  The fork's database is the class [ForkDb]: it may cache what it reads. *)

From S2P Require Import Prelude Spec Revm LimitCheck Interfaces AdditionalLimit Access DynamicGas.
From S2P Require Import SystemTx Context Execution EvmState Precompiles BlockEvm MegaEvm.
From S2P Require Import MemoryEnvs CliInput CliTx Hardfork SystemContracts SequencerRegistry.

Record ChainArgs : Type := mkChainArgs {
  ca_spec : string;
  ca_chain_id : Z;
}.

Record BlockEnvArgs : Type := mkBlockEnvArgs {
  ba_block_number : Z;
  ba_block_coinbase : Address;
  ba_block_timestamp : Z;
  ba_block_gas_limit : Z;
  ba_block_basefee : Z;
  ba_block_difficulty : U256;
  ba_block_prevrandao : Z;
  ba_block_blob_excess_gas : option Z;
}.

Record EnvArgs : Type := mkEnvArgs {
  ea_chain : ChainArgs;
  ea_block : BlockEnvArgs;
  ea_bucket_capacity : list str;
}.

(** [EvmeExternalEnvs]. *)
Abbreviation EvmeExternalEnvs := (TestExternalEnvs AHashBucketHasher) (only parsing).

Section ext.
Context `{HP : Parsers}.

Definition parse_bucket_capacity (s : str) : result (Z * Z) EvmeError :=
  match split (str_of ":") s with
  | [id_str; capacity_str] =>
      and_then (or_invalid (u32_from_str id_str)) (λ bucket_id,
      and_then (or_invalid (u64_from_str capacity_str)) (λ capacity, Ok (bucket_id, capacity)))
  | _ => Err InvalidInput
  end.

(** The loop stops at the first entry that does not parse. *)
Definition create_external_envs (bucket_capacity : list str) : result EvmeExternalEnvs EvmeError :=
  and_then (try_map parse_bucket_capacity bucket_capacity) (λ l,
  Ok (foldl (λ e kv, with_bucket_capacity kv.1 kv.2 e) test_new l)).
End ext.

Definition chain_spec_id (a : ChainArgs) : result MegaSpecId EvmeError :=
  match spec_from_str (ca_spec a) with Ok s => Ok s | Err _ => Err InvalidInput end.

Class EnvParts (J W DB : Type) `{HB : !EvmParts J W DB} := {
  (** [CfgEnv::default()]. *)
  cfg_default : CfgEnv MegaSpecId;
  BLOB_BASE_FEE_UPDATE_FRACTION_CANCUN : Z;
  (** [BlockEnv { .. }], from the fields that are set, and [set_blob_excess_gas_and_price]. *)
  block_env_of : U256 → Address → U256 → Z → Z → U256 → option Z → BlockEnv;
  set_blob_excess_gas_and_price : Z → Z → BlockEnv → BlockEnv;
}.

Section env.
Context `{R : Revm} `{RS : RevmState} {J W DB : Type} `{HB : !EvmParts J W DB} `{HE : !EnvParts J W DB}.
Context `{HP : Parsers}.

Definition create_cfg_env (a : ChainArgs) : result (CfgEnv MegaSpecId) EvmeError :=
  and_then (chain_spec_id a) (λ spec,
  let 'mkCfg _ _ b d e f g h i j k l m n o := cfg_default in
  Ok (mkCfg spec (ca_chain_id a) b d e f g h i j k l m n o)).

Definition create_block_env (a : BlockEnvArgs) : BlockEnv :=
  let block :=
    block_env_of (ba_block_number a) (ba_block_coinbase a) (ba_block_timestamp a)
      (ba_block_gas_limit a) (ba_block_basefee a) (ba_block_difficulty a)
      (Some (ba_block_prevrandao a)) in
  match ba_block_blob_excess_gas a with
  | Some excess_gas =>
      set_blob_excess_gas_and_price excess_gas BLOB_BASE_FEE_UPDATE_FRACTION_CANCUN block
  | None => block
  end.

Definition create_evm_context (db : DB) (a : EnvArgs)
    : panics (result (MegaContext J W EvmeExternalEnvs EvmeExternalEnvs) EvmeError) :=
  match create_cfg_env (ea_chain a), create_external_envs (ea_bucket_capacity a) with
  | Err e, _ => Some (Err e)
  | Ok _, Err e => Some (Err e)
  | Ok cfg, Ok envs =>
      ctx ← context_new db (ce_spec cfg);
      let ctx := with_block (create_block_env (ea_block a)) (with_cfg cfg ctx) in
      ctx ← with_external_envs envs envs ctx;
      Some (Ok ctx)
  end.
End env.

Class ForkDb (D : Type) := {
  (** [Database], with the cache it leaves, and [DatabaseRef]. *)
  fork_basic : Address → D → D * option (option AccountInfo);
  fork_code_by_hash : Z → D → D * option Bytecode;
  fork_storage : Address → U256 → D → D * option U256;
  fork_block_hash : Z → D → D * option Z;
  fork_basic_ref : Address → D → option (option AccountInfo);
  fork_code_by_hash_ref : Z → D → option Bytecode;
  fork_storage_ref : Address → U256 → D → option U256;
  fork_block_hash_ref : Z → D → option Z;
}.

(** The block hashes revm's [EmptyDB] makes up. *)
Class EmptyDb := { empty_block_hash : Z → Z }.

Section fixed.
Context {P : Type}.

(** [FixedHardfork]: a fork is active from the start when its spec is enabled. *)
Definition FixedHardfork (spec : MegaSpecId) : MegaHardforkConfig P :=
  from_iter
    (map (λ h, (fork_name h, if is_enabled spec (fork_spec_id h) then Timestamp 0 else Never))
       [MiniRex; MiniRex1; MiniRex2; Rex; Rex1; Rex2; Rex3; Rex4; Rex5; Rex6]).
End fixed.

Section state.
Context `{RS : RevmState} `{HB : BytecodeOps} {D : Type} `{HF : !ForkDb D} `{HE : EmptyDb}.

Inductive EvmeBackend : Type :=
  | Empty
  | Forked (db : D).

Record EvmeState : Type := mkEvmeState {
  backend : EvmeBackend;
  prestate : gmap Z Account;
  code_map : gmap Z Bytecode;
  es_block_hashes : gmap Z Z;
}.
Implicit Types s : EvmeState.

(** The codes of the accounts; the map is built in the order of a hash map. *)
Definition extract_codes (prestate : gmap Z Account) : gmap Z Bytecode :=
  list_to_map (omap (λ kv : Z * Account,
    c ← code (acc_info kv.2); Some (code_hash (acc_info kv.2), c)) (map_to_list prestate)).

Definition new_empty (prestate : gmap Z Account) (block_hashes : gmap Z Z) : EvmeState :=
  mkEvmeState Empty prestate (extract_codes prestate) block_hashes.

(** [new_forked], from the database on the fork's block. *)
Definition new_forked (db : D) (prestate : gmap Z Account) (block_hashes : gmap Z Z) : EvmeState :=
  mkEvmeState (Forked db) prestate (extract_codes prestate) block_hashes.

(** * Overrides *)

Definition with_prestate (f : gmap Z Account → gmap Z Account) s : EvmeState :=
  mkEvmeState (backend s) (f (prestate s)) (code_map s) (es_block_hashes s).

Definition add_code (hash : Z) (c : Bytecode) s : EvmeState :=
  mkEvmeState (backend s) (prestate s) (<[hash := c]> (code_map s)) (es_block_hashes s).

Definition add_info_code (i : AccountInfo) s : EvmeState :=
  match code i with Some c => add_code (code_hash i) c s | None => s end.

Definition insert_account (address : Address) (account : Account) s : EvmeState :=
  with_prestate (λ p, <[address := account]> p) (add_info_code (acc_info account) s).

Definition extend_storage (storage : gmap Z EvmStorageSlot) (a : Account) : Account :=
  mkAccount (acc_info a) (storage ∪ acc_storage a) (acc_status a) (acc_transaction_id a).

Definition insert_storage (address : Address) (storage : gmap Z EvmStorageSlot) s : EvmeState :=
  with_prestate (update_account address (extend_storage storage)) s.

Definition insert_account_with_storage (address : Address) (i : AccountInfo)
    (storage : gmap Z EvmStorageSlot) s : EvmeState :=
  with_prestate (λ p, <[address := mkAccount i storage status_empty 0]> p) (add_info_code i s).

Definition set_account_balance (address : Address) (b : U256) s : EvmeState :=
  with_prestate (update_account address (set_balance b)) s.

Definition set_nonce (n : Z) (a : Account) : Account :=
  let i := acc_info a in
  mkAccount (mkAccountInfo (balance i) n (code_hash i) (code i)) (acc_storage a) (acc_status a)
    (acc_transaction_id a).

Definition set_account_nonce (address : Address) (n : Z) s : EvmeState :=
  with_prestate (update_account address (set_nonce n)) s.

(** [AccountInfo::set_code]. *)
Definition replace_code (c : Bytecode) (a : Account) : Account :=
  let i := acc_info a in
  mkAccount (mkAccountInfo (balance i) (nonce i) (hash_slow c) (Some c)) (acc_storage a)
    (acc_status a) (acc_transaction_id a).

Definition set_account_code (address : Address) (c : Bytecode) s : EvmeState :=
  with_prestate (update_account address (replace_code c)) (add_code (hash_slow c) c s).

Definition set_account_storage (address : Address) (storage : gmap Z U256) s : EvmeState :=
  with_prestate (update_account address (extend_storage ((λ v, slot_new v 0) <$> storage))) s.

Context `{HA : Artifacts}.

Definition deploy_system_contracts (spec : MegaSpecId) s : EvmeState :=
  let s :=
    foldl (λ s contract, set_account_code (sc_address contract) (new_raw (sc_code contract)) s) s
      (flat_system_contract_specs (FixedHardfork (P := unit) spec) 0) in
  if is_enabled spec REX5 then
    set_account_code SEQUENCER_REGISTRY_ADDRESS
      (new_raw (if is_enabled spec REX6 then SEQUENCER_REGISTRY_CODE_REX6 else SEQUENCER_REGISTRY_CODE)) s
  else s.

(** * [Database] *)

(** A read of the fork: its cache is kept, and a failure is [EvmeError::RpcError]. *)
Definition from_fork {A} s (r : D * option A) : EvmeState * result A EvmeError :=
  (mkEvmeState (Forked r.1) (prestate s) (code_map s) (es_block_hashes s),
   match r.2 with Some x => Ok x | None => Err RpcError end).

Definition basic (address : Address) s : EvmeState * result (option AccountInfo) EvmeError :=
  match prestate s !! address with
  | Some account => (s, Ok (Some (acc_info account)))
  | None =>
      match backend s with
      | Empty => (s, Ok None)
      | Forked db => from_fork s (fork_basic address db)
      end
  end.

Definition code_by_hash (hash : Z) s : EvmeState * result Bytecode EvmeError :=
  match code_map s !! hash with
  | Some c => (s, Ok c)
  | None =>
      match backend s with
      | Empty => (s, Ok bytecode_default)
      | Forked db => from_fork s (fork_code_by_hash hash db)
      end
  end.

Definition storage (address : Address) (index : U256) s : EvmeState * result U256 EvmeError :=
  match account ← prestate s !! address; acc_storage account !! index with
  | Some slot => (s, Ok (slot_present slot))
  | None =>
      match backend s with
      | Empty => (s, Ok 0)
      | Forked db => from_fork s (fork_storage address index db)
      end
  end.

Definition block_hash (number : Z) s : EvmeState * result Z EvmeError :=
  match es_block_hashes s !! number with
  | Some hash => (s, Ok hash)
  | None =>
      match backend s with
      | Empty => (s, Ok (empty_block_hash number))
      | Forked db => from_fork s (fork_block_hash number db)
      end
  end.

(** * [DatabaseRef] *)

Definition or_rpc {A} (r : option A) : result A EvmeError :=
  match r with Some x => Ok x | None => Err RpcError end.

Definition basic_ref (address : Address) s : result (option AccountInfo) EvmeError :=
  match prestate s !! address with
  | Some account => Ok (Some (acc_info account))
  | None =>
      match backend s with Empty => Ok None | Forked db => or_rpc (fork_basic_ref address db) end
  end.

Definition code_by_hash_ref (hash : Z) s : result Bytecode EvmeError :=
  match code_map s !! hash with
  | Some c => Ok c
  | None =>
      match backend s with
      | Empty => Ok bytecode_default
      | Forked db => or_rpc (fork_code_by_hash_ref hash db)
      end
  end.

Definition storage_ref (address : Address) (index : U256) s : result U256 EvmeError :=
  match account ← prestate s !! address; acc_storage account !! index with
  | Some slot => Ok (slot_present slot)
  | None =>
      match backend s with
      | Empty => Ok 0
      | Forked db => or_rpc (fork_storage_ref address index db)
      end
  end.

Definition block_hash_ref (number : Z) s : result Z EvmeError :=
  match es_block_hashes s !! number with
  | Some hash => Ok hash
  | None =>
      match backend s with
      | Empty => Ok (empty_block_hash number)
      | Forked db => or_rpc (fork_block_hash_ref number db)
      end
  end.

(** * Creating the state *)

Context `{HP : Parsers}.

(** [create_initial_state] without the provider: [fork] is the database it builds, [rpc_url],
    [capture_file] and [replay_file] tell which options were given. *)
Definition create_initial_state (args : PreStateArgs) (sender : Address) (fork : bool)
    (rpc_url capture_file replay_file : bool) (build : result D EvmeError)
    : result EvmeState EvmeError :=
  and_then (load_prestate args sender) (λ prestate,
  and_then (parse_block_hashes (pa_block_hashes args)) (λ block_hashes,
  if fork then
    if negb rpc_url then Err InvalidInput
    else if capture_file || replay_file then Err InvalidInput
    else and_then build (λ db, Ok (new_forked db prestate block_hashes))
  else Ok (new_empty prestate block_hashes))).
End state.
