(* ===== verification/CliFacts.v ===== *)
(** What the input and the database of [mega-evme] promise: a dump can be loaded again, the codes
    a state serves have the hashes they are asked by, both database interfaces agree, and an
    override of a forked account replaces all of it. *)

From S2P Require Import Prelude Spec Revm Hardfork SystemContracts SequencerRegistry.
From S2P Require Import CliInput CliState.

(** * Loops that collect *)

Lemma try_map_ok {A B E} (f : A → result B E) (g : A → B) l :
  (∀ x, x ∈ l → f x = Ok (g x)) → try_map f l = Ok (map g l).
Proof.
  induction l as [|x l IH]; intros H; [done|]. simpl. rewrite (H x) by apply list_elem_of_here.
  rewrite IH; [done|]. intros y Hy. apply H. by apply list_elem_of_further.
Qed.

Lemma try_map_err {A B E} (f : A → result B E) l x e :
  x ∈ l → f x = Err e → ∃ y e', y ∈ l ∧ f y = Err e' ∧ try_map f l = Err e'.
Proof.
  induction l as [|z l IH]; intros Hx He; [by apply elem_of_nil in Hx|]. simpl.
  destruct (f z) as [b|e1] eqn:Hz.
  - apply elem_of_cons in Hx as [->|Hx]; [congruence|].
    destruct (IH Hx He) as (y & e' & Hy & Hf & ->). exists y, e'. split; [by right|done].
  - exists z, e1. split; [by left|done].
Qed.

(** * Dumps *)

(** revm's bytecode operations: the hash is that of the original bytes, and the bytes of a
    bytecode are accepted again. *)
Class BytecodeLaws `{RS : RevmState} (HB : BytecodeOps) := {
  default_slice : original_byte_slice bytecode_default = [];
  hash_slow_spec c :
    hash_slow c = match original_byte_slice c with [] => KECCAK_EMPTY | b => keccak256 b end;
  new_raw_slice b c : new_raw_checked b = Some c → original_byte_slice c = b;
  new_raw_again c : original_byte_slice c ≠ [] → is_Some (new_raw_checked (original_byte_slice c));
}.

Section dump.
Context `{RS : RevmState} `{HB : BytecodeOps} `{HL : !BytecodeLaws HB}.
Implicit Types acc : Account.

(** The account knows its code, or has none. *)
Definition reloadable acc : bool :=
  match code (acc_info acc) with Some _ => true | None => code_hash (acc_info acc) =? KECCAK_EMPTY end.

Definition code_bytes acc : Bytes :=
  match code (acc_info acc) with Some c => original_byte_slice c | None => [] end.

Definition reloaded_code acc : Bytecode :=
  match code_bytes acc with
  | [] => bytecode_default
  | b => default bytecode_default (new_raw_checked b)
  end.

(** What loading a dumped account gives. *)
Definition reloaded acc : Account :=
  account_with_values
    (mkAccountInfo (balance (acc_info acc)) (nonce (acc_info acc)) (hash_slow (reloaded_code acc))
       (Some (reloaded_code acc)))
    (slot_present <$> acc_storage acc).

Lemma reloaded_slice acc : original_byte_slice (reloaded_code acc) = code_bytes acc.
Proof.
  unfold reloaded_code. destruct (code_bytes acc) as [|x b] eqn:E; [apply default_slice|].
  unfold code_bytes in E. destruct (code (acc_info acc)) as [c|]; [|done].
  destruct (new_raw_again c) as [c' Hc]; [by rewrite E|]. rewrite E in Hc.
  rewrite Hc. simpl. by apply new_raw_slice.
Qed.

Lemma reload acc :
  into_account (from_account acc) =
    if reloadable acc then Ok (reloaded acc)
    else Err (CodeHashMismatch (code_hash (acc_info acc)) KECCAK_EMPTY).
Proof.
  pose proof (reloaded_slice acc) as Hs. pose proof (hash_slow_spec (reloaded_code acc)) as Hh.
  rewrite Hs in Hh. unfold into_account, from_account, reloadable, reloaded.
  unfold reloaded_code, code_bytes in *. destruct (code (acc_info acc)) as [c|] eqn:Hc; simpl.
  - destruct (original_byte_slice c) as [|x b] eqn:Hb; simpl.
    + by rewrite Hh, Z.eqb_refl.
    + destruct (new_raw_again c) as [c' Hc']; [by rewrite Hb|]. rewrite Hb in Hc'.
      rewrite Hc' in *. simpl in *. by rewrite Hh, Z.eqb_refl.
  - rewrite Hh, Z.eqb_sym. by destruct (code_hash (acc_info acc) =? KECCAK_EMPTY).
Qed.

Lemma load_accounts_ok (file : gmap Z AccountState) (g : AccountState → Account) :
  (∀ a s, file !! a = Some s → into_account s = Ok (g s)) → load_accounts file = Ok (g <$> file).
Proof.
  intros H. unfold load_accounts. rewrite (try_map_ok _ (λ kv, (kv.1, g kv.2))).
  - simpl. f_equal. rewrite <- (list_to_map_to_list (g <$> file)), map_to_list_fmap.
    f_equal.
  - intros [a s] Ha. apply elem_of_map_to_list in Ha. simpl. by rewrite (H a s Ha).
Qed.

Lemma reloaded_again acc : reloaded (reloaded acc) = reloaded acc.
Proof.
  unfold reloaded at 1. unfold reloaded_code, code_bytes at 1 2. simpl.
  rewrite (reloaded_slice acc). fold (reloaded_code acc). unfold reloaded. f_equal.
  rewrite <- map_fmap_compose. simpl. apply map_eq. intros k. rewrite !lookup_fmap.
  by destruct (acc_storage acc !! k).
Qed.

Lemma present_values (values : gmap Z EvmStorageSlot) :
  slot_present <$> ((λ v, slot_new v 0) <$> (slot_present <$> values)) = slot_present <$> values.
Proof.
  rewrite <- map_fmap_compose. apply map_eq. intros k. rewrite !lookup_fmap.
  by destruct (values !! k).
Qed.

Lemma load_dump (state : gmap Z Account) :
  map_Forall (λ _ acc, reloadable acc = true) state →
  load_accounts (dump_state state) = Ok (reloaded <$> state).
Proof.
  intros H. unfold dump_state.
  rewrite (load_accounts_ok _ (λ s, match into_account s with Ok a => a | Err _ => account_from_info account_info_default end)).
  - f_equal. rewrite <- map_fmap_compose. apply map_fmap_ext. intros a acc Ha. simpl.
    by rewrite reload, (H a acc Ha).
  - intros a s Hs. rewrite lookup_fmap in Hs. apply fmap_Some in Hs as (acc & Ha & ->).
    by rewrite reload, (H a acc Ha).
Qed.

Lemma load_dump_fails (state : gmap Z Account) :
  ¬ map_Forall (λ _ acc, reloadable acc = true) state →
  ∃ a acc, state !! a = Some acc ∧ code (acc_info acc) = None ∧
    code_hash (acc_info acc) ≠ KECCAK_EMPTY ∧
    load_accounts (dump_state state) =
      Err (CodeHashMismatch (code_hash (acc_info acc)) KECCAK_EMPTY).
Proof.
  intros H. apply map_not_Forall in H as (a & acc & Ha & Hn); [|apply _].
  apply not_true_is_false in Hn. unfold load_accounts.
  destruct (try_map_err (λ kv : Z * AccountState, and_then (into_account kv.2) (λ x, Ok (kv.1, x)))
    (map_to_list (dump_state state)) (a, from_account acc)
    (CodeHashMismatch (code_hash (acc_info acc)) KECCAK_EMPTY)) as ([b s] & e & Hb & He & ->).
  - apply elem_of_map_to_list. unfold dump_state. by rewrite lookup_fmap, Ha.
  - simpl. by rewrite reload, Hn.
  - apply elem_of_map_to_list in Hb. unfold dump_state in Hb. rewrite lookup_fmap in Hb.
    apply fmap_Some in Hb as (acc' & Hb & ->). simpl in He. rewrite reload in He.
    destruct (reloadable acc') eqn:Hr; [done|]. injection He as <-. exists b, acc'.
    unfold reloadable in Hr. destruct (code (acc_info acc')); [done|]. by apply Z.eqb_neq in Hr.
Qed.

(** C14: a dumped state can be loaded again.  When every account knows its code or has none,
    loading the dump gives each account its balance, nonce, code and the values of its slots
    back, with the hash of that code, and dumping and loading once more changes nothing.
    Otherwise loading stops at an account whose code was never fetched, and says so. *)
Theorem state_dump_roundtrip (state : gmap Z Account) :
  (map_Forall (λ _ acc, reloadable acc = true) state →
   ∃ state', load_accounts (dump_state state) = Ok state' ∧
     (∀ a acc, state !! a = Some acc → ∃ acc' c,
        state' !! a = Some acc' ∧ balance (acc_info acc') = balance (acc_info acc) ∧
        nonce (acc_info acc') = nonce (acc_info acc) ∧ code (acc_info acc') = Some c ∧
        original_byte_slice c = code_bytes acc ∧ code_hash (acc_info acc') = hash_slow c ∧
        slot_present <$> acc_storage acc' = slot_present <$> acc_storage acc) ∧
     (∀ a, state !! a = None → state' !! a = None) ∧
     load_accounts (dump_state state') = Ok state') ∧
  (¬ map_Forall (λ _ acc, reloadable acc = true) state →
   ∃ a acc, state !! a = Some acc ∧ code (acc_info acc) = None ∧
     code_hash (acc_info acc) ≠ KECCAK_EMPTY ∧
     load_accounts (dump_state state) =
       Err (CodeHashMismatch (code_hash (acc_info acc)) KECCAK_EMPTY)).
Proof.
  split; intros H.
  - exists (reloaded <$> state). split_and!; [by apply load_dump| | |].
    + intros a acc Ha. exists (reloaded acc), (reloaded_code acc). rewrite lookup_fmap, Ha. simpl.
      split_and!; try done; [apply reloaded_slice|apply present_values].
    + intros a Ha. by rewrite lookup_fmap, Ha.
    + rewrite load_dump.
      * f_equal. rewrite <- map_fmap_compose. apply map_fmap_ext. intros a acc _.
        apply reloaded_again.
      * intros a acc Ha. rewrite lookup_fmap in Ha. by apply fmap_Some in Ha as (acc0 & _ & ->).
  - by apply load_dump_fails.
Qed.
End dump.

(** * The database *)

(** A fork is active exactly when its spec is enabled. *)
Lemma fixed_is_active {P} spec h t :
  0 ≤ t → is_active h t (FixedHardfork (P := P) spec) = is_enabled spec (fork_spec_id h).
Proof.
  intros Ht. unfold is_active, mega_fork_activation.
  assert (Hg : Hardfork.get (fork_name h) (FixedHardfork (P := P) spec) =
    Some (if is_enabled spec (fork_spec_id h) then Timestamp 0 else Never)).
  { unfold Hardfork.get, find_entry, FixedHardfork. by destruct h. }
  rewrite Hg. simpl. destruct (is_enabled spec (fork_spec_id h)); [by apply Z.leb_le|done].
Qed.

Section state.
Context `{RS : RevmState} `{HB : BytecodeOps} `{HA : Artifacts}.
Context {D : Type} `{HF : !ForkDb D} `{HE : EmptyDb}.
Local Notation EvmeState := (EvmeState (D := D)).
Implicit Types s : EvmeState.

(** ** Codes *)

Definition info_ok (i : AccountInfo) : Prop := ∀ c, code i = Some c → code_hash i = hash_slow c.

(** What a client can do with a state. *)
Inductive overrides : EvmeState → EvmeState → Prop :=
  | ov_account a acc s : info_ok (acc_info acc) → overrides s (insert_account a acc s)
  | ov_storage a m s : overrides s (insert_storage a m s)
  | ov_account_storage a i m s : info_ok i → overrides s (insert_account_with_storage a i m s)
  | ov_balance a b s : overrides s (set_account_balance a b s)
  | ov_nonce a n s : overrides s (set_account_nonce a n s)
  | ov_code a c s : overrides s (set_account_code a c s)
  | ov_set_storage a m s : overrides s (set_account_storage a m s)
  | ov_deploy spec s : overrides s (deploy_system_contracts spec s)
  | ov_basic a s : overrides s (basic a s).1
  | ov_code_by_hash h s : overrides s (code_by_hash h s).1
  | ov_read a k s : overrides s (CliState.storage a k s).1
  | ov_block_hash n s : overrides s (block_hash n s).1.

(** Every code is filed under its hash, and the code of every account is filed. *)
Record codes_ok s : Prop := mkCodesOk {
  co_map h c : code_map s !! h = Some c → hash_slow c = h;
  co_accounts a acc :
    prestate s !! a = Some acc → info_ok (acc_info acc);
  co_filed a acc c :
    prestate s !! a = Some acc → code (acc_info acc) = Some c →
    is_Some (code_map s !! code_hash (acc_info acc));
}.

Lemma codes_insert a acc s :
  codes_ok s → info_ok (acc_info acc) →
  (∀ c, code (acc_info acc) = Some c → is_Some (code_map s !! code_hash (acc_info acc))) →
  codes_ok (with_prestate (λ p, <[a := acc]> p) s).
Proof.
  intros [H1 H2 H3] Hi Hf. split; simpl; [exact H1| |].
  - intros b acc' Hb. apply lookup_insert_Some in Hb as [[_ <-]|[_ Hb]]; eauto.
  - intros b acc' c Hb Hc. apply lookup_insert_Some in Hb as [[_ <-]|[_ Hb]]; eauto.
Qed.

Lemma codes_add h c s : codes_ok s → hash_slow c = h → codes_ok (add_code h c s).
Proof.
  intros [H1 H2 H3] Hh. split; simpl; [|exact H2|].
  - intros h' c' H. apply lookup_insert_Some in H as [[<- <-]|[_ H]]; eauto.
  - intros a acc c' Ha Hc. destruct (decide (h = code_hash (acc_info acc))) as [->|Hne].
    + rewrite lookup_insert_eq. by eexists.
    + rewrite lookup_insert_ne by done. eauto.
Qed.

Lemma codes_add_info i s :
  codes_ok s → info_ok i →
  codes_ok (add_info_code i s) ∧
  (∀ c, code i = Some c → is_Some (code_map (add_info_code i s) !! code_hash i)).
Proof.
  intros Hs Hi. unfold add_info_code, info_ok in *. destruct (code i) as [c|]; [|done].
  split; [apply codes_add; [done|by rewrite (Hi c)]|]. intros c' _. simpl. rewrite lookup_insert_eq.
  by eexists.
Qed.

Lemma default_info_ok `{!RevmStateLaws RS} : info_ok account_info_default.
Proof. intros c. by rewrite default_no_code. Qed.

(** An update that keeps the code. *)
Lemma codes_update `{!RevmStateLaws RS} a f s :
  (∀ acc, code (acc_info (f acc)) = code (acc_info acc) ∧
     code_hash (acc_info (f acc)) = code_hash (acc_info acc)) →
  codes_ok s → codes_ok (with_prestate (update_account a f) s).
Proof.
  intros Hf Hs. unfold update_account.
  set (acc := default (account_from_info account_info_default) (prestate s !! a)). destruct (Hf acc) as [Hc Hh].
  apply (codes_insert a (f acc) s Hs); unfold info_ok; rewrite ?Hc, ?Hh; unfold acc;
    destruct (prestate s !! a) as [acc0|] eqn:Ha; simpl.
  - by apply (co_accounts _ Hs a).
  - apply default_info_ok.
  - intros c. by apply (co_filed _ Hs a).
  - intros c. by rewrite default_no_code.
Qed.

Lemma codes_set_code a c s : codes_ok s → codes_ok (set_account_code a c s).
Proof.
  intros Hs. apply (codes_insert a _ (add_code (hash_slow c) c s)); simpl.
  - by apply codes_add.
  - by intros c' [= <-].
  - intros _ _. rewrite lookup_insert_eq. by eexists.
Qed.

Lemma codes_read {A} s (r : D * option A) : codes_ok s → codes_ok (from_fork s r).1.
Proof. by intros [H1 H2 H3]; split. Qed.

Lemma codes_step `{!RevmStateLaws RS} s s' : overrides s s' → codes_ok s → codes_ok s'.
Proof.
  intros Hv Hs.
  destruct Hv as [a acc s Hi|a m s|a i m s Hi|a b s|a n s|a c s|a m s|spec s|a s|h s|a k s|n s].
  - destruct (codes_add_info _ _ Hs Hi) as [Ha Hf]. by apply (codes_insert a acc).
  - by apply codes_update.
  - destruct (codes_add_info _ _ Hs Hi) as [Ha Hf].
    by apply (codes_insert a (mkAccount i m status_empty 0)).
  - by apply codes_update.
  - by apply codes_update.
  - by apply codes_set_code.
  - by apply codes_update.
  - unfold deploy_system_contracts.
    assert (Hl : ∀ l s, codes_ok s → codes_ok (foldl (λ s contract,
      set_account_code (sc_address contract) (new_raw (sc_code contract)) s) s l)).
    { induction l as [|x l IH]; intros s0 H0; [done|]. by apply IH, codes_set_code. }
    case_match; [apply codes_set_code|]; by apply Hl.
  - unfold basic. repeat case_match; [done|done|by apply codes_read].
  - unfold code_by_hash. repeat case_match; [done|done|by apply codes_read].
  - unfold CliState.storage. repeat case_match; try done; by apply codes_read.
  - unfold block_hash. repeat case_match; [done|done|by apply codes_read].
Qed.

(** The state serves, for the code hash of any account it holds, a code of that hash. *)
Lemma codes_served `{!RevmStateLaws RS} s0 s a acc c :
  codes_ok s0 → rtc overrides s0 s →
  prestate s !! a = Some acc → code (acc_info acc) = Some c →
  ∃ c', code_by_hash_ref (code_hash (acc_info acc)) s = Ok c' ∧ hash_slow c' = hash_slow c.
Proof.
  intros H0 Hr Ha Hc.
  assert (Hs : codes_ok s) by (clear Ha; induction Hr; eauto using codes_step).
  destruct (co_filed _ Hs a acc c Ha Hc) as [c' Hc']. exists c'. unfold code_by_hash_ref.
  rewrite Hc'. split; [done|]. rewrite (co_map _ Hs _ _ Hc'). by apply (co_accounts _ Hs a acc Ha).
Qed.

(** ** The codes of a new state *)

Definition prestate_ok (p : gmap Z Account) : Prop := map_Forall (λ _ acc, info_ok (acc_info acc)) p.

Lemma extract_codes_ok p hashes : prestate_ok p → codes_ok (new_empty p hashes).
Proof.
  intros Hp. split; simpl.
  - intros h c H. apply elem_of_list_to_map_2 in H.
    apply list_elem_of_omap in H as ([a acc] & Ha & H). apply elem_of_map_to_list in Ha.
    simpl in H. apply bind_Some in H as (c' & Hc & H). injection H as <- <-.
    symmetry. by apply (Hp a acc Ha).
  - intros a acc Ha. by apply (Hp a acc Ha).
  - intros a acc c Ha Hc. apply not_eq_None_Some. intros Hn.
    apply not_elem_of_list_to_map_2 in Hn. apply Hn, list_elem_of_fmap.
    exists (code_hash (acc_info acc), c). split; [done|]. apply list_elem_of_omap.
    exists (a, acc). split; [by apply elem_of_map_to_list|]. simpl. by rewrite Hc.
Qed.

Lemma into_account_ok x acc : into_account x = Ok acc → info_ok (acc_info acc).
Proof.
  unfold into_account. intros H.
  destruct (match default [] (as_code x) with [] => _ | _ => _ end) as [b|e]; [|done]. simpl in H.
  repeat case_match; simplify_eq; by intros c' [= <-].
Qed.

Lemma loaded_ok file p : load_accounts file = Ok p → prestate_ok p.
Proof.
  unfold load_accounts. destruct (try_map _ _) as [l|e] eqn:E; [|done]. intros [= <-] a acc Ha.
  apply elem_of_list_to_map_2 in Ha. revert E. generalize (map_to_list file). intros k.
  revert l Ha. induction k as [|[b x] k IH]; intros l Ha E; simpl in E.
  - injection E as <-. by apply elem_of_nil in Ha.
  - destruct (into_account x) as [acc1|] eqn:Hx; simpl in E; [|done].
    destruct (try_map _ k) as [l'|]; [|done]. injection E as <-.
    apply elem_of_cons in Ha as [[= <- <-]|Ha]; [by eapply into_account_ok|by eapply IH].
Qed.

Lemma prestate_update_ok `{!RevmStateLaws RS} a f p :
  (∀ acc, info_ok (acc_info acc) → info_ok (acc_info (f acc))) →
  prestate_ok p → prestate_ok (update_account a f p).
Proof.
  intros Hf Hp. apply map_Forall_insert_2; [|done]. apply Hf.
  destruct (p !! a) as [acc|] eqn:Ha; [by apply (Hp a acc Ha)|apply default_info_ok].
Qed.

Lemma updates_ok `{!RevmStateLaws RS} {X} (address : X → Address) (f : X → Account → Account) l p :
  (∀ x acc, info_ok (acc_info acc) → info_ok (acc_info (f x acc))) →
  prestate_ok p → prestate_ok (foldl (λ p x, update_account (address x) (f x) p) p l).
Proof.
  intros Hf. revert p. induction l as [|x l IH]; intros p Hp; [done|]. apply IH, prestate_update_ok; auto.
Qed.

Lemma load_prestate_ok `{!RevmStateLaws RS} `{HP : Parsers} args sender p :
  load_prestate args sender = Ok p → prestate_ok p.
Proof.
  unfold load_prestate. intros H.
  destruct (match pa_prestate args with Some _ => _ | None => _ end) as [p0|] eqn:E0; [|done].
  assert (H0 : prestate_ok p0).
  { destruct (pa_prestate args) as [[file|]|]; simpl in E0; [by eapply loaded_ok|done|].
    by injection E0 as <-. }
  simpl in H. destruct (parse_balance _) as [balances|]; [|done]. simpl in H.
  destruct (parse_storage _) as [slots|]; [|done]. simpl in H.
  apply (updates_ok (λ kv, kv.1) (λ kv, set_balance kv.2) balances) in H0; [|done].
  apply (updates_ok (λ x : Address * U256 * U256, x.1.1)
    (λ x a, insert_slot a x.1.2 (slot_new x.2 0)) slots) in H0; [|done].
  revert H0 H. set (p1 := foldl _ _ slots). set (p2 := foldl _ _ slots). intros H0 H.
  assert (p1 = p2) as ->.
  { unfold p1, p2. generalize (foldl (λ q kv, update_account kv.1 (set_balance kv.2) q) p0 balances).
    clear. induction slots as [|[[a k] v] l IH]; intros p; [done|]. apply IH. }
  clearbody p2. destruct (match pa_sender_balance args with Some _ => _ | None => _ end) as [p3|] eqn:E3;
    [|done]. simpl in H. destruct (parse_faucet _) as [amounts|]; [|done]. injection H as <-.
  apply (updates_ok (λ kv, kv.1) (λ kv, add_balance kv.2)); [done|].
  destruct (pa_sender_balance args) as [b|]; [|by injection E3 as <-].
  destruct (parse_ether_value b); [|done]. injection E3 as <-. by apply prestate_update_ok.
Qed.

(** Whatever options a state is created from, every code it serves has the hash it is filed
    under. *)
Lemma created_codes_ok `{!RevmStateLaws RS} `{HP : Parsers} args sender fork rpc capture replay build s :
  create_initial_state args sender fork rpc capture replay build = Ok s → codes_ok s.
Proof.
  unfold create_initial_state. destruct (load_prestate args sender) as [p|] eqn:Hp; [|done].
  apply load_prestate_ok in Hp. simpl. destruct (parse_block_hashes _) as [hashes|]; [|done]. simpl.
  pose proof (extract_codes_ok p hashes Hp) as [H1 H2 H3].
  repeat case_match; try done; [|by intros [= <-]].
  destruct build as [db|]; [|done]. by intros [= <-].
Qed.

(** ** The two database interfaces *)

Class ForkDbLaws := {
  fork_basic_agrees a (d : D) : fork_basic_ref a d = (fork_basic a d).2;
  fork_code_agrees h (d : D) : fork_code_by_hash_ref h d = (fork_code_by_hash h d).2;
  fork_storage_agrees a k (d : D) : fork_storage_ref a k d = (fork_storage a k d).2;
  fork_block_hash_agrees n (d : D) : fork_block_hash_ref n d = (fork_block_hash n d).2;
}.

Lemma refs_agree `{!ForkDbLaws} s :
  (∀ a, basic_ref a s = (basic a s).2) ∧ (∀ h, code_by_hash_ref h s = (code_by_hash h s).2) ∧
  (∀ a k, storage_ref a k s = (CliState.storage a k s).2) ∧
  (∀ n, block_hash_ref n s = (block_hash n s).2).
Proof.
  split_and!; intros; unfold basic_ref, basic, code_by_hash_ref, code_by_hash, storage_ref,
    CliState.storage, block_hash_ref, block_hash;
    repeat case_match; try done; simpl;
    by rewrite ?fork_basic_agrees, ?fork_code_agrees, ?fork_storage_agrees, ?fork_block_hash_agrees.
Qed.

(** ** Overrides of a forked account *)

(** The whole account is replaced: whatever the fork holds at the address, its balance, nonce and
    code are those of an empty account with the override applied. *)
Lemma override_masks_fork a f (db : D) prestate hashes :
  prestate !! a = None →
  basic_ref a (new_forked db (update_account a f prestate) hashes) =
    Ok (Some (acc_info (f (account_from_info account_info_default)))).
Proof.
  intros Ha. unfold basic_ref, update_account. simpl. rewrite Ha. by rewrite lookup_insert_eq.
Qed.

(** In particular the faucet does not add to the balance of the fork. *)
Lemma faucet_ignores_fork `{HP : Parsers} entry a v sender (db : D) hashes :
  parse_amount (str_of "+=") entry = Ok (a, v) →
  ∃ prestate,
    load_prestate (mkPreStateArgs None [] None [entry] [] []) sender = Ok prestate ∧
    basic_ref a (new_forked db prestate hashes) =
      Ok (Some (acc_info (add_balance v (account_from_info account_info_default)))).
Proof.
  intros He. unfold load_prestate, parse_faucet. simpl. rewrite He. simpl. eexists.
  split; [done|]. by apply (override_masks_fork a (add_balance v) db ∅).
Qed.

(** And an override of one slot leaves a forked contract without its code. *)
Lemma storage_override_drops_code `{!RevmStateLaws RS} `{HP : Parsers} entry a k v sender (db : D) hashes :
  parse_storage_entry entry = Ok (a, k, v) →
  ∃ prestate info,
    load_prestate (mkPreStateArgs None [] None [] [] [entry]) sender = Ok prestate ∧
    basic_ref a (new_forked db prestate hashes) = Ok (Some info) ∧
    code_hash info = KECCAK_EMPTY ∧ code info = None.
Proof.
  intros He. unfold load_prestate, parse_storage. simpl. rewrite He. simpl. eexists _, _.
  split; [done|]. split.
  - by apply (override_masks_fork a (λ x, insert_slot x k (slot_new v 0)) db ∅).
  - simpl. by rewrite default_code_hash, default_no_code.
Qed.
End state.

(** * A dump *)

Module reference.
Definition ref_keccak (b : Bytes) : Z := 1000 + sumZ (λ x, x) b.
Definition ref_slice (c : Bytecode) : Bytes :=
  match c with Eip7702 a => [0xEF; 1; 0; a] | OtherBytecode b => b end.

#[local] Instance ref_bytecode : BytecodeOps := {|
  bytecode_default := OtherBytecode [];
  original_byte_slice := ref_slice;
  new_raw_checked b := Some (OtherBytecode b);
  hash_slow c := match ref_slice c with [] => 77 | b => ref_keccak b end;
  keccak256 := ref_keccak;
|}.

#[local] Instance ref_bytecode_laws : BytecodeLaws ref_bytecode.
Proof. split; [done|done|by intros b c [= <-]|by eexists]. Qed.

(** A contract with a changed slot and a stale hash, and an account without code. *)
Definition ref_state : gmap Z Account :=
  {[ 5 := mkAccount (mkAccountInfo 9 1 123 (Some (OtherBytecode [1; 2])))
            {[0 := mkSlot 3 4 7 false]} status_empty 2;
     6 := account_from_info (mkAccountInfo 10 0 77 None) ]}.

(** A forked account whose code was not fetched. *)
Definition ref_lazy_state : gmap Z Account :=
  {[ 7 := account_from_info (mkAccountInfo 10 0 500 None) ]}.

Lemma state_dump_roundtrip_witness :
  (∃ state' acc, load_accounts (dump_state ref_state) = Ok state' ∧
     load_accounts (dump_state state') = Ok state' ∧ state' !! 5 = Some acc ∧
     code_hash (acc_info acc) = 1003 ∧ slot_present <$> acc_storage acc !! 0 = Some 4) ∧
  ∃ e, load_accounts (dump_state ref_lazy_state) = Err (CodeHashMismatch e 77).
Proof.
  destruct (state_dump_roundtrip ref_state) as [H1 _].
  destruct (state_dump_roundtrip ref_lazy_state) as [_ H2]. split.
  - destruct H1 as (state' & Hl & Hs & _ & Hagain).
    { apply (bool_decide_unpack _). by vm_compute. }
    destruct (Hs 5 (mkAccount (mkAccountInfo 9 1 123 (Some (OtherBytecode [1; 2])))
      {[0 := mkSlot 3 4 7 false]} status_empty 2) eq_refl) as (acc & c & Ha & _ & _ & _ & Hb & Hh & Hv).
    exists state', acc. split_and!; [exact Hl|exact Hagain|exact Ha| |].
    + rewrite Hh. simpl in Hb |- *. rewrite Hb. reflexivity.
    + rewrite <- lookup_fmap, Hv. reflexivity.
  - destruct H2 as (a & acc & Ha & _ & _ & Hl).
    { intros H. specialize (H 7 _ eq_refl). discriminate H. }
    exists (code_hash (acc_info acc)). exact Hl.
Defined.
End reference.
