(* ===== verification/CliTxFacts.v ===== *)
(** What the transaction and environment options of [mega-evme] promise: a split string can be
    joined again, a transaction that is created has only the fields its type has, an override
    changes what was given and nothing else, and the last capacity of a bucket counts. *)

From S2P Require Import Prelude Spec Revm Interfaces DynamicGas MemoryEnvs CliInput CliTx CliState.

(** * Splitting *)

Lemma split_once_app pattern s a b : split_once pattern s = Some (a, b) → s = a ++ pattern ++ b.
Proof.
  revert a b; induction s as [|c s IH]; intros a b H; simpl in H; case_bool_decide as Hp;
    simplify_eq/=.
  - by destruct pattern.
  - etransitivity; [symmetry; apply (take_drop (length pattern))|]. by f_equal.
  - destruct (split_once pattern s) as [[a' b']|] eqn:E; simplify_eq/=. by rewrite (IH _ _ eq_refl).
Qed.

Lemma split_once_none pattern s a b : split_once pattern s = None → s ≠ a ++ pattern ++ b.
Proof.
  revert a; induction s as [|c s IH]; intros a H Hs; simpl in H; case_bool_decide as Hp; try done;
    destruct a as [|c' a]; simplify_eq/=.
  - symmetry in Hs. apply app_eq_nil in Hs as [-> ->]. done.
  - apply Hp. rewrite Hs. by rewrite take_app_length.
  - destruct (split_once pattern (a ++ pattern ++ b)) as [[??]|]; [done|]. by eapply IH.
Qed.

(** The parts with the separator between them. *)
Fixpoint join (pattern : str) (parts : list str) : str :=
  match parts with
  | [] => []
  | [x] => x
  | x :: parts => x ++ pattern ++ join pattern parts
  end.

Lemma join_cons pattern x parts :
  parts ≠ [] → join pattern (x :: parts) = x ++ pattern ++ join pattern parts.
Proof. by destruct parts. Qed.

Lemma split_fuel_nonempty fuel pattern s : split_fuel fuel pattern s ≠ [].
Proof. destruct fuel; simpl; [done|]. by destruct (split_once pattern s) as [[??]|]. Qed.

Lemma split_fuel_join fuel pattern s : join pattern (split_fuel fuel pattern s) = s.
Proof.
  revert s; induction fuel as [|fuel IH]; intros s; simpl; [done|].
  destruct (split_once pattern s) as [[a b]|] eqn:E; [|done].
  rewrite join_cons; [|apply split_fuel_nonempty]. rewrite IH. symmetry. by apply split_once_app.
Qed.

Lemma split_once_shorter pattern s a b :
  pattern ≠ [] → split_once pattern s = Some (a, b) → (length b < length s)%nat.
Proof.
  intros Hp H%split_once_app. subst s. rewrite !length_app. destruct pattern; [done|]. simpl. lia.
Qed.

(** The fuel, the length of the string, is enough: every part is without the separator. *)
Lemma split_fuel_enough fuel pattern s :
  pattern ≠ [] → (length s ≤ fuel)%nat →
  Forall (λ x, split_once pattern x = None) (split_fuel fuel pattern s).
Proof.
  intros Hp; revert s; induction fuel as [|fuel IH]; intros s Hs; simpl.
  - destruct s; simpl in Hs; [|lia]. repeat constructor. simpl. case_bool_decide as H; [|done].
    rewrite take_nil in H. by destruct pattern.
  - destruct (split_once pattern s) as [[a b]|] eqn:E; [|by repeat constructor].
    constructor; [|apply IH; apply split_once_shorter in E; [lia|done]].
    clear -E Hp. revert a b E; induction s as [|c s IH]; intros a b E; simpl in E;
      case_bool_decide as H; simplify_eq/=.
    + case_bool_decide as H'; [|done]. rewrite take_nil in H'. by destruct pattern.
    + case_bool_decide as H'; [|done]. rewrite take_nil in H'. by destruct pattern.
    + destruct (split_once pattern s) as [[a' b']|] eqn:E'; simplify_eq/=.
      rewrite (IH _ _ eq_refl). case_bool_decide as H'; [|done].
      apply split_once_app in E'. subst s. exfalso. apply H.
      rewrite app_comm_cons. rewrite take_app_le; [done|]. rewrite <- H'. rewrite length_take. lia.
Qed.

(** A separator splits a string into parts without it, which joined give the string again. *)
Lemma split_spec pattern s :
  pattern ≠ [] →
  join pattern (split pattern s) = s ∧ Forall (λ x, split_once pattern x = None) (split pattern s).
Proof. intros Hp. split; [apply split_fuel_join|by apply split_fuel_enough]. Qed.

Lemma trim_start_matches_enough fuel pattern s :
  pattern ≠ [] → (length s ≤ fuel)%nat →
  starts_with pattern (trim_start_matches_fuel fuel pattern s) = false.
Proof.
  intros Hp; revert s; induction fuel as [|fuel IH]; intros s Hs; simpl.
  - destruct s; simpl in Hs; [|lia]. unfold starts_with. rewrite take_nil. case_bool_decide; by subst.
  - destruct (starts_with pattern s) eqn:E; [|done]. apply IH. rewrite length_drop.
    destruct pattern; [done|]. destruct s; [|simpl in *; lia].
    unfold starts_with in E. rewrite take_nil in E. by case_bool_decide.
Qed.

(** * Created transactions *)

(** A transaction has only the fields of its type. *)
Record typed_tx (chain_id : Z) (ty : MegaTxType) (tx : MegaTx) : Prop := mkTypedTx {
  typed_type : te_tx_type (mt_base tx) = type_u8 ty;
  typed_chain : te_chain_id (mt_base tx) = Some chain_id;
  typed_deposit : ty ≠ Deposit → mt_deposit tx = deposit_default;
  typed_priority : ty = Legacy ∨ ty = Eip2930 → te_gas_priority_fee (mt_base tx) = None;
  typed_access : ty = Legacy ∨ ty = Deposit → te_access_list (mt_base tx) = [];
  typed_authorizations : ty ≠ Eip7702Tx → te_authorization_list (mt_base tx) = [];
  typed_create : ty = Eip7702Tx → te_kind (mt_base tx) ≠ None;
  typed_authorization : Forall (λ r, af_chain_id (ra_inner r) = chain_id ∧ ra_authority r ≠ None)
                          (te_authorization_list (mt_base tx));
}.

(** An envelope of type [ty] with the fields of a transaction environment, by name. *)
Definition carries (chain_id : Z) (b : TxEnv) (ty : MegaTxType) (e : FakeEnvelope) : Prop :=
  match e with
  | LegacyEnvelope id nonce gas_price gas_limit to value input =>
      ty = Legacy ∧ id = Some chain_id ∧ nonce = te_nonce b ∧ gas_price = te_gas_price b ∧
      gas_limit = te_gas_limit b ∧ to = te_kind b ∧ value = te_value b ∧ input = te_data b
  | Eip2930Envelope id nonce gas_price gas_limit to value access_list input =>
      ty = Eip2930 ∧ id = chain_id ∧ nonce = te_nonce b ∧ gas_price = te_gas_price b ∧
      gas_limit = te_gas_limit b ∧ to = te_kind b ∧ value = te_value b ∧
      access_list = te_access_list b ∧ input = te_data b
  | Eip1559Envelope id nonce gas_limit max_fee max_priority_fee to value access_list input =>
      ty = Eip1559 ∧ id = chain_id ∧ nonce = te_nonce b ∧ gas_limit = te_gas_limit b ∧
      max_fee = te_gas_price b ∧ max_priority_fee = default 0 (te_gas_priority_fee b) ∧
      to = te_kind b ∧ value = te_value b ∧ access_list = te_access_list b ∧ input = te_data b
  | Eip7702Envelope id nonce gas_limit max_fee max_priority_fee to value access_list auths input =>
      ty = Eip7702Tx ∧ id = chain_id ∧ nonce = te_nonce b ∧ gas_limit = te_gas_limit b ∧
      max_fee = te_gas_price b ∧ max_priority_fee = default 0 (te_gas_priority_fee b) ∧
      te_kind b = Some to ∧ value = te_value b ∧ access_list = te_access_list b ∧
      auths = ra_inner <$> te_authorization_list b ∧ input = te_data b
  | DepositEnvelope source_hash from to mint value gas_limit is_system input =>
      ty = Deposit ∧ source_hash = 0 ∧ from = te_caller b ∧ to = te_kind b ∧ mint = 0 ∧
      value = te_value b ∧ gas_limit = te_gas_limit b ∧ is_system = false ∧ input = te_data b
  end.

Definition is_ok {A E} (r : result A E) : Prop := ∃ x, r = Ok x.

Lemma and_then_ok {A B E} (r : result A E) (k : A → result B E) y :
  and_then r k = Ok y ↔ ∃ x, r = Ok x ∧ k x = Ok y.
Proof. destruct r; simpl; naive_solver. Qed.

Lemma try_map_inv {A B E} (f : A → result B E) l ys :
  try_map f l = Ok ys → Forall2 (λ x y, f x = Ok y) l ys.
Proof.
  revert ys; induction l as [|x l IH]; intros ys H; simplify_eq/=; [constructor|].
  destruct (f x) eqn:?; [|done]. destruct (try_map f l); [|done]. simplify_eq/=. constructor; auto.
Qed.

Lemma type_of_u8_ok z ty : type_of_u8 z = Ok ty ↔ z = type_u8 ty.
Proof.
  unfold type_of_u8. split.
  - repeat case_match; intros; simplify_eq; simpl; by apply Z.eqb_eq.
  - intros ->. by destruct ty.
Qed.

(** Inverts a chain of [?]s that returned. *)
Ltac ok_inv :=
  repeat match goal with
  | H : and_then _ _ = Ok _ |- _ => apply and_then_ok in H as (? & ? & ?)
  | H : Ok _ = Ok _ |- _ => injection H as H
  end.

Section create.
Context `{HP : Parsers} `{HC : TxCodec}.
Implicit Types args : TxArgs.

(** What [validate] accepts. *)
Record valid_args ty args : Prop := mkValidArgs {
  valid_deposit : ty ≠ Deposit → ta_source_hash args = None ∧ ta_mint args = None;
  valid_source : ty = Deposit → ta_source_hash args ≠ None;
  valid_priority : ty = Legacy ∨ ty = Eip2930 → ta_priority_fee args = None;
  valid_receiver : create args = true → ta_receiver args = None;
  valid_auth : ty ≠ Eip7702Tx → ta_auth args = [];
  valid_access : ty = Legacy ∨ ty = Deposit → ta_access args = [];
}.

Lemma guard_ok {A E} (c : bool) (e : E) (k : result A E) y :
  (if c then Err e else k) = Ok y ↔ c = false ∧ k = Ok y.
Proof. destruct c; naive_solver. Qed.

Lemma validate_args_ok args :
  validate args = Ok tt ↔ ∃ ty, mega_tx_type args = Ok ty ∧ valid_args ty args.
Proof.
  unfold validate. destruct (mega_tx_type args) as [ty|]; [|naive_solver]. simpl.
  transitivity (valid_args ty args); [|naive_solver]. rewrite !guard_ok. split.
  - intros (H1 & H2 & H3 & H4 & H5 & H6 & _). constructor.
    + clear -H1. by destruct ty, (ta_source_hash args), (ta_mint args).
    + clear -H2. by destruct ty, (ta_source_hash args).
    + clear -H3. destruct ty, (ta_priority_fee args); naive_solver.
    + clear -H4. by destruct (create args), (ta_receiver args).
    + clear -H5. by destruct ty, (ta_auth args).
    + clear -H6. destruct ty, (ta_access args); naive_solver.
  - intros [Hd Hs Hp Hr Ha Hx]. split_and!; try done.
    + destruct ty; try done; by destruct Hd as [-> ->].
    + destruct ty; try done. by destruct (ta_source_hash args); [|destruct Hs].
    + destruct ty; try done; rewrite Hp by tauto; done.
    + destruct (create args); [|done]. by rewrite Hr.
    + destruct ty; try done; by rewrite Ha.
    + destruct ty; try (by rewrite Hx by tauto); by destruct (ta_access args).
Qed.

Lemma authorizations_typed chain_id args l :
  parse_authorization_list chain_id args = Ok l →
  Forall (λ r, af_chain_id (ra_inner r) = chain_id ∧ ra_authority r ≠ None) l.
Proof.
  intros H%try_map_inv. apply Forall_forall. intros r Hr.
  apply list_elem_of_lookup in Hr as [i Hr].
  destruct (Forall2_lookup_r _ _ _ _ _ H Hr) as (s & _ & Hs).
  unfold parse_authorization in Hs. ok_inv. destruct x as [f a]. injection H1 as <-. simpl.
  split; [|done]. unfold parse_auth_fields in H0.
  repeat (case_match; simplify_eq; ok_inv; simplify_eq/=); try done.
Qed.

Lemma envelope_ok tx :
  is_ok (create_fake_envelope tx) ↔
  ∃ ty, te_tx_type tx = type_u8 ty ∧ (ty = Eip7702Tx → te_kind tx ≠ None).
Proof.
  unfold create_fake_envelope, is_ok. split.
  - intros [e H]. apply and_then_ok in H as (ty & Hty%type_of_u8_ok & H). exists ty. split; [done|].
    intros -> Hk. by rewrite Hk in H.
  - intros (ty & Hty & Hk). rewrite Hty, (proj2 (type_of_u8_ok _ ty) eq_refl). simpl.
    destruct ty; eauto. destruct (te_kind tx); [eauto|]. by destruct Hk.
Qed.

(** The fields of a transaction are the options, or their defaults. *)
Record takes_options (chain_id : Z) args (ty : MegaTxType) (tx : MegaTx) : Prop := mkTakes {
  takes_caller : te_caller (mt_base tx) = default DEFAULT_SENDER (ta_sender args);
  takes_price : te_gas_price (mt_base tx) = default 0 (ta_basefee args);
  takes_priority : te_gas_priority_fee (mt_base tx) = ta_priority_fee args;
  takes_gas : te_gas_limit (mt_base tx) = default 10000000 (ta_gas args);
  takes_nonce : te_nonce (mt_base tx) = default 0 (ta_nonce args);
  takes_kind : te_kind (mt_base tx) =
    if default false (ta_create args) then None else Some (default 0 (ta_receiver args));
  takes_value : value args = Ok (te_value (mt_base tx));
  takes_data : ∃ data, load_hex (ta_input args) (ta_inputfile args) = Ok data ∧
    te_data (mt_base tx) = default [] data;
  takes_access : parse_access_list args = Ok (te_access_list (mt_base tx));
  takes_auth : parse_authorization_list chain_id args = Ok (te_authorization_list (mt_base tx));
  takes_deposit : ty = Deposit → ∃ source, ta_source_hash args = Some source ∧
    mt_deposit tx = mkDepositParts source (ta_mint args) false;
}.

Lemma envelope_carries chain_id b ty e :
  te_tx_type b = type_u8 ty → te_chain_id b = Some chain_id →
  create_fake_envelope b = Ok e → carries chain_id b ty e.
Proof.
  unfold create_fake_envelope. intros Ht Hc H.
  rewrite Ht, (proj2 (type_of_u8_ok _ ty) eq_refl), Hc in H. simpl in H.
  destruct ty; try (injection H as <-; by split_and!).
  destruct (te_kind b) as [to|] eqn:Hk; [|done]. injection H as <-. by split_and!.
Qed.

(** Each option that is given can be read. *)
Record readable chain_id args : Prop := mkReadable {
  readable_input : is_ok (load_hex (ta_input args) (ta_inputfile args));
  readable_auth : is_ok (parse_authorization_list chain_id args);
  readable_access : is_ok (parse_access_list args);
  readable_value : is_ok (value args);
}.

Lemma create_tx_env_ok chain_id args :
  is_ok (create_tx_env chain_id args) ↔
  (∃ ty, mega_tx_type args = Ok ty ∧ valid_args ty args) ∧ readable chain_id args.
Proof.
  unfold create_tx_env. split.
  - intros [tx H]. ok_inv. destruct x. apply validate_args_ok in H. split; [done|]. split; by eexists.
  - intros [Hv [[d Hd] [au Hau] [ac Hac] [v Hv']]]. apply validate_args_ok in Hv. rewrite Hv. simpl.
    rewrite Hd; simpl. rewrite Hau; simpl. rewrite Hac; simpl. rewrite Hv'. by eexists.
Qed.

Lemma created_typed chain_id args tx :
  create_tx chain_id args = Ok tx →
  ∃ ty, mega_tx_type args = Ok ty ∧ typed_tx chain_id ty tx.
Proof.
  unfold create_tx. intros H. apply and_then_ok in H as (env & Henv & H).
  apply and_then_ok in H as (e & He & H). apply and_then_ok in H as (ty & Hty & H).
  injection H as <-. exists ty. split_and!; try done.
  assert (Hk : ty = Eip7702Tx → te_kind env ≠ None).
  { intros ->. destruct (proj1 (envelope_ok env) (ex_intro _ e He)) as (ty' & Ht & Hk).
    unfold create_tx_env in Henv. ok_inv. simplify_eq/=. apply type_of_u8_ok in Hty.
    rewrite Hty in Ht. apply Hk. by destruct ty'. }
  unfold create_tx_env in Henv. ok_inv. destruct x. apply validate_args_ok in H as (ty' & Hty' & Hv).
  rewrite Hty in Hty'. injection Hty' as <-. destruct Hv as [Hd Hs Hp Hr Ha Hx].
  pose proof (authorizations_typed _ _ _ H1) as Hauth.
  simplify_eq/=. constructor; simpl; try done.
  - by apply type_of_u8_ok.
  - intros Hn. by rewrite bool_decide_eq_false_2.
  - intros Hn. unfold parse_access_list in H2. rewrite Hx in H2 by done. by injection H2 as <-.
  - intros Hn. unfold parse_authorization_list in H1. rewrite Ha in H1 by done. by injection H1 as <-.
Qed.

Lemma created_fields chain_id args tx ty :
  create_tx chain_id args = Ok tx → mega_tx_type args = Ok ty →
  takes_options chain_id args ty tx ∧
  ∃ e, carries chain_id (mt_base tx) ty e ∧ mt_enveloped_tx tx = Some (encoded_2718 e).
Proof.
  unfold create_tx. intros H Hty. apply and_then_ok in H as (env & Henv & H).
  apply and_then_ok in H as (e & He & H). rewrite Hty in H. simpl in H. injection H as <-.
  unfold create_tx_env in Henv. ok_inv. destruct x. apply validate_args_ok in H as (ty' & Hty' & Hv).
  rewrite Hty in Hty'. injection Hty' as <-. subst env. split; [constructor; simpl; try done|].
  - by eexists.
  - intros ->. pose proof (valid_source _ _ Hv eq_refl) as Hs.
    destruct (ta_source_hash args) as [source|]; [|done]. exists source. by split.
  - exists e. split; [|done]. apply envelope_carries; [by apply type_of_u8_ok|done|exact He].
Qed.

(** C12: a transaction built from options has the fields of its type, and its envelope has the same
    ones.  When it is built, its type is one of the five supported ones and its fields are the
    given options or their defaults; the deposit fields are set only in a deposit, the
    priority fee in neither a legacy nor an EIP-2930 transaction, access lists only where they
    exist, authorizations only in an EIP-7702 transaction, which is never a creation, and every
    authorization is for this chain with a known authority.  The enveloped bytes are the encoding
    of an envelope of that type that carries, field by field, the chain id, nonce, fees, gas
    limit, recipient, value, lists and input of the transaction; that of a deposit carries its
    sender, recipient, value, gas limit and input, with a zero source hash and no mint as
    placeholders, whatever the deposit fields are.  And it is built exactly when the options fit
    the type, each one can be read, and an EIP-7702 transaction does not create. *)
Theorem created_tx_typed chain_id args :
  (∀ tx, create_tx chain_id args = Ok tx →
    ∃ ty, mega_tx_type args = Ok ty ∧ typed_tx chain_id ty tx ∧ takes_options chain_id args ty tx ∧
      ∃ e, carries chain_id (mt_base tx) ty e ∧ mt_enveloped_tx tx = Some (encoded_2718 e)) ∧
  (is_ok (create_tx chain_id args) ↔
    ∃ ty, mega_tx_type args = Ok ty ∧ valid_args ty args ∧ readable chain_id args ∧
      (ty = Eip7702Tx → create args = false)).
Proof.
  split.
  { intros tx H. destruct (created_typed _ _ _ H) as (ty & Hty & Ht). exists ty.
    by destruct (created_fields _ _ _ _ H Hty). }
  split.
  - intros [tx H]. destruct (created_typed _ _ _ H) as (ty & Hty & Ht). exists ty.
    apply and_then_ok in H as (env & Henv & H).
    destruct (proj1 (create_tx_env_ok chain_id args)) as [(ty' & Hty' & Hv) Hr]; [by eexists|].
    rewrite Hty in Hty'. injection Hty' as <-. split_and!; try done. intros Hk.
    apply typed_create in Ht; [|done]. ok_inv. injection H1 as <-. unfold create_tx_env in Henv. ok_inv.
    simplify_eq/=. by destruct (create args).
  - intros (ty & Hty & Hv & Hr & Hk).
    destruct (proj2 (create_tx_env_ok chain_id args)) as [env Henv]; [by eauto|].
    unfold create_tx. rewrite Henv. simpl.
    destruct (proj2 (envelope_ok env)) as [e He].
    { exists ty. unfold create_tx_env in Henv. ok_inv. subst env. simpl. split.
      - by apply type_of_u8_ok.
      - intros H'. by rewrite Hk. }
    rewrite He. simpl. rewrite Hty. by eexists.
Qed.
End create.

(** * Overrides *)

Section override.
Context `{HP : Parsers} `{HC : TxCodec}.

Definition no_args : TxArgs :=
  mkTxArgs None None None None None None None None None None None None None [] [].

(** What a raw transaction decodes to is executed as it is when no option is given. *)
Lemma override_nothing d : override_tx_env no_args d = Ok d.
Proof.
  unfold override_tx_env. simpl. destruct d as [[] ? [[[??]?]|]]; reflexivity.
Qed.

(** Overriding twice is overriding once, and the chain and the raw bytes stay: the chain id that
    authorizations are read for is that of the raw transaction. *)
Lemma override_idempotent args d d' :
  override_tx_env args d = Ok d' →
  override_tx_env args d' = Ok d' ∧
  te_chain_id (dr_tx_env d') = te_chain_id (dr_tx_env d) ∧ dr_raw_bytes d' = dr_raw_bytes d.
Proof.
  unfold override_tx_env. intros H. ok_inv. subst d'. simpl. split; [|done].
  destruct (ta_value args); simpl; [rewrite H|]; simpl;
  (destruct (is_given (ta_input args) || is_given (ta_inputfile args)); simpl; [rewrite H0|]; simpl;
   (destruct (negb (is_empty (ta_access args))); simpl; [rewrite H1|]; simpl;
    (destruct (negb (is_empty (ta_auth args))); simpl; [rewrite H2|]; simpl))).
  all: f_equal; f_equal; [unfold override_fields; simpl; f_equal|].
  all: try (by destruct (ta_sender args)); try (by destruct (ta_basefee args)).
  all: try (by destruct (ta_priority_fee args)); try (by destruct (ta_tx_type args)).
  all: try (by destruct (ta_gas args)); try (by destruct (ta_nonce args)).
  all: try (by destruct (default false (ta_create args)), (ta_receiver args)).
  all: destruct (dr_deposit d) as [[[??]?]|]; [|done]; simpl; do 3 f_equal.
  all: by destruct (ta_source_hash args), (ta_mint args).
Qed.

(** A transaction that is not a deposit has no deposit fields, whatever options are given. *)
Lemma override_keeps_kind args d d' :
  override_tx_env args d = Ok d' → dr_deposit d = None → mt_deposit (into_tx d') = deposit_default.
Proof. unfold override_tx_env. intros H Hd. ok_inv. subst d'. unfold into_tx. simpl. by rewrite Hd. Qed.

(** The decoded type is one the envelope of the same fields can be made of. *)
Lemma from_raw_type raw d : from_raw raw = Ok d → is_ok (type_of_u8 (te_tx_type (dr_tx_env d))).
Proof.
  unfold from_raw. intros H. apply and_then_ok in H as (e & _ & H).
  apply and_then_ok in H as (caller & _ & H). exists (de_type e). apply type_of_u8_ok.
  by destruct (de_type e); injection H as <-.
Qed.
End override.

(** * Overrides in a replay *)

Section replay.
Context `{HP : Parsers}.

(** Without an override option, the transaction is executed as it was, whatever an earlier
    transaction left in the cell. *)
Lemma wrap_nothing a cell :
  has_overrides a = false →
  ∃ o, wrap a cell = (None, Ok o) ∧ ∀ cell' tx, apply_overrides o cell' tx = tx.
Proof.
  unfold has_overrides. destruct a as [[] [] [] []]; try done. intros _. eexists.
  split; [reflexivity|]. by intros cell' [].
Qed.

(** The wrapped transaction runs with each given option in place of the transaction's own, read
    from the cell that [wrap] has just filled. *)
Lemma wrap_applies a cell cell' o tx :
  wrap a cell = (cell', Ok o) →
  ∃ input, load_hex (oa_input a) (oa_input_file a) = Ok input ∧
    apply_overrides o cell' tx =
      with_gas_value_data (default (te_gas_limit tx) (oa_gas_limit a))
        (default (te_value tx) (ov_value o)) (default (te_data tx) input) tx ∧
    (oa_value a = None → ov_value o = None) ∧
    (∀ s, oa_value a = Some s → ∃ v, parse_ether_value s = Ok v ∧ ov_value o = Some v).
Proof.
  unfold wrap. destruct (load_hex _ _) as [input|] eqn:E; [|done]. intros [= <- H]. ok_inv.
  exists input. simplify_eq/=. unfold apply_overrides. split_and!; try done.
  - f_equal. by destruct input.
  - intros Hn. rewrite Hn in H. by injection H.
  - intros s Hs. rewrite Hs in H. ok_inv. naive_solver.
Qed.
End replay.

(** * The external environment *)

Section ext.
Context `{HP : Parsers}.

Lemma created_bucket_capacity l envs :
  create_external_envs l = Ok envs →
  ∃ kvs, Forall2 (λ s kv, parse_bucket_capacity s = Ok kv) l kvs ∧
    te_bucket_capacity envs = list_to_map (rev kvs) ∧ te_default_bucket_capacity envs = None.
Proof.
  unfold create_external_envs. intros H. apply and_then_ok in H as (kvs & H & Hf). exists kvs.
  split; [by apply try_map_inv|]. injection Hf as <-. clear H.
  induction kvs as [|kv kvs IH] using rev_ind; [done|]. rewrite foldl_app, rev_app_distr. simpl.
  destruct IH as [-> ->]. destruct kv. split; [|done]. reflexivity.
Qed.

(** The price of an account never panics exactly because every capacity that was given is at least
    the minimum: the options accept smaller ones, which [MemoryEnvs.small_capacity_panics] shows
    to panic at the first use. *)
Lemma created_capacities_ok l envs :
  create_external_envs l = Ok envs →
  Forall (λ s, ∀ b c, parse_bucket_capacity s = Ok (b, c) → 256 ≤ c ≤ u64_max) l →
  capacities_ok envs.
Proof.
  intros H Hl. destruct (created_bucket_capacity _ _ H) as (kvs & Hk & Hc & Hd).
  apply test_capacities_ok; [|by rewrite Hd]. rewrite Hc. intros b c Hb.
  apply elem_of_list_to_map_2 in Hb. rewrite rev_alt in Hb.
  change (rev_append kvs []) with (reverse kvs) in Hb. rewrite elem_of_reverse in Hb.
  apply list_elem_of_lookup in Hb as [i Hi].
  destruct (Forall2_lookup_r _ _ _ _ _ Hk Hi) as (s & Hs & Hp).
  by apply (Forall_lookup_1 _ _ _ _ Hl Hs) in Hp.
Qed.
End ext.

(** * A reference instance *)

Module reference.
(** Decimal numbers. *)
Definition decimal (s : str) : option Z :=
  match s with
  | [] => None
  | _ => if forallb is_ascii_digit s then Some (foldl (λ n c, 10 * n + (c - 48)) 0 s) else None
  end.

#[local] Instance ref_parsers : Parsers := {|
  u32_from_str := decimal;
  u64_from_str := decimal;
  u64_from_hex := decimal;
  hex_decode := mapM (λ c, if is_ascii_digit c then Some (c - 48) else None);
  u256_from_str := decimal;
  b256_from_str := decimal;
  address_from_str := decimal;
  parse_units s unit := if bool_decide (unit = str_of "wei") then decimal s else None;
|}.

(** An encoding that keeps the input only. *)
#[local] Instance ref_codec : TxCodec := {|
  encoded_2718 e :=
    match e with
    | LegacyEnvelope _ _ _ _ _ _ input => 0 :: input
    | Eip2930Envelope _ _ _ _ _ _ _ input => 1 :: input
    | Eip1559Envelope _ _ _ _ _ _ _ _ input => 2 :: input
    | Eip7702Envelope _ _ _ _ _ _ _ _ _ input => 4 :: input
    | DepositEnvelope _ _ _ _ _ _ _ input => 126 :: input
    end;
  decode_2718 _ := None;
|}.

(** [--tx-type 4 --to 7 --input 0x12 --auth '1:2->3'], with or without [--create]. *)
Definition ref_args (creates : bool) : TxArgs :=
  mkTxArgs (Some 4) None None (Some 1) None (if creates then None else Some 7) None
    (Some creates) (Some (str_of "5wei")) (Some (str_of "0x12")) None None None
    [str_of "1: 2->3"] [str_of "9:1,2"].

Example split_arrow : split (str_of "->") (str_of "1: 2->3") = [str_of "1: 2"; str_of "3"].
Proof. reflexivity. Qed.

Definition ref_tx : MegaTx :=
  mkMegaTx
    (mkTxEnv DEFAULT_SENDER 0 (Some 1) 4 10000000 [1; 2] 0 5 [mkAccessItem 9 [1; 2]]
       [mkRecovered (mkAuthFields 6342 3 2) (Some 1)] (Some 7) (Some 6342))
    (Some [4; 1; 2]) deposit_default.

Lemma created_tx_typed_witness :
  create_tx 6342 (ref_args false) = Ok ref_tx ∧ typed_tx 6342 Eip7702Tx ref_tx ∧
  create_tx 6342 (ref_args true) = Err InvalidInput ∧
  ¬ (∃ ty, mega_tx_type (ref_args true) = Ok ty ∧ valid_args ty (ref_args true) ∧
      readable 6342 (ref_args true) ∧ (ty = Eip7702Tx → create (ref_args true) = false)).
Proof.
  assert (Hok : create_tx 6342 (ref_args false) = Ok ref_tx) by (vm_compute; reflexivity).
  assert (Herr : create_tx 6342 (ref_args true) = Err InvalidInput) by (vm_compute; reflexivity).
  split_and!; [done| |done|].
  - destruct (proj1 (created_tx_typed 6342 (ref_args false)) _ Hok) as (ty & Hty & Ht & _).
    injection Hty as <-. exact Ht.
  - intros H. apply (proj2 (created_tx_typed 6342 (ref_args true))) in H as [tx H].
    rewrite Herr in H. discriminate H.
Defined.
End reference.
