(* ===== verification/CliRpc.v ===== *)
(** RPC capture and offline replay of [mega-evme]: [common/provider/transport.rs],
    [cache_store.rs] and the builders of [common/provider/mod.rs].

    The network, the files, the JSON codecs and alloy's own cache and retry layers are parameters:
    the classes [RpcJson], [Network], [Files] and [SharedCacheOps].  A call of a transport is
    split where its future waits: [begin_call] is what happens when the request is sent, [end_call]
    when the response arrives, so that calls may overlap.

    What a capture promises is at the end: a session recorded by [--rpc.capture-file] is answered by
    [--rpc.replay-file] as it was, as long as its calls did not overlap. *)

From stdpp Require Import sorting.
From S2P Require Import Prelude Spec Revm CliInput CliTx CliTxFacts.

(** * Requests *)

(** A serialized request: the text of its parameters is [None] when it has none. *)
Record Request : Type := mkRequest {
  rq_id : Z;
  rq_method : str;
  rq_params : option str;
}.

Inductive RequestPacket : Type :=
  | SingleRequest (r : Request)
  | BatchRequest (l : list Request).

(** A response: [is_error] tells whether the payload is an error. *)
Record Response : Type := mkResponse {
  rs_id : Z;
  rs_is_error : bool;
  rs_payload : str;
}.

Inductive ResponsePacket : Type :=
  | SingleResponse (r : Response)
  | BatchResponse (l : list Response).

(** [TransportErrorKind]. *)
Inductive TransportError : Type :=
  | Custom
  | BackendGone
  | HttpError.

Class RpcJson := {
  (** [keccak256] of a string. *)
  keccak_str : str → Z;
  (** [serde_json] on a response. *)
  response_to_string : Response → option str;
  response_from_str : str → option Response;
}.

Definition with_id (id : Z) (r : Response) : Response := mkResponse id (rs_is_error r) (rs_payload r).

(** What is read of a block's header. *)
Record Header : Type := mkHeader {
  hd_number : Z;
  hd_beneficiary : Address;
  hd_timestamp : Z;
  hd_gas_limit : Z;
  hd_base_fee_per_gas : option Z;
  hd_difficulty : U256;
  hd_mix_hash : option Z;
  hd_excess_blob_gas : option Z;
}.

(** * The transport cache *)

(** [TransportCache]: its clones share the entries. *)
Abbreviation TransportCache := (gmap Z str) (only parsing).

(** The JSON value of a cache: [None] when it is not a list of entries. *)
Abbreviation CacheValue := (option (list (Z * str))) (only parsing).

Definition entry_le (a b : Z * str) : Prop := a.1 ≤ b.1.
#[export] Instance entry_le_dec : RelDecision entry_le.
Proof. intros a b. unfold entry_le. apply _. Defined.

Section cache.
Context `{HJ : RpcJson}.
Implicit Types cache : TransportCache.

(** Entries that are there stay. *)
Definition cache_merge (value : CacheValue) cache : result TransportCache EvmeError :=
  match value with
  | None => Err RpcError
  | Some entries =>
      Ok (foldl (λ m kv, match m !! kv.1 with Some _ => m | None => <[kv.1 := kv.2]> m end)
            cache entries)
  end.

Definition to_value cache : CacheValue := Some (merge_sort entry_le (map_to_list cache)).

Definition from_value (value : CacheValue) : result TransportCache EvmeError :=
  match value with
  | None => Err RpcError
  | Some entries => Ok (foldl (λ m kv, <[kv.1 := kv.2]> m) ∅ entries)
  end.

Definition transport_cache_key (r : Request) : Z :=
  keccak_str (rq_method r ++ [0] ++ default (str_of "null") (rq_params r)).

(** The response is read when the future runs. *)
Definition try_serve (key : Z) (request_id : Z) cache
    : option (result ResponsePacket TransportError) :=
  cached ← cache !! key;
  Some match response_from_str cached with
       | Some resp => Ok (SingleResponse (with_id request_id resp))
       | None => Err Custom
       end.

(** * The transports *)

(** [CachingTransport::call], when the request is sent: an answer, or [None] to forward it. *)
Definition begin_call (req : RequestPacket) cache : option (result ResponsePacket TransportError) :=
  match req with
  | SingleRequest r => try_serve (transport_cache_key r) (rq_id r) cache
  | BatchRequest _ => None
  end.

(** The rest of it, when the inner transport has answered a forwarded request. *)
Definition end_call (req : RequestPacket) (response : result ResponsePacket TransportError) cache
    : TransportCache :=
  match req, response with
  | SingleRequest r, Ok (SingleResponse resp) =>
      if rs_is_error resp then cache
      else match response_to_string resp with
           | Some serialized => <[transport_cache_key r := serialized]> cache
           | None => cache
           end
  | _, _ => cache
  end.

(** A call that is awaited before the next one; [inner] is the inner transport over its state. *)
Definition caching_call {N : Type}
    (inner : RequestPacket → N → N * result ResponsePacket TransportError)
    (req : RequestPacket) (n : N) cache
    : N * TransportCache * result ResponsePacket TransportError :=
  match begin_call req cache with
  | Some response => (n, cache, response)
  | None => let '(n, response) := inner req n in (n, end_call req response cache, response)
  end.

(** [ReplayTransport::call]. *)
Definition replay_call cache (req : RequestPacket) : result ResponsePacket TransportError :=
  match req with
  | SingleRequest r =>
      match try_serve (transport_cache_key r) (rq_id r) cache with
      | Some response => response
      | None => Err Custom
      end
  | BatchRequest _ => Err BackendGone
  end.
End cache.

(** * Files *)

Abbreviation path := str (only parsing).

Record ExternalEnvSnapshot : Type := mkSnapshot { bucket_capacities_of : list (Z * Z) }.

Record CacheFileEnvelope : Type := mkEnvelopeFile {
  ev_version : Z;
  ev_chain_id : Z;
  ev_cache : CacheValue;
  ev_external_env : option ExternalEnvSnapshot;
}.

(** [ErrorKind::NotFound], or another error. *)
Inductive IoError : Type := NotFound | OtherIo.

(** A file system [F] with temporary files [Tmp], and the JSON codec of the envelope. *)
Class Files (F Tmp : Type) := {
  path_parent : path → option path;
  path_join : path → str → path;
  read_to_string : path → F → option str;
  path_exists : path → F → bool;
  remove_file : path → F → F * result unit IoError;
  create_dir_all : path → F → F * bool;
  temp_new_in : path → F → F * option Tmp;
  temp_path : Tmp → path;
  temp_write_all : Tmp → str → F → F * bool;
  temp_persist : Tmp → path → F → F * bool;
  cache_dir : F → option path;
  envelope_to_string : CacheFileEnvelope → option str;
  envelope_from_str : str → option CacheFileEnvelope;
}.

(** alloy's [SharedCache]. *)
Class SharedCacheOps (F C : Type) := {
  shared_new : Z → C;
  load_cache : path → F → C → C * bool;
  save_cache : path → C → F → F * bool;
}.

Definition ENVELOPE_VERSION : Z := 1.

Section store.
Context {F Tmp C : Type} `{HF : !Files F Tmp} `{HC : !SharedCacheOps F C}.
Implicit Types fs : F.

Definition dir_of (p : path) : path := default (str_of ".") (path_parent p).

(** [CacheFileEnvelope::new], [load] and [save]. *)
Definition envelope_new (cache : TransportCache) (chain_id : Z)
    (external_env : option ExternalEnvSnapshot) : CacheFileEnvelope :=
  mkEnvelopeFile ENVELOPE_VERSION chain_id (to_value cache) external_env.

Definition envelope_load (p : path) fs : result CacheFileEnvelope EvmeError :=
  match read_to_string p fs with
  | None => Err FixtureError
  | Some content =>
      match envelope_from_str content with
      | None => Err FixtureError
      | Some envelope =>
          if negb (ev_version envelope =? ENVELOPE_VERSION) then Err FixtureError else Ok envelope
      end
  end.

(** Every step is taken on the files that the one before left, and the first failure ends it. *)
Definition envelope_save (e : CacheFileEnvelope) (p : path) fs : F * result unit EvmeError :=
  let dir := dir_of p in
  let '(fs, created) := create_dir_all dir fs in
  if negb created then (fs, Err FixtureError)
  else
    match envelope_to_string e with
    | None => (fs, Err FixtureError)
    | Some serialized =>
        let '(fs, tmp) := temp_new_in dir fs in
        match tmp with
        | None => (fs, Err FixtureError)
        | Some tmp =>
            let '(fs, written) := temp_write_all tmp serialized fs in
            if negb written then (fs, Err FixtureError)
            else
              let '(fs, renamed) := temp_persist tmp p fs in
              if negb renamed then (fs, Err FixtureError) else (fs, Ok tt)
        end
    end.

Definition save_cache_atomic (cache : C) (target : path) fs : F * result unit IoError :=
  let '(fs, tmp) := temp_new_in (dir_of target) fs in
  match tmp with
  | None => (fs, Err OtherIo)
  | Some tmp =>
      let '(fs, saved) := save_cache (temp_path tmp) cache fs in
      if negb saved then (fs, Err OtherIo)
      else
        let '(fs, renamed) := temp_persist tmp target fs in
        if negb renamed then (fs, Err OtherIo) else (fs, Ok tt)
  end.

Inductive RpcCacheStore : Type :=
  | NoopStore
  | ProviderCache (cache : C) (p : path)
  | FixtureCapture (cache : TransportCache) (p : path) (chain_id : Z)
      (external_env : option ExternalEnvSnapshot).

Definition new_envelope (cache : TransportCache) (p : path) (chain_id : Z) : RpcCacheStore :=
  FixtureCapture cache p chain_id None.

Definition set_external_env (ext : ExternalEnvSnapshot) (s : RpcCacheStore) : RpcCacheStore :=
  match s with
  | FixtureCapture cache p chain_id _ => FixtureCapture cache p chain_id (Some ext)
  | _ => s
  end.

(** A provider's cache is saved if it can be; a capture must be. *)
Definition persist (s : RpcCacheStore) fs : F * result unit EvmeError :=
  match s with
  | NoopStore => (fs, Ok tt)
  | ProviderCache cache p => ((save_cache_atomic cache p fs).1, Ok tt)
  | FixtureCapture cache p chain_id external_env =>
      envelope_save (envelope_new cache chain_id external_env) p fs
  end.

Definition resolve_cache_path (user_cache_dir : option path) (chain_id_text : str) fs
    : result path EvmeError :=
  and_then
    (match user_cache_dir with
     | Some dir => Ok dir
     | None =>
         match cache_dir fs with
         | Some d => Ok (path_join (path_join d (str_of "mega-evme")) (str_of "rpc"))
         | None => Err RpcError
         end
     end)
    (λ dir, Ok (path_join dir (str_of "rpc-cache-" ++ chain_id_text ++ str_of ".json"))).
End store.
#[global] Arguments RpcCacheStore : clear implicits.

(** [parse_non_empty_path]. *)
Definition parse_non_empty_path (s : str) : option path :=
  match trim s with [] => None | _ => Some s end.

(** * Providers *)

Record RpcArgs : Type := mkRpcArgs {
  ra_rpc_url : option str;
  ra_capture_file : option path;
  ra_replay_file : option path;
  ra_cache_size : Z;
  ra_cache_dir : option path;
  ra_no_cache_file : bool;
  ra_clear_cache : bool;
  ra_max_retries : Z;
  ra_backoff_ms : Z;
  ra_compute_units_per_sec : Z;
}.

Record RetryConfig : Type := mkRetry {
  rc_max_retries : Z;
  rc_backoff_ms : Z;
  rc_compute_units_per_sec : Z;
}.

(** What a client is built of: whether the endpoint is local, and the retry layer. *)
Record ClientConfig : Type := mkClient {
  cc_is_local : bool;
  cc_retry : option RetryConfig;
}.

Definition or_rpc_error {A} (x : option A) : result A EvmeError :=
  match x with Some x => Ok x | None => Err RpcError end.

(** The network [N]: URLs, the HTTP transport, the client with its retry layer over a transport
    with a state [S], the request for the chain id and its answer. *)
Class Network (N Url : Type) := {
  url_parse : str → option Url;
  host_str : Url → option str;
  http_call : Url → RequestPacket → N → N * result ResponsePacket TransportError;
  client_send : ∀ S : Type, ClientConfig →
    (RequestPacket → S → S * result ResponsePacket TransportError) →
    RequestPacket → S → S * result ResponsePacket TransportError;
  chain_id_request : RequestPacket;
  decode_chain_id : ResponsePacket → option Z;
  u64_to_string : Z → str;
}.

(** The provider: HTTP with or without a cache layer, capture, or replay.  The cache of a capture
    is shared with the store, which holds it here. *)
Inductive OpProvider (Url C : Type) : Type :=
  | OnlineProvider (client : ClientConfig) (url : Url) (layer : option C)
  | CaptureProvider (client : ClientConfig) (url : Url)
  | ReplayProvider (p : path) (cache : TransportCache).
#[global] Arguments OnlineProvider {Url C} _ _ _.
#[global] Arguments CaptureProvider {Url C} _ _.
#[global] Arguments ReplayProvider {Url C} _ _.

Record BuildProviderOutput (Url C : Type) : Type := mkOutput {
  bo_provider : OpProvider Url C;
  bo_cache_store : RpcCacheStore C;
  bo_chain_id : Z;
  bo_external_env : option ExternalEnvSnapshot;
}.
#[global] Arguments mkOutput {Url C} _ _ _ _.
#[global] Arguments bo_provider {Url C} _.
#[global] Arguments bo_cache_store {Url C} _.
#[global] Arguments bo_chain_id {Url C} _.
#[global] Arguments bo_external_env {Url C} _.

Section build.
Context {F Tmp C N Url : Type} `{HF : !Files F Tmp} `{HC : !SharedCacheOps F C}.
Context `{HJ : RpcJson} `{HN : !Network N Url}.
Implicit Types (args : RpcArgs) (fs : F) (n : N).

Definition build_client args (url : Url) : ClientConfig :=
  let is_local :=
    match host_str url with
    | Some h =>
        bool_decide (h = str_of "localhost") || bool_decide (h = str_of "127.0.0.1") ||
        bool_decide (h = str_of "::1")
    | None => false
    end in
  mkClient is_local
    (if 0 <? ra_max_retries args
     then Some (mkRetry (ra_max_retries args) (ra_backoff_ms args) (ra_compute_units_per_sec args))
     else None).

(** [resolve_chain_id]: over a provider of its own, without a cache. *)
Definition resolve_chain_id args (url : Url) n : N * result Z EvmeError :=
  let '(n, r) := client_send N (build_client args url) (http_call url) chain_id_request n in
  (n, match r with
      | Ok resp => or_rpc_error (decode_chain_id resp)
      | Err _ => Err RpcError
      end).

(** The cache layer's file: cleared on demand, then loaded if it can be. *)
Definition open_cache args (p : path) (cache : C) fs : F * result C EvmeError :=
  let '(fs, cleared) :=
    if ra_clear_cache args then
      let '(fs, r) := remove_file p fs in
      (fs, match r with Err OtherIo => Err RpcError | _ => Ok tt end)
    else (fs, Ok tt) in
  match cleared with
  | Err e => (fs, Err e)
  | Ok _ =>
      let fs := match path_parent p with Some d => (create_dir_all d fs).1 | None => fs end in
      (fs, Ok (if path_exists p fs then (load_cache p fs cache).1 else cache))
  end.

Definition build_provider args n fs : N * F * result (BuildProviderOutput Url C) EvmeError :=
  match ra_rpc_url args with
  | None => (n, fs, Err InvalidInput)
  | Some rpc_url =>
      match url_parse rpc_url with
      | None => (n, fs, Err RpcError)
      | Some url =>
          let '(n, chain_id) := resolve_chain_id args url n in
          match chain_id with
          | Err e => (n, fs, Err e)
          | Ok chain_id =>
              if ra_cache_size args =? 0 then
                (n, fs, Ok (mkOutput (OnlineProvider (build_client args url) url None) NoopStore
                              chain_id None))
              else
                let cache := shared_new (ra_cache_size args) in
                let output cache store :=
                  Ok (mkOutput (OnlineProvider (build_client args url) url (Some cache)) store
                        chain_id None) in
                if ra_no_cache_file args then (n, fs, output cache NoopStore)
                else
                  match resolve_cache_path (ra_cache_dir args) (u64_to_string chain_id) fs with
                  | Err e => (n, fs, Err e)
                  | Ok p =>
                      let '(fs, opened) := open_cache args p cache fs in
                      (n, fs, and_then opened (λ cache, output cache (ProviderCache cache p)))
                  end
          end
      end
  end.

(** [None] is the panic without [--rpc.replay-file]. *)
Definition build_replay_provider args fs : panics (result (BuildProviderOutput Url C) EvmeError) :=
  p ← ra_replay_file args;
  Some
    (and_then (envelope_load p fs) (λ envelope,
     and_then (from_value (ev_cache envelope)) (λ cache,
     Ok (mkOutput (ReplayProvider p cache) NoopStore (ev_chain_id envelope)
           (ev_external_env envelope))))).

(** The chain id is fetched over the
    capturing transport while the cache is empty, before the entries of the file are merged. *)
Definition build_capture_provider args n fs
    : panics (N * result (BuildProviderOutput Url C) EvmeError) :=
  p ← ra_capture_file args;
  rpc_url ← ra_rpc_url args;
  Some
    match url_parse rpc_url with
    | None => (n, Err RpcError)
    | Some url =>
        match (if path_exists p fs then and_then (envelope_load p fs) (λ e, Ok (Some e))
               else Ok None) with
        | Err e => (n, Err e)
        | Ok existing_envelope =>
            let client := build_client args url in
            let '(n, transport_cache, response) :=
              client_send (N * TransportCache) client
                (λ req '(n, cache), caching_call (http_call url) req n cache) chain_id_request
                (n, ∅) in
            let chain_id :=
              match response with
              | Ok resp => or_rpc_error (decode_chain_id resp)
              | Err _ => Err RpcError
              end in
            (n,
             and_then chain_id (λ chain_id,
             and_then
               (match existing_envelope with
                | Some env =>
                    if negb (ev_chain_id env =? chain_id) then Err RpcError
                    else cache_merge (ev_cache env) transport_cache
                | None => Ok transport_cache
                end) (λ transport_cache,
             Ok (mkOutput (CaptureProvider client url)
                   (new_envelope transport_cache p chain_id) chain_id
                   (existing_envelope ≫= ev_external_env)))))
        end
    end.

(** A request over the provider of a capture, on the network and the store. *)
Definition capture_request (client : ClientConfig) (url : Url) (req : RequestPacket)
    (state : N * RpcCacheStore C) : N * RpcCacheStore C * result ResponsePacket TransportError :=
  match state with
  | (n, FixtureCapture cache p chain_id ext) =>
      let '(n, cache, response) :=
        client_send (N * TransportCache) client
          (λ req '(n, cache), caching_call (http_call url) req n cache) req (n, cache) in
      (n, FixtureCapture cache p chain_id ext, response)
  | (n, store) => (n, store, Err BackendGone)
  end.

(** A request over the provider of a replay: a local client without a retry layer. *)
Definition replay_request (cache : TransportCache) (req : RequestPacket)
    : result ResponsePacket TransportError :=
  (client_send unit (mkClient true None) (λ req s, (s, replay_call cache req)) req tt).2.
End build.

(** * The cache and its file form *)

Lemma foldl_insert_app (l : list (Z * str)) (m : gmap Z str) :
  foldl (λ m kv, <[kv.1 := kv.2]> m) m l = list_to_map (reverse l) ∪ m.
Proof.
  revert m; induction l as [|[k v] l IH]; intros m; simpl; [by rewrite (left_id_L ∅ (∪))|].
  rewrite IH, reverse_cons, list_to_map_app. simpl.
  rewrite <- (assoc_L (∪)). f_equal. rewrite insert_empty. apply insert_union_singleton_l.
Qed.

Lemma cache_value_roundtrip (cache : gmap Z str) : from_value (to_value cache) = Ok cache.
Proof.
  unfold from_value, to_value. f_equal. rewrite foldl_insert_app, (right_id_L ∅ (∪)).
  rewrite <- (list_to_map_to_list cache) at 2. symmetry. apply list_to_map_proper.
  - apply NoDup_fst_map_to_list.
  - by rewrite reverse_Permutation, merge_sort_Permutation.
Qed.

(** Merging keeps what is there and adds the rest. *)
Lemma cache_merge_spec l (cache m : gmap Z str) :
  cache_merge (Some l) cache = Ok m →
  cache ⊆ m ∧ ∀ k v, m !! k = Some v → cache !! k = Some v ∨ (k, v) ∈ l.
Proof.
  intros [= <-]. revert cache; induction l as [|[k v] l IH]; intros cache; simpl.
  { split; [done|]. auto. }
  destruct (cache !! k) as [v0|] eqn:E.
  - destruct (IH cache) as [H1 H2]. split; [done|]. intros k' v' H.
    destruct (H2 _ _ H); [by left|right; by apply list_elem_of_further].
  - destruct (IH (<[k:=v]> cache)) as [H1 H2]. split.
    + etransitivity; [|exact H1]. by apply insert_subseteq.
    + intros k' v' [H|H]%H2; [|right; by apply list_elem_of_further].
      destruct (decide (k' = k)) as [->|Hne].
      * rewrite lookup_insert_eq in H. injection H as <-. right. apply list_elem_of_here.
      * rewrite lookup_insert_ne in H by done. by left.
Qed.

(** * Calls *)

(** JSON: what is written is read again. *)
Class RpcJsonLaws `(HJ : RpcJson) := {
  response_json r s : response_to_string r = Some s → response_from_str s = Some r;
}.

Section calls.
Context `{HJ : RpcJson} `{HJL : !RpcJsonLaws HJ}.
Context {N : Type} (inner : RequestPacket → N → N * result ResponsePacket TransportError).
Implicit Types cache : gmap Z str.

(** A response that is kept, if it came from the network: no error, and it can be written. *)
Definition recordable (resp : Response) : Prop :=
  rs_is_error resp = false ∧ is_Some (response_to_string resp).

(** The replay answers as the capture did, under its own request's id. *)
Definition replays cache (r : Request) (resp : Response) : Prop :=
  ∀ id, replay_call cache (SingleRequest (mkRequest id (rq_method r) (rq_params r))) =
    Ok (SingleResponse (with_id id resp)).

Lemma key_ignores_id id r :
  transport_cache_key (mkRequest id (rq_method r) (rq_params r)) = transport_cache_key r.
Proof. done. Qed.

Lemma replays_mono cache cache' r resp : cache ⊆ cache' → replays cache r resp → replays cache' r resp.
Proof.
  intros Hc H id. specialize (H id). revert H. unfold replay_call, try_serve.
  destruct (cache !! _) as [s|] eqn:E; [|done]. simpl.
  by rewrite (lookup_weaken _ _ _ _ E Hc).
Qed.

(** A call only adds to the cache, and what it returned is served again. *)
Lemma caching_call_grows req n cache n' cache' res :
  caching_call inner req n cache = (n', cache', res) → cache ⊆ cache'.
Proof.
  unfold caching_call. destruct (begin_call req cache) as [r|] eqn:Hb; [by intros [= _ <- _]|].
  destruct (inner req n) as [n1 r1]. intros [= _ <- _]. unfold end_call.
  destruct req as [r|]; [|done]. repeat case_match; try done. apply insert_subseteq.
  simpl in Hb. unfold try_serve in Hb. by destruct (cache !! transport_cache_key r).
Qed.

Lemma caching_call_replays r n cache n' cache' resp :
  caching_call inner (SingleRequest r) n cache = (n', cache', Ok (SingleResponse resp)) →
  recordable resp → replays cache' r resp.
Proof.
  unfold caching_call, begin_call, replays, replay_call, try_serve.
  destruct (cache !! transport_cache_key r) as [s|] eqn:E; simpl.
  - destruct (response_from_str s) as [r0|] eqn:Es; [|done]. intros [= <- <- <-] _ id.
    rewrite key_ignores_id, E. simpl. by rewrite Es.
  - destruct (inner (SingleRequest r) n) as [n1 r1]. intros [= <- <- ->] [He [s Hs]] id.
    unfold end_call. rewrite He, Hs, key_ignores_id, lookup_insert_eq. simpl.
    by rewrite (response_json _ _ Hs).
Qed.

(** Two calls for the same key that overlap are both forwarded, and the replay gives the answer that
    arrived last to both: a capture is faithful only to calls that are awaited in turn. *)
Lemma overlapping_calls r1 r2 cache resp1 resp2 :
  transport_cache_key r1 = transport_cache_key r2 → cache !! transport_cache_key r1 = None →
  recordable resp1 → recordable resp2 →
  begin_call (SingleRequest r1) cache = None ∧ begin_call (SingleRequest r2) cache = None ∧
  replays (end_call (SingleRequest r2) (Ok (SingleResponse resp2))
             (end_call (SingleRequest r1) (Ok (SingleResponse resp1)) cache)) r1 resp2.
Proof.
  intros Hk Hn [He1 [s1 Hs1]] [He2 [s2 Hs2]]. unfold begin_call, try_serve. rewrite <- Hk, Hn.
  split_and!; try done. intros id. unfold end_call, replay_call, try_serve.
  rewrite He1, Hs1, He2, Hs2, key_ignores_id, <- Hk, lookup_insert_eq. simpl.
  by rewrite (response_json _ _ Hs2).
Qed.
End calls.

(** * Sessions *)

(** The client calls its transport, perhaps again after a failure; without a retry layer, once. *)
Inductive sends {S : Type} (call : RequestPacket → S → S * result ResponsePacket TransportError)
    (req : RequestPacket) (s : S) : S → result ResponsePacket TransportError → Prop :=
  | sends_last s' r : call req s = (s', r) → sends call req s s' r
  | sends_again s1 r1 s' r : call req s = (s1, r1) → sends call req s1 s' r → sends call req s s' r.

Class ClientLaws {N Url : Type} (HN : Network N Url) := {
  client_sends S c call req s : ∀ s' r, client_send S c call req s = (s', r) → sends call req s s' r;
  client_no_retry S local call req s : client_send S (mkClient local None) call req s = call req s;
}.

(** Files: what is written to a temporary file is read where the file is moved. *)
Class FilesLaws {F Tmp : Type} (HF : Files F Tmp) := {
  temp_content : Tmp → F → option str;
  temp_write_spec tmp s fs fs' :
    temp_write_all tmp s fs = (fs', true) → temp_content tmp fs' = Some s;
  temp_persist_spec tmp p fs fs' :
    temp_persist tmp p fs = (fs', true) → read_to_string p fs' = temp_content tmp fs;
  envelope_json e s : envelope_to_string e = Some s → envelope_from_str s = Some e;
}.

Section session.
Context {F Tmp C N Url : Type} `{HF : !Files F Tmp} `{HC : !SharedCacheOps F C}.
Context `{HJ : RpcJson} `{HN : !Network N Url}.
Context `{HJL : !RpcJsonLaws HJ} `{HFL : !FilesLaws HF} `{HNL : !ClientLaws HN}.

Lemma replay_request_call cache req : replay_request cache req = replay_call cache req.
Proof. unfold replay_request. by rewrite client_no_retry. Qed.

Lemma sends_caching url req s s' res :
  sends (λ req '(n, cache), caching_call (http_call url) req n cache) req s s' res →
  s.2 ⊆ s'.2 ∧
  ∀ r resp, req = SingleRequest r → res = Ok (SingleResponse resp) → recordable resp →
    replays s'.2 r resp.
Proof.
  induction 1 as [[n cache] [n' cache'] res H|[n cache] [n1 c1] r1 [n' cache'] res H _ IH]; simpl in *.
  - split; [by eapply caching_call_grows|]. intros r resp -> -> Hr. by eapply caching_call_replays.
  - destruct IH as [IH1 IH2]. split; [|done]. etransitivity; [by eapply caching_call_grows|done].
Qed.

(** The requests of a session, one after the other, with their answers. *)
Fixpoint session (client : ClientConfig) (url : Url) (reqs : list RequestPacket)
    (state : N * RpcCacheStore C)
    : N * RpcCacheStore C * list (result ResponsePacket TransportError) :=
  match reqs with
  | [] => (state, [])
  | req :: reqs =>
      let '(state, res) := capture_request client url req state in
      let '(state, answers) := session client url reqs state in (state, res :: answers)
  end.

Lemma session_spec client url reqs n cache p chain_id ext state answers :
  session client url reqs (n, FixtureCapture cache p chain_id ext) = (state, answers) →
  ∃ n' cache', state = (n', FixtureCapture cache' p chain_id ext) ∧ cache ⊆ cache' ∧
    ∀ i r resp, reqs !! i = Some (SingleRequest r) → answers !! i = Some (Ok (SingleResponse resp)) →
      recordable resp → replays cache' r resp.
Proof.
  revert n cache answers; induction reqs as [|req reqs IH]; intros n cache answers H; simpl in H.
  { simplify_eq. exists n, cache. split_and!; try done. }
  destruct (client_send _ _ _ _ _) as [[n1 c1] res1] eqn:Hs. apply client_sends in Hs.
  apply sends_caching in Hs as [Hc1 Hr1]; simpl in *.
  destruct (session client url reqs (n1, _)) as [st as1] eqn:Hses. simplify_eq/=.
  destruct (IH _ _ _ Hses) as (n' & cache' & -> & Hc' & Hr'). exists n', cache'.
  split_and!; [done|by etransitivity|]. intros [|i] r resp Hq Ha Hrec; simplify_eq/=.
  - eapply replays_mono; [done|]. by apply Hr1.
  - by eapply Hr'.
Qed.

(** Saving and loading. *)
Lemma envelope_save_load e p fs fs' :
  ev_version e = ENVELOPE_VERSION →
  envelope_save e p fs = (fs', Ok tt) → envelope_load p fs' = Ok e.
Proof.
  intros Hv. unfold envelope_save, envelope_load.
  destruct (create_dir_all _ fs) as [fs1 []]; [|done]. simpl.
  destruct (envelope_to_string e) as [s|] eqn:Es; [|done].
  destruct (temp_new_in _ fs1) as [fs2 [tmp|]]; [|done].
  destruct (temp_write_all tmp s fs2) as [fs3 []] eqn:Ew; [|done]. simpl.
  destruct (temp_persist tmp p fs3) as [fs4 []] eqn:Ep; [|done]. simpl. intros [= <-].
  rewrite (temp_persist_spec _ _ _ _ Ep), (temp_write_spec _ _ _ _ Ew), (envelope_json _ _ Es).
  by rewrite Hv, Z.eqb_refl.
Qed.

(** A capture can be replayed.  Whatever requests are made in turn over the provider of a capture,
    once the store was persisted the file is loaded again with the chain id and the external
    environment of the capture, and the replay gives every answer that was no error again. *)
Lemma capture_replays args n fs n0 out reqs n' store answers snapshot fs' rargs :
  build_capture_provider args n fs = Some (n0, Ok out) →
  (∀ client url, bo_provider out = CaptureProvider client url →
     session client url reqs (n0, bo_cache_store out) = (n', store, answers)) →
  persist (set_external_env snapshot store) fs = (fs', Ok tt) →
  ra_replay_file rargs = ra_capture_file args →
  ∃ p cache,
    ra_capture_file args = Some p ∧
    build_replay_provider (C := C) (Url := Url) rargs fs' =
      Some (Ok (mkOutput (ReplayProvider p cache) NoopStore (bo_chain_id out) (Some snapshot))) ∧
    ∀ i r resp, reqs !! i = Some (SingleRequest r) → answers !! i = Some (Ok (SingleResponse resp)) →
      recordable resp →
      ∀ id, replay_request cache (SingleRequest (mkRequest id (rq_method r) (rq_params r))) =
        Ok (SingleResponse (with_id id resp)).
Proof.
  unfold build_capture_provider. destruct (ra_capture_file args) as [p|]; [|done]. simpl.
  destruct (ra_rpc_url args) as [u|]; [|done]. simpl. intros [= Hb] Hs Hp Hr.
  destruct (url_parse u) as [url|]; [|done].
  destruct (if path_exists p fs then _ else _) as [old|]; [|done].
  destruct (client_send _ _ _ _ _) as [[n1 c1] res1]. injection Hb as -> Hb.
  apply and_then_ok in Hb as (chain & _ & Hb). apply and_then_ok in Hb as (cache & _ & Hb).
  injection Hb as <-. specialize (Hs _ _ eq_refl). simpl in Hs.
  destruct (session_spec _ _ _ _ _ _ _ _ _ _ Hs) as (n2 & cache' & Hst & _ & Hans). simplify_eq/=.
  exists p, cache'. split; [done|]. split.
  - unfold build_replay_provider. rewrite Hr. simpl.
    rewrite (envelope_save_load (envelope_new cache' chain (Some snapshot)) _ _ _ eq_refl Hp).
    cbn [and_then ev_cache envelope_new]. by rewrite cache_value_roundtrip.
  - intros i r resp H1 H2 H3 id. rewrite replay_request_call. by eapply Hans.
Qed.

(** The chain id of a capture is the endpoint's, and that of a file it continues: an entry of the
    file cannot answer for the endpoint. *)
Lemma capture_checks_chain args n fs n0 (out : BuildProviderOutput Url C) p e :
  build_capture_provider args n fs = Some (n0, Ok out) →
  ra_capture_file args = Some p → path_exists p fs = true → envelope_load p fs = Ok e →
  ev_chain_id e = bo_chain_id out ∧ bo_external_env out = ev_external_env e.
Proof.
  unfold build_capture_provider. intros H Hp He Hl. rewrite Hp in H. simpl in H.
  destruct (ra_rpc_url args) as [u|]; [|done]. simpl in H. injection H as H.
  destruct (url_parse u) as [url|]; [|done]. rewrite He, Hl in H. simpl in H.
  destruct (client_send _ _ _ _ _) as [[n1 c1] res1]. injection H as _ H.
  apply and_then_ok in H as (chain & _ & H). apply and_then_ok in H as (cache & Hc & H).
  injection H as <-. simpl. split; [|done].
  destruct (Z.eqb_spec (ev_chain_id e) chain); [done|discriminate Hc].
Qed.
End session.

(** * A reference instance *)

(** Files in memory, a network that counts, and a client without retries: the laws hold together. *)
Module reference.
#[local] Instance ref_json : RpcJson := {|
  keccak_str s := Z.of_nat (length s);
  response_to_string r := Some (rs_id r :: (if rs_is_error r then 1 else 0) :: rs_payload r);
  response_from_str s :=
    match s with id :: e :: payload => Some (mkResponse id (e =? 1) payload) | _ => None end;
|}.

#[local] Instance ref_json_laws : RpcJsonLaws ref_json.
Proof. split. intros [id [] payload] s [= <-]; reflexivity. Qed.

(** The files, and the content of the only temporary file. *)
Definition ref_fs : Type := gmap str str * option str.

Definition ref_write (e : CacheFileEnvelope) : str :=
  [Zpos (encode (ev_version e, ev_chain_id e, ev_cache e, bucket_capacities_of <$> ev_external_env e))].
Definition ref_read (s : str) : option CacheFileEnvelope :=
  match s with
  | [Zpos p] => '(v, c, l, x) ← decode p; Some (mkEnvelopeFile v c l (mkSnapshot <$> x))
  | _ => None
  end.

#[local] Instance ref_files : Files ref_fs unit := {|
  path_parent p := None;
  path_join p s := p ++ s;
  read_to_string p fs := fs.1 !! p;
  path_exists p fs := bool_decide (is_Some (fs.1 !! p));
  remove_file p fs := ((delete p fs.1, fs.2), Ok tt);
  create_dir_all p fs := (fs, true);
  temp_new_in p fs := ((fs.1, Some []), Some tt);
  temp_path _ := [];
  temp_write_all _ s fs := ((fs.1, Some s), true);
  temp_persist _ p fs :=
    match fs.2 with Some s => ((<[p := s]> fs.1, None), true) | None => (fs, false) end;
  cache_dir fs := None;
  envelope_to_string e := Some (ref_write e);
  envelope_from_str := ref_read;
|}.

#[local] Instance ref_files_laws : FilesLaws ref_files.
Proof.
  refine {| temp_content (_ : unit) (fs : ref_fs) := fs.2 |}.
  - by intros tmp s fs fs' [= <-].
  - intros tmp p [m [s|]] fs'; simpl; intros [= <-]. simpl. apply lookup_insert_eq.
  - intros [v c l x] s [= <-]. cbn [envelope_from_str ref_files].
    unfold ref_write, ref_read. rewrite decode_encode. simpl.
    by destruct x as [[]|].
Qed.

#[local] Instance ref_network : Network nat unit := {|
  url_parse _ := Some tt;
  host_str _ := None;
  http_call _ req n := (S n, Ok (SingleResponse (mkResponse 0 false [Z.of_nat n])));
  client_send S c call req s := call req s;
  chain_id_request := SingleRequest (mkRequest 0 (str_of "eth_chainId") None);
  decode_chain_id r :=
    match r with SingleResponse (mkResponse _ _ [c]) => Some c | _ => None end;
  u64_to_string z := [z];
|}.

#[local] Instance ref_client_laws : ClientLaws ref_network.
Proof. split; [intros; by apply sends_last|done]. Qed.

(** The second request asks again what the first asked, and is served what it was served. *)
Example captured_twice :
  let req id := SingleRequest (mkRequest id (str_of "eth_blockNumber") None) in
  let '(state, answers) :=
    session (C := unit) (mkClient false None) tt [req 5; req 6] (10%nat, new_envelope ∅ [] 1) in
  answers = [Ok (SingleResponse (mkResponse 0 false [10])); Ok (SingleResponse (mkResponse 6 false [10]))]
  ∧ state.1 = 11%nat.
Proof. vm_compute. split; reflexivity. Qed.
End reference.
