(* ===== verification/CliReplay.v ===== *)
(** The replay command of [mega-evme]: [replay/cmd.rs] up to the execution, and its end.

    The typed calls of the provider are the class [ReplayRpc], over the network and the store of
    the capture; the execution is a parameter of [run], and modelled in [CliExecute]. *)

From S2P Require Import Prelude Spec Revm LimitCheck Interfaces AdditionalLimit Access DynamicGas.
From S2P Require Import SystemTx Context Execution EvmState Precompiles BlockEvm MegaEvm.
From S2P Require Import MemoryEnvs CliInput CliTx CliState CliRpc CliTxFacts.

Record RpcBlock : Type := mkRpcBlock {
  rb_header : Header;
  rb_hashes : list Z;
}.

Class ReplayRpc (Url C N : Type) := {
  RpcTransaction : Type;
  rt_block_number : RpcTransaction → option Z;
  get_transaction_by_hash : OpProvider Url C → Z → N * RpcCacheStore C →
    N * RpcCacheStore C * result (option RpcTransaction) TransportError;
  get_block_number : OpProvider Url C → N * RpcCacheStore C →
    N * RpcCacheStore C * result Z TransportError;
  get_block_by_number : OpProvider Url C → Z → N * RpcCacheStore C →
    N * RpcCacheStore C * result (option RpcBlock) TransportError;
}.

(** [map_err(RpcError)?.ok_or(missing)]. *)
Definition found {A} (missing : EvmeError) (r : result (option A) TransportError) : result A EvmeError :=
  match r with
  | Ok (Some x) => Ok x
  | Ok None => Err missing
  | Err _ => Err RpcError
  end.

(** [take_while(hash != tx_hash)]. *)
Fixpoint preceding (tx_hash : Z) (hashes : list Z) : list Z :=
  match hashes with
  | [] => []
  | h :: l => if h =? tx_hash then [] else h :: preceding tx_hash l
  end.

Section context.
Context {Url C N : Type} `{HR : !ReplayRpc Url C N}.
Local Notation world := (N * RpcCacheStore C)%type.

Record ReplayContext : Type := mkReplayContext {
  rx_target_tx : RpcTransaction;
  rx_parent_block : RpcBlock;
  rx_block : RpcBlock;
  rx_chain_id : Z;
  rx_preceding_tx_hashes : list Z;
}.

(** The numbers of the parent block and of the block, and whether the transaction is pending.
    [n - 1] wraps for the genesis block. *)
Definition replay_blocks (provider : OpProvider Url C) (tx : RpcTransaction) (w : world)
    : world * result (Z * Z * bool) EvmeError :=
  match rt_block_number tx with
  | Some n => (w, Ok (n -w 1, n, false))
  | None =>
      let '(w, r) := get_block_number provider w in
      (w, match r with Ok latest => Ok (latest, latest, true) | Err _ => Err RpcError end)
  end.

Definition fetch_replay_context (tx_hash : Z) (provider : OpProvider Url C) (chain_id : Z) (w : world)
    : world * result ReplayContext EvmeError :=
  let '(w, r) := get_transaction_by_hash provider tx_hash w in
  match found (TransactionNotFound tx_hash) r with
  | Err e => (w, Err e)
  | Ok target_tx =>
      let '(w, numbers) := replay_blocks provider target_tx w in
      match numbers with
      | Err e => (w, Err e)
      | Ok (state_base_block, block_number, is_pending) =>
          let '(w, r) := get_block_by_number provider state_base_block w in
          match found (BlockNotFound state_base_block) r with
          | Err e => (w, Err e)
          | Ok parent_block =>
              let '(w, r) := get_block_by_number provider block_number w in
              match found (BlockNotFound block_number) r with
              | Err e => (w, Err e)
              | Ok block =>
                  (w, Ok (mkReplayContext target_tx parent_block block chain_id
                            (if (is_pending : bool) then [] else preceding tx_hash (rb_hashes block))))
              end
          end
      end
  end.
End context.
#[global] Arguments ReplayContext Url C N {_}.

(** * The command *)

Record ReplayArgs : Type := mkReplayArgs {
  rp_tx_hash : Z;
  rp_rpc_args : RpcArgs;
  rp_bucket_capacity : list str;
  rp_spec_override : option string;
  rp_tx_override_args : TxOverrideArgs;
  rp_dump_fixture : option path;
}.

Section command.
Context {F Tmp C N Url : Type} `{HF : !Files F Tmp} `{HC : !SharedCacheOps F C}.
Context `{HJ : RpcJson} `{HN : !Network N Url} `{HR : !ReplayRpc Url C N} `{HP : Parsers}.
Implicit Types (cmd : ReplayArgs) (n : N) (fs : F).

(** The input is checked before anything is fetched. *)
Definition check_dump cmd : result unit EvmeError :=
  if is_given (rp_dump_fixture cmd) then
    if has_overrides (rp_tx_override_args cmd) then Err Other
    else if is_given (rp_spec_override cmd) then Err Other
    else Ok tt
  else Ok tt.

Definition resolve_provider cmd n fs
    : panics (N * F * result (BuildProviderOutput Url C) EvmeError) :=
  let args := rp_rpc_args cmd in
  if is_given (ra_capture_file args) then
    '(n, r) ← build_capture_provider args n fs; Some (n, fs, r)
  else if is_given (ra_replay_file args) then
    if negb (is_empty (rp_bucket_capacity cmd)) then Some (n, fs, Err Other)
    else r ← build_replay_provider args fs; Some (n, fs, r)
  else if is_given (ra_rpc_url args) then Some (build_provider args n fs)
  else Some (n, fs, Err Other).

Definition envs_of (capacities : list (Z * Z)) : TestExternalEnvs AHashBucketHasher :=
  foldl (λ e kv, with_bucket_capacity kv.1 kv.2 e) test_new capacities.

Definition resolve_external_envs cmd (external_env : option ExternalEnvSnapshot)
    : result (TestExternalEnvs AHashBucketHasher * option ExternalEnvSnapshot) EvmeError :=
  let args := rp_rpc_args cmd in
  if is_given (ra_replay_file args) then
    Ok (envs_of (match external_env with Some s => bucket_capacities_of s | None => [] end), None)
  else
    and_then (try_map parse_bucket_capacity (rp_bucket_capacity cmd)) (λ parsed,
    let effective :=
      match parsed with
      | [] => match external_env with Some prev => bucket_capacities_of prev | None => [] end
      | _ => parsed
      end in
    Ok (envs_of effective,
        if is_given (ra_capture_file args) then Some (mkSnapshot effective) else None)).

(** [run]: the store is persisted also when the execution failed, whose error is then returned. *)
Definition run cmd
    (execute_and_report : OpProvider Url C → ReplayContext Url C N →
       TestExternalEnvs AHashBucketHasher → N * RpcCacheStore C * F →
       panics (N * RpcCacheStore C * F * result unit EvmeError))
    n fs : panics (N * F * result unit EvmeError) :=
  match check_dump cmd with
  | Err e => Some (n, fs, Err e)
  | Ok _ =>
      '(n, fs, built) ← resolve_provider cmd n fs;
      match built with
      | Err e => Some (n, fs, Err e)
      | Ok pctx =>
          let '(n, store, fetched) :=
            fetch_replay_context (rp_tx_hash cmd) (bo_provider pctx) (bo_chain_id pctx)
              (n, bo_cache_store pctx) in
          match fetched, resolve_external_envs cmd (bo_external_env pctx) with
          | Err e, _ => Some (n, fs, Err e)
          | Ok _, Err e => Some (n, fs, Err e)
          | Ok rctx, Ok (external_envs, env_snapshot) =>
              '(n, store, fs, run_result) ←
                execute_and_report (bo_provider pctx) rctx external_envs (n, store, fs);
              let store :=
                match env_snapshot with Some s => set_external_env s store | None => store end in
              let '(fs, persist_result) := persist store fs in
              Some (n, fs, match run_result with Ok _ => persist_result | Err e => Err e end)
          end
      end
  end.
End command.

Section env.
Context `{R : Revm} `{RS : RevmState} {J W DB : Type} `{HB : !EvmParts J W DB} `{HE : !EnvParts J W DB}.

Definition retrieve_block_env (block : RpcBlock) : result BlockEnv EvmeError :=
  let h := rb_header block in
  let block_env :=
    block_env_of (hd_number h) (hd_beneficiary h) (hd_timestamp h) (hd_gas_limit h)
      (default 0 (hd_base_fee_per_gas h)) (hd_difficulty h) (hd_mix_hash h) in
  match hd_excess_blob_gas h with
  | None => Err Other
  | Some excess_blob_gas =>
      Ok (set_blob_excess_gas_and_price excess_blob_gas BLOB_BASE_FEE_UPDATE_FRACTION_CANCUN block_env)
  end.
End env.

(** * Properties *)

(** The transactions before the target are the longest prefix of the block without it. *)
Lemma preceding_spec tx_hash hashes :
  ∃ rest, hashes = preceding tx_hash hashes ++ rest ∧ tx_hash ∉ preceding tx_hash hashes ∧
    (rest = [] ∨ head rest = Some tx_hash).
Proof.
  induction hashes as [|h l (rest & Hl & Hn & Hr)]; simpl.
  - exists []. split_and!; [done|apply not_elem_of_nil|by left].
  - destruct (Z.eqb_spec h tx_hash) as [->|Hne].
    + exists (tx_hash :: l). split_and!; [done|apply not_elem_of_nil|by right].
    + exists rest. split_and!; [by rewrite <- app_comm_cons, <- Hl| |done].
      apply not_elem_of_cons. split; [congruence|done].
Qed.

Section facts.
Context {F Tmp C N Url : Type} `{HF : !Files F Tmp} `{HC : !SharedCacheOps F C}.
Context `{HJ : RpcJson} `{HN : !Network N Url} `{HR : !ReplayRpc Url C N} `{HP : Parsers}.

(** Offline, a replay runs in the external environment of the capture: the snapshot that the capture
    attached to its file gives the same environment again. *)
Lemma replayed_environment cmd cmd' prev envs snapshot :
  ra_replay_file (rp_rpc_args cmd) = None → is_given (ra_replay_file (rp_rpc_args cmd')) = true →
  resolve_external_envs cmd prev = Ok (envs, Some snapshot) →
  resolve_external_envs cmd' (Some snapshot) = Ok (envs, None).
Proof.
  intros Hn Hr. unfold resolve_external_envs. rewrite Hn, Hr. simpl. intros H.
  apply and_then_ok in H as (parsed & _ & H). destruct (is_given _) in H; [|done].
  by injection H as <- <-.
Qed.

(** Once the context was fetched, a capture is written whatever the execution returned, and the error
    of the execution is the one that is reported. *)
Lemma run_persists cmd exec n fs n' fs' res :
  run cmd exec n fs = Some (n', fs', res) →
  (∃ e, res = Err e) ∨
  ∃ pctx rctx envs snapshot n0 store fs0 r,
    (∃ w, exec (bo_provider pctx) rctx envs w = Some (n0, store, fs0, r)) ∧
    resolve_external_envs cmd (bo_external_env pctx) = Ok (envs, snapshot) ∧
    r = Ok tt ∧
    persist (match snapshot with Some s => set_external_env s store | None => store end) fs0 =
      (fs', Ok tt).
Proof.
  unfold run. destruct (check_dump cmd); [|intros [= _ _ <-]; eauto].
  destruct (resolve_provider cmd n fs) as [[[n1 fs1] [pctx|e]]|]; [|intros [= _ _ <-]; eauto|done].
  simpl. destruct (fetch_replay_context _ _ _ _) as [[n2 store] [rctx|e]]; [|intros [= _ _ <-]; eauto].
  destruct (resolve_external_envs cmd _) as [[envs snapshot]|e] eqn:He; [|intros [= _ _ <-]; eauto].
  destruct (exec _ _ _ _) as [[[[n3 store3] fs3] r]|] eqn:Hx; [|done]. simpl.
  destruct (persist _ fs3) as [fs4 p] eqn:Hp. intros [= <- <- <-].
  destruct r as [[]|e]; [|by left; eauto]. destruct p as [[]|e]; [|by left; eauto].
  right. exists pctx, rctx, envs, snapshot, n3, store3, fs3, (Ok tt). split_and!; try done; eauto.
Qed.

Lemma run_persists_failure cmd exec n fs n1 fs1 pctx n2 store rctx envs snapshot n3 store3 fs3 e :
  check_dump cmd = Ok tt → resolve_provider cmd n fs = Some (n1, fs1, Ok pctx) →
  fetch_replay_context (rp_tx_hash cmd) (bo_provider pctx) (bo_chain_id pctx)
    (n1, bo_cache_store pctx) = (n2, store, Ok rctx) →
  resolve_external_envs cmd (bo_external_env pctx) = Ok (envs, Some snapshot) →
  exec (bo_provider pctx) rctx envs (n2, store, fs1) = Some (n3, store3, fs3, Err e) →
  run cmd exec n fs = Some (n3, (persist (set_external_env snapshot store3) fs3).1, Err e).
Proof.
  intros Hd Hp Hf He Hx. unfold run. rewrite Hd, Hp. simpl. rewrite Hf, He, Hx. simpl.
  by destruct (persist _ fs3).
Qed.
End facts.
