(* ===== verification/StateTest.v ===== *)
(** The runner of state tests: [crates/mega-state-test/src/]: the types of a fixture, its
    execution ([runner.rs]) and the recording of expectations.

    The EVM, the trie roots, key recovery and JSON are parameters: the class [TestRun].  Timing,
    printing and the traced rerun of a failed test are left out; they change no result. *)

From S2P Require Import Prelude Spec Revm DynamicGas CliInput CliTx MemoryEnvs.

(** * Names of specs *)

Module Specs.
Inductive SpecName : Type :=
  | Frontier | FrontierToHomesteadAt5 | Homestead | HomesteadToDaoAt5 | HomesteadToEIP150At5
  | EIP150 | EIP158 | EIP158ToByzantiumAt5 | Byzantium | ByzantiumToConstantinopleAt5
  | ByzantiumToConstantinopleFixAt5 | Constantinople | ConstantinopleFix | Istanbul | Berlin
  | BerlinToLondonAt5 | London | Paris | Merge | Shanghai | Cancun | Prague | Osaka
  | MiniRex | Equivalence | Rex | Rex1 | Rex2 | Rex3 | Rex4 | Rex5 | Rex6 | Unknown.

#[export] Instance SpecName_eq_dec : EqDecision SpecName.
Proof. solve_decision. Defined.
End Specs.
Export (hints) Specs.
Abbreviation SpecName := Specs.SpecName (only parsing).

(** [Err(UnknownSpecError)] is [None]. *)
Definition to_spec_id (n : SpecName) : option MegaSpecId :=
  match n with
  | Specs.MiniRex => Some MINI_REX
  | Specs.Rex => Some REX
  | Specs.Rex1 => Some REX1
  | Specs.Rex2 => Some REX2
  | Specs.Rex3 => Some REX3
  | Specs.Rex4 => Some REX4
  | Specs.Rex5 => Some REX5
  | Specs.Rex6 => Some REX6
  | Specs.Unknown => None
  | _ => Some EQUIVALENCE
  end.

Definition from_mega_spec (s : MegaSpecId) : SpecName :=
  match s with
  | MINI_REX => Specs.MiniRex
  | EQUIVALENCE => Specs.Equivalence
  | REX => Specs.Rex
  | REX1 => Specs.Rex1
  | REX2 => Specs.Rex2
  | REX3 => Specs.Rex3
  | REX4 => Specs.Rex4
  | REX5 => Specs.Rex5
  | REX6 => Specs.Rex6
  end.

(** * Fixtures *)

Record TestAccount : Type := mkTestAccount {
  tac_balance : U256;
  tac_code : Bytes;
  tac_nonce : Z;
  tac_storage : gmap Z U256;
}.

(** The fields of [Env] the runner reads; the others only survive a rewrite of the file. *)
Record Env : Type := mkEnv {
  current_chain_id : option U256;
  current_coinbase : Address;
  current_difficulty : U256;
  current_gas_limit : U256;
  current_number : U256;
  current_timestamp : U256;
  current_base_fee : option U256;
  current_random : option U256;
  current_excess_blob_gas : option U256;
  parent_blob_gas_used : option U256;
  parent_excess_blob_gas : option U256;
  parent_target_blobs_per_block : option U256;
  env_block_hashes : option (list (U256 * Z));
}.

Record TransactionParts : Type := mkParts {
  tp_tx_type : option Z;
  tp_data : list Bytes;
  tp_gas_limit : list U256;
  tp_gas_price : option U256;
  tp_nonce : U256;
  tp_secret_key : Z;
  tp_sender : option Address;
  tp_to : option Address;
  tp_value : list U256;
  tp_max_fee_per_gas : option U256;
  tp_max_priority_fee_per_gas : option U256;
  tp_access_lists : list (option (list AccessListItem));
  tp_authorization_list : option (list AuthorizationFields);
  tp_blob_versioned_hashes : list Z;
  tp_max_fee_per_blob_gas : option U256;
}.

Record TxPartIndices : Type := mkIndices {
  ix_data : nat;
  ix_gas : nat;
  ix_value : nat;
}.

Record MegaEnv : Type := mkMegaEnv {
  me_bucket_capacities : list (Z * Z);
  me_oracle_storage : list (U256 * U256);
}.

(** The fields of [Test] that are read. *)
Record Test : Type := mkTest {
  expect_exception : option str;
  indexes : TxPartIndices;
  test_hash : Z;
  test_logs : Z;
  mega_gas_used : option Z;
  mega_status : option str;
}.

Record TestUnit : Type := mkUnit {
  u_env : Env;
  u_pre : gmap Z TestAccount;
  u_post : list (SpecName * list Test);
  u_transaction : TransactionParts;
  u_out : option Bytes;
  u_mega_env : option MegaEnv;
}.

(** A suite, in the order of the names of its units. *)
Abbreviation TestSuite := (list (str * TestUnit)) (only parsing).

(** * Errors *)

Inductive TxBuildError : Type :=
  | UnknownPrivateKey (key : Z)
  | InvalidTransactionType
  | PartIndexOutOfBounds (part : string) (index len : nat)
  | ValueOutOfRange (field : string) (value : U256)
  | TxUnexpectedException (expected got : option str).

Inductive TestErrorKind : Type :=
  | LogsRootMismatch (got expected : Z)
  | StateRootMismatch (got expected : Z)
  | GasUsedMismatch (got expected : Z)
  | StatusMismatch (got expected : str)
  | UnknownKey (key : Z)
  | UnexpectedException (expected got : option str)
  | UnexpectedOutput (expected got : option Bytes)
  | SerdeDeserialize
  | PanicKind
  | FixtureErrorKind
  | TestsFailed (failed total : nat).

(** [From<TxBuildError>]. *)
Definition kind_of_build_error (e : TxBuildError) : TestErrorKind :=
  match e with UnknownPrivateKey k => UnknownKey k | _ => FixtureErrorKind end.

(** * The execution of a unit *)

Definition U128_MAX : Z := 2 ^ 128 - 1.

(** A transaction with its blob fields; its chain id and the rest are defaults. *)
Record TestTxEnv : Type := mkTestTx {
  tt_base : TxEnv;
  tt_blob_hashes : list Z;
  tt_max_fee_per_blob_gas : Z;
}.

(** [CfgEnv::default()] with the fields that are set. *)
Record TestCfg : Type := mkTestCfg {
  tc_chain_id : Z;
  tc_spec : MegaSpecId;
  tc_max_blobs_per_tx : option Z;
}.

(** The database: the accounts of the cache, the clearing of empty accounts, the block hashes. *)
Record TestDb : Type := mkTestDb {
  td_accounts : gmap Z Account;
  td_state_clear : bool;
  td_block_hashes : gmap Z Z;
}.

(** The Ethereum forks that are asked for. *)
Inductive EthFork : Type := SPURIOUS_DRAGON | MERGE | PRAGUE | OSAKA.

(** [ExecutionResult<MegaHaltReason>], with logs [L]; the reason of a halt is its debug text. *)
Inductive TestResult (L : Type) : Type :=
  | TestSuccess (gas_used : Z) (logs : list L) (output : Bytes)
  | TestRevert (gas_used : Z) (output : Bytes)
  | TestHalt (reason : str) (gas_used : Z).
Arguments TestSuccess {L} _ _ _.
Arguments TestRevert {L} _ _.
Arguments TestHalt {L} _ _.

Section results.
Context {L : Type}.
Implicit Types r : TestResult L.

Definition execution_status r : str :=
  match r with
  | TestSuccess _ _ _ => str_of "success"
  | TestRevert _ _ => str_of "revert"
  | TestHalt _ _ => str_of "halt"
  end.

Definition halt_reason r : option str :=
  match r with TestHalt reason _ => Some reason | _ => None end.

(** [gas_used()], [output()] and [logs()]. *)
Definition result_gas_used r : Z :=
  match r with TestSuccess g _ _ => g | TestRevert g _ => g | TestHalt _ g => g end.
Definition result_output r : option Bytes :=
  match r with
  | TestSuccess _ _ output => Some output
  | TestRevert _ output => Some output
  | TestHalt _ _ => None
  end.
Definition result_logs r : list L := match r with TestSuccess _ logs _ => logs | _ => [] end.
End results.

Class TestRun `{RS : RevmState} := {
  TestBlockEnv : Type;
  TestLog : Type;
  EvmErr : Type;
  is_enabled_in : MegaSpecId → EthFork → bool;
  (** [BlockEnv { .., ..BlockEnv::default() }] and its blob gas. *)
  test_block_env : U256 → Address → U256 → Z → Z → U256 → option Z → TestBlockEnv;
  test_set_blob : Z → Z → TestBlockEnv → TestBlockEnv;
  calc_excess_blob_gas : Z → Z → Z → Z;
  CANCUN_FRACTION : Z;
  TARGET_BLOB_GAS_PER_BLOCK_CANCUN : Z;
  (** [TransactionType::from(u8) as u8]. *)
  transaction_type : Z → Z;
  recover_address : Z → option Address;
  (** The default of [TxEnv], for the chain id. *)
  default_chain_id : option Z;
  plain_account : U256 → Z → Bytes → gmap Z U256 → Account;
  (** [transact_commit] of an EVM in a context of these parts: the database it leaves. *)
  transact_commit : TestCfg → TestBlockEnv → TestExternalEnvs AHashBucketHasher → TestTxEnv →
    TestDb → TestDb * result (TestResult TestLog) EvmErr;
  inspect_tx_commit : TestCfg → TestBlockEnv → TestExternalEnvs AHashBucketHasher → TestTxEnv →
    TestDb → TestDb * result (TestResult TestLog) EvmErr;
  log_rlp_hash : list TestLog → Z;
  state_merkle_trie_root : gmap Z Account → Z;
  evm_error_to_string : EvmErr → str;
}.

Section run.
Context `{HT : TestRun}.

(** [tx_type(access_list_index)]: [None] when the transaction has no valid type. *)
Definition parts_tx_type (t : TransactionParts) (access_list_index : nat) : option Z :=
  match tp_tx_type t with
  | Some ty => Some (transaction_type ty)
  | None =>
      let tx_type :=
        if is_given (tp_max_fee_per_gas t) then 2
        else match tp_access_lists t !! access_list_index with Some (Some _) => 1 | _ => 0 end in
      if is_given (tp_max_fee_per_blob_gas t) then
        match tp_to t with None => None | Some _ => Some 3 end
      else if is_given (tp_authorization_list t) then
        match tp_to t with None => None | Some _ => Some 4 end
      else Some tx_type
  end.

Definition u128_field (field : string) (v : option U256) : result (option Z) TxBuildError :=
  match v with
  | None => Ok None
  | Some b => if b <=? U128_MAX then Ok (Some b) else Err (ValueOutOfRange field b)
  end.

Definition part_at {A} (part : string) (l : list A) (i : nat) : result A TxBuildError :=
  match l !! i with Some x => Ok x | None => Err (PartIndexOutOfBounds part i (length l)) end.

Definition tx_env_at (u : TestUnit) (ix : TxPartIndices) : result TestTxEnv TxBuildError :=
  let t := u_transaction u in
  and_then
    (match tp_sender t with
     | Some a => Ok a
     | None =>
         match recover_address (tp_secret_key t) with
         | Some a => Ok a | None => Err (UnknownPrivateKey (tp_secret_key t)) end
     end) (λ caller,
  and_then
    (match parts_tx_type t (ix_data ix) with
     | Some ty => Ok ty | None => Err InvalidTransactionType end) (λ tx_type,
  let price :=
    default 0 (match tp_gas_price t with Some p => Some p | None => tp_max_fee_per_gas t end) in
  and_then (u128_field "maxPriorityFeePerGas" (tp_max_priority_fee_per_gas t)) (λ priority,
  and_then (u128_field "maxFeePerBlobGas" (tp_max_fee_per_blob_gas t)) (λ blob_fee,
  and_then (part_at "gasLimit" (tp_gas_limit t) (ix_gas ix)) (λ gas_limit,
  and_then (part_at "data" (tp_data t) (ix_data ix)) (λ data,
  and_then
    (if tp_nonce t <=? u64_max then Ok (tp_nonce t) else Err (ValueOutOfRange "nonce" (tp_nonce t)))
    (λ nonce,
  and_then (part_at "value" (tp_value t) (ix_value ix)) (λ value,
  Ok (mkTestTx
        (mkTxEnv caller (Z.min price U128_MAX) priority tx_type (Z.min gas_limit u64_max) data nonce
           value (default [] (default None (tp_access_lists t !! ix_data ix)))
           ((λ a, mkRecovered a None) <$> default [] (tp_authorization_list t)) (tp_to t)
           default_chain_id)
        (tp_blob_versioned_hashes t) (default U128_MAX blob_fee)))))))))).

(** [Test::tx_env]. *)
Definition test_tx_env (u : TestUnit) (t : Test) : result TestTxEnv TxBuildError :=
  match tx_env_at u (indexes t) with
  | Err InvalidTransactionType =>
      if is_given (expect_exception t)
      then Err (TxUnexpectedException (expect_exception t) (Some (str_of "Invalid transaction type")))
      else Err InvalidTransactionType
  | r => r
  end.

(** The pre-state: [TestUnit::state]. *)
Definition unit_state (u : TestUnit) : gmap Z Account :=
  (λ a, plain_account (tac_balance a) (tac_nonce a) (tac_code a) (tac_storage a)) <$> u_pre u.

(** [to()] of a value that does not fit panics. *)
Definition uint_to_u64 (x : U256) : panics Z := if x <=? u64_max then Some x else None.

Definition unit_block_env (u : TestUnit) (cfg : TestCfg) : panics TestBlockEnv :=
  let e := u_env u in
  let random :=
    match current_random e with
    | Some r => Some r
    | None => if is_enabled_in (tc_spec cfg) MERGE then Some 0 else None
    end in
  let block :=
    test_block_env (current_number e) (current_coinbase e) (current_timestamp e)
      (Z.min (current_gas_limit e) u64_max) (Z.min (default 0 (current_base_fee e)) u64_max)
      (current_difficulty e) random in
  match current_excess_blob_gas e with
  | Some excess => g ← uint_to_u64 excess; Some (test_set_blob g CANCUN_FRACTION block)
  | None =>
      match parent_blob_gas_used e, parent_excess_blob_gas e with
      | Some used, Some excess =>
          u ← uint_to_u64 used;
          x ← uint_to_u64 excess;
          target ←
            match parent_target_blobs_per_block e with
            | Some t => uint_to_u64 t | None => Some TARGET_BLOB_GAS_PER_BLOCK_CANCUN end;
          Some (test_set_blob (calc_excess_blob_gas u x target) CANCUN_FRACTION block)
      | _, _ => Some block
      end
  end.

Definition configure_max_blobs (spec : MegaSpecId) : Z :=
  if is_enabled_in spec OSAKA then 6 else if is_enabled_in spec PRAGUE then 9 else 6.

Definition resolve_test_chain_id (e : Env) : result Z TestErrorKind :=
  match current_chain_id e with
  | None => Ok 6342
  | Some id => if id <=? u64_max then Ok id else Err FixtureErrorKind
  end.

(** [MegaEnv::validate] and [to_external_envs]. *)
Definition mega_env_validate (m : MegaEnv) : bool :=
  forallb (λ kv : Z * Z, MIN_BUCKET_SIZE <=? kv.2) (me_bucket_capacities m).
Definition to_external_envs (m : MegaEnv) : TestExternalEnvs AHashBucketHasher :=
  foldl (λ e kv, with_oracle_storage kv.1 kv.2 e)
    (foldl (λ e kv, with_bucket_capacity kv.1 kv.2 e) test_new (me_bucket_capacities m))
    (me_oracle_storage m).

Definition external_envs_for (u : TestUnit) : result (TestExternalEnvs AHashBucketHasher) TestErrorKind :=
  let mega_env := default (mkMegaEnv [] []) (u_mega_env u) in
  if mega_env_validate mega_env then Ok (to_external_envs mega_env) else Err FixtureErrorKind.

(** [inject_block_hashes], into a state without any. *)
Definition inject_block_hashes (u : TestUnit) (db : TestDb) : result TestDb TestErrorKind :=
  match env_block_hashes (u_env u) with
  | None => Ok db
  | Some hashes =>
      and_then
        (try_map (λ kv : U256 * Z, if kv.1 <=? u64_max then Ok kv else Err FixtureErrorKind) hashes)
        (λ l, Ok (mkTestDb (td_accounts db) (td_state_clear db)
                    (foldl (λ m kv, <[kv.1 := kv.2]> m) (td_block_hashes db) l)))
  end.

Definition BASE_FEE_VAULT : Address := 0x4200000000000000000000000000000000000019.

Definition prune_base_fee_vault_changes (db : TestDb) : TestDb :=
  mkTestDb (delete BASE_FEE_VAULT (td_accounts db)) (td_state_clear db) (td_block_hashes db).

Record TestValidationResult : Type := mkRoots { logs_root : Z; state_root : Z }.

Definition compute_test_roots (exec_result : result (TestResult TestLog) EvmErr) (db : TestDb)
    : TestValidationResult :=
  mkRoots (log_rlp_hash (match exec_result with Ok r => result_logs r | Err _ => [] end))
    (state_merkle_trie_root (td_accounts db)).

(** The database a unit starts with. *)
Definition start_db (u : TestUnit) (spec : MegaSpecId) : result TestDb TestErrorKind :=
  inject_block_hashes u (mkTestDb (unit_state u) (is_enabled_in spec SPURIOUS_DRAGON) ∅).

(** * Checks *)

Definition validate_exception (t : Test) (r : result (TestResult TestLog) EvmErr)
    : result bool TestErrorKind :=
  match expect_exception t, r with
  | None, Ok _ => Ok false
  | Some _, Err _ => Ok true
  | _, _ =>
      Err (UnexpectedException (expect_exception t)
             (match r with Err e => Some (evm_error_to_string e) | Ok _ => None end))
  end.

Definition validate_output (expected : option Bytes) (r : TestResult TestLog) : result unit TestErrorKind :=
  match expected with
  | None => Ok tt
  | Some e =>
      if bool_decide (result_output r = Some e) then Ok tt
      else Err (UnexpectedOutput (Some e) (result_output r))
  end.

Definition validate_mega_expectations (t : Test) (r : TestResult TestLog) : result unit TestErrorKind :=
  and_then
    (match mega_gas_used t with
     | Some g =>
         if negb (result_gas_used r =? g) then Err (GasUsedMismatch (result_gas_used r) g) else Ok tt
     | None => Ok tt
     end) (λ _,
  match mega_status t with
  | Some s =>
      if bool_decide (execution_status r = s) then Ok tt else Err (StatusMismatch (execution_status r) s)
  | None => Ok tt
  end).

Definition check_evm_execution (t : Test) (expected_output : option Bytes)
    (exec_result : result (TestResult TestLog) EvmErr) (db : TestDb) : result unit TestErrorKind :=
  let validation := compute_test_roots exec_result db in
  and_then (validate_exception t exec_result) (λ exception_expected : bool,
  if exception_expected then Ok tt
  else
    and_then
      (match exec_result with
       | Ok r => and_then (validate_output expected_output r) (λ _, validate_mega_expectations t r)
       | Err _ => Ok tt
       end) (λ _,
    if negb (logs_root validation =? test_logs t)
    then Err (LogsRootMismatch (logs_root validation) (test_logs t))
    else if negb (state_root validation =? test_hash t)
    then Err (StateRootMismatch (state_root validation) (test_hash t))
    else Ok tt)).

Definition execute_single_test (u : TestUnit) (t : Test) (cfg : TestCfg) (block : TestBlockEnv)
    (tx : TestTxEnv) (trace : bool) : result unit TestErrorKind :=
  and_then (start_db u (tc_spec cfg)) (λ db,
  and_then (external_envs_for u) (λ envs,
  let '(db, exec_result) :=
    (if trace then inspect_tx_commit else transact_commit) cfg block envs tx db in
  check_evm_execution t (u_out u) exec_result (prune_base_fee_vault_changes db))).

(** * Suites *)

(** One entry of [post]: a transaction that is invalid by construction meets an expected exception. *)
Definition run_test (u : TestUnit) (cfg : TestCfg) (block : TestBlockEnv) (trace : bool) (t : Test)
    : result unit TestErrorKind :=
  match test_tx_env u t with
  | Ok tx => execute_single_test u t cfg block tx trace
  | Err e =>
      match e with
      | InvalidTransactionType | TxUnexpectedException _ _ =>
          if is_given (expect_exception t) then Ok tt else Err (kind_of_build_error e)
      | _ => Err (kind_of_build_error e)
      end
  end.

(** [for x in l { f(x)?; }], where [f] may panic. *)
Fixpoint try_each {A E} (f : A → panics (result unit E)) (l : list A) : panics (result unit E) :=
  match l with
  | [] => Some (Ok tt)
  | x :: l => r ← f x; match r with Ok _ => try_each f l | Err e => Some (Err e) end
  end.

Definition run_spec (u : TestUnit) (chain_id : Z) (trace : bool) (entry : SpecName * list Test)
    : panics (result unit TestErrorKind) :=
  let '(spec_name, tests) := entry in
  if bool_decide (spec_name = Specs.Constantinople) then Some (Ok tt)
  else
    match to_spec_id spec_name with
    | None => Some (Err FixtureErrorKind)
    | Some spec =>
        let cfg := mkTestCfg chain_id spec (Some (configure_max_blobs spec)) in
        block ← unit_block_env u cfg;
        try_each (λ t, Some (run_test u cfg block trace t)) tests
    end.

Definition run_unit (trace : bool) (entry : str * TestUnit) : panics (result unit (str * TestErrorKind)) :=
  let '(name, u) := entry in
  let named (r : result unit TestErrorKind) :=
    match r with Ok _ => Ok tt | Err k => Err (name, k) end in
  match resolve_test_chain_id (u_env u) with
  | Err k => Some (Err (name, k))
  | Ok chain_id => r ← try_each (run_spec u chain_id trace) (u_post u); Some (named r)
  end.

(** The file's name, when it has one in UTF-8, is on the skip list. *)
Definition skip_test (file_name : option string) : bool :=
  match file_name with
  | None => false
  | Some name =>
      bool_decide (name ∈ [
      "CreateTransactionHighNonce.json";
      "RevertInCreateInInit_Paris.json";
      "RevertInCreateInInit.json";
      "dynamicAccountOverwriteEmpty.json";
      "dynamicAccountOverwriteEmpty_Paris.json";
      "RevertInCreateInInitCreate2Paris.json";
      "create2collisionStorage.json";
      "RevertInCreateInInitCreate2.json";
      "create2collisionStorageParis.json";
      "InitCollision.json";
      "InitCollisionParis.json";
      "ValueOverflow.json";
      "ValueOverflowParis.json";
      "Call50000_sha256.json";
      "static_Call50000_sha256.json";
      "loopMul.json";
      "CALLBlake2f_MaxRounds.json"]%string)
  end.

(** [execute_test_suite], on what was read from the file: [None] when it cannot be read, and then
    [None] when it does not parse. *)
Definition execute_test_suite (file_name : option string) (file : option (option TestSuite)) (trace : bool)
    : panics (result unit (str * TestErrorKind)) :=
  if skip_test file_name then Some (Ok tt)
  else
    match file with
    | None => Some (Err (str_of "Unknown", FixtureErrorKind))
    | Some None => Some (Err (str_of "Unknown", SerdeDeserialize))
    | Some (Some suite) => try_each (run_unit trace) suite
    end.

(** * Recording *)

Record ExecutedUnit : Type := mkExecuted {
  xu_state_root : Z;
  xu_logs_root : Z;
  xu_gas_used : Z;
  xu_status : str;
  xu_halt_reason : option str;
  xu_output : option Bytes;
}.

(** [run_unit_once], with the roots. *)
Definition run_unit_once (u : TestUnit) (spec_name : SpecName)
    : panics (result (TestResult TestLog * TestValidationResult) TestErrorKind) :=
  match resolve_test_chain_id (u_env u), to_spec_id spec_name with
  | Err k, _ => Some (Err k)
  | Ok _, None => Some (Err FixtureErrorKind)
  | Ok chain_id, Some spec =>
      let cfg := mkTestCfg chain_id spec (Some (configure_max_blobs spec)) in
      block ← unit_block_env u cfg;
      Some
        match tx_env_at u (mkIndices 0 0 0) with
        | Err e => Err (kind_of_build_error e)
        | Ok tx =>
            and_then (start_db u spec) (λ db,
            and_then (external_envs_for u) (λ envs,
            let '(db, exec_result) := transact_commit cfg block envs tx db in
            let validation := compute_test_roots exec_result (prune_base_fee_vault_changes db) in
            match exec_result with
            | Ok r => Ok (r, validation)
            | Err _ => Err FixtureErrorKind
            end))
        end
  end.

Definition execute_unit_collect (u : TestUnit) (spec_name : SpecName)
    : panics (result ExecutedUnit TestErrorKind) :=
  res ← run_unit_once u spec_name;
  Some (and_then res (λ '(r, validation),
    Ok (mkExecuted (state_root validation) (logs_root validation) (result_gas_used r)
          (execution_status r) (halt_reason r) (result_output r)))).

(** [Test::for_dump]. *)
Definition for_dump (hash logs gas : Z) (status : str) : Test :=
  mkTest None (mkIndices 0 0 0) hash logs (Some gas) (Some status).

(** The unit with the expectation that was computed. *)
Definition record_post (spec : SpecName) (x : ExecutedUnit) (u : TestUnit) : TestUnit :=
  mkUnit (u_env u) (u_pre u)
    [(spec, [for_dump (xu_state_root x) (xu_logs_root x) (xu_gas_used x) (xu_status x)])]
    (u_transaction u) (xu_output x) (u_mega_env u).

(** The spec of a unit: the override, or that of its only entry. *)
Definition fill_spec (spec_override : option SpecName) (u : TestUnit) : option SpecName :=
  match spec_override with
  | Some s => Some s
  | None => match u_post u with [(s, _)] => Some s | _ => None end
  end.

Definition fill_unit (spec_override : option SpecName) (force : bool) (u : TestUnit)
    : panics (result TestUnit TestErrorKind) :=
  if negb force && existsb (λ e : SpecName * list Test, negb (is_empty e.2)) (u_post u)
  then Some (Err FixtureErrorKind)
  else
    match fill_spec spec_override u with
    | None => Some (Err FixtureErrorKind)
    | Some spec =>
        if bool_decide (spec = Specs.Unknown) || bool_decide (spec = Specs.Constantinople)
        then Some (Err FixtureErrorKind)
        else
          res ← execute_unit_collect u spec;
          Some (match res with Ok x => Ok (record_post spec x u) | Err _ => Err FixtureErrorKind end)
    end.

Fixpoint fill_units (spec_override : option SpecName) (force : bool) (suite : TestSuite)
    : panics (result TestSuite TestErrorKind) :=
  match suite with
  | [] => Some (Ok [])
  | (name, u) :: suite =>
      r ← fill_unit spec_override force u;
      match r with
      | Err k => Some (Err k)
      | Ok u =>
          rest ← fill_units spec_override force suite;
          Some (and_then rest (λ l, Ok ((name, u) :: l)))
      end
  end.

(** [fill_test_suite], up to the writing of the file. *)
Definition fill_test_suite (file_name : option string) (file : option (option TestSuite))
    (spec_override : option SpecName) (force : bool) : panics (result TestSuite TestErrorKind) :=
  if skip_test file_name then Some (Err FixtureErrorKind)
  else
    match file with
    | None => Some (Err FixtureErrorKind)
    | Some None => Some (Err SerdeDeserialize)
    | Some (Some suite) => fill_units spec_override force suite
    end.
End run.

(** * Parallel runs *)

Record TestRunnerConfig : Type := mkRunnerConfig {
  rc_single_thread : bool;
  rc_trace : bool;
  rc_print_outcome : bool;
  rc_keep_going : bool;
}.

Definition runner_config_new (single_thread trace print_outcome keep_going : bool) : TestRunnerConfig :=
  let print_outcome := print_outcome || trace in
  let single_thread := single_thread || print_outcome in
  mkRunnerConfig single_thread trace print_outcome keep_going.

(** [available_parallelism] is [None] when it fails, and not zero. *)
Definition determine_thread_count (single_thread : bool) (parallelism : option nat) (n_files : nat) : nat :=
  match single_thread, parallelism with
  | true, _ | false, None => 1
  | false, Some n => Nat.min n n_files
  end.

(** What the workers share: the number of errors, and the next position in the queue. *)
Record RunnerShared : Type := mkShared {
  n_errors : nat;
  current_idx : nat;
}.

(** Where a worker is in its loop: before it looks at the errors, before it takes a file, while it
    executes one, before it counts a failure, after it returned, or after it panicked. *)
Inductive Worker (E : Type) : Type :=
  | Checking
  | Picking
  | Running (i : nat)
  | Failing (e : E)
  | Returned (r : result unit E)
  | Panicked.
Arguments Checking {E}.
Arguments Picking {E}.
Arguments Running {E} _.
Arguments Failing {E} _.
Arguments Returned {E} _.
Arguments Panicked {E}.

Section workers.
Context {P E : Type}.
(** The files, and [execute_test_suite] on one of them. *)
Context (files : list P) (execute : P → panics (result unit E)) (keep_going : bool).
Implicit Types (s : RunnerShared) (w : Worker E).

(** [next_test]. *)
Definition next_test s : option (nat * RunnerShared) :=
  if (current_idx s <? length files)%nat
  then Some (current_idx s, mkShared (n_errors s) (S (current_idx s))) else None.

(** [run_test_worker], one access to the shared state at a time; [None] when it is over. *)
Definition worker_step w s : option (Worker E * RunnerShared) :=
  match w with
  | Checking =>
      if negb keep_going && (0 <? n_errors s)%nat then Some (Returned (Ok tt), s)
      else Some (Picking, s)
  | Picking =>
      match next_test s with
      | None => Some (Returned (Ok tt), s)
      | Some (i, s) => Some (Running i, s)
      end
  | Running i =>
      match files !! i ≫= execute with
      | Some (Ok _) => Some (Checking, s)
      | Some (Err e) => Some (Failing e, s)
      | None => Some (Panicked, s)
      end
  | Failing e =>
      let s := mkShared (S (n_errors s)) (current_idx s) in
      if keep_going then Some (Checking, s) else Some (Returned (Err e), s)
  | Returned _ | Panicked => None
  end.

(** The threads are scheduled in any order. *)
Inductive runner_step : list (Worker E) * RunnerShared → list (Worker E) * RunnerShared → Prop :=
  | runner_step_at before w after s w' s' :
      worker_step w s = Some (w', s') →
      runner_step (before ++ w :: after, s) (before ++ w' :: after, s').

Definition runner_start (single_thread : bool) (parallelism : option nat)
    : list (Worker E) * RunnerShared :=
  (replicate (determine_thread_count single_thread parallelism (length files)) Checking,
   mkShared 0 0).

(** The errors of the threads, in their order; [panic] is the error of one that panicked. *)
Definition thread_errors (panic : E) (ws : list (Worker E)) : list E :=
  omap (λ w, match w with
             | Returned (Err e) => Some e
             | Panicked => Some panic
             | _ => None
             end) ws.

(** The end of [run], when every thread is joined. *)
Definition runner_result (panic : E) (summary : nat → nat → E) (ws : list (Worker E)) s
    : result unit E :=
  match thread_errors panic ws with
  | [] => if (n_errors s =? 0)%nat then Ok tt else Err (summary (n_errors s) (length files))
  | e :: _ => Err e
  end.
End workers.
