(* ===== verification/StateTestFacts.v ===== *)
(** What the state test runner promises: an expectation that was recorded is met when the unit runs
    again, and the parallel run passes exactly when every file does. *)

From S2P Require Import Prelude Spec Revm CliInput CliTx CliTxFacts MemoryEnvs StateTest.

Lemma spec_name_roundtrip s : to_spec_id (from_mega_spec s) = Some s ∧ from_mega_spec s ≠ Specs.Unknown.
Proof. by destruct s. Qed.

Section record.
Context `{HT : TestRun}.
Implicit Types u : TestUnit.

Lemma try_each_ok {A E} (f : A → panics (result unit E)) l :
  (∀ x, x ∈ l → f x = Some (Ok tt)) → try_each f l = Some (Ok tt).
Proof.
  induction l as [|x l IH]; intros H; [done|]. simpl. rewrite (H x (list_elem_of_here _ _)).
  apply IH. intros y Hy. apply H. by apply list_elem_of_further.
Qed.

(** What the recorded expectation leaves alone is all that the execution reads. *)
Lemma record_reads spec x u :
  tx_env_at (record_post spec x u) (mkIndices 0 0 0) = tx_env_at u (mkIndices 0 0 0) ∧
  (∀ cfg, unit_block_env (record_post spec x u) cfg = unit_block_env u cfg) ∧
  (∀ s, start_db (record_post spec x u) s = start_db u s) ∧
  external_envs_for (record_post spec x u) = external_envs_for u.
Proof. done. Qed.

(** An execution meets the expectation made of it. *)
Lemma check_recorded r db :
  let v := compute_test_roots (Ok r) db in
  check_evm_execution
    (for_dump (state_root v) (logs_root v) (result_gas_used r) (execution_status r))
    (result_output r) (Ok r) db = Ok tt.
Proof.
  unfold check_evm_execution. simpl.
  assert (validate_output (result_output r) r = Ok tt) as ->.
  { unfold validate_output. destruct (result_output r); [|done]. by rewrite bool_decide_eq_true_2. }
  unfold validate_mega_expectations. simpl. rewrite Z.eqb_refl. simpl.
  rewrite bool_decide_eq_true_2 by done. simpl. by rewrite !Z.eqb_refl.
Qed.

(** A unit whose expectation was recorded passes. *)
Lemma recorded_unit_passes spec x u name :
  execute_unit_collect u spec = Some (Ok x) →
  run_unit false (name, record_post spec x u) = Some (Ok tt).
Proof.
  unfold execute_unit_collect, run_unit_once. intros H.
  destruct (resolve_test_chain_id (u_env u)) as [chain|] eqn:Hc; [|done].
  destruct (to_spec_id spec) as [s|] eqn:Hs; [|done].
  destruct (unit_block_env u _) as [block|] eqn:Hb; [|done]. cbn in H.
  destruct (tx_env_at u _) as [tx|] eqn:Htx; [|done].
  destruct (start_db u s) as [db|] eqn:Hdb; [|done]. cbn in H.
  destruct (external_envs_for u) as [envs|] eqn:He; [|done]. cbn in H.
  destruct (transact_commit _ block envs tx db) as [db' res] eqn:Hr.
  destruct res as [r|]; [|done]. cbn in H. injection H as <-.
  unfold run_unit. cbn [u_env record_post]. rewrite Hc. cbn [u_post record_post try_each run_spec].
  rewrite Hs. case_bool_decide; [done|].
  change (unit_block_env (record_post spec ?x u)) with (unit_block_env u). rewrite Hb.
  cbn [mbind option_bind try_each]. unfold run_test, test_tx_env.
  cbn [indexes for_dump]. change (tx_env_at (record_post spec ?x u)) with (tx_env_at u).
  cbn [xu_state_root xu_logs_root xu_gas_used xu_status]. rewrite Htx.
  unfold execute_single_test. cbn [tc_spec].
  change (start_db (record_post spec ?x u)) with (start_db u).
  change (external_envs_for (record_post spec ?x u)) with (external_envs_for u).
  rewrite Hdb. cbn [and_then]. rewrite He. cbn [and_then]. rewrite Hr.
  cbn [u_out record_post xu_output].
  match goal with |- context [check_evm_execution ?a ?b ?c ?d] =>
    assert (check_evm_execution a b c d = Ok tt) as -> by exact (check_recorded r _)
  end. done.
Qed.

(** A suite that was filled passes, whatever it expected before. *)
Lemma filled_suite_passes file_name file spec_override force suite :
  fill_test_suite file_name file spec_override force = Some (Ok suite) →
  execute_test_suite file_name (Some (Some suite)) false = Some (Ok tt).
Proof.
  unfold fill_test_suite, execute_test_suite. destruct (skip_test file_name); [done|].
  destruct file as [[l|]|]; try done. revert suite; induction l as [|[name u] l IH]; intros suite H;
    simpl in H; [by injection H as <-|].
  destruct (fill_unit spec_override force u) as [[u'|]|] eqn:Hu; try done. simpl in H.
  destruct (fill_units spec_override force l) as [[rest|]|] eqn:Hl; try done. simpl in H.
  injection H as <-. unfold fill_unit in Hu. destruct (_ && _) in Hu; [done|].
  destruct (fill_spec spec_override u) as [spec|]; [|done].
  destruct (_ || _) in Hu; [done|].
  destruct (execute_unit_collect u spec) as [[x|]|] eqn:Hx; try done. injection Hu as <-.
  cbn [try_each]. rewrite (recorded_unit_passes _ _ _ name Hx). cbn [mbind option_bind]. by apply IH.
Qed.
End record.

(** * Parallel runs *)

(** A run of [TestRunnerState] by its workers: a step is one access to the shared state.  [files] is
    the queue, and a file passes or fails whoever executes it. *)
Section parallel.
Context {P E : Type} (files : list P) (execute : P → panics (result unit E)) (keep_going : bool).
Implicit Types (s : RunnerShared) (w : Worker E) (ws : list (Worker E)).

#[local] Abbreviation step := (worker_step files execute keep_going).
#[local] Abbreviation rstep := (runner_step files execute keep_going).

Definition passes (f : P) : bool :=
  match execute f with Some (Ok _) => true | _ => false end.

(** ** Termination *)

Definition rank w : nat :=
  match w with Running _ => 5 | Failing _ => 4 | Checking => 3 | Picking => 2 | _ => 0 end.

Definition work (c : list (Worker E) * RunnerShared) : nat :=
  (4 * (length files - current_idx c.2) + sum_list_with rank c.1)%nat.

Lemma step_works w s w' s' :
  step w s = Some (w', s') →
  (4 * (length files - current_idx s') + rank w' < 4 * (length files - current_idx s) + rank w)%nat.
Proof.
  destruct w; simpl; unfold next_test; intros H; repeat case_match; simplify_eq/=; try lia;
    match goal with H : (_ <? _)%nat = true |- _ => apply Nat.ltb_lt in H; lia end.
Qed.

Lemma runner_step_works c c' : rstep c c' → (work c' < work c)%nat.
Proof.
  intros [before w after s w' s' H]. apply step_works in H. unfold work. simpl.
  rewrite !sum_list_with_app. simpl. lia.
Qed.

(** Every schedule ends: a run of [n] steps starts with [n] units of work. *)
Lemma runner_terminates n c c' : nsteps rstep n c c' → (n ≤ work c)%nat.
Proof.
  intros H. induction H as [|n c1 c2 c3 Hs _ IH]; [lia|]. apply runner_step_works in Hs. lia.
Qed.

(** A thread that is not over can be scheduled. *)
Definition over w : bool := match w with Returned _ | Panicked => true | _ => false end.

Lemma runner_progress ws s : (∃ w, w ∈ ws ∧ over w = false) → ∃ c, rstep (ws, s) c.
Proof.
  intros (w & Hw & Ho). apply list_elem_of_split in Hw as (before & after & ->).
  destruct (step w s) as [[w' s']|] eqn:H; [eexists; by econstructor|].
  destruct w; simpl in *; repeat case_match; done.
Qed.

(** ** Correctness *)

Definition bad_file : Prop := ∃ f, f ∈ files ∧ passes f = false.

(** A worker that holds or reports the failure of a file. *)
Definition holds_failure (i : nat) w : Prop :=
  match w with
  | Running j => j = i
  | Failing _ | Panicked | Returned (Err _) => True
  | _ => False
  end.

Record runner_inv (c : list (Worker E) * RunnerShared) : Prop := mkRunnerInv {
  inv_taken : ∀ i f, files !! i = Some f → passes f = false → (i < current_idx c.2)%nat →
    (0 < n_errors c.2)%nat ∨ ∃ w, w ∈ c.1 ∧ holds_failure i w;
  inv_counted : (0 < n_errors c.2)%nat → bad_file;
  inv_worker : ∀ w, w ∈ c.1 →
    match w with
    | Failing _ | Panicked => bad_file
    | Returned (Err _) => keep_going = false ∧ bad_file
    | Returned (Ok _) =>
        current_idx c.2 = length files ∨ keep_going = false ∧ (0 < n_errors c.2)%nat
    | Running i => (i < current_idx c.2)%nat
    | _ => True
    end;
  inv_index : (current_idx c.2 ≤ length files)%nat;
}.

(** What a step must show: the new worker is accounted for, what the old one held is passed on, and
    the counters only grow. *)
Lemma inv_replace before w after s w' s' :
  runner_inv (before ++ w :: after, s) →
  (n_errors s ≤ n_errors s')%nat → (current_idx s ≤ current_idx s' ≤ length files)%nat →
  (∀ i f, files !! i = Some f → passes f = false → (i < current_idx s')%nat →
     ((current_idx s ≤ i)%nat ∨ holds_failure i w) → (0 < n_errors s')%nat ∨ holds_failure i w') →
  ((0 < n_errors s')%nat → bad_file) →
  match w' with
  | Failing _ | Panicked => bad_file
  | Returned (Err _) => keep_going = false ∧ bad_file
  | Returned (Ok _) => current_idx s' = length files ∨ keep_going = false ∧ (0 < n_errors s')%nat
  | Running i => (i < current_idx s')%nat
  | _ => True
  end →
  runner_inv (before ++ w' :: after, s').
Proof.
  intros [Ht Hc Hw Hi] Hn Hx Hpass Hbad Hnew. split; simpl in *.
  - intros i f Hf Hp Hlt. destruct (decide (i < current_idx s)%nat) as [Hold|Hold].
    + destruct (Ht _ _ Hf Hp Hold) as [|(w0 & Hw0 & Hh)]; [left; lia|].
      apply elem_of_app in Hw0 as [Hb|[->|Ha]%elem_of_cons].
      * right. exists w0. split; [|done]. apply elem_of_app. by left.
      * destruct (Hpass _ _ Hf Hp Hlt (or_intror Hh)); [by left|]. right. exists w'. split; [|done].
        apply elem_of_app. right. apply list_elem_of_here.
      * right. exists w0. split; [|done]. apply elem_of_app. right. by apply list_elem_of_further.
    + destruct (Hpass _ _ Hf Hp Hlt) as [|Hh]; [left; lia|by left|]. right. exists w'. split; [|done].
      apply elem_of_app. right. apply list_elem_of_here.
  - done.
  - intros w0 Hw0. apply elem_of_app in Hw0 as [Hb|[->|Ha]%elem_of_cons]; [|done|].
    + assert (Hin : w0 ∈ before ++ w :: after) by (apply elem_of_app; by left).
      specialize (Hw _ Hin). destruct w0 as [| | | |[|]|]; try done; [lia|]. destruct Hw as [|[]]; [left|right; split]; done || lia.
    + assert (Hin : w0 ∈ before ++ w :: after)
        by (apply elem_of_app; right; by apply list_elem_of_further).
      specialize (Hw _ Hin). destruct w0 as [| | | |[|]|]; try done; [lia|]. destruct Hw as [|[]]; [left|right; split]; done || lia.
  - lia.
Qed.

Ltac replace_worker :=
  eapply inv_replace; simpl; eauto with lia; try lia; try (intros ? ? ? ? ? [?|[]]; lia).

Lemma runner_step_inv c c' : rstep c c' → runner_inv c → runner_inv c'.
Proof.
  intros [before w after s w' s' Hs] Hinv.
  pose proof (inv_index _ Hinv) as Hi. pose proof (inv_counted _ Hinv) as Hc.
  assert (Hw := inv_worker _ Hinv w ltac:(apply elem_of_app; right; apply list_elem_of_here)).
  simpl in *. destruct w as [| |i|e|r|]; simpl in Hs.
  - (* Checking *)
    destruct (negb keep_going && (0 <? n_errors s)%nat) eqn:Hk; simplify_eq.
    + apply andb_true_iff in Hk as [Hk%negb_true_iff Hn%Nat.ltb_lt]. replace_worker.
    + replace_worker.
  - (* Picking *)
    unfold next_test in Hs. destruct (Nat.ltb_spec (current_idx s) (length files)); simplify_eq.
    + replace_worker.
    + replace_worker.
  - (* Running *)
    destruct (files !! i) as [f|] eqn:Hf; [|apply lookup_ge_None_1 in Hf; simpl in Hw; lia]. simpl in Hs.
    assert (Hb : execute f ≠ Some (Ok tt) → bad_file).
    { intros Hne. exists f. split; [by eapply list_elem_of_lookup_2|]. unfold passes.
      destruct (execute f) as [[[]|]|]; done. }
    destruct (execute f) as [[[]|e]|] eqn:He; simplify_eq.
    + replace_worker. intros j g Hg Hp Hlt [|<-]; [lia|]. rewrite Hf in Hg. injection Hg as <-.
      unfold passes in Hp. by rewrite He in Hp.
    + replace_worker.
    + replace_worker.
  - (* Failing *)
    destruct keep_going eqn:Hk; simplify_eq; replace_worker.
  - done.
  - done.
Qed.

Lemma runner_start_inv single_thread parallelism :
  runner_inv (runner_start files single_thread parallelism).
Proof.
  split; simpl; try lia. intros w Hw. apply elem_of_replicate in Hw as [-> _]. done.
Qed.

Lemma runner_reachable_inv single_thread parallelism c :
  rtc rstep (runner_start files single_thread parallelism) c → runner_inv c.
Proof.
  intros H. pose proof (runner_start_inv single_thread parallelism) as H0.
  induction H as [|c1 c2 c3 Hs _ IH]; [done|]. apply IH. by eapply runner_step_inv.
Qed.

(** ** Counting *)

Definition fails (f : P) : nat := if passes f then 0 else 1.

(** The failures a worker has taken and not yet counted. *)
Definition uncounted w : nat :=
  match w with
  | Running i => match files !! i with Some f => fails f | None => 0 end
  | Failing _ | Panicked => 1
  | _ => 0
  end.

Definition counted (c : list (Worker E) * RunnerShared) : Prop :=
  (n_errors c.2 + sum_list_with uncounted c.1 = sum_list_with fails (take (current_idx c.2) files))%nat.

Lemma step_counted w s w' s' :
  keep_going = true → (match w with Running i => i < length files | _ => True end)%nat →
  step w s = Some (w', s') →
  (n_errors s' + uncounted w' + sum_list_with fails (take (current_idx s) files) =
   n_errors s + uncounted w + sum_list_with fails (take (current_idx s') files))%nat.
Proof.
  intros Hk Hr. destruct w as [| |i|e|r|]; simpl; unfold next_test; rewrite ?Hk; simpl;
    intros H; simplify_eq/=; try lia.
  - destruct (Nat.ltb_spec (current_idx s) (length files)) as [Hlt|]; simplify_eq/=; [|lia].
    destruct (lookup_lt_is_Some_2 _ _ Hlt) as [f Hf]. rewrite Hf.
    rewrite (take_S_r _ _ _ Hf), sum_list_with_app. simpl. lia.
  - destruct (lookup_lt_is_Some_2 _ _ Hr) as [f Hf]. rewrite Hf in *. simpl in H. unfold fails, passes.
    destruct (execute f) as [[[]|]|]; simplify_eq/=; lia.
Qed.

Lemma runner_counted single_thread parallelism c :
  keep_going = true → rtc rstep (runner_start files single_thread parallelism) c → counted c.
Proof.
  intros Hk H. pose proof (runner_start_inv single_thread parallelism) as Hinv.
  assert (H0 : counted (runner_start files single_thread parallelism)).
  { unfold counted, runner_start. simpl. by induction (determine_thread_count _ _ _). }
  induction H as [|c1 c2 c3 Hs _ IH]; [done|]. apply IH; [by eapply runner_step_inv|].
  destruct Hs as [before w after s w' s' Hs]. unfold counted in *. simpl in *.
  rewrite !sum_list_with_app in *. simpl in *.
  pose proof (inv_index _ Hinv) as Hi.
  assert (Hw := inv_worker _ Hinv w ltac:(apply elem_of_app; right; apply list_elem_of_here)).
  eapply step_counted in Hs; [lia|done|]. simpl in *. destruct w; lia || done.
Qed.

(** A thread without an error. *)
Definition quiet w : Prop := match w with Panicked | Returned (Err _) => False | _ => True end.

Lemma thread_errors_nil panic ws : thread_errors panic ws = [] ↔ Forall quiet ws.
Proof.
  induction ws as [|w ws IH]; [done|]. rewrite Forall_cons, <- IH.
  destruct w as [| | | |[|]|]; simpl; split; try tauto; try discriminate; by intros [[] _].
Qed.

(** What a run that is over reports. *)
Lemma runner_result_ok panic summary ws s :
  runner_result files panic summary ws s = Ok tt ↔ Forall quiet ws ∧ n_errors s = 0%nat.
Proof.
  rewrite <- (thread_errors_nil panic). unfold runner_result.
  destruct (thread_errors panic ws); [|naive_solver].
  destruct (Nat.eqb_spec (n_errors s) 0); naive_solver.
Qed.

(** A run that is over has taken every file, or seen a failure. *)
Lemma over_takes_all single_thread parallelism ws s :
  (∀ n, parallelism = Some n → (0 < n)%nat) →
  rtc rstep (runner_start files single_thread parallelism) (ws, s) →
  (∀ w, w ∈ ws → over w = true) → Panicked ∉ ws → keep_going = true ∨ Forall quiet ws ∧ n_errors s = 0%nat →
  current_idx s = length files.
Proof.
  intros Hp H Ho Hpan Hq. pose proof (runner_reachable_inv _ _ _ H) as Hinv.
  assert (Hlen : length ws = determine_thread_count single_thread parallelism (length files)).
  { clear -H. remember (runner_start files single_thread parallelism) as c0 eqn:E0.
    remember (ws, s) as c eqn:Ec. assert (Hc : length c.1 = length c0.1).
    { clear -H. induction H as [|c1 c2 c3 Hs _ IH]; [done|]. rewrite IH. destruct Hs. simpl.
      by rewrite !length_app. }
    subst. simpl in Hc. by rewrite length_replicate in Hc. }
  destruct ws as [|w ws].
  - simpl in Hlen. pose proof (inv_index _ Hinv) as Hi. simpl in Hi.
    unfold determine_thread_count in Hlen. destruct single_thread, parallelism as [n|]; try done.
    specialize (Hp n eq_refl). lia.
  - pose proof (inv_worker _ Hinv w (list_elem_of_here _ _)) as Hw. simpl in Hw.
    specialize (Ho w (list_elem_of_here _ _)). rewrite Forall_cons in Hq.
    destruct w as [| | | |[|]|]; try done.
    + destruct Hw as [|[Hk Hn]]; [done|]. destruct Hq as [|[_ ?]]; [congruence|lia].
    + destruct Hw as [Hk _]. destruct Hq as [|[[[] _] _]]. congruence.
    + destruct Hpan. apply list_elem_of_here.
Qed.

(** A run that is over succeeds exactly when every file passes. *)
Lemma runner_ok_exact single_thread parallelism panic summary ws s :
  (∀ n, parallelism = Some n → (0 < n)%nat) →
  rtc rstep (runner_start files single_thread parallelism) (ws, s) →
  (∀ w, w ∈ ws → over w = true) →
  runner_result files panic summary ws s = Ok tt ↔ ∀ f, f ∈ files → passes f = true.
Proof.
  intros Hp H Ho. pose proof (runner_reachable_inv _ _ _ H) as Hinv. rewrite runner_result_ok. split.
  - intros [Hq Hn] f Hf. apply list_elem_of_lookup in Hf as [i Hi].
    destruct (passes f) eqn:Hpf; [done|].
    assert (Hx : current_idx s = length files).
    { eapply over_takes_all; eauto. intros Hin. rewrite Forall_forall in Hq. by apply Hq in Hin. }
    destruct (inv_taken _ Hinv i f Hi Hpf) as [|(w & Hw & Hh)]; simpl in *;
      [rewrite Hx; by eapply lookup_lt_Some|lia|].
    rewrite Forall_forall in Hq. specialize (Hq w Hw). specialize (Ho w Hw).
    by destruct w as [| | | |[|]|].
  - intros Hall. assert (Hb : ¬ bad_file) by (intros (f & Hf & He); rewrite Hall in He; done).
    split; [|destruct (n_errors s) eqn:En; [done|]; destruct Hb; apply (inv_counted _ Hinv); simpl; lia].
    apply Forall_forall. intros w Hw. pose proof (inv_worker _ Hinv w Hw).
    destruct w as [| | | |[|]|]; simpl in *; tauto.
Qed.

(** Some schedule ends. *)
Lemma runner_ends c :
  ∃ ws s, rtc rstep c (ws, s) ∧ ∀ w, w ∈ ws → over w = true.
Proof.
  remember (work c) as n eqn:Hn. revert c Hn. induction (lt_wf n) as [n _ IH]. intros [ws s] ->.
  destruct (decide (Exists (λ w, over w = false) ws)) as [Hx|Hx].
  - apply Exists_exists in Hx as (w & Hw & Ho).
    destruct (runner_progress ws s) as [c Hc]; [by exists w|].
    destruct (IH _ (runner_step_works _ _ Hc) c eq_refl) as (ws' & s' & Hr & Hd).
    exists ws', s'. split; [|done]. by eapply rtc_l.
  - exists ws, s. split; [apply rtc_refl|]. intros w Hw. destruct (over w) eqn:Ho; [done|].
    destruct Hx. apply Exists_exists. by exists w.
Qed.

(** ** The run *)

(** C17: a parallel run of state tests is exact under every schedule.  However the threads
    interleave, the run ends after a bounded number of steps, and until every thread is over one of
    them can go on; it reports success exactly when every file passes, also when it stops at the
    first failure; and when it keeps going and no thread panicked, it has counted every file that
    fails. *)
Theorem parallel_run_exact single_thread parallelism panic summary :
  (∀ n, parallelism = Some n → (0 < n)%nat) →
  let start := runner_start files single_thread parallelism in
  (∀ n c, nsteps rstep n start c →
     (n ≤ 4 * length files + 3 * length start.1)%nat ∧
     ((∃ w, w ∈ c.1 ∧ over w = false) → ∃ c', rstep c c')) ∧
  ∀ ws s, rtc rstep start (ws, s) → (∀ w, w ∈ ws → over w = true) →
    (runner_result files panic summary ws s = Ok tt ↔ ∀ f, f ∈ files → passes f = true) ∧
    (keep_going = true → Panicked ∉ ws → n_errors s = sum_list_with fails files).
Proof.
  intros Hp start. split.
  - intros n c Hn. split.
    + apply runner_terminates in Hn. unfold work in Hn.
      assert (Hr : (sum_list_with rank start.1 = 3 * length start.1)%nat).
      { unfold start, runner_start. simpl. induction (determine_thread_count _ _ _); simpl in *; lia. }
      rewrite Hr in Hn. change (current_idx start.2) with 0%nat in Hn. lia.
    + destruct c as [ws s]. apply runner_progress.
  - intros ws s H Ho. split.
    + by eapply runner_ok_exact.
    + intros Hk Hpan. pose proof (runner_counted _ _ _ Hk H) as Hc. unfold counted in Hc. simpl in Hc.
      rewrite (over_takes_all _ _ _ _ Hp H Ho Hpan (or_introl Hk)), firstn_all in Hc.
      assert (sum_list_with uncounted ws = 0%nat); [|lia].
      clear -Ho Hpan. induction ws as [|w ws IH]; [done|]. simpl.
      apply not_elem_of_cons in Hpan as [Hw Hpan]. specialize (Ho w (list_elem_of_here _ _)) as How.
      rewrite IH; [|intros; apply Ho; by apply list_elem_of_further|done].
      by destruct w.
Qed.
End parallel.

(** * A reference run *)

Module reference.
Definition ref_files : list Z := [0; 1].
Definition ref_execute (f : Z) : panics (result unit Z) := Some (if f =? 1 then Err 7 else Ok tt).

Ltac next_step := eapply rtc_l; [by apply (runner_step_at _ _ _ [] _ [])|].

Lemma parallel_run_exact_witness :
  let step := runner_step ref_files ref_execute true in
  let start := runner_start (E := Z) ref_files true None in
  let over_state := ([Returned (Ok tt)], mkShared 1 2) in
  rtc step start over_state ∧
  runner_result ref_files 0 (λ failed total, Z.of_nat failed) [Returned (Ok tt)] (mkShared 1 2) = Err 1 ∧
  n_errors (mkShared 1 2) = sum_list_with (fails ref_execute) ref_files ∧
  (∀ n c, nsteps step n start c → (n ≤ 11)%nat).
Proof.
  intros step start over_state.
  assert (Hrun : rtc step start over_state) by (do 9 next_step; apply rtc_refl).
  assert (Hp : ∀ n, None = Some n → (0 < n)%nat) by done.
  destruct (parallel_run_exact ref_files ref_execute true true None 0
              (λ failed total, Z.of_nat failed) Hp) as [Hn Hr].
  destruct (Hr [Returned (Ok tt)] (mkShared 1 2) Hrun) as [_ Hc].
  { intros w Hw. apply list_elem_of_singleton in Hw as ->. done. }
  split_and!; [done|done| |].
  - apply Hc; [done|]. intros Hin. by apply list_elem_of_singleton in Hin.
  - intros n c Hs. by apply Hn in Hs as [Hle _].
Defined.
End reference.
