(* ===== verification/CliFixture.v ===== *)
(** Fixtures dumped by a replay: [bin/mega-evme/src/replay/fixture.rs].

    A draft is built from the state before the target transaction; before it is written it is
    executed on its own by the runner of state tests, and must reproduce the replay. *)

From S2P Require Import Prelude Spec Revm SystemContracts CliInput CliTx CliTxFacts MemoryEnvs CliRpc.
From S2P Require Import StateTest StateTestFacts.

(** What is read of the target transaction's envelope. *)
Record TargetTx : Type := mkTargetTx {
  tg_ty : Z;
  tg_signer : Address;
  tg_gas_price : option Z;
  tg_max_fee_per_gas : Z;
  tg_max_priority_fee_per_gas : option Z;
  tg_input : Bytes;
  tg_gas_limit : Z;
  tg_nonce : Z;
  tg_to : option Address;
  tg_value : U256;
  tg_access_list : option (list AccessListItem);
  tg_blob_versioned_hashes : option (list Z);
  tg_max_fee_per_blob_gas : option Z;
}.

Record OnchainAnchor : Type := mkAnchor {
  an_gas_used : Z;
  an_success : bool;
  an_logs_root : Z;
}.

Definition DEPOSIT_TX_TYPE : Z := 0x7e.
Definition EIP7702_TX_TYPE : Z := 0x04.

Section fixture.
Context `{HT : TestRun} `{HB : BytecodeOps}.
(** [DatabaseRef]: [None] is an error. *)
Context {D : Type} (db_basic_ref : Address → D → option (option AccountInfo)).
Context (db_code_by_hash_ref : Z → D → option Bytecode).

Record FixtureInputs : Type := mkInputs {
  fi_mega_env : MegaEnv;
  fi_result : TestResult TestLog;
  fi_anchor : OnchainAnchor;
}.

Record FixtureDraft : Type := mkDraft {
  dr_unit : TestUnit;
  dr_spec : SpecName;
  dr_actual_gas : Z;
  dr_actual_status : str;
  dr_actual_halt_reason : option str;
  dr_actual_output : option Bytes;
  dr_actual_logs_root : Z;
  dr_name : str;
}.

Definition resolve_code (db : D) (code_hash : Z) (code : option Bytecode) : result Bytes EvmeError :=
  match code with
  | Some bytecode => Ok (original_byte_slice bytecode)
  | None =>
      if code_hash =? KECCAK_EMPTY then Ok []
      else
        match db_code_by_hash_ref code_hash db with
        | Some bytecode => Ok (original_byte_slice bytecode)
        | None => Err Other
        end
  end.

(** The account before the transaction: [None] when the database has none. *)
Definition pre_account (db : D) (entry : Z * Account) : result (option (Z * TestAccount)) EvmeError :=
  let '(address, account) := entry in
  match db_basic_ref address db with
  | None => Err Other
  | Some None => Ok None
  | Some (Some i) =>
      and_then (resolve_code db (code_hash i) (code i)) (λ c,
      Ok (Some (address,
                mkTestAccount (balance i) c (nonce i)
                  (filter (λ kv : Z * U256, kv.2 ≠ 0) (slot_original <$> acc_storage account)))))
  end.

Definition build_pre_state (db : D) (evm_state : gmap Z Account)
    : result (gmap Z TestAccount) EvmeError :=
  and_then (try_map (pre_account db) (map_to_list evm_state)) (λ l,
  Ok (list_to_map (omap id l))).

Definition build_env (chain_id : Z) (h : Header) : Env :=
  mkEnv (Some chain_id) (hd_beneficiary h) (hd_difficulty h) (hd_gas_limit h) (hd_number h)
    (hd_timestamp h) (hd_base_fee_per_gas h) (hd_mix_hash h) (hd_excess_blob_gas h) None None None
    None.

Definition build_transaction (t : TargetTx) : result TransactionParts EvmeError :=
  and_then
    (if (tg_ty t =? 0) || (tg_ty t =? 1) then
       match tg_gas_price t with Some p => Ok (Some p, None) | None => Err Other end
     else Ok (None, Some (tg_max_fee_per_gas t))) (λ '(gas_price, max_fee_per_gas),
  Ok (mkParts (Some (tg_ty t)) [tg_input t] [tg_gas_limit t] gas_price (tg_nonce t) 0
        (Some (tg_signer t)) (tg_to t) [tg_value t] max_fee_per_gas (tg_max_priority_fee_per_gas t)
        [tg_access_list t] None (default [] (tg_blob_versioned_hashes t))
        (tg_max_fee_per_blob_gas t))).

(** [is_success]. *)
Definition succeeded (r : TestResult TestLog) : bool :=
  match r with TestSuccess _ _ _ => true | _ => false end.

(** [name] is the text [replay_0x..] of the transaction's hash. *)
Definition build_draft (db : D) (evm_state : gmap Z Account) (chain_id : Z) (spec : MegaSpecId)
    (h : Header) (t : TargetTx) (name : str) (inputs : FixtureInputs)
    : result FixtureDraft EvmeError :=
  let r := fi_result inputs in
  let anchor := fi_anchor inputs in
  let actual_logs_root := log_rlp_hash (result_logs r) in
  if tg_ty t =? DEPOSIT_TX_TYPE then Err Other
  else if tg_ty t =? EIP7702_TX_TYPE then Err Other
  else if negb (result_gas_used r =? an_gas_used anchor) then Err Other
  else if negb (Bool.eqb (succeeded r) (an_success anchor)) then Err Other
  else if negb (actual_logs_root =? an_logs_root anchor) then Err Other
  else
    and_then (build_pre_state db evm_state) (λ pre,
    and_then (build_transaction t) (λ transaction,
    let spec_name := from_mega_spec spec in
    if bool_decide (spec_name = Specs.Unknown) then Err Other
    else
      Ok (mkDraft
            (mkUnit (build_env chain_id h) pre [] transaction None (Some (fi_mega_env inputs)))
            spec_name (result_gas_used r) (execution_status r) (halt_reason r) (result_output r)
            actual_logs_root name))).

(** [finalize_and_write], up to the writing of the file: the suite that is written. *)
Definition finalize_and_write (d : FixtureDraft) : panics (result TestSuite EvmeError) :=
  res ← execute_unit_collect (dr_unit d) (dr_spec d);
  Some
    match res with
    | Err _ => Err Other
    | Ok executed =>
        if negb (xu_gas_used executed =? dr_actual_gas d) then Err Other
        else if negb (bool_decide (xu_status executed = dr_actual_status d)) then Err Other
        else if negb (bool_decide (xu_halt_reason executed = dr_actual_halt_reason d)) then Err Other
        else if negb (bool_decide (xu_output executed = dr_actual_output d)) then Err Other
        else if negb (xu_logs_root executed =? dr_actual_logs_root d) then Err Other
        else Ok [(dr_name d, record_post (dr_spec d) executed (dr_unit d))]
    end.

(** * What a dumped fixture is *)

(** The status of the fixture is [success] exactly when the transaction succeeded. *)
Lemma status_success r : execution_status r = str_of "success" ↔ succeeded r = true.
Proof. by destruct r. Qed.

(** C23: a dumped fixture validates itself and is anchored to the chain.  When a fixture is written,
    the runner of state tests passes on it; it is one unit with one expectation, under the spec the
    replay ran; and the gas, the logs root and the success it expects are those of the receipt on
    chain, the output that of the replay.  Deposits and EIP-7702 transactions are never dumped. *)
Theorem dumped_fixture_validates db evm_state chain_id spec h t name inputs draft suite file_name :
  build_draft db evm_state chain_id spec h t name inputs = Ok draft →
  finalize_and_write draft = Some (Ok suite) →
  execute_test_suite file_name (Some (Some suite)) false = Some (Ok tt) ∧
  tg_ty t ≠ DEPOSIT_TX_TYPE ∧ tg_ty t ≠ EIP7702_TX_TYPE ∧
  ∃ u e, suite = [(name, u)] ∧ u_post u = [(from_mega_spec spec, [e])] ∧
    to_spec_id (from_mega_spec spec) = Some spec ∧ expect_exception e = None ∧
    mega_gas_used e = Some (an_gas_used (fi_anchor inputs)) ∧
    test_logs e = an_logs_root (fi_anchor inputs) ∧
    (mega_status e = Some (str_of "success") ↔ an_success (fi_anchor inputs) = true) ∧
    u_out u = result_output (fi_result inputs).
Proof.
  unfold build_draft. rewrite !guard_ok. intros (Hd & H7 & Hg & Hs & Hl & H) Hf.
  apply and_then_ok in H as (pre & _ & H). apply and_then_ok in H as (tx & _ & H).
  apply guard_ok in H as [_ H]. injection H as <-.
  apply negb_false_iff, Z.eqb_eq in Hg. apply negb_false_iff, eqb_prop in Hs.
  apply negb_false_iff, Z.eqb_eq in Hl. apply Z.eqb_neq in Hd, H7.
  unfold finalize_and_write in Hf. simpl in Hf.
  destruct (execute_unit_collect _ _) as [[x|]|] eqn:Hx; try done. simpl in Hf. injection Hf as Hf.
  rewrite !guard_ok in Hf. destruct Hf as (Hg' & Hs' & _ & Ho & Hl' & Hf). injection Hf as <-.
  apply negb_false_iff, Z.eqb_eq in Hg'. apply negb_false_iff, bool_decide_eq_true in Hs'.
  apply negb_false_iff, bool_decide_eq_true in Ho. apply negb_false_iff, Z.eqb_eq in Hl'.
  split_and!; try done.
  - unfold execute_test_suite. destruct (skip_test file_name); [done|]. cbn [try_each].
    by rewrite (recorded_unit_passes _ _ _ name Hx).
  - eexists _, _. split_and!; [reflexivity|reflexivity|apply spec_name_roundtrip|done| | | |].
    + simpl. congruence.
    + simpl. congruence.
    + simpl. rewrite Hs', <- Hs, <- status_success. split; [by intros [= ->]|by intros ->].
    + done.
Qed.

Lemma pre_account_key db a account y :
  pre_account db (a, account) = Ok (Some y) → y.1 = a.
Proof.
  unfold pre_account. intros Hp. repeat case_match; simplify_eq.
  apply and_then_ok in Hp as (? & _ & Hp). by injection Hp as <-.
Qed.

Lemma pre_keys_subset db entries l k :
  Forall2 (λ x y, pre_account db x = Ok y) entries l → k ∈ (omap id l).*1 → k ∈ entries.*1.
Proof.
  induction 1 as [|[a account] y entries l Hx _ IH]; intros Hk; [by apply elem_of_nil in Hk|].
  simpl in *. apply elem_of_cons. destruct y as [y|]; simpl in Hk; [|right; by apply IH].
  apply pre_account_key in Hx as <-. apply elem_of_cons in Hk as [->|Hk]; [by left|right; by apply IH].
Qed.

Lemma pre_keys_nodup db entries l :
  NoDup entries.*1 → Forall2 (λ x y, pre_account db x = Ok y) entries l → NoDup (omap id l).*1.
Proof.
  intros Hn H. induction H as [|[a account] y entries l Hx H IH]; [constructor|]. simpl in *.
  apply NoDup_cons in Hn as [Ha Hn]. destruct y as [y|]; simpl; [|by apply IH].
  apply pre_account_key in Hx as <-. apply NoDup_cons. split; [|by apply IH].
  intros Hk. apply Ha. by eapply pre_keys_subset.
Qed.

(** The pre-state covers the transaction: every account that it touched and that existed is there
    with its balance, nonce and code, and the values its slots had. *)
Lemma pre_state_covers db evm_state pre a account i :
  build_pre_state db evm_state = Ok pre → evm_state !! a = Some account →
  db_basic_ref a db = Some (Some i) →
  ∃ acc, pre !! a = Some acc ∧ tac_balance acc = balance i ∧ tac_nonce acc = nonce i ∧
    resolve_code db (code_hash i) (code i) = Ok (tac_code acc) ∧
    ∀ k slot, acc_storage account !! k = Some slot →
      default 0 (tac_storage acc !! k) = slot_original slot.
Proof.
  unfold build_pre_state. intros H Ha Hi. apply and_then_ok in H as (l & Hl & H). injection H as <-.
  apply try_map_inv in Hl. apply elem_of_map_to_list in Ha.
  apply list_elem_of_lookup in Ha as [n Hn].
  destruct (Forall2_lookup_l _ _ _ _ _ Hl Hn) as (y & Hy & He). unfold pre_account in He.
  rewrite Hi in He. apply and_then_ok in He as (c & Hc & He). injection He as <-.
  eexists (mkTestAccount _ c _ _). split_and!; [|reflexivity|reflexivity|exact Hc|].
  - apply elem_of_list_to_map_1.
    + apply (pre_keys_nodup db (map_to_list evm_state)); [apply NoDup_fst_map_to_list|done].
    + apply list_elem_of_omap. eexists. split; [by eapply list_elem_of_lookup_2|reflexivity].
  - intros k slot Hk. simpl. destruct (decide (slot_original slot = 0)) as [H0|Hne].
    + rewrite (proj2 (map_lookup_filter_None _ _ _)); [by rewrite H0|]. right. intros v Hv.
      rewrite lookup_fmap, Hk in Hv. injection Hv as <-. simpl. tauto.
    + erewrite (proj2 (map_lookup_filter_Some _ _ _ _)); [reflexivity|]. split; [|exact Hne].
      by rewrite lookup_fmap, Hk.
Qed.
End fixture.

(** * A dump *)

Module reference.
#[local] Instance ref_ops : BytecodeOps := {|
  bytecode_default := OtherBytecode [];
  original_byte_slice c := match c with Eip7702 a => [0xEF; 1; 0; a] | OtherBytecode b => b end;
  new_raw_checked b := Some (OtherBytecode b);
  hash_slow c := 77;
  keccak256 b := 77;
|}.

(** An EVM that returns the balance of the receiver and logs its nonce. *)
Definition ref_transact (tx : TestTxEnv) (db : TestDb) : TestDb * result (TestResult Z) unit :=
  match te_kind (tt_base tx) ≫= λ a, td_accounts db !! a with
  | Some acc => (db, Ok (TestSuccess 21000 [nonce (acc_info acc)] [balance (acc_info acc)]))
  | None => (db, Err tt)
  end.

#[local] Instance ref_run : TestRun := {|
  TestBlockEnv := Z;
  TestLog := Z;
  EvmErr := unit;
  is_enabled_in _ f := match f with OSAKA => false | _ => true end;
  test_block_env n _ _ _ _ _ _ := n;
  test_set_blob _ _ b := b;
  calc_excess_blob_gas _ _ _ := 0;
  CANCUN_FRACTION := 3338477;
  TARGET_BLOB_GAS_PER_BLOCK_CANCUN := 393216;
  transaction_type ty := ty;
  recover_address _ := None;
  default_chain_id := Some 1;
  plain_account b n c _ := account_from_info (mkAccountInfo b n 77 (Some (OtherBytecode c)));
  transact_commit _ _ _ tx db := ref_transact tx db;
  inspect_tx_commit _ _ _ tx db := ref_transact tx db;
  log_rlp_hash l := sumZ id l;
  state_merkle_trie_root m := Z.of_nat (size m);
  evm_error_to_string _ := [];
|}.

Definition ref_db (a : Address) (_ : unit) : option (option AccountInfo) :=
  Some (if a =? 7 then Some (mkAccountInfo 40 2 77 None) else None).

Definition ref_touched : gmap Z Account :=
  {[ 7 := mkAccount (mkAccountInfo 41 3 77 None) {[1 := mkSlot 5 6 0 false]} status_empty 0;
     8 := account_from_info account_info_default ]}.

Definition ref_inputs (gas : Z) : FixtureInputs :=
  mkInputs (mkMegaEnv [(70000, 512)] []) (TestSuccess 21000 [2] [40]) (mkAnchor gas true 2).

Definition ref_target : TargetTx :=
  mkTargetTx 2 9 None 1000 (Some 1) [] 30000 0 (Some 7) 1 None None None.
Definition ref_header : Header := mkHeader 12 3 99 30000000 (Some 10) 0 (Some 4) (Some 0).

Definition ref_draft (gas : Z) : result FixtureDraft EvmeError :=
  build_draft ref_db (λ _ _, None) tt ref_touched 6342 REX6 ref_header ref_target (str_of "replay_0x1")
    (ref_inputs gas).

Lemma dumped_fixture_validates_witness :
  (∃ suite, (match ref_draft 21000 with Ok d => finalize_and_write d | Err _ => None end) =
              Some (Ok suite) ∧
     execute_test_suite None (Some (Some suite)) false = Some (Ok tt) ∧
     ∃ u e, suite = [(str_of "replay_0x1", u)] ∧ u_post u = [(Specs.Rex6, [e])] ∧
       mega_gas_used e = Some 21000) ∧
  ref_draft 21001 = Err Other.
Proof.
  split; [|vm_compute; reflexivity].
  destruct (ref_draft 21000) as [d|] eqn:Hd; [|vm_compute in Hd; discriminate Hd].
  destruct (finalize_and_write d) as [[suite|]|] eqn:Hf.
  - exists suite. split; [reflexivity|].
    destruct (dumped_fixture_validates ref_db (λ _ _, None) tt ref_touched 6342 REX6 ref_header
      ref_target (str_of "replay_0x1") (ref_inputs 21000) d suite None Hd Hf)
      as (Hx & _ & _ & u & e & Hs & Hp & _ & _ & Hg & _).
    split; [exact Hx|]. exists u, e. split; [exact Hs|]. split; [exact Hp|exact Hg].
  - exfalso. vm_compute in Hd. injection Hd as <-. vm_compute in Hf. discriminate Hf.
  - exfalso. vm_compute in Hd. injection Hd as <-. vm_compute in Hf. discriminate Hf.
Defined.
End reference.
