(* ===== verification/StateTestCmd.v ===== *)
(** The [state-test] command: [crates/state-test/src/main.rs], with the parts of
    [crates/mega-state-test/src/runner.rs] only it uses, the search for fixtures, the rewriting of a
    filled one and the benchmarks.

    The file system is a state [F], read and written through [SuiteFiles]; the time an execution
    takes comes from a clock.  A run of tests is a relation, since the threads of the runner are
    scheduled in any order. *)

From stdpp Require Import sorting.
From S2P Require Import Prelude Spec Revm EvmState CliInput StateTest StateTestFacts Effects.

(** * Errors and files *)

Inductive CmdErrorKind : Type :=
  | InvalidPath
  | NoJsonFiles
  | SuiteKind (k : TestErrorKind).

Record TestError : Type := mkTestError {
  te_name : str;
  te_path : str;
  te_kind : CmdErrorKind;
}.

Class SuiteFiles (F : Type) := {
  st_exists : str → F → bool;
  st_is_file : str → F → bool;
  (** The entries of a directory tree that [WalkDir] yields without an error. *)
  st_walk : str → F → list str;
  st_extension : str → option str;
  st_file_name : str → option string;
  st_with_extension : str → str → str;
  st_read : str → F → option str;
  st_write : str → str → F → F * bool;
  st_rename : str → str → F → F * bool;
  suite_from_str : str → option TestSuite;
  suite_to_string : TestSuite → option str;
}.

(** [UnitBench]; times are in nanoseconds. *)
Record UnitBench : Type := mkBench {
  ub_name : str;
  ub_gas_used : Z;
  ub_success : bool;
  ub_runs : nat;
  ub_min : Z;
  ub_median : Z;
  ub_mean : Z;
}.

Record StateTestCmd : Type := mkStateTestCmd {
  sc_paths : list str;
  sc_single_thread : bool;
  sc_json : bool;
  sc_json_outcome : bool;
  sc_keep_going : bool;
  sc_bench : bool;
  sc_bench_runs : nat;
  sc_bench_warmup : nat;
  sc_bench_spec : option string;
  sc_fill : bool;
  sc_force : bool;
}.

(** The longest [Duration]. *)
Definition DURATION_MAX : Z := u64_max * 1000000000 + 999999999.

Section command.
Context `{HT : TestRun} {F : Type} `{HF : !SuiteFiles F}.
Implicit Types (fs : F) (p : str).

Definition find_all_json_tests p fs : list str :=
  if st_is_file p fs then [p]
  else filter (λ f, st_extension f = Some (str_of "json")) (st_walk p fs).

(** A file as the runner sees it: [None] when it cannot be read, [Some None] when it cannot be
    parsed. *)
Definition load_suite p fs : option (option TestSuite) := suite_from_str <$> st_read p fs.

(** ** Specs *)

Definition resolve_spec (cmd : StateTestCmd) : result (option SpecName) TestError :=
  match sc_bench_spec cmd with
  | None => Ok None
  | Some s =>
      let invalid_spec := mkTestError (str_of "spec") (str_of s) (SuiteKind FixtureErrorKind) in
      match spec_from_str s with
      | Err _ => Err invalid_spec
      | Ok spec =>
          let spec := from_mega_spec spec in
          if bool_decide (spec = Specs.Unknown) then Err invalid_spec else Ok (Some spec)
      end
  end.

(** ** Filling *)

(** Only a suite that cannot be parsed is reported under another name. *)
Definition fill_error p (k : TestErrorKind) : TestError :=
  mkTestError (match k with SerdeDeserialize => str_of "Unknown" | _ => str_of "fill" end) p (SuiteKind k).

(** The suite is written to a sibling file, which then replaces the fixture. *)
Definition write_suite p (suite : TestSuite) fs : F * result nat TestError :=
  let err := fill_error p FixtureErrorKind in
  match suite_to_string suite with
  | None => (fs, Err err)
  | Some json =>
      let tmp := st_with_extension (str_of "json.tmp") p in
      let '(fs, ok) := st_write tmp json fs in
      if (ok : bool) then
        let '(fs, ok) := st_rename tmp p fs in
        if (ok : bool) then (fs, Ok (length suite)) else (fs, Err err)
      else (fs, Err err)
  end.

Definition fill_file (spec_override : option SpecName) (force : bool) p fs
    : panics (F * result nat TestError) :=
  r ← fill_test_suite (st_file_name p) (load_suite p fs) spec_override force;
  Some (match r with Ok suite => write_suite p suite fs | Err k => (fs, Err (fill_error p k)) end).

Definition path_error p (k : CmdErrorKind) : TestError := mkTestError (str_of "Path validation") p k.

(** A loop over the paths, each of which must exist, and over the files found in it; [get] is the
    file system of a state. *)
Fixpoint each_file {S A} (f : str → fallible S TestError A) (files : list str)
    : fallible S TestError (list A) := (
  match files with
  | [] => fret []
  | p :: files => x ⇐ f p; xs ⇐ each_file f files; fret (x :: xs)
  end)%fallible.

Fixpoint each_path {S A} (get : S → F) (f : str → fallible S TestError A) (paths : list str)
    : fallible S TestError (list A) := (
  match paths with
  | [] => fret []
  | p :: paths =>
      found ⇐ fgets (λ s, st_exists p (get s));
      if negb found then ffail (path_error p InvalidPath)
      else
        files ⇐ fgets (λ s, find_all_json_tests p (get s));
        xs ⇐ each_file f files;
        ys ⇐ each_path get f paths;
        fret (xs ++ ys)
  end)%fallible.

Definition run_fill (cmd : StateTestCmd) : fallible F TestError (list nat) :=
  match resolve_spec cmd with
  | Err e => ffail e
  | Ok spec_override => each_path id (fill_file spec_override (sc_force cmd)) (sc_paths cmd)
  end.

(** ** Benchmarks *)

Context {K : Type} (tick : K → K * Z).

(** The time of an execution, its gas and its status. *)
Definition time_unit_execution (u : TestUnit) (spec : SpecName) (k : K)
    : panics (K * result (Z * Z * str) TestErrorKind) :=
  r ← run_unit_once u spec;
  let '(k, elapsed) := tick k in
  Some (k, and_then r (λ '(r, _), Ok (elapsed, result_gas_used r, execution_status r))).

(** [n] executions: the first error ends them. *)
Fixpoint time_runs (n : nat) (u : TestUnit) (spec : SpecName) : fallible K TestErrorKind (list (Z * Z * str)) := (
  match n with
  | O => fret []
  | S n => x ⇐ time_unit_execution u spec; xs ⇐ time_runs n u spec; fret (x :: xs)
  end)%fallible.

(** What is measured of the runs: the gas and the status of the last one. *)
Definition bench_of (name : str) (timed : list (Z * Z * str)) : panics UnitBench :=
  let durations := merge_sort Z.le ((λ x, x.1.1) <$> timed) in
  '(_, gas, status) ← last timed;
  median ← durations !! (length durations / 2)%nat;
  min ← head durations;
  let total := sumZ id durations in
  _ ← assert_ (total <=? DURATION_MAX);
  Some (mkBench name gas (bool_decide (status = str_of "success")) (length timed) min median
          (total / Z.of_nat (length durations))).

Definition bench_unit (runs warmup : nat) (spec_override : option SpecName) (name : str) (u : TestUnit)
    : fallible K TestErrorKind UnitBench := (
  spec ⇐ ok_or (fill_spec spec_override u) FixtureErrorKind;
  if bool_decide (spec = Specs.Unknown) then ffail FixtureErrorKind
  else
    _ ⇐ zoom id (λ k _, k) (λ _, FixtureErrorKind) (time_runs warmup u spec);
    timed ⇐ zoom id (λ k _, k) (λ _, FixtureErrorKind) (time_runs runs u spec);
    unwrap (bench_of name timed))%fallible.

Fixpoint bench_units (runs warmup : nat) (spec_override : option SpecName) (suite : TestSuite)
    : fallible K TestErrorKind (list UnitBench) := (
  match suite with
  | [] => fret []
  | (name, u) :: suite =>
      b ⇐ bench_unit runs warmup spec_override name u;
      bs ⇐ bench_units runs warmup spec_override suite;
      fret (b :: bs)
  end)%fallible.

(** A suite that cannot be parsed is reported under another name. *)
Definition bench_error p (k : TestErrorKind) : TestError :=
  mkTestError (match k with SerdeDeserialize => str_of "Unknown" | _ => str_of "bench" end) p (SuiteKind k).

Definition bench_test_suite (runs warmup : nat) (spec_override : option SpecName) p fs
    : fallible K TestError (list UnitBench) :=
  if (runs =? 0)%nat then ffail (bench_error p FixtureErrorKind)
  else
    match load_suite p fs with
    | None => ffail (bench_error p FixtureErrorKind)
    | Some None => ffail (bench_error p SerdeDeserialize)
    | Some (Some suite) => zoom id (λ k _, k) (bench_error p) (bench_units runs warmup spec_override suite)
    end.

(** One unit is printed as an object, several as an array. *)
Inductive BenchOutput : Type :=
  | OneUnit (gas_used : Z) (success : bool) (bench : UnitBench)
  | Units (units : list UnitBench).

Definition bench_output (all : list UnitBench) : BenchOutput :=
  match all with
  | [u] => OneUnit (ub_gas_used u) (ub_success u) u
  | _ => Units all
  end.

(** The file system is only read. *)
Definition run_bench (cmd : StateTestCmd) fs : fallible K TestError BenchOutput :=
  match resolve_spec cmd with
  | Err e => ffail e
  | Ok spec_override => (
      all ⇐ each_path (λ _, fs) (λ p, bench_test_suite (sc_bench_runs cmd) (sc_bench_warmup cmd) spec_override p fs)
              (sc_paths cmd);
      fret (bench_output (concat all)))%fallible
  end.

(** ** Tests *)

(** [execute_test_suite] on a file. *)
Definition execute_file (trace : bool) fs p : panics (result unit TestError) :=
  r ← execute_test_suite (st_file_name p) (load_suite p fs) trace;
  Some (match r with Ok _ => Ok tt | Err (name, k) => Err (mkTestError name p (SuiteKind k)) end).

Definition panic_error : TestError := mkTestError (str_of "thread panicked") [] (SuiteKind PanicKind).
Definition summary_error (failed total : nat) : TestError :=
  mkTestError (str_of "summary") [] (SuiteKind (TestsFailed failed total)).

(** [run] on the files of a path: some schedule of its threads, to the end. *)
Definition run_ends (cmd : StateTestCmd) (parallelism : option nat) fs (files : list str)
    (r : result unit TestError) : Prop :=
  let config := runner_config_new (sc_single_thread cmd) (sc_json cmd) (sc_json_outcome cmd) (sc_keep_going cmd) in
  ∃ ws s,
    rtc (runner_step files (execute_file (rc_trace config) fs) (rc_keep_going config))
      (runner_start files (rc_single_thread config) parallelism) (ws, s) ∧
    Forall (λ w, over w = true) ws ∧ runner_result files panic_error summary_error ws s = r.

(** The paths are run in sequence, up to the first error. *)
Inductive tests_run (cmd : StateTestCmd) (parallelism : option nat) fs
    : list str → result unit TestError → Prop :=
  | tests_done : tests_run cmd parallelism fs [] (Ok tt)
  | tests_missing p paths :
      st_exists p fs = false → tests_run cmd parallelism fs (p :: paths) (Err (path_error p InvalidPath))
  | tests_none p paths :
      st_exists p fs = true → find_all_json_tests p fs = [] →
      tests_run cmd parallelism fs (p :: paths) (Err (path_error p NoJsonFiles))
  | tests_failed p paths e :
      st_exists p fs = true → find_all_json_tests p fs ≠ [] →
      run_ends cmd parallelism fs (find_all_json_tests p fs) (Err e) →
      tests_run cmd parallelism fs (p :: paths) (Err e)
  | tests_passed p paths r :
      st_exists p fs = true → find_all_json_tests p fs ≠ [] →
      run_ends cmd parallelism fs (find_all_json_tests p fs) (Ok tt) →
      tests_run cmd parallelism fs paths r → tests_run cmd parallelism fs (p :: paths) r.

(** [Cmd::run]: the files and the clock after it, what it prints of benchmarks, and its result. *)
Inductive command_run (cmd : StateTestCmd) (parallelism : option nat) fs (k : K)
    : F → K → option BenchOutput → result unit TestError → Prop :=
  | command_fills fs' r :
      sc_fill cmd = true → run_fill cmd fs = Some (fs', r) →
      command_run cmd parallelism fs k fs' k None (and_then r (λ _, Ok tt))
  | command_benches k' r :
      sc_fill cmd = false → sc_bench cmd = true → run_bench cmd fs k = Some (k', r) →
      command_run cmd parallelism fs k fs k' (match r with Ok out => Some out | Err _ => None end)
        (and_then r (λ _, Ok tt))
  | command_tests r :
      sc_fill cmd = false → sc_bench cmd = false → tests_run cmd parallelism fs (sc_paths cmd) r →
      command_run cmd parallelism fs k fs k None r.
End command.

(** * Properties *)

Section facts.
Context `{HT : TestRun} {F : Type} `{HF : !SuiteFiles F}.
Implicit Types (fs : F) (p : str).

(** Every spec has a name that the command accepts and means. *)
Lemma resolve_spec_exact cmd name :
  sc_bench_spec cmd = Some name →
  match spec_from_str name with
  | Ok spec => ∃ n, resolve_spec cmd = Ok (Some n) ∧ to_spec_id n = Some spec
  | Err _ => ∃ e, resolve_spec cmd = Err e
  end.
Proof.
  intros H. unfold resolve_spec. rewrite H. destruct (spec_from_str name) as [spec|]; [|by eexists].
  destruct (spec_name_roundtrip spec) as [Hs Hu]. rewrite bool_decide_eq_false_2 by done. by eexists.
Qed.

(** Some outcome is reached, and success is that of every file of every path, whatever the number
    of threads and their schedule. *)
Lemma tests_run_exact cmd parallelism fs paths :
  (∀ n, parallelism = Some n → (0 < n)%nat) →
  (∃ r, tests_run cmd parallelism fs paths r) ∧
  ∀ r, tests_run cmd parallelism fs paths r →
    r = Ok tt ↔
    Forall (λ p, st_exists p fs = true ∧ find_all_json_tests p fs ≠ [] ∧
      ∀ f, f ∈ find_all_json_tests p fs → execute_file (sc_json cmd) fs f = Some (Ok tt)) paths.
Proof.
  intros Hp.
  assert (∀ files r, run_ends cmd parallelism fs files r →
    r = Ok tt ↔ ∀ f, f ∈ files → execute_file (sc_json cmd) fs f = Some (Ok tt)) as Hrun.
  { intros files r (ws & s & Hr & Ho & <-). rewrite Forall_forall in Ho.
    rewrite (runner_ok_exact _ _ _ _ _ _ _ _ _ Hp Hr Ho).
    apply forall_proper. intros f. unfold passes. cbn [rc_trace runner_config_new].
    destruct (execute_file _ _ f) as [[[]|]|]; naive_solver. }
  split.
  - induction paths as [|p paths [r IH]]; [eexists; constructor|].
    destruct (st_exists p fs) eqn:He; [|eexists; by apply tests_missing].
    destruct (decide (find_all_json_tests p fs = [])) as [Hn|Hn]; [eexists; by apply tests_none|].
    set (config := runner_config_new (sc_single_thread cmd) (sc_json cmd) (sc_json_outcome cmd) (sc_keep_going cmd)).
    destruct (runner_ends (find_all_json_tests p fs) (execute_file (rc_trace config) fs) (rc_keep_going config)
      (runner_start (find_all_json_tests p fs) (rc_single_thread config) parallelism)) as (ws & s & Hr & Ho).
    destruct (runner_result (find_all_json_tests p fs) panic_error summary_error ws s) as [[]|e] eqn:Hres.
    + exists r. apply tests_passed; [done..| |done]. exists ws, s. split; [exact Hr|].
      split; [by apply Forall_forall|done].
    + exists (Err e). apply tests_failed; [done..|]. exists ws, s. split; [exact Hr|].
      split; [by apply Forall_forall|done].
  - intros r H. induction H as [|p paths He|p paths He Hn|p paths e He Hn Hr|p paths r He Hn Hr _ IH];
      rewrite ?Forall_cons.
    + by split.
    + split; [done|]. intros ((? & _) & _). congruence.
    + split; [done|]. intros ((_ & ? & _) & _). done.
    + split; [done|]. intros ((_ & _ & Hall) & _). by apply (Hrun _ _ Hr) in Hall.
    + rewrite IH. split; [|naive_solver]. intros Hall. split; [|done]. split_and!; [done..|].
      by apply (Hrun _ _ Hr).
Qed.

(** A fixture that was filled passes when it is read again, and only its path was rewritten. *)
Class SuiteFilesLaws := {
  write_reads t json fs fs' : st_write t json fs = (fs', true) → st_read t fs' = Some json;
  rename_reads a b fs fs' : st_rename a b fs = (fs', true) → st_read b fs' = st_read a fs;
  suite_reads suite json : suite_to_string suite = Some json → suite_from_str json = Some suite;
}.

Lemma filled_file_passes `{HL : !SuiteFilesLaws} spec_override force p fs fs' n :
  fill_file spec_override force p fs = Some (fs', Ok n) →
  execute_file false fs' p = Some (Ok tt) ∧
  ∃ suite, load_suite p fs' = Some (Some suite) ∧ length suite = n.
Proof.
  unfold fill_file. intros H. bind_inv H. destruct x as [suite|k]; [|done].
  unfold write_suite in H. destruct (suite_to_string suite) as [json|] eqn:Hj; [|done].
  destruct (st_write _ json fs) as [fs1 []] eqn:Hw; [|done].
  destruct (st_rename _ p fs1) as [fs2 []] eqn:Hr; [|done]. injection H as <- <-.
  assert (load_suite p fs2 = Some (Some suite)) as Hl.
  { unfold load_suite. rewrite (rename_reads _ _ _ _ Hr), (write_reads _ _ _ _ Hw). simpl.
    by rewrite (suite_reads _ _ Hj). }
  split; [|by exists suite]. unfold execute_file. rewrite Hl, (filled_suite_passes _ _ _ _ _ E). done.
Qed.

(** What a benchmark reports: the shortest time was measured and bounds the median and the mean. *)
Lemma bench_of_bounds name timed b :
  bench_of name timed = Some b →
  ub_runs b = length timed ∧ ub_min b ∈ (λ x, x.1.1) <$> timed ∧ ub_median b ∈ (λ x, x.1.1) <$> timed ∧
  (∀ d, d ∈ (λ x, x.1.1) <$> timed → ub_min b ≤ d) ∧ ub_min b ≤ ub_mean b.
Proof.
  unfold bench_of. set (l := (λ x : Z * Z * str, x.1.1) <$> timed). intros H.
  do 4 bind_inv H. injection H as <-. simpl.
  pose proof (merge_sort_Permutation Z.le l) as Hp.
  assert (Hs : StronglySorted Z.le (merge_sort Z.le l)) by (apply StronglySorted_merge_sort; apply _).
  destruct (merge_sort Z.le l) as [|m rest] eqn:Hm; [done|]. simpl in E1. injection E1 as <-.
  apply StronglySorted_inv in Hs as [_ Hle]. rewrite Forall_forall in Hle.
  assert (∀ d, d ∈ m :: rest → m ≤ d) as Hmin by (intros d' [->|?]%elem_of_cons; [lia|auto]).
  split_and!; [done| | | |].
  - rewrite <- Hp. apply list_elem_of_here.
  - rewrite <- Hp. by eapply list_elem_of_lookup_2.
  - intros d' Hd. apply Hmin. by rewrite Hp.
  - apply Z.div_le_lower_bound; [simpl; lia|]. clear -Hmin.
    assert (∀ k, (∀ d, d ∈ k → m ≤ d) → Z.of_nat (length k) * m ≤ sumZ id k) as Hsum.
    { induction k as [|d k IH]; intros Hk; [rewrite sumZ_nil; simpl; lia|]. rewrite sumZ_cons.
      assert (m ≤ d) by (apply Hk, list_elem_of_here).
      assert (Z.of_nat (length k) * m ≤ sumZ id k) by (apply IH; intros; apply Hk; by apply list_elem_of_further).
      simpl length. rewrite Nat2Z.inj_succ. unfold id at 1. lia. }
    by apply Hsum.
Qed.
End facts.
