(* ===== verification/CliRun.v ===== *)
(** The commands [run] and [tx] of [mega-evme]: [run/cmd.rs], [tx/cmd.rs], the tracing of
    [common/trace.rs], and what is reported of an execution, [common/outcome.rs] with the dump of
    [common/state.rs].

    Both commands prepare a state, execute one transaction on the EVM of [MegaEvm] and report it.
    The tracer is the class [Tracing]; the database of a fork holds the provider it reads with, and
    with it the network and the store of its cache: the class [ForkProvider].  ABI decoding, JSON and
    the layout of what is printed are the classes [RevertCodec] and [Report]; the bloom filter of a
    receipt is a function of its logs and is left out. *)

From S2P Require Import Prelude Spec Revm SystemContracts CliInput CliTx CliRpc StateTest.
From S2P Require Import LimitCheck Interfaces AdditionalLimit Access DynamicGas SystemTx Context.
From S2P Require Import Intercept Execution EvmState Validation Precompiles SequencerRegistry.
From S2P Require Import BlockLimit Effects BlockEvm MegaEvm MemoryEnvs CliState CliReplay.

(** * Receipts *)

Record ReceiptBody (L : Type) : Type := mkBody {
  rb_status : bool;
  rb_cumulative_gas_used : Z;
  rb_logs : list L;
}.
Arguments mkBody {L} _ _ _.
Arguments rb_status {L} _.
Arguments rb_cumulative_gas_used {L} _.
Arguments rb_logs {L} _.

(** [OpReceiptEnvelope]. *)
Inductive OpReceiptEnvelope (L : Type) : Type :=
  | LegacyReceipt (r : ReceiptBody L)
  | Eip2930Receipt (r : ReceiptBody L)
  | Eip1559Receipt (r : ReceiptBody L)
  | Eip7702Receipt (r : ReceiptBody L)
  | DepositReceipt (r : ReceiptBody L) (deposit_nonce : option Z) (deposit_receipt_version : option Z).
Arguments LegacyReceipt {L} _.
Arguments Eip2930Receipt {L} _.
Arguments Eip1559Receipt {L} _.
Arguments Eip7702Receipt {L} _.
Arguments DepositReceipt {L} _ _ _.

Section receipts.
Context {L : Type}.

Definition receipt_body (e : OpReceiptEnvelope L) : ReceiptBody L :=
  match e with
  | LegacyReceipt r | Eip2930Receipt r | Eip1559Receipt r | Eip7702Receipt r => r
  | DepositReceipt r _ _ => r
  end.

(** [is_success()]. *)
Definition receipt_success (e : OpReceiptEnvelope L) : bool := rb_status (receipt_body e).

(** [map_logs], with a closure that counts. *)
Definition map_body {M} (f : nat → L → M) (r : ReceiptBody L) : ReceiptBody M :=
  mkBody (rb_status r) (rb_cumulative_gas_used r) (imap f (rb_logs r)).
Definition map_logs {M} (f : nat → L → M) (e : OpReceiptEnvelope L) : OpReceiptEnvelope M :=
  match e with
  | LegacyReceipt r => LegacyReceipt (map_body f r)
  | Eip2930Receipt r => Eip2930Receipt (map_body f r)
  | Eip1559Receipt r => Eip1559Receipt (map_body f r)
  | Eip7702Receipt r => Eip7702Receipt (map_body f r)
  | DepositReceipt r n v => DepositReceipt (map_body f r) n v
  end.
End receipts.

Record RpcLog (L : Type) : Type := mkRpcLog {
  rl_inner : L;
  rl_block_hash : option Z;
  rl_block_number : option Z;
  rl_block_timestamp : option Z;
  rl_transaction_hash : option Z;
  rl_transaction_index : option Z;
  rl_log_index : option Z;
  rl_removed : bool;
}.
Arguments mkRpcLog {L} _ _ _ _ _ _ _ _.
Arguments rl_inner {L} _.
Arguments rl_transaction_hash {L} _.
Arguments rl_transaction_index {L} _.
Arguments rl_log_index {L} _.

Record OpTxReceipt (L : Type) : Type := mkTxReceipt {
  or_inner : OpReceiptEnvelope (RpcLog L);
  or_transaction_hash : Z;
  or_transaction_index : option Z;
  or_block_hash : option Z;
  or_block_number : option Z;
  or_gas_used : Z;
  or_effective_gas_price : Z;
  or_blob_gas_used : option Z;
  or_blob_gas_price : option Z;
  or_from : Address;
  or_to : option Address;
  or_contract_address : option Address;
}.
Arguments mkTxReceipt {L} _ _ _ _ _ _ _ _ _ _ _ _.
Arguments or_inner {L} _.
Arguments or_transaction_hash {L} _.
Arguments or_transaction_index {L} _.
Arguments or_block_hash {L} _.
Arguments or_gas_used {L} _.
Arguments or_from {L} _.
Arguments or_to {L} _.
Arguments or_contract_address {L} _.

(** The log entries carry a zero hash and index of their transaction. *)
Definition op_receipt_to_tx_receipt {L} (receipt : OpReceiptEnvelope L) (block_number block_timestamp : Z)
    (from : Address) (to contract_address : option Address) (effective_gas_price gas_used : Z)
    (transaction_hash block_hash : option Z) (transaction_index : Z) : OpTxReceipt L :=
  mkTxReceipt
    (map_logs (λ log_index log,
       mkRpcLog log None (Some block_number) (Some block_timestamp) (Some 0) (Some 0)
         (Some (Z.of_nat log_index)) false) receipt)
    (default 0 transaction_hash) (Some transaction_index) block_hash (Some block_number) gas_used
    effective_gas_price None None from to contract_address.

(** * Outcomes *)

(** [EvmeOutcome], without the time. *)
Record EvmeOutcome (L : Type) : Type := mkOutcome {
  eo_pre_execution_nonce : Z;
  eo_exec_result : TestResult L;
  eo_state : gmap Z Account;
  eo_trace_data : option str;
}.
Arguments mkOutcome {L} _ _ _ _.
Arguments eo_pre_execution_nonce {L} _.
Arguments eo_exec_result {L} _.
Arguments eo_state {L} _.
Arguments eo_trace_data {L} _.

(** [is_success()] of an execution. *)
Definition result_success {L} (r : TestResult L) : bool :=
  match r with TestSuccess _ _ _ => true | _ => false end.

Definition to_op_receipt {L} (outcome : EvmeOutcome L) (tx_type : MegaTxType) (state_nonce : Z)
    : OpReceiptEnvelope L :=
  let r := eo_exec_result outcome in
  let receipt := mkBody (result_success r) (result_gas_used r) (result_logs r) in
  match tx_type with
  | Legacy => LegacyReceipt receipt
  | Eip2930 => Eip2930Receipt receipt
  | Eip1559 => Eip1559Receipt receipt
  | Eip7702Tx => Eip7702Receipt receipt
  | Deposit => DepositReceipt receipt (Some state_nonce) (Some 1)
  end.

(** * Revert reasons *)

Class RevertCodec := {
  hex_encode : Bytes → str;
  (** [Revert::abi_decode] with its reason, [Panic::abi_decode] with its code, the text of a known
      panic code, and a code in hexadecimal. *)
  revert_decode : Bytes → option str;
  panic_decode : Bytes → option U256;
  panic_kind : U256 → option str;
  lower_hex : U256 → str;
}.

Section reasons.
Context `{HR : RevertCodec}.

Definition hex_prefixed (b : Bytes) : str := str_of "0x" ++ hex_encode b.

(** The quotation marks around the reason are code point 34. *)
Definition decode_revert_reason (output : Bytes) : str :=
  match output with
  | [] => str_of "(empty)"
  | _ =>
      match revert_decode output with
      | Some reason => str_of "Error(" ++ [34] ++ reason ++ [34] ++ str_of ")"
      | None =>
          match panic_decode output with
          | Some code =>
              match panic_kind code with
              | Some kind => str_of "Panic: " ++ kind
              | None => str_of "Panic(0x" ++ lower_hex code ++ str_of ")"
              end
          | None => hex_prefixed output
          end
      end
  end.
End reasons.

(** * The summary *)

Record ExecutionSummary (Json : Type) : Type := mkSummary {
  sm_success : bool;
  sm_gas_used : Z;
  sm_output : option str;
  sm_contract_address : option Address;
  sm_logs_count : nat;
  sm_revert_reason : option str;
  sm_halt_reason : option str;
  sm_trace : option Json;
  sm_state : option Json;
  sm_receipt : option Json;
}.
Arguments mkSummary {Json} _ _ _ _ _ _ _ _ _ _.
Arguments sm_success {Json} _.
Arguments sm_gas_used {Json} _.
Arguments sm_output {Json} _.
Arguments sm_contract_address {Json} _.
Arguments sm_logs_count {Json} _.
Arguments sm_revert_reason {Json} _.
Arguments sm_halt_reason {Json} _.
Arguments sm_trace {Json} _.
Arguments sm_state {Json} _.
Arguments sm_receipt {Json} _.

Record StateDumpArgs : Type := mkDumpArgs {
  da_dump : bool;
  da_dump_output_file : option path;
}.

(** The files and the console [F]; the formatted parts cannot fail. *)
Class Report (F Json L : Type) := {
  fs_write : path → str → F → F * bool;
  print_str : str → F → F;
  (** [print_execution_summary] and [print_receipt]. *)
  print_summary : TestResult L → option Address → F → F;
  print_tx_receipt : OpTxReceipt L → F → F;
  (** [serde_json]. *)
  json_from_str : str → option Json;
  json_of_str : str → Json;
  accounts_to_string : gmap Z AccountState → option str;
  receipt_to_json : OpTxReceipt L → panics Json;
  summary_to_string : ExecutionSummary Json → panics str;
}.

Section summary.
Context `{HR : RevertCodec} `{HB : BytecodeOps} {F Json L : Type} `{HF : !Report F Json L}.
Implicit Types (fs : F) (s : ExecutionSummary Json).

Definition from_result (r : TestResult L) (contract_address : option Address) : ExecutionSummary Json :=
  match r with
  | TestSuccess gas_used logs output =>
      mkSummary true gas_used (match output with [] => None | _ => Some (hex_prefixed output) end)
        contract_address (length logs) None None None None None
  | TestRevert gas_used output =>
      mkSummary false gas_used None None 0 (Some (decode_revert_reason output)) None None None None
  | TestHalt reason gas_used =>
      mkSummary false gas_used None None 0 None (Some reason) None None None
  end.

Definition with_trace (j : Json) s : ExecutionSummary Json :=
  mkSummary (sm_success s) (sm_gas_used s) (sm_output s) (sm_contract_address s) (sm_logs_count s)
    (sm_revert_reason s) (sm_halt_reason s) (Some j) (sm_state s) (sm_receipt s).
Definition with_state (j : Json) s : ExecutionSummary Json :=
  mkSummary (sm_success s) (sm_gas_used s) (sm_output s) (sm_contract_address s) (sm_logs_count s)
    (sm_revert_reason s) (sm_halt_reason s) (sm_trace s) (Some j) (sm_receipt s).
Definition with_receipt (j : Json) s : ExecutionSummary Json :=
  mkSummary (sm_success s) (sm_gas_used s) (sm_output s) (sm_contract_address s) (sm_logs_count s)
    (sm_revert_reason s) (sm_halt_reason s) (sm_trace s) (sm_state s) (Some j).

(** [serde_json::from_str(..).unwrap_or_else(..)]. *)
Definition inline_json (text : str) : Json :=
  match json_from_str text with Some j => j | None => json_of_str text end.

Definition serialize_evm_state (state : gmap Z Account) : result str EvmeError :=
  match accounts_to_string (dump_state state) with Some t => Ok t | None => Err ExecutionError end.

Definition fill_trace (trace_data : option str) (output_file : option path) s fs
    : F * result (ExecutionSummary Json) EvmeError :=
  match trace_data with
  | None => (fs, Ok s)
  | Some trace =>
      match output_file with
      | Some p => let '(fs, ok) := fs_write p trace fs in (fs, if (ok : bool) then Ok s else Err Other)
      | None => (fs, Ok (with_trace (inline_json trace) s))
      end
  end.

Definition fill_dump (state : gmap Z Account) (dump_args : StateDumpArgs) s fs
    : F * result (ExecutionSummary Json) EvmeError :=
  if da_dump dump_args then
    match serialize_evm_state state with
    | Err e => (fs, Err e)
    | Ok state_json =>
        match da_dump_output_file dump_args with
        | Some p =>
            let '(fs, ok) := fs_write p state_json fs in (fs, if (ok : bool) then Ok s else Err Other)
        | None => (fs, Ok (with_state (inline_json state_json) s))
        end
    end
  else (fs, Ok s).

(** The trace goes first; a failure to write it ends the report. *)
Definition fill_trace_and_dump (outcome : EvmeOutcome L) (trace_output_file : option path)
    (dump_args : StateDumpArgs) s fs : F * result (ExecutionSummary Json) EvmeError :=
  match fill_trace (eo_trace_data outcome) trace_output_file s fs with
  | (fs, Err e) => (fs, Err e)
  | (fs, Ok s) => fill_dump (eo_state outcome) dump_args s fs
  end.

Definition print_execution_trace (trace : option str) (output_file : option path) fs
    : F * result unit EvmeError :=
  match trace with
  | None => (fs, Ok tt)
  | Some trace =>
      let fs := print_str (str_of "=== Execution Trace ===") fs in
      match output_file with
      | Some p =>
          let '(fs, ok) := fs_write p trace fs in
          if (ok : bool) then (print_str (str_of "Trace written to: " ++ p) fs, Ok tt)
          else (fs, Err Other)
      | None => (print_str trace fs, Ok tt)
      end
  end.

Definition dump_evm_state (dump_args : StateDumpArgs) (state : gmap Z Account) fs
    : F * result unit EvmeError :=
  match serialize_evm_state state with
  | Err e => (fs, Err e)
  | Ok state_json =>
      let fs := print_str (str_of "=== State Dump ===") fs in
      match da_dump_output_file dump_args with
      | Some p =>
          let '(fs, ok) := fs_write p state_json fs in
          if (ok : bool) then (print_str (str_of "State dump written to: " ++ p) fs, Ok tt)
          else (fs, Err ExecutionError)
      | None => (print_str state_json fs, Ok tt)
      end
  end.

(** [output_results] of the three commands: with a receipt for [tx] and [replay], without for
    [run]. *)
Definition report (json : bool) (trace_output_file : option path) (dump_args : StateDumpArgs)
    (outcome : EvmeOutcome L) (contract_address : option Address) (receipt : option (OpTxReceipt L)) fs
    : panics (F * result unit EvmeError) :=
  let r := eo_exec_result outcome in
  if json then
    match fill_trace_and_dump outcome trace_output_file dump_args (from_result r contract_address) fs with
    | (fs, Err e) => Some (fs, Err e)
    | (fs, Ok s) =>
        s ← match receipt with
            | Some rc => j ← receipt_to_json rc; Some (with_receipt j s)
            | None => Some s
            end;
        text ← summary_to_string s;
        Some (print_str text fs, Ok tt)
    end
  else
    let fs := print_summary r contract_address fs in
    let fs := match receipt with Some rc => print_tx_receipt rc fs | None => fs end in
    match print_execution_trace (eo_trace_data outcome) trace_output_file fs with
    | (fs, Err e) => Some (fs, Err e)
    | (fs, Ok _) =>
        Some (if da_dump dump_args then dump_evm_state dump_args (eo_state outcome) fs else (fs, Ok tt))
    end.
End summary.

(** * Properties *)

(** The logs of a receipt are those of the execution, numbered from zero. *)
Lemma receipt_logs {L} (receipt : OpReceiptEnvelope L) bn bt from to ca price gas th bh index :
  let rc := op_receipt_to_tx_receipt receipt bn bt from to ca price gas th bh index in
  rl_inner <$> rb_logs (receipt_body (or_inner rc)) = rb_logs (receipt_body receipt) ∧
  (∀ i l, rb_logs (receipt_body (or_inner rc)) !! i = Some l → rl_log_index l = Some (Z.of_nat i)) ∧
  receipt_success (or_inner rc) = receipt_success receipt.
Proof.
  assert (∀ (r : ReceiptBody L) (f : nat → L → RpcLog L), (∀ i l, rl_inner (f i l) = l) →
    rl_inner <$> imap f (rb_logs r) = rb_logs r) as Hmap.
  { intros r f Hf. rewrite fmap_imap. rewrite (imap_ext _ (const id)) by (intros; apply Hf).
    by rewrite imap_const, list_fmap_id. }
  destruct receipt; simpl; (split; [by apply Hmap|split; [|done]]); intros i l;
    rewrite list_lookup_imap; intros (x & _ & ->)%fmap_Some; done.
Qed.

(** Even when the hash of the transaction and its index are known, its logs do not have them. *)
Lemma receipt_logs_anonymous {L} (receipt : OpReceiptEnvelope L) bn bt from to ca price gas th bh index l :
  l ∈ rb_logs (receipt_body (or_inner
        (op_receipt_to_tx_receipt receipt bn bt from to ca price gas (Some th) bh index))) →
  rl_transaction_hash l = Some 0 ∧ rl_transaction_index l = Some 0.
Proof.
  destruct receipt; simpl; intros (i & Hi)%list_elem_of_lookup; rewrite list_lookup_imap in Hi;
    apply fmap_Some in Hi as (x & _ & ->); done.
Qed.

(** A successful execution is summarized with its gas, the number of its logs and no reason; a failed
    one never has an output or a contract, and has exactly one reason. *)
Lemma summary_spec `{HR : RevertCodec} {Json L} (r : TestResult L) ca :
  let s : ExecutionSummary Json := from_result r ca in
  sm_success s = result_success r ∧ sm_gas_used s = result_gas_used r ∧
  sm_logs_count s = length (result_logs r) ∧
  (if result_success r
   then sm_contract_address s = ca ∧ sm_revert_reason s = None ∧ sm_halt_reason s = None
   else sm_contract_address s = None ∧ sm_output s = None ∧
        xorb (is_given (sm_revert_reason s)) (is_given (sm_halt_reason s)) = true).
Proof. by destruct r. Qed.

(** * [common/trace.rs] *)

Inductive TracerType : Type := OpcodeTracer | CallTracer | PreStateTracer.

Record TraceArgs : Type := mkTraceArgs {
  tr_trace : bool;
  tr_trace_output_file : option path;
  tr_tracer : TracerType;
  tr_opcode_disable_memory : bool;
  tr_opcode_disable_stack : bool;
  tr_opcode_disable_storage : bool;
  tr_opcode_enable_return_data : bool;
  tr_call_only_top_call : bool;
  tr_call_with_log : bool;
  tr_prestate_diff_mode : bool;
  tr_prestate_disable_code : bool;
  tr_prestate_disable_storage : bool;
}.

(** The options that are set; the others keep their defaults. *)
Record GethOptions : Type := mkGeth {
  go_disable_storage : option bool;
  go_disable_memory : option bool;
  go_disable_stack : option bool;
  go_enable_return_data : option bool;
}.
Record CallConfig : Type := mkCallConfig {
  cc_only_top_call : option bool;
  cc_with_log : option bool;
}.
Record PreStateConfig : Type := mkPreStateConfig {
  pc_diff_mode : option bool;
  pc_disable_code : option bool;
  pc_disable_storage : option bool;
}.

Definition create_geth_options (a : TraceArgs) : GethOptions :=
  mkGeth (Some (tr_opcode_disable_storage a)) (Some (tr_opcode_disable_memory a))
    (Some (tr_opcode_disable_stack a)) (Some (tr_opcode_enable_return_data a)).
Definition create_call_config (a : TraceArgs) : CallConfig :=
  mkCallConfig (Some (tr_call_only_top_call a)) (Some (tr_call_with_log a)).
Definition create_prestate_config (a : TraceArgs) : PreStateConfig :=
  mkPreStateConfig (Some (tr_prestate_diff_mode a)) (Some (tr_prestate_disable_code a))
    (Some (tr_prestate_disable_storage a)).

(** revm's [TracingInspector] on an EVM [V]: what it recorded, and the JSON texts of its traces, or
    of the error when they cannot be made. *)
Class Tracing (V DB L : Type) := {
  Inspector : Type;
  recorded : V → Inspector;
  geth_traces : Inspector → Z → Bytes → GethOptions → str;
  geth_call_traces : Inspector → CallConfig → Z → str;
  geth_prestate_traces : Inspector → TestResult L → gmap Z Account → PreStateConfig → DB → str;
}.

Section trace.
Context {V DB L : Type} `{HT : !Tracing V DB L}.
Implicit Types (a : TraceArgs) (r : TestResult L).

Definition generate_default_trace a (inspector : Inspector) r : str :=
  let output := match r with TestSuccess _ _ o => o | TestRevert _ o => o | TestHalt _ _ => [] end in
  geth_traces inspector (result_gas_used r) output (create_geth_options a).
Definition generate_call_trace a (inspector : Inspector) r : str :=
  geth_call_traces inspector (create_call_config a) (result_gas_used r).
Definition generate_prestate_trace a (inspector : Inspector) r (state : gmap Z Account) (prestate : DB)
    : str := geth_prestate_traces inspector r state (create_prestate_config a) prestate.

Definition generate_trace a (inspector : Inspector) r (state : gmap Z Account) (prestate : DB) : str :=
  match tr_tracer a with
  | OpcodeTracer => generate_default_trace a inspector r
  | CallTracer => generate_call_trace a inspector r
  | PreStateTracer => generate_prestate_trace a inspector r state prestate
  end.
End trace.

(** * The state of a fork *)

Class ForkProvider (Url C N D : Type) := {
  (** [AlloyDB] at a block, behind a cache. *)
  fork_at : OpProvider Url C → Z → N * RpcCacheStore C → D;
  fork_world : D → N * RpcCacheStore C;
}.

(** [?] on a result. *)
Definition of_result {S A E} (r : result A E) : fallible S E A :=
  match r with Ok x => fret x | Err e => ffail e end.

Section fork.
Context {Url C N D : Type} `{HR : !ReplayRpc Url C N} `{HD : !ForkProvider Url C N D}.

(** The block of the fork: the latest one when none is given. *)
Definition fork_db (provider : OpProvider Url C) (fork_block : option Z) (w : N * RpcCacheStore C)
    : result D EvmeError :=
  match fork_block with
  | Some number => Ok (fork_at provider number w)
  | None =>
      let '(w, r) := get_block_number provider w in
      match r with Ok latest => Ok (fork_at provider latest w) | Err _ => Err RpcError end
  end.

(** The store behind a state: a local one has none. *)
Definition state_store (s : EvmeState (D := D)) : RpcCacheStore C :=
  match backend s with Empty => NoopStore | Forked d => (fork_world d).2 end.
End fork.

(** * The commands *)

(** The options of the two commands; [run] has [rn_code] and [rn_codefile], [tx] has [rn_raw]. *)
Record RunCmd : Type := mkRunCmd {
  rn_code : option str;
  rn_codefile : option (result str EvmeError);
  rn_raw : option str;
  rn_tx_args : TxArgs;
  rn_prestate_args : PreStateArgs;
  rn_fork : bool;
  rn_fork_block : option Z;
  rn_rpc_args : RpcArgs;
  rn_env_args : EnvArgs;
  rn_dump_args : StateDumpArgs;
  rn_trace_args : TraceArgs;
  rn_json : bool;
}.

Section commands.
Context `{R : Revm} `{RS : RevmState} {J : Type} `{HJ : !JournalInspectTr J} {W : Type}.
Local Notation envs := (TestExternalEnvs AHashBucketHasher).
Context `{HH : !OpHost J W} `{HA : SystemAbi} `{HL : !LocalContext W} `{HK : !KeylessDeploy J W envs envs}.
Context `{HE : !OpEvm (J := J) (W := W) (S := envs) (O := envs)} `{HV : !OpValidation J W envs envs}.
Context {Url C N D F Tmp Json L : Type} `{HF : !ForkDb D} `{HEm : EmptyDb} `{HBc : BytecodeOps}.
Context `{HAr : Artifacts} `{HP : Parsers} `{HCd : TxCodec}.
Local Notation state_t := (EvmeState (D := D)).
Context `{HB : !EvmParts J W state_t} `{HPr : !OpPrecompiles J W} `{HD : ExecuteDefaults}.
Context `{HN : !EnvParts J W state_t}.
Context `{HFs : !Files F Tmp} `{HSc : !SharedCacheOps F C} `{HJs : RpcJson} `{HNw : !Network N Url}.
Context `{HRp : !ReplayRpc Url C N} `{HFp : !ForkProvider Url C N D}.
Context `{HRc : RevertCodec} `{HRe : !Report F Json L}.
Local Notation evm_t := (MegaEvm (J := J) (W := W) (S := envs) (O := envs)).
Context `{HTr : !Tracing evm_t state_t L}.
Context (from_frame_error : frame_error → upstream_error).
Context (from_tx_error : TxError frame_error → upstream_error).
Context (op_catch_error : ValidationError DBError upstream_error →
  step (J := J) (W := W) (S := envs) (O := envs) (ExecutionResult exec_data OpHaltReason)).
(** The transaction as upstream reads it, what is read of a result, [Address::create] and
    [effective_gas_price]. *)
Context (raw_of : MegaTx → RawTx (EvmParts := HB)).
Context (view : ExecutionResult exec_data (MegaHaltReason OpHaltReason) → TestResult L).
Context (created : Address → Z → Address) (effective_gas_price : MegaTx → Z → Z).

(** [execute_transaction] of the trace options: the EVM is left with what its database cached. *)
Definition execute_transaction (a : TraceArgs) (ctx : MegaContext J W envs envs) (tx : MegaTx)
    : panics (evm_t * result (TestResult L * EvmState * option str) EvmeError) :=
  if tr_trace a then
    '(evm, r) ← inspect_tx from_frame_error from_tx_error op_catch_error (raw_of tx)
                  (with_inspector (evm_new ctx));
    Some (evm, match r with
               | Ok (x, st) =>
                   Ok (view x, st, Some (generate_trace a (recorded evm) (view x) st (db evm)))
               | Err _ => Err ExecutionError
               end)
  else
    '(evm, r) ← transact from_frame_error from_tx_error op_catch_error (raw_of tx) (evm_new ctx);
    Some (evm, match r with Ok (x, st) => Ok (view x, st, None) | Err _ => Err ExecutionError end).

(** [create_initial_state]: the state, which holds the store of its provider. *)
Definition create_state (cmd : RunCmd) (sender : Address) (n : N) : fallible F EvmeError state_t := (
  let rpc := rn_rpc_args cmd in
  prestate ⇐ of_result (load_prestate (rn_prestate_args cmd) sender);
  block_hashes ⇐ of_result (parse_block_hashes (pa_block_hashes (rn_prestate_args cmd)));
  if rn_fork cmd then
    if negb (is_given (ra_rpc_url rpc)) then ffail InvalidInput
    else if is_given (ra_capture_file rpc) || is_given (ra_replay_file rpc) then ffail InvalidInput
    else
      '(n, out) ⇐ (λ fs, let '(n, fs, built) := build_provider rpc n fs in
                         Some (fs, and_then built (λ out, Ok (n, out))));
      d ⇐ of_result (fork_db (bo_provider out) (rn_fork_block cmd) (n, bo_cache_store out));
      fret (new_forked d prestate block_hashes)
  else fret (new_empty prestate block_hashes))%fallible.

(** The nonce of the sender before the execution. *)
Definition pre_nonce (sender : Address) (s : state_t) : result Z EvmeError :=
  and_then (basic_ref sender s) (λ i, Ok (match i with Some acc => nonce acc | None => 0 end)).

(** Executes in the environment of the options, and makes the outcome. *)
Definition execute_outcome (cmd : RunCmd) (pre_execution_nonce : Z) (s : state_t) (tx : MegaTx)
    : fallible F EvmeError (EvmeOutcome L * RpcCacheStore C) := (
  context ⇐ unwrap (create_evm_context s (rn_env_args cmd));
  ctx ⇐ of_result context;
  '(evm, executed) ⇐ unwrap (execute_transaction (rn_trace_args cmd) ctx tx);
  '(r, st, trace_data) ⇐ of_result executed;
  fret (mkOutcome pre_execution_nonce r st trace_data, state_store (db evm)))%fallible.

(** [persist()?] at the end. *)
Definition persist_store (store : RpcCacheStore C) : fallible F EvmeError unit := total (persist store).

(** * [run/cmd.rs] *)

Definition with_data (data : Bytes) (tx : MegaTx) : MegaTx :=
  let b := mt_base tx in
  mkMegaTx (with_gas_value_data (te_gas_limit b) (te_value b) data b) (mt_enveloped_tx tx)
    (mt_deposit tx).

(** The code that is not valid as it is becomes legacy code. *)
Definition code_of_bytes (code : Bytes) : Bytecode := default (OtherBytecode code) (new_raw_checked code).

Definition install_code (args : TxArgs) (code : Bytes) (s : state_t) : state_t :=
  if negb (create args) && negb (is_empty code)
  then set_account_code (receiver args) (code_of_bytes code) s else s.

Definition run_output (cmd : RunCmd) (outcome : EvmeOutcome L) : fallible F EvmeError unit := λ fs,
  let args := rn_tx_args cmd in
  let contract_address :=
    if create args && result_success (eo_exec_result outcome)
    then Some (created (sender args) (eo_pre_execution_nonce outcome)) else None in
  report (rn_json cmd) (tr_trace_output_file (rn_trace_args cmd)) (rn_dump_args cmd) outcome
    contract_address None fs.

Definition run_cmd (cmd : RunCmd) (n : N) : fallible F EvmeError unit := (
  let args := rn_tx_args cmd in
  loaded ⇐ of_result (load_hex (rn_code cmd) (rn_codefile cmd));
  code ⇐ ok_or loaded InvalidInput;
  s ⇐ create_state cmd (sender args) n;
  spec ⇐ of_result (chain_spec_id (ea_chain (rn_env_args cmd)));
  let s := deploy_system_contracts spec s in
  pre_execution_nonce ⇐ of_result (pre_nonce (sender args) s);
  let s := install_code args code s in
  tx ⇐ of_result (create_tx (ca_chain_id (ea_chain (rn_env_args cmd))) args);
  let tx := if create args then with_data (code ++ te_data (mt_base tx)) tx else tx in
  '(outcome, store) ⇐ execute_outcome cmd pre_execution_nonce s tx;
  _ ⇐ run_output cmd outcome;
  persist_store store)%fallible.

(** * [tx/cmd.rs] *)

(** The transaction: a raw one with the options as overrides, or one made of the options. *)
Definition command_tx (cmd : RunCmd) : result MegaTx EvmeError :=
  let args := rn_tx_args cmd in
  match rn_raw cmd with
  | Some raw =>
      and_then (load_hex (Some raw) None) (λ bytes,
      and_then (from_raw (default [] bytes)) (λ decoded,
      and_then (override_tx_env args decoded) (λ decoded, Ok (into_tx decoded))))
  | None => create_tx (ca_chain_id (ea_chain (rn_env_args cmd))) args
  end.

Definition tx_receipt (cmd : RunCmd) (outcome : EvmeOutcome L) (tx : MegaTx) : result (OpTxReceipt L) EvmeError :=
  let base := mt_base tx in
  let block := ea_block (rn_env_args cmd) in
  and_then (type_of_u8 (te_tx_type base)) (λ tx_type,
  let op_receipt := to_op_receipt outcome tx_type (eo_pre_execution_nonce outcome) in
  let contract_address :=
    if negb (is_given (te_kind base)) && receipt_success op_receipt
    then Some (created (te_caller base) (eo_pre_execution_nonce outcome)) else None in
  Ok (op_receipt_to_tx_receipt op_receipt (ba_block_number block) (ba_block_timestamp block)
        (te_caller base) (te_kind base) contract_address
        (effective_gas_price tx (ba_block_basefee block)) (result_gas_used (eo_exec_result outcome))
        None None 0)).

Definition tx_output (cmd : RunCmd) (outcome : EvmeOutcome L) (tx : MegaTx) : fallible F EvmeError unit := (
  receipt ⇐ of_result (tx_receipt cmd outcome tx);
  report (rn_json cmd) (tr_trace_output_file (rn_trace_args cmd)) (rn_dump_args cmd) outcome
    (or_contract_address receipt) (Some receipt))%fallible.

Definition tx_cmd (cmd : RunCmd) (n : N) : fallible F EvmeError unit := (
  spec ⇐ of_result (chain_spec_id (ea_chain (rn_env_args cmd)));
  tx ⇐ of_result (command_tx cmd);
  let sender := te_caller (mt_base tx) in
  s ⇐ create_state cmd sender n;
  let s := deploy_system_contracts spec s in
  pre_execution_nonce ⇐ of_result (pre_nonce sender s);
  '(outcome, store) ⇐ execute_outcome cmd pre_execution_nonce s tx;
  _ ⇐ tx_output cmd outcome tx;
  persist_store store)%fallible.

(** * Properties *)

Lemma of_result_some {S A E} (r : result A E) (s s' : S) x : of_result r s = Some (s', x) → s' = s ∧ x = r.
Proof. by destruct r; intros [= <- <-]. Qed.

(** The commands start from the state of the options: the fork is read at the block that was asked
    for, through the provider the options name. *)
Lemma create_state_initial cmd sender n fs fs' s :
  create_state cmd sender n fs = Some (fs', Ok s) →
  ∃ build, CliState.create_initial_state (rn_prestate_args cmd) sender (rn_fork cmd)
    (is_given (ra_rpc_url (rn_rpc_args cmd))) (is_given (ra_capture_file (rn_rpc_args cmd)))
    (is_given (ra_replay_file (rn_rpc_args cmd))) build = Ok s.
Proof.
  unfold create_state, CliState.create_initial_state. intros H. fbind_inv H.
  apply of_result_some in Hm as [-> <-]. fbind_inv H. apply of_result_some in Hm as [-> <-].
  destruct (rn_fork cmd); simpl; [|injection H as _ <-; by exists (Err RpcError)].
  destruct (negb _); [done|]. destruct (_ || _); [done|]. fbind_inv H. destruct x1 as [n1 out].
  fbind_inv H. apply of_result_some in Hm0 as [-> _]. injection H as _ <-. by exists (Ok x1).
Qed.

(** In call mode the given code is the receiver's code when the transaction runs. *)
Lemma installed_code args c s :
  create args = false → c ≠ [] →
  ∃ i, basic_ref (receiver args) (install_code args c s) = Ok (Some i) ∧
    code i = Some (code_of_bytes c) ∧ code_hash i = hash_slow (code_of_bytes c) ∧
    code_by_hash_ref (hash_slow (code_of_bytes c)) (install_code args c s) = Ok (code_of_bytes c).
Proof.
  intros Hc Hn. unfold install_code. rewrite Hc. destruct c as [|b c]; [done|]. simpl.
  unfold set_account_code, with_prestate, add_code, basic_ref, code_by_hash_ref. simpl.
  unfold update_account. rewrite !lookup_insert_eq. by eexists.
Qed.

(** The receipt of [tx]: who sent it to whom, what it used, and the contract it created, if it is a
    creation that succeeded. *)
Lemma tx_receipt_spec cmd outcome tx rc :
  tx_receipt cmd outcome tx = Ok rc →
  or_from rc = te_caller (mt_base tx) ∧ or_to rc = te_kind (mt_base tx) ∧
  or_gas_used rc = result_gas_used (eo_exec_result outcome) ∧
  rb_cumulative_gas_used (receipt_body (or_inner rc)) = or_gas_used rc ∧
  receipt_success (or_inner rc) = result_success (eo_exec_result outcome) ∧
  or_contract_address rc =
    (if negb (is_given (te_kind (mt_base tx))) && result_success (eo_exec_result outcome)
     then Some (created (te_caller (mt_base tx)) (eo_pre_execution_nonce outcome)) else None).
Proof.
  unfold tx_receipt. destruct (type_of_u8 _) as [ty|]; [|done]. intros [= <-]. by destruct ty.
Qed.
End commands.
