(* ===== verification/CliExecute.v ===== *)
(** The execution of a replay: [execute], [execute_and_report] and [output_results] of
    [bin/mega-evme/src/replay/cmd.rs].

    The block executor runs the transactions before the target and then the target, on a fork of the
    parent block.  The executor's database holds the fork, and with it the network and the store of
    the provider: a transaction that is fetched while the block runs goes through it
    ([ReplayDb]).  What is read of RPC objects is the class [ReplayReads], the EVM the class
    [ReplayEvm]; the EVM of [MegaEvm] is an instance. *)

From stdpp Require Import sorting.
From S2P Require Import Prelude Spec Revm LimitCheck Interfaces AdditionalLimit Access DynamicGas.
From S2P Require Import StateTest SystemTx Context Intercept Execution EvmState Validation Precompiles.
From S2P Require Import Hardfork BlockLimit Effects SystemContracts SequencerRegistry BlockEvm.
From S2P Require Import BlockExecutor MegaEvm MemoryEnvs CliInput CliTx CliState CliRpc.
From S2P Require Import CliReplay CliFixture CliRun.

(** * Interfaces *)

(** The receipt of a transaction on chain. *)
Record RpcReceipt (L : Type) : Type := mkRpcReceipt {
  rr_block_hash : option Z;
  rr_gas_used : Z;
  rr_status : bool;
  rr_logs : list L;
}.
Arguments rr_block_hash {L} _.
Arguments rr_gas_used {L} _.
Arguments rr_status {L} _.
Arguments rr_logs {L} _.

Class ReplayReads (Url C N L : Type) `{HR : !ReplayRpc Url C N} := {
  (** [as_recovered], as the executor converts it, and the codec of its encoding. *)
  rt_tx : RpcTransaction → MegaTx;
  rt_codec : Tx2718 RpcTransaction MegaTx;
  rt_to : RpcTransaction → option Address;
  rt_effective_gas_price : RpcTransaction → option Z;
  (** The fields and the name a fixture records. *)
  rt_target : RpcTransaction → TargetTx;
  rt_name : RpcTransaction → str;
  rpc_block_hash : RpcBlock → Z;
  rpc_beacon_root : RpcBlock → option Z;
  rpc_extra_data : RpcBlock → Bytes;
  get_transaction_receipt : OpProvider Url C → Z → N * RpcCacheStore C →
    N * RpcCacheStore C * result (option (RpcReceipt L)) TransportError;
}.

(** revm's [State] over the forked state. *)
Class ReplayDb (D DB N C : Type) := {
  state_build : EvmeState (D := D) → DB;
  db_world : DB → N * RpcCacheStore C;
  db_with_world : N * RpcCacheStore C → DB → DB;
  db_basic_ref : Address → DB → DB * result (option AccountInfo) EvmeError;
  (** The same for accounts and codes that the execution has loaded. *)
  db_loaded_basic : Address → DB → option (option AccountInfo);
  db_loaded_code : Z → DB → option Bytecode;
}.

Class ReplayEvm (V J W DB L : Type) `{BE : !BlockEvm V DB} `{HB : !EvmParts J W DB} := {
  (** [MegaEvmFactory::new().with_external_env_factory(envs)], and [create_evm_with_inspector]. *)
  evm_of : TestExternalEnvs AHashBucketHasher → DB → CfgEnv MegaSpecId → BlockEnv → panics V;
  evm_with_limits : EvmTxRuntimeLimits → V → V;
  (** [inspector_mut().fuse()]. *)
  fuse : V → V;
  raw_tx : MegaTx → tx_env;
  exec_view : exec_result → TestResult L;
}.

(** * Transactions *)

(** A transaction as it was fetched, or the target with its overrides and the input that [wrap] left
    in the thread. *)
Inductive ReplayTx (T : Type) : Type :=
  | AsRecovered (t : T)
  | WithOverrides (o : OverriddenTx T) (cell : option Bytes).
Arguments AsRecovered {T} _.
Arguments WithOverrides {T} _ _.

Definition replay_inner {T} (t : ReplayTx T) : T :=
  match t with AsRecovered t => t | WithOverrides o _ => ot_inner o end.

(** Everything but the environment is that of the inner transaction. *)
Definition replay_codec {T Env} (codec : Tx2718 T MegaTx) (raw : MegaTx → Env)
    : Tx2718 (ReplayTx T) Env := {|
  tx_ty t := tx_ty (replay_inner t);
  inner_tx_hash t := inner_tx_hash (replay_inner t);
  tx_gas_limit_of t := tx_gas_limit_of (replay_inner t);
  trie_hash t := trie_hash (replay_inner t);
  tx_signer t := tx_signer (replay_inner t);
  into_tx_env t :=
    raw match t with
        | AsRecovered t => into_tx_env t
        | WithOverrides o cell => overridden_into_tx_env into_tx_env cell o
        end;
  encode_2718_len t := encode_2718_len (replay_inner t);
  estimated_size_fjord t := estimated_size_fjord (replay_inner t);
|}.

(** * The execution *)

(** [sort_unstable] on pairs. *)
Definition pair_le (x y : Z * Z) : Prop := x.1 < y.1 ∨ (x.1 = y.1 ∧ x.2 ≤ y.2).
#[export] Instance pair_le_dec : RelDecision pair_le.
Proof. intros x y. unfold pair_le. apply _. Defined.
Definition sort_pairs (l : list (Z * Z)) : list (Z * Z) := merge_sort pair_le l.

(** [tr_*] of the command, with what [run] reads. *)
Record ReplayCmd : Type := mkReplayCmd {
  rc_args : ReplayArgs;
  rc_dump_args : StateDumpArgs;
  rc_trace_args : TraceArgs;
  rc_json : bool;
}.

Section execute.
Context `{Rv : Revm} `{RS : RevmState} `{HA : Artifacts} {Url C N D DB V J W : Type}.
Context `{HTr : TestRun} `{HBc : BytecodeOps} `{HPs : Parsers}.
Context `{HRp : !ReplayRpc Url C N} `{HRd : !ReplayReads Url C N TestLog}.
Context `{HFp : !ForkProvider Url C N D} `{HDb : !ReplayDb D DB N C} `{HBs : !BlockState DB}.
Context `{BE : !BlockEvm V DB} `{HB : !EvmParts J W DB} `{HN : !EnvParts J W DB}.
Context `{HEv : !ReplayEvm V J W DB TestLog} `{HTc : !Tracing V DB TestLog}.
Context {H : Type} `{HH : !StateHook H}.
Local Notation tx_t := (ReplayTx RpcTransaction).
#[local] Instance replay_tx_codec : Tx2718 tx_t tx_env := replay_codec rt_codec raw_tx.
#[local] Instance replay_tx_ext : MegaTransactionExt tx_t := recomputing_ext.
(** [OpAlloyReceiptBuilder]. *)
Context `{HRb : !ReceiptBuilder tx_t exec_result logs_t}.
Context (envelope_of : Receipt → OpReceiptEnvelope TestLog).
Context (apply_calldata : Bytes) (b256_bytes : Z → Bytes).
Context (HISTORY_STORAGE_ADDRESS BEACON_ROOTS_ADDRESS : Address).
Context (increments : Hardforks → V → list (Address * Z)).
(** [Address::create]. *)
Context (created : Address → Z → Address).

Local Notation world := (N * RpcCacheStore C)%type.
Local Notation executor := (MegaBlockExecutor (V := V) (H := H) (HR := HRb)).
Local Notation outcome_t := (BlockMegaTransactionOutcome tx_t exec_result).
Local Notation context_t := (ReplayContext Url C N).
Local Notation provider_t := (OpProvider Url C).
Local Notation envs := (TestExternalEnvs AHashBucketHasher).

(** ** What a fixture needs *)

Definition anchor_of (receipt : RpcReceipt TestLog) : OnchainAnchor :=
  mkAnchor (rr_gas_used receipt) (rr_status receipt) (log_rlp_hash (rr_logs receipt)).

(** A pending transaction has no receipt; a receipt of another block is not the transaction's. *)
Definition fixture_inputs (cmd : ReplayArgs) (provider : provider_t) (ctx : context_t) (e : envs) (w : world)
    : world * result (option (MegaEnv * OnchainAnchor)) EvmeError :=
  if is_given (rp_dump_fixture cmd) then
    match rt_block_number (rx_target_tx ctx) with
    | None => (w, Err Other)
    | Some _ =>
        let mega_env := mkMegaEnv (sort_pairs (bucket_capacities e)) (sort_pairs (oracle_storage e)) in
        let '(w, r) := get_transaction_receipt provider (rp_tx_hash cmd) w in
        (w, and_then (found (TransactionNotFound (rp_tx_hash cmd)) r) (λ receipt,
            match rr_block_hash receipt with
            | Some h =>
                if negb (h =? rpc_block_hash (rx_block ctx)) then Err Other
                else Ok (Some (mega_env, anchor_of receipt))
            | None => Ok (Some (mega_env, anchor_of receipt))
            end))
    end
  else (w, Ok None).

(** ** Steps of the executor *)

(** [map_err(Block execution error)?]. *)
Definition block_step {A E} (m : fallible executor E A) : fallible executor EvmeError A :=
  zoom (λ ex, ex) (λ ex _, ex) (λ _, Other) m.

Definition over_db {A} (m : DB → DB * result A EvmeError) : fallible executor EvmeError A :=
  zoom (λ ex, evm_db (ex_evm ex)) (λ d ex, with_evm (evm_with_db d (ex_evm ex)) ex) (λ e, e) (total m).

(** A call of the provider, on the network and the store under the database. *)
Definition over_world {A} (m : world → world * result A EvmeError) : fallible executor EvmeError A :=
  over_db (λ d, let '(w, r) := m (db_world d) in (db_with_world w d, r)).

Definition fetch_transaction (provider : provider_t) (hash : Z) (w : world)
    : world * result RpcTransaction EvmeError :=
  let '(w, r) := get_transaction_by_hash provider hash w in (w, found (TransactionNotFound hash) r).

Fixpoint run_preceding (provider : provider_t) (hashes : list Z) : fallible executor EvmeError unit := (
  match hashes with
  | [] => fret tt
  | hash :: hashes =>
      tx ⇐ over_world (fetch_transaction provider hash);
      outcome ⇐ block_step (run_transaction (AsRecovered tx));
      _ ⇐ block_step (commit_transaction_outcome outcome);
      run_preceding provider hashes
  end)%fallible.

(** What the run of the target leaves before it is committed. *)
Record TargetRun : Type := mkTargetRun {
  tn_pre_execution_nonce : Z;
  tn_outcome : outcome_t;
  tn_trace_data : option str;
  tn_fixture : option FixtureDraft;
}.

(** The draft: refused when the target read a block hash. *)
Definition target_draft (ctx : context_t) (executed_spec : MegaSpecId)
    (inputs : option (MegaEnv * OnchainAnchor)) (r : TestResult TestLog) (state : gmap Z Account)
    : fallible executor EvmeError (option FixtureDraft) := λ ex,
  match inputs with
  | None => Some (ex, Ok None)
  | Some (mega_env, anchor) =>
      Some (ex,
        if negb (bool_decide (get_accessed_block_hashes ex = ∅)) then Err Other
        else
          and_then (build_draft db_loaded_basic db_loaded_code (evm_db (ex_evm ex)) state
                      (rx_chain_id ctx) executed_spec (rb_header (rx_block ctx))
                      (rt_target (rx_target_tx ctx)) (rt_name (rx_target_tx ctx))
                      (mkInputs mega_env r anchor)) (λ draft, Ok (Some draft)))
  end.

Definition run_target (cmd : ReplayCmd) (ctx : context_t) (executed_spec : MegaSpecId)
    (inputs : option (MegaEnv * OnchainAnchor)) (cell : option Bytes)
    : fallible executor EvmeError TargetRun :=
  let '(cell, wrapped) := wrap (rp_tx_override_args (rc_args cmd)) cell in (
  overrides ⇐ of_result wrapped;
  let tx := WithOverrides (mkOverridden (rx_target_tx ctx) overrides) cell in
  info ⇐ over_db (db_basic_ref (tx_signer tx));
  _ ⇐ fmodify (λ ex, with_evm (fuse (ex_evm ex)) ex);
  outcome ⇐ block_step (run_transaction tx);
  evm ⇐ fgets ex_evm;
  let r := exec_view (mo_result (bo_inner outcome)) in
  let state := mo_state (bo_inner outcome) in
  let trace_data :=
    if tr_trace (rc_trace_args cmd)
    then Some (generate_trace (rc_trace_args cmd) (recorded evm) r state (evm_db evm)) else None in
  fixture ⇐ target_draft ctx executed_spec inputs r state;
  fret (mkTargetRun (match info with Some acc => nonce acc | None => 0 end) outcome trace_data fixture))%fallible.

Record ReplayOutcome : Type := mkReplayOutcome {
  ro_outcome : EvmeOutcome TestLog;
  ro_receipt : OpTxReceipt TestLog;
  ro_fixture : option FixtureDraft;
}.

Definition replay_receipt (ctx : context_t) (pre_execution_nonce gas_used : Z)
    (envelope : OpReceiptEnvelope TestLog) : OpTxReceipt TestLog :=
  let target := rx_target_tx ctx in
  let h := rb_header (rx_block ctx) in
  let from := tx_signer (AsRecovered target) in
  let to := rt_to target in
  op_receipt_to_tx_receipt envelope (hd_number h) (hd_timestamp h) from to
    (if negb (is_given to) && receipt_success envelope then Some (created from pre_execution_nonce) else None)
    (default 0 (rt_effective_gas_price target)) gas_used
    (Some (inner_tx_hash (AsRecovered target))) (Some (rpc_block_hash (rx_block ctx)))
    (Z.of_nat (length (rx_preceding_tx_hashes ctx))).

(** The transactions before the target, the target, and the end of the block. *)
Definition replay_block (cmd : ReplayCmd) (provider : provider_t) (ctx : context_t)
    (executed_spec : MegaSpecId) (inputs : option (MegaEnv * OnchainAnchor)) (cell : option Bytes)
    : fallible executor EvmeError ReplayOutcome := (
  _ ⇐ block_step (apply_pre_execution_changes apply_calldata b256_bytes HISTORY_STORAGE_ADDRESS
                    BEACON_ROOTS_ADDRESS);
  _ ⇐ run_preceding provider (rx_preceding_tx_hashes ctx);
  _ ⇐ fmodify clear_accessed_block_hashes;
  target ⇐ run_target cmd ctx executed_spec inputs cell;
  gas_used ⇐ block_step (commit_transaction_outcome (tn_outcome target));
  block_result ⇐ block_step (finish increments);
  receipt ⇐ unwrap (last (ber_receipts block_result));
  let inner := bo_inner (tn_outcome target) in
  fret (mkReplayOutcome
          (mkOutcome (tn_pre_execution_nonce target) (exec_view (mo_result inner)) (mo_state inner)
             (tn_trace_data target))
          (replay_receipt ctx (tn_pre_execution_nonce target) gas_used (envelope_of receipt))
          (tn_fixture target)))%fallible.

(** ** Setting up *)

Definition get_hardfork_config (chain_id : Z) : panics Hardforks := hardfork_schedule chain_id.

(** The spec and the limits: an override replaces the spec and the limits of transactions. *)
Definition spec_and_limits (cmd : ReplayArgs) (spec : MegaSpecId) (limits : BlockLimits)
    : result (MegaSpecId * BlockLimits) EvmeError :=
  match rp_spec_override cmd with
  | None => Ok (spec, limits)
  | Some name =>
      match spec_from_str name with
      | Ok spec => Ok (spec, BlockLimit.with_tx_runtime_limits (from_spec spec) limits)
      | Err _ => Err Other
      end
  end.

(** The environment, the inputs of a fixture, the spec and the limits, or the first error. *)
Definition prepare (cmd : ReplayArgs) (provider : provider_t) (ctx : context_t) (e : envs)
    (hardforks : Hardforks) (w : world)
    : world * result (CfgEnv MegaSpecId * BlockEnv * option (MegaEnv * OnchainAnchor) * MegaSpecId * BlockLimits)
                EvmeError :=
  let h := rb_header (rx_block ctx) in
  let spec := spec_id (hd_timestamp h) hardforks in
  match retrieve_block_env (rx_block ctx), create_cfg_env (mkChainArgs (spec_name spec) (rx_chain_id ctx)) with
  | Err err, _ => (w, Err err)
  | Ok _, Err err => (w, Err err)
  | Ok block_env, Ok cfg =>
      let '(w, inputs) := fixture_inputs cmd provider ctx e w in
      (w, and_then inputs (λ inputs,
          and_then (match hardfork (hd_timestamp h) hardforks with Some f => Ok f | None => Err Other end)
            (λ fork,
          and_then (spec_and_limits cmd spec (from_hardfork_and_block_gas_limit fork (hd_gas_limit h)))
            (λ '(spec, limits),
          Ok (into_megaeth_cfg spec cfg, block_env, inputs, spec, limits)))))
  end.

(** The executor on a fork of the parent block; the tools are built with [test-utils].  Making the
    fork reads nothing. *)
Definition replay_executor (provider : provider_t) (ctx : context_t) (e : envs) (hardforks : Hardforks)
    (cfg : CfgEnv MegaSpecId) (block_env : BlockEnv) (limits : BlockLimits) (w : world) : panics executor :=
  let parent := rb_header (rx_parent_block ctx) in
  let database := new_forked (fork_at provider (hd_number parent) w) ∅ ∅ in
  evm ← evm_of e (state_build database) cfg block_env;
  create_executor true evm_with_limits evm
    (mkExecutionCtx (rpc_block_hash (rx_parent_block ctx)) (rpc_beacon_root (rx_block ctx))
       (rpc_extra_data (rx_block ctx)) limits) hardforks.

(** [execute]: the world is under the database while the executor lives. *)
Definition execute (cmd : ReplayCmd) (cell : option Bytes) (provider : provider_t) (ctx : context_t)
    (e : envs) (w : world) : panics (world * result ReplayOutcome EvmeError) :=
  hardforks ← get_hardfork_config (rx_chain_id ctx);
  let '(w, prepared) := prepare (rc_args cmd) provider ctx e hardforks w in
  match prepared with
  | Err err => Some (w, Err err)
  | Ok (cfg, block_env, inputs, executed_spec, limits) =>
      ex ← replay_executor provider ctx e hardforks cfg block_env limits w;
      '(ex, r) ← replay_block cmd provider ctx executed_spec inputs cell ex;
      Some (db_world (evm_db (ex_evm ex)), r)
  end.

(** * Reporting *)

Context {F Json : Type} `{HRc : RevertCodec} `{HRe : !Report F Json TestLog}.
(** The fixture file is written beside its target and renamed. *)
Context (write_suite : path → TestSuite → F → F * result unit EvmeError).

Definition replay_output (cmd : ReplayCmd) (result : ReplayOutcome) (fs : F) : panics (F * Prelude.result unit EvmeError) :=
  report (rc_json cmd) (tr_trace_output_file (rc_trace_args cmd)) (rc_dump_args cmd) (ro_outcome result)
    (or_contract_address (ro_receipt result)) (Some (ro_receipt result)) fs.

Definition write_fixture (cmd : ReplayCmd) (result : ReplayOutcome) (fs : F)
    : panics (F * Prelude.result unit EvmeError) :=
  match rp_dump_fixture (rc_args cmd), ro_fixture result with
  | Some p, Some draft =>
      finalized ← finalize_and_write draft;
      Some (match finalized with Ok suite => write_suite p suite fs | Err err => (fs, Err err) end)
  | _, _ => Some (fs, Ok tt)
  end.

Definition execute_and_report (cmd : ReplayCmd) (cell : option Bytes) (provider : provider_t)
    (ctx : context_t) (e : envs) (s : N * RpcCacheStore C * F)
    : panics (N * RpcCacheStore C * F * Prelude.result unit EvmeError) :=
  let '(n, store, fs) := s in
  '(n, store, executed) ← execute cmd cell provider ctx e (n, store);
  match executed with
  | Err err => Some (n, store, fs, Err err)
  | Ok result =>
      '(fs, reported) ← replay_output cmd result fs;
      match reported with
      | Err err => Some (n, store, fs, Err err)
      | Ok _ => '(fs, written) ← write_fixture cmd result fs; Some (n, store, fs, written)
      end
  end.
End execute.

(** * The EVM of the crate *)

Section mega.
Context `{R : Revm} `{RS : RevmState} {J W DB : Type} `{HJ : !JournalInspectTr J}.
Local Notation envs := (TestExternalEnvs AHashBucketHasher).
Context `{HH : !OpHost J W} `{HA : SystemAbi} `{HLc : !LocalContext W} `{HK : !KeylessDeploy J W envs envs}.
Context `{HE : !OpEvm (J := J) (W := W) (S := envs) (O := envs)} `{HV : !OpValidation J W envs envs}.
Context `{HB : !EvmParts J W DB} `{HPr : !OpPrecompiles J W} `{HD : ExecuteDefaults}.
Context (from_frame_error : frame_error → upstream_error).
Context (from_tx_error : TxError frame_error → upstream_error).
Context (op_catch_error : ValidationError DBError upstream_error →
  step (J := J) (W := W) (S := envs) (O := envs) (ExecutionResult exec_data OpHaltReason)).
Context (data_gas_used : exec_data → Z) {L : Type} (data_logs : exec_data → list L).
Context (raw_of : MegaTx → RawTx (EvmParts := HB)).
Context (view : ExecutionResult exec_data (MegaHaltReason OpHaltReason) → TestResult L).

#[local] Instance replay_block_evm : BlockEvm (MegaEvm (J := J) (W := W) (S := envs) (O := envs)) DB :=
  mega_block_evm from_frame_error from_tx_error op_catch_error data_gas_used (list L) data_logs [].

(** One environment is the SALT and the oracle of every block; what a tracer recorded is not part of
    the EVM, so clearing it changes nothing. *)
Definition mega_replay_evm : ReplayEvm (MegaEvm (J := J) (W := W) (S := envs) (O := envs)) J W DB L :=
  Build_ReplayEvm _ _ _ _ _ replay_block_evm HB
    (λ e d cfg block, create_evm_with_inspector (mkFactory (λ _, (e, e)) None) d block cfg)
    evm_with_tx_runtime_limits (λ evm, evm) raw_of view.
End mega.
