(* ===== verification/T8n.v ===== *)
(** The transition tool: [bin/mega-t8n/src/]: [types/transaction.rs], [cmd.rs], [io.rs], [utils.rs]
    and the results of [types/].

    A transaction of the input is converted to a signed envelope, whose hash identifies it in the
    receipts; [v] is turned into the parity of the signature.  Every transaction is executed on the
    EVM of [MegaEvm], in a context made for it, over one state that lives through the transition.
    revm's state, the roots, the bloom filter, key recovery, JSON and the files are parameters: the
    classes [T8nState], [T8nHashes] and [T8nFiles]. *)

From S2P Require Import Prelude Spec Revm CliInput CliTx CliTxFacts LimitCheck Interfaces.
From S2P Require Import AdditionalLimit Access DynamicGas StateTest SystemTx Context Intercept.
From S2P Require Import Execution EvmState Validation Precompiles SystemContracts BlockLimit.
From S2P Require Import Effects BlockEvm MegaEvm CliState.

Record SignedAuthorization : Type := mkSignedAuth {
  sa_inner : AuthorizationFields;
  sa_y_parity : Z;
  sa_r : U256;
  sa_s : U256;
}.

Record Transaction : Type := mkT8nTx {
  tx_type : option Z;
  chain_id : option U256;
  tx_nonce : Z;
  gas_price : option Z;
  max_fee_per_gas : option Z;
  max_priority_fee_per_gas : option Z;
  tx_gas : Z;
  tx_to : option Address;
  tx_value : U256;
  tx_data : Bytes;
  access_list : option (list AccessListItem);
  authorization_list : option (list SignedAuthorization);
  max_fee_per_blob_gas : option U256;
  blob_versioned_hashes : list Z;
  sig_v : U256;
  sig_r : U256;
  sig_s : U256;
  secret_key : option Z;
}.

Inductive TransactionConversionError : Type :=
  | UnsupportedType (ty : Z)
  | MissingField (field : string)
  | InvalidSignature (what : string)
  | Eip7702CannotBeCreate.

Record Signature : Type := mkSignature {
  s_r : U256;
  s_s : U256;
  s_y_parity : bool;
}.

(** A signed [MegaTxEnvelope]; a deposit is never built. *)
Inductive SignedEnvelope : Type :=
  | SignedLegacy (chain_id : option Z) (nonce gas_price gas_limit : Z) (to : option Address)
      (value : U256) (input : Bytes) (signature : Signature)
  | SignedEip2930 (chain_id nonce gas_price gas_limit : Z) (to : option Address) (value : U256)
      (access_list : list AccessListItem) (input : Bytes) (signature : Signature)
  | SignedEip1559 (chain_id nonce gas_limit max_fee_per_gas max_priority_fee_per_gas : Z)
      (to : option Address) (value : U256) (access_list : list AccessListItem) (input : Bytes)
      (signature : Signature)
  | SignedEip7702 (chain_id nonce gas_limit max_fee_per_gas max_priority_fee_per_gas : Z)
      (to : Address) (value : U256) (access_list : list AccessListItem)
      (authorization_list : list SignedAuthorization) (input : Bytes) (signature : Signature).

(** [u64::try_from] of a [U256]. *)
Definition try_u64 (x : U256) : option Z := if x <=? u64_max then Some x else None.

Definition ok_or_else {A} (x : option A) (e : TransactionConversionError)
    : result A TransactionConversionError :=
  match x with Some x => Ok x | None => Err e end.

Section conversion.
Implicit Types t : Transaction.

(** [chain_id * 2 + 35] wraps. *)
Definition y_parity_of (chain v : Z) : bool :=
  let base := wmul chain 2 +w 35 in
  if base <=? v then v -w wmul chain 2 -w 35 =? 1 else v =? 28.

Definition to_signature t : result Signature TransactionConversionError :=
  and_then
    (match chain_id t with
     | Some id =>
         and_then (ok_or_else (try_u64 id) (InvalidSignature "chain_id too large")) (λ chain,
         and_then (ok_or_else (try_u64 (sig_v t)) (InvalidSignature "v value too large")) (λ v,
         Ok (y_parity_of chain v)))
     | None =>
         and_then (ok_or_else (try_u64 (sig_v t)) (InvalidSignature "v value too large")) (λ v,
         Ok (v =? 28))
     end) (λ y_parity,
  Ok (mkSignature (sig_r t) (sig_s t) y_parity)).

Definition required_chain_id t : result Z TransactionConversionError :=
  ok_or_else (chain_id t ≫= try_u64) (MissingField "chain_id").
Definition required_gas_price t : result Z TransactionConversionError :=
  ok_or_else (gas_price t) (MissingField "gas_price").
Definition required_max_fee t : result Z TransactionConversionError :=
  ok_or_else (max_fee_per_gas t) (MissingField "max_fee_per_gas").
Definition required_priority_fee t : result Z TransactionConversionError :=
  ok_or_else (max_priority_fee_per_gas t) (MissingField "max_priority_fee_per_gas").

(** [to_envelope] by type, and its dispatch; the type defaults to that of a legacy transaction. *)
Definition to_legacy t (signature : Signature) : result SignedEnvelope TransactionConversionError :=
  and_then (required_gas_price t) (λ price,
  Ok (SignedLegacy (chain_id t ≫= try_u64) (tx_nonce t) price (tx_gas t) (tx_to t) (tx_value t)
        (tx_data t) signature)).

Definition to_eip2930 t (signature : Signature) : result SignedEnvelope TransactionConversionError :=
  and_then (required_chain_id t) (λ chain,
  and_then (required_gas_price t) (λ price,
  Ok (SignedEip2930 chain (tx_nonce t) price (tx_gas t) (tx_to t) (tx_value t)
        (default [] (access_list t)) (tx_data t) signature))).

Definition to_eip1559 t (signature : Signature) : result SignedEnvelope TransactionConversionError :=
  and_then (required_chain_id t) (λ chain,
  and_then (required_max_fee t) (λ max_fee,
  and_then (required_priority_fee t) (λ priority_fee,
  Ok (SignedEip1559 chain (tx_nonce t) (tx_gas t) max_fee priority_fee (tx_to t) (tx_value t)
        (default [] (access_list t)) (tx_data t) signature)))).

Definition to_eip7702 t (signature : Signature) : result SignedEnvelope TransactionConversionError :=
  and_then (required_chain_id t) (λ chain,
  and_then (required_max_fee t) (λ max_fee,
  and_then (required_priority_fee t) (λ priority_fee,
  and_then (ok_or_else (tx_to t) Eip7702CannotBeCreate) (λ to_addr,
  and_then (ok_or_else (authorization_list t) (MissingField "authorization_list")) (λ auth,
  Ok (SignedEip7702 chain (tx_nonce t) (tx_gas t) max_fee priority_fee to_addr (tx_value t)
        (default [] (access_list t)) auth (tx_data t) signature)))))).

Definition to_envelope t : result SignedEnvelope TransactionConversionError :=
  and_then (to_signature t) (λ signature,
  let ty := default 0 (tx_type t) in
  if ty =? 0 then to_legacy t signature
  else if ty =? 1 then to_eip2930 t signature
  else if ty =? 2 then to_eip1559 t signature
  else if ty =? 4 then to_eip7702 t signature
  else Err (UnsupportedType ty)).
End conversion.

(** * Signatures *)

(** [v] of a legacy transaction signed under EIP-155, and of one that is not. *)
Definition eip155_v (chain : Z) (y_parity : bool) : Z := chain * 2 + 35 + Z.b2z y_parity.
Definition plain_v (y_parity : bool) : Z := 27 + Z.b2z y_parity.

Lemma parity_eip155 chain (y : bool) :
  0 ≤ chain → eip155_v chain true ≤ u64_max → y_parity_of chain (eip155_v chain y) = y.
Proof.
  intros H0 Hm. unfold y_parity_of, eip155_v in *. cbn [Z.b2z] in Hm.
  assert (wmul chain 2 = chain * 2) as -> by (apply wrap64_small; u64_lia).
  rewrite wadd_small by u64_lia. rewrite (proj2 (Z.leb_le _ _)) by (destruct y; simpl; lia).
  rewrite (wsub_small _ (chain * 2)) by (destruct y; cbn [Z.b2z]; u64_lia).
  rewrite wsub_small by (destruct y; cbn [Z.b2z]; u64_lia).
  destruct y; cbn [Z.b2z]; [apply Z.eqb_eq|apply Z.eqb_neq]; lia.
Qed.

Lemma parity_plain chain (y : bool) :
  0 ≤ chain → eip155_v chain true ≤ u64_max → y_parity_of chain (plain_v y) = y.
Proof.
  intros H0 Hm. unfold y_parity_of, eip155_v, plain_v in *. cbn [Z.b2z] in Hm.
  assert (wmul chain 2 = chain * 2) as -> by (apply wrap64_small; u64_lia).
  rewrite wadd_small by u64_lia. rewrite (proj2 (Z.leb_gt _ _)) by (destruct y; simpl; lia).
  by destruct y.
Qed.

(** The parity of a signature survives both encodings of a legacy transaction. *)
Lemma legacy_parity t chain (y : bool) sg :
  chain_id t = Some chain → 0 ≤ chain → eip155_v chain true ≤ u64_max →
  sig_v t = eip155_v chain y ∨ sig_v t = plain_v y → to_signature t = Ok sg → s_y_parity sg = y.
Proof.
  intros Hc H0 Hm Hv H. apply and_then_ok in H as (b & Hb & H). injection H as <-. simpl.
  rewrite Hc in Hb. unfold try_u64 in Hb.
  destruct (chain <=? u64_max); simpl in Hb; [|done].
  destruct (sig_v t <=? u64_max); simpl in Hb; [|done]. injection Hb as <-.
  destruct Hv as [->| ->]; [by apply parity_eip155|by apply parity_plain].
Qed.

(** A typed transaction carries its parity itself, as a [v] of 0 or 1: it is always read as even. *)
Lemma typed_parity_lost t chain sg :
  chain_id t = Some chain → 0 ≤ chain → eip155_v chain true ≤ u64_max → sig_v t = 1 →
  to_signature t = Ok sg → s_y_parity sg = false.
Proof.
  intros Hc H0 Hm Hv H. apply and_then_ok in H as (b & Hb & H). injection H as <-. simpl.
  rewrite Hc, Hv in Hb. unfold try_u64 in Hb.
  destruct (chain <=? u64_max); simpl in Hb; [|done]. injection Hb as <-.
  unfold y_parity_of, eip155_v in *. cbn [Z.b2z] in Hm.
  assert (wmul chain 2 = chain * 2) as -> by (apply wrap64_small; u64_lia).
  rewrite wadd_small by u64_lia. rewrite (proj2 (Z.leb_gt _ _)) by lia. done.
Qed.

(** * Errors *)

Inductive T8nError : Type :=
  | InputLoad (file : str)
  | JsonParse (file : str)
  | OutputWrite (file : str)
  | InvalidTransaction.

(** * Inputs and results *)

(** Prestate and post-state: [HashMap<Address, AccountInfo>]. *)
Abbreviation StateAlloc := (gmap Z TestAccount) (only parsing).

Record TransitionInputs : Type := mkT8nInputs {
  in_alloc : StateAlloc;
  in_env : Env;
  in_txs : list Transaction;
}.

Record Log : Type := mkLog {
  log_address : Address;
  log_topics : list Z;
  log_data : Bytes;
}.

Record TransactionLog : Type := mkTxLog {
  tl_address : Address;
  tl_topics : list Z;
  tl_data : Bytes;
  tl_block_number : Z;
  tl_transaction_hash : Z;
  tl_transaction_index : Z;
  tl_block_hash : Z;
  tl_log_index : Z;
  tl_removed : bool;
}.

Record ReceiptDelegation : Type := mkDelegation {
  rd_from_address : Address;
  rd_nonce : Z;
  rd_target : Address;
}.

Record TransactionReceipt : Type := mkReceipt {
  tr_transaction_hash : Z;
  tr_gas_used : Z;
  tr_root : option Z;
  tr_status : Z;
  tr_cumulative_gas_used : Z;
  tr_logs_bloom : option Z;
  tr_logs : list TransactionLog;
  tr_contract_address : option Address;
  tr_effective_gas_price : option Z;
  tr_block_hash : option Z;
  tr_transaction_index : option Z;
  tr_blob_gas_used : option Z;
  tr_blob_gas_price : option Z;
  tr_delegations : option (list ReceiptDelegation);
}.

(** The receipt the three branches build: the fields that are always empty are left empty. *)
Definition receipt_of (hash status cumulative gas : Z) (logs : list TransactionLog)
    : TransactionReceipt :=
  mkReceipt hash gas None status cumulative None logs None None None None None None None.

(** Why a transaction was rejected: the text of the conversion's or of the EVM's error. *)
Inductive RejectReason (E : Type) : Type :=
  | ConversionFailed (e : T8nError)
  | ExecutionFailed (e : E).
Arguments ConversionFailed {E} _.
Arguments ExecutionFailed {E} _.

Record RejectedTx (E : Type) : Type := mkRejected {
  rj_index : Z;
  rj_error : RejectReason E;
}.
Arguments mkRejected {E} _ _.
Arguments rj_index {E} _.
Arguments rj_error {E} _.

(** * Upstream *)

(** revm's [CacheState] and [State]. *)
Class T8nState (DB : Type) := {
  CacheState : Type;
  cache_new : bool → CacheState;
  cache_insert : Address → AccountInfo → gmap Z U256 → CacheState → CacheState;
  state_of_cache : CacheState → DB;
  (** [cache.trie_account()]: the accounts that exist, with their storage. *)
  trie_account : DB → gmap Z (AccountInfo * gmap Z U256);
}.

(** The hashes and signatures of a transition.  [t8n_log_rlp_hash], [t8n_merkle_root] and
    [recover_key] are [log_rlp_hash], [state_merkle_trie_root] and [recover_address] of
    [mega-state-test/src/utils.rs], each an RLP encoding, a trie root or a curve operation of a
    library; nothing is assumed of them. *)
Class T8nHashes := {
  Bloom : Type;
  bloom_default : Bloom;
  accrue_log : Log → Bloom → Bloom;
  envelope_hash : SignedEnvelope → Z;
  t8n_log_rlp_hash : list Log → Z;
  t8n_merkle_root : gmap Z (AccountInfo * gmap Z U256) → Z;
  recover_key : Z → option Address;
}.

Record TransitionResults (B E : Type) : Type := mkResults {
  res_state_root : Z;
  res_tx_root : Z;
  res_receipts_root : Z;
  res_logs_hash : Z;
  res_logs_bloom : B;
  res_receipts : list TransactionReceipt;
  res_rejected : list (RejectedTx E);
  res_difficulty : U256;
  res_gas_used : Z;
  res_base_fee : U256;
  res_post_state_alloc : StateAlloc;
}.
Arguments mkResults {B E} _ _ _ _ _ _ _ _ _ _ _.
Arguments res_state_root {B E} _.
Arguments res_logs_hash {B E} _.
Arguments res_logs_bloom {B E} _.
Arguments res_receipts {B E} _.
Arguments res_rejected {B E} _.
Arguments res_gas_used {B E} _.
Arguments res_post_state_alloc {B E} _.

(** * [utils.rs] *)

Section utils.
Context `{HH : T8nHashes} `{RS : RevmState} `{HC : BytecodeOps} {DB : Type} `{HT : !T8nState DB}.

Definition calculate_state_root (state : DB) : Z := t8n_merkle_root (trie_account state).
Definition calculate_logs_root (logs : list Log) : Z := t8n_log_rlp_hash logs.
Definition calculate_logs_bloom (logs : list Log) : Bloom :=
  foldl (λ bloom log, accrue_log log bloom) bloom_default logs.

(** [original_bytes]; an account without code has none. *)
Definition extract_account (account : AccountInfo * gmap Z U256) : TestAccount :=
  let '(i, slots) := account in
  mkTestAccount (balance i)
    (match code i with Some bytecode => original_byte_slice bytecode | None => [] end)
    (nonce i) slots.

Definition extract_post_state_alloc_from_state (state : DB) : StateAlloc :=
  extract_account <$> trie_account state.

Definition recover_address_from_secret_key (key : Z) : result Address T8nError :=
  match recover_key key with Some a => Ok a | None => Err InvalidTransaction end.
End utils.

(** * The command *)

Record T8nCmd : Type := mkT8nCmd {
  t8_output_basedir : option str;
  t8_output_alloc : str;
  t8_output_result : str;
  t8_output_body : option str;
  t8_input_alloc : str;
  t8_input_env : str;
  t8_input_txs : str;
  t8_fork : string;
  t8_chain_id : Z;
}.

(** [TxEnv]; the signed authorizations keep their signatures. *)
Record T8nTxEnv : Type := mkT8nTxEnv {
  xe_base : TxEnv;
  xe_blob_hashes : list Z;
  xe_max_fee_per_blob_gas : Z;
  xe_authorizations : list SignedAuthorization;
}.

(** [expect("Invalid hardfork name")]. *)
Definition t8n_spec_id (cmd : T8nCmd) : panics MegaSpecId :=
  match spec_from_str (t8_fork cmd) with Ok s => Some s | Err _ => None end.

Section convert.
Context `{HH : T8nHashes}.

(** The conversions to [u128] and [u64] panic when the value does not fit. *)
Definition convert_transaction_to_env (t : Transaction) : panics (result T8nTxEnv T8nError) :=
  match secret_key t with
  | None => Some (Err InvalidTransaction)
  | Some key =>
      match recover_address_from_secret_key key with
      | Err e => Some (Err e)
      | Ok caller =>
          max_blob_fee ←
            match max_fee_per_blob_gas t with
            | Some b => if b <=? U128_MAX then Some b else None
            | None => Some U128_MAX
            end;
          chain ← match chain_id t with Some c => Some <$> uint_to_u64 c | None => Some None end;
          let price :=
            default 0 (match gas_price t with Some p => Some p | None => max_fee_per_gas t end) in
          Some (Ok (mkT8nTxEnv
                      (mkTxEnv caller price (max_priority_fee_per_gas t) (default 0 (tx_type t))
                         (tx_gas t) (tx_data t) (tx_nonce t) (tx_value t) (default [] (access_list t))
                         [] (tx_to t) chain)
                      (blob_versioned_hashes t) max_blob_fee (default [] (authorization_list t))))
      end
  end.
End convert.

Section transition.
Context `{R : Revm} `{RS : RevmState} {J : Type} `{HJ : !JournalInspectTr J} {W : Type}.
Context `{HH : !OpHost J W}.
Context `{HA : SystemAbi} `{HL : !LocalContext W} `{HK : !KeylessDeploy J W EmptyExternalEnv EmptyExternalEnv}.
Context `{HE : !OpEvm (J := J) (W := W) (S := EmptyExternalEnv) (O := EmptyExternalEnv)}.
Context `{HV : !OpValidation J W EmptyExternalEnv EmptyExternalEnv}.
Context {DB : Type} `{HB : !EvmParts J W DB} `{HP : !OpPrecompiles J W} `{HD : ExecuteDefaults}.
Context `{HC : CommitDefaults} {J0 W0 DB0 : Type} `{HB0 : !EvmParts J0 W0 DB0}.
Context `{HX : !EmptyContext J W DB J0 W0 DB0} `{HN : !EnvParts J W DB}.
Context `{HS : !BlockState DB} `{HT : !T8nState DB} `{HM : T8nHashes} `{HO : BytecodeOps}.
Context (from_frame_error : frame_error → upstream_error).
Context (from_tx_error : TxError frame_error → upstream_error).
Context (op_catch_error : ValidationError DBError upstream_error →
  step (J := J) (W := W) (S := EmptyExternalEnv) (O := EmptyExternalEnv)
    (ExecutionResult exec_data OpHaltReason)).
(** [MegaTransaction::new] with an enveloped transaction; what is read of an execution result; and
    whether the Ethereum spec of an OP spec clears empty accounts. *)
Context (raw_of : T8nTxEnv → option Bytes → RawTx (EvmParts := HB)).
Context (data_gas_used : exec_data → Z) (data_logs : exec_data → list Log).
Context (spurious_dragon : OpSpecId (EvmParts := HB) → bool).

Local Notation error := (ValidationError DBError upstream_error).
Local Notation result_t := (ExecutionResult exec_data (MegaHaltReason OpHaltReason)).
Local Notation block_env := (BlockEnv (EvmParts := HB)).

(** [gas_used()] and [logs()]. *)
Definition exec_gas_used (r : result_t) : Z :=
  match r with ExecSuccess d | ExecRevert d => data_gas_used d | ExecHalt _ gas => gas end.
Definition exec_logs (r : result_t) : list Log :=
  match r with ExecSuccess d => data_logs d | _ => [] end.
Definition exec_success (r : result_t) : bool :=
  match r with ExecSuccess _ => true | _ => false end.

Definition t8n_block_env (e : Env) : panics block_env :=
  let block :=
    block_env_of (current_number e) (current_coinbase e) (current_timestamp e)
      (Z.min (current_gas_limit e) u64_max) (Z.min (default 0 (current_base_fee e)) u64_max)
      (current_difficulty e) (current_random e) in
  match current_excess_blob_gas e with
  | Some excess =>
      g ← uint_to_u64 excess;
      Some (set_blob_excess_gas_and_price g BLOB_BASE_FEE_UPDATE_FRACTION_CANCUN block)
  | None => Some block
  end.

(** An account of the prestate, with its code and the hash of it. *)
Definition initial_account (a : TestAccount) : AccountInfo :=
  let bytecode := default (OtherBytecode (tac_code a)) (new_raw_checked (tac_code a)) in
  mkAccountInfo (tac_balance a) (tac_nonce a) (hash_slow bytecode) (Some bytecode).

Definition create_initial_state (spec : MegaSpecId) (alloc : StateAlloc) : DB :=
  let has_state_clear := spurious_dragon (into_op_spec spec) in
  state_of_cache
    (map_fold (λ address a cache, cache_insert address (initial_account a) (tac_storage a) cache)
       (cache_new has_state_clear) alloc).

(** What the loop over the transactions carries. *)
Record Progress : Type := mkProgress {
  pg_state : DB;
  pg_total_gas_used : Z;
  pg_all_logs : list Log;
  pg_receipts : list TransactionReceipt;
  pg_rejected : list (RejectedTx error);
}.
Implicit Types p : Progress.

Definition transaction_logs (tx_hash : Z) (tx_index : nat) (logs : list Log) : list TransactionLog :=
  imap (λ log_index log,
    mkTxLog (log_address log) (log_topics log) (log_data log) 0 tx_hash (Z.of_nat tx_index) 0
      (Z.of_nat log_index) false) logs.

(** A rejected transaction has a receipt without gas and logs. *)
Definition reject (tx_index : nat) (tx_hash : Z) (why : RejectReason error) (state : DB) p : Progress :=
  mkProgress state (pg_total_gas_used p) (pg_all_logs p)
    (pg_receipts p ++ [receipt_of tx_hash 0 (pg_total_gas_used p) 0 []])
    (pg_rejected p ++ [mkRejected (Z.of_nat tx_index) why]).

Definition include (tx_index : nat) (tx_hash : Z) (r : result_t) (state : DB) p : Progress :=
  let tx_gas_used := exec_gas_used r in
  let total_gas_used := pg_total_gas_used p +w tx_gas_used in
  let is_success := exec_success r in
  mkProgress state total_gas_used
    (if is_success then pg_all_logs p ++ exec_logs r else pg_all_logs p)
    (pg_receipts p ++
       [receipt_of tx_hash (if is_success then 1 else 0) total_gas_used tx_gas_used
          (if is_success then transaction_logs tx_hash tx_index (exec_logs r) else [])])
    (pg_rejected p).

(** The EVM of a transaction, on the state as it is. *)
Definition execute_env (cfg : CfgEnv MegaSpecId) (block : block_env) (tx_env : T8nTxEnv) (state : DB)
    : panics (DB * result result_t error) :=
  ctx ← transition_context state cfg block;
  '(evm, r) ← transact_commit from_frame_error from_tx_error op_catch_error state_commit
                (raw_of tx_env (Some [])) (evm_new ctx);
  Some (db evm, r).

(** The body of the loop; an envelope that cannot be built ends the transition. *)
Definition apply_transaction (cfg : CfgEnv MegaSpecId) (block : block_env) (tx_index : nat)
    (t : Transaction) p : panics (result Progress T8nError) :=
  match to_envelope t with
  | Err _ => Some (Err InvalidTransaction)
  | Ok envelope =>
      let tx_hash := envelope_hash envelope in
      converted ← convert_transaction_to_env t;
      match converted with
      | Err e => Some (Ok (reject tx_index tx_hash (ConversionFailed e) (pg_state p) p))
      | Ok tx_env =>
          '(state, r) ← execute_env cfg block tx_env (pg_state p);
          Some (Ok (match r with
                    | Ok x => include tx_index tx_hash x state p
                    | Err e => reject tx_index tx_hash (ExecutionFailed e) state p
                    end))
      end
  end.

Fixpoint apply_transactions (cfg : CfgEnv MegaSpecId) (block : block_env) (tx_index : nat)
    (txs : list Transaction) p : panics (result Progress T8nError) :=
  match txs with
  | [] => Some (Ok p)
  | t :: txs =>
      r ← apply_transaction cfg block tx_index t p;
      match r with
      | Ok p => apply_transactions cfg block (S tx_index) txs p
      | Err e => Some (Err e)
      end
  end.

(** [CfgEnv::default()] with the chain id and the spec. *)
Definition transition_cfg (cmd : T8nCmd) (spec : MegaSpecId) : CfgEnv MegaSpecId :=
  let 'mkCfg _ _ b d e f g h i j k l m n o := cfg_default in
  mkCfg spec (t8_chain_id cmd) b d e f g h i j k l m n o.

(** The transaction and the receipts roots are not computed. *)
Definition finish_transition (inputs : TransitionInputs) p : TransitionResults Bloom error :=
  mkResults (calculate_state_root (pg_state p)) 0 0 (calculate_logs_root (pg_all_logs p))
    (calculate_logs_bloom (pg_all_logs p)) (pg_receipts p) (pg_rejected p)
    (current_difficulty (in_env inputs)) (pg_total_gas_used p)
    (default 0 (current_base_fee (in_env inputs)))
    (extract_post_state_alloc_from_state (pg_state p)).

Definition run_evm_transition (cmd : T8nCmd) (inputs : TransitionInputs)
    : panics (result (TransitionResults Bloom error) T8nError) :=
  spec ← t8n_spec_id cmd;
  block ← t8n_block_env (in_env inputs);
  let p := mkProgress (create_initial_state spec (in_alloc inputs)) 0 [] [] [] in
  r ← apply_transactions (transition_cfg cmd spec) block 0 (in_txs inputs) p;
  Some (match r with Ok p => Ok (finish_transition inputs p) | Err e => Err e end).
End transition.

(** * [io.rs] *)

Class T8nFiles (F B E : Type) := {
  read_stdin : F → option str;
  read_file : str → F → option str;
  write_file : str → str → F → F * bool;
  make_dir_all : str → F → F * bool;
  println : str → F → F;
  join_path : str → str → str;
  parent_path : str → option str;
  (** [serde_json]. *)
  alloc_from_str : str → option StateAlloc;
  env_from_str : str → option Env;
  txs_from_str : str → option (list Transaction);
  stdin_from_str : str → option TransitionInputs;
  alloc_to_string : StateAlloc → option str;
  results_to_string : TransitionResults B E → option str;
  (** [T8nOutput]: the post-state and the results. *)
  output_to_string : StateAlloc → TransitionResults B E → option str;
}.

Section io.
Context {F B E : Type} `{HF : !T8nFiles F B E}.
Implicit Types (fs : F) (path file : str).

(** [load_alloc], [load_env] and [load_transactions], by the type they parse. *)
Definition load_json {A} (parse : str → option A) path fs : result A T8nError :=
  match read_file path fs with
  | None => Err (InputLoad path)
  | Some content => match parse content with Some x => Ok x | None => Err (JsonParse path) end
  end.
Definition load_alloc path fs : result StateAlloc T8nError := load_json alloc_from_str path fs.
Definition load_env path fs : result Env T8nError := load_json env_from_str path fs.
Definition load_transactions path fs : result (list Transaction) T8nError :=
  load_json txs_from_str path fs.

Definition load_from_stdin fs : result TransitionInputs T8nError :=
  match read_stdin fs with
  | None => Err (InputLoad (str_of "stdin"))
  | Some buffer =>
      match stdin_from_str buffer with Some i => Ok i | None => Err (JsonParse (str_of "stdin")) end
  end.

Definition output_path (base : option str) file : str :=
  match base with Some dir => join_path dir file | None => file end.

(** The directory is made before the file is written. *)
Definition write_json (json : option str) path fs : F * result unit T8nError :=
  match json with
  | None => (fs, Err (JsonParse path))
  | Some content =>
      let write fs :=
        let '(fs, ok) := write_file path content fs in
        (fs, if (ok : bool) then Ok tt else Err (OutputWrite path)) in
      match parent_path path with
      | None => write fs
      | Some parent =>
          let '(fs, ok) := make_dir_all parent fs in
          if (ok : bool) then write fs else (fs, Err (OutputWrite parent))
      end
  end.

Definition write_alloc_to_file (alloc : StateAlloc) file (base : option str) fs
    : F * result unit T8nError :=
  write_json (alloc_to_string alloc) (output_path base file) fs.
Definition write_result_to_file (results : TransitionResults B E) file (base : option str) fs
    : F * result unit T8nError :=
  write_json (results_to_string results) (output_path base file) fs.

(** The body is not written. *)
Definition write_body_output file (base : option str) fs : F * result unit T8nError := (fs, Ok tt).

Definition is_stdin (s : str) : bool := bool_decide (s = str_of "stdin").
Definition is_stdout (s : str) : bool := bool_decide (s = str_of "stdout").

(** One input on the standard input makes all of them come from there. *)
Definition load_inputs (cmd : T8nCmd) fs : result TransitionInputs T8nError :=
  if is_stdin (t8_input_alloc cmd) || is_stdin (t8_input_env cmd) || is_stdin (t8_input_txs cmd)
  then load_from_stdin fs
  else
    and_then (load_alloc (t8_input_alloc cmd) fs) (λ alloc,
    and_then (load_env (t8_input_env cmd) fs) (λ env,
    and_then (load_transactions (t8_input_txs cmd) fs) (λ txs,
    Ok (mkT8nInputs alloc env txs)))).

Definition then_write (r : F * result unit T8nError) (k : F → F * result unit T8nError)
    : F * result unit T8nError :=
  match r with (fs, Ok _) => k fs | (fs, Err e) => (fs, Err e) end.

(** The results are always printed; the files are written after that. *)
Definition output_results (cmd : T8nCmd) (results : TransitionResults B E) fs
    : F * result unit T8nError :=
  let alloc := res_post_state_alloc results in
  match output_to_string alloc results with
  | None => (fs, Err (JsonParse (str_of "stdout")))
  | Some json =>
      let base := t8_output_basedir cmd in
      then_write
        (if is_stdout (t8_output_result cmd) then (println json fs, Ok tt)
         else write_result_to_file results (t8_output_result cmd) base (println json fs)) (λ fs,
      then_write
        (if is_stdout (t8_output_alloc cmd) then (fs, Ok tt)
         else write_alloc_to_file alloc (t8_output_alloc cmd) base fs) (λ fs,
      match t8_output_body cmd with
      | Some body_file => write_body_output body_file base fs
      | None => (fs, Ok tt)
      end))
  end.

(** [run], from [run_evm_transition]: a panic leaves the files as they are. *)
Definition t8n_run (cmd : T8nCmd)
    (transition : TransitionInputs → panics (result (TransitionResults B E) T8nError)) fs
    : panics (F * result unit T8nError) :=
  match load_inputs cmd fs with
  | Err e => Some (fs, Err e)
  | Ok inputs =>
      r ← transition inputs;
      Some (match r with Ok results => output_results cmd results fs | Err e => (fs, Err e) end)
  end.
End io.
