(* ===== verification/T8nFacts.v ===== *)
(** What a transition reports: the receipts, the totals and the state of [T8n] are those of a ledger
    of the transactions, in their order.

    A transaction is an [entry] of the ledger: rejected, or included with its result.  [chain]
    relates the states between the entries: a rejected transaction leaves every account and slot as
    it was, an included one commits the state of one execution. *)

From S2P Require Import Prelude Spec Revm LimitCheck Interfaces AdditionalLimit Access DynamicGas.
From S2P Require Import StateTest CliInput CliTx CliTxFacts SystemTx Context Intercept Execution.
From S2P Require Import EvmState Validation Precompiles SystemContracts SystemContractsFacts.
From S2P Require Import BlockLimit Effects BlockEvm MegaEvm MegaEvmFacts CliState.
From S2P Require Import EvmReference T8n.

(** The database of a context is the one it was given. *)
Class EmptyContextLaws {J W DB J0 W0 DB0 : Type} `{HB : !EvmParts J W DB} `{HB0 : !EvmParts J0 W0 DB0}
    (HX : EmptyContext J W DB J0 W0 DB0) := {
  with_db_db (d : DB) (o : OpContext J0 W0) : journal_db (op_journal (op_with_db d o)) = d;
}.

Section transition.
Context `{R : Revm} `{RS : RevmState} {J : Type} `{HJ : !JournalInspectTr J} {W : Type}.
Context `{HH : !OpHost J W}.
Context `{HA : SystemAbi} `{HL : !LocalContext W} `{HK : !KeylessDeploy J W EmptyExternalEnv EmptyExternalEnv}.
Context `{HE : !OpEvm (J := J) (W := W) (S := EmptyExternalEnv) (O := EmptyExternalEnv)}.
Context `{HV : !OpValidation J W EmptyExternalEnv EmptyExternalEnv}.
Context {DB : Type} `{HB : !EvmParts J W DB} `{HP : !OpPrecompiles J W} `{HD : ExecuteDefaults}.
Context `{HC : CommitDefaults} {J0 W0 DB0 : Type} `{HB0 : !EvmParts J0 W0 DB0}.
Context `{HX : !EmptyContext J W DB J0 W0 DB0} `{HN : !EnvParts J W DB}.
Context `{HS : !BlockState DB} `{HT : !T8nState DB} `{HM : T8nHashes} `{HO : BytecodeOps}.
Context (from_frame_error : frame_error → upstream_error).
Context (from_tx_error : TxError frame_error → upstream_error).
Context (op_catch_error : ValidationError DBError upstream_error →
  step (J := J) (W := W) (S := EmptyExternalEnv) (O := EmptyExternalEnv)
    (ExecutionResult exec_data OpHaltReason)).
Context (raw_of : T8nTxEnv → option Bytes → RawTx (EvmParts := HB)).
Context (data_gas_used : exec_data → Z) (data_logs : exec_data → list Log).
Context (spurious_dragon : OpSpecId (EvmParts := HB) → bool).
(** What upstream promises. *)
Context `{VW : !BlockView DB} `{HDL : !ExecuteDefaultsLaws HD} `{HCL : !CommitDefaultsLaws HC}.
Context `{RJ : !ReadingJournal (J := J) (DB := DB)} `{RU : !ReadingUpstream op_catch_error}.
Context `{RC : !ReadingCode (J := J) (W := W) (S := EmptyExternalEnv) (O := EmptyExternalEnv)}.
Context `{HPL : !EvmPartsLaws (J := J) (W := W) (DB := DB)} `{HXL : !EmptyContextLaws HX}.

Local Notation error := (ValidationError DBError upstream_error).
Local Notation result_t := (ExecutionResult exec_data (MegaHaltReason OpHaltReason)).
Local Notation block_env := (BlockEnv (EvmParts := HB)).
Local Notation progress := (Progress (J := J) (DB := DB)).
Local Notation execute_env :=
  (execute_env (J0 := J0) from_frame_error from_tx_error op_catch_error raw_of).
Local Notation apply_transaction :=
  (apply_transaction (J0 := J0) from_frame_error from_tx_error op_catch_error raw_of
     data_gas_used data_logs).
Local Notation apply_transactions :=
  (apply_transactions (J0 := J0) from_frame_error from_tx_error op_catch_error raw_of
     data_gas_used data_logs).
Local Notation gas_of := (exec_gas_used data_gas_used).
Local Notation logs_of := (exec_logs data_logs).

(** * The ledger *)

Inductive entry : Type :=
  | Rejected (hash : Z) (why : RejectReason error)
  | Included (hash : Z) (r : result_t).

Definition entry_hash (e : entry) : Z := match e with Rejected h _ => h | Included h _ => h end.
Definition entry_gas (e : entry) : Z := match e with Rejected _ _ => 0 | Included _ r => gas_of r end.
Definition entry_logs (e : entry) : list Log :=
  match e with Rejected _ _ => [] | Included _ r => logs_of r end.
Definition entry_status (e : entry) : Z :=
  match e with Included _ r => if exec_success r then 1 else 0 | Rejected _ _ => 0 end.

(** The receipt of the entry at an index, from the gas used up to it. *)
Definition entry_receipt (index : nat) (cumulative : Z) (e : entry) : TransactionReceipt :=
  receipt_of (entry_hash e) (entry_status e) cumulative (entry_gas e)
    (transaction_logs (entry_hash e) index (entry_logs e)).

Fixpoint ledger_receipts (index : nat) (before : Z) (es : list entry) : list TransactionReceipt :=
  match es with
  | [] => []
  | e :: es =>
      entry_receipt index (before +w entry_gas e) e ::
      ledger_receipts (S index) (before +w entry_gas e) es
  end.

Fixpoint ledger_rejected (index : nat) (es : list entry) : list (RejectedTx error) :=
  match es with
  | [] => []
  | Rejected _ why :: es => mkRejected (Z.of_nat index) why :: ledger_rejected (S index) es
  | Included _ _ :: es => ledger_rejected (S index) es
  end.

(** What an entry is, between the states [d] and [d']. *)
Definition enters (cfg : CfgEnv MegaSpecId) (block : block_env) (d : DB) (t : Transaction)
    (e : entry) (d' : DB) : Prop :=
  (∃ envelope, to_envelope t = Ok envelope ∧ entry_hash e = envelope_hash envelope) ∧
  match e with
  | Rejected _ (ConversionFailed err) => convert_transaction_to_env t = Some (Err err) ∧ d' = d
  | Rejected _ (ExecutionFailed err) =>
      same_view d d' ∧
      ∃ tx_env, convert_transaction_to_env t = Some (Ok tx_env) ∧
        execute_env cfg block tx_env d = Some (d', Err err)
  | Included _ r =>
      ∃ tx_env st d0, convert_transaction_to_env t = Some (Ok tx_env) ∧
        execute_env cfg block tx_env d = Some (d', Ok r) ∧
        same_view d d0 ∧ d' = state_commit st d0
  end.

Inductive chain (cfg : CfgEnv MegaSpecId) (block : block_env)
    : DB → list Transaction → list entry → DB → Prop :=
  | chain_nil d : chain cfg block d [] [] d
  | chain_cons d t e d' txs es d'' :
      enters cfg block d t e d' → chain cfg block d' txs es d'' →
      chain cfg block d (t :: txs) (e :: es) d''.

(** * An execution *)

Lemma transition_context_db d cfg block ctx :
  transition_context (J0 := J0) d cfg block = Some ctx → ctx_db ctx = d.
Proof.
  unfold transition_context. intros H. bind_inv H. injection H as <-.
  unfold ctx_db, with_block. set (c := with_inner _ _).
  assert (op_journal (inner (on_new_block c)) = op_journal (inner c)) as ->
    by (unfold on_new_block; by destruct (is_enabled _ _)).
  subst c. simpl. rewrite (proj1 (set_block_parts _ _)).
  unfold with_cfg. simpl. rewrite !(proj1 (set_cfg_parts _ _)). apply with_db_db.
Qed.

Lemma transact_one_reads tx :
  steps evm_reads (transact_one from_frame_error from_tx_error op_catch_error tx).
Proof.
  apply (reads_with_tx op_catch_error), reads_on_ctx, (handler_run_reads op_catch_error _ _).
Qed.

(** An execution reads the database, and commits once when it succeeds. *)
Lemma execute_env_spec cfg block tx_env d d' r :
  execute_env cfg block tx_env d = Some (d', r) →
  match r with
  | Ok _ => ∃ st d0, same_view d d0 ∧ d' = state_commit st d0
  | Err _ => same_view d d'
  end.
Proof.
  unfold T8n.execute_env. intros H. bind_inv H. bind_inv H. injection H as <- <-.
  apply transition_context_db in E as Hd. unfold transact_commit in E0.
  rewrite and_commit_spec in E0. bind_inv E0.
  apply transact_one_reads in E1 as [[Hr _] _]. rewrite <- Hd.
  destruct y0 as [a|e].
  - pose proof (reads_finalize x1) as [[Hf _] _]. destruct (finalize x1) as [v1 st].
    injection E0 as <- <-. exists st, (db v1). split.
    + etransitivity; [apply Hr|apply Hf].
    + unfold db, evm_commit, with_db. simpl. apply journal_db_with_db.
  - injection E0 as <- <-. apply Hr.
Qed.

(** * The loop *)

(** The progress after an entry. *)
Definition record_entry (index : nat) (e : entry) (d : DB) (p : progress) : progress :=
  match e with
  | Rejected hash why => reject index hash why d p
  | Included hash r => include data_gas_used data_logs index hash r d p
  end.

Lemma apply_transaction_iff cfg block index t p p' :
  apply_transaction cfg block index t p = Some (Ok p') ↔
  ∃ e d, enters cfg block (pg_state p) t e d ∧ p' = record_entry index e d p.
Proof.
  unfold T8n.apply_transaction, enters. split.
  - destruct (to_envelope t) as [envelope|] eqn:He; [|done]. intros H. bind_inv H.
    destruct x as [tx_env|err].
    + bind_inv H. apply execute_env_spec in E0 as Hx. injection H as <-. destruct y as [r|err].
      * destruct Hx as (st & d0 & Hv & Hd). exists (Included (envelope_hash envelope) r), x.
        split; [|done]. split; [by eauto|]. by exists tx_env, st, d0.
      * exists (Rejected (envelope_hash envelope) (ExecutionFailed err)), x.
        split; [|done]. split; [by eauto|]. split; [done|]. by exists tx_env.
    + injection H as <-. exists (Rejected (envelope_hash envelope) (ConversionFailed err)), (pg_state p).
      split; [|done]. by split; [eauto|].
  - intros (e & d & [(envelope & -> & Hh) He] & ->). destruct e as [hash [err|err]|hash r]; simpl in *.
    + destruct He as [-> ->]. simpl. by rewrite Hh.
    + destruct He as (_ & tx_env & -> & Hx). simpl. rewrite Hx. simpl. by rewrite Hh.
    + destruct He as (tx_env & st & d0 & -> & Hx & _). simpl. rewrite Hx. simpl. by rewrite Hh.
Qed.

(** The progress after a list of entries that ends in a state. *)
Fixpoint record_entries (index : nat) (es : list entry) (d : DB) (p : progress) : progress :=
  match es with
  | [] => p
  | e :: es => record_entries (S index) es d (record_entry index e d p)
  end.

(** The state is the only part of the progress that a later entry replaces. *)
Lemma record_entries_state index es d d1 e i p :
  es ≠ [] →
  record_entries index es d (record_entry i e d1 p) = record_entries index es d (record_entry i e d p).
Proof. by destruct es as [|[h w|h r] es], e. Qed.

Lemma record_entry_state index e d p : pg_state (record_entry index e d p) = d.
Proof. by destruct e. Qed.

Lemma apply_transactions_iff cfg block index txs p p' :
  apply_transactions cfg block index txs p = Some (Ok p') ↔
  ∃ es d, chain cfg block (pg_state p) txs es d ∧ p' = record_entries index es d p.
Proof.
  revert index p. induction txs as [|t txs IH]; intros index p; cbn [T8n.apply_transactions].
  - split; [intros [= <-]; exists [], (pg_state p); split; [constructor|done]|].
    intros (es & d & Hc & ->). inversion Hc. by subst.
  - split.
    + intros H. bind_inv H. destruct x as [p1|]; [|done].
      apply apply_transaction_iff in E as (e & d1 & He & ->).
      apply IH in H as (es & d & Hc & ->). rewrite record_entry_state in Hc.
      exists (e :: es), d. split; [by econstructor|]. simpl. destruct es as [|e1 es].
      * inversion Hc. by subst.
      * by apply record_entries_state.
    + intros (es & d & Hc & ->). inversion Hc as [|d0 t0 e d1 txs0 es0 d2 He Hc0]. subst.
      rewrite (proj2 (apply_transaction_iff cfg block index t p (record_entry index e d1 p)))
        by eauto. simpl. apply IH. exists es0, d. rewrite record_entry_state. split; [done|].
      destruct es0 as [|e1 es0]; [by inversion Hc0; subst|]. symmetry.
      by apply record_entries_state.
Qed.

(** What was recorded, part by part. *)
Lemma record_entry_parts index e d p :
  in_u64 (pg_total_gas_used p) →
  let total := pg_total_gas_used p +w entry_gas e in
  pg_total_gas_used (record_entry index e d p) = total ∧
  pg_all_logs (record_entry index e d p) = pg_all_logs p ++ entry_logs e ∧
  pg_receipts (record_entry index e d p) = pg_receipts p ++ [entry_receipt index total e] ∧
  pg_rejected (record_entry index e d p) = pg_rejected p ++ ledger_rejected index [e].
Proof.
  intros Hu. destruct e as [hash why|hash [x|x|reason gas]]; simpl;
    rewrite ?(wadd_0_r (pg_total_gas_used p)), ?app_nil_r by done; done.
Qed.

Lemma record_entries_parts index es d p :
  in_u64 (pg_total_gas_used p) →
  pg_total_gas_used (record_entries index es d p) = pg_total_gas_used p +w sumZ entry_gas es ∧
  pg_all_logs (record_entries index es d p) = pg_all_logs p ++ concat (entry_logs <$> es) ∧
  pg_receipts (record_entries index es d p) =
    pg_receipts p ++ ledger_receipts index (pg_total_gas_used p) es ∧
  pg_rejected (record_entries index es d p) = pg_rejected p ++ ledger_rejected index es ∧
  (es ≠ [] → pg_state (record_entries index es d p) = d).
Proof.
  revert index p. induction es as [|e es IH]; intros index p Hu; simpl.
  - rewrite sumZ_nil, wadd_0_r, !app_nil_r by done. by split_and!.
  - destruct (record_entry_parts index e d p Hu) as (Ht & Hl & Hr & Hj).
    destruct (IH (S index) (record_entry index e d p)) as (-> & -> & -> & -> & Hs);
      [rewrite Ht; auto with u64|].
    rewrite Ht, Hl, Hr, Hj, sumZ_cons, <- !app_assoc, wadd_assoc. split_and!; try done.
    + by destruct e.
    + intros _. destruct es; [apply record_entry_state|by apply Hs].
Qed.

(** * The results *)

(** What a transition reports of a ledger. *)
Definition ledger_results (inputs : TransitionInputs) (es : list entry) (d : DB)
    : TransitionResults Bloom error :=
  let logs := concat (entry_logs <$> es) in
  mkResults (calculate_state_root d) 0 0 (calculate_logs_root logs) (calculate_logs_bloom logs)
    (ledger_receipts 0 0 es) (ledger_rejected 0 es) (current_difficulty (in_env inputs))
    (wrap64 (sumZ entry_gas es)) (default 0 (current_base_fee (in_env inputs)))
    (extract_post_state_alloc_from_state d).

Lemma finish_record inputs es d0 d :
  (es = [] → d = d0) →
  finish_transition inputs (record_entries 0 es d (mkProgress d0 0 [] [] [])) =
  ledger_results inputs es d.
Proof.
  intros Hn. destruct (record_entries_parts 0 es d (mkProgress d0 0 [] [] []))
    as (Ht & Hl & Hr & Hj & Hs); [apply in_u64_0|]. unfold finish_transition, ledger_results.
  rewrite Ht, Hl, Hr, Hj. simpl.
  assert (pg_state (record_entries 0 es d (mkProgress d0 0 [] [] [])) = d) as ->; [|done].
  destruct es as [|e es]; [by rewrite Hn|by apply Hs].
Qed.

Lemma chain_empty cfg block d txs es d' : chain cfg block d txs es d' → es = [] → d' = d.
Proof. by destruct 1. Qed.

(** C18: the transition tool keeps a ledger.  A transition returns results exactly when every
    transaction of the input, in order, enters a ledger that starts from the prestate: one without a
    known key or that the EVM refuses is rejected, with its index and reason, and leaves every
    account and slot as it was; the others commit one execution each.  The results are those of this
    ledger: one receipt per transaction, with the gas of the block up to it and the logs of that
    transaction, numbered; the total gas, the logs root and the bloom filter over the included
    transactions; and the roots and the post-state of the last state. *)
Theorem transition_keeps_ledger cmd inputs res :
  run_evm_transition (J0 := J0) from_frame_error from_tx_error op_catch_error raw_of
    data_gas_used data_logs spurious_dragon cmd inputs = Some (Ok res) ↔
  ∃ spec block es d,
    t8n_spec_id cmd = Some spec ∧ t8n_block_env (in_env inputs) = Some block ∧
    chain (transition_cfg cmd spec) block
      (create_initial_state spurious_dragon spec (in_alloc inputs)) (in_txs inputs) es d ∧
    res = ledger_results inputs es d.
Proof.
  unfold run_evm_transition. split.
  - intros H. bind_inv H. bind_inv H. bind_inv H. destruct x1 as [p|]; [|done].
    injection H as <-. apply apply_transactions_iff in E1 as (es & d & Hc & ->).
    exists x, x0, es, d. split_and!; try done. apply finish_record. by eapply chain_empty.
  - intros (spec & block & es & d & -> & Hb & Hc & ->). simpl. rewrite Hb. simpl.
    rewrite (proj2 (apply_transactions_iff _ _ _ _ _ _)) by eauto. simpl. do 2 f_equal.
    apply finish_record. by eapply chain_empty.
Qed.
End transition.

(** * A transition *)

Module reference.
#[local] Instance ref_empty : EmptyContext FlatJournal FlatWorld RefDb FlatJournal FlatWorld RefDb := {|
  empty_db := mkRefDb ∅ ∅;
  op_with_db d o :=
    mkOp (op_tx o) (op_block_number o) (op_beneficiary o) (mkFlat d ∅) None (op_world o);
|}.
#[local] Instance ref_empty_laws : EmptyContextLaws ref_empty.
Proof. by split. Qed.

#[local] Instance ref_commit : CommitDefaults := {|
  and_commit M A E m f c s :=
    '(s, r) ← m s;
    match r with Ok x => let '(s, st) := f s in Some (c st s, Ok x) | Err e => Some (s, Err e) end;
|}.
#[local] Instance ref_commit_laws : CommitDefaultsLaws ref_commit.
Proof. by split. Qed.

#[local] Instance ref_parts_laws : EvmPartsLaws (J := FlatJournal) (W := FlatWorld) (DB := RefDb).
Proof. by split. Qed.

#[local] Instance ref_env : EnvParts FlatJournal FlatWorld RefDb := {|
  cfg_default := retag EQUIVALENCE flat_cfg;
  BLOB_BASE_FEE_UPDATE_FRACTION_CANCUN := 3338477;
  block_env_of number _ ts gas _ _ _ := mkFlatBlock number ts gas;
  set_blob_excess_gas_and_price _ _ b := b;
|}.

#[local] Instance ref_state : T8nState RefDb := {|
  CacheState := gmap Z (AccountInfo * gmap Z U256);
  cache_new _ := ∅;
  cache_insert a i slots c := <[a := (i, slots)]> c;
  state_of_cache c := mkRefDb c ∅;
  trie_account d := rd_accounts d;
|}.

#[local] Instance ref_hashes : T8nHashes := {|
  Bloom := Z;
  bloom_default := 0;
  accrue_log l b := Z.lor b (Z.shiftl 1 (log_address l));
  envelope_hash e := match e with SignedLegacy _ n _ _ _ _ _ _ => 700 + n | _ => 0 end;
  t8n_log_rlp_hash l := Z.of_nat (length l);
  t8n_merkle_root m := Z.of_nat (size m);
  recover_key k := if k =? 0 then None else Some k;
|}.

#[local] Instance ref_ops : BytecodeOps := {|
  bytecode_default := OtherBytecode [];
  original_byte_slice c := match c with Eip7702 a => [0xEF; 1; 0; a] | OtherBytecode b => b end;
  new_raw_checked b := Some (OtherBytecode b);
  hash_slow c := 77;
  keccak256 b := 77;
|}.

(** The sender and the receiver of a transaction, which is signed for no chain. *)
Definition ref_raw (e : T8nTxEnv) (_ : option Bytes) : MegaTransaction :=
  ref_tx (te_caller (xe_base e)) (te_kind (xe_base e)).

Definition ref_t8n_tx (n : Z) (key : option Z) (to : Address) : Transaction :=
  mkT8nTx None (Some 6342) n (Some 10) None None 200000 (Some to) 0 [] None None None []
    (eip155_v 6342 true) 1 2 key.

Definition ref_env_of (number : Z) : Env :=
  mkEnv None 99 0 30000000 number 1000 (Some 7) None (Some 0) None None None None.

(** The beneficiary is account 99. *)
Definition ref_inputs (txs : list Transaction) : TransitionInputs :=
  mkT8nInputs {[7 := mkTestAccount 500 [] 0 {[1 := 42]}; 99 := mkTestAccount 10 [] 0 ∅]}
    (ref_env_of 10) txs.

Definition ref_cmd : T8nCmd :=
  mkT8nCmd None (str_of "alloc.json") (str_of "result.json") None (str_of "a") (str_of "e")
    (str_of "t") "Rex6" 6342.

Local Notation ref_transition txs :=
  (run_evm_transition (HJ := caller_inspect) (HE := flat_evm) (HV := flat_validation)
     (HB := flat_parts) (HX := ref_empty) flat_from_frame flat_from_tx flat_catch ref_raw
     (λ gas, gas) (λ gas, [mkLog 3 [gas] []]) (λ _, true) ref_cmd (ref_inputs txs)).

(** A transaction, one without a key, one in the name of the system address, and another one. *)
Definition ref_txs : list Transaction :=
  [ref_t8n_tx 1 (Some 7) 5; ref_t8n_tx 2 None 5;
   ref_t8n_tx 3 (Some MEGA_SYSTEM_ADDRESS) ORACLE_CONTRACT_ADDRESS; ref_t8n_tx 4 (Some 7) 5].

(** The second and the third are rejected; the beneficiary is credited by the others. *)
Lemma transition_keeps_ledger_witness :
  ∃ res es d,
    ref_transition ref_txs = Some (Ok res) ∧
    chain (HJ := caller_inspect) (HE := flat_evm) (HV := flat_validation) (HB := flat_parts)
      (HX := ref_empty) flat_from_frame flat_from_tx flat_catch ref_raw
      (transition_cfg ref_cmd REX6) (mkFlatBlock 10 1000 30000000)
      (create_initial_state (λ _, true) REX6 (in_alloc (ref_inputs ref_txs))) ref_txs es d ∧
    res_receipts res = ledger_receipts (HJ := caller_inspect) (HE := flat_evm) (λ gas, gas)
      (λ gas, [mkLog 3 [gas] []]) 0 0 es ∧
    tr_cumulative_gas_used <$> res_receipts res = [10000; 10000; 10000; 20000] ∧
    tr_status <$> res_receipts res = [1; 0; 0; 1] ∧ res_gas_used res = 20000 ∧
    rj_index <$> res_rejected res = [1; 2] ∧
    tac_balance <$> res_post_state_alloc res !! 99 = Some 12.
Proof.
  destruct (returns (λ r, match r with
      | Ok res => tr_cumulative_gas_used <$> res_receipts res = [10000; 10000; 10000; 20000] ∧
          tr_status <$> res_receipts res = [1; 0; 0; 1] ∧ res_gas_used res = 20000 ∧
          rj_index <$> res_rejected res = [1; 2] ∧
          tac_balance <$> res_post_state_alloc res !! 99 = Some 12
      | Err _ => False end) (ref_transition ref_txs)) as ([res|] & Hr & H);
    [vm_compute; split_and!; exact eq_refl| |destruct H].
  destruct (transition_keeps_ledger (HJ := caller_inspect) (HE := flat_evm) (HV := flat_validation)
    (HB := flat_parts) (HX := ref_empty) flat_from_frame flat_from_tx flat_catch ref_raw (λ gas, gas) (λ gas, [mkLog 3 [gas] []]) (λ _, true) ref_cmd
    (ref_inputs ref_txs) res) as [Hl _].
  destruct (Hl Hr) as (spec & block & es & d & Hs & Hb & Hc & He).
  vm_compute in Hs. injection Hs as <-. vm_compute in Hb. injection Hb as <-.
  exists res, es, d. split; [exact Hr|]. split; [exact Hc|].
  split; [rewrite He; exact eq_refl|]. exact H.
Defined.
End reference.
