(* ===== verification/CliExecuteFacts.v ===== *)
(** What a replay reports: the target as the block ran it.

    [reaches] describes the executor of a block after some of its transactions: its database is the
    one the block started with and the states of their outcomes, its limiter has admitted them in
    order, and its receipts end with the last one's.  A successful [execute] is a block of the
    preceding transactions, as the network gave them, and of the target; the report is read off the
    target's outcome. *)

From S2P Require Import Prelude Spec Revm LimitCheck Interfaces AdditionalLimit Access DynamicGas.
From S2P Require Import StateTest SystemTx Context Intercept Execution EvmState Validation Precompiles.
From S2P Require Import Hardfork BlockLimit Effects SystemContracts SystemContractsFacts.
From S2P Require Import SequencerRegistry BlockEvm BlockExecutor BlockExecutorFacts MegaEvm MemoryEnvs.
From S2P Require Import CliInput CliTx CliState CliRpc CliReplay CliFixture CliRun.
From S2P Require Import CliExecute CliTxFacts EvmReference RegistryContractFacts SequencerRegistryFacts.
From S2P Require Import BlockReference T8n T8nFacts.

(** The fork answers for its block, whatever else is fetched; the tracer of an EVM is not its state. *)
Class ReplayLaws {Url C N D DB V J W L : Type} `{HRp : !ReplayRpc Url C N} `{HDb : !ReplayDb D DB N C}
    `{BE : !BlockEvm V DB} `{HB : !EvmParts J W DB} `{HEv : !ReplayEvm V J W DB L}
    `{VW : !BlockView DB} := {
  fetch_reads (provider : OpProvider Url C) hash (d : DB) w r :
    get_transaction_by_hash provider hash (db_world (D := D) d) = (w, r) →
    only_read d (db_with_world (D := D) w d);
  basic_ref_reads a (d : DB) : only_read d (fst (db_basic_ref (D := D) (N := N) (C := C) a d));
  basic_ref_ok a (d : DB) i :
    snd (db_basic_ref (D := D) (N := N) (C := C) a d) = Ok i → i = account_of d a;
  fuse_db (v : V) : evm_db (fuse (J := J) (W := W) (L := L) v) = evm_db v;
  fuse_env (v : V) : same_env v (fuse (J := J) (W := W) (L := L) v);
}.
Arguments ReplayLaws Url C N D DB V J W L {_ _ _ _ _ _}.

Section replay.
Context `{Rv : Revm} `{RS : RevmState} `{HA : Artifacts} {Url C N D DB V J W : Type}.
Context `{HTr : TestRun} `{HBc : BytecodeOps} `{HPs : Parsers}.
Context `{HRp : !ReplayRpc Url C N} `{HRd : !ReplayReads Url C N TestLog}.
Context `{HFp : !ForkProvider Url C N D} `{HDb : !ReplayDb D DB N C} `{HBs : !BlockState DB}.
Context `{BE : !BlockEvm V DB} `{HB : !EvmParts J W DB} `{HN : !EnvParts J W DB}.
Context `{HEv : !ReplayEvm V J W DB TestLog} `{HTc : !Tracing V DB TestLog}.
Local Notation tx_t := (ReplayTx RpcTransaction).
#[local] Instance tx_codec : Tx2718 tx_t tx_env := replay_codec rt_codec raw_tx.
#[local] Instance tx_ext : MegaTransactionExt tx_t := recomputing_ext.
Context `{HRb : !ReceiptBuilder tx_t exec_result logs_t}.
Context (envelope_of : Receipt → OpReceiptEnvelope TestLog).
Context (apply_calldata : Bytes) (b256_bytes : Z → Bytes).
Context (HISTORY_STORAGE_ADDRESS BEACON_ROOTS_ADDRESS : Address).
Context (increments : Hardforks → V → list (Address * Z)).
Context (created : Address → Z → Address).
Context `{VW : !BlockView DB} `{HL : !BlockStateLaws DB} `{HE : !BlockEvmLaws BE}.
Context `{HRL : !ReplayLaws Url C N D DB V J W TestLog}.

Local Notation world := (N * RpcCacheStore C)%type.
Local Notation executor := (MegaBlockExecutor (V := V) (H := hook_log) (HR := HRb)).
Local Notation outcome_t := (BlockMegaTransactionOutcome tx_t exec_result).
Local Notation context_t := (ReplayContext Url C N).
Local Notation provider_t := (OpProvider Url C).
Local Notation pre_block := (apply_pre_execution_changes apply_calldata b256_bytes
  HISTORY_STORAGE_ADDRESS BEACON_ROOTS_ADDRESS).
Implicit Types (ex : executor) (o : outcome_t) (os : list outcome_t) (limits : BlockLimits).

(** * The executor between the transactions *)

(** The database after the transactions, and the gas they used. *)
Definition after os (d : DB) : DB := foldl (λ d o, state_commit (mo_state (bo_inner o)) d) d os.
Definition block_gas os : Z := foldl (λ g o, sat_add g (gas_used (mo_result (bo_inner o)))) 0 os.

Record reaches limits ex1 os ex : Prop := mkReaches {
  rc_view : same_view (after os (db_of ex1)) (db_of ex);
  rc_env : same_env (ex_evm ex1) (ex_evm ex);
  rc_hardforks : ex_hardforks ex = ex_hardforks ex1;
  rc_ctx : ex_ctx ex = ex_ctx ex1;
  rc_limiter : run_block (limiter_outcome <$> os) (limiter_new limits) = Ok (ex_block_limiter ex);
  rc_gas : block_gas_used (ex_block_limiter ex) = block_gas os;
  rc_receipts : last (ex_receipts ex) = (λ o, make_receipt o (block_gas os)) <$> last os;
}.

Lemma reaches_reads limits ex1 os ex ex' :
  reaches limits ex1 os ex → ex_reads ex ex' → reaches limits ex1 os ex'.
Proof.
  intros [] [[Hd _] He Hh Hc _ Hl Hr]. split; try congruence; by etransitivity.
Qed.

Lemma reaches_commit limits ex1 os o ex ex' g :
  reaches limits ex1 os ex → commit_transaction_outcome o ex = Some (ex', Ok g) →
  reaches limits ex1 (os ++ [o]) ex' ∧ g = gas_used (mo_result (bo_inner o)).
Proof.
  intros [Hv He Hh Hc Hl Hg Hr] H.
  destruct (commit_transaction_db _ _ _ _ H) as (Hdb & He' & Hh' & Hc').
  pose proof (commit_transaction_some _ _ _ _ H) as Hs. cbv zeta in Hs.
  destruct Hs as (Hp & -> & Hlim & Hrec & _). split; [|done].
  assert (block_gas_used (ex_block_limiter ex') = block_gas (os ++ [o])) as Hgas.
  { rewrite Hlim. unfold block_gas. rewrite foldl_app. cbn. by rewrite Hg. }
  split; [| | | | |exact Hgas|].
  - unfold after. rewrite foldl_app. simpl. rewrite Hdb. by apply commit_respects.
  - by etransitivity.
  - congruence.
  - congruence.
  - rewrite fmap_app, run_block_app, Hl. simpl. simpl in Hp. by rewrite Hp, Hlim.
  - by rewrite Hrec, !last_snoc, <- Hlim, Hgas.
Qed.

(** [o] is what running [tx] gives in this block, after the transactions [os]. *)
Definition ran limits ex1 os (tx : tx_t) o : Prop :=
  ∃ ex ex', reaches limits ex1 os ex ∧ run_transaction tx ex = Some (ex', Ok o).

Lemma run_transaction_tx tx ex ex' o : run_transaction tx ex = Some (ex', Ok o) → bo_tx o = tx.
Proof. intros H. do 3 fbind_inv H. by injection H as _ <-. Qed.

Lemma reaches_run limits ex1 os tx ex ex' o :
  reaches limits ex1 os ex → run_transaction tx ex = Some (ex', Ok o) →
  ran limits ex1 os tx o ∧ reaches limits ex1 os ex'.
Proof.
  intros Hex H. split; [by exists ex, ex'|]. eapply reaches_reads; [done|]. by eapply run_transaction_reads.
Qed.

(** * The steps of a replay *)

Lemma block_step_ok {A E} (m : fallible executor E A) ex ex' x :
  block_step m ex = Some (ex', Ok x) → m ex = Some (ex', Ok x).
Proof.
  intros H. apply zoom_some in H as (ex1 & [y|] & H & -> & Hx); [|done]. by injection Hx as <-.
Qed.

Lemma over_db_ok {A} (m : DB → DB * result A EvmeError) ex ex' x :
  over_db m ex = Some (ex', Ok x) →
  (m (db_of ex)).2 = Ok x ∧ ((only_read (db_of ex) (m (db_of ex)).1) → ex_reads ex ex').
Proof.
  intros H. apply zoom_some in H as (d & [y|] & [= H] & -> & Hx); [|done]. injection Hx as <-.
  unfold db_of. rewrite H. split; [done|]. intros Hd. split; try done; [|apply env_with_db].
  unfold db_of. simpl. by rewrite db_with_db.
Qed.

Lemma fetch_ok (provider : provider_t) hash ex ex' tx :
  over_world (fetch_transaction provider hash) ex = Some (ex', Ok tx) →
  ex_reads ex ex' ∧ ∃ w w', get_transaction_by_hash provider hash w = (w', Ok (Some tx)).
Proof.
  intros H. apply over_db_ok in H as [H Hr]. unfold fetch_transaction in *.
  destruct (get_transaction_by_hash provider hash _) as [w r] eqn:Hf. simpl in *. split.
  - by apply Hr, (fetch_reads _ _ _ _ _ Hf).
  - destruct r as [[tx'|]|]; try done. injection H as <-. eauto.
Qed.

(** The transactions before the target, each as the network gave it, one after the other. *)
Inductive follows limits ex1 (provider : provider_t) : list outcome_t → list Z → list outcome_t → Prop :=
  | follows_nil os : follows limits ex1 provider os [] []
  | follows_cons os hash hashes w w' tx o rest :
      get_transaction_by_hash provider hash w = (w', Ok (Some tx)) →
      ran limits ex1 os (AsRecovered tx) o → follows limits ex1 provider (os ++ [o]) hashes rest →
      follows limits ex1 provider os (hash :: hashes) (o :: rest).

Lemma follows_length limits ex1 provider os hashes rest :
  follows limits ex1 provider os hashes rest → length rest = length hashes.
Proof. induction 1; simpl; congruence. Qed.

Lemma run_preceding_ok limits ex1 provider hashes os ex ex' :
  reaches limits ex1 os ex → run_preceding provider hashes ex = Some (ex', Ok tt) →
  ∃ rest, follows limits ex1 provider os hashes rest ∧ reaches limits ex1 (os ++ rest) ex'.
Proof.
  revert os ex. induction hashes as [|hash hashes IH]; intros os ex Hex H; simpl in H.
  { injection H as <-. exists []. rewrite app_nil_r. split; [constructor|done]. }
  fbind_inv H. apply fetch_ok in Hm as (Hr & w & w' & Hf).
  fbind_inv H. apply block_step_ok in Hm.
  destruct (reaches_run _ _ _ _ _ _ _ (reaches_reads _ _ _ _ _ Hex Hr) Hm) as [Hran Hex1].
  fbind_inv H. apply block_step_ok in Hm0. destruct (reaches_commit _ _ _ _ _ _ _ Hex1 Hm0) as [Hex2 _].
  destruct (IH _ _ Hex2 H) as (rest & Hfol & Hend). rewrite <- app_assoc in Hend.
  eexists (_ :: rest). split; [by econstructor|done].
Qed.

Lemma target_draft_ok ctx spec inputs r state ex ex' draft :
  target_draft ctx spec inputs r state ex = Some (ex', Ok draft) → ex' = ex.
Proof. unfold target_draft. by destruct inputs as [[]|]; intros [= <- _]. Qed.

Lemma fuse_reads ex : ex_reads ex (with_evm (fuse (ex_evm ex)) ex).
Proof. split; try done; [|apply fuse_env]. unfold db_of. simpl. by rewrite fuse_db. Qed.

Lemma clear_hashes_reads ex : ex_reads ex (clear_accessed_block_hashes ex).
Proof.
  split; try done; [|apply env_with_db]. unfold db_of. simpl. rewrite db_with_db.
  apply clear_hashes_only_read.
Qed.

(** The target as the command runs it. *)
Definition target_tx (cmd : ReplayCmd) (cell : option Bytes) (ctx : context_t) : result tx_t EvmeError :=
  let '(cell, wrapped) := wrap (rp_tx_override_args (rc_args cmd)) cell in
  and_then wrapped (λ overrides, Ok (WithOverrides (mkOverridden (rx_target_tx ctx) overrides) cell)).

Definition nonce_in (d : DB) (a : Address) : Z :=
  match account_of d a with Some acc => nonce acc | None => 0 end.

Lemma run_target_ok limits ex1 os cmd ctx spec inputs cell ex ex' t :
  reaches limits ex1 os ex → run_target cmd ctx spec inputs cell ex = Some (ex', Ok t) →
  reaches limits ex1 os ex' ∧
  tn_pre_execution_nonce t = nonce_in (after os (db_of ex1)) (tx_signer (AsRecovered (rx_target_tx ctx))) ∧
  ∃ tx, target_tx cmd cell ctx = Ok tx ∧ ran limits ex1 os tx (tn_outcome t).
Proof.
  intros Hex. unfold run_target, target_tx.
  destruct (wrap _ cell) as [cell' [overrides|err]]; simpl; [|done]. intros H.
  fbind_inv H. injection Hm as <- <-. fbind_inv H. apply over_db_ok in Hm as [Hi Hr].
  specialize (Hr (basic_ref_reads _ _)). apply basic_ref_ok in Hi.
  fbind_inv H. injection Hm as <- _.
  assert (reaches limits ex1 os (with_evm (fuse (ex_evm s)) s)) as Hex1.
  { eapply reaches_reads; [|apply fuse_reads]. by eapply reaches_reads. }
  fbind_inv H. apply block_step_ok in Hm. destruct (reaches_run _ _ _ _ _ _ _ Hex1 Hm) as [Hran Hex2].
  fbind_inv H. injection Hm0 as <- <-. fbind_inv H. apply target_draft_ok in Hm0 as ->.
  injection H as <- <-. split; [done|]. split; [|by eexists].
  destruct (rc_view _ _ _ _ Hex (tx_signer (AsRecovered (rx_target_tx ctx)))) as [Hacc _].
  unfold nonce_in. simpl in *. by rewrite Hi, <- Hacc.
Qed.

(** * The report *)

(** The block of a replay, and what is reported of its last transaction. *)
Record replays (cmd : ReplayCmd) (cell : option Bytes) (provider : provider_t) (ctx : context_t)
    limits ex1 os o (out : ReplayOutcome) : Prop := mkReplays {
  rs_preceding : follows limits ex1 provider [] (rx_preceding_tx_hashes ctx) os;
  rs_target : ∃ tx, target_tx cmd cell ctx = Ok tx ∧ ran limits ex1 os tx o;
  rs_admitted : ∃ l, run_block (limiter_outcome <$> os ++ [o]) (limiter_new limits) = Ok l;
  rs_nonce : eo_pre_execution_nonce (ro_outcome out) =
    nonce_in (after os (db_of ex1)) (tx_signer (AsRecovered (rx_target_tx ctx)));
  rs_result : eo_exec_result (ro_outcome out) = exec_view (mo_result (bo_inner o));
  rs_state : eo_state (ro_outcome out) = mo_state (bo_inner o);
  rs_receipt : ro_receipt out =
    replay_receipt created ctx (eo_pre_execution_nonce (ro_outcome out))
      (gas_used (mo_result (bo_inner o))) (envelope_of (make_receipt o (block_gas (os ++ [o]))));
  rs_index : or_transaction_index (ro_receipt out) = Some (Z.of_nat (length os));
}.

Lemma replay_block_ok cmd cell provider ctx spec inputs limits ex0 ex out :
  ex_block_limiter ex0 = limiter_new limits → ex_receipts ex0 = [] →
  replay_block envelope_of apply_calldata b256_bytes HISTORY_STORAGE_ADDRESS BEACON_ROOTS_ADDRESS
    increments created cmd provider ctx spec inputs cell ex0 = Some (ex, Ok out) →
  ∃ ex1 os o, pre_block ex0 = Some (ex1, Ok tt) ∧ replays cmd cell provider ctx limits ex1 os o out.
Proof.
  intros Hl Hr H. unfold replay_block in H. fbind_inv H. apply block_step_ok in Hm. destruct x.
  exists s. pose proof (apply_pre_keeps _ _ _ _ _ _ _ Hm) as Hk.
  assert (reaches limits s [] s) as Hs.
  { split; try done; simpl; by rewrite ?(ek_limiter _ _ Hk), ?(ek_receipts _ _ Hk), ?Hl, ?Hr. }
  fbind_inv H. destruct x. destruct (run_preceding_ok _ _ _ _ _ _ _ Hs Hm0) as (os & Hos & Hex).
  fbind_inv H. injection Hm1 as <- _.
  fbind_inv H. pose proof (reaches_reads _ _ _ _ _ Hex (clear_hashes_reads _)) as Hex1.
  destruct (run_target_ok _ _ _ _ _ _ _ _ _ _ _ Hex1 Hm1) as (Hex2 & Hn & Htx).
  fbind_inv H. apply block_step_ok in Hm2. destruct (reaches_commit _ _ _ _ _ _ _ Hex2 Hm2) as [Hex3 ->].
  fbind_inv H. apply block_step_ok, finish_result in Hm3 as [Hrec _].
  fbind_inv H. rewrite Hrec, (rc_receipts _ _ _ _ Hex3), last_snoc in Hm3. injection Hm3 as <- <-.
  injection H as _ <-. simpl in *. exists os, (tn_outcome x0). split; [done|].
  split; try done; [by eexists; apply Hex3|]. simpl. by rewrite (follows_length _ _ _ _ _ _ Hos).
Qed.

(** C10: a replay reports the target as its block ran it.  When the replay succeeds, the executor of
    the block forks the parent's state and applies the block's own changes; the transactions before
    the target are those the network has for their hashes, in the order of the block, each run on
    the state the ones before it left and committed, and the target is run after all of them; the
    block limits admit every one of them at its turn.  The nonce reported is the sender's before
    the target, the result and the state are those of the target's run, and the receipt has the
    target's gas, the gas of the block up to the target, and the target's place in the block. *)
Theorem replay_reports_block cmd cell provider ctx e (w w' : world) out :
  execute (H := hook_log) envelope_of apply_calldata b256_bytes HISTORY_STORAGE_ADDRESS
    BEACON_ROOTS_ADDRESS increments created cmd cell provider ctx e w = Some (w', Ok out) →
  ∃ hardforks w1 cfg block_env inputs spec limits ex0 ex1 os o,
    get_hardfork_config (rx_chain_id ctx) = Some hardforks ∧
    prepare (rc_args cmd) provider ctx e hardforks w = (w1, Ok (cfg, block_env, inputs, spec, limits)) ∧
    replay_executor provider ctx e hardforks cfg block_env limits w1 = Some ex0 ∧
    pre_block ex0 = Some (ex1, Ok tt) ∧ replays cmd cell provider ctx limits ex1 os o out.
Proof.
  unfold execute. intros H. bind_inv H.
  destruct (prepare _ _ _ _ _ _) as [w1 [[[[[cfg block_env] inputs] spec] limits]|err]] eqn:Hp; [|done].
  bind_inv H. bind_inv H. injection H as _ ->.
  assert (ex_block_limiter x0 = limiter_new limits ∧ ex_receipts x0 = []) as [Hl Hr].
  { unfold replay_executor, create_executor in E0. bind_inv E0. by apply executor_new_fresh in E0 as [-> _]. }
  destruct (replay_block_ok _ _ _ _ _ _ _ _ _ _ Hl Hr E1) as (ex1 & os & o & Hpre & Hrep).
  by exists x, w1, cfg, block_env, inputs, spec, limits, x0, ex1, os, o.
Qed.
End replay.

(** * A replay *)

(** A network that answers from a fixed chain, and a fork of its state. *)
Module reference.
#[local] Existing Instances T8nFacts.reference.ref_env CliFixture.reference.ref_ops.
#[local] Existing Instances CliFixture.reference.ref_run CliTxFacts.reference.ref_parsers.

(** A transaction of account 8 with its hash. *)
Definition chain_tx (hash nonce gas : Z) (to : option Address) : Z * MegaTx :=
  (hash, mkMegaTx (mkTxEnv 8 0 None 0 gas [] nonce 5 [] [] to (Some 6342)) None deposit_default).

(** The second transaction creates a contract. *)
Definition ref_transfer_tx : Z * MegaTx := chain_tx 11 0 21000 (Some 9).
Definition ref_create_tx : Z * MegaTx := chain_tx 12 1 40000 None.

Definition ref_chain (hash : Z) : option (Z * MegaTx) :=
  if hash =? 11 then Some ref_transfer_tx else if hash =? 12 then Some ref_create_tx else None.

#[local] Instance ref_rpc : ReplayRpc unit unit unit := {|
  RpcTransaction := Z * MegaTx;
  rt_block_number _ := Some 12;
  get_transaction_by_hash _ hash w := (w, Ok (ref_chain hash));
  get_block_number _ w := (w, Ok 12);
  get_block_by_number _ _ w := (w, Ok None);
|}.

#[local] Instance ref_reads : ReplayReads unit unit unit TestLog := {|
  rt_tx := snd;
  rt_codec := {|
    tx_ty _ := 0;
    inner_tx_hash := fst;
    tx_gas_limit_of t := te_gas_limit (mt_base (snd t));
    trie_hash := fst;
    tx_signer t := te_caller (mt_base (snd t));
    into_tx_env := snd;
    encode_2718_len _ := 110;
    estimated_size_fjord _ := 110;
  |};
  rt_to t := te_kind (mt_base (snd t));
  rt_effective_gas_price _ := Some 3;
  rt_target _ := CliFixture.reference.ref_target;
  rt_name _ := [];
  rpc_block_hash b := hd_number (rb_header b) + 1000;
  rpc_beacon_root _ := Some 6;
  rpc_extra_data _ := [];
  get_transaction_receipt _ _ w := (w, Ok None);
|}.

#[local] Instance ref_fork : ForkProvider unit unit unit RefDb := {|
  fork_at _ _ _ := sample_registry_db sample_registry;
  fork_world _ := (tt, NoopStore);
|}.

#[local] Instance ref_replay_db : ReplayDb RefDb RefDb unit unit := {|
  state_build s := match backend s with Forked d => d | Empty => mkRefDb ∅ ∅ end;
  db_world _ := (tt, NoopStore);
  db_with_world _ d := d;
  db_basic_ref a d := (d, Ok (account_of d a));
  db_loaded_basic a d := Some (account_of d a);
  db_loaded_code _ _ := None;
|}.

(** A transaction uses its gas limit, and counts its sender's nonce up. *)
Definition ref_run_tx (t : MegaTx) : MegaTransactionOutcome (Z * bool) :=
  let b := mt_base t in
  ref_outcome (te_gas_limit b)
    {[te_caller b := mark_touch (account_from_info (mkAccountInfo 100 (te_nonce b + 1) 77 None))]}.

#[local] Instance ref_replay_evm : ReplayEvm RefEvm FlatJournal FlatWorld RefDb TestLog := {|
  evm_of _ d cfg block :=
    Some (mkRefEvm d (ce_spec cfg) (fb_timestamp block) (fb_number block) (fb_gas_limit block) 0);
  evm_with_limits _ v := v;
  fuse v := v;
  raw_tx := ref_run_tx;
  exec_view r := TestSuccess r.1 [] [];
|}.

#[local] Instance ref_tracing : Tracing RefEvm RefDb TestLog := {|
  Inspector := unit;
  recorded _ := tt;
  geth_traces _ _ _ _ := [];
  geth_call_traces _ _ _ := [];
  geth_prestate_traces _ _ _ _ _ := [];
|}.

#[local] Instance ref_receipts : ReceiptBuilder (ReplayTx (Z * MegaTx)) (Z * bool) unit := {|
  Receipt := Z;
  build_receipt _ _ g _ := Some g;
  build_deposit_receipt _ g _ _ _ := g;
  cumulative_gas_used g := g;
|}.

#[local] Instance ref_laws : ReplayLaws unit unit unit RefDb RefDb RefEvm FlatJournal FlatWorld TestLog.
Proof.
  split; [intros; simpl; reflexivity|intros; simpl; reflexivity| |done|done].
  by intros a d i [= <-].
Qed.

Definition ref_cmd : ReplayCmd :=
  mkReplayCmd (mkReplayArgs 12 (mkRpcArgs None None None 0 None false false 0 0 0) [] None
                 (mkOverrideArgs None None None None) None)
    (mkDumpArgs false None)
    (mkTraceArgs false None OpcodeTracer false false false false false false false false false) false.

Definition ref_replay_context : ReplayContext unit unit unit :=
  mkReplayContext ref_create_tx (mkRpcBlock (mkHeader 11 3 98 30000000 (Some 10) 0 (Some 4) (Some 0)) [])
    (mkRpcBlock (mkHeader 12 3 99 30000000 (Some 10) 0 (Some 4) (Some 0)) [11; 12]) 6342 [11].

Local Notation ref_execute :=
  (execute (HRp := ref_rpc) (BE := reference_block_evm) (HEv := ref_replay_evm) (H := hook_log)
     (HRb := ref_receipts) (λ gas, LegacyReceipt (mkBody true gas [])) ref_apply_calldata (λ x, [x]) 1000 1001
     (λ _ _, [(4, 9)]) (λ a n, 100 * a + n) ref_cmd None (CaptureProvider (mkClient false None) tt)
     ref_replay_context test_new (tt, NoopStore)).

(** The target creates a contract, with the nonce that the transaction before it left. *)
Lemma replay_reports_block_witness :
  ∃ w out ex1 os o,
    ref_execute = Some (w, Ok out) ∧
    replays (HRp := ref_rpc) (BE := reference_block_evm) (HEv := ref_replay_evm) (HRb := ref_receipts)
      (λ gas, LegacyReceipt (mkBody true gas [])) (λ a n, 100 * a + n) ref_cmd None
      (CaptureProvider (mkClient false None) tt) ref_replay_context
      (from_hardfork_and_block_gas_limit Rex6 30000000) ex1 os o out ∧
    bo_tx <$> os = [AsRecovered ref_transfer_tx] ∧
    or_gas_used (ro_receipt out) = 40000 ∧
    rb_cumulative_gas_used (receipt_body (or_inner (ro_receipt out))) = 61000 ∧
    or_transaction_index (ro_receipt out) = Some 1 ∧
    or_contract_address (ro_receipt out) = Some 801.
Proof.
  destruct (returns (λ r, match r.2 with
      | Ok out => or_gas_used (ro_receipt out) = 40000 ∧
          rb_cumulative_gas_used (receipt_body (or_inner (ro_receipt out))) = 61000 ∧
          or_transaction_index (ro_receipt out) = Some 1 ∧
          or_contract_address (ro_receipt out) = Some 801
      | Err _ => False end) ref_execute) as ([w [out|err]] & Hr & H);
    [vm_compute; split_and!; exact eq_refl| |destruct H].
  pose proof Hr as Hres. eapply replay_reports_block in Hres; [|apply _..].
  destruct Hres as (hf & w1 & cfg & block_env & inputs & spec & limits & ex0 & ex1 & os & o & Hhf & Hp & _ & _ & Hrep).
  vm_compute in Hhf. injection Hhf as <-. vm_compute in Hp. injection Hp as _ _ _ _ _ <-.
  exists w, out, ex1, os, o. split; [exact Hr|]. split; [exact Hrep|]. split; [|exact H].
  pose proof (rs_preceding _ _ _ _ _ _ _ _ _ _ _ Hrep) as Hf. simpl in Hf.
  inversion Hf as [|? ? ? ? ? tx ? ? Hg Hran Hf']; subst. inversion Hf'; subst.
  injection Hg as <- <-. destruct Hran as (ex & ex' & _ & Hrun).
  apply run_transaction_tx in Hrun. exact (f_equal (λ t, [t]) Hrun).
Defined.
End reference.
