(* ===== verification/TestUtils.v ===== *)
(** The test utilities: the in-memory databases of [test_utils/database.rs], the bytecode builder
    of [test_utils/opcode_gen.rs] and [bytes.rs], the gas inspector of [test_utils/inspectors.rs],
    and the run of one transaction in [test_utils/evm.rs].

    revm's [CacheDB] is the class [CacheDbOps]; an assertion that fails is a panic.  The nodes of a
    trace and their items are shared: a node is reached from its parent, from the stack of open
    calls and from the root of the trace, and is changed through any of them.  [Heap] is the store
    of both; a pointer is an index into it, and a new cell is put at its end.  The recursion over a
    tree of pointers has fuel, and the number of nodes is enough. *)

From S2P Require Import Prelude Spec Revm LimitCheck Interfaces AdditionalLimit Access DynamicGas.
From S2P Require Import SystemTx Context Intercept Execution EvmState Validation Precompiles.
From S2P Require Import BlockLimit Effects BlockEvm MegaEvm CliInput.

(** * [database.rs] *)

(** [AccountState] of an entry of the cache. *)
Inductive EntryState : Type := NotExisting | EntryTouched | StorageCleared | EntryNone.

Record DbAccount : Type := mkDbAccount {
  da_info : AccountInfo;
  da_state : EntryState;
  da_storage : gmap Z U256;
}.

(** [load_account] gives the entry, which is then written through its reference. *)
Class CacheDbOps (C : Type) := {
  load_account : Address → C → C * DbAccount;
  write_account : Address → DbAccount → C → C;
  db_basic : Address → C → C * option AccountInfo;
  db_code_by_hash : Z → C → C * Bytecode;
  db_storage : Address → U256 → C → C * U256;
  db_block_hash : Z → C → C * Z;
  db_commit : gmap Z Account → C → C;
}.

Class CacheDbLaws {C : Type} (H : CacheDbOps C) := {
  write_basic a x (c : C) : snd (db_basic a (write_account a x c)) =
    match da_state x with NotExisting => None | _ => Some (da_info x) end;
  write_storage a k x v (c : C) : da_storage x !! k = Some v → snd (db_storage a k (write_account a x c)) = v;
  write_other a b x (c : C) : a ≠ b → snd (db_basic b (write_account a x c)) = snd (db_basic b c);
  load_other a b (c : C) : snd (db_basic b (fst (load_account a c))) = snd (db_basic b c);
}.

Section database.
Context `{RS : RevmState} {C : Type} `{HC : !CacheDbOps C} `{HB : BytecodeOps}.
Implicit Types (c : C) (a : Address).

(** The setters change the entry and mark it as one that exists. *)
Definition update_info (f : AccountInfo → AccountInfo) a c : C :=
  let '(c, x) := load_account a c in
  write_account a (mkDbAccount (f (da_info x)) EntryNone (da_storage x)) c.

Definition set_account_code a (bytes : Bytes) c : C :=
  let bytecode := OtherBytecode bytes in
  update_info (λ i, mkAccountInfo (balance i) (nonce i) (hash_slow bytecode) (Some bytecode)) a c.

(** The code is only known by its hash. *)
Definition account_lazy_code a (hash : Z) c : C :=
  update_info (λ i, mkAccountInfo (balance i) (nonce i) hash None) a c.

Definition set_account_balance a (b : U256) c : C :=
  update_info (λ i, mkAccountInfo b (nonce i) (code_hash i) (code i)) a c.
Definition set_account_nonce a (n : Z) c : C :=
  update_info (λ i, mkAccountInfo (balance i) n (code_hash i) (code i)) a c.

Definition set_account_storage a (k v : U256) c : C :=
  let '(c, x) := load_account a c in
  write_account a (mkDbAccount (da_info x) EntryNone (<[k := v]> (da_storage x))) c.

(** [ErrorInjectingDatabase]. *)
Record ErrorInjecting : Type := mkInjecting {
  ej_inner : C;
  fail_on_account : option Address;
  fail_on_storage : option (Address * U256);
  fail_on_code_by_hash : option Z;
}.
Implicit Types d : ErrorInjecting.

Definition injecting_new c : ErrorInjecting := mkInjecting c None None None.

Definition with_inner_db c d : ErrorInjecting :=
  mkInjecting c (fail_on_account d) (fail_on_storage d) (fail_on_code_by_hash d).

(** The error of the lookup, or the lookup on the inner database. *)
Definition inject {A} (fails : bool) (f : C → C * A) d : ErrorInjecting * result A unit :=
  if fails then (d, Err tt) else let '(c, x) := f (ej_inner d) in (with_inner_db c d, Ok x).

Definition injecting_basic a d := inject (bool_decide (fail_on_account d = Some a)) (db_basic a) d.
Definition injecting_code_by_hash (h : Z) d :=
  inject (bool_decide (fail_on_code_by_hash d = Some h)) (db_code_by_hash h) d.
Definition injecting_storage a (k : U256) d :=
  inject (bool_decide (fail_on_storage d = Some (a, k))) (db_storage a k) d.
Definition injecting_block_hash (n : Z) d := inject false (db_block_hash n) d.
Definition injecting_commit (changes : gmap Z Account) d : ErrorInjecting :=
  with_inner_db (db_commit changes (ej_inner d)) d.

(** * Properties *)

Context `{HL : !CacheDbLaws HC}.

(** Every setter leaves an account that exists, with the field it sets, and no other account changes. *)
Lemma update_info_basic f a c :
  snd (db_basic a (update_info f a c)) = Some (f (da_info (snd (load_account a c)))) ∧
  ∀ b, a ≠ b → snd (db_basic b (update_info f a c)) = snd (db_basic b c).
Proof.
  unfold update_info. destruct (load_account a c) as [c1 x] eqn:Hl. split; [by rewrite write_basic|].
  intros b Hb. rewrite write_other by done. change c1 with (fst (c1, x)). by rewrite <- Hl, load_other.
Qed.

Lemma set_storage_reads a k v c : snd (db_storage a k (set_account_storage a k v c)) = v.
Proof.
  unfold set_account_storage. destruct (load_account a c) as [c1 x].
  apply write_storage. apply lookup_insert_eq.
Qed.

(** The wrapper fails exactly where it is told to, and is otherwise the database it wraps. *)
Lemma inject_exact {A} fails (f : C → C * A) d :
  (snd (inject fails f d) = Err tt ↔ fails = true) ∧
  (fails = false → snd (inject fails f d) = Ok (snd (f (ej_inner d))) ∧
                   ej_inner (fst (inject fails f d)) = fst (f (ej_inner d))).
Proof.
  unfold inject. destruct fails; [by split|]. destruct (f (ej_inner d)) as [c x]. by split.
Qed.
End database.

(** * [opcode_gen.rs] *)

Definition DUP1 : Z := 0x80.
Definition EQ : Z := 0x14.
Definition INVALID : Z := 0xFE.
Definition JUMPDEST : Z := 0x5B.
Definition JUMPI : Z := 0x57.
Definition MSTORE : Z := 0x52.
Definition PUSH0 : Z := 0x5F.
Definition RETURN : Z := 0xF3.
Definition REVERT : Z := 0xFD.
Definition SSTORE : Z := 0x55.
Definition STOP : Z := 0.

(** [to_be_bytes] of a number of [n] bytes; higher bytes are cut off. *)
Fixpoint to_be_bytes (n : nat) (x : Z) : Bytes :=
  match n with O => [] | S n => to_be_bytes n (x / 256) ++ [x mod 256] end.

(** [right_pad_bytes] of [bytes.rs]: zeros up to a multiple. *)
Definition right_pad_bytes (bytes : Bytes) (multiple_of : nat) : Bytes :=
  bytes ++ replicate ((multiple_of - length bytes mod multiple_of) mod multiple_of) 0.

(** [chunks(n)]; a chunk takes at least one byte, so the length is enough fuel. *)
Fixpoint chunks_from (fuel n : nat) (l : Bytes) : list Bytes :=
  match fuel, l with
  | S fuel, _ :: _ => take n l :: chunks_from fuel n (drop n l)
  | _, _ => []
  end.
Definition chunks (n : nat) (l : Bytes) : list Bytes := chunks_from (length l) n l.

Section builder.
(** [BytecodeBuilder] is its code. *)
Implicit Types self : Bytes.

Definition append (opcode : Z) self : Bytes := self ++ [opcode].
Definition append_many (items : Bytes) self : Bytes := self ++ items.

Definition push_bytes (bytes : Bytes) self : panics Bytes :=
  _ ← assert_ (length bytes <=? 32)%nat;
  Some (self ++ [PUSH0 + Z.of_nat (length bytes)] ++ bytes).

(** The size is that of the number's type. *)
Definition push_number (size : nat) (number : Z) self : panics Bytes :=
  _ ← assert_ (bool_decide (size ∈ [1; 2; 4; 8; 16]%nat));
  push_bytes (to_be_bytes size number) self.
Definition push_u64 (number : Z) self : panics Bytes := push_number 8 number self.

Definition push_address (a : Address) self : panics Bytes := push_bytes (to_be_bytes 20 a) self.
Definition push_u256 (value : U256) self : panics Bytes := push_bytes (to_be_bytes 32 value) self.

Fixpoint mstore_chunks (offset : Z) (cs : list Bytes) self : panics Bytes :=
  match cs with
  | [] => Some self
  | c :: cs =>
      self ← push_bytes c self;
      self ← push_u64 offset self;
      mstore_chunks (offset + 32) cs (append MSTORE self)
  end.
Definition mstore (offset : Z) (bytes : Bytes) self : panics Bytes :=
  mstore_chunks offset (chunks 32 (right_pad_bytes bytes 32)) self.

Definition sstore (slot value : U256) self : panics Bytes :=
  self ← push_u256 value self;
  self ← push_u256 slot self;
  Some (append SSTORE self).

Definition revert self : Bytes := append_many [PUSH0; PUSH0; REVERT] self.
Definition return_empty self : Bytes := append_many [PUSH0; PUSH0; RETURN] self.

(** The data in memory, its length and its offset, and the opcode that ends with it. *)
Definition end_with_data (opcode : Z) (data : Bytes) self : panics Bytes :=
  self ← mstore 0 data self;
  self ← push_u64 (Z.of_nat (length data)) self;
  self ← push_u64 0 self;
  Some (append opcode self).
Definition revert_with_data (data : Bytes) self : panics Bytes := end_with_data REVERT data self.
Definition return_with_data (data : Bytes) self : panics Bytes := end_with_data RETURN data self.

Definition assert_stack_value (stack_position : Z) (value : U256) self : panics Bytes :=
  self ← push_u256 value (append ((DUP1 + stack_position) mod 256) self);
  let self := append EQ self in
  self ← push_u64 (Z.of_nat (length self) + 1 + 8 + 2) self;
  Some (append_many [JUMPI; INVALID; JUMPDEST] self).

Definition stop self : Bytes := append STOP self.
End builder.

(** * Properties of the builder *)

Definition from_be_bytes (l : Bytes) : Z := foldl (λ x b, 256 * x + b) 0 l.

Lemma to_be_bytes_length n x : length (to_be_bytes n x) = n.
Proof. revert x. induction n as [|n IH]; intros x; [done|]. simpl. rewrite length_app, IH. simpl. lia. Qed.

(** What is pushed is read back, as far as it fits. *)
Lemma be_bytes_roundtrip n x : from_be_bytes (to_be_bytes n x) = x mod 256 ^ Z.of_nat n.
Proof.
  revert x. induction n as [|n IH]; intros x; [by rewrite Z.mod_1_r|].
  unfold from_be_bytes in *. cbn [to_be_bytes]. rewrite foldl_app. simpl foldl at 1. rewrite IH.
  rewrite Nat2Z.inj_succ, Z.pow_succ_r by lia.
  rewrite (Z.rem_mul_r x 256 (256 ^ Z.of_nat n)) by lia. lia.
Qed.

(** The padded data are a multiple of the word size, and start with the data. *)
Lemma right_pad_multiple bytes :
  (length (right_pad_bytes bytes 32) mod 32 = 0)%nat ∧ take (length bytes) (right_pad_bytes bytes 32) = bytes.
Proof.
  unfold right_pad_bytes. split; [|apply take_app_length].
  rewrite length_app, length_replicate.
  pose proof (Nat.div_mod_eq (length bytes) 32). pose proof (Nat.mod_upper_bound (length bytes) 32).
  destruct (decide (length bytes mod 32 = 0)%nat) as [Hz|Hz].
  - by rewrite Hz, Nat.sub_0_r, Nat.Div0.mod_same, Nat.add_0_r.
  - rewrite (Nat.mod_small (32 - _)) by lia. replace (length bytes + (32 - length bytes mod 32))%nat
      with ((length bytes / 32 + 1) * 32)%nat by lia. apply Nat.Div0.mod_mul.
Qed.

(** The snippet jumps over its [INVALID] to the [JUMPDEST] at its end. *)
Lemma assert_jumps_to_end position value self :
  Z.of_nat (length self) + 50 < 2 ^ 64 →
  ∃ code, assert_stack_value position value self = Some code ∧
    length code = (length self + 47)%nat ∧
    from_be_bytes (take 8 (drop (length self + 36) code)) = Z.of_nat (length code) - 1 ∧
    last code = Some JUMPDEST.
Proof.
  intros Hl. unfold assert_stack_value, push_u256, push_u64, push_number, push_bytes, append, append_many.
  rewrite !to_be_bytes_length. cbn [Nat.leb assert_ mbind option_bind].
  rewrite bool_decide_eq_true_2 by set_solver. cbn [assert_ mbind option_bind].
  set (pre := ((self ++ [(DUP1 + position) mod 256]) ++ [PUSH0 + Z.of_nat 32] ++ to_be_bytes 32 value) ++ [EQ]).
  assert (Hpre : length pre = (length self + 35)%nat).
  { subst pre. repeat (rewrite length_app || cbn [length]). rewrite to_be_bytes_length. lia. }
  set (target := Z.of_nat (length pre) + 1 + 8 + 2).
  exists (pre ++ [PUSH0 + Z.of_nat 8] ++ to_be_bytes 8 target ++ [JUMPI; INVALID; JUMPDEST]).
  split; [rewrite to_be_bytes_length; cbn [Nat.leb assert_ mbind option_bind]; by rewrite <- !app_assoc|].
  assert (Hlen : length (pre ++ [PUSH0 + Z.of_nat 8] ++ to_be_bytes 8 target ++ [JUMPI; INVALID; JUMPDEST]) =
    (length self + 47)%nat).
  { rewrite !length_app, to_be_bytes_length. cbn [length]. lia. }
  split; [exact Hlen|]. split.
  - rewrite Hlen, (app_assoc pre), drop_app_length'
      by (rewrite length_app; cbn [length]; lia).
    rewrite take_app_length' by (by rewrite to_be_bytes_length). rewrite be_bytes_roundtrip, Z.mod_small; subst target; lia.
  - by rewrite !last_app.
Qed.

Record OpcodeGasInfo : Type := mkGasInfo {
  gi_opcode : Z;
  gi_gas_before : Z;
  gi_gas_after : Z;
  gi_depth : Z;
}.

Definition gas_cost (i : OpcodeGasInfo) : Z := sat_sub (gi_gas_before i) (gi_gas_after i).

Section inspector.
(** [MsgCallMeta]: the inputs of a call or of a creation. *)
Context {Meta : Type}.

Record TraceNode : Type := mkNode {
  tn_meta : Meta;
  tn_parent : option nat;
  tn_sections : list (list nat);
  tn_childrens : list nat;
}.

Record Heap : Type := mkHeap {
  h_nodes : list TraceNode;
  h_items : list OpcodeGasInfo;
}.
Implicit Types (h : Heap) (p : nat).

(** * Nodes *)

Definition write_node p (n : TraceNode) h : Heap := mkHeap (<[p := n]> (h_nodes h)) (h_items h).

(** [add_child]. *)
Definition add_child p (child : nat) h : panics Heap :=
  n ← h_nodes h !! p;
  Some (write_node p (mkNode (tn_meta n) (tn_parent n) (tn_sections n ++ [[]])
                        (tn_childrens n ++ [child])) h).

(** [TraceNode::new]: the node is put into the store and linked to its parent. *)
Definition node_new (meta : Meta) (parent : option nat) h : panics (nat * Heap) :=
  let this := length (h_nodes h) in
  let h := mkHeap (h_nodes h ++ [mkNode meta parent [[]] []]) (h_items h) in
  match parent with
  | Some p => h ← add_child p this h; Some (this, h)
  | None => Some (this, h)
  end.

(** [add_item]: the item goes to the section after the last child. *)
Definition add_item p (item : OpcodeGasInfo) h : panics Heap :=
  n ← h_nodes h !! p;
  let i := length (tn_childrens n) in
  sec ← tn_sections n !! i;
  let this := length (h_items h) in
  let n := mkNode (tn_meta n) (tn_parent n) (<[i := sec ++ [this]]> (tn_sections n)) (tn_childrens n) in
  Some (mkHeap (<[p := n]> (h_nodes h)) (h_items h ++ [item])).

Definition last_item p h : panics (option nat) :=
  n ← h_nodes h !! p; Some (last (concat (tn_sections n))).

(** * Traversals *)

(** The items of the sections and of the children between them. *)
Fixpoint interleave (f : nat → panics (list nat)) (secs : list (list nat)) (ptrs : list nat)
    : panics (list nat) :=
  match ptrs, secs with
  | [], sec :: _ => Some sec
  | p :: ptrs, sec :: secs =>
      items ← f p; rest ← interleave f secs ptrs; Some (sec ++ items ++ rest)
  | _, [] => None
  end.

Fixpoint flattened_items (fuel : nat) h p : panics (list nat) :=
  match fuel with
  | O => None
  | S fuel =>
      n ← h_nodes h !! p;
      interleave (flattened_items fuel h) (tn_sections n) (tn_childrens n)
  end.

(** An index out of bounds panics. *)
Fixpoint get_node h p (location : list nat) : panics (option nat) :=
  match location with
  | [] => Some (Some p)
  | i :: location =>
      n ← h_nodes h !! p;
      child ← tn_childrens n !! i;
      get_node h child location
  end.

Definition get_item h p (location : nat * nat) : panics (option nat) :=
  n ← h_nodes h !! p;
  Some (tn_sections n !! location.1 ≫= λ section, section !! location.2).

Definition get_item_nested h p (call : list nat) (item : nat * nat) : panics (option nat) :=
  n ← get_node h p call;
  match n with Some n => get_item h n item | None => Some None end.

(** What [iterate_with] hands to its function: where the node is, the node, where the item is in it,
    and the item. *)
Record Visit : Type := mkVisit {
  vs_node_location : list nat;
  vs_node : nat;
  vs_item_location : nat * nat;
  vs_item : nat;
}.

(** A child follows every section but the last. *)
Fixpoint iterate_sections (f : nat → list nat → panics (list Visit)) p (location : list nat)
    (childrens : list nat) (idx : nat) (secs : list (list nat)) : panics (list Visit) :=
  match secs with
  | [] => Some []
  | sec :: rest =>
      let here := imap (λ j x, mkVisit location p (idx, j) x) sec in
      match rest with
      | [] => Some here
      | _ =>
          child ← childrens !! idx;
          below ← f child (location ++ [idx]);
          more ← iterate_sections f p location childrens (S idx) rest;
          Some (here ++ below ++ more)
      end
  end.

Fixpoint iterate_with_inner (fuel : nat) h p (location : list nat) : panics (list Visit) :=
  match fuel with
  | O => None
  | S fuel =>
      n ← h_nodes h !! p;
      iterate_sections (iterate_with_inner fuel h) p location (tn_childrens n) 0 (tn_sections n)
  end.

Definition iterate_with h p : panics (list Visit) := iterate_with_inner (length (h_nodes h)) h p [].

(** * The inspector *)

Record GasInspector : Type := mkInspector {
  in_stack : list nat;
  in_trace : option nat;
  in_heap : Heap;
}.
Implicit Types g : GasInspector.

Definition inspector_new : GasInspector := mkInspector [] None (mkHeap [] []).

(** The store keeps the cells that are no longer reached. *)
Definition clear g : GasInspector := mkInspector [] None (in_heap g).

Definition records g : panics (list OpcodeGasInfo) :=
  match in_trace g with
  | Some t =>
      items ← flattened_items (length (h_nodes (in_heap g))) (in_heap g) t;
      mapM (λ i, h_items (in_heap g) !! i) items
  | None => Some []
  end.

(** [call] and [create]. *)
Definition on_enter (meta : Meta) g : panics GasInspector :=
  '(node, h) ← node_new meta (last (in_stack g)) (in_heap g);
  Some (mkInspector (in_stack g ++ [node]) (match in_trace g with Some t => Some t | None => Some node end) h).

(** [call_end] and [create_end]. *)
Definition on_exit g : GasInspector := mkInspector (removelast (in_stack g)) (in_trace g) (in_heap g).

(** [opcode] is [OpCode::new] of the byte, unwrapped: a byte that is no opcode panics. *)
Definition on_step (opcode : option Z) (gas depth : Z) g : panics GasInspector :=
  opcode ← opcode;
  let step := mkGasInfo opcode gas gas depth in
  match last (in_stack g) with
  | Some c => h ← add_item c step (in_heap g); Some (mkInspector (in_stack g) (in_trace g) h)
  | None => Some g
  end.

Definition on_step_end (gas : Z) g : panics GasInspector :=
  c ← last (in_stack g);
  item ← last_item c (in_heap g);
  i ← item;
  info ← h_items (in_heap g) !! i;
  let info := mkGasInfo (gi_opcode info) (gi_gas_before info) gas (gi_depth info) in
  Some (mkInspector (in_stack g) (in_trace g)
          (mkHeap (h_nodes (in_heap g)) (<[i := info]> (h_items (in_heap g))))).

(** What revm reports. *)
Inductive Event : Type :=
  | Enter (meta : Meta)
  | Exit
  | Step (opcode : option Z) (gas depth : Z)
  | StepEnd (gas : Z).

Definition on_event (e : Event) g : panics GasInspector :=
  match e with
  | Enter meta => on_enter meta g
  | Exit => Some (on_exit g)
  | Step opcode gas depth => on_step opcode gas depth g
  | StepEnd gas => on_step_end gas g
  end.

Definition inspect (es : list Event) g : panics GasInspector :=
  foldl (λ (m : option GasInspector) e, g ← m; on_event e g) (Some g) es.
End inspector.
#[global] Arguments TraceNode Meta : clear implicits.
#[global] Arguments Heap Meta : clear implicits.
#[global] Arguments GasInspector Meta : clear implicits.
#[global] Arguments Event Meta : clear implicits.

(** * The tree in the store *)

(** A subtree is the interval of the store from its node to the end of its last child, since nodes
    are put there in the order in which they are entered. *)
Section tree.
Context {Meta : Type}.
Implicit Types (h : Heap Meta) (p q lo hi : nat) (items : list nat).

(** The subtree at [p] ends at [hi] and has these items, in order; and so for the children and the
    sections of a node. *)
Inductive rep h : nat → nat → list nat → Prop :=
  | rep_node p hi n items :
      h_nodes h !! p = Some n → chs h (S p) hi (tn_sections n) (tn_childrens n) items → rep h p hi items
with chs h : nat → nat → list (list nat) → list nat → list nat → Prop :=
  | chs_last lo sec : chs h lo lo [sec] [] sec
  | chs_cons lo mid hi sec secs ptrs items rest :
      rep h lo mid items → chs h mid hi secs ptrs rest →
      chs h lo hi (sec :: secs) (lo :: ptrs) (sec ++ items ++ rest).

Scheme rep_mut := Minimality for rep Sort Prop
  with chs_mut := Minimality for chs Sort Prop.
Combined Scheme rep_chs_ind from rep_mut, chs_mut.

Lemma rep_chs_span h :
  (∀ p hi items, rep h p hi items → (p < hi)%nat) ∧
  (∀ lo hi secs ptrs items, chs h lo hi secs ptrs items → (lo ≤ hi)%nat).
Proof. apply rep_chs_ind; intros; lia. Qed.

Definition same_in h h' lo hi : Prop := ∀ q, (lo ≤ q < hi)%nat → h_nodes h' !! q = h_nodes h !! q.

(** Only the nodes of a subtree matter. *)
Lemma rep_chs_frame h h' :
  (∀ p hi items, rep h p hi items → same_in h h' p hi → rep h' p hi items) ∧
  (∀ lo hi secs ptrs items,
     chs h lo hi secs ptrs items → same_in h h' lo hi → chs h' lo hi secs ptrs items).
Proof.
  destruct (rep_chs_span h) as [Hr Hc]. apply rep_chs_ind.
  - intros p hi n items Hn H IH Hs. pose proof (Hc _ _ _ _ _ H).
    econstructor; [rewrite Hs; [done|lia]|]. apply IH. intros q Hq. apply Hs. lia.
  - constructor.
  - intros lo mid hi sec secs ptrs items rest H1 IH1 H2 IH2 Hs.
    pose proof (Hr _ _ _ H1). pose proof (Hc _ _ _ _ _ H2).
    econstructor; [apply IH1|apply IH2]; intros q Hq; apply Hs; lia.
Qed.

(** Fuel for every node of a subtree is enough. *)
Lemma rep_chs_flattened h :
  (∀ p hi items, rep h p hi items →
     ∀ fuel, (hi - p ≤ fuel)%nat → flattened_items fuel h p = Some items) ∧
  (∀ lo hi secs ptrs items, chs h lo hi secs ptrs items →
     ∀ fuel, (hi - lo ≤ fuel)%nat → interleave (flattened_items fuel h) secs ptrs = Some items).
Proof.
  destruct (rep_chs_span h) as [Hr Hc]. apply rep_chs_ind.
  - intros p hi n items Hn H IH fuel Hf. pose proof (Hc _ _ _ _ _ H).
    destruct fuel as [|fuel]; [lia|]. simpl. rewrite Hn. simpl. apply IH. lia.
  - done.
  - intros lo mid hi sec secs ptrs items rest H1 IH1 H2 IH2 fuel Hf.
    pose proof (Hr _ _ _ H1). pose proof (Hc _ _ _ _ _ H2).
    simpl. rewrite IH1 by lia. simpl. by rewrite IH2 by lia.
Qed.

(** There is one more section than children; an item is added to the last one. *)
Lemma chs_add_item h lo hi secs ptrs items x :
  chs h lo hi secs ptrs items →
  length secs = S (length ptrs) ∧ ∃ sec, secs !! length ptrs = Some sec ∧
    chs h lo hi (<[length ptrs := sec ++ [x]]> secs) ptrs (items ++ [x]).
Proof.
  induction 1 as [lo sec|lo mid hi sec secs ptrs items rest H1 H2 (Hl & sec' & Hs & IH)]; simpl.
  - split; [done|]. exists sec. split; [done|constructor].
  - split; [lia|]. exists sec'. split; [done|]. rewrite <- !app_assoc. by econstructor.
Qed.

(** A child is added at the end of the subtree. *)
Lemma chs_add_child h lo hi hi' secs ptrs items items' :
  chs h lo hi secs ptrs items → rep h hi hi' items' →
  chs h lo hi' (secs ++ [[]]) (ptrs ++ [hi]) (items ++ items').
Proof.
  intros H Hr. induction H as [lo sec|lo mid hi sec secs ptrs items rest H1 H2 IH]; simpl.
  - rewrite <- (app_nil_r items') at 1. eapply (chs_cons _ lo hi' hi'); [done|constructor].
  - rewrite <- !app_assoc. econstructor; [done|]. by apply IH.
Qed.

(** * The open calls *)

(** The stack is a path from the root along the last children, and nothing follows these. *)
Inductive path h : list nat → Prop :=
  | path_top p : path h [p]
  | path_cons p q rest n :
      h_nodes h !! p = Some n → last (tn_childrens n) = Some q → last (tn_sections n) = Some [] →
      path h (q :: rest) → path h (p :: q :: rest).

Lemma chs_focus h lo hi secs ptrs items q :
  chs h lo hi secs ptrs items → last ptrs = Some q → last secs = Some [] →
  (lo ≤ q)%nat ∧ ∃ pre items_q, items = pre ++ items_q ∧ rep h q hi items_q ∧
    ∀ h' hi' items', same_in h h' lo q → rep h' q hi' items' → chs h' lo hi' secs ptrs (pre ++ items').
Proof.
  induction 1 as [lo sec|lo mid hi sec secs ptrs items rest H1 H2 IH]; [done|].
  intros Hp Hs. destruct ptrs as [|p' ptrs].
  - injection Hp as <-. inversion H2; subst. simpl in Hs. injection Hs as ->.
    split; [done|]. exists sec, items. rewrite app_nil_r. split_and!; [done..|].
    intros h' hi' items' _ Hr. rewrite <- (app_nil_r items'). econstructor; [done|constructor].
  - destruct secs as [|sec' secs]; [inversion H2|].
    destruct (IH Hp Hs) as (Hle & pre & items_q & -> & Hr & Hup).
    pose proof (proj1 (rep_chs_span h) _ _ _ H1). split; [lia|].
    exists (sec ++ items ++ pre), items_q. rewrite <- !app_assoc. split_and!; [done..|].
    intros h' hi' items' Hsame Hr'. rewrite <- !app_assoc. econstructor.
    + eapply rep_chs_frame; [done|]. intros r Hr''. apply Hsame. lia.
    + apply Hup; [|done]. intros r Hr''. apply Hsame. lia.
Qed.

(** What is under the root, seen from the top of the stack. *)
Lemma path_focus h p rest hi items :
  path h (p :: rest) → rep h p hi items →
  ∃ top, last (p :: rest) = Some top ∧ (p ≤ top)%nat ∧
    (∀ r, r ∈ removelast (p :: rest) → (r < top)%nat) ∧
    ∃ pre items_t, items = pre ++ items_t ∧ rep h top hi items_t ∧
      ∀ h' hi' items', same_in h h' p top → rep h' top hi' items' → rep h' p hi' (pre ++ items').
Proof.
  intros Hpath. remember (p :: rest) as l eqn:El. revert p rest El items.
  induction Hpath as [p|p q rest n Hn Hc Hs Hpath IH]; intros p' rest' [= <- <-] items Hr.
  - exists p. split; [done|]. split; [done|]. split; [by intros r ?%not_elem_of_nil|].
    exists [], items. split_and!; [done..|]. by intros.
  - inversion Hr as [? ? n' ? Hn' Hch]; subst. rewrite Hn in Hn'. injection Hn' as <-.
    destruct (chs_focus _ _ _ _ _ _ _ Hch Hc Hs) as (Hle & pre & items_q & -> & Hq & Hup).
    destruct (IH _ _ eq_refl _ Hq) as (top & Ht & Htle & Hlt & pre' & items_t & -> & Htop & Hup').
    exists top. split; [done|]. split; [lia|]. split.
    { intros r. change (removelast (p :: q :: rest)) with (p :: removelast (q :: rest)).
      intros [->|Hin]%elem_of_cons; [lia|by apply Hlt]. }
    exists (pre ++ pre'), items_t. rewrite <- app_assoc. split_and!; [done..|].
    intros h' hi' items' Hsame Hr'. rewrite <- app_assoc. econstructor.
    + rewrite Hsame; [done|lia].
    + apply Hup; [intros r ?; apply Hsame; lia|]. apply Hup'; [|done]. intros r ?. apply Hsame. lia.
Qed.

Lemma path_frame h h' l :
  path h l → (∀ r, r ∈ removelast l → h_nodes h' !! r = h_nodes h !! r) → path h' l.
Proof.
  induction 1 as [p|p q rest n Hn Hc Hs Hp IH]; intros H; [constructor|].
  change (removelast (p :: q :: rest)) with (p :: removelast (q :: rest)) in H.
  econstructor; [|done..|].
  - rewrite H; [done|apply list_elem_of_here].
  - apply IH. intros r Hr. apply H. by apply list_elem_of_further.
Qed.

Lemma path_snoc h l t n q :
  path h l → last l = Some t → h_nodes h !! t = Some n → last (tn_childrens n) = Some q →
  last (tn_sections n) = Some [] → path h (l ++ [q]).
Proof.
  intros Hp Ht Hn Hc Hs. induction Hp as [p|p q' rest n' Hn' Hc' Hs' Hp IH].
  - injection Ht as <-. econstructor; [done..|constructor].
  - simpl. econstructor; [done..|]. by apply IH.
Qed.

Lemma path_pop h l : path h l → removelast l ≠ [] → path h (removelast l).
Proof.
  induction 1 as [p|p q rest n Hn Hc Hs Hp IH]; [done|]. intros _.
  change (removelast (p :: q :: rest)) with (p :: removelast (q :: rest)).
  destruct rest as [|r rest]; [constructor|].
  change (removelast (q :: r :: rest)) with (q :: removelast (r :: rest)) in *.
  econstructor; [done..|]. by apply IH.
Qed.
End tree.

(** * What is recorded *)

(** The reference: one log of all steps, and for every open call where its last step is in it. *)
Record Log : Type := mkLog {
  lg_steps : list OpcodeGasInfo;
  lg_lasts : list (option nat);
}.

Section order.
Context {Meta : Type}.
Implicit Types (g : GasInspector Meta) (s : Log) (e : Event Meta).

Definition log_event e s : panics Log :=
  match e with
  | Enter _ => Some (mkLog (lg_steps s) (lg_lasts s ++ [None]))
  | Exit => Some (mkLog (lg_steps s) (removelast (lg_lasts s)))
  | Step opcode gas depth =>
      opcode ← opcode;
      Some (match last (lg_lasts s) with
            | Some _ =>
                mkLog (lg_steps s ++ [mkGasInfo opcode gas gas depth])
                  (removelast (lg_lasts s) ++ [Some (length (lg_steps s))])
            | None => s
            end)
  | StepEnd gas =>
      l ← last (lg_lasts s);
      i ← l;
      info ← lg_steps s !! i;
      Some (mkLog (<[i := mkGasInfo (gi_opcode info) (gi_gas_before info) gas (gi_depth info)]> (lg_steps s))
              (lg_lasts s))
  end.

Definition log_events (es : list (Event Meta)) s : panics Log :=
  foldl (λ (m : option Log) e, s ← m; log_event e s) (Some s) es.

(** The last step of a node. *)
Definition last_of (h : Heap Meta) (p : nat) (l : option nat) : Prop :=
  ∃ n, h_nodes h !! p = Some n ∧ last (concat (tn_sections n)) = l.

Record inspector_inv g s : Prop := mkInspectorInv {
  ii_items : h_items (in_heap g) = lg_steps s;
  ii_trace : in_trace g = Some 0%nat;
  ii_tree : rep (in_heap g) 0 (length (h_nodes (in_heap g))) (seq 0 (length (lg_steps s)));
  ii_stack : in_stack g = [] ∨ ∃ rest, in_stack g = 0%nat :: rest ∧ path (in_heap g) (in_stack g);
  ii_lasts : Forall2 (last_of (in_heap g)) (in_stack g) (lg_lasts s);
}.

Lemma inv_records g s : inspector_inv g s → records g = Some (lg_steps s).
Proof.
  intros [Hi Ht Hr _ _]. unfold records. rewrite Ht.
  rewrite (proj1 (rep_chs_flattened _) _ _ _ Hr) by lia. simpl. rewrite Hi. clear.
  apply mapM_Some_2. apply Forall2_same_length_lookup_2; [by rewrite length_seq|].
  intros i x y Hx Hy. apply lookup_seq in Hx as [-> _]. done.
Qed.

Lemma last_of_frame h h' l ls :
  Forall2 (last_of h) l ls → (∀ r, r ∈ l → h_nodes h' !! r = h_nodes h !! r) → Forall2 (last_of h') l ls.
Proof.
  induction 1 as [|p x l ls (n & Hn & Hx) _ IH]; intros H; constructor.
  - exists n. rewrite H; [done|apply list_elem_of_here].
  - apply IH. intros r Hr. apply H. by apply list_elem_of_further.
Qed.

Lemma Forall2_removelast {A B} (P : A → B → Prop) l k :
  Forall2 P l k → Forall2 P (removelast l) (removelast k).
Proof. induction 1 as [|x y l k Hx H IH]; [done|]. destruct H; [done|]. by constructor. Qed.

Lemma Forall2_last_case {A B} (P : A → B → Prop) l k :
  Forall2 P l k →
  l = [] ∧ k = [] ∨
  ∃ l' x k' y, l = l' ++ [x] ∧ k = k' ++ [y] ∧ Forall2 P l' k' ∧ P x y.
Proof.
  induction 1 as [|x y l k Hx H IH]; [by left|]. right.
  destruct IH as [[-> ->]|(l' & x' & k' & y' & -> & -> & Hf & Hp)].
  - by exists [], x, [], y.
  - exists (x :: l'), x', (y :: k'), y'. split_and!; [done..| |done]. by constructor.
Qed.

Lemma concat_insert_last (secs : list (list nat)) sec (x : nat) :
  last secs = Some sec → concat (<[pred (length secs) := sec ++ [x]]> secs) = concat secs ++ [x].
Proof.
  intros H. destruct (last_Some secs sec) as [Hl _]. destruct (Hl H) as [l ->].
  rewrite length_app, Nat.add_comm. simpl. rewrite insert_app_r_alt by lia.
  rewrite Nat.sub_diag. simpl. rewrite !concat_app. simpl. by rewrite !app_nil_r, app_assoc.
Qed.

(** The node on top of the stack. *)
Lemma inv_top g s l t :
  inspector_inv g s → in_stack g = l ++ [t] →
  let h := in_heap g in
  let N := length (h_nodes h) in
  ∃ pre items n, seq 0 (length (lg_steps s)) = pre ++ items ∧ h_nodes h !! t = Some n ∧
    chs h (S t) N (tn_sections n) (tn_childrens n) items ∧ (∀ r, r ∈ l → (r < t)%nat) ∧
    path h (l ++ [t]) ∧ (t < N)%nat ∧
    ∀ h' hi' items', same_in h h' 0 t → rep h' t hi' items' → rep h' 0 hi' (pre ++ items').
Proof.
  intros [_ _ Hr Hs _] El h N. destruct Hs as [Hs|(rest & Hs & Hp)]; [rewrite Hs in El; by destruct l|].
  rewrite Hs in Hp. destruct (path_focus _ _ _ _ _ Hp Hr) as (top & Ht & _ & Hlt & pre & items & Hq & Htop & Hup).
  rewrite <- Hs, El in Hp. rewrite <- Hs, El in Hlt. rewrite <- Hs, El, last_snoc in Ht. injection Ht as <-.
  rewrite removelast_last in Hlt. inversion Htop as [? ? n ? Hn Hch]; subst.
  exists pre, items, n. split_and!; try done. by eapply lookup_lt_Some.
Qed.

Lemma on_step_inv opcode gas depth g s l t k y :
  inspector_inv g s → in_stack g = l ++ [t] → lg_lasts s = k ++ [y] →
  ∃ g', on_step (Some opcode) gas depth g = Some g' ∧
    inspector_inv g' (mkLog (lg_steps s ++ [mkGasInfo opcode gas gas depth])
                        (k ++ [Some (length (lg_steps s))])).
Proof.
  intros Hinv El Ek. destruct (inv_top _ _ _ _ Hinv El) as (pre & items & n & Hq & Hn & Hch & Hlt & Hp & HN & Hup).
  destruct Hinv as [Hi Ht Hr Hs Hl]. unfold on_step. simpl. rewrite El, last_snoc. unfold add_item. rewrite Hn. simpl.
  set (x := length (h_items (in_heap g))).
  destruct (chs_add_item _ _ _ _ _ _ x Hch) as (Hlen & sec & Hsec & Hch'). rewrite Hsec. simpl.
  eexists. split; [done|]. set (n' := mkNode _ _ _ _). set (h' := mkHeap _ _).
  assert (Hother : ∀ r, r ≠ t → h_nodes h' !! r = h_nodes (in_heap g) !! r)
    by (intros r Hr'; by apply list_lookup_insert_ne).
  assert (Htop : h_nodes h' !! t = Some n') by (by apply list_lookup_insert_eq).
  assert (Hlast : last (tn_sections n) = Some sec) by (rewrite last_lookup, Hlen; done).
  split; simpl.
  - by rewrite Hi.
  - done.
  - rewrite length_insert, length_app, seq_app, Hq, <- app_assoc. simpl. rewrite <- Hi.
    apply Hup; [intros r ?; apply Hother; lia|].
    econstructor; [exact Htop|]. simpl. eapply rep_chs_frame; [exact Hch'|].
    intros r ?. apply Hother. lia.
  - right. destruct Hs as [Hs|(rest & Hs & _)]; [rewrite Hs in El; by destruct l|].
    exists rest. split; [congruence|]. eapply path_frame; [exact Hp|].
    rewrite removelast_last. intros r Hr'. apply Hother. specialize (Hlt r Hr'). lia.
  - rewrite El in Hl. rewrite Ek in Hl. apply Forall2_app_inv in Hl as [Hl _];
      [|apply Forall2_length in Hl; rewrite !length_app in Hl; simpl in Hl; lia].
    apply Forall2_app.
    + eapply last_of_frame; [exact Hl|]. intros r Hr'. apply Hother. specialize (Hlt r Hr'). lia.
    + constructor; [|done]. exists n'. split; [done|]. simpl.
      replace (length (tn_childrens n)) with (pred (length (tn_sections n))) by lia.
      rewrite (concat_insert_last _ _ _ Hlast), last_snoc. by subst x; rewrite Hi.
Qed.

Lemma enter_inv meta g s l t k y :
  inspector_inv g s → in_stack g = l ++ [t] → lg_lasts s = k ++ [y] →
  ∃ g', on_enter meta g = Some g' ∧ inspector_inv g' (mkLog (lg_steps s) (lg_lasts s ++ [None])).
Proof.
  intros Hinv El Ek. destruct (inv_top _ _ _ _ Hinv El) as (pre & items & n & Hq & Hn & Hch & Hlt & Hp & HN & Hup).
  destruct Hinv as [Hi Ht Hr Hs Hl]. unfold on_enter, node_new. rewrite El, last_snoc. unfold add_child.
  cbn [h_nodes]. rewrite lookup_app_l, Hn by done. simpl. rewrite Ht.
  eexists. split; [done|]. unfold write_node. cbn [h_nodes h_items].
  set (N := length (h_nodes (in_heap g))) in *. set (n' := mkNode _ _ (_ ++ _) _). set (h' := mkHeap _ _).
  assert (Hother : ∀ r, (r < N)%nat → r ≠ t → h_nodes h' !! r = h_nodes (in_heap g) !! r).
  { intros r Hr' Hne. simpl. rewrite list_lookup_insert_ne by done. by apply lookup_app_l. }
  assert (Htop : h_nodes h' !! t = Some n').
  { simpl. rewrite list_lookup_insert_eq; [done|]. rewrite length_app. lia. }
  assert (Hnew : rep h' N (S N) []).
  { apply (rep_node _ _ _ (mkNode meta (Some t) [[]] [])); [|constructor]. simpl. rewrite list_lookup_insert_ne by lia.
    by rewrite lookup_app_r, Nat.sub_diag by lia. }
  assert (HN' : length (h_nodes h') = S N) by (simpl; rewrite length_insert, length_app; simpl; lia).
  split; cbn [in_heap in_stack in_trace lg_steps lg_lasts].
  - done.
  - done.
  - rewrite HN', Hq, <- (app_nil_r items). apply Hup; [intros r ?; apply Hother; lia|].
    econstructor; [exact Htop|]. simpl. eapply chs_add_child; [|exact Hnew].
    eapply rep_chs_frame; [exact Hch|]. intros r ?. apply Hother; lia.
  - right. destruct Hs as [Hs|(rest & Hs & _)]; [rewrite Hs in El; by destruct l|].
    exists (rest ++ [N]). split; [rewrite <- El, Hs; done|].
    eapply path_snoc; [|apply last_snoc|exact Htop|apply last_snoc|apply last_snoc].
    eapply path_frame; [exact Hp|]. rewrite removelast_last. intros r Hr'. specialize (Hlt r Hr').
    apply Hother; lia.
  - rewrite El, Ek in Hl. rewrite Ek. apply Forall2_app_inv in Hl as [Hl Hlt'];
      [|apply Forall2_length in Hl; rewrite !length_app in Hl; simpl in Hl; lia].
    apply Forall2_app; [apply Forall2_app|].
    + eapply last_of_frame; [exact Hl|]. intros r Hr'. specialize (Hlt r Hr'). apply Hother; lia.
    + apply Forall2_cons in Hlt' as [(n0 & Hn0 & <-) _]. rewrite Hn in Hn0. injection Hn0 as <-.
      constructor; [|done]. exists n'. split; [done|]. simpl. rewrite concat_app. simpl. by rewrite app_nil_r.
    + constructor; [|done]. inversion Hnew as [? ? n0 ? Hn0 _]; subst. exists n0. split; [done|].
      simpl in Hn0. rewrite list_lookup_insert_ne, lookup_app_r, Nat.sub_diag in Hn0 by lia.
      by injection Hn0 as <-.
Qed.

Lemma exit_inv g s :
  inspector_inv g s → inspector_inv (on_exit g) (mkLog (lg_steps s) (removelast (lg_lasts s))).
Proof.
  intros [Hi Ht Hr Hs Hl]. split; try done; [|by apply Forall2_removelast].
  unfold on_exit. simpl. destruct Hs as [->|(rest & Hs & Hp)]; [by left|].
  destruct (decide (removelast (in_stack g) = [])) as [|Hne]; [by left|]. right.
  pose proof (path_pop _ _ Hp Hne) as Hp'. rewrite Hs in *. destruct rest as [|q rest]; [done|].
  by exists (removelast (q :: rest)).
Qed.

(** A store with the same nodes has the same trees. *)
Lemma step_end_inv gas g s :
  inspector_inv g s →
  match log_event (StepEnd gas) s with
  | Some s' => ∃ g', on_step_end gas g = Some g' ∧ inspector_inv g' s'
  | None => on_step_end gas g = None
  end.
Proof.
  intros [Hi Ht Hr Hs Hl]. unfold on_step_end, log_event.
  destruct (Forall2_last_case _ _ _ Hl) as [[El Ek]|(l & t & k & y & El & Ek & Hf & (n & Hn & Hy))].
  { by rewrite El, Ek. }
  rewrite El, Ek, !last_snoc. simpl. unfold last_item. rewrite Hn. simpl. rewrite Hy.
  destruct y as [i|]; [|done]. simpl. rewrite Hi.
  destruct (lg_steps s !! i) as [info|] eqn:Hx; [|done]. simpl. eexists. split; [done|]. split; simpl.
  - done.
  - done.
  - rewrite length_insert. eapply rep_chs_frame; [exact Hr|]. by intros q _.
  - rewrite El in Hs. destruct Hs as [|(rest & Hs & Hp)]; [by left|]. right. exists rest.
    split; [done|]. eapply path_frame; [exact Hp|]. done.
  - rewrite <- El, <- Ek. by eapply last_of_frame.
Qed.

(** Calls are only entered while the first one is open. *)
Fixpoint nested (depth : nat) (es : list (Event Meta)) : bool :=
  match es with
  | [] => true
  | Enter _ :: es => (0 <? depth)%nat && nested (S depth) es
  | Exit :: es => nested (pred depth) es
  | _ :: es => nested depth es
  end.

Definition depth_after (depth : nat) e : nat :=
  match e with Enter _ => S depth | Exit => pred depth | _ => depth end.

Lemma event_inv e g s :
  inspector_inv g s → (match e with Enter _ => lg_lasts s ≠ [] | _ => True end) →
  match log_event e s with
  | Some s' => (∃ g', on_event e g = Some g' ∧ inspector_inv g' s') ∧
      length (lg_lasts s') = depth_after (length (lg_lasts s)) e
  | None => on_event e g = None
  end.
Proof.
  intros Hinv Hd. pose proof (ii_lasts _ _ Hinv) as Hl.
  destruct e as [meta| |[opcode|] gas depth|gas]; [..|done|].
  - destruct (Forall2_last_case _ _ _ Hl) as [[_ ?]|(l & t & k & y & El & Ek & _)]; [done|].
    split; [by eapply enter_inv|]. simpl. rewrite length_app. simpl. lia.
  - split; [eexists; split; [done|by apply exit_inv]|]. simpl.
    destruct (lg_lasts s) as [|y k]; [done|]. rewrite removelast_firstn_len, length_take. simpl. lia.
  - simpl. destruct (Forall2_last_case _ _ _ Hl) as [[El Ek]|(l & t & k & y & El & Ek & _)].
    + rewrite Ek. simpl. split; [|by rewrite Ek]. exists g. unfold on_step. simpl. by rewrite El.
    + rewrite Ek, last_snoc, removelast_last. split; [by eapply on_step_inv|]. simpl. by rewrite !length_app.
  - pose proof (step_end_inv gas g s Hinv) as H.
    destruct (log_event (StepEnd gas) s) as [s'|] eqn:Hs; [|done]. split; [done|].
    simpl in Hs. destruct (last (lg_lasts s)) as [[i|]|]; try done. simpl in Hs.
    destruct (lg_steps s !! i); [|done]. by injection Hs as <-.
Qed.

Lemma inspect_none es : foldl (λ (m : option (GasInspector Meta)) e, g ← m; on_event e g) None es = None.
Proof. by induction es. Qed.
Lemma log_none es : foldl (λ (m : option Log) (e : Event Meta), s ← m; log_event e s) None es = None.
Proof. by induction es. Qed.

Lemma inspect_log es g s :
  inspector_inv g s → nested (length (lg_lasts s)) es = true →
  (inspect es g ≫= records) = lg_steps <$> log_events es s.
Proof.
  revert g s. induction es as [|e es IH]; intros g s Hinv Hn; [by apply inv_records|].
  assert (Hd : match e with Enter _ => lg_lasts s ≠ [] | _ => True end).
  { destruct e; try done. simpl in Hn. intros Hl. by rewrite Hl in Hn. }
  pose proof (event_inv e g s Hinv Hd) as H. unfold inspect, log_events. simpl.
  destruct (log_event e s) as [s'|].
  - destruct H as [(g' & -> & Hinv') Hlen]. apply (IH g' s' Hinv'). rewrite Hlen.
    destruct e; simpl in *; try done. by apply andb_true_iff in Hn as [_ ?].
  - rewrite H. simpl. by rewrite inspect_none, log_none.
Qed.

(** The records of an inspected call are its steps in the order in which they ran, those of the
    calls in it included, each with the gas after it once it has ended: a tree of shared nodes is
    read as one log.  The inspector panics exactly when a step ends that has not
    begun or a byte is no opcode. *)
Lemma records_in_order meta es :
  nested 1 es = true →
  (inspect (Enter meta :: es) inspector_new ≫= records) = lg_steps <$> log_events es (mkLog [] [None]).
Proof.
  intros Hn. unfold inspect. simpl. apply inspect_log; [|done]. split; simpl; try done.
  - eapply (rep_node _ _ _ (mkNode meta None [[]] [])); [done|constructor].
  - right. exists []. split; [done|constructor].
  - constructor; [|done]. by eexists.
Qed.

(** * Traversals *)

Lemma imap_visits location p idx (sec : list nat) :
  vs_item <$> imap (λ j x, mkVisit location p (idx, j) x) sec = sec.
Proof. rewrite fmap_imap. apply list_eq. intros i. rewrite list_lookup_imap. by destruct (sec !! i). Qed.

(** [iterate_with] visits the items in the order of [flattened_items]. *)
Lemma iterate_flattened fuel (h : Heap Meta) p location items :
  flattened_items fuel h p = Some items →
  (∀ q n, h_nodes h !! q = Some n → length (tn_sections n) = S (length (tn_childrens n))) →
  ∃ vs, iterate_with_inner fuel h p location = Some vs ∧ vs_item <$> vs = items.
Proof.
  intros H Hw. revert p location items H.
  induction fuel as [|fuel IH]; intros p location items H; [done|].
  simpl in *. destruct (h_nodes h !! p) as [n|] eqn:Hn; [|done]. simpl in *.
  pose proof (Hw _ _ Hn) as Hlen. clear Hn.
  assert (∀ done ptrs, tn_childrens n = done ++ ptrs → ∀ secs items, length secs = S (length ptrs) →
    interleave (flattened_items fuel h) secs ptrs = Some items →
    ∃ vs, iterate_sections (iterate_with_inner fuel h) p location (tn_childrens n) (length done) secs = Some vs ∧
      vs_item <$> vs = items) as Hgo.
  { intros done ptrs. revert done. induction ptrs as [|c ptrs IHp]; intros done Hc secs its Hl Hi.
    - destruct secs as [|sec [|? ?]]; try done. injection Hi as <-. eexists. split; [done|]. apply imap_visits.
    - destruct secs as [|sec secs]; [done|]. simpl in Hi.
      destruct (flattened_items fuel h c) as [sub|] eqn:Hs; [|done]. simpl in Hi.
      destruct (interleave _ secs ptrs) as [rest|] eqn:Hrest; [|done]. injection Hi as <-.
      destruct (IH c (location ++ [length done]) sub Hs) as (vs1 & Hv1 & <-).
      destruct (IHp (done ++ [c])) with (secs := secs) (items := rest) as (vs2 & Hv2 & <-);
        [by rewrite <- app_assoc|by simpl in Hl; lia|done|].
      rewrite length_app, Nat.add_1_r in Hv2. cbn [iterate_sections].
      destruct secs as [|sec' secs]; [simpl in Hl; lia|].
      rewrite Hc, lookup_app_r, Nat.sub_diag by lia. cbn [lookup list_lookup mbind option_bind].
      rewrite Hv1. cbn [mbind option_bind]. rewrite Hc in Hv2. rewrite Hv2. cbn [mbind option_bind].
      eexists. split; [done|]. by rewrite !fmap_app, imap_visits. }
  by apply (Hgo [] (tn_childrens n)).
Qed.

Lemma get_node_app (h : Heap Meta) p l l' q :
  get_node h p l = Some (Some q) → get_node h p (l ++ l') = get_node h q l'.
Proof.
  revert p. induction l as [|i l IH]; intros p; simpl; [by intros [= ->]|].
  destruct (h_nodes h !! p); simpl; [|done]. destruct (tn_childrens t !! i); simpl; [apply IH|done].
Qed.

(** A location that is visited leads back to its item. *)
Lemma visited_location (h : Heap Meta) root fuel p location vs v :
  get_node h root location = Some (Some p) → iterate_with_inner fuel h p location = Some vs → v ∈ vs →
  get_item_nested h root (vs_node_location v) (vs_item_location v) = Some (Some (vs_item v)).
Proof.
  revert p location vs. induction fuel as [|fuel IH]; intros p location vs Hp H Hv; [done|].
  simpl in H. destruct (h_nodes h !! p) as [n|] eqn:Hn; [|done]. simpl in H.
  assert (∀ secs done vs, tn_sections n = done ++ secs →
    iterate_sections (iterate_with_inner fuel h) p location (tn_childrens n) (length done) secs = Some vs →
    v ∈ vs → get_item_nested h root (vs_node_location v) (vs_item_location v) = Some (Some (vs_item v))) as Hgo.
  { clear vs H Hv. induction secs as [|sec secs IHs]; intros done vs Hsec H Hv.
    { injection H as <-. by apply not_elem_of_nil in Hv. }
    cbn [iterate_sections] in H. set (here := imap _ sec) in H.
    assert (Hhere : v ∈ here →
      get_item_nested h root (vs_node_location v) (vs_item_location v) = Some (Some (vs_item v))).
    { intros Hin. apply elem_of_lookup_imap_1 in Hin as (j & x & -> & Hx). simpl. unfold get_item_nested.
      rewrite Hp. simpl. unfold get_item. rewrite Hn. simpl. rewrite Hsec, lookup_app_r, Nat.sub_diag by lia.
      simpl. by rewrite Hx. }
    destruct secs as [|sec' secs]; [injection H as <-; by apply Hhere|].
    bind_inv H. bind_inv H. bind_inv H. injection H as <-.
    apply elem_of_app in Hv as [Hv|[Hv|Hv]%elem_of_app]; [by apply Hhere| |].
    - eapply IH; [|done..]. rewrite (get_node_app _ _ _ _ _ Hp). simpl. rewrite Hn. simpl. by rewrite E.
    - eapply (IHs (done ++ [sec])); [by rewrite <- app_assoc|by rewrite length_app, Nat.add_1_r|done]. }
  by apply (Hgo (tn_sections n) [] vs).
Qed.

(** An invalid location panics. *)
Lemma get_node_out_of_bounds (meta : Meta) : get_node (mkHeap [mkNode meta None [[]] []] []) 0 [0%nat] = None.
Proof. done. Qed.
End order.

(** A call in a call: the items of the outer one are in two sections, around the inner one. *)
Example nested_call :
  let es := [Enter 1; Step (Some 96) 100 1; StepEnd 97; Step (Some 241) 97 1; StepEnd 90; Enter 2; Step (Some 0) 63 2; StepEnd 63;
             Exit; Step (Some 0) 95 1; StepEnd 95; Exit] in
  (inspect es inspector_new ≫= records) =
    Some [mkGasInfo 96 100 97 1; mkGasInfo 241 97 90 1; mkGasInfo 0 63 63 2; mkGasInfo 0 95 95 1] ∧
  (g ← inspect es inspector_new; get_item_nested (in_heap g) 0 [0] (0, 0))%nat = Some (Some 2%nat).
Proof. split; reflexivity. Qed.

(** * [evm.rs] *)

(** The fields of [TxEnv] that are set; the others have their defaults. *)
Record TransactTx : Type := mkTransactTx {
  tt_caller : Address;
  tt_callee : option Address;
  tt_data : Bytes;
  tt_value : U256;
  tt_gas_limit : Z;
}.

Definition TRANSACT_GAS_LIMIT : Z := 1000000000000000000.

Section transact.
Context `{R : Revm} `{RS : RevmState} {J : Type} `{HJ : !JournalInspectTr J} {W : Type}.
Context `{HH : !OpHost J W}.
Context `{HA : SystemAbi} `{HL : !LocalContext W} `{HK : !KeylessDeploy J W EmptyExternalEnv EmptyExternalEnv}.
Context `{HE : !OpEvm (J := J) (W := W) (S := EmptyExternalEnv) (O := EmptyExternalEnv)}.
Context `{HV : !OpValidation J W EmptyExternalEnv EmptyExternalEnv}.
Context {DB : Type} `{HB : !EvmParts J W DB} `{HP : !OpPrecompiles J W} `{HD : ExecuteDefaults}.
Context (from_frame_error : frame_error → upstream_error).
Context (from_tx_error : TxError frame_error → upstream_error).
Context (op_catch_error : ValidationError DBError upstream_error →
  step (J := J) (W := W) (S := EmptyExternalEnv) (O := EmptyExternalEnv)
    (ExecutionResult exec_data OpHaltReason)).
(** [MegaTransaction::new] with an enveloped transaction; the chain of a context, and its operator
    fee scalar and constant. *)
Context (raw_of : TransactTx → option Bytes → RawTx (EvmParts := HB)).
Context (op_chain : W → L1BlockInfo (EvmParts := HB)).
Context (l1_operator_fees : U256 → U256 → L1BlockInfo (EvmParts := HB) → L1BlockInfo (EvmParts := HB)).

Local Notation error := (ValidationError DBError upstream_error).
Local Notation result_t := (ExecutionResult exec_data (MegaHaltReason OpHaltReason)).

(** The context: without operator fees, and otherwise that of the spec. *)
Definition transact_context (spec : MegaSpecId) (d : DB)
    : panics (MegaContext J W EmptyExternalEnv EmptyExternalEnv) :=
  ctx ← context_new d spec;
  Some (with_chain (l1_operator_fees 0 0 (op_chain (op_world (inner ctx)))) ctx).

Definition transact (spec : MegaSpecId) (d : DB) (caller : Address) (callee : option Address)
    (data : Bytes) (value : U256) : panics (result (result_t * EvmState) error) :=
  ctx ← transact_context spec d;
  let tx := raw_of (mkTransactTx caller callee data value TRANSACT_GAS_LIMIT) (Some []) in
  '(_, r) ← transact_raw from_frame_error from_tx_error op_catch_error tx (evm_new ctx);
  Some r.

(** The transaction runs under the limits of its spec. *)
Lemma transact_limited spec d ctx :
  transact_context spec d = Some ctx →
  ctx_spec ctx = spec ∧ additional_limit ctx = AdditionalLimit.new spec (from_spec spec) ∧
  volatile_data_tracker ctx =
    Access.new (block_env_access_compute_gas_limit (from_spec spec))
      (oracle_access_compute_gas_limit (from_spec spec)).
Proof.
  unfold transact_context, context_new, new_with_shared_ext_envs. intros H.
  bind_inv H. bind_inv E. injection E as <-. by injection H as <-.
Qed.
End transact.
